(* ===== verification/_CoqProject ===== *)
-Q . S2P
Prelude.v
Spinlock.v
Core.v
Ring.v
CString.v
Proc.v
Stride.v
ProcInv.v
ProcSteps.v
Kalloc.v
Vm.v
VmFacts.v
Bio.v
BioFacts.v
Cache.v
Log.v
LogFacts.v
Console.v
Kbd.v
Fs.v
Pipe.v
Duo.v
ConsoleFacts.v
KbdFacts.v
PipeFacts.v
File.v
Syscall.v
Trap.v
Sysfile.v
Elf.v
Exec.v
Boot.v
BootFacts.v
Mp.v
MpFacts.v
Intr.v
IntrFacts.v
Ide.v
IdeFacts.v
Umalloc.v
UmallocFacts.v
User.v
PrintFacts.v
Grep.v
GrepFacts.v
Sh.v
ShFacts.v
ShRoundtrip.v
Frame.v
FsPath.v
FsInode.v
Tx.v
FsAlloc.v
FsFile.v
FsWrite.v
FsIcache.v
FsDir.v
FsNamei.v
Mkfs.v
MkfsFacts.v
MkfsImage.v
MkfsBoot.v
SyscallFacts.v
TrapFacts.v
UvmFacts.v
CopyFacts.v
GrowFacts.v
Quiet.v
KernelSafe.v
Kernel.v
FirstProc.v
Main.v
MainFacts.v
