(* ===== verification/Prelude.v ===== *)
(** * xv6 with a stride scheduler: verification library

    The repository is an xv6 kernel (one-transaction log, 512-byte blocks) whose
    scheduler was replaced by stride scheduling: [fork] takes a number of
    tickets, a process carries [step] and [sizeStep], and the scheduler runs the
    runnable process with the least [step].  This library models the kernel's C
    code and the user programs that have logic of their own, and proves what
    makes each part correct.

    ** How code is modelled

    A kernel function is a value of [M S A], a function from a state [S] to an
    [outcome]: it returns a value and a state, calls [panic], goes to sleep (the
    run stops in the state the scheduler finds, and what the process does when
    it has the CPU back is a function of its own, with [_resume] in its name), or
    has no defined behaviour in C ([Fault]: a null or wild pointer, an array
    index out of range).  A component's functions are written for any state that
    contains the component's, by way of the class [Lens]; a lens is the interface
    between components that share a state, and a theorem about a component holds
    in every larger state.  Machine integers are [Z] in range, with the
    wrap-around of [u32], [i32] and the like written where the C type has it.
    Pointers into kernel tables are indices, a null pointer is [None]; memory
    that is used as raw bytes (page tables, free pages, user memory) is
    byte-addressed.  One CPU runs kernel code at a time between sleeps, which is
    what the locks are for; [Spinlock] proves that from the instructions of
    several CPUs, and every other file uses the set of held locks it refines to.

    ** Files

    - [Prelude]: integers, outcomes, [M], lenses, weakest preconditions ([wp]
      for returning runs, [wpb] and [wlp] where a run may sleep or panic), lists as
      C arrays, little-endian words.
    - [Spinlock] (spinlock.c): [Smp], acquire and release as atomic steps of
      several CPUs; [Held], the specification.  [Core] (proc.c, proc.h): the
      process table, sleep and wakeup.  [Ring]: ring buffers with free-running
      indices.  [Duo]: running code on [core] and one more component.
    - [CString] (string.c, ulib.c): memory and string functions.
    - [Proc] (proc.c, sysproc.c), [Stride], [ProcInv], [ProcSteps]: processes, the
      scheduler, and the kernel's life as a sequence of operations.  What proc.c
      needs of memory and files is the class [KernelEnv] with its laws.
    - [Kalloc] (kalloc.c); [Vm], [VmFacts] (vm.c); user address spaces: [UvmFacts]
      (setupkvm, deallocuvm, freevm), [CopyFacts] (copyuvm), [GrowFacts] (allocuvm).
    - [Bio], [BioFacts] (bio.c, memide.c), [Cache]: the buffer cache, its list, and
      the interface it offers to the log: blocks of a disk that can be read and
      replaced.  [Ide], [IdeFacts] (ide.c).
    - [Log], [LogFacts] (log.c) on [Cache].  [Tx]: rules for code inside a
      transaction.  [Frame]: what code leaves alone.
    - [Fs] (fs.c, fs.h), with [FsPath] (path names), [FsInode] (inodes in blocks),
      [FsAlloc] (block allocator), [FsFile] and [FsWrite] (file contents),
      [FsIcache] (reference counts), [FsDir] (directories) and [FsNamei] (path
      lookup).  [Mkfs] (mkfs.c), with [MkfsFacts] (inodes and their blocks),
      [MkfsImage] (the whole image) and [MkfsBoot] (the kernel on that image).
    - [Pipe], [PipeFacts] (pipe.c); [Console], [ConsoleFacts] (console.c,
      procdump); [Kbd], [KbdFacts] (kbd.c, kbd.h); [PrintFacts] (printint, atoi).
    - [File] (file.c), [Syscall], [SyscallFacts] (syscall.c), [Trap],
      [TrapFacts] (trap.c, sysproc.c), [Sysfile] (sysfile.c), [Exec] (exec.c).
    - [Elf] (elf.h); [Boot], [BootFacts] (bootmain.c); [Mp], [MpFacts] (mp.c, mp.h);
      [Intr], [IntrFacts] (picirq.c, ioapic.c, lapic.c, timer.c, uart.c,
      consoleinit).
    - The kernel put together: [Kernel] implements [KernelEnv] by the models of
      memory, files, the log and the console over one state and proves its laws,
      with [Quiet] (what code does to locks and the process table) and
      [KernelSafe] (that, function by function); [FirstProc] (inituvm, userinit on
      this kernel); [Main], [MainFacts] (main.c).
    - [User] (printf.c, ulib.c, cat.c, wc.c, ls.c and other small commands),
      [Umalloc], [UmallocFacts] (umalloc.c), [Grep], [GrepFacts] (grep.c), [Sh], [ShFacts],
      [ShRoundtrip] (sh.c), against the class [Sys] of system calls.

    A definition has the name of the C function it translates; a loop is a
    function with [_loop], [_scan] or the like after it.

    ** What the theorems show

    - Processes: from boot on, every sequence of the operations of proc.c, and of
      other kernel code that only sleeps and wakes, keeps the process table well
      formed, and no wakeup of [wait] is lost ([process_table_invariant]); fork, exit, wait and kill on every branch.
    - Scheduling: the scheduler takes the least step; two processes share the
      CPU in inverse proportion to their strides up to one stride
      ([stride_fairness]); the step limit is reached after finitely many quanta
      and then nothing runs ([scheduler_exhausts]); a newcomer starts at zero and
      has the CPU to itself until it has caught up ([newcomer_monopoly]).
    - Locks: mutual exclusion, interrupts off for an owner, and the refinement.
    - Memory: the free list never holds a page in use and never a page twice;
      [mappages] and [copyout] against the translation the hardware does; a
      forked child has its parent's bytes on pages of its own, and a failure
      gives back all pages but one, or, before the kernel's map is made, none
      ([copyuvm_correct]); freeing an address space loses
      no page ([freevm_correct]); growing one ([allocuvm_correct]); [malloc] and
      [free] keep the blocks of the heap disjoint and lose none of its bytes.
    - Disk: the cache is a least-recently-used list and keeps the contents;
      the driver serves requests in order and a finished buffer holds what the
      disk holds; after a crash at any write of a transaction, booting recovers
      all of it or nothing ([log_crash_atomic]).
    - Files: path elements, inodes and file contents are read back as written;
      [balloc] and [bfree] against the bitmap; reference counts are the number of
      pointers given out; a path leads where the directories on the disk say
      ([namex_resolves]).  mkfs makes a consistent image ([mkfs_image]) and the
      kernel reads back from it what mkfs was given ([mkfs_boot_read]).
    - Start-up and interrupts: the boot loader puts the kernel in its place
      ([boot_loads_kernel]); [main] gets to the scheduler with every page of memory
      accounted for and the first process ready, and from there on the whole
      kernel keeps the process table well formed ([main_boots], by
      [Kernel.kernel_env_ok]); the MP table is found where it can lie, and its
      processors and APICs are taken from it ([mpinit_correct]); exactly the enabled lines interrupt, with the vectors
      [trap] expects ([irq_routing]).
    - Pipes and console: a pipe is a queue of 512 bytes whatever the
      interleaving, and no wakeup is lost until a write has failed; the console is a line editor and hands out lines; the
      keyboard's codes become its bytes.
    - System calls and traps: what an argument that is accepted satisfies; a
      trap returns to user mode only for a live process.
    - User programs: numbers are read back as printed; the matcher of grep decides
      the language of its patterns; the shell's parser ends on every line and
      reads back every command line of its grammar.

    Where the code does not do what it means to, the theorem says what it does:
    a lost wakeup of a pipe ([PipeFacts.pipe_lost_wakeup]), the block allocator
    handing out log blocks ([FsAlloc.balloc_takes_log_block]), [argptr] and
    negative sizes ([SyscallFacts.syscall_args_checked]), a child born killed
    ([ProcSteps.fork_born_killed]), lines grep makes up ([GrepFacts.grep_stale_line]),
    a page lost while the address space is said to have grown
    ([GrowFacts.allocuvm_hole]), a root directory with a hole
    ([MkfsBoot.mkfs_root_hole]), an MP table on which start-up hangs
    ([MpFacts.mpinit_hangs]), and the scheduling theorems above.

    ** Fuel and bounds

    Loops that C writes with [for] or [while] are recursive on a counter that is
    computed where the loop is entered: the distance left (bytes, blocks,
    entries, buffers), which each turn decreases, so that the theorems about
    returning runs show it is enough.  Running out is [Fault], which those
    theorems exclude.  The shell's parser gets four times the length of the line
    and four more, and [ShFacts.sh_parse_ends] shows it suffices; [malloc] gets the
    number of blocks and the page-table loops the number of pages.  [mpinit] can
    loop for ever: its fuel is an argument, and the length of the table is
    enough when every entry has a known type.  Waiting for a device ([Boot],
    [Intr]) is bounded by an argument too, and the theorems assume a device that
    becomes ready within it.  The filters
    (cat, wc, grep, ls) read until the end of their input, which is not
    bounded; their fuel is an argument.  Sleeping loops have none: each wakeup is
    a new run.

    ** Hypotheses

    Theorems about a component in a larger state assume its invariant and that
    the locks it takes are free.  The file system's assume a disk laid out as
    mkfs does ([FsAlloc.fs_layout]).  What is not in the repository appears as
    arguments: what the disk controller answers (the theorem about [Ide]
    describes the controller as the ATA documents do), the bytes the keyboard
    sends, the words of the kernel stack a backtrace reads.  Devices with a state
    are classes with the laws of their documents and a concrete instance in
    each witness: [BootFacts.Drive] (the boot disk), [IntrFacts.Controllers] (8259As and
    I/O APIC), [IntrFacts.LocalApic], and [UmallocFacts.Sbrk] for the [sbrk] system
    call under [malloc].  [main_boots] is about one processor and memory in which
    the BIOS left no MP table; the ports and registers may answer anything.

    ** Not modelled

    Assembly (bootasm, entry, entryother, swtch, trapasm, usys, initcode, vectors):
    its effects are where runs start, sleep and return.  The test programs
    (usertests, forktest, stressfs, bigtest) have no logic but the calls they
    make.  fmt/ holds listings of the same sources.  Several CPUs are modelled for
    locks only; the other components are run by one CPU at a time, and interleave
    where they sleep.  Messages that vm.c, mp.c and the interrupt controllers print are left
    out, and so is [cpu->intena] outside [Spinlock].  What another processor does while [startothers] waits for
    it is an argument of [Main].  [Kernel] and [Main] are about the kernel with the
    disk image linked in (memide.c); ide.c is modelled beside it.  A call of process
    management that goes to sleep in the log or on a buffer ends its run there. *)
From stdpp Require Export base tactics list gmap strings numbers.
From Stdlib Require Export ZArith Lia.

#[global] Open Scope Z_scope.

(** ** Machine integers *)

(** [uint], [ushort] and [uchar] values are kept as [Z] in range; arithmetic
    wraps by reducing modulo the width.  [int] and [short] are two's
    complement. *)
Definition u32 (x : Z) : Z := x mod 2 ^ 32.
Definition u16 (x : Z) : Z := x mod 2 ^ 16.
Definition u8 (x : Z) : Z := x mod 2 ^ 8.
Definition i32 (x : Z) : Z := (x + 2 ^ 31) mod 2 ^ 32 - 2 ^ 31.
Definition i16 (x : Z) : Z := (x + 2 ^ 15) mod 2 ^ 16 - 2 ^ 15.
Definition i8 (x : Z) : Z := (x + 2 ^ 7) mod 2 ^ 8 - 2 ^ 7.

(** [x] as a C truth value. *)
Definition cbool (b : bool) : Z := if b then 1 else 0.

(** ** Outcomes of kernel code *)

(** What running a kernel function from a state leads to: it returns; it calls
    [panic]; it goes to sleep in the given state (the caller's continuation
    runs only after a wakeup); or the C program has no defined behaviour (a
    null or wild pointer is used). *)
Inductive outcome (S A : Type) : Type :=
| Ret (a : A) (s : S)
| Panic (msg : string)
| Block (s : S)
| Fault.
Arguments Ret {S A}.
Arguments Panic {S A}.
Arguments Block {S A}.
Arguments Fault {S A}.

Definition M (S A : Type) : Type := S → outcome S A.

#[export] Instance M_ret S : MRet (M S) := λ _ a s, Ret a s.
#[export] Instance M_bind S : MBind (M S) := λ _ _ k m s,
  match m s with
  | Ret a s' => k a s'
  | Panic msg => Panic msg
  | Block s' => Block s'
  | Fault => Fault
  end.

Definition panic {S A} (msg : string) : M S A := λ _, Panic msg.
Definition fault {S A} : M S A := λ _, Fault.
Definition block {S A} : M S A := λ s, Block s.
Definition gets {S A} (f : S → A) : M S A := λ s, Ret (f s) s.
Definition modify {S} (f : S → S) : M S unit := λ s, Ret () (f s).

(** Lookup through a C pointer or array index: undefined when nothing is there. *)
Definition deref {S A} (o : option A) : M S A :=
  match o with Some a => mret a | None => fault end.

Definition when {S} (b : bool) (m : M S unit) : M S unit :=
  if b then m else mret ().

(** A counting loop. *)
Fixpoint for_each {S A} (xs : list A) (body : A → M S unit) : M S unit :=
  match xs with
  | [] => mret ()
  | x :: xs' => body x ;; for_each xs' body
  end.

(** ** Lenses: how a component's state sits inside a larger one *)

Class Lens (S T : Type) := {
  lget : S → T;
  lset : T → S → S;
  lget_lset : ∀ t s, lget (lset t s) = t;
  lset_lget : ∀ s, lset (lget s) s = s;
  lset_lset : ∀ t t' s, lset t (lset t' s) = lset t s;
}.

#[export] Program Instance lens_id T : Lens T T | 10 :=
  {| lget s := s; lset t _ := t |}.
Solve All Obligations with done.

#[export] Program Instance lens_snd {S T} : Lens (S * T) T | 15 :=
  {| lget s := snd s; lset t s := (fst s, t) |}.
Solve All Obligations with (intros; repeat match goal with p : _ * _ |- _ => destruct p end; done).

#[export] Program Instance lens_fst {S T U} `{L : Lens S U} : Lens (S * T) U | 20 :=
  {| lget s := lget (fst s); lset u s := (lset u (fst s), snd s) |}.
Next Obligation. intros S T U L u [s t]; simpl. apply lget_lset. Qed.
Next Obligation. intros S T U L [s t]; simpl. by rewrite lset_lget. Qed.
Next Obligation. intros S T U L u u' [s t]; simpl. by rewrite lset_lset. Qed.

Definition lift {S T A} `{Lens S T} (m : M T A) : M S A := λ s,
  match m (lget s) with
  | Ret a t => Ret a (lset t s)
  | Panic msg => Panic msg
  | Block t => Block (lset t s)
  | Fault => Fault
  end.

(** ** Weakest preconditions: total correctness of returning runs *)

Definition wp {S A} (m : M S A) (Q : A → S → Prop) (s : S) : Prop :=
  match m s with Ret a s' => Q a s' | _ => False end.

(** Every way the run can end satisfies the predicate that fits it: [Q] for a
    return, [B] for going to sleep; panics and faults are excluded. *)
Definition wpb {S A} (m : M S A) (Q : A → S → Prop) (B : S → Prop) (s : S) : Prop :=
  match m s with Ret a s' => Q a s' | Block s' => B s' | _ => False end.

(** Partial version: nothing is claimed of panics and faults. *)
Definition wlp {S A} (m : M S A) (Q : A → S → Prop) (B : S → Prop) (s : S) : Prop :=
  match m s with Ret a s' => Q a s' | Block s' => B s' | _ => True end.

(** Invariants: returning and sleeping runs keep [I]; panics and faults are
    not constrained. *)
Definition keeps {S A} (I : S → Prop) (m : M S A) : Prop :=
  ∀ s, I s → match m s with Ret _ s' => I s' | Block s' => I s' | _ => True end.

(** Code that does not return. *)
Definition never {S A} (m : M S A) : Prop := ∀ s a s', m s ≠ Ret a s'.

(** ** Lists seen as C arrays *)

(** Overwrite [l] from index [off] on with [new], in place. *)
Definition splice {A} (off : nat) (new l : list A) : list A :=
  take off l ++ new ++ drop (off + length new) l.

Definition sublist {A} (off len : nat) (l : list A) : list A :=
  take len (drop off l).

(** Array element with the C index as [Z]. *)
Definition aget {A} (l : list A) (i : Z) : option A :=
  if i <? 0 then None else l !! Z.to_nat i.
Definition aset {A} (l : list A) (i : Z) (x : A) : list A :=
  if i <? 0 then l else <[Z.to_nat i := x]> l.

(** ** Little-endian integers in byte arrays *)

Fixpoint le_bytes (n : nat) (z : Z) : list Z :=
  match n with
  | O => []
  | S n' => z mod 256 :: le_bytes n' (z / 256)
  end.

Fixpoint le_val (bs : list Z) : Z :=
  match bs with
  | [] => 0
  | b :: bs' => b + 256 * le_val bs'
  end.

Definition is_byte (b : Z) : Prop := 0 ≤ b < 256.

(** ** Reachability by steps *)

Inductive steps {S L : Type} (R : S → L → S → Prop) : S → list L → S → Prop :=
| steps_nil s : steps R s [] s
| steps_cons s l s' ls s'' : R s l s' → steps R s' ls s'' → steps R s (l :: ls) s''.

(** ** Lemmas: integers *)

Lemma u32_range x : 0 ≤ u32 x < 2 ^ 32.
Proof. apply Z.mod_pos_bound. lia. Qed.

Lemma u32_small x : 0 ≤ x < 2 ^ 32 → u32 x = x.
Proof. apply Z.mod_small. Qed.

Lemma u32_idem x : u32 (u32 x) = u32 x.
Proof. apply u32_small, u32_range. Qed.

Lemma u32_add_l x y : u32 (u32 x + y) = u32 (x + y).
Proof. unfold u32. by rewrite Zplus_mod_idemp_l. Qed.

Lemma u32_add_r x y : u32 (x + u32 y) = u32 (x + y).
Proof. unfold u32. by rewrite Zplus_mod_idemp_r. Qed.

Lemma u32_sub_l x y : u32 (u32 x - y) = u32 (x - y).
Proof. unfold u32. by rewrite Zminus_mod_idemp_l. Qed.

Lemma u32_sub_r x y : u32 (x - u32 y) = u32 (x - y).
Proof. unfold u32. by rewrite Zminus_mod_idemp_r. Qed.

Lemma u8_range x : 0 ≤ u8 x < 256.
Proof. apply (Z.mod_pos_bound x 256). lia. Qed.

Lemma u8_small x : 0 ≤ x < 256 → u8 x = x.
Proof. apply Z.mod_small. Qed.

Lemma i32_small x : - 2 ^ 31 ≤ x < 2 ^ 31 → i32 x = x.
Proof. intros. unfold i32. rewrite Z.mod_small; lia. Qed.

Lemma i32_range x : - 2 ^ 31 ≤ i32 x < 2 ^ 31.
Proof.
  unfold i32. pose proof (Z.mod_pos_bound (x + 2 ^ 31) (2 ^ 32)). lia.
Qed.

(** ** Lemmas: outcomes *)

Lemma bind_Ret {S A B} (m : M S A) (k : A → M S B) s b s'' :
  (m ≫= k) s = Ret b s'' ↔ ∃ a s', m s = Ret a s' ∧ k a s' = Ret b s''.
Proof.
  unfold mbind, M_bind. split.
  - destruct (m s) eqn:E; try done. eauto.
  - intros (a & s' & -> & Hk). done.
Qed.

Lemma bind_eq {S A B} (m : M S A) (k : A → M S B) s a s' :
  m s = Ret a s' → (m ≫= k) s = k a s'.
Proof. unfold mbind, M_bind. by intros ->. Qed.

Lemma bind_fault {S A B} (m : M S A) (k : A → M S B) s : m s = Fault → (m ≫= k) s = Fault.
Proof. unfold mbind, M_bind. by intros ->. Qed.

Lemma wp_ret {S A} (a : A) Q (s : S) : Q a s → wp (mret a) Q s.
Proof. done. Qed.

Lemma wp_bind {S A B} (m : M S A) (k : A → M S B) Q s :
  wp m (λ a s', wp (k a) Q s') s → wp (m ≫= k) Q s.
Proof. unfold wp, mbind, M_bind. by destruct (m s). Qed.

Lemma wp_mono {S A} (m : M S A) (P Q : A → S → Prop) s :
  wp m P s → (∀ a s', P a s' → Q a s') → wp m Q s.
Proof. unfold wp. destruct (m s); naive_solver. Qed.

(** A run that panics after a part that returns. *)
Lemma bind_panics {S A B} (m : M S A) (k : A → M S B) msg s :
  wp m (λ a s', k a s' = Panic msg) s → (m ≫= k) s = Panic msg.
Proof. unfold wp, mbind, M_bind. by destruct (m s). Qed.

Lemma wp_gets {S A} (f : S → A) Q s : Q (f s) s → wp (gets f) Q s.
Proof. done. Qed.

Lemma wp_modify {S} (f : S → S) Q s : Q () (f s) → wp (modify f) Q s.
Proof. done. Qed.

Lemma wp_deref {S A} (o : option A) a Q (s : S) :
  o = Some a → Q a s → wp (deref o) Q s.
Proof. by intros ->. Qed.

Lemma wp_lift {S T A} `{Lens S T} (m : M T A) Q s :
  wp m (λ a t, Q a (lset t s)) (lget s) → wp (lift m) Q s.
Proof. unfold wp, lift. by destruct (m (lget s)). Qed.

Lemma wp_Ret {S A} (m : M S A) Q s :
  wp m Q s ↔ ∃ a s', m s = Ret a s' ∧ Q a s'.
Proof.
  unfold wp. split.
  - destruct (m s); naive_solver.
  - by intros (a & s' & -> & ?).
Qed.

Lemma wlp_ret {S A} (a : A) Q B (s : S) : Q a s → wlp (mret a) Q B s.
Proof. done. Qed.

Lemma wlp_bind {S A A'} (m : M S A) (k : A → M S A') Q B s :
  wlp m (λ a s', wlp (k a) Q B s') B s → wlp (m ≫= k) Q B s.
Proof. unfold wlp, mbind, M_bind. by destruct (m s). Qed.

Lemma wlp_mono {S A} (m : M S A) (P Q : A → S → Prop) (B B' : S → Prop) s :
  wlp m P B s → (∀ a s', P a s' → Q a s') → (∀ s', B s' → B' s') → wlp m Q B' s.
Proof. unfold wlp. destruct (m s); naive_solver. Qed.

Lemma wlp_panic {S A} msg Q B (s : S) : wlp (A := A) (panic msg) Q B s.
Proof. done. Qed.

Lemma wlp_block {S A} Q (B : S → Prop) s : B s → wlp (A := A) block Q B s.
Proof. done. Qed.

Lemma wlp_deref {S A} (o : option A) Q B (s : S) :
  (∀ a, o = Some a → Q a s) → wlp (deref o) Q B s.
Proof. destruct o; [|done]. intros H. by apply H. Qed.

Lemma wlp_when {S} b (m : M S unit) (Q : unit → S → Prop) B s :
  (b = true → wlp m Q B s) → (b = false → Q () s) → wlp (when b m) Q B s.
Proof. destruct b; intros H1 H2; [by apply H1|by apply H2]. Qed.

Lemma wlp_for_each {St A} (I : nat → St → Prop) (xs : list A) body B s :
  I 0%nat s →
  (∀ i x s, xs !! i = Some x → I i s → wlp (body x) (λ _ s', I (i + 1)%nat s') B s) →
  wlp (for_each xs body) (λ _ s', I (length xs) s') B s.
Proof.
  revert I s. induction xs as [|x xs IH]; intros I s H0 Hb; simpl; [by apply wlp_ret|].
  apply wlp_bind. eapply wlp_mono; [by apply (Hb 0%nat)| |done]. intros u s' Hs'.
  apply (IH (λ i, I (S i))); [done|]. intros i y s1 Hy Hi.
  replace (S (i + 1)) with (S i + 1)%nat by lia. by apply (Hb (S i)).
Qed.

Lemma wlp_keeps {S A} (m : M S A) Q B s a s' :
  wlp m Q B s → m s = Ret a s' → Q a s'.
Proof. unfold wlp. intros H E. by rewrite E in H. Qed.

Lemma wlp_blocks {S A} (m : M S A) Q B s s' :
  wlp m Q B s → m s = Block s' → B s'.
Proof. unfold wlp. intros H E. by rewrite E in H. Qed.

Lemma never_bind_r {S A B} (m : M S A) (k : A → M S B) :
  (∀ a, never (k a)) → never (m ≫= k).
Proof. intros Hk s b s' H. apply bind_Ret in H as (a & s1 & _ & H). by apply Hk in H. Qed.

Lemma never_bind_l {S A B} (m : M S A) (k : A → M S B) : never m → never (m ≫= k).
Proof. intros Hm s b s' H. apply bind_Ret in H as (a & s1 & H & _). by apply Hm in H. Qed.

Lemma never_panic {S A} msg : never (S := S) (A := A) (panic msg).
Proof. done. Qed.

Lemma never_block {S A} : never (S := S) (A := A) block.
Proof. done. Qed.

Lemma keeps_bind {S A B} I (m : M S A) (k : A → M S B) :
  keeps I m → (∀ a, keeps I (k a)) → keeps I (m ≫= k).
Proof.
  intros Hm Hk s Hs. unfold mbind, M_bind. specialize (Hm s Hs).
  destruct (m s); auto. by apply Hk.
Qed.

Lemma keeps_ret {S A} I (a : A) : keeps (S := S) I (mret a).
Proof. by intros s Hs. Qed.

Lemma keeps_panic {S A} I msg : keeps (S := S) (A := A) I (panic msg).
Proof. by intros s Hs. Qed.

Lemma keeps_fault {S A} I : keeps (S := S) (A := A) I fault.
Proof. by intros s Hs. Qed.

Lemma keeps_block {S A} I : keeps (S := S) (A := A) I block.
Proof. by intros s Hs. Qed.

Lemma keeps_gets {S A} I (f : S → A) : keeps I (gets f).
Proof. by intros s Hs. Qed.

Lemma keeps_modify {S} I (f : S → S) : (∀ s, I s → I (f s)) → keeps I (modify f).
Proof. intros Hf s Hs. by apply Hf. Qed.

Lemma keeps_deref {S A} I (o : option A) : keeps (S := S) I (deref o).
Proof. intros s Hs. by destruct o. Qed.

Lemma keeps_when {S} (I : S → Prop) b m : keeps I m → keeps I (when b m).
Proof. destruct b; [done | intros _; apply keeps_ret]. Qed.

Lemma keeps_for_each {S A} (I : S → Prop) (xs : list A) body :
  (∀ x, keeps I (body x)) → keeps I (for_each xs body).
Proof.
  intros Hb. induction xs; simpl; [apply keeps_ret|].
  apply keeps_bind; auto.
Qed.

Lemma keeps_if {S A} (I : S → Prop) (b : bool) (m1 m2 : M S A) :
  keeps I m1 → keeps I m2 → keeps I (if b then m1 else m2).
Proof. by destruct b. Qed.

Lemma wp_keeps {S A} (I : S → Prop) (m : M S A) s a s' :
  keeps I m → I s → m s = Ret a s' → I s'.
Proof. intros Hk Hs E. specialize (Hk s Hs). by rewrite E in Hk. Qed.

(** A loop body that re-establishes [I i] at every index does so at the end. *)
Lemma wp_for_each {St A} (I : nat → St → Prop) (xs : list A) body s :
  I 0%nat s →
  (∀ i x s, xs !! i = Some x → I i s → wp (body x) (λ _ s', I (i + 1)%nat s') s) →
  wp (for_each xs body) (λ _ s', I (length xs) s') s.
Proof.
  revert I s. induction xs as [|x xs IH]; intros I s H0 Hb; simpl; [by apply wp_ret|].
  apply wp_bind. eapply wp_mono; [by apply (Hb 0%nat)|]. intros u s' Hs'.
  apply (IH (λ i, I (S i))); [done|]. intros i y s1 Hy Hi.
  replace (S (i + 1)) with (S i + 1)%nat by lia. by apply (Hb (S i)).
Qed.

Lemma steps_app {S L} (R : S → L → S → Prop) s ls s' ls' s'' :
  steps R s ls s' → steps R s' ls' s'' → steps R s (ls ++ ls') s''.
Proof. induction 1; simpl; eauto using @steps_cons. Qed.

Lemma steps_invariant {S L} (R : S → L → S → Prop) (I : S → Prop) :
  (∀ s l s', I s → R s l s' → I s') →
  ∀ s ls s', steps R s ls s' → I s → I s'.
Proof. intros HR s ls s' Hs. induction Hs; eauto. Qed.

Create HintDb kernel.
#[export] Hint Resolve keeps_bind keeps_ret keeps_panic keeps_fault keeps_block
  keeps_gets keeps_modify keeps_deref keeps_when keeps_for_each keeps_if : kernel.

(** ** Lemmas: arrays *)

Lemma splice_length {A} off (new l : list A) :
  (off + length new ≤ length l)%nat → length (splice off new l) = length l.
Proof. intros. unfold splice. rewrite !length_app, length_take, length_drop. lia. Qed.

Lemma splice_lookup_new {A} off (new l : list A) i :
  (off + length new ≤ length l)%nat → (off ≤ i < off + length new)%nat →
  splice off new l !! i = new !! (i - off)%nat.
Proof.
  intros. unfold splice.
  rewrite lookup_app_r; rewrite length_take_le by lia; [|lia].
  rewrite lookup_app_l; [done|lia].
Qed.

Lemma splice_lookup_old {A} off (new l : list A) i :
  (off + length new ≤ length l)%nat → ¬ (off ≤ i < off + length new)%nat →
  splice off new l !! i = l !! i.
Proof.
  intros. unfold splice. destruct (decide (i < off)%nat).
  - rewrite lookup_app_l; [|rewrite length_take_le; lia].
    by rewrite lookup_take_lt.
  - rewrite lookup_app_r; rewrite length_take_le by lia; [|lia].
    rewrite lookup_app_r by lia. rewrite lookup_drop. f_equal. lia.
Qed.

Lemma sublist_length {A} off len (l : list A) :
  (off + len ≤ length l)%nat → length (sublist off len l) = len.
Proof. intros. unfold sublist. rewrite length_take, length_drop. lia. Qed.

Lemma sublist_lookup {A} off len (l : list A) i :
  (i < len)%nat → sublist off len l !! i = l !! (off + i)%nat.
Proof. intros. unfold sublist. rewrite lookup_take_lt by lia. by rewrite lookup_drop. Qed.

Lemma sublist_splice {A} off (new l : list A) :
  (off + length new ≤ length l)%nat →
  sublist off (length new) (splice off new l) = new.
Proof.
  intros. apply list_eq. intros i. destruct (decide (i < length new)%nat).
  - rewrite sublist_lookup by done. rewrite splice_lookup_new by lia. f_equal. lia.
  - rewrite !lookup_ge_None_2; [done|lia|].
    rewrite sublist_length; [lia|]. rewrite splice_length; lia.
Qed.

Lemma aget_Some {A} (l : list A) i x :
  aget l i = Some x ↔ 0 ≤ i ∧ l !! Z.to_nat i = Some x.
Proof. unfold aget. destruct (Z.ltb_spec i 0); naive_solver lia. Qed.

Lemma aget_nat {A} (l : list A) (i : nat) : aget l (Z.of_nat i) = l !! i.
Proof.
  unfold aget. destruct (Z.ltb_spec (Z.of_nat i) 0); [lia|]. by rewrite Nat2Z.id.
Qed.

Lemma aset_length {A} (l : list A) i x : length (aset l i x) = length l.
Proof. unfold aset. case_match; [done|]. by rewrite length_insert. Qed.

Lemma aget_aset_eq {A} (l : list A) i x :
  0 ≤ i < Z.of_nat (length l) → aget (aset l i x) i = Some x.
Proof.
  intros. unfold aget, aset. destruct (Z.ltb_spec i 0); [lia|].
  apply list_lookup_insert_eq. lia.
Qed.

Lemma aget_aset_ne {A} (l : list A) i j x :
  i ≠ j → aget (aset l i x) j = aget l j.
Proof.
  intros. unfold aget, aset.
  destruct (Z.ltb_spec i 0), (Z.ltb_spec j 0); try done.
  apply list_lookup_insert_ne. lia.
Qed.

(** ** Lemmas: little-endian *)

Lemma le_bytes_length n z : length (le_bytes n z) = n.
Proof. revert z. induction n; intros; simpl; auto. Qed.

Lemma le_bytes_range n z : Forall is_byte (le_bytes n z).
Proof.
  revert z. induction n; intros; simpl; constructor; auto.
  apply Z.mod_pos_bound. lia.
Qed.

Lemma le_val_bytes n z : 0 ≤ z < 256 ^ Z.of_nat n → le_val (le_bytes n z) = z.
Proof.
  revert z. induction n as [|n IH]; intros z Hz; simpl.
  - change (256 ^ Z.of_nat 0) with 1 in Hz. lia.
  - rewrite IH.
    + pose proof (Z.div_mod z 256). lia.
    + rewrite Nat2Z.inj_succ, Z.pow_succ_r in Hz by lia.
      split; [apply Z.div_pos; lia|]. apply Z.div_lt_upper_bound; lia.
Qed.

Lemma le_val_range bs : Forall is_byte bs → 0 ≤ le_val bs < 256 ^ Z.of_nat (length bs).
Proof.
  induction 1 as [|b bs Hb Hbs IH]; simpl length; simpl le_val.
  - simpl. lia.
  - rewrite Nat2Z.inj_succ, Z.pow_succ_r by lia. unfold is_byte in Hb. lia.
Qed.

Lemma le_bytes_val bs : Forall is_byte bs → le_bytes (length bs) (le_val bs) = bs.
Proof.
  induction 1 as [|b bs Hb Hbs IH]; [done|]. unfold is_byte in Hb.
  cbn [length le_val le_bytes].
  replace (b + 256 * le_val bs) with (le_val bs * 256 + b) by lia.
  rewrite Z.div_add_l by lia. rewrite (Z.div_small b) by lia.
  rewrite Z.add_0_r, IH. f_equal.
  rewrite Z.add_comm, Z_mod_plus_full. by apply Z.mod_small.
Qed.

(** ** Tactics *)

(** Take apart one run of a monadic program that is known to return. *)
Ltac inv_ret :=
  repeat match goal with
  | H : (_ ≫= _) _ = Ret _ _ |- _ =>
      apply bind_Ret in H; destruct H as (? & ? & ? & H)
  | H : Ret _ _ = Ret _ _ |- _ => injection H; clear H; intros; subst
  | H : mret _ _ = Ret _ _ |- _ => unfold mret, M_ret in H
  | H : gets _ _ = Ret _ _ |- _ => unfold gets in H
  | H : modify _ _ = Ret _ _ |- _ => unfold modify in H
  | H : panic _ _ = Ret _ _ |- _ => discriminate H
  | H : fault _ = Ret _ _ |- _ => discriminate H
  | H : block _ = Ret _ _ |- _ => discriminate H
  end.

(** Symbolic execution of the goal's program, one command at a time. *)
Ltac wp_step :=
  match goal with
  | |- wp (_ ≫= _) _ _ => apply wp_bind
  | |- wp (mret _) _ _ => apply wp_ret
  | |- wp (gets _) _ _ => apply wp_gets
  | |- wp (modify _) _ _ => apply wp_modify
  | |- wp (when true _) _ _ => unfold when
  | |- wp (when false _) _ _ => apply wp_ret
  | |- wp (deref (Some _)) _ _ => eapply wp_deref; [reflexivity|]
  end.
Ltac wp_steps := repeat (wp_step; cbn beta).

(** Boolean tests of the code turned into the propositions they decide. *)
Ltac zify_bool :=
  repeat match goal with
  | H : (_ && _)%bool = true |- _ => apply andb_true_iff in H as [? ?]
  | H : (_ || _)%bool = false |- _ => apply orb_false_iff in H as [? ?]
  | H : negb _ = true |- _ => apply negb_true_iff in H
  | H : negb _ = false |- _ => apply negb_false_iff in H
  | H : (_ <? _) = true |- _ => apply Z.ltb_lt in H
  | H : (_ <? _) = false |- _ => apply Z.ltb_ge in H
  | H : (_ <=? _) = true |- _ => apply Z.leb_le in H
  | H : (_ <=? _) = false |- _ => apply Z.leb_gt in H
  | H : (_ =? _) = true |- _ => apply Z.eqb_eq in H
  | H : (_ =? _) = false |- _ => apply Z.eqb_neq in H
  end.
