(* ===== verification/Spinlock.v ===== *)
(** * Spinlocks (spinlock.c, spinlock.h)

    Two views of the same code.  [Module Smp] is the machine: every CPU has its
    own interrupt flag, [ncli] and [intena], the lock words are shared, and the
    instructions that other CPUs can observe ([xchg], the stores to [lk->cpu])
    are separate steps.  [Module Held] is the view of the code of one CPU that
    the other files use: the set of locks the CPU holds.  The theorems say that
    the first implements the second. *)
From S2P Require Import Prelude.

(** ** Lock names *)

(** The [struct spinlock] objects of the kernel, by what they protect. *)
Inductive lockid :=
| L_ptable | L_bcache | L_log | L_icache | L_ftable | L_kmem
| L_cons | L_input | L_ide | L_tick | L_pipe (p : Z).

#[export] Instance lockid_eq_dec : EqDecision lockid.
Proof. solve_decision. Defined.

#[export] Instance lockid_countable : Countable lockid.
Proof.
  refine (inj_countable'
    (λ l, match l with
          | L_ptable => inl 0%nat | L_bcache => inl 1%nat | L_log => inl 2%nat
          | L_icache => inl 3%nat | L_ftable => inl 4%nat | L_kmem => inl 5%nat
          | L_cons => inl 6%nat | L_input => inl 7%nat | L_ide => inl 8%nat
          | L_tick => inl 9%nat | L_pipe p => inr p end)
    (λ c : nat + Z, match c with
          | inl 0%nat => L_ptable | inl 1%nat => L_bcache | inl 2%nat => L_log
          | inl 3%nat => L_icache | inl 4%nat => L_ftable | inl 5%nat => L_kmem
          | inl 6%nat => L_cons | inl 7%nat => L_input | inl 8%nat => L_ide
          | inl _ => L_tick | inr p => L_pipe p end) _).
  by intros [].
Defined.

(** ** The machine *)

Module Smp.

(** What a CPU is doing inside [acquire] and [release], between the steps other
    CPUs can see: spinning on [xchg]; the exchange won but [lk->cpu] not stored
    yet; [lk->cpu] cleared but the lock word not yet. *)
Inductive pc := Run | Spin (l : lockid) | Got (l : lockid) | Rel (l : lockid).

(** [struct cpu]: the interrupt flag of EFLAGS, [ncli] and [intena]. *)
Record cpu := mkCpu { IF : bool; ncli : Z; intena : bool; at_pc : pc }.

(** [struct spinlock]: [locked] and [cpu] ([None] for a null pointer). *)
Record spinlock := mkLock { locked : Z; lk_cpu : option nat }.

Record machine := mkM { cpus : list cpu; locks : gmap lockid spinlock }.

Definition initlock : spinlock := mkLock 0 None.

Definition lock_of (m : machine) (l : lockid) : spinlock :=
  default initlock (locks m !! l).

Definition put_cpu (c : nat) (k : cpu) (m : machine) : machine :=
  mkM (<[c := k]> (cpus m)) (locks m).
Definition put_lock (l : lockid) (k : spinlock) (m : machine) : machine :=
  mkM (cpus m) (<[l := k]> (locks m)).

(** [pushcli]: save EFLAGS, [cli], and remember IF at the outermost level. *)
Definition pushcli (k : cpu) : cpu :=
  let eflags := IF k in
  mkCpu false (ncli k + 1) (if ncli k =? 0 then eflags else intena k) (at_pc k).

(** [popcli]; [inr] is a panic. *)
Definition popcli (k : cpu) : cpu + string :=
  if IF k then inr "popcli - interruptible"%string
  else
    let n := ncli k - 1 in
    if n <? 0 then inr "popcli"%string
    else inl (mkCpu (if (n =? 0) && intena k then true else IF k) n (intena k) (at_pc k)).

(** [holding]: [lock->locked && lock->cpu == cpu]. *)
Definition holding (m : machine) (c : nat) (l : lockid) : bool :=
  let k := lock_of m l in
  negb (locked k =? 0) && bool_decide (lk_cpu k = Some c).

Definition set_pc (p : pc) (k : cpu) : cpu := mkCpu (IF k) (ncli k) (intena k) p.

(** First part of [acquire]: [pushcli] and the self-deadlock check. *)
Definition acquire_enter (c : nat) (l : lockid) (m : machine) : option (machine + string) :=
  k ← cpus m !! c;
  let m' := put_cpu c (pushcli k) m in
  Some (if holding m' c l then inr "acquire"%string
        else inl (put_cpu c (set_pc (Spin l) (pushcli k)) m)).

(** One round of [while(xchg(&lk->locked, 1) != 0);]. *)
Definition acquire_xchg (c : nat) (l : lockid) (m : machine) : option machine :=
  k ← cpus m !! c;
  let old := locked (lock_of m l) in
  let m' := put_lock l (mkLock 1 (lk_cpu (lock_of m l))) m in
  Some (if old =? 0 then put_cpu c (set_pc (Got l) k) m' else m').

(** [lk->cpu = cpu]. *)
Definition acquire_record (c : nat) (l : lockid) (m : machine) : option machine :=
  k ← cpus m !! c;
  Some (put_cpu c (set_pc Run k)
    (put_lock l (mkLock (locked (lock_of m l)) (Some c)) m)).

(** [release] up to [lk->cpu = 0]. *)
Definition release_enter (c : nat) (l : lockid) (m : machine) : option (machine + string) :=
  k ← cpus m !! c;
  Some (if holding m c l
        then inl (put_cpu c (set_pc (Rel l) k)
                   (put_lock l (mkLock (locked (lock_of m l)) None) m))
        else inr "release"%string).

(** [xchg(&lk->locked, 0); popcli()]. *)
Definition release_xchg (c : nat) (l : lockid) (m : machine) : option (machine + string) :=
  k ← cpus m !! c;
  let m' := put_lock l (mkLock 0 (lk_cpu (lock_of m l))) m in
  match popcli (set_pc Run k) with
  | inl k' => Some (inl (put_cpu c k' m'))
  | inr e => Some (inr e)
  end.

(** One step of CPU [c].  Code outside the lock functions may also nest
    [pushcli]/[popcli] by hand ([switchuvm] does) and, when no [pushcli] is
    pending, set or clear IF ([scheduler], interrupt entry and return). *)
Inductive step (c : nat) : machine → machine → Prop :=
| step_acquire_enter m m' l k : cpus m !! c = Some k → at_pc k = Run →
    acquire_enter c l m = Some (inl m') → step c m m'
| step_acquire_xchg m m' l k : cpus m !! c = Some k → at_pc k = Spin l →
    acquire_xchg c l m = Some m' → step c m m'
| step_acquire_record m m' l k : cpus m !! c = Some k → at_pc k = Got l →
    acquire_record c l m = Some m' → step c m m'
| step_release_enter m m' l k : cpus m !! c = Some k → at_pc k = Run →
    release_enter c l m = Some (inl m') → step c m m'
| step_release_xchg m m' l k : cpus m !! c = Some k → at_pc k = Rel l →
    release_xchg c l m = Some (inl m') → step c m m'
| step_sti m k b : cpus m !! c = Some k → at_pc k = Run → ncli k = 0 →
    step c m (put_cpu c (mkCpu b (ncli k) (intena k) Run) m).

Inductive reachable (m0 : machine) : machine → Prop :=
| reach_init : reachable m0 m0
| reach_step c m m' : reachable m0 m → step c m m' → reachable m0 m'.

(** Boot: no CPU inside a lock function, every lock initialised. *)
Definition boot (m : machine) : Prop :=
  locks m = ∅ ∧ ∀ c k, cpus m !! c = Some k → at_pc k = Run ∧ ncli k = 0.

(** CPU [c] is between winning the exchange of [l] and giving the word back. *)
Definition owns (m : machine) (c : nat) (l : lockid) : Prop :=
  lk_cpu (lock_of m l) = Some c ∨
  ∃ k, cpus m !! c = Some k ∧ (at_pc k = Got l ∨ at_pc k = Rel l).

(** The locks whose [cpu] field is [c]: what [holding] answers yes to. *)
Definition held (m : machine) (c : nat) : gset lockid :=
  dom (filter (λ kv, lk_cpu kv.2 = Some c) (locks m)).

(** Pending [pushcli]s of a CPU that the lock functions account for. *)
Definition depth (m : machine) (c : nat) (k : cpu) : Z :=
  Z.of_nat (size (held m c)) + match at_pc k with Run => 0 | _ => 1 end.

End Smp.

(** ** The view of one CPU's code *)

Module Held.

(** [acquire] and [release] on the set of locks this CPU holds.  Waiting for
    another CPU is invisible here. *)
Definition acquire (l : lockid) : M (gset lockid) unit := λ h,
  if decide (l ∈ h) then Panic "acquire" else Ret () ({[l]} ∪ h).

Definition release (l : lockid) : M (gset lockid) unit := λ h,
  if decide (l ∈ h) then Ret () (h ∖ {[l]}) else Panic "release".

Definition holding (l : lockid) (h : gset lockid) : bool := bool_decide (l ∈ h).

End Held.

(** ** Proofs *)

Module SmpFacts.
Import Smp.

Lemma lock_of_put m l k l' :
  lock_of (put_lock l k m) l' = if decide (l = l') then k else lock_of m l'.
Proof.
  unfold lock_of, put_lock; simpl. rewrite lookup_insert. by case_decide.
Qed.

Lemma lock_of_put_cpu c k m l : lock_of (put_cpu c k m) l = lock_of m l.
Proof. done. Qed.

Lemma cpus_put_cpu c k m c' :
  cpus (put_cpu c k m) !! c' =
    if decide (c = c' ∧ (c < length (cpus m))%nat) then Some k else cpus m !! c'.
Proof.
  simpl. destruct (decide (c = c')) as [->|Hne].
  - destruct (decide (c' < length (cpus m))%nat).
    + rewrite list_lookup_insert_eq by done. by rewrite decide_True.
    + rewrite list_insert_ge by lia. rewrite decide_False; naive_solver.
  - rewrite list_lookup_insert_ne by done. rewrite decide_False; naive_solver.
Qed.

Lemma elem_of_held m c l : l ∈ held m c ↔ lk_cpu (lock_of m l) = Some c.
Proof.
  unfold held, lock_of. rewrite elem_of_dom. split.
  - intros [k Hk]. apply map_lookup_filter_Some in Hk as [Hk ?]. by rewrite Hk.
  - destruct (locks m !! l) as [k|] eqn:E; simpl; [|done].
    intros Hk. exists k. by apply map_lookup_filter_Some.
Qed.

(** CPU record [k] is in the middle of taking or giving back [l]. *)
Definition busy (k : cpu) (l : lockid) : bool :=
  match at_pc k with Got l' | Rel l' => bool_decide (l = l') | _ => false end.

(** The three situations of a lock: free, in transit at one CPU, recorded. *)
Inductive lstate (m : machine) (l : lockid) : Prop :=
| ls_free : locked (lock_of m l) = 0 → lk_cpu (lock_of m l) = None →
    (∀ c k, cpus m !! c = Some k → busy k l = false) → lstate m l
| ls_mid c k : locked (lock_of m l) ≠ 0 → lk_cpu (lock_of m l) = None →
    cpus m !! c = Some k → busy k l = true →
    (∀ c' k', cpus m !! c' = Some k' → busy k' l = true → c' = c) → lstate m l
| ls_owned c : locked (lock_of m l) ≠ 0 → lk_cpu (lock_of m l) = Some c →
    is_Some (cpus m !! c) →
    (∀ c' k', cpus m !! c' = Some k' → busy k' l = false) → lstate m l.

(** The invariant of the lock protocol. *)
Record inv (m : machine) : Prop := {
  inv_locks : ∀ l, lstate m l;
  inv_depth : ∀ c k, cpus m !! c = Some k → ncli k = depth m c k;
  inv_IF : ∀ c k, cpus m !! c = Some k → ncli k ≠ 0 → IF k = false;
}.

Lemma inv_boot m : boot m → inv m.
Proof.
  intros [Hl Hc].
  assert (Hlk : ∀ l, lock_of m l = initlock) by (intros; unfold lock_of; by rewrite Hl).
  constructor.
  - intros l. apply ls_free; rewrite ?Hlk; try done.
    intros c k Hk. unfold busy. by destruct (Hc _ _ Hk) as [-> _].
  - intros c k Hk. destruct (Hc _ _ Hk) as [E1 E2]. unfold depth.
    assert (held m c = ∅) as ->; [|by rewrite E1, E2].
    apply set_eq. intros l. rewrite elem_of_held, Hlk. set_solver.
  - intros c k Hk ?. by destruct (Hc _ _ Hk).
Qed.

(** How [held] and [depth] move when one CPU and one lock are rewritten. *)
Lemma held_put_lock m l k c :
  held (put_lock l k m) c =
    if decide (lk_cpu k = Some c) then {[l]} ∪ held m c else held m c ∖ {[l]}.
Proof.
  apply set_eq. intros l'. rewrite elem_of_held, lock_of_put.
  destruct (decide (lk_cpu k = Some c)) as [E|E]; destruct (decide (l = l')) as [->|Hne];
    set_unfold; rewrite ?elem_of_held; naive_solver.
Qed.

Lemma held_put_cpu c k m c' : held (put_cpu c k m) c' = held m c'.
Proof. done. Qed.

(** [pushcli] and [popcli] nest: a [popcli] undoes the matching [pushcli]. *)
Lemma popcli_pushcli k :
  0 ≤ ncli k → (ncli k ≠ 0 → IF k = false) →
  ∃ k', popcli (pushcli k) = inl k' ∧ IF k' = IF k ∧ ncli k' = ncli k ∧ at_pc k' = at_pc k.
Proof.
  intros Hn Hif. unfold popcli, pushcli; simpl.
  destruct (Z.ltb_spec (ncli k + 1 - 1) 0); [lia|].
  eexists; split; [done|]. simpl. split_and!; [|lia|done].
  destruct (Z.eqb_spec (ncli k) 0) as [E|E].
  - rewrite E. simpl. by destruct (IF k).
  - destruct (Z.eqb_spec (ncli k + 1 - 1) 0); [lia|]. simpl. by rewrite Hif.
Qed.


(** A step of CPU [c] that rewrites its record and at most the lock [l0] leaves
    the situation of every lock neither record is busy with. *)
Lemma lstate_frame m m' c k k' l :
  cpus m !! c = Some k → cpus m' = <[c := k']> (cpus m) →
  lock_of m' l = lock_of m l → busy k l = busy k' l → lstate m l → lstate m' l.
Proof.
  intros Hk Hc Hl Hb Hs.
  assert (Hlk : ∀ c' k1, cpus m' !! c' = Some k1 →
    ∃ k2, cpus m !! c' = Some k2 ∧ busy k2 l = busy k1 l).
  { intros c' k1 H. rewrite Hc in H.
    apply list_lookup_insert_Some in H as [(-> & -> & _)|(? & ?)]; eauto. }
  destruct Hs as [H1 H2 H3|c1 k1 H1 H2 H3 H4 H5|c1 H1 H2 H3 H4].
  - apply ls_free; rewrite ?Hl; try done.
    intros c' k1 H. destruct (Hlk _ _ H) as (? & ? & <-); eauto.
  - destruct (decide (c = c1)) as [->|Hne].
    + apply (ls_mid _ _ c1 k'); rewrite ?Hl; try done.
      * rewrite Hc. apply list_lookup_insert_eq. by eapply lookup_lt_Some.
      * simplify_eq. congruence.
      * intros c' k2 H Hb2. destruct (Hlk _ _ H) as (? & ? & E). rewrite <- E in Hb2. eauto.
    + apply (ls_mid _ _ c1 k1); rewrite ?Hl; try done.
      * rewrite Hc. by rewrite list_lookup_insert_ne.
      * intros c' k2 H Hb2. destruct (Hlk _ _ H) as (? & ? & E). rewrite <- E in Hb2. eauto.
  - apply (ls_owned _ _ c1); rewrite ?Hl; try done.
    + rewrite Hc. apply lookup_lt_is_Some. rewrite length_insert. by apply lookup_lt_is_Some.
    + intros c' k1 H. destruct (Hlk _ _ H) as (? & ? & <-); eauto.
Qed.

(** The same for the bookkeeping of the other CPUs. *)
Lemma cpu_frame m m' c k' :
  inv m → cpus m' = <[c := k']> (cpus m) →
  (∀ c', c' ≠ c → held m' c' = held m c') →
  (ncli k' = depth m' c k') → (ncli k' ≠ 0 → IF k' = false) →
  (∀ c1 k1, cpus m' !! c1 = Some k1 → ncli k1 = depth m' c1 k1) ∧
  (∀ c1 k1, cpus m' !! c1 = Some k1 → ncli k1 ≠ 0 → IF k1 = false).
Proof.
  intros [_ Hd Hi] Hc Hh Hd' Hi'. split; intros c1 k1 H; rewrite Hc in H;
    apply list_lookup_insert_Some in H as [(<- & -> & _)|(Hne & H)]; auto.
  - rewrite (Hd _ _ H). unfold depth. by rewrite Hh.
  - eauto.
Qed.

Lemma busy_got k l l' : busy (set_pc (Got l) k) l' = bool_decide (l' = l).
Proof. done. Qed.

Lemma step_acquire_enter_inv m m' c l k :
  inv m → cpus m !! c = Some k → at_pc k = Run →
  acquire_enter c l m = Some (inl m') → inv m'.
Proof.
  intros Hinv Hk Hpc H. unfold acquire_enter in H. rewrite Hk in H. simpl in H.
  destruct (holding _ _ _) eqn:Hh; simplify_eq.
  pose proof (inv_depth _ Hinv _ _ Hk) as Hd. unfold depth in Hd. rewrite Hpc in Hd.
  destruct (cpu_frame m (put_cpu c (set_pc (Spin l) (pushcli k)) m) c
    (set_pc (Spin l) (pushcli k)) Hinv) as [? ?]; try done.
  { unfold depth. rewrite held_put_cpu. simpl. lia. }
  constructor; try done. intros l'. eapply lstate_frame; eauto using inv_locks.
  unfold busy. simpl. by rewrite Hpc.
Qed.

Lemma step_acquire_xchg_inv m m' c l k :
  inv m → cpus m !! c = Some k → at_pc k = Spin l →
  acquire_xchg c l m = Some m' → inv m'.
Proof.
  intros Hinv Hk Hpc H. unfold acquire_xchg in H. rewrite Hk in H. simpl in H.
  pose proof (inv_locks _ Hinv l) as Hs.
  set (lk := mkLock 1 (lk_cpu (lock_of m l))) in *.
  assert (Hheld : ∀ c', held (put_lock l lk m) c' = held m c').
  { intros c'. apply set_eq. intros l'. rewrite !elem_of_held, lock_of_put.
    case_decide; by subst. }
  destruct (Z.eqb_spec (locked (lock_of m l)) 0) as [E|E]; simplify_eq.
  - pose proof (inv_depth _ Hinv _ _ Hk) as Hd. unfold depth in Hd. rewrite Hpc in Hd.
    destruct (cpu_frame m (put_cpu c (set_pc (Got l) k) (put_lock l lk m)) c
      (set_pc (Got l) k) Hinv) as [? ?]; try done.
    { intros c' _. by rewrite held_put_cpu, Hheld. }
    { unfold depth. rewrite held_put_cpu, Hheld. simpl. lia. }
    { simpl. eapply inv_IF; eauto. }
    constructor; try done. intros l'.
    destruct (decide (l' = l)) as [->|Hne].
    + destruct Hs as [H1 H2 H3|? ? H1|? H1]; try done.
      apply (ls_mid _ _ c (set_pc (Got l) k)); rewrite ?lock_of_put_cpu, ?lock_of_put;
        rewrite ?decide_True by done; try done.
      * simpl. apply list_lookup_insert_eq. by eapply lookup_lt_Some.
      * rewrite busy_got. by apply bool_decide_true.
      * intros c' k' H' Hb. simpl in H'.
        apply list_lookup_insert_Some in H' as [(-> & _)|(? & H')]; [done|].
        by rewrite (H3 _ _ H') in Hb.
    + eapply (lstate_frame m _ c k (set_pc (Got l) k)); eauto using inv_locks.
      * rewrite lock_of_put_cpu, lock_of_put. by rewrite decide_False.
      * unfold busy. simpl. rewrite Hpc. by rewrite bool_decide_false.
  - constructor.
    + intros l'. destruct (decide (l' = l)) as [->|Hne].
      * destruct Hs as [H1 H2 H3|c1 k1 H1 H2 H3 H4 H5|c1 H1 H2 H3 H4]; [done| |].
        -- apply (ls_mid _ _ c1 k1); rewrite ?lock_of_put, ?decide_True by done; done.
        -- apply (ls_owned _ _ c1); rewrite ?lock_of_put, ?decide_True by done; done.
      * eapply (lstate_frame m _ c k k); eauto using inv_locks.
        -- simpl. by rewrite list_insert_id.
        -- rewrite lock_of_put. by rewrite decide_False.
    + intros c1 k1 H'. unfold depth. rewrite Hheld. by eapply inv_depth.
    + intros c1 k1 H'. by eapply inv_IF.
Qed.

(** The lock in transit at CPU [c] is recorded nowhere. *)
Lemma lstate_busy m l c k :
  lstate m l → cpus m !! c = Some k → busy k l = true →
  locked (lock_of m l) ≠ 0 ∧ lk_cpu (lock_of m l) = None ∧
  (∀ c' k', cpus m !! c' = Some k' → busy k' l = true → c' = c).
Proof.
  intros [H1 H2 H3|c1 k1 H1 H2 H3 H4 H5|c1 H1 H2 H3 H4] Hk Hb.
  - by rewrite (H3 _ _ Hk) in Hb.
  - split_and!; try done. intros c' k' Hk' Hb'.
    rewrite (H5 _ _ Hk' Hb'). symmetry. eauto.
  - by rewrite (H4 _ _ Hk) in Hb.
Qed.

Lemma step_acquire_record_inv m m' c l k :
  inv m → cpus m !! c = Some k → at_pc k = Got l →
  acquire_record c l m = Some m' → inv m'.
Proof.
  intros Hinv Hk Hpc H. unfold acquire_record in H. rewrite Hk in H. simpl in H. simplify_eq.
  assert (Hb : busy k l = true) by (unfold busy; rewrite Hpc; by apply bool_decide_true).
  destruct (lstate_busy _ _ _ _ (inv_locks _ Hinv l) Hk Hb) as (Hl1 & Hl2 & Hu).
  set (lk := mkLock (locked (lock_of m l)) (Some c)).
  pose proof (inv_depth _ Hinv _ _ Hk) as Hd. unfold depth in Hd. rewrite Hpc in Hd.
  assert (Hnot : l ∉ held m c) by (rewrite elem_of_held; congruence).
  destruct (cpu_frame m (put_cpu c (set_pc Run k) (put_lock l lk m)) c (set_pc Run k) Hinv)
    as [? ?]; try done.
  { intros c' Hne. rewrite held_put_cpu, held_put_lock.
    rewrite decide_False by (simpl; congruence).
    assert (l ∉ held m c') by (rewrite elem_of_held; congruence). set_solver. }
  { unfold depth. rewrite held_put_cpu, held_put_lock. simpl.
    rewrite decide_True by done. rewrite size_union by set_solver.
    rewrite size_singleton. lia. }
  { simpl. eapply inv_IF; eauto. }
  constructor; try done. intros l'. destruct (decide (l' = l)) as [->|Hne].
  - apply (ls_owned _ _ c); rewrite ?lock_of_put_cpu, ?lock_of_put;
      rewrite ?decide_True by done; try done.
    + simpl. rewrite list_lookup_insert_eq; [done|]. by eapply lookup_lt_Some.
    + intros c' k' H'. simpl in H'.
      apply list_lookup_insert_Some in H' as [(-> & <- & _)|(Hne & H')]; [done|].
      destruct (busy k' l) eqn:Eb; [|done]. by destruct Hne; symmetry; eauto.
  - eapply (lstate_frame m _ c k (set_pc Run k)); eauto using inv_locks.
    + rewrite lock_of_put_cpu, lock_of_put. by rewrite decide_False.
    + unfold busy. simpl. rewrite Hpc. by rewrite bool_decide_false.
Qed.

Lemma holding_held m c l : inv m → holding m c l = bool_decide (l ∈ held m c).
Proof.
  intros Hinv. unfold holding. destruct (inv_locks _ Hinv l) as [H1 H2|c1 k1 H1 H2|c1 H1 H2].
  - rewrite H1. simpl. symmetry. apply bool_decide_false. rewrite elem_of_held. congruence.
  - rewrite H2, andb_false_r. symmetry. apply bool_decide_false. rewrite elem_of_held. congruence.
  - destruct (Z.eqb_spec (locked (lock_of m l)) 0); [done|]. simpl.
    apply bool_decide_ext. by rewrite elem_of_held.
Qed.

Lemma step_release_enter_inv m m' c l k :
  inv m → cpus m !! c = Some k → at_pc k = Run →
  release_enter c l m = Some (inl m') → inv m'.
Proof.
  intros Hinv Hk Hpc H. unfold release_enter in H. rewrite Hk in H. simpl in H.
  destruct (holding m c l) eqn:Hh; simplify_eq. rewrite holding_held in Hh by done.
  apply bool_decide_eq_true in Hh. pose proof Hh as Hin. rewrite elem_of_held in Hin.
  pose proof (inv_locks _ Hinv l) as Hs.
  assert (Hno : ∀ c' k', cpus m !! c' = Some k' → busy k' l = false).
  { destruct Hs as [H1 H2|c1 k1 H1 H2|c1 H1 H2]; congruence || done. }
  assert (Hlk : locked (lock_of m l) ≠ 0).
  { destruct Hs as [H1 H2|c1 k1 H1 H2|c1 H1 H2]; congruence || done. }
  set (lk := mkLock (locked (lock_of m l)) None).
  pose proof (inv_depth _ Hinv _ _ Hk) as Hd. unfold depth in Hd. rewrite Hpc in Hd.
  destruct (cpu_frame m (put_cpu c (set_pc (Rel l) k) (put_lock l lk m)) c
    (set_pc (Rel l) k) Hinv) as [? ?]; try done.
  { intros c' Hne. rewrite held_put_cpu, held_put_lock.
    rewrite decide_False by done.
    assert (l ∉ held m c') by (rewrite elem_of_held; congruence). set_solver. }
  { unfold depth. rewrite held_put_cpu, held_put_lock.
    rewrite decide_False by done. rewrite size_difference by set_solver.
    rewrite size_singleton. simpl.
    assert (size (held m c) ≠ 0%nat); [|lia].
    intros E. apply size_empty_inv in E. set_solver. }
  { simpl. eapply inv_IF; eauto. }
  constructor; try done. intros l'. destruct (decide (l' = l)) as [->|Hne].
  - apply (ls_mid _ _ c (set_pc (Rel l) k)); rewrite ?lock_of_put_cpu, ?lock_of_put;
      rewrite ?decide_True by done; try done.
    + simpl. apply list_lookup_insert_eq. by eapply lookup_lt_Some.
    + unfold busy. simpl. by apply bool_decide_true.
    + intros c' k' H' Hb. simpl in H'.
      apply list_lookup_insert_Some in H' as [(-> & _)|(? & H')]; [done|].
      by rewrite (Hno _ _ H') in Hb.
  - eapply (lstate_frame m _ c k (set_pc (Rel l) k)); eauto using inv_locks.
    + rewrite lock_of_put_cpu, lock_of_put. by rewrite decide_False.
    + unfold busy. simpl. rewrite Hpc. by rewrite bool_decide_false.
Qed.

Lemma step_release_xchg_inv m m' c l k :
  inv m → cpus m !! c = Some k → at_pc k = Rel l →
  release_xchg c l m = Some (inl m') → inv m'.
Proof.
  intros Hinv Hk Hpc H. unfold release_xchg in H. rewrite Hk in H. simpl in H.
  assert (Hb : busy k l = true) by (unfold busy; rewrite Hpc; by apply bool_decide_true).
  destruct (lstate_busy _ _ _ _ (inv_locks _ Hinv l) Hk Hb) as (Hl1 & Hl2 & Hu).
  set (lk := mkLock 0 (lk_cpu (lock_of m l))) in *.
  pose proof (inv_depth _ Hinv _ _ Hk) as Hd. unfold depth in Hd. rewrite Hpc in Hd.
  assert (Hheld : ∀ c', held (put_lock l lk m) c' = held m c').
  { intros c'. rewrite held_put_lock. simpl. rewrite Hl2.
    rewrite decide_False by done.
    assert (l ∉ held m c') by (rewrite elem_of_held; congruence). set_solver. }
  destruct (popcli (set_pc Run k)) as [k'|] eqn:Hp; simplify_eq.
  assert (at_pc k' = Run ∧ ncli k' = ncli k - 1 ∧ (ncli k' ≠ 0 → IF k' = false))
    as (Hpc' & Hn' & Hif').
  { unfold popcli in Hp. simpl in Hp. destruct (IF k) eqn:Eif; [done|].
    destruct (Z.ltb_spec (ncli k - 1) 0); simplify_eq. simpl. split_and!; try done.
    intros Hne. destruct (Z.eqb_spec (ncli k - 1) 0); done. }
  destruct (cpu_frame m (put_cpu c k' (put_lock l lk m)) c k' Hinv) as [? ?]; try done.
  { intros c' _. by rewrite held_put_cpu. }
  { unfold depth. rewrite held_put_cpu, Hheld, Hpc'. lia. }
  constructor; try done. intros l'. destruct (decide (l' = l)) as [->|Hne].
  - apply ls_free; rewrite ?lock_of_put_cpu, ?lock_of_put; rewrite ?decide_True by done; try done.
    intros c' k1 H'. simpl in H'.
    apply list_lookup_insert_Some in H' as [(-> & <- & _)|(Hne & H')].
    + unfold busy. by rewrite Hpc'.
    + destruct (busy k1 l) eqn:Eb; [|done]. by destruct Hne; symmetry; eauto.
  - eapply (lstate_frame m _ c k k'); eauto using inv_locks.
    + rewrite lock_of_put_cpu, lock_of_put. by rewrite decide_False.
    + unfold busy. rewrite Hpc, Hpc'. by rewrite bool_decide_false.
Qed.

Lemma step_sti_inv m c k b :
  inv m → cpus m !! c = Some k → at_pc k = Run → ncli k = 0 →
  inv (put_cpu c (mkCpu b (ncli k) (intena k) Run) m).
Proof.
  intros Hinv Hk Hpc Hn.
  pose proof (inv_depth _ Hinv _ _ Hk) as Hd. unfold depth in Hd. rewrite Hpc in Hd.
  destruct (cpu_frame m (put_cpu c (mkCpu b (ncli k) (intena k) Run) m) c
    (mkCpu b (ncli k) (intena k) Run) Hinv) as [? ?]; try done.
  constructor; try done. intros l'. eapply lstate_frame; eauto using inv_locks.
  unfold busy. simpl. by rewrite Hpc.
Qed.

Lemma reachable_inv m0 m : boot m0 → reachable m0 m → inv m.
Proof.
  intros Hb Hr. induction Hr as [|c m m' Hr IH Hs]; [by apply inv_boot|].
  destruct Hs; eauto using step_acquire_enter_inv, step_acquire_xchg_inv,
    step_acquire_record_inv, step_release_enter_inv, step_release_xchg_inv, step_sti_inv.
Qed.

Lemma owns_state m c l :
  lstate m l → owns m c l →
  locked (lock_of m l) ≠ 0 ∧ ∀ c', owns m c' l → c' = c.
Proof.
  assert (Hb : ∀ k, busy k l = true ↔ at_pc k = Got l ∨ at_pc k = Rel l).
  { intros k. unfold busy. destruct (at_pc k); rewrite ?bool_decide_eq_true; naive_solver. }
  intros Hs Ho.
  destruct Hs as [H1 H2 H3|c1 k1 H1 H2 H3 H4 H5|c1 H1 H2 H3 H4].
  - exfalso. destruct Ho as [Ho|(k & Hk & Ho%Hb)]; [congruence|].
    by rewrite (H3 _ _ Hk) in Ho.
  - split; [done|].
    assert (He : ∀ c', owns m c' l → c' = c1).
    { intros c' [Ho'|(k & Hk & Ho'%Hb)]; [congruence|eauto]. }
    intros c' Hc'. rewrite (He _ Hc'). symmetry. auto.
  - split; [done|].
    assert (He : ∀ c', owns m c' l → c' = c1).
    { intros c' [Ho'|(k & Hk & Ho'%Hb)]; [congruence|].
      by rewrite (H4 _ _ Hk) in Ho'. }
    intros c' Hc'. rewrite (He _ Hc'). symmetry. auto.
Qed.

Lemma owns_depth m c k l :
  inv m → cpus m !! c = Some k → owns m c l → 0 < ncli k.
Proof.
  intros Hinv Hk Ho. rewrite (inv_depth _ Hinv _ _ Hk). unfold depth.
  destruct Ho as [Ho|(k' & Hk' & Ho)].
  - assert (l ∈ held m c) by by rewrite elem_of_held.
    assert (size (held m c) ≠ 0%nat); [|case_match; lia].
    intros E. apply size_empty_inv in E. set_solver.
  - simplify_eq. destruct Ho as [-> | ->]; lia.
Qed.

End SmpFacts.

(** ** Properties *)

Import Smp SmpFacts.

(** C5. Mutual exclusion: whatever the CPUs interleave after boot, at most one CPU
    is between winning the exchange on a lock word and giving it back, and
    while one is, the lock word is set. *)
Theorem mutual_exclusion m0 m l c c' :
  boot m0 → reachable m0 m → owns m c l → owns m c' l →
  c = c' ∧ locked (lock_of m l) ≠ 0.
Proof.
  intros Hb Hr H1 H2. pose proof (reachable_inv _ _ Hb Hr) as Hinv.
  destruct (owns_state _ _ _ (inv_locks _ Hinv l) H1) as [Hl Hu].
  split; [symmetry; auto|done].
Qed.

(** A CPU that owns a lock runs with interrupts off and with a pending
    [pushcli], so no interrupt handler can deadlock against it. *)
Theorem owner_interrupts_off m0 m l c k :
  boot m0 → reachable m0 m → cpus m !! c = Some k → owns m c l →
  IF k = false ∧ 0 < ncli k.
Proof.
  intros Hb Hr Hk Ho. pose proof (reachable_inv _ _ Hb Hr) as Hinv.
  pose proof (owns_depth _ _ _ _ Hinv Hk Ho). split; [|done].
  apply (inv_IF _ Hinv _ _ Hk). lia.
Qed.

(** A run of [release] by CPU [c], all its steps. *)
Definition release_run (c : nat) (l : lockid) (m : machine) : option (machine + string) :=
  r ← release_enter c l m;
  match r with inl m' => release_xchg c l m' | inr e => Some (inr e) end.

(** A run of [acquire] by CPU [c] that wins the first exchange. *)
Definition acquire_run (c : nat) (l : lockid) (m : machine) : option (machine + string) :=
  r ← acquire_enter c l m;
  match r with
  | inl m' => m'' ← acquire_xchg c l m'; m3 ← acquire_record c l m''; Some (inl m3)
  | inr e => Some (inr e)
  end.

Lemma release_run_spec m c l k :
  inv m → cpus m !! c = Some k → at_pc k = Run → l ∈ held m c →
  ∃ m', release_run c l m = Some (inl m') ∧ held m' c = held m c ∖ {[l]}.
Proof.
  intros Hinv Hk Hpc Hl. unfold release_run, release_enter. rewrite Hk. simpl.
  rewrite holding_held, bool_decide_true by done.
  set (lk := mkLock _ None). unfold release_xchg.
  rewrite cpus_put_cpu, decide_True by (split; [done|simpl; by eapply lookup_lt_Some]).
  simpl. pose proof (owns_depth _ _ _ _ Hinv Hk (or_introl (proj1 (elem_of_held _ _ _) Hl))).
  unfold popcli. simpl. rewrite (inv_IF _ Hinv _ _ Hk) by lia.
  destruct (Z.ltb_spec (ncli k - 1) 0); [lia|]. eexists. split; [done|].
  rewrite held_put_cpu, held_put_lock, lock_of_put_cpu, lock_of_put.
  rewrite (decide_True (P := l = l)) by done. rewrite decide_False by done.
  rewrite held_put_cpu, held_put_lock. rewrite decide_False by done. set_solver.
Qed.

Lemma acquire_run_spec m c l k :
  inv m → cpus m !! c = Some k → at_pc k = Run → l ∉ held m c →
  locked (lock_of m l) = 0 →
  ∃ m', acquire_run c l m = Some (inl m') ∧ held m' c = {[l]} ∪ held m c.
Proof.
  intros Hinv Hk Hpc Hl H0. unfold acquire_run, acquire_enter. rewrite Hk. simpl.
  assert (Hh : holding (put_cpu c (pushcli k) m) c l = false).
  { unfold holding. rewrite lock_of_put_cpu. by rewrite H0. }
  rewrite Hh. set (k1 := set_pc (Spin l) (pushcli k)). unfold acquire_xchg.
  assert (Hlt : (c < length (cpus m))%nat) by (by eapply lookup_lt_Some).
  rewrite cpus_put_cpu, decide_True by done. simpl. rewrite lock_of_put_cpu, H0. simpl.
  unfold acquire_record. rewrite cpus_put_cpu, decide_True
    by (split; [done|simpl; by rewrite length_insert]).
  simpl. eexists; split; [done|].
  rewrite held_put_cpu, held_put_lock, decide_True by done.
  rewrite held_put_cpu, held_put_lock. simpl.
  destruct (inv_locks _ Hinv l) as [? ->| |]; try done.
  rewrite decide_False by done. rewrite held_put_cpu.
  apply set_eq. intros l'. set_unfold. destruct (decide (l' = l)); naive_solver.
Qed.

(** C29. [acquire] and [release] on the machine implement their specification on
    the set of locks the CPU holds: [release] of a held lock removes it and
    of another panics; [acquire] of a held lock panics, and of a free lock
    adds it. *)
Theorem lock_refinement m0 m c l k :
  boot m0 → reachable m0 m → cpus m !! c = Some k → at_pc k = Run →
  (match Held.release l (held m c) with
   | Ret _ h => ∃ m', release_run c l m = Some (inl m') ∧ held m' c = h
   | Panic e => release_run c l m = Some (inr e)
   | _ => False
   end) ∧
  (match Held.acquire l (held m c) with
   | Ret _ h => locked (lock_of m l) = 0 →
       ∃ m', acquire_run c l m = Some (inl m') ∧ held m' c = h
   | Panic e => acquire_run c l m = Some (inr e)
   | _ => False
   end).
Proof.
  intros Hb Hr Hk Hpc. pose proof (reachable_inv _ _ Hb Hr) as Hinv.
  unfold Held.release, Held.acquire. case_decide as Hin.
  - split; [by eapply release_run_spec|].
    unfold acquire_run, acquire_enter. rewrite Hk. simpl.
    assert (Hh : holding (put_cpu c (pushcli k) m) c l = holding m c l) by done.
    rewrite Hh, holding_held, bool_decide_true by done. done.
  - split.
    + unfold release_run, release_enter. rewrite Hk. simpl.
      by rewrite holding_held, bool_decide_false by done.
    + intros. by eapply acquire_run_spec.
Qed.

(** A two-CPU machine: CPU 0 takes [ptable.lock], CPU 1 spins on it. *)
Definition boot2 : machine :=
  mkM [mkCpu true 0 false Run; mkCpu true 0 false Run] ∅.
Definition boot2_after : option machine :=
  a ← acquire_run 0 L_ptable boot2;
  m ← match a with inl m => Some m | inr _ => None end;
  b ← acquire_enter 1 L_ptable m;
  match b with inl m' => acquire_xchg 1 L_ptable m' | inr _ => None end.

Lemma boot2_boot : boot boot2.
Proof.
  split; [done|]. intros [|[|c]] k H; simpl in H; simplify_eq; done.
Qed.

Lemma boot2_reach : ∃ m, boot2_after = Some m ∧ reachable boot2 m.
Proof.
  eexists. split; [vm_compute; reflexivity|].
  eapply reach_step; [eapply reach_step; [eapply reach_step; [eapply reach_step;
    [eapply reach_step; [apply reach_init|]|]|]|]|].
  - by eapply (step_acquire_enter 0 _ _ L_ptable).
  - by eapply (step_acquire_xchg 0 _ _ L_ptable).
  - by eapply (step_acquire_record 0 _ _ L_ptable).
  - by eapply (step_acquire_enter 1 _ _ L_ptable).
  - by eapply (step_acquire_xchg 1 _ _ L_ptable).
Qed.

Lemma boot2_final m :
  boot2_after = Some m → owns m 0 L_ptable ∧ ∃ k, cpus m !! 0%nat = Some k ∧ at_pc k = Run.
Proof. vm_compute. intros [= <-]. split; [by left|]. by eexists. Qed.

Lemma mutual_exclusion_witness :
  ∃ m, boot2_after = Some m ∧ owns m 0 L_ptable ∧
    (∀ c, owns m c L_ptable → 0%nat = c ∧ locked (lock_of m L_ptable) ≠ 0).
Proof.
  destruct boot2_reach as (m & Hm & Hr). exists m. destruct (boot2_final _ Hm) as [Ho _].
  split_and!; [done..|]. intros c Hc.
  exact (mutual_exclusion boot2 m L_ptable 0 c boot2_boot Hr Ho Hc).
Defined.

Lemma owner_interrupts_off_witness :
  ∃ m k, boot2_after = Some m ∧ cpus m !! 0%nat = Some k ∧ IF k = false ∧ 0 < ncli k.
Proof.
  destruct boot2_reach as (m & Hm & Hr). destruct (boot2_final _ Hm) as (Ho & k & Hk & _).
  exists m, k. split_and!; [done..| |];
    apply (owner_interrupts_off boot2 m L_ptable 0 k boot2_boot Hr Hk Ho).
Defined.

Lemma lock_refinement_witness :
  ∃ m m', boot2_after = Some m ∧ release_run 0 L_ptable m = Some (inl m') ∧
    held m' 0 = held m 0 ∖ {[L_ptable]}.
Proof.
  destruct boot2_reach as (m & Hm & Hr). destruct (boot2_final _ Hm) as (Ho & k & Hk & Hpc).
  destruct (lock_refinement boot2 m 0 L_ptable k boot2_boot Hr Hk Hpc) as [H _].
  assert (Hin : L_ptable ∈ held m 0).
  { apply elem_of_held. revert Hm. vm_compute. by intros [= <-]. }
  unfold Held.release in H. rewrite decide_True in H by done.
  destruct H as (m' & Hm' & Hh). by exists m, m'.
Defined.
