(* ===== verification/Core.v ===== *)
(** * The process table and sleep/wakeup (proc.h, proc.c)

    [core] is the state every kernel component shares: the locks this CPU
    holds, the process table, [nextpid], [initproc] and the per-CPU [proc]
    pointer.  Pointers into [ptable.proc] are indices; a null pointer is
    [None]. *)
From S2P Require Import Prelude Spinlock.

(** ** Constants (param.h, mmu.h, memlayout.h) *)

Definition NPROC : nat := 64.
Definition KSTACKSIZE : Z := 4096.
Definition NOFILE : nat := 16.
Definition PGSIZE : Z := 4096.

(** ** Sleep channels: the addresses passed to [sleep] and [wakeup] *)

Inductive chan_t :=
| Ch_proc (p : nat)          (* a [struct proc] *)
| Ch_ticks | Ch_log
| Ch_buf (b : nat) | Ch_inode (i : nat)
| Ch_nread (p : Z) | Ch_nwrite (p : Z)   (* fields of a [struct pipe] *)
| Ch_input.

#[export] Instance chan_eq_dec : EqDecision chan_t.
Proof. solve_decision. Defined.

(** ** [struct proc] *)

Inductive procstate := UNUSED | EMBRYO | SLEEPING | RUNNABLE | RUNNING | ZOMBIE.

#[export] Instance procstate_eq_dec : EqDecision procstate.
Proof. solve_decision. Defined.

(** [struct trapframe] without its padding (x86.h). *)
Record trapframe := mkTf {
  tf_edi : Z; tf_esi : Z; tf_ebp : Z; tf_oesp : Z; tf_ebx : Z; tf_edx : Z;
  tf_ecx : Z; tf_eax : Z;
  tf_gs : Z; tf_fs : Z; tf_es : Z; tf_ds : Z; tf_trapno : Z;
  tf_err : Z; tf_eip : Z; tf_cs : Z; tf_eflags : Z; tf_esp : Z; tf_ss : Z }.

(** [struct context] and the word above it on the kernel stack, the address
    the context's function returns to. *)
Record context := mkCtx {
  c_edi : Z; c_esi : Z; c_ebx : Z; c_ebp : Z; c_eip : Z; c_ret : Z }.

(** [tf] and [context] point into the kernel stack page, which belongs to this
    process alone, so the records hold what they point to. *)
Record proc := mkProc {
  sz : Z; pgdir : Z; kstack : Z; state : procstate; pid : Z;
  parent : option nat; tf : trapframe; ctx : context;
  chan : option chan_t; killed : Z; ofile : list (option nat);
  cwd : option nat; name : list Z; step : Z; sizeStep : Z }.

Definition tf0 : trapframe := mkTf 0 0 0 0 0 0 0 0 0 0 0 0 0 0 0 0 0 0 0.
Definition ctx0 : context := mkCtx 0 0 0 0 0 0.

(** A process slot as the loader leaves it in BSS. *)
Definition proc0 : proc :=
  mkProc 0 0 0 UNUSED 0 None tf0 ctx0 None 0 (replicate NOFILE None) None
    (replicate 16 0) 0 0.

Definition set_sz v p := mkProc v (pgdir p) (kstack p) (state p) (pid p) (parent p) (tf p)
  (ctx p) (chan p) (killed p) (ofile p) (cwd p) (name p) (step p) (sizeStep p).
Definition set_pgdir v p := mkProc (sz p) v (kstack p) (state p) (pid p) (parent p) (tf p)
  (ctx p) (chan p) (killed p) (ofile p) (cwd p) (name p) (step p) (sizeStep p).
Definition set_kstack v p := mkProc (sz p) (pgdir p) v (state p) (pid p) (parent p) (tf p)
  (ctx p) (chan p) (killed p) (ofile p) (cwd p) (name p) (step p) (sizeStep p).
Definition set_state v p := mkProc (sz p) (pgdir p) (kstack p) v (pid p) (parent p) (tf p)
  (ctx p) (chan p) (killed p) (ofile p) (cwd p) (name p) (step p) (sizeStep p).
Definition set_pid v p := mkProc (sz p) (pgdir p) (kstack p) (state p) v (parent p) (tf p)
  (ctx p) (chan p) (killed p) (ofile p) (cwd p) (name p) (step p) (sizeStep p).
Definition set_parent v p := mkProc (sz p) (pgdir p) (kstack p) (state p) (pid p) v (tf p)
  (ctx p) (chan p) (killed p) (ofile p) (cwd p) (name p) (step p) (sizeStep p).
Definition set_tf v p := mkProc (sz p) (pgdir p) (kstack p) (state p) (pid p) (parent p) v
  (ctx p) (chan p) (killed p) (ofile p) (cwd p) (name p) (step p) (sizeStep p).
Definition set_ctx v p := mkProc (sz p) (pgdir p) (kstack p) (state p) (pid p) (parent p)
  (tf p) v (chan p) (killed p) (ofile p) (cwd p) (name p) (step p) (sizeStep p).
Definition set_chan v p := mkProc (sz p) (pgdir p) (kstack p) (state p) (pid p) (parent p)
  (tf p) (ctx p) v (killed p) (ofile p) (cwd p) (name p) (step p) (sizeStep p).
Definition set_killed v p := mkProc (sz p) (pgdir p) (kstack p) (state p) (pid p) (parent p)
  (tf p) (ctx p) (chan p) v (ofile p) (cwd p) (name p) (step p) (sizeStep p).
Definition set_ofile v p := mkProc (sz p) (pgdir p) (kstack p) (state p) (pid p) (parent p)
  (tf p) (ctx p) (chan p) (killed p) v (cwd p) (name p) (step p) (sizeStep p).
Definition set_cwd v p := mkProc (sz p) (pgdir p) (kstack p) (state p) (pid p) (parent p)
  (tf p) (ctx p) (chan p) (killed p) (ofile p) v (name p) (step p) (sizeStep p).
Definition set_name v p := mkProc (sz p) (pgdir p) (kstack p) (state p) (pid p) (parent p)
  (tf p) (ctx p) (chan p) (killed p) (ofile p) (cwd p) v (step p) (sizeStep p).
Definition set_step v p := mkProc (sz p) (pgdir p) (kstack p) (state p) (pid p) (parent p)
  (tf p) (ctx p) (chan p) (killed p) (ofile p) (cwd p) (name p) v (sizeStep p).
Definition set_sizeStep v p := mkProc (sz p) (pgdir p) (kstack p) (state p) (pid p) (parent p)
  (tf p) (ctx p) (chan p) (killed p) (ofile p) (cwd p) (name p) (step p) v.

(** ** The shared state *)

Record core := mkCore {
  locks : gset lockid; ptable : list proc; nextpid : Z;
  initproc : option nat; cur : option nat }.

Definition set_locks v c := mkCore v (ptable c) (nextpid c) (initproc c) (cur c).
Definition set_ptable v c := mkCore (locks c) v (nextpid c) (initproc c) (cur c).
Definition set_nextpid v c := mkCore (locks c) (ptable c) v (initproc c) (cur c).
Definition set_initproc v c := mkCore (locks c) (ptable c) (nextpid c) v (cur c).
Definition set_cur v c := mkCore (locks c) (ptable c) (nextpid c) (initproc c) v.

(** At boot: BSS, [nextpid = 1]. *)
Definition core0 : core := mkCore ∅ (replicate NPROC proc0) 1 None None.

#[export] Program Instance core_locks : Lens core (gset lockid) | 5 :=
  {| lget := locks; lset := set_locks |}.
Solve All Obligations with (intros; repeat match goal with c : core |- _ => destruct c end; done).

Definition upd_proc (i : nat) (f : proc → proc) (c : core) : core :=
  set_ptable (alter f i (ptable c)) c.

Section Ops.
Context {S : Type} `{L : !Lens S core}.

Definition getc {A} (f : core → A) : M S A := gets (λ s, f (lget s)).
Definition modc (f : core → core) : M S unit := modify (λ s, lset (f (lget s)) s).

Definition acquire (l : lockid) : M S unit := lift (T := core) (lift (Held.acquire l)).
Definition release (l : lockid) : M S unit := lift (T := core) (lift (Held.release l)).
Definition holding (l : lockid) : M S bool := getc (λ c, Held.holding l (locks c)).

(** [proc]: the running process; a null pointer faults when followed. *)
Definition myproc : M S nat := o ← getc cur; deref o.
Definition getp {A} (i : nat) (f : proc → A) : M S A :=
  o ← getc (λ c, ptable c !! i); p ← deref o; mret (f p).
Definition setp (i : nat) (f : proc → proc) : M S unit := modc (upd_proc i f).

(** [wakeup1]: every sleeper on [ch] becomes runnable. *)
Definition wakeup1_proc (ch : chan_t) (p : proc) : proc :=
  if decide (state p = SLEEPING ∧ chan p = Some ch) then set_state RUNNABLE p else p.
Definition wakeup1 (ch : chan_t) : M S unit :=
  modc (λ c, set_ptable (wakeup1_proc ch <$> ptable c) c).

Definition wakeup (ch : chan_t) : M S unit :=
  acquire L_ptable ;; wakeup1 ch ;; release L_ptable.

(** [sched]: the checks, then the switch to the scheduler.  [cpu->ncli] is the
    number of locks held and FL_IF is clear while it is positive
    ([Spinlock.owner_interrupts_off]).  What follows the switch runs when the
    process is scheduled again.  [cpu->intena], which [sched] saves over the
    switch, is a field of the processors of [Spinlock.Smp]; it only decides
    whether the last [popcli] turns interrupts on, which the set of held locks
    does not show. *)
Definition eflags_IF (c : core) : bool := bool_decide (locks c = ∅).
Definition sched : M S unit :=
  h ← holding L_ptable;
  if negb h then panic "sched ptable.lock" else
  ncli ← getc (λ c, size (locks c));
  if negb (Nat.eqb ncli 1) then panic "sched locks" else
  p ← myproc; st ← getp p state;
  if decide (st = RUNNING) then panic "sched running" else
  fl_if ← getc eflags_IF;
  if (fl_if : bool) then panic "sched interruptible" else block.

(** [sleep] up to the switch. *)
Definition sleep (ch : chan_t) (lk : lockid) : M S unit :=
  o ← getc cur;
  match o with
  | None => panic "sleep"
  | Some p =>
      (if decide (lk = L_ptable) then mret ()
       else acquire L_ptable ;; release lk) ;;
      setp p (set_chan (Some ch)) ;;
      setp p (set_state SLEEPING) ;;
      sched
  end.

(** [sleep] after the switch back, run by the woken process. *)
Definition sleep_resume (lk : lockid) : M S unit :=
  p ← myproc;
  setp p (set_chan None) ;;
  if decide (lk = L_ptable) then mret ()
  else release L_ptable ;; acquire lk.

(** [yield] up to the switch. *)
Definition yield : M S unit :=
  acquire L_ptable ;; p ← myproc; setp p (set_state RUNNABLE) ;; sched.

End Ops.

(** ** What waking changes *)

(** [c'] is [c] except that some sleeping processes became runnable. *)
Definition woken (p p' : proc) : Prop :=
  p' = p ∨ (state p = SLEEPING ∧ p' = set_state RUNNABLE p).
Record only_woken (c c' : core) : Prop := {
  ow_locks : locks c' = locks c;
  ow_procs : Forall2 woken (ptable c) (ptable c');
  ow_nextpid : nextpid c' = nextpid c;
  ow_init : initproc c' = initproc c;
  ow_cur : cur c' = cur c }.

Lemma only_woken_refl c : only_woken c c.
Proof. constructor; auto. apply Forall2_same_length_lookup_2; [done|]. intros. left. congruence. Qed.

Lemma woken_trans p p' p'' : woken p p' → woken p' p'' → woken p p''.
Proof. unfold woken. intros [-> | [H ->]] [-> | [H' ->]]; auto. Qed.

Lemma only_woken_trans c c' c'' : only_woken c c' → only_woken c' c'' → only_woken c c''.
Proof.
  intros [] []. constructor; try congruence.
  apply Forall2_same_length_lookup. split.
  { transitivity (length (ptable c')); by eapply Forall2_length. }
  intros i x y Hx Hy.
  destruct (Forall2_lookup_l _ _ _ _ _ ow_procs0 Hx) as (z & Hz & ?).
  destruct (Forall2_lookup_l _ _ _ _ _ ow_procs1 Hz) as (y' & Hy' & ?).
  simplify_eq. eauto using woken_trans.
Qed.

(** ** Running the operations *)

Section Run.
Context {S : Type} `{L : !Lens S core}.

Lemma acquire_run l (s : S) :
  acquire l s = if decide (l ∈ locks (lget s)) then Panic "acquire"
    else Ret () (lset (set_locks ({[l]} ∪ locks (lget s)) (lget s)) s).
Proof. unfold acquire, lift, Held.acquire. simpl. by case_decide. Qed.

Lemma release_run l (s : S) :
  release l s = if decide (l ∈ locks (lget s))
    then Ret () (lset (set_locks (locks (lget s) ∖ {[l]}) (lget s)) s)
    else Panic "release".
Proof. unfold release, lift, Held.release. simpl. by case_decide. Qed.

Lemma wp_acquire l Q (s : S) :
  l ∉ locks (lget s) →
  Q () (lset (set_locks ({[l]} ∪ locks (lget s)) (lget s)) s) → wp (acquire l) Q s.
Proof. intros. unfold wp. rewrite acquire_run. by rewrite decide_False. Qed.

Lemma wp_release l Q (s : S) :
  l ∈ locks (lget s) →
  Q () (lset (set_locks (locks (lget s) ∖ {[l]}) (lget s)) s) → wp (release l) Q s.
Proof. intros. unfold wp. rewrite release_run. by rewrite decide_True. Qed.

Lemma wp_getc {A} (f : core → A) Q (s : S) : Q (f (lget s)) s → wp (getc f) Q s.
Proof. done. Qed.

Lemma wp_modc f Q (s : S) : Q () (lset (f (lget s)) s) → wp (modc f) Q s.
Proof. done. Qed.

Lemma wp_getp {A} i (f : proc → A) p Q (s : S) :
  ptable (lget s) !! i = Some p → Q (f p) s → wp (getp i f) Q s.
Proof.
  intros H HQ. unfold getp. wp_steps. eapply wp_getc. rewrite H. simpl. by wp_steps.
Qed.

Lemma wp_myproc i Q (s : S) : cur (lget s) = Some i → Q i s → wp myproc Q s.
Proof. intros H HQ. unfold myproc. wp_steps. apply wp_getc. rewrite H. by wp_steps. Qed.

Lemma wlp_acquire l (Q : unit → S → Prop) B (s : S) :
  (l ∉ locks (lget s) → Q () (lset (set_locks ({[l]} ∪ locks (lget s)) (lget s)) s)) →
  wlp (acquire l) Q B s.
Proof. intros H. unfold wlp. rewrite acquire_run. case_decide; auto. Qed.

Lemma wlp_release l (Q : unit → S → Prop) B (s : S) :
  (l ∈ locks (lget s) → Q () (lset (set_locks (locks (lget s) ∖ {[l]}) (lget s)) s)) →
  wlp (release l) Q B s.
Proof. intros H. unfold wlp. rewrite release_run. case_decide; auto. Qed.

Lemma wlp_getc {A} (f : core → A) (Q : A → S → Prop) B (s : S) :
  Q (f (lget s)) s → wlp (getc f) Q B s.
Proof. done. Qed.

Lemma wlp_modc f (Q : unit → S → Prop) B (s : S) :
  Q () (lset (f (lget s)) s) → wlp (modc f) Q B s.
Proof. done. Qed.

Lemma wlp_getp {A} i (f : proc → A) (Q : A → S → Prop) B (s : S) :
  (∀ p, ptable (lget s) !! i = Some p → Q (f p) s) → wlp (getp i f) Q B s.
Proof.
  intros H. unfold getp. apply wlp_bind, wlp_getc, wlp_bind, wlp_deref.
  intros p Hp. by apply wlp_ret, H.
Qed.

Lemma wlp_setp i f (Q : unit → S → Prop) B (s : S) :
  Q () (lset (upd_proc i f (lget s)) s) → wlp (setp i f) Q B s.
Proof. done. Qed.

Lemma wlp_myproc (Q : nat → S → Prop) B (s : S) :
  (∀ i, cur (lget s) = Some i → Q i s) → wlp myproc Q B s.
Proof. intros H. unfold myproc. apply wlp_bind, wlp_getc, wlp_deref. auto. Qed.

Lemma wlp_myproc_at i (Q : nat → S → Prop) B (s : S) :
  cur (lget s) = Some i → Q i s → wlp myproc Q B s.
Proof. intros H HQ. apply wlp_myproc. intros j Hj. congruence. Qed.

(** [sched] either panics or blocks where it stands. *)
Lemma wlp_sched (Q : unit → S → Prop) (B : S → Prop) (s : S) : B s → wlp sched Q B s.
Proof.
  intros H. unfold sched, holding. apply wlp_bind, wlp_getc. case_match; [done|].
  apply wlp_bind, wlp_getc. case_match; [done|].
  apply wlp_bind, wlp_myproc. intros i Hi. apply wlp_bind, wlp_getp. intros p Hp.
  case_decide; [done|]. apply wlp_bind, wlp_getc. by case_match.
Qed.

Lemma never_sched : never (S := S) sched.
Proof.
  unfold sched. apply never_bind_r. intros h. destruct (negb h); [done|].
  apply never_bind_r. intros n. destruct (negb _); [done|].
  do 2 (apply never_bind_r; intros ?). case_decide; [done|].
  apply never_bind_r. intros fl. by destruct fl.
Qed.

Lemma sched_run i p (s : S) :
  locks (lget s) = {[L_ptable]} → cur (lget s) = Some i →
  ptable (lget s) !! i = Some p → state p ≠ RUNNING →
  sched s = Block s.
Proof.
  intros Hl Hc Hp Hs. unfold sched, holding.
  erewrite bind_eq by (unfold getc, gets; reflexivity).
  rewrite Hl. unfold Held.holding. rewrite bool_decide_true by set_solver. cbn [negb].
  erewrite bind_eq by (unfold getc, gets; reflexivity).
  rewrite Hl, size_singleton. cbn [Nat.eqb negb].
  erewrite bind_eq.
  2:{ unfold myproc. erewrite bind_eq by (unfold getc, gets; reflexivity).
      rewrite Hc. reflexivity. }
  erewrite bind_eq.
  2:{ unfold getp. erewrite bind_eq by (unfold getc, gets; reflexivity).
      rewrite Hp. reflexivity. }
  rewrite decide_False by done. erewrite bind_eq by (unfold getc, gets; reflexivity).
  unfold eflags_IF. rewrite Hl, bool_decide_false by set_solver. done.
Qed.

Lemma wakeup_run ch (s : S) :
  L_ptable ∉ locks (lget s) →
  wakeup ch s =
    Ret () (lset (set_ptable (wakeup1_proc ch <$> ptable (lget s)) (lget s)) s).
Proof.
  intros H. unfold wakeup, mbind, M_bind. rewrite acquire_run.
  rewrite decide_False by done. unfold wakeup1, modc, modify.
  rewrite release_run. rewrite !lget_lset. simpl.
  rewrite decide_True by set_solver. rewrite !lset_lset. do 2 f_equal. destruct (lget s) as [lk pt np ip cu]; simpl in *.
  unfold set_ptable, set_locks; simpl. f_equal. set_solver.
Qed.

Lemma wp_wakeup ch Q (s : S) :
  L_ptable ∉ locks (lget s) →
  Q () (lset (set_ptable (wakeup1_proc ch <$> ptable (lget s)) (lget s)) s) →
  wp (wakeup ch) Q s.
Proof. intros H HQ. unfold wp. by rewrite wakeup_run. Qed.

End Run.

Lemma wakeup1_proc_woken ch p : woken p (wakeup1_proc ch p).
Proof. unfold woken, wakeup1_proc. case_decide; naive_solver. Qed.

Lemma wakeup_only_woken ch c :
  only_woken c (set_ptable (wakeup1_proc ch <$> ptable c) c).
Proof.
  constructor; try done. simpl. apply Forall2_fmap_r.
  apply Forall2_same_length_lookup_2; [done|].
  intros i x y ? ?. simplify_eq. apply wakeup1_proc_woken.
Qed.

(** ** Rewriting the process table *)

Lemma upd_upd i f g c : upd_proc i f (upd_proc i g c) = upd_proc i (f ∘ g) c.
Proof. unfold upd_proc, set_ptable; simpl. f_equal. apply list_alter_alter_eq. Qed.

Lemma upd_lookup i j f c :
  ptable (upd_proc i f c) !! j =
    if decide (i = j) then f <$> ptable c !! i else ptable c !! j.
Proof.
  simpl. apply list_lookup_alter.
Qed.

Lemma upd_length i f c : length (ptable (upd_proc i f c)) = length (ptable c).
Proof. apply length_alter. Qed.

(** Symbolic execution of the process-table operations in a [wlp] goal.  Run on
    a state whose [core] is a constructor, [wlp_step] keeps it one. *)
Ltac core_cbn :=
  cbv beta iota delta [lget lset lens_fst lens_snd lens_id fst snd upd_proc set_locks
    set_ptable set_nextpid set_initproc set_cur locks ptable nextpid initproc cur].
Ltac core_cbn_in :=
  cbv beta iota delta [lget lset lens_fst lens_snd lens_id fst snd upd_proc set_locks
    set_ptable set_nextpid set_initproc set_cur locks ptable nextpid initproc cur] in *.

Ltac wlp_step :=
  match goal with
  | |- wlp (_ ≫= _) _ _ _ => apply wlp_bind
  | |- wlp (mret _) _ _ _ => apply wlp_ret
  | |- wlp (panic _) _ _ _ => apply wlp_panic
  | |- wlp block _ _ _ => apply wlp_block
  | |- wlp (acquire _) _ _ _ => apply wlp_acquire; intros ?
  | |- wlp (release _) _ _ _ => apply wlp_release; intros ?
  | |- wlp (getc _) _ _ _ => apply wlp_getc
  | |- wlp (modc _) _ _ _ => apply wlp_modc
  | |- wlp (getp _ _) _ _ _ => apply wlp_getp; intros ? ?
  | |- wlp (setp _ _) _ _ _ => apply wlp_setp
  | |- wlp myproc _ _ _ =>
      first [eapply wlp_myproc_at; [reflexivity|] | apply wlp_myproc; intros ? ?]
  | |- wlp (deref _) _ _ _ => apply wlp_deref; intros ? ?
  | |- wlp sched _ _ _ => apply wlp_sched
  end; core_cbn.
Ltac wlp_run := core_cbn; repeat wlp_step.
