(* ===== verification/Ring.v ===== *)
(** * Ring buffers with free-running indices

    pipe.c and console.c keep a queue in an array of [n] bytes, at indices that
    count up modulo 2^32 and are reduced modulo [n] for access.  [ring] says
    which queue the array holds between the index [r] of the oldest byte and the
    index [w] of the next one. *)
From S2P Require Import Prelude.

Section Ring.
Context (n : Z).
Hypothesis Hn : 0 < n < 2 ^ 32.
Hypothesis Hdiv : (n | 2 ^ 32).

Record ring (buf : list Z) (r w : Z) (Q : list Z) : Prop := {
  rg_len : length buf = Z.to_nat n;
  rg_r : 0 ≤ r < 2 ^ 32;
  rg_w : w = u32 (r + Z.of_nat (length Q));
  rg_fit : Z.of_nat (length Q) ≤ n;
  rg_at k x : Q !! k = Some x → aget buf ((r + Z.of_nat k) mod n) = Some x }.

Lemma mod_u32 x : u32 x mod n = x mod n.
Proof.
  destruct Hdiv as [k Hk]. unfold u32. symmetry.
  rewrite (Z.div_mod x (2 ^ 32)) at 1 by done.
  rewrite Hk at 1. rewrite Z.add_comm.
  replace (k * n * (x / 2 ^ 32)) with (k * (x / 2 ^ 32) * n) by ring.
  apply Z_mod_plus_full.
Qed.

Lemma mod_range buf r w Q x : ring buf r w Q → 0 ≤ x mod n < Z.of_nat (length buf).
Proof. intros R. rewrite (rg_len _ _ _ _ R). pose proof (Z.mod_pos_bound x n). lia. Qed.

Lemma u32_shift_inj x a b : Z.abs (a - b) < 2 ^ 32 → u32 (x + a) = u32 (x + b) → a = b.
Proof.
  unfold u32. intros. pose proof (Z.div_mod (x + a) (2 ^ 32)).
  pose proof (Z.div_mod (x + b) (2 ^ 32)). lia.
Qed.

Lemma mod_inj x a b : Z.abs (a - b) < n → (x + a) mod n = (x + b) mod n → a = b.
Proof.
  intros Hab E. pose proof (Z.div_mod (x + a) n). pose proof (Z.div_mod (x + b) n).
  assert (Ed : a - b = n * ((x + a) / n - (x + b) / n)) by lia.
  destruct (decide ((x + a) / n - (x + b) / n = 0)) as [E0|E0]; [rewrite E0 in Ed; lia|nia].
Qed.

(** The code's tests and the bytes in use. *)
Lemma ring_full buf r w Q : ring buf r w Q →
  (w =? u32 (r + n)) = bool_decide (Z.of_nat (length Q) = n).
Proof.
  intros [_ R W L _]. rewrite W. apply Bool.eq_iff_eq_true.
  rewrite Z.eqb_eq, bool_decide_eq_true. split; [|by intros ->].
  intros E%u32_shift_inj; lia.
Qed.

Lemma ring_empty buf r w Q : ring buf r w Q → (r =? w) = bool_decide (Q = []).
Proof.
  intros [_ R W L _]. rewrite W. apply Bool.eq_iff_eq_true.
  rewrite Z.eqb_eq, bool_decide_eq_true. rewrite <-(u32_small r) at 1 by done. split.
  - rewrite <-(Z.add_0_r r) at 1.
    intros E%u32_shift_inj; [|lia]. apply nil_length_inv. lia.
  - intros ->. by rewrite Z.add_0_r.
Qed.

Lemma ring_count buf r w Q : ring buf r w Q → u32 (w - r) = Z.of_nat (length Q).
Proof.
  intros [_ R W L _]. rewrite W, u32_sub_l. replace (r + _ - r) with (Z.of_nat (length Q)) by lia.
  apply u32_small. lia.
Qed.

(** One byte in, one byte out, and the last byte taken back. *)
Lemma ring_push buf r w Q x : ring buf r w Q → Z.of_nat (length Q) < n →
  ring (aset buf (w mod n) x) r (u32 (w + 1)) (Q ++ [x]).
Proof.
  intros R HL. pose proof R as [D R0 W L A]. constructor; auto.
  - by rewrite aset_length.
  - rewrite W, u32_add_l, length_app. simpl. f_equal. lia.
  - rewrite length_app. simpl. lia.
  - intros k y Hk. rewrite W, mod_u32. apply lookup_snoc_Some in Hk as [[Hk Hy]|[Hk ->]].
    + rewrite aget_aset_ne; [by apply A|]. intros E. apply (mod_inj r) in E; lia.
    + rewrite Hk. apply aget_aset_eq. by eapply mod_range.
Qed.

Lemma ring_pop buf r w Q x : ring buf r w (x :: Q) →
  ring buf (u32 (r + 1)) w Q ∧ aget buf (r mod n) = Some x.
Proof.
  intros [D R W L A]. split.
  - constructor; auto.
    + apply u32_range.
    + rewrite W, u32_add_l. cbn [length]. f_equal. lia.
    + cbn [length] in L. lia.
    + intros k y Hk. rewrite <-(A (S k) y Hk). f_equal.
      rewrite <-(Z.add_mod_idemp_l (u32 _)) by lia. rewrite mod_u32.
      rewrite Z.add_mod_idemp_l by lia. f_equal. lia.
  - rewrite <-(A 0%nat x eq_refl). f_equal. f_equal. lia.
Qed.

Lemma ring_unpush buf r w Q x : ring buf r w (Q ++ [x]) →
  ring buf r (u32 (w - 1)) Q ∧ aget buf (u32 (w - 1) mod n) = Some x.
Proof.
  intros [D R W L A]. rewrite length_app in W, L. simpl in W, L.
  assert (E : u32 (w - 1) = u32 (r + Z.of_nat (length Q))).
  { rewrite W, u32_sub_l. f_equal. lia. }
  split.
  - constructor; auto; [lia|]. intros k y Hk. apply A. by apply lookup_app_l_Some.
  - rewrite E, mod_u32. apply A. by apply list_lookup_middle.
Qed.

Lemma ring_new buf : length buf = Z.to_nat n → ring buf 0 0 [].
Proof. intros. constructor; simpl; try done; lia. Qed.

End Ring.
