(* ===== verification/CString.v ===== *)
(** * C memory and strings (string.c, ulib.c)

    Two models of C data.  [Module Mem] is byte-addressed memory, for the
    functions whose arguments may overlap ([memmove]) or that look at the
    address itself ([memset]).  [Module Str] models a [char*] as the list of
    the bytes from the pointer to the end of its array; reading or writing
    past that end is [None].  Bytes are unsigned. *)
From S2P Require Import Prelude.

(** ** Byte memory *)

Module Mem.

(** Bytes never written read as 0. *)
Abbreviation mem := (gmap Z Z).
Definition rd (m : mem) (a : Z) : Z := default 0 (m !! a).
Definition wr (m : mem) (a v : Z) : mem := <[a := v]> m.

Fixpoint rd_range (m : mem) (a : Z) (n : nat) : list Z :=
  match n with O => [] | S n' => rd m a :: rd_range m (a + 1) n' end.
Fixpoint wr_range (m : mem) (a : Z) (vs : list Z) : mem :=
  match vs with [] => m | v :: vs' => wr_range (wr m a v) (a + 1) vs' end.

(** A [uint] in memory, little-endian. *)
Definition ld32 (m : mem) (a : Z) : Z := le_val (rd_range m a 4).
Definition st32 (m : mem) (a v : Z) : mem := wr_range m a (le_bytes 4 v).

(** The x86 string stores [rep stosb] and [rep stosl]. *)
Fixpoint stosb (m : mem) (a data : Z) (cnt : nat) : mem :=
  match cnt with O => m | S c => stosb (wr m a (u8 data)) (a + 1) data c end.
Fixpoint stosl (m : mem) (a data : Z) (cnt : nat) : mem :=
  match cnt with O => m | S c => stosl (st32 m a (u32 data)) (a + 4) data c end.

(** [memset]: words when address and length are both multiples of four. *)
Definition memset (m : mem) (dst c n : Z) : mem :=
  if (Z.rem (i32 dst) 4 =? 0) && (n mod 4 =? 0) then
    let c := Z.land c 255 in
    stosl m dst (Z.lor (Z.lor (Z.lor (Z.shiftl c 24) (Z.shiftl c 16)) (Z.shiftl c 8)) c)
      (Z.to_nat (n / 4))
  else stosb m dst c (Z.to_nat n).

(** [memmove]: the two copy loops. *)
Fixpoint copy_fwd (m : mem) (d s : Z) (n : nat) : mem :=
  match n with O => m | S n' => copy_fwd (wr m d (rd m s)) (d + 1) (s + 1) n' end.
Fixpoint copy_bwd (m : mem) (d s : Z) (n : nat) : mem :=
  match n with
  | O => m
  | S n' => copy_bwd (wr m (d - 1) (rd m (s - 1))) (d - 1) (s - 1) n'
  end.
Definition memmove (m : mem) (dst src n : Z) : mem :=
  if (src <? dst) && (dst <? src + n)
  then copy_bwd m (dst + n) (src + n) (Z.to_nat n)
  else copy_fwd m dst src (Z.to_nat n).

(** [memcmp]: the difference at the first byte that differs. *)
Fixpoint memcmp_loop (m : mem) (s1 s2 : Z) (n : nat) : Z :=
  match n with
  | O => 0
  | S n' => if rd m s1 =? rd m s2 then memcmp_loop m (s1 + 1) (s2 + 1) n'
            else rd m s1 - rd m s2
  end.
Definition memcmp (m : mem) (v1 v2 n : Z) : Z := memcmp_loop m v1 v2 (Z.to_nat n).

End Mem.

(** ** Strings *)

Module Str.

Fixpoint strlen (s : list Z) : option nat :=
  match s with
  | [] => None
  | c :: s' => if c =? 0 then Some 0%nat else S <$> strlen s'
  end.

Fixpoint strncmp (p q : list Z) (n : nat) {struct n} : option Z :=
  match n with
  | O => Some 0
  | S n' =>
      match p, q with
      | a :: p', b :: q' =>
          if negb (a =? 0) && (a =? b) then strncmp p' q' n' else Some (u8 a - u8 b)
      | _, _ => None
      end
  end.

(** [strcmp] of ulib.c. *)
Fixpoint strcmp (p q : list Z) : option Z :=
  match p, q with
  | a :: p', b :: q' =>
      if negb (a =? 0) && (a =? b) then strcmp p' q' else Some (u8 a - u8 b)
  | _, _ => None
  end.

(** Store zeros over the first [n] bytes. *)
Fixpoint zero_fill (s : list Z) (n : nat) {struct n} : option (list Z) :=
  match n with
  | O => Some s
  | S n' => match s with [] => None | _ :: s' => cons 0 <$> zero_fill s' n' end
  end.

(** [strncpy]: copy up to the terminator, then pad with zeros. *)
Fixpoint strncpy (s t : list Z) (n : nat) {struct n} : option (list Z) :=
  match n with
  | O => Some s
  | S n' =>
      match s, t with
      | _ :: s', c :: t' =>
          if c =? 0 then cons 0 <$> zero_fill s' n' else cons c <$> strncpy s' t' n'
      | _, _ => None
      end
  end.

(** [safestrcpy] with [n] bytes of room: the loop stops with one byte left or
    after the terminator, and a zero goes where it stopped. *)
Fixpoint safestrcpy_loop (s t : list Z) (n : nat) {struct n} : option (list Z) :=
  match n with
  | O | 1%nat => match s with [] => None | _ :: s' => Some (0 :: s') end
  | S n' =>
      match s, t with
      | _ :: s', c :: t' =>
          if c =? 0 then match s' with [] => None | _ :: s'' => Some (0 :: 0 :: s'') end
          else cons c <$> safestrcpy_loop s' t' n'
      | _, _ => None
      end
  end.
Definition safestrcpy (s t : list Z) (n : Z) : option (list Z) :=
  if n <=? 0 then Some s else safestrcpy_loop s t (Z.to_nat n).

(** [strcpy] of ulib.c. *)
Fixpoint strcpy (s t : list Z) : option (list Z) :=
  match s, t with
  | _ :: s', c :: t' => if c =? 0 then Some (0 :: s') else cons c <$> strcpy s' t'
  | _, _ => None
  end.

(** [strchr]: [Some None] is the null pointer, [Some (Some s')] the match. *)
Fixpoint strchr (s : list Z) (c : Z) : option (option (list Z)) :=
  match s with
  | [] => None
  | b :: s' => if b =? 0 then Some None else if b =? c then Some (Some s) else strchr s' c
  end.

(** [atoi]: decimal digits up to the first other byte, in [int] arithmetic. *)
Fixpoint atoi_loop (s : list Z) (n : Z) : option Z :=
  match s with
  | [] => None
  | c :: s' => if (48 <=? c) && (c <=? 57) then atoi_loop s' (i32 (n * 10 + c - 48))
               else Some n
  end.
Definition atoi (s : list Z) : option Z := atoi_loop s 0.

(** The bytes before the terminator. *)
Fixpoint cstr (s : list Z) : list Z :=
  match s with [] => [] | c :: s' => if c =? 0 then [] else c :: cstr s' end.

(** The array holds a terminator. *)
Definition terminated (s : list Z) : Prop := 0 ∈ s.

End Str.

(** ** Facts about memory *)

Module MemFacts.
Import Mem.

Lemma rd_wr m a v b : rd (wr m a v) b = if decide (a = b) then v else rd m b.
Proof. unfold rd, wr. rewrite lookup_insert. by case_decide. Qed.

Lemma rd_wr_range m a vs b :
  rd (wr_range m a vs) b =
    if decide (a ≤ b < a + Z.of_nat (length vs)) then vs !!! Z.to_nat (b - a) else rd m b.
Proof.
  revert m a. induction vs as [|v vs IH]; intros m a; simpl.
  - rewrite decide_False by lia. done.
  - rewrite IH, rd_wr. repeat case_decide; try lia; try done.
    + replace (Z.to_nat (b - a)) with (S (Z.to_nat (b - (a + 1)))) by lia. done.
    + subst. by rewrite Z.sub_diag.
Qed.

Lemma rd_range_length m a n : length (rd_range m a n) = n.
Proof. revert a. induction n; intros; simpl; auto. Qed.

Lemma rd_range_lookup m a n i :
  (i < n)%nat → rd_range m a n !! i = Some (rd m (a + Z.of_nat i)).
Proof.
  revert a i. induction n as [|n IH]; intros a i Hi; [lia|].
  destruct i as [|i]; simpl.
  - by rewrite Z.add_0_r.
  - rewrite IH by lia. do 2 f_equal. lia.
Qed.

Lemma rd_range_total m a n i :
  (i < n)%nat → rd_range m a n !!! i = rd m (a + Z.of_nat i).
Proof. intros. apply list_lookup_total_correct. by apply rd_range_lookup. Qed.

Lemma rd_range_ext m m' a n :
  (∀ b, a ≤ b < a + Z.of_nat n → rd m' b = rd m b) → rd_range m' a n = rd_range m a n.
Proof.
  intros H. apply list_eq. intros i. destruct (decide (i < n)%nat).
  - rewrite !rd_range_lookup by done. rewrite H by lia. done.
  - rewrite !lookup_ge_None_2; rewrite ?rd_range_length; auto; lia.
Qed.

Lemma rd_range_wr_range m a vs :
  rd_range (wr_range m a vs) a (length vs) = vs.
Proof.
  apply list_eq. intros i. destruct (decide (i < length vs)%nat).
  - rewrite rd_range_lookup by done. rewrite rd_wr_range, decide_True by lia.
    replace (Z.to_nat (a + Z.of_nat i - a)) with i by lia.
    symmetry. by apply list_lookup_lookup_total_lt.
  - rewrite !lookup_ge_None_2; rewrite ?rd_range_length; auto; lia.
Qed.

Lemma rd_range_wr_range_disjoint m a vs b n :
  b + Z.of_nat n ≤ a ∨ a + Z.of_nat (length vs) ≤ b →
  rd_range (wr_range m a vs) b n = rd_range m b n.
Proof.
  intros. apply rd_range_ext. intros c Hc. rewrite rd_wr_range.
  rewrite decide_False; [done|lia].
Qed.

Lemma ld32_st32 m a v : 0 ≤ v < 2 ^ 32 → ld32 (st32 m a v) a = v.
Proof.
  intros. unfold ld32, st32.
  pose proof (rd_range_wr_range m a (le_bytes 4 v)) as H1.
  rewrite le_bytes_length in H1. rewrite H1. by apply le_val_bytes.
Qed.

Lemma ld32_st32_ne m a b v : a + 4 ≤ b ∨ b + 4 ≤ a → ld32 (st32 m a v) b = ld32 m b.
Proof.
  intros. unfold ld32, st32. rewrite rd_range_wr_range_disjoint; [done|].
  rewrite le_bytes_length. lia.
Qed.

Lemma rd_st32 m a v b : ¬ (a ≤ b < a + 4) → rd (st32 m a v) b = rd m b.
Proof. intros. unfold st32. rewrite rd_wr_range, le_bytes_length, decide_False; auto. Qed.

Lemma ld32_ext m m' a :
  (∀ b, a ≤ b < a + 4 → rd m' b = rd m b) → ld32 m' a = ld32 m a.
Proof. intros H. unfold ld32. by rewrite (rd_range_ext m m'). Qed.

Lemma rd_stosb m a c n b :
  rd (stosb m a c n) b = if decide (a ≤ b < a + Z.of_nat n) then u8 c else rd m b.
Proof.
  revert m a. induction n as [|n IH]; intros m a; cbn [stosb].
  - by rewrite decide_False by lia.
  - rewrite IH, rd_wr. repeat case_decide; try lia; done.
Qed.

Lemma rd_stosl m a w c n b :
  le_bytes 4 (u32 w) = [c; c; c; c] →
  rd (stosl m a w n) b = if decide (a ≤ b < a + 4 * Z.of_nat n) then c else rd m b.
Proof.
  intros Hw. revert m a. induction n as [|n IH]; intros m a; cbn [stosl].
  - by rewrite decide_False by lia.
  - rewrite IH. unfold st32. rewrite Hw, rd_wr_range. cbn [length].
    repeat case_decide; try lia; try done.
    assert (Z.to_nat (b - a) < 4)%nat as Hlt by lia.
    destruct (Z.to_nat (b - a)) as [|[|[|[|]]]]; by try lia.
Qed.

(** The word [memset] builds has the byte in all four places. *)
Lemma memset_word c :
  0 ≤ c < 256 →
  le_bytes 4 (u32 (Z.lor (Z.lor (Z.lor (Z.shiftl c 24) (Z.shiftl c 16)) (Z.shiftl c 8)) c))
    = [c; c; c; c].
Proof.
  intros Hc.
  assert (Hall : forallb (λ c, bool_decide (le_bytes 4 (u32 (Z.lor (Z.lor (Z.lor
    (Z.shiftl c 24) (Z.shiftl c 16)) (Z.shiftl c 8)) c)) = [c; c; c; c]))
    (Z.of_nat <$> seq 0 256) = true) by (vm_compute; reflexivity).
  rewrite forallb_forall in Hall. eapply bool_decide_eq_true, Hall.
  apply list_elem_of_In, list_elem_of_fmap. exists (Z.to_nat c).
  split; [lia|]. apply elem_of_seq. lia.
Qed.

Lemma rd_memset m dst c n b :
  0 ≤ n →
  rd (memset m dst c n) b = if decide (dst ≤ b < dst + n) then u8 c else rd m b.
Proof.
  intros Hn. unfold memset. destruct (_ && _) eqn:E.
  - zify_bool. assert (Hu : u8 c = Z.land c 255)
      by (unfold u8; symmetry; apply (Z.land_ones c 8); lia).
    rewrite Hu, (rd_stosl _ _ _ (Z.land c 255)).
    + rewrite Z2Nat.id by (apply Z.div_pos; lia).
      pose proof (Z.div_mod n 4). apply decide_ext; lia.
    + apply memset_word. rewrite <- Hu. apply u8_range.
  - rewrite rd_stosb, Z2Nat.id by done. done.
Qed.

Lemma rd_copy_fwd m d s n b :
  d ≤ s ∨ s + Z.of_nat n ≤ d →
  rd (copy_fwd m d s n) b =
    if decide (d ≤ b < d + Z.of_nat n) then rd m (s + (b - d)) else rd m b.
Proof.
  revert m d s. induction n as [|n IH]; intros m d s H; cbn [copy_fwd].
  - by rewrite decide_False by lia.
  - rewrite IH by lia. rewrite !rd_wr.
    repeat case_decide; try lia; try done; f_equal; lia.
Qed.

Lemma rd_copy_bwd m d s n b :
  s ≤ d →
  rd (copy_bwd m d s n) b =
    if decide (d - Z.of_nat n ≤ b < d) then rd m (s + (b - d)) else rd m b.
Proof.
  revert m d s. induction n as [|n IH]; intros m d s H; cbn [copy_bwd].
  - by rewrite decide_False by lia.
  - rewrite IH by lia. rewrite !rd_wr.
    repeat case_decide; try lia; try done; f_equal; lia.
Qed.

Lemma rd_memmove m dst src n b :
  0 ≤ n →
  rd (memmove m dst src n) b =
    if decide (dst ≤ b < dst + n) then rd m (src + (b - dst)) else rd m b.
Proof.
  intros Hn. unfold memmove. destruct (_ && _) eqn:E.
  - zify_bool. rewrite rd_copy_bwd by lia. rewrite Z2Nat.id by done.
    replace (dst + n - n) with dst by lia.
    replace (src + n + (b - (dst + n))) with (src + (b - dst)) by lia. done.
  - rewrite rd_copy_fwd by (apply andb_false_iff in E; rewrite Z2Nat.id by done;
      destruct E; zify_bool; lia).
    by rewrite Z2Nat.id.
Qed.

Lemma memcmp_loop_0 m s1 s2 n :
  memcmp_loop m s1 s2 n = 0 ↔ rd_range m s1 n = rd_range m s2 n.
Proof.
  revert s1 s2. induction n as [|n IH]; intros s1 s2; simpl; [done|].
  destruct (Z.eqb_spec (rd m s1) (rd m s2)) as [E|E].
  - rewrite IH, E. split; [intros ->; done|]. by intros [= ->].
  - split; [lia|]. by intros [= ? _].
Qed.

End MemFacts.

(** ** Facts about strings *)

Module StrFacts.
Import Str.

Lemma terminated_cons c s : terminated (c :: s) ↔ c = 0 ∨ terminated s.
Proof. unfold terminated. rewrite elem_of_cons. naive_solver. Qed.

Lemma cstr_stop l r : 0 ∉ l → cstr (l ++ 0 :: r) = l.
Proof.
  intros H. induction l as [|x l IH]; [done|]. cbn [app cstr].
  rewrite (proj2 (Z.eqb_neq x 0)) by set_solver. f_equal. apply IH. set_solver.
Qed.

Lemma cstr_nonzero s : Forall (λ c, c ≠ 0) (cstr s).
Proof.
  induction s as [|c s IH]; simpl; [constructor|].
  destruct (Z.eqb_spec c 0); constructor; auto.
Qed.

Lemma strlen_cstr s : terminated s → strlen s = Some (length (cstr s)).
Proof.
  induction s as [|c s IH]; intros H; simpl.
  - by apply elem_of_nil in H.
  - destruct (Z.eqb_spec c 0); [done|]. apply terminated_cons in H as [?|H]; [done|].
    by rewrite IH.
Qed.

Lemma strlen_None s : strlen s = None ↔ ¬ terminated s.
Proof.
  induction s as [|c s IH]; simpl.
  - split; [|done]. intros _ H. by apply elem_of_nil in H.
  - rewrite terminated_cons. destruct (Z.eqb_spec c 0); [naive_solver|].
    rewrite fmap_None, IH. naive_solver.
Qed.

(** The comparison does not run past the arrays when both are terminated or
    the bound keeps it inside. *)
Definition covers (s : list Z) (n : nat) : Prop := terminated s ∨ (n ≤ length s)%nat.

Lemma covers_cons c s n : covers (c :: s) (S n) → c ≠ 0 → covers s n.
Proof. intros [H|H] Hc; [left|right; simpl in H; lia]. apply terminated_cons in H. naive_solver. Qed.

Lemma strncmp_total p q n : covers p n → covers q n → is_Some (strncmp p q n).
Proof.
  revert p q. induction n as [|n IH]; intros p q Hp Hq; [by eexists|].
  assert (Hne : ∀ s, covers s (S n) → s ≠ []).
  { intros s [H|H] ->; [by apply elem_of_nil in H|simpl in H; lia]. }
  destruct p as [|a p]; [by destruct (Hne _ Hp)|]. destruct q as [|b q]; [by destruct (Hne _ Hq)|].
  simpl. destruct (Z.eqb_spec a 0); simpl; [by eexists|].
  destruct (Z.eqb_spec a b); simpl; [|by eexists]. subst.
  apply IH; eapply covers_cons; eauto.
Qed.

Lemma strncmp_eq0 p q n r :
  Forall is_byte p → Forall is_byte q → strncmp p q n = Some r →
  r = 0 ↔ take n (cstr p) = take n (cstr q).
Proof.
  intros Hp. revert q n r. induction Hp as [|a p Ha Hp IH]; intros q n r Hq H;
    destruct n as [|n]; simpl in H; simplify_eq; [done|done|].
  destruct Hq as [|b q Hb Hq]; [done|]. simpl.
  destruct (Z.eqb_spec a 0) as [->|Ha0]; simpl in H.
  - simplify_eq. rewrite !u8_small by (unfold is_byte in *; lia).
    destruct (Z.eqb_spec b 0); simpl; split; intros; try lia; done.
  - destruct (Z.eqb_spec a b) as [->|Hab]; simpl in H.
    + rewrite (proj2 (Z.eqb_neq b 0)) by done. simpl. rewrite IH by done.
      split; [by intros ->|by intros [=]].
    + simplify_eq. rewrite !u8_small by done. split; [lia|].
      destruct (Z.eqb_spec b 0); simpl; by intros [=].
Qed.

Lemma zero_fill_spec s n :
  (n ≤ length s)%nat → zero_fill s n = Some (replicate n 0 ++ drop n s).
Proof.
  revert s. induction n as [|n IH]; intros s H; simpl; [done|].
  destruct s as [|c s]; simpl in *; [lia|]. by rewrite IH by lia.
Qed.

Lemma strncpy_spec s t n :
  (n ≤ length s)%nat → covers t n →
  strncpy s t n = Some (take n (cstr t) ++ replicate (n - length (cstr t)) 0 ++ drop n s).
Proof.
  revert s t. induction n as [|n IH]; intros s t Hs Ht; [done|].
  destruct s as [|x s]; [simpl in Hs; lia|]. simpl in Hs.
  destruct t as [|c t].
  { destruct Ht as [H|H]; [by apply elem_of_nil in H|simpl in H; lia]. }
  simpl. destruct (Z.eqb_spec c 0) as [->|Hc]; simpl.
  - by rewrite zero_fill_spec by lia.
  - by rewrite (IH s t) by (lia || by eapply covers_cons).
Qed.

Lemma safestrcpy_loop_spec s t n :
  (0 < n ≤ length s)%nat → covers t n →
  ∃ s', safestrcpy_loop s t n = Some s' ∧ length s' = length s ∧
    cstr s' = take (n - 1) (cstr t) ∧ (0 ∈ take n s').
Proof.
  revert s t. induction n as [|n IH]; intros s t Hn Ht; [lia|].
  destruct n as [|n].
  { destruct s as [|x s]; [simpl in Hn; lia|]. simpl. eexists. split_and!; [done..|set_solver]. }
  destruct s as [|x s]; [simpl in Hn; lia|].
  destruct t as [|c t].
  { destruct Ht as [H|H]; [by apply elem_of_nil in H|simpl in H; lia]. }
  cbn [safestrcpy_loop]. simpl in Hn. destruct (Z.eqb_spec c 0) as [->|Hc].
  - destruct s as [|y s]; [simpl in Hn; lia|]. eexists. split_and!; [done..|].
    simpl. set_solver.
  - destruct (IH s t) as (s' & E & Hl & Hc' & Hz); [lia|by eapply covers_cons|].
    exists (c :: s'). split_and!; [|simpl; lia| |simpl; set_solver].
    { change (cons c <$> safestrcpy_loop s t (S n) = Some (c :: s')). by rewrite E. }
    cbn [cstr]. rewrite (proj2 (Z.eqb_neq c 0)) by done. rewrite Hc'.
    replace (S (S n) - 1)%nat with (S (S n - 1)) by lia. done.
Qed.

End StrFacts.

(** ** Properties *)

Import Mem MemFacts Str StrFacts.

(** [memmove] copies as if through a temporary, however source and
    destination overlap, and changes no other byte. *)
Theorem memmove_correct m dst src n :
  0 ≤ n →
  rd_range (memmove m dst src n) dst (Z.to_nat n) = rd_range m src (Z.to_nat n) ∧
  ∀ b, ¬ (dst ≤ b < dst + n) → rd (memmove m dst src n) b = rd m b.
Proof.
  intros Hn. split.
  - apply list_eq. intros i. destruct (decide (i < Z.to_nat n)%nat).
    + rewrite !rd_range_lookup by done. rewrite rd_memmove by done.
      rewrite decide_True by lia. do 2 f_equal. lia.
    + rewrite !lookup_ge_None_2; rewrite ?rd_range_length; auto; lia.
  - intros b Hb. rewrite rd_memmove by done. by rewrite decide_False.
Qed.

Lemma memmove_correct_witness :
  rd_range (memmove (wr_range ∅ 100 [1; 2; 3; 4]) 102 100 4) 102 4 = [1; 2; 3; 4].
Proof.
  destruct (memmove_correct (wr_range ∅ 100 [1; 2; 3; 4]) 102 100 4) as [H _]; [lia|].
  etransitivity; [exact H|]. by vm_compute.
Defined.

(** [memset] fills exactly the [n] bytes with the low byte of [c], on its
    word path and on its byte path alike. *)
Theorem memset_correct m dst c n b :
  0 ≤ n →
  rd (memset m dst c n) b = if decide (dst ≤ b < dst + n) then u8 c else rd m b.
Proof. apply rd_memset. Qed.

Lemma memset_correct_witness :
  rd (memset ∅ 4096 0x1ff 8) 4103 = 255 ∧ rd (memset ∅ 4097 0x1ff 7) 4104 = 0.
Proof.
  split; [rewrite (memset_correct ∅ 4096 0x1ff 8 4103) by lia
         |rewrite (memset_correct ∅ 4097 0x1ff 7 4104) by lia]; by vm_compute.
Defined.

(** [strncmp] never reads past strings that are terminated or at least [n]
    long, and answers 0 exactly when they agree up to the terminator or the
    first [n] bytes. *)
Theorem strncmp_correct p q n :
  Forall is_byte p → Forall is_byte q → covers p n → covers q n →
  ∃ r, strncmp p q n = Some r ∧ (r = 0 ↔ take n (cstr p) = take n (cstr q)).
Proof.
  intros Hp Hq Hcp Hcq. destruct (strncmp_total p q n Hcp Hcq) as [r Hr].
  exists r. split; [done|]. by eapply strncmp_eq0.
Qed.

(** The name in a full directory entry has no terminator. *)
Definition dot14 : list Z := replicate 14 46.

Lemma strncmp_correct_witness :
  ∃ r, strncmp (46 :: dot14) dot14 14 = Some r ∧
    (r = 0 ↔ take 14 (cstr (46 :: dot14)) = take 14 (cstr dot14)).
Proof.
  apply (strncmp_correct (46 :: dot14) dot14 14);
    [repeat constructor; done..|right; vm_compute; lia|right; vm_compute; lia].
Defined.

(** [safestrcpy] stays inside a destination of at least [n] bytes and always
    leaves a terminated string: the source's, cut to [n - 1] bytes. *)
Theorem safestrcpy_correct s t n :
  0 < n ≤ Z.of_nat (length s) → covers t (Z.to_nat n) →
  ∃ s', safestrcpy s t n = Some s' ∧ length s' = length s ∧
    cstr s' = take (Z.to_nat n - 1) (cstr t) ∧ terminated s'.
Proof.
  intros Hn Ht. unfold safestrcpy. rewrite (proj2 (Z.leb_gt n 0)) by lia.
  destruct (safestrcpy_loop_spec s t (Z.to_nat n)) as (s' & -> & Hl & Hc & Hz); [lia|done|].
  exists s'. split_and!; [done..|]. apply list_elem_of_In.
  apply list_elem_of_In in Hz. apply (In_nth_error) in Hz as [i Hi].
  apply nth_error_In with i. unfold take in Hi.
  rewrite nth_error_firstn in Hi. by case_match.
Qed.

(** "initcode" into a 4-byte array. *)
Lemma safestrcpy_correct_witness :
  ∃ s', safestrcpy (replicate 4 7) [105; 110; 105; 116; 99; 0] 4 = Some s' ∧
    length s' = 4%nat ∧ cstr s' = [105; 110; 105] ∧ terminated s'.
Proof.
  apply (safestrcpy_correct (replicate 4 7) [105; 110; 105; 116; 99; 0] 4);
    [simpl; lia|left; unfold terminated; set_solver].
Defined.
