(* ===== verification/Proc.v ===== *)
(** * Processes and the stride scheduler (proc.c, sysproc.c)

    The functions of proc.c over [core * E], where [E] is the rest of the
    kernel.  What they call outside proc.c comes through the interface
    [KernelEnv]; [KernelEnvOk] is what the proofs rely on.  A function that
    gives up the CPU ends in [Block]; what it does when scheduled again is the
    definition with suffix [_resume]. *)
From S2P Require Import Prelude Spinlock Core CString.

(** ** The interface to memory and files *)

Class KernelEnv (E : Type) := {
  kalloc : M (core * E) Z;
  kfree : Z → M (core * E) unit;
  setupkvm : M (core * E) Z;
  inituvm : Z → list Z → M (core * E) unit;
  allocuvm : Z → Z → Z → M (core * E) Z;
  deallocuvm : Z → Z → Z → M (core * E) Z;
  copyuvm : Z → Z → M (core * E) Z;
  freevm : Z → M (core * E) unit;
  switchuvm : nat → M (core * E) unit;
  filedup : nat → M (core * E) nat;
  fileclose : nat → M (core * E) unit;
  idup : nat → M (core * E) nat;
  iput : nat → M (core * E) unit;
  namei : list Z → M (core * E) (option nat);
  initlog : M (core * E) unit;
}.

(** The process that was running went to sleep on a channel that is not a
    process, still holding [ptable.lock]. *)
Definition asleep (c c' : core) : Prop :=
  ∃ c1 i ch, only_woken c c1 ∧ cur c = Some i ∧ (∀ q, ch ≠ Ch_proc q) ∧
    c' = set_locks {[L_ptable]}
           (upd_proc i (λ p, set_state SLEEPING (set_chan (Some ch) p)) c1).

(** Returns leave [core] as it was; does not sleep. *)
Definition core_const {E A} (m : M (core * E) A) : Prop :=
  ∀ s, match m s with Ret _ s' => fst s' = fst s | Block _ => False | _ => True end.

(** Returns leave [core] as it was but for wakeups; may sleep. *)
Definition core_wakes {E A} (m : M (core * E) A) : Prop :=
  ∀ s, match m s with
       | Ret _ s' => only_woken (fst s) (fst s')
       | Block s' => asleep (fst s) (fst s')
       | _ => True
       end.

Class KernelEnvOk (E : Type) `{!KernelEnv E} := {
  kalloc_core : core_const kalloc;
  kfree_core v : core_const (kfree v);
  setupkvm_core : core_const setupkvm;
  inituvm_core d b : core_const (inituvm d b);
  allocuvm_core d o n : core_const (allocuvm d o n);
  deallocuvm_core d o n : core_const (deallocuvm d o n);
  copyuvm_core d n : core_const (copyuvm d n);
  freevm_core d : core_const (freevm d);
  switchuvm_core p : core_const (switchuvm p);
  (** [switchuvm] of the current process panics only without a page table. *)
  switchuvm_run p q c e : ptable c !! p = Some q → pgdir q ≠ 0 → cur c = Some p →
    ∃ e', switchuvm p (c, e) = Ret () (c, e');
  filedup_core f : core_const (filedup f);
  idup_core i : core_const (idup i);
  (** Both return their argument. *)
  filedup_same f s f' s' : filedup f s = Ret f' s' → f' = f;
  idup_same i s i' s' : idup i s = Ret i' s' → i' = i;
  fileclose_core f : core_wakes (fileclose f);
  iput_core i : core_wakes (iput i);
  namei_core p : core_wakes (namei p);
  initlog_core : core_wakes initlog;
}.

(** Reasoning through the interface. *)
Section EnvRules.
Context {E : Type}.

Lemma wlp_const {A} (m : M (core * E) A) (Q : A → core * E → Prop) B c e :
  core_const m → (∀ a e' , m (c, e) = Ret a (c, e') → Q a (c, e')) → wlp m Q B (c, e).
Proof.
  intros Hm HQ. specialize (Hm (c, e)). unfold wlp.
  destruct (m (c, e)) as [a [c' e']| | |]; simpl in *; subst; auto; done.
Qed.

Lemma wlp_wakes {A} (m : M (core * E) A) (Q : A → core * E → Prop) (B : core * E → Prop) c e :
  core_wakes m → (∀ a c' e', only_woken c c' → Q a (c', e')) →
  (∀ c' e', asleep c c' → B (c', e')) → wlp m Q B (c, e).
Proof.
  intros Hm HQ HB. specialize (Hm (c, e)). unfold wlp.
  destruct (m (c, e)) as [a [c' e']| |[c' e']|]; simpl in *; auto; done.
Qed.

End EnvRules.

(** ** Constants *)

Definition SEG_UCODE : Z := 4.
Definition SEG_UDATA : Z := 5.
Definition DPL_USER : Z := 3.
Definition FL_IF : Z := 0x200.
(** Link addresses of the two assembly-visible entry points (kernel.sym). *)
Definition forkret_addr : Z := 0x801048ff.
Definition trapret_addr : Z := 0x8010623b.

(** A trap frame in a freshly allocated page, which [kfree] filled with 1s. *)
Definition tf_junk : trapframe :=
  let w := 0x01010101 in let h := 0x0101 in
  mkTf w w w w w w w w h h h h w w w h w w h.

(** ** Stride parameters *)

(** The stride [allocproc] gives to a ticket count. *)
Definition stride_of (tickets : Z) : Z :=
  if tickets =? 0 then Z.quot 10000 500
  else if tickets <=? 50 then Z.quot 10000 50
  else if 1000 <=? tickets then Z.quot 10000 1000
  else Z.quot 10000 tickets.

(** No process whose [step] has reached this is scheduled. *)
Definition STEP_LIMIT : Z := 5000000.

Section Proc.
Context {E : Type} `{KE : !KernelEnv E}.
Abbreviation K := (core * E)%type.

(** ** allocproc, userinit *)

(** The first slot the scan finds [UNUSED]. *)
Definition find_unused (ps : list proc) : option nat :=
  fst <$> list_find (λ p, state p = UNUSED) ps.

Definition allocproc (tickets : Z) : M K (option nat) :=
  acquire L_ptable ;;
  o ← getc (λ c, find_unused (ptable c));
  match o with
  | None => release L_ptable ;; mret None
  | Some p =>
      setp p (set_state EMBRYO) ;;
      n ← getc nextpid;
      setp p (set_pid n) ;;
      modc (set_nextpid (i32 (n + 1))) ;;
      release L_ptable ;;
      k ← kalloc;
      setp p (set_kstack k) ;;
      if k =? 0 then setp p (set_state UNUSED) ;; mret None
      else
        setp p (set_tf tf_junk) ;;
        setp p (set_ctx (mkCtx 0 0 0 0 forkret_addr trapret_addr)) ;;
        setp p (set_sizeStep (stride_of tickets)) ;;
        setp p (set_step 0) ;;
        mret (Some p)
  end.

(** The image linked in as [_binary_initcode_start] is an argument. *)
Definition userinit (initcode : list Z) : M K unit :=
  o ← allocproc 500;
  modc (set_initproc o) ;;
  p ← deref o;
  d ← setupkvm;
  setp p (set_pgdir d) ;;
  if d =? 0 then panic "userinit: out of memory?" else
  inituvm d initcode ;;
  setp p (set_sz PGSIZE) ;;
  let sel := Z.lor (Z.shiftl SEG_UDATA 3) DPL_USER in
  setp p (set_tf (mkTf 0 0 0 0 0 0 0 0 0 0 sel sel 0 0 0
    (Z.lor (Z.shiftl SEG_UCODE 3) DPL_USER) FL_IF PGSIZE sel)) ;;
  old ← getp p name;
  nm ← deref (Str.safestrcpy old [105; 110; 105; 116; 99; 111; 100; 101; 0] 16);
  setp p (set_name nm) ;;
  ip ← namei [47; 0];
  setp p (set_cwd ip) ;;
  setp p (set_state RUNNABLE).

(** ** growproc *)

Definition growproc (n : Z) : M K Z :=
  me ← myproc;
  sz0 ← getp me sz;
  d ← getp me pgdir;
  if 0 <? n then
    sz1 ← allocuvm d sz0 (u32 (sz0 + n));
    if sz1 =? 0 then mret (-1)
    else setp me (set_sz sz1) ;; switchuvm me ;; mret 0
  else if n <? 0 then
    sz1 ← deallocuvm d sz0 (u32 (sz0 + n));
    if sz1 =? 0 then mret (-1)
    else setp me (set_sz sz1) ;; switchuvm me ;; mret 0
  else setp me (set_sz sz0) ;; switchuvm me ;; mret 0.

(** ** fork *)

Definition fork_file (me np : nat) (i : nat) : M K unit :=
  o ← getp me (λ p, ofile p !! i);
  f ← deref o;
  match f with
  | None => mret ()
  | Some f => f' ← filedup f; setp np (λ p, set_ofile (<[i := Some f']> (ofile p)) p)
  end.

Definition fork (tickets : Z) : M K Z :=
  o ← allocproc tickets;
  match o with
  | None => mret (-1)
  | Some np =>
      me ← myproc;
      d0 ← getp me pgdir; sz0 ← getp me sz;
      d ← copyuvm d0 sz0;
      setp np (set_pgdir d) ;;
      if d =? 0 then
        k ← getp np kstack;
        kfree k ;;
        setp np (set_kstack 0) ;;
        setp np (set_state UNUSED) ;;
        mret (-1)
      else
        setp np (set_sz sz0) ;;
        setp np (set_parent (Some me)) ;;
        t ← getp me tf;
        setp np (set_tf t) ;;
        setp np (λ p, let t := tf p in set_tf (mkTf (tf_edi t) (tf_esi t) (tf_ebp t)
          (tf_oesp t) (tf_ebx t) (tf_edx t) (tf_ecx t) 0 (tf_gs t) (tf_fs t) (tf_es t)
          (tf_ds t) (tf_trapno t) (tf_err t) (tf_eip t) (tf_cs t) (tf_eflags t)
          (tf_esp t) (tf_ss t)) p) ;;
        for_each (seq 0 NOFILE) (fork_file me np) ;;
        w ← getp me cwd;
        w ← deref w;
        w' ← idup w;
        setp np (set_cwd (Some w')) ;;
        n ← getp np pid;
        setp np (set_state RUNNABLE) ;;
        src ← getp me name; dst ← getp np name;
        nm ← deref (Str.safestrcpy dst src 16);
        setp np (set_name nm) ;;
        mret n
  end.

(** ** exit *)

Definition exit_file (me : nat) (fd : nat) : M K unit :=
  o ← getp me (λ p, ofile p !! fd);
  f ← deref o;
  match f with
  | None => mret ()
  | Some f => fileclose f ;; setp me (λ p, set_ofile (<[fd := None]> (ofile p)) p)
  end.

Definition wakeup1_opt (o : option nat) : M K unit :=
  match o with Some q => wakeup1 (Ch_proc q) | None => mret () end.

(** One round of the loop that hands the children of [me] to init. *)
Definition exit_child (me : nat) (i : nat) : M K unit :=
  q ← getp i parent;
  if decide (q = Some me) then
    ip ← getc initproc;
    setp i (set_parent ip) ;;
    st ← getp i state;
    when (bool_decide (st = ZOMBIE)) (wakeup1_opt ip)
  else mret ().

(** [exit] after the files are closed. *)
Definition exit_table (me : nat) : M K unit :=
  acquire L_ptable ;;
  q ← getp me parent;
  wakeup1_opt q ;;
  for_each (seq 0 NPROC) (exit_child me) ;;
  setp me (set_state ZOMBIE) ;;
  sched.

Definition exit : M K unit :=
  me ← myproc;
  ip ← getc initproc;
  if decide (Some me = ip) then panic "init exiting" else
  for_each (seq 0 NOFILE) (exit_file me) ;;
  w ← getp me cwd;
  w ← deref w;
  iput w ;;
  setp me (set_cwd None) ;;
  exit_table me.

(** ** wait *)

(** The scan: the first zombie child, and whether any child was seen. *)
Fixpoint wait_scan (me : nat) (ps : list proc) (i : nat) (havekids : bool) :
    option nat * bool :=
  match ps with
  | [] => (None, havekids)
  | p :: ps' =>
      if decide (parent p = Some me) then
        if decide (state p = ZOMBIE) then (Some i, true)
        else wait_scan me ps' (S i) true
      else wait_scan me ps' (S i) havekids
  end.

(** Collect the zombie [p]. *)
Definition wait_reap (p : nat) : M K Z :=
  n ← getp p pid;
  k ← getp p kstack;
  kfree k ;;
  setp p (set_kstack 0) ;;
  d ← getp p pgdir;
  freevm d ;;
  setp p (set_state UNUSED) ;;
  setp p (set_pid 0) ;;
  setp p (set_parent None) ;;
  setp p (λ q, set_name (<[0%nat := 0]> (name q)) q) ;;
  setp p (set_killed 0) ;;
  release L_ptable ;;
  mret n.

(** One round of the [for(;;)], [ptable.lock] held. *)
Definition wait_round : M K Z :=
  me ← myproc;
  r ← getc (λ c, wait_scan me (ptable c) 0 false);
  match r with
  | (Some p, _) => wait_reap p
  | (None, havekids) =>
      kl ← getp me killed;
      if negb havekids || negb (kl =? 0) then release L_ptable ;; mret (-1)
      else sleep (Ch_proc me) L_ptable ;; mret 0 (* not reached: [sleep] blocks *)
  end.
Definition wait : M K Z := acquire L_ptable ;; wait_round.
Definition wait_resume : M K Z := sleep_resume L_ptable ;; wait_round.

(** ** scheduler *)

(** [int s = 0]: chooses the scheduler; nothing assigns it. *)
Definition s_flag : Z := 0.

(** The scan of the stride scheduler: least [step] below [min], first one wins. *)
Fixpoint pick (ps : list proc) (i : nat) (min : Z) (minP : option nat) : option nat :=
  match ps with
  | [] => minP
  | p :: ps' =>
      if decide (state p = RUNNABLE) then
        if step p <? min then pick ps' (S i) (step p) (Some i)
        else pick ps' (S i) min minP
      else pick ps' (S i) min minP
  end.

(** One round of the stride scheduler up to [swtch]; the result is the process
    switched to. *)
Definition scheduler_round : M K (option nat) :=
  acquire L_ptable ;;
  o ← getc (λ c, pick (ptable c) 0 STEP_LIMIT None);
  match o with
  | Some p =>
      modc (set_cur (Some p)) ;;
      setp p (λ q, set_step (i32 (step q + sizeStep q)) q) ;;
      setp p (set_state RUNNING) ;;
      switchuvm p ;;
      mret (Some p)
  | None => release L_ptable ;; mret None
  end.

(** After [swtch] returns to the stride scheduler ([switchkvm] only loads CR3). *)
Definition scheduler_back : M K unit :=
  modc (set_cur None) ;; release L_ptable.

(** The round-robin branch: the scan continues from slot [i]. *)
Fixpoint rr_next (ps : list proc) (i : nat) : option nat :=
  match ps with
  | [] => None
  | p :: ps' => if decide (state p = RUNNABLE) then Some i else rr_next ps' (S i)
  end.
Definition scheduler_rr (i : nat) : M K (option nat) :=
  o ← getc (λ c, rr_next (drop i (ptable c)) i);
  match o with
  | Some p =>
      modc (set_cur (Some p)) ;;
      switchuvm p ;;
      setp p (set_state RUNNING) ;;
      mret (Some p)
  | None => release L_ptable ;; mret None
  end.

(** [yield] after the switch back. *)
Definition yield_resume : M K unit := release L_ptable.

(** [forkret]; the argument and result are the static [first]. *)
Definition forkret (first : bool) : M K bool :=
  release L_ptable ;;
  if first then initlog ;; mret false else mret false.

(** ** kill *)

Definition find_pid (n : Z) (ps : list proc) : option nat :=
  fst <$> list_find (λ p, pid p = n) ps.

Definition kill (n : Z) : M K Z :=
  acquire L_ptable ;;
  o ← getc (λ c, find_pid n (ptable c));
  match o with
  | Some p =>
      setp p (set_killed 1) ;;
      st ← getp p state;
      when (bool_decide (st = SLEEPING)) (setp p (set_state RUNNABLE)) ;;
      release L_ptable ;;
      mret 0
  | None => release L_ptable ;; mret (-1)
  end.

(** ** System calls of sysproc.c that need no argument fetching *)

(** The ticket count the user passed is not read. *)
Definition sys_fork : M K Z := fork 500.
Definition sys_exit : M K Z := exit ;; mret 0.
Definition sys_wait : M K Z := wait.
Definition sys_getpid : M K Z := me ← myproc; getp me pid.

End Proc.

(** ** A small environment

    A concrete [KernelEnv] that satisfies [KernelEnvOk]: a machine whose state
    beside [core] is the number of pages left.  It shows the interface is
    satisfiable and lets the theorems be run on concrete states. *)
Module Tiny.

Definition T : Type := nat.
Definition take_page : M (core * T) Z :=
  λ s, match snd s with
       | O => Ret 0 s
       | S n => Ret (PGSIZE * Z.of_nat (S n)) (fst s, n)
       end.
Definition skip {A} (a : A) : M (core * T) A := mret a.

#[export] Instance tiny_env : KernelEnv T := {|
  kalloc := take_page;
  kfree _ := λ s, Ret () (fst s, S (snd s));
  setupkvm := take_page;
  inituvm _ _ := skip ();
  allocuvm _ _ n := skip n;
  deallocuvm _ _ n := skip n;
  copyuvm _ _ := take_page;
  freevm _ := λ s, Ret () (fst s, S (snd s));
  switchuvm p := d ← getp p pgdir;
                 if d =? 0 then panic "switchuvm: no pgdir" else mret ();
  filedup f := skip f;
  fileclose _ := skip ();
  idup i := skip i;
  iput _ := skip ();
  namei _ := skip (Some 1%nat);
  initlog := skip () |}.

Lemma switchuvm_eq p c (e : T) :
  switchuvm p (c, e) =
    match ptable c !! p with
    | Some q => if pgdir q =? 0 then Panic "switchuvm: no pgdir" else Ret () (c, e)
    | None => Fault
    end.
Proof.
  simpl. unfold getp, mbind, M_bind, getc, gets. simpl.
  destruct (ptable c !! p) as [q|]; [|done]. simpl. by destruct (pgdir q =? 0).
Qed.

#[export] Instance tiny_env_ok : KernelEnvOk T.
Proof.
  split; intros; try (intros [? [|?]]; done);
    try (intros [c e]; simpl; apply only_woken_refl).
  - intros [c e]. rewrite switchuvm_eq. destruct (ptable c !! p) as [q|]; [|done].
    by destruct (pgdir q =? 0).
  - exists e. rewrite switchuvm_eq, H. by destruct (Z.eqb_spec (pgdir q) 0).
  - by injection H.
  - by injection H.
Qed.

End Tiny.
