(* ===== verification/Stride.v ===== *)
(** * The stride scheduler (proc.c: scheduler, allocproc)

    What the scan picks, what a sequence of quanta does to the [step]s, how far
    the CPU shares are from proportional, and when the scheduler stops
    choosing anyone. *)
From S2P Require Import Prelude Spinlock Core CString Proc.

(** ** A quantum *)

Section Quantum.
Context {E : Type} `{KE : !KernelEnv E}.

(** One scheduling round in which the process chosen uses its whole time slice:
    the scheduler switches to it, it leaves the kernel, the timer interrupt
    makes it [yield], and [swtch] returns to the scheduler.  The result names
    the process; [None] outside is a panic. *)
Definition quantum (s : core * E) : option (option nat * (core * E)) :=
  match scheduler_round s with
  | Ret None s1 => Some (None, s1)
  | Ret (Some p) s1 =>
      match yield_resume s1 with
      | Ret _ s2 =>
          match yield s2 with
          | Block s3 =>
              match scheduler_back s3 with
              | Ret _ s4 => Some (Some p, s4)
              | _ => None
              end
          | _ => None
          end
      | _ => None
      end
  | _ => None
  end.

(** [n] rounds; the list names the process of each round. *)
Fixpoint quanta (n : nat) (s : core * E) : option (list (option nat) * (core * E)) :=
  match n with
  | O => Some ([], s)
  | S n' =>
      match quantum s with
      | Some (o, s') =>
          match quanta n' s' with
          | Some (os, s'') => Some (o :: os, s'')
          | None => None
          end
      | None => None
      end
  end.

End Quantum.

(** ** The same on the process table alone *)

Definition bump (p : proc) : proc := set_step (i32 (step p + sizeStep p)) p.

Definition stride_round (ps : list proc) : option nat * list proc :=
  match pick ps 0 STEP_LIMIT None with
  | Some i => (Some i, alter bump i ps)
  | None => (None, ps)
  end.

Fixpoint stride_rounds (n : nat) (ps : list proc) : list (option nat) * list proc :=
  match n with
  | O => ([], ps)
  | S n' =>
      let '(o, ps') := stride_round ps in
      let '(os, ps'') := stride_rounds n' ps' in (o :: os, ps'')
  end.

(** Times process [i] ran in a trace. *)
Definition runs_of (i : nat) (os : list (option nat)) : Z :=
  Z.of_nat (length (filter (λ o, o = Some i) os)).

(** What [allocproc] and the scheduler maintain for runnable processes. *)
Definition stride_ok (ps : list proc) : Prop :=
  ∀ i p, ps !! i = Some p → state p = RUNNABLE →
    0 ≤ step p < STEP_LIMIT + 200 ∧ 10 ≤ sizeStep p ≤ 200 ∧ pgdir p ≠ 0.

(** [i] is a runnable process with stride [s] whose step is [v]. *)
Definition at_step (ps : list proc) (i : nat) (s v : Z) : Prop :=
  ∃ p, ps !! i = Some p ∧ state p = RUNNABLE ∧ sizeStep p = s ∧ step p = v.

(** ** The scan *)

Section Pick.

(** Slot [k] of [ps] holds a minimum below [min], the first of its value. *)
Definition is_pick (ps : list proc) (min : Z) (k : nat) : Prop :=
  ∃ p, ps !! k = Some p ∧ state p = RUNNABLE ∧ step p < min ∧
    (∀ j q, ps !! j = Some q → state q = RUNNABLE →
       step p ≤ step q ∧ ((j < k)%nat → step p < step q)).

Definition no_pick (ps : list proc) (min : Z) : Prop :=
  ∀ j q, ps !! j = Some q → state q = RUNNABLE → min ≤ step q.

Lemma no_pick_cons p ps min :
  (state p = RUNNABLE → min ≤ step p) → no_pick ps min → no_pick (p :: ps) min.
Proof. intros Hp Hn [|j] q Hj Hq; simpl in Hj; simplify_eq; eauto. Qed.

Lemma is_pick_cons p ps min k :
  is_pick ps min k → (state p = RUNNABLE → min ≤ step p) → is_pick (p :: ps) min (S k).
Proof.
  intros (r & Hr & Hs & Hlt & Hm) Hp. exists r. split_and!; try done.
  intros [|j] q Hj Hq; simpl in Hj; simplify_eq.
  - specialize (Hp Hq). split; [lia|]. intros _. lia.
  - destruct (Hm j q Hj Hq) as [? H']. split; [done|]. intros. apply H'. lia.
Qed.

Lemma is_pick_lower p ps min k :
  is_pick ps (step p) k → state p = RUNNABLE → step p < min → is_pick (p :: ps) min (S k).
Proof.
  intros (r & Hr & Hs & Hlt & Hm) Hp Hmin. exists r. split_and!; try done; [lia|].
  intros [|j] q Hj Hq; simpl in Hj; simplify_eq.
  - split; [lia|]. intros _. lia.
  - destruct (Hm j q Hj Hq) as [? H']. split; [done|]. intros. apply H'. lia.
Qed.

Lemma pick_cases ps i min minP :
  (pick ps i min minP = minP ∧ no_pick ps min) ∨
  ∃ k, pick ps i min minP = Some (i + k)%nat ∧ is_pick ps min k.
Proof.
  revert i min minP. induction ps as [|p ps IH]; intros i min minP; simpl.
  { left. split; [done|]. by intros j q Hj. }
  destruct (decide (state p = RUNNABLE)) as [Hp|Hp].
  - destruct (Z.ltb_spec (step p) min) as [Hlt|Hge].
    + right. destruct (IH (S i) (step p) (Some i)) as [[-> Hn]|(k & -> & Hk)].
      * exists 0%nat. split; [f_equal; lia|]. exists p. split_and!; [done..|].
        intros [|j] q Hj Hq; simpl in Hj; simplify_eq; [lia|].
        specialize (Hn j q Hj Hq). split; [lia|]. lia.
      * exists (S k). split; [f_equal; lia|]. by apply is_pick_lower.
    + destruct (IH (S i) min minP) as [[-> Hn]|(k & -> & Hk)].
      * left. split; [done|]. by apply no_pick_cons.
      * right. exists (S k). split; [f_equal; lia|]. by apply is_pick_cons.
  - destruct (IH (S i) min minP) as [[-> Hn]|(k & -> & Hk)].
    + left. split; [done|]. by apply no_pick_cons.
    + right. exists (S k). split; [f_equal; lia|]. by apply is_pick_cons.
Qed.

Lemma pick_None ps : pick ps 0 STEP_LIMIT None = None ↔ no_pick ps STEP_LIMIT.
Proof.
  destruct (pick_cases ps 0 STEP_LIMIT None) as [[-> Hn]|(k & -> & p & Hk & Hs & Hlt & _)].
  - done.
  - split; [done|]. intros Hn. specialize (Hn _ _ Hk Hs). lia.
Qed.

Lemma pick_Some ps i : pick ps 0 STEP_LIMIT None = Some i → is_pick ps STEP_LIMIT i.
Proof.
  destruct (pick_cases ps 0 STEP_LIMIT None) as [[-> _]|(k & -> & Hk)]; [done|].
  by intros [= <-].
Qed.

End Pick.

(** ** Rounds *)

Lemma i32_step v s : 0 ≤ v < STEP_LIMIT → 0 ≤ s ≤ 200 → i32 (v + s) = v + s.
Proof. unfold STEP_LIMIT. intros. apply i32_small. lia. Qed.

Lemma bump_fields p : state (bump p) = state p ∧ sizeStep (bump p) = sizeStep p ∧ pgdir (bump p) = pgdir p.
Proof. done. Qed.

Lemma stride_round_ok ps : stride_ok ps → stride_ok (stride_round ps).2.
Proof.
  intros H. unfold stride_round. destruct (pick _ _ _ _) as [k|] eqn:Hp; [|done].
  apply pick_Some in Hp as (pk & Hk & Hs & Hlt & _). simpl.
  intros i p Hi Hr. rewrite list_lookup_alter in Hi. case_decide; [|by eauto].
  subst k. rewrite Hk in Hi. simplify_eq/=.
  destruct (H i pk Hk Hs) as (? & ? & ?). rewrite i32_step by lia.
  split_and!; lia || done.
Qed.

(** One round seen from a runnable process: it moves by its stride when it is
    the one chosen, which needs the smallest step, and stays otherwise. *)
Lemma stride_round_at ps i s v :
  stride_ok ps → at_step ps i s v →
  let '(o, ps') := stride_round ps in
  (o = Some i ∧ at_step ps' i s (v + s) ∧
     v < STEP_LIMIT ∧ ∀ j s' v', at_step ps j s' v' → v ≤ v') ∨
  (o ≠ Some i ∧ at_step ps' i s v).
Proof.
  intros Hok (p & Hi & Hr & Hs & Hv). unfold stride_round.
  destruct (pick _ _ _ _) as [k|] eqn:Hp.
  - apply pick_Some in Hp as (pk & Hk & Hks & Hlt & Hm).
    destruct (decide (k = i)) as [->|Hne].
    + left. rewrite Hi in Hk. simplify_eq. split_and!; [done| |done|].
      * exists (bump pk). rewrite list_lookup_alter_eq, Hi. split_and!; [done..|].
        destruct (Hok _ _ Hi Hr) as (? & ? & ?). simpl. by rewrite i32_step by lia.
      * intros j s' v' (q & Hj & Hq & _ & <-). by destruct (Hm j q Hj Hq).
    + right. split; [congruence|]. exists p. by rewrite list_lookup_alter_ne.
  - right. split; [done|]. by exists p.
Qed.

(** Runnable processes stay runnable, and a process not chosen is untouched. *)
Lemma stride_round_back ps i s v :
  stride_ok ps → at_step (stride_round ps).2 i s v → ∃ v', at_step ps i s v'.
Proof.
  intros Hok. unfold stride_round. destruct (pick _ _ _ _) as [k|] eqn:Hp; [|by eauto].
  simpl. intros (p & Hi & Hr & Hs & Hv). rewrite list_lookup_alter in Hi.
  case_decide; subst.
  - destruct (ps !! i) as [q|] eqn:Hq; [|done]. simplify_eq/=. by exists (step q), q.
  - by exists (step p), p.
Qed.

Lemma stride_rounds_S n ps :
  stride_rounds (S n) ps =
    ((stride_round ps).1 :: (stride_rounds n (stride_round ps).2).1,
     (stride_rounds n (stride_round ps).2).2).
Proof.
  simpl. destruct (stride_round ps) as [o ps']. simpl.
  by destruct (stride_rounds n ps').
Qed.

Lemma runs_of_cons i o os :
  runs_of i (o :: os) = (if decide (o = Some i) then 1 else 0) + runs_of i os.
Proof. unfold runs_of. rewrite filter_cons. case_decide; simpl; lia. Qed.

Lemma stride_rounds_ok n ps : stride_ok ps → stride_ok (stride_rounds n ps).2.
Proof.
  revert ps. induction n as [|n IH]; intros ps H; [done|].
  rewrite stride_rounds_S. simpl. by apply IH, stride_round_ok.
Qed.

(** The step counts the rounds. *)
Lemma stride_rounds_at n ps i s v :
  stride_ok ps → at_step ps i s v →
  at_step (stride_rounds n ps).2 i s (v + runs_of i (stride_rounds n ps).1 * s).
Proof.
  revert ps v. induction n as [|n IH]; intros ps v Hok Ha.
  { simpl. replace (v + runs_of i [] * s) with v by (unfold runs_of; simpl; lia). done. }
  rewrite stride_rounds_S. simpl. rewrite runs_of_cons.
  pose proof (stride_round_at ps i s v Hok Ha) as H.
  pose proof (stride_round_ok _ Hok) as Hok'.
  destruct (stride_round ps) as [o ps']. simpl in *.
  destruct H as [(-> & H & _)|(Hne & H)].
  - rewrite decide_True by done. specialize (IH ps' _ Hok' H).
    match goal with |- at_step _ _ _ ?x => match type of IH with at_step _ _ _ ?y =>
      replace x with y by lia end end. done.
  - rewrite decide_False by done. by apply IH.
Qed.

(** Steps of two runnable processes stay within one stride of each other. *)
Lemma stride_rounds_close n ps i si vi j sj vj d :
  stride_ok ps → at_step ps i si vi → at_step ps j sj vj →
  si ≤ d → vi - vj ≤ d →
  ∀ vi' vj', at_step (stride_rounds n ps).2 i si vi' →
    at_step (stride_rounds n ps).2 j sj vj' → vi' - vj' ≤ d.
Proof.
  revert ps vi vj. induction n as [|n IH]; intros ps vi vj Hok Hi Hj Hsd Hd vi' vj'.
  { simpl. intros Hi' Hj'. destruct Hi as (?&?&?&?&?), Hi' as (?&?&?&?&?),
      Hj as (?&?&?&?&?), Hj' as (?&?&?&?&?). simplify_eq. lia. }
  rewrite stride_rounds_S. simpl.
  pose proof (stride_round_at ps i si vi Hok Hi) as H1.
  pose proof (stride_round_at ps j sj vj Hok Hj) as H2.
  pose proof (stride_round_ok _ Hok) as Hok'.
  assert (0 ≤ sj) as Hsj.
  { destruct Hj as (q & Hq & Hqs & <- & _). destruct (Hok _ _ Hq Hqs). lia. }
  destruct (stride_round ps) as [o ps']. simpl in *.
  destruct H1 as [(Ho1 & H1 & _ & Hm1)|(Ho1 & H1)];
    destruct H2 as [(Ho2 & H2 & _ & Hm2)|(Ho2 & H2)].
  - assert (si = sj ∧ vi = vj) as [-> ->].
    { destruct Hi as (?&?&?&<-&<-), Hj as (?&?&?&<-&<-). by simplify_eq. }
    eapply (IH ps' (vj + sj) (vj + sj)); try done. lia.
  - specialize (Hm1 _ _ _ Hj). eapply (IH ps' (vi + si) vj); try done. lia.
  - eapply (IH ps' vi (vj + sj)); try done. lia.
  - by eapply (IH ps' vi vj).
Qed.

(** ** From quanta to rounds *)

Section QuantumFacts.
Context {E : Type} `{KE : !KernelEnv E, !KernelEnvOk E}.

(** Between quanta: the CPU is in the scheduler and holds no lock. *)
Definition in_scheduler (c : core) : Prop := cur c = None ∧ locks c = ∅.

Lemma locks_cycle (l : lockid) : ({[l]} ∪ ∅) ∖ {[l]} = (∅ : gset lockid).
Proof. set_solver. Qed.

Lemma quantum_round c e :
  in_scheduler c → stride_ok (ptable c) →
  ∃ e', quantum (c, e) =
    Some ((stride_round (ptable c)).1, (set_ptable (stride_round (ptable c)).2 c, e')).
Proof.
  destruct c as [lk ps np ip cu]. intros [Hcur Hlk] Hok. simpl in *. subst.
  unfold quantum, stride_round, scheduler_round, mbind, M_bind.
  rewrite acquire_run. simpl. rewrite decide_False by set_solver.
  unfold getc, gets. simpl. destruct (pick ps 0 STEP_LIMIT None) as [i|] eqn:Hp; simpl.
  - apply pick_Some in Hp as (p & Hi & Hs & Hlt & _).
    destruct (Hok _ _ Hi Hs) as (? & ? & Hd).
    unfold modc, setp, modc, modify. simpl.
    set (ps1 := alter (set_state RUNNING) i
      (alter (λ q, set_step (i32 (step q + sizeStep q)) q) i ps)).
    assert (Hps1 : ps1 !! i = Some (set_state RUNNING (bump p))).
    { unfold ps1. by rewrite list_lookup_alter_eq, list_lookup_alter_eq, Hi. }
    destruct (switchuvm_run i (set_state RUNNING (bump p))
      (mkCore ({[L_ptable]} ∪ ∅) ps1 np ip (Some i)) e) as [e' He']; [done..|].
    unfold upd_proc, set_ptable, set_cur, set_locks; simpl. fold ps1. rewrite He'.
    unfold mret, M_ret, yield_resume. rewrite release_run. simpl.
    rewrite decide_True by set_solver.
    unfold yield, mbind, M_bind. rewrite acquire_run. simpl.
    unfold set_locks; simpl. rewrite locks_cycle. rewrite decide_False by set_solver.
    unfold myproc, getc, gets, deref, mbind, M_bind. cbn.
    erewrite (sched_run i (set_state RUNNABLE (set_state RUNNING (bump p)))); cbn;
      [|set_solver|done|by rewrite list_lookup_alter_eq, Hps1|done].
    unfold scheduler_back, modc, modify, mbind, M_bind. simpl.
    rewrite release_run. simpl. rewrite decide_True by set_solver.
    exists e'. do 4 f_equal. unfold set_cur, set_locks, upd_proc, set_ptable; simpl.
    rewrite locks_cycle. f_equal. unfold ps1. rewrite !list_alter_alter_eq.
    apply list_alter_ext; [|done]. intros q Hq. rewrite Hi in Hq. simplify_eq/=.
    destruct q; simpl in *. by subst.
  - rewrite release_run. simpl. rewrite decide_True by set_solver.
    exists e. simpl. unfold set_locks, set_ptable; simpl. by rewrite locks_cycle.
Qed.

Lemma quanta_rounds n c e :
  in_scheduler c → stride_ok (ptable c) →
  ∃ e', quanta n (c, e) =
    Some ((stride_rounds n (ptable c)).1, (set_ptable (stride_rounds n (ptable c)).2 c, e')).
Proof.
  revert c e. induction n as [|n IH]; intros c e Hin Hok.
  { exists e. simpl. by destruct c. }
  destruct (quantum_round c e Hin Hok) as [e1 He1]. cbn [quanta]. rewrite He1.
  destruct (IH (set_ptable (stride_round (ptable c)).2 c) e1) as [e2 He2];
    [done|by apply stride_round_ok|].
  rewrite He2. exists e2. by rewrite stride_rounds_S.
Qed.

Lemma scheduler_round_run c e :
  in_scheduler c → stride_ok (ptable c) →
  match pick (ptable c) 0 STEP_LIMIT None with
  | Some i => ∃ e', scheduler_round (c, e) = Ret (Some i)
      (mkCore {[L_ptable]} (alter (set_state RUNNING ∘ bump) i (ptable c))
         (nextpid c) (initproc c) (Some i), e')
  | None => scheduler_round (c, e) = Ret None (c, e)
  end.
Proof.
  destruct c as [lk ps np ip cu]. intros [Hcur Hlk] Hok. simpl in *. subst.
  unfold scheduler_round, mbind, M_bind.
  rewrite acquire_run. simpl. rewrite decide_False by set_solver.
  unfold getc, gets. simpl. destruct (pick ps 0 STEP_LIMIT None) as [i|] eqn:Hp; simpl.
  - apply pick_Some in Hp as (p & Hi & Hs & Hlt & _).
    destruct (Hok _ _ Hi Hs) as (? & ? & Hd). unfold modc, setp, modc, modify. simpl.
    unfold upd_proc, set_ptable, set_cur, set_locks; simpl.
    change (alter (λ q, set_step (i32 (step q + sizeStep q)) q) i ps) with (alter bump i ps).
    rewrite list_alter_alter_eq.
    destruct (switchuvm_run i (set_state RUNNING (bump p))
      (mkCore ({[L_ptable]} ∪ ∅) (alter (set_state RUNNING ∘ bump) i ps) np ip (Some i)) e)
      as [e' He']; [simpl; by rewrite list_lookup_alter_eq, Hi|done..|].
    rewrite He'. exists e'. do 3 f_equal.
  - rewrite release_run. simpl. rewrite decide_True by set_solver.
    unfold set_locks; simpl. by rewrite locks_cycle.
Qed.

End QuantumFacts.

(** ** Starvation *)

(** CPU time left below the limit. *)
Definition headroom (p : proc) : nat :=
  if decide (state p = RUNNABLE) then Z.to_nat (STEP_LIMIT - step p) else 0.
Definition total_headroom (ps : list proc) : nat := sum_list (headroom <$> ps).

Lemma total_headroom_alter ps i p :
  ps !! i = Some p → (headroom (bump p) < headroom p)%nat →
  (total_headroom (alter bump i ps) < total_headroom ps)%nat.
Proof.
  unfold total_headroom. revert i. induction ps as [|q ps IH]; intros [|i] Hi Hlt;
    simpl in Hi; simplify_eq; simpl; [lia|].
  specialize (IH i Hi Hlt). by apply Nat.add_lt_mono_l.
Qed.

Lemma stride_round_progress ps i :
  stride_ok ps → (stride_round ps).1 = Some i →
  (total_headroom (stride_round ps).2 < total_headroom ps)%nat.
Proof.
  intros Hok. unfold stride_round. destruct (pick _ _ _ _) as [k|] eqn:Hp; [|done].
  simpl. intros [= ->]. apply pick_Some in Hp as (p & Hk & Hs & Hlt & _).
  eapply total_headroom_alter; [done|]. destruct (Hok _ _ Hk Hs) as (? & ? & _).
  unfold headroom. rewrite !decide_True by done. simpl. rewrite i32_step by lia. lia.
Qed.

Lemma stride_rounds_exhaust ps :
  stride_ok ps → ∃ n, no_pick (stride_rounds n ps).2 STEP_LIMIT.
Proof.
  remember (total_headroom ps) as h eqn:Hh. revert ps Hh.
  induction (lt_wf h) as [h _ IH]. intros ps -> Hok.
  destruct (stride_round ps).1 as [i|] eqn:E.
  - pose proof (stride_round_progress _ _ Hok E) as Hlt.
    destruct (IH _ Hlt (stride_round ps).2) as [n Hn]; [done|by apply stride_round_ok|].
    exists (S n). by rewrite stride_rounds_S.
  - exists 0%nat. simpl. apply pick_None. unfold stride_round in E.
    by destruct (pick _ _ _ _).
Qed.

Lemma stride_rounds_stuck n ps :
  no_pick ps STEP_LIMIT → stride_rounds n ps = (replicate n None, ps).
Proof.
  intros H. assert (Hr : stride_round ps = (None, ps)).
  { unfold stride_round. apply pick_None in H. by rewrite H. }
  induction n as [|n IH]; [done|].
  rewrite stride_rounds_S, Hr. cbn [fst snd]. by rewrite IH.
Qed.

(** ** A newcomer *)

Lemma stride_rounds_newcomer n ps i s v b :
  stride_ok ps → at_step ps i s v →
  (∀ j s' v', j ≠ i → at_step ps j s' v' → b ≤ v') →
  b ≤ STEP_LIMIT → v + Z.of_nat n * s ≤ b →
  (stride_rounds n ps).1 = replicate n (Some i).
Proof.
  revert ps v. induction n as [|n IH]; intros ps v Hok Hi Hb Hlim Hle; [done|].
  rewrite stride_rounds_S. cbn [fst replicate].
  assert (Hs : 10 ≤ s).
  { destruct Hi as (p & Hp & Hr & <- & _). destruct (Hok _ _ Hp Hr) as (_ & ? & _). lia. }
  assert (Hfirst : (stride_round ps).1 = Some i).
  { destruct Hi as (p & Hp & Hr & Hps & Hpv). unfold stride_round.
    destruct (pick _ _ _ _) as [k|] eqn:E.
    - destruct (decide (k = i)) as [->|Hne]; [done|]. exfalso.
      apply pick_Some in E as (q & Hq & Hqr & _ & Hm).
      destruct (Hm i p Hp Hr) as [Hle' _].
      specialize (Hb k (sizeStep q) (step q) Hne). ospecialize (Hb _); [by exists q|]. lia.
    - apply pick_None in E. specialize (E i p Hp Hr). lia. }
  rewrite Hfirst. f_equal.
  pose proof (stride_round_at ps i s v Hok Hi) as H.
  pose proof (stride_round_ok _ Hok) as Hok'.
  assert (Hb' : ∀ j s' v', j ≠ i → at_step (stride_round ps).2 j s' v' → b ≤ v').
  { intros j s' v' Hne Hj. destruct (stride_round_back _ _ _ _ Hok Hj) as [v0 Hj0].
    pose proof (stride_round_at ps j s' v0 Hok Hj0) as H2.
    destruct (stride_round ps) as [o ps']; simpl in *; subst.
    destruct H2 as [[? _]|[_ H2]]; [naive_solver|].
    assert (v0 = v') as <-; [|by eapply Hb].
    destruct H2 as (?&?&?&?&<-), Hj as (?&?&?&?&<-). by simplify_eq. }
  destruct (stride_round ps) as [o ps']; simpl in *; subst.
  destruct H as [(_ & H & _)|[? _]]; [|done].
  apply (IH ps' (v + s)); auto. lia.
Qed.

(** ** A concrete table *)

(** Two runnable processes with strides 20 and 50 among empty slots. *)
Definition sample_proc (s v : Z) : proc :=
  set_state RUNNABLE (set_pgdir 4096 (set_sizeStep s (set_step v proc0))).
Definition sample (v w : Z) : core :=
  set_ptable (sample_proc 20 v :: sample_proc 50 w :: replicate 62 proc0) core0.

Lemma sample_procs v w i p :
  ptable (sample v w) !! i = Some p → state p = RUNNABLE →
  i = 0%nat ∧ p = sample_proc 20 v ∨ i = 1%nat ∧ p = sample_proc 50 w.
Proof.
  intros Hi Hr. destruct i as [|[|i]]; simpl in Hi; simplify_eq; auto.
  apply (lookup_replicate_1 62) in Hi as [-> _]. done.
Qed.

Lemma sample_ok v w :
  0 ≤ v < STEP_LIMIT → 0 ≤ w < STEP_LIMIT → stride_ok (ptable (sample v w)).
Proof.
  intros ? ? i p Hi Hr. destruct (sample_procs v w i p Hi Hr) as [[_ ->]|[_ ->]];
    simpl; lia.
Qed.

Lemma sample_at v w i s x :
  at_step (ptable (sample v w)) i s x → i = 0%nat ∧ x = v ∨ i = 1%nat ∧ x = w.
Proof.
  intros (p & Hi & Hr & _ & <-). by destruct (sample_procs v w i p Hi Hr) as [[-> ->]|[-> ->]];
    [left|right].
Qed.

Lemma sample_in v w : in_scheduler (sample v w).
Proof. done. Qed.

(** ** Properties *)

Section Properties.
Context {E : Type} `{KE : !KernelEnv E, !KernelEnvOk E}.

(** The scheduler switches to the runnable process with the least [step]
    (the lowest slot among equals), provided it is below the limit, after
    adding the stride to its [step] and marking it [RUNNING]; no other slot
    changes and [ptable.lock] stays held for the process.  Without such a
    process the round changes nothing. *)
Theorem scheduler_picks_least c e :
  in_scheduler c → stride_ok (ptable c) →
  (∃ i p e', scheduler_round (c, e) = Ret (Some i)
      (mkCore {[L_ptable]}
         (<[i := set_state RUNNING (set_step (step p + sizeStep p) p)]> (ptable c))
         (nextpid c) (initproc c) (Some i), e') ∧
    ptable c !! i = Some p ∧ state p = RUNNABLE ∧ step p < STEP_LIMIT ∧
    (∀ j q, ptable c !! j = Some q → state q = RUNNABLE →
       step p ≤ step q ∧ ((j < i)%nat → step p < step q))) ∨
  (scheduler_round (c, e) = Ret None (c, e) ∧
   ∀ j q, ptable c !! j = Some q → state q = RUNNABLE → STEP_LIMIT ≤ step q).
Proof.
  intros Hin Hok. pose proof (scheduler_round_run c e Hin Hok) as H.
  destruct (pick _ _ _ _) as [i|] eqn:Hp.
  - left. destruct H as [e' He']. apply pick_Some in Hp as (p & Hi & Hs & Hlt & Hm).
    exists i, p, e'. split_and!; try done. rewrite He'. do 3 f_equal.
    destruct (Hok _ _ Hi Hs) as (? & ? & _).
    apply list_eq. intros j. rewrite list_lookup_alter.
    destruct (decide (i = j)) as [<-|Hne].
    + rewrite Hi. rewrite list_lookup_insert_eq by (by eapply lookup_lt_Some).
      simpl. unfold bump. by rewrite i32_step by lia.
    + by rewrite list_lookup_insert_ne.
  - right. split; [done|]. by apply pick_None.
Qed.

(** C1. Proportional shares: while every round finds someone to run, two
    runnable processes that start from the same [step] get numbers of quanta
    whose products with the strides never differ by more than the larger
    stride; and no round panics. *)
Theorem stride_fairness c e n i j si sj v :
  in_scheduler c → stride_ok (ptable c) →
  at_step (ptable c) i si v → at_step (ptable c) j sj v →
  ∃ os s', quanta n (c, e) = Some (os, s') ∧
    Z.abs (runs_of i os * si - runs_of j os * sj) ≤ Z.max si sj.
Proof.
  intros Hin Hok Hi Hj. destruct (quanta_rounds n c e Hin Hok) as [e' He'].
  eexists _, _. split; [done|].
  pose proof (stride_rounds_at n _ _ _ _ Hok Hi) as Hi'.
  pose proof (stride_rounds_at n _ _ _ _ Hok Hj) as Hj'.
  assert (0 ≤ si ∧ 0 ≤ sj) as [? ?].
  { destruct Hi as (p & Hp & Hpr & <- & _), Hj as (q & Hq & Hqr & <- & _).
    destruct (Hok _ _ Hp Hpr), (Hok _ _ Hq Hqr). lia. }
  pose proof (stride_rounds_close n _ i si v j sj v si Hok Hi Hj
    ltac:(lia) ltac:(lia) _ _ Hi' Hj') as H1.
  pose proof (stride_rounds_close n _ j sj v i si v sj Hok Hj Hi
    ltac:(lia) ltac:(lia) _ _ Hj' Hi') as H2.
  lia.
Qed.

(** C36. The step limit is a life sentence for the machine: from any table, after
    finitely many quanta no runnable process is ever chosen again, although
    the set of runnable processes is what it was. *)
Theorem scheduler_exhausts c e :
  in_scheduler c → stride_ok (ptable c) →
  ∃ n, ∀ m, ∃ os s', quanta (n + m) (c, e) = Some (os, s') ∧
    drop n os = replicate m None ∧
    ∀ i, (∃ s v, at_step (ptable c) i s v) → ∃ s v, at_step (ptable (fst s')) i s v.
Proof.
  intros Hin Hok. destruct (stride_rounds_exhaust _ Hok) as [n Hn]. exists n. intros m.
  destruct (quanta_rounds (n + m) c e Hin Hok) as [e' He'].
  eexists _, _. split; [done|]. simpl. split.
  - clear He'. revert Hn. generalize (ptable c) as ps. induction n as [|n IH]; intros ps Hn.
    + simpl in *. by rewrite stride_rounds_stuck.
    + cbn [Nat.add]. rewrite stride_rounds_S in Hn |- *. simpl in *. by apply IH.
  - intros i (s & v & Hi). exists s. eexists. by apply stride_rounds_at.
Qed.

(** C37. A process whose [step] starts at 0 ([allocproc] always does this) has
    the CPU to itself for as many quanta as its stride fits into the least
    [step] of the others. *)
Theorem newcomer_monopoly c e n i s b :
  in_scheduler c → stride_ok (ptable c) → at_step (ptable c) i s 0 →
  (∀ j s' v, j ≠ i → at_step (ptable c) j s' v → b ≤ v) →
  b ≤ STEP_LIMIT → Z.of_nat n * s ≤ b →
  ∃ s', quanta n (c, e) = Some (replicate n (Some i), s').
Proof.
  intros Hin Hok Hi Hb Hlim Hn. destruct (quanta_rounds n c e Hin Hok) as [e' He'].
  eexists. rewrite He'. do 2 f_equal.
  by eapply (stride_rounds_newcomer n _ i s 0 b).
Qed.

End Properties.

(** The theorems at concrete states, over the environment [Tiny]. *)
Import Tiny.

Lemma scheduler_picks_least_witness :
  scheduler_round (sample 40 0, 3%nat) =
    Ret (Some 1%nat) (mkCore {[L_ptable]}
      (<[1%nat := set_state RUNNING (sample_proc 50 50)]> (ptable (sample 40 0))) 1 None
      (Some 1%nat), 3%nat).
Proof.
  destruct (scheduler_picks_least (sample 40 0) 3%nat) as [(i & p & e' & Hr & Hi & Hs & _ & Hm)|[_ H]].
  - done.
  - by apply sample_ok.
  - destruct (sample_procs 40 0 i p Hi Hs) as [[-> ->]|[-> ->]].
    + by destruct (Hm 1%nat (sample_proc 50 0) eq_refl eq_refl).
    + rewrite Hr. assert (e' = 3%nat) as ->; [|done]. vm_compute in Hr. congruence.
  - exfalso. specialize (H 1%nat _ eq_refl eq_refl). vm_compute in H. done.
Defined.

Lemma stride_fairness_witness :
  ∃ os s', quanta 7 (sample 0 0, 3%nat) = Some (os, s') ∧
    Z.abs (runs_of 0 os * 20 - runs_of 1 os * 50) ≤ 50.
Proof.
  apply (stride_fairness (sample 0 0) 3%nat 7 0 1 20 50 0); [done|by apply sample_ok|..].
  - by eexists.
  - by eexists.
Defined.

Lemma scheduler_exhausts_witness :
  ∃ n, ∀ m, ∃ os s', quanta (n + m) (sample 0 0, 3%nat) = Some (os, s') ∧
    drop n os = replicate m None ∧
    ∀ i, (∃ s v, at_step (ptable (sample 0 0)) i s v) →
      ∃ s v, at_step (ptable (fst s')) i s v.
Proof. apply (scheduler_exhausts (sample 0 0) 3%nat); [done|by apply sample_ok]. Defined.

Lemma newcomer_monopoly_witness :
  ∃ s', quanta 5000 (sample 0 100000, 3%nat) = Some (replicate 5000 (Some 0%nat), s').
Proof.
  apply (newcomer_monopoly (sample 0 100000) 3%nat 5000 0 20 100000).
  - done.
  - by apply sample_ok.
  - by eexists.
  - intros j s' v Hj H. destruct (sample_at _ _ _ _ _ H) as [[-> _]|[_ ->]]; [done|lia].
  - done.
  - lia.
Defined.

(** Every ticket count maps to a stride between 10 and 200, more tickets
    never give a longer stride, and 0 stands for 500 tickets. *)
Theorem stride_of_bounds t t' :
  10 ≤ stride_of t ≤ 200 ∧ stride_of 0 = stride_of 500 ∧
  (t ≠ 0 → t' ≠ 0 → t ≤ t' → stride_of t' ≤ stride_of t).
Proof.
  assert (Hq : ∀ x, 50 < x < 1000 → 10 ≤ 10000 ÷ x ≤ 200).
  { intros x Hx. rewrite Z.quot_div_nonneg by lia. split.
    - apply Z.div_le_lower_bound; lia.
    - apply Z.div_le_upper_bound; lia. }
  assert (Hr : ∀ x, 10 ≤ stride_of x ≤ 200).
  { intros x. unfold stride_of. repeat case_match; zify_bool; try (vm_compute; split; discriminate).
    apply Hq. lia. }
  split_and!; [apply Hr..|done|].
  intros H0 H0' Hle. pose proof (Hr t). pose proof (Hr t').
  unfold stride_of in *. repeat case_match; zify_bool; try lia;
    change (10000 ÷ 1000) with 10 in *; change (10000 ÷ 50) with 200 in *; try lia.
  rewrite !Z.quot_div_nonneg by lia. apply Z.div_le_compat_l; lia.
Qed.
