(* ===== verification/ProcInv.v ===== *)
(** * The process table invariant (proc.c)

    [wf] is what proc.c maintains between operations: slots, pids, parents,
    strides and sleepers.  The first part gives each operation of [Proc] a
    rule that names the table it leaves; the second shows that the rules keep
    [wf]; the third closes [wf] under all the operations of a running kernel. *)
From S2P Require Import Prelude Spinlock Core CString Proc Stride.

(** ** The invariant *)

Definition alive (st : procstate) : Prop :=
  st = SLEEPING ∨ st = RUNNABLE ∨ st = RUNNING.

#[export] Instance alive_dec st : Decision (alive st).
Proof. unfold alive. apply _. Defined.

Definition no_files : list (option nat) := replicate NOFILE None.

Record wf (c : core) : Prop := {
  wf_len : length (ptable c) = NPROC;
  wf_next : 0 < nextpid c < 2 ^ 31;
  wf_pid i p : ptable c !! i = Some p → state p ≠ UNUSED → 0 < pid p < nextpid c;
  wf_uniq i j p q : ptable c !! i = Some p → ptable c !! j = Some q →
    state p ≠ UNUSED → state q ≠ UNUSED → pid p = pid q → i = j;
  wf_stride i p : ptable c !! i = Some p → alive (state p) →
    0 ≤ step p < STEP_LIMIT + 200 ∧ 10 ≤ sizeStep p ≤ 200;
  (** Whatever has run has a page table; [wait] frees it. *)
  wf_pgdir i p : ptable c !! i = Some p → state p ≠ UNUSED → state p ≠ EMBRYO → pgdir p ≠ 0;
  wf_running i p : ptable c !! i = Some p → state p = RUNNING → cur c = Some i;
  (** A free slot has no parent and no open files. *)
  wf_free i p : ptable c !! i = Some p → state p = UNUSED ∨ state p = EMBRYO →
    parent p = None;
  wf_files i p : ptable c !! i = Some p → ¬ alive (state p) → ofile p = no_files;
  (** Everyone but init has a living parent. *)
  wf_parent i p : ptable c !! i = Some p → state p ≠ UNUSED → state p ≠ EMBRYO →
    initproc c ≠ Some i →
    ∃ k q, parent p = Some k ∧ ptable c !! k = Some q ∧ alive (state q);
  wf_init : ∃ i p, initproc c = Some i ∧ ptable c !! i = Some p ∧ parent p = None ∧
    alive (state p);
  wf_nfiles i p : ptable c !! i = Some p → length (ofile p) = NOFILE;
  wf_self i p : ptable c !! i = Some p → parent p ≠ Some i;
  (** Who sleeps in [wait] has a child, and none that has exited. *)
  wf_wait i p k : ptable c !! i = Some p → state p = SLEEPING →
    chan p = Some (Ch_proc k) →
    k = i ∧ (∃ j q, ptable c !! j = Some q ∧ parent q = Some i) ∧
    ∀ j q, ptable c !! j = Some q → parent q = Some i → state q ≠ ZOMBIE
}.

(** Process [i], with record [p], has the CPU. *)
Definition runs (c : core) (i : nat) (p : proc) : Prop :=
  cur c = Some i ∧ ptable c !! i = Some p ∧ state p = RUNNING.

(** ** What the operations leave *)

(** The slot [allocproc] took, when it fails and when it succeeds. *)
Definition failed (n : Z) (p : proc) : proc :=
  set_state UNUSED (set_kstack 0 (set_pid n (set_state EMBRYO p))).
Definition embryo (t n k : Z) (p : proc) : proc :=
  set_step 0 (set_sizeStep (stride_of t)
    (set_ctx (mkCtx 0 0 0 0 forkret_addr trapret_addr) (set_tf tf_junk
      (set_kstack k (set_pid n (set_state EMBRYO p)))))).

Definition tf_child (t : trapframe) : trapframe :=
  mkTf (tf_edi t) (tf_esi t) (tf_ebp t) (tf_oesp t) (tf_ebx t) (tf_edx t) (tf_ecx t) 0
    (tf_gs t) (tf_fs t) (tf_es t) (tf_ds t) (tf_trapno t) (tf_err t) (tf_eip t) (tf_cs t)
    (tf_eflags t) (tf_esp t) (tf_ss t).

(** Open files of a child: the first [n] of the parent, and where the parent has
    none what the slot held. *)
Fixpoint child_files (fs gs : list (option nat)) (n : nat) {struct n} : list (option nat) :=
  match n, fs, gs with
  | S n', f :: fs', g :: gs' =>
      match f with Some _ => f | None => g end :: child_files fs' gs' n'
  | _, _, _ => gs
  end.

Lemma child_files_S fs gs n :
  child_files fs gs (S n) =
    match fs !! n with
    | Some (Some f) => <[n := Some f]> (child_files fs gs n)
    | _ => child_files fs gs n
    end.
Proof.
  revert fs gs. induction n as [|n IH]; intros fs gs.
  { by destruct fs as [|[?|] ?], gs as [|[?|] ?]. }
  destruct fs as [|f fs]; [by destruct gs|]. destruct gs as [|g gs].
  { cbn. by repeat case_match. }
  change (child_files (f :: fs) (g :: gs) (S (S n)))
    with (match f with Some _ => f | None => g end :: child_files fs gs (S n)).
  rewrite IH. cbn [lookup list_lookup child_files]. by destruct (fs !! n) as [[]|].
Qed.

Lemma child_files_empty fs n : length fs = n → child_files fs (replicate n None) n = fs.
Proof.
  revert n. induction fs as [|f fs IH]; intros n <-; [done|]. simpl.
  rewrite IH by done. by destruct f.
Qed.

Arguments child_files : simpl never.

(** The child [fork] makes from the slot's old contents [p]. *)
Definition child (t n k d : Z) (me : nat) (pm : proc) (nm : list Z) (p : proc) : proc :=
  mkProc (sz pm) d k RUNNABLE n (Some me) (tf_child (tf pm))
    (mkCtx 0 0 0 0 forkret_addr trapret_addr) (chan p) (killed p)
    (child_files (ofile pm) (ofile p) NOFILE) (cwd pm) nm 0 (stride_of t).

(** Slot [i] after [exit] of [me], whose parent is [pa]: the parent is woken, the
    children go to init, init is woken when one of them is a zombie ([z]), and
    [me] itself becomes one. *)
Definition adopt (me ip : nat) (p : proc) : proc :=
  if decide (parent p = Some me) then set_parent (Some ip) p else p.
Definition wake_if (b : bool) (ip : nat) (p : proc) : proc :=
  if b then wakeup1_proc (Ch_proc ip) p else p.
Definition wake_parent (pa : option nat) (p : proc) : proc :=
  match pa with Some q => wakeup1_proc (Ch_proc q) p | None => p end.
Definition exited (me ip : nat) (pa : option nat) (z : bool) (i : nat) (p : proc) : proc :=
  let p' := wake_if z ip (adopt me ip (wake_parent pa p)) in
  if decide (i = me) then set_state ZOMBIE p' else p'.

Definition zombie_child (me : nat) (p : proc) : bool :=
  bool_decide (parent p = Some me ∧ state p = ZOMBIE).

(** The slot [wait] has collected. *)
Definition reaped (p : proc) : proc :=
  set_killed 0 (set_name (<[0%nat := 0]> (name p)) (set_parent None (set_pid 0
    (set_state UNUSED (set_kstack 0 p))))).

Definition after_alloc (i : nat) (f : proc → proc) (c : core) : core :=
  set_nextpid (i32 (nextpid c + 1)) (upd_proc i f c).

Lemma locks_back (l : lockid) (ls : gset lockid) : l ∉ ls → ({[l]} ∪ ls) ∖ {[l]} = ls.
Proof. set_solver. Qed.

Lemma find_unused_Some ps i :
  find_unused ps = Some i → ∃ p, ps !! i = Some p ∧ state p = UNUSED.
Proof.
  unfold find_unused. destruct (list_find _ ps) as [[j p]|] eqn:H; [|done].
  intros [= <-]. apply list_find_Some in H as (? & ? & _). eauto.
Qed.

(** After [wlp_run]: what the reads found. *)
Ltac wlp_tidy :=
  core_cbn_in; rewrite ?list_lookup_alter_ne in * by done; simplify_eq.

Section Rules.
Context {E : Type} `{KE : !KernelEnv E, !KernelEnvOk E}.
Implicit Types (c : core) (e : E).

Lemma wlp_allocproc t (Q : option nat → core * E → Prop) B c e :
  (find_unused (ptable c) = None → Q None (c, e)) →
  (∀ i e', find_unused (ptable c) = Some i →
     Q None (after_alloc i (failed (nextpid c)) c, e')) →
  (∀ i k e', find_unused (ptable c) = Some i → k ≠ 0 →
     Q (Some i) (after_alloc i (embryo t (nextpid c) k) c, e')) →
  wlp (allocproc t) Q B (c, e).
Proof.
  intros HN HF HS. unfold allocproc. destruct c as [lk ps np ip cu].
  unfold after_alloc in *. core_cbn_in.
  wlp_run. destruct (find_unused ps) as [i|] eqn:Hf; [clear HN|clear HF HS].
  2:{ wlp_run. rewrite locks_back by done. auto. }
  wlp_run. rewrite locks_back by done. apply wlp_const; [apply kalloc_core|]. intros k e' _.
  wlp_run. rewrite !list_alter_alter_eq. destruct (Z.eqb_spec k 0) as [->|Hk]; wlp_run.
  - rewrite !list_alter_alter_eq. by apply HF.
  - rewrite !list_alter_alter_eq. by apply HS.
Qed.

Lemma wlp_fork_files me i pm (F : proc → proc) (Q : unit → core * E → Prop) B lk ps np ip cu e :
  me ≠ i → ps !! me = Some pm → (∀ p, ofile (F p) = ofile p) →
  (∀ e', Q () (mkCore lk (alter (λ p, set_ofile (child_files (ofile pm) (ofile p) NOFILE) (F p))
                  i ps) np ip cu, e')) →
  wlp (for_each (seq 0 NOFILE) (fork_file me i)) Q B (mkCore lk (alter F i ps) np ip cu, e).
Proof.
  intros Hne Hme HF HQ. eapply wlp_mono; [apply (wlp_for_each (λ n s, ∃ e',
    s = (mkCore lk (alter (λ p, set_ofile (child_files (ofile pm) (ofile p) n) (F p)) i ps)
           np ip cu, e')))| |done].
  - exists e. do 2 f_equal. apply list_alter_ext; [|done]. intros p _.
    unfold child_files. rewrite <-HF. by destruct (F p).
  - intros n x s Hx (e' & ->). apply lookup_seq in Hx as [-> _]. simpl. unfold fork_file.
    rewrite Nat.add_1_r. wlp_run. core_cbn_in.
    rewrite list_lookup_alter_ne, Hme in * by done. simplify_eq.
    pose proof (child_files_S (ofile p)) as HS.
    destruct a as [f|].
    + wlp_step. apply wlp_const; [apply filedup_core|]. intros f' e1 Hf.
      apply filedup_same in Hf as ->. wlp_run. eexists. do 2 f_equal.
      rewrite list_alter_alter_eq. apply list_alter_ext; [|done].
      intros q _. simpl. unfold set_ofile. simpl. rewrite HS, H0. done.
    + wlp_run. eexists. do 2 f_equal. apply list_alter_ext; [|done].
      intros q _. simpl. by rewrite HS, H0.
  - intros [] s' (e' & ->). apply HQ.
Qed.

Lemma wlp_fork t (Q : Z → core * E → Prop) B c e me pm :
  runs c me pm →
  (∀ e', find_unused (ptable c) = None → Q (-1) (c, e')) →
  (∀ i e', find_unused (ptable c) = Some i →
     Q (-1) (after_alloc i (failed (nextpid c)) c, e')) →
  (∀ i k e', find_unused (ptable c) = Some i →
     Q (-1) (after_alloc i (λ p, set_state UNUSED (set_kstack 0 (set_pgdir 0
               (embryo t (nextpid c) k p)))) c, e')) →
  (∀ i k d nm e' p, find_unused (ptable c) = Some i → ptable c !! i = Some p → d ≠ 0 →
     Str.safestrcpy (name p) (name pm) 16 = Some nm →
     Q (nextpid c) (after_alloc i (child t (nextpid c) k d me pm nm) c, e')) →
  wlp (fork t) Q B (c, e).
Proof.
  intros (Hcur & Hme & Hrun) HN HF HC HS. unfold fork. wlp_step. apply wlp_allocproc.
  { intros Hno. wlp_run. by apply HN. }
  { intros i e' Hi. wlp_run. by apply HF. }
  intros i k e' Hi Hk. destruct (find_unused_Some _ _ Hi) as (p & Hp & Hps).
  assert (Hne : me ≠ i) by congruence.
  destruct c as [lk ps np ip cu]. unfold after_alloc in *. core_cbn_in.
  wlp_run. wlp_tidy.
  apply wlp_const; [apply copyuvm_core|]. intros d e1 _. wlp_run.
  destruct (Z.eqb_spec d 0) as [->|Hd]; wlp_run.
  { apply wlp_const; [apply kfree_core|]. intros ? e2 _. wlp_run.
    rewrite !list_alter_alter_eq. by apply HC. }
  rewrite !list_alter_alter_eq. wlp_tidy.
  eapply wlp_fork_files; [done..|]. intros e2. wlp_run. wlp_tidy.
  apply wlp_const; [apply idup_core|]. intros w e3 Hw. apply idup_same in Hw as ->.
  wlp_run. wlp_tidy. rewrite !list_alter_alter_eq in *.
  rewrite list_lookup_alter_eq, Hp in *. simplify_eq/=.
  erewrite (list_alter_ext _ (child t np k d _ pm _) ps ps i); [by eapply HS| |done].
  intros q _. match goal with H : cwd _ = Some _ |- _ => by rewrite <-H end.
Qed.

(** *** exit *)

Lemma wake_if_parent b ip p : parent (wake_if b ip p) = parent p.
Proof. unfold wake_if, wakeup1_proc. by repeat case_match. Qed.

Lemma wake_if_zombie b ip p : state (wake_if b ip p) = ZOMBIE ↔ state p = ZOMBIE.
Proof. unfold wake_if, wakeup1_proc. destruct b; [case_decide|]; simpl; intuition congruence. Qed.

Lemma adopt_state me ip p : state (adopt me ip p) = state p.
Proof. unfold adopt. by case_decide. Qed.

Lemma wake_if_adopt b me ip p : wake_if b ip (adopt me ip p) = adopt me ip (wake_if b ip p).
Proof.
  unfold wake_if, adopt, wakeup1_proc. destruct b; [|done]. destruct p; simpl.
  repeat case_decide; simpl in *; naive_solver.
Qed.

Lemma wake_if_twice b b' ip p : wake_if b ip (wake_if b' ip p) = wake_if (b || b') ip p.
Proof.
  unfold wake_if, wakeup1_proc. destruct b, b'; try done.
  repeat case_decide; simpl in *; naive_solver.
Qed.

(** The table after [n] rounds of the loop in [exit]. *)
Definition adopting (me ip : nat) (ps : list proc) (n j : nat) (p : proc) : proc :=
  wake_if (existsb (zombie_child me) (take n ps)) ip
    (if decide (j < n)%nat then adopt me ip p else p).

Lemma adopting_S me ip ps n j p q :
  ps !! n = Some q → ps !! j = Some p →
  adopting me ip ps (S n) j p =
    wake_if (zombie_child me q) ip
      (if decide (j = n) then adopt me ip (adopting me ip ps n j p) else adopting me ip ps n j p).
Proof.
  intros Hn Hj. unfold adopting. rewrite (take_S_r _ _ q Hn), existsb_app. simpl.
  rewrite orb_false_r, orb_comm. rewrite <-wake_if_twice. f_equal.
  destruct (decide (j = n)) as [->|Hne].
  - rewrite decide_True, decide_False by lia. by rewrite wake_if_adopt.
  - destruct (decide (j < n)%nat); [rewrite decide_True by lia|rewrite decide_False by lia]; done.
Qed.

Lemma wlp_exit_children me (ip : nat) (Q : unit → core * E → Prop) B lk ps np cu e :
  length ps = NPROC →
  (∀ ps', (∀ j, ps' !! j = adopting me ip ps NPROC j <$> ps !! j) →
     Q () (mkCore lk ps' np (Some ip) cu, e)) →
  wlp (for_each (seq 0 NPROC) (exit_child me)) Q B (mkCore lk ps np (Some ip) cu, e).
Proof.
  intros Hlen HQ. eapply wlp_mono; [apply (wlp_for_each (λ n s, ∃ ps',
    s = (mkCore lk ps' np (Some ip) cu, e) ∧
    ∀ j, ps' !! j = adopting me ip ps n j <$> ps !! j))| |done].
  - exists ps. split; [done|]. intros j. by destruct (ps !! j).
  - intros n x s Hx (ps' & -> & Hps). apply lookup_seq in Hx as [-> Hx].
    rewrite Nat.add_0_l, Nat.add_1_r. unfold exit_child. wlp_run. wlp_tidy.
    rewrite Hps in H. destruct (ps !! n) as [q|] eqn:Hq; [|done]. simpl in H. simplify_eq.
    assert (Hz : parent (adopting me ip ps n n q) = parent q).
    { unfold adopting. by rewrite wake_if_parent, decide_False by lia. }
    assert (Hzs : state (adopting me ip ps n n q) = ZOMBIE ↔ state q = ZOMBIE).
    { unfold adopting. by rewrite wake_if_zombie, decide_False by lia. }
    rewrite Hz. case_decide as Hpar.
    + wlp_run. core_cbn_in. rewrite list_lookup_alter_eq, Hps, Hq in H. simplify_eq/=.
      apply wlp_when.
      * intros Hb. apply bool_decide_eq_true in Hb. apply Hzs in Hb.
        unfold wakeup1_opt, wakeup1. wlp_run. eexists. split; [done|]. intros j.
        rewrite list_lookup_fmap, list_lookup_alter, Hps.
        destruct (decide (n = j)) as [<-|Hne].
        -- rewrite Hq. simpl. f_equal. erewrite adopting_S by done.
           unfold zombie_child. rewrite bool_decide_true by done. rewrite decide_True by done.
           unfold wake_if, adopt at 1. by rewrite Hz, decide_True by done.
        -- rewrite Hps. destruct (ps !! j) as [p|] eqn:Hj; [|done]. simpl. f_equal.
           erewrite adopting_S by done. rewrite decide_False by done.
           unfold zombie_child. by rewrite bool_decide_true.
      * intros Hb. apply bool_decide_eq_false in Hb. rewrite Hzs in Hb.
        eexists. split; [done|]. intros j. rewrite list_lookup_alter, Hps.
        destruct (decide (n = j)) as [<-|Hne].
        -- rewrite Hq. simpl. f_equal. erewrite adopting_S by done.
           unfold zombie_child. rewrite bool_decide_false by naive_solver.
           rewrite decide_True by done. unfold wake_if, adopt. by rewrite Hz, decide_True.
        -- rewrite Hps. destruct (ps !! j) as [p|] eqn:Hj; [|done]. simpl. f_equal.
           erewrite adopting_S by done. rewrite decide_False by done.
           unfold zombie_child. by rewrite bool_decide_false by naive_solver.
    + wlp_run. exists ps'. split; [done|]. intros j. rewrite Hps.
      destruct (ps !! j) as [p|] eqn:Hj; [|done]. simpl. f_equal.
      erewrite adopting_S by done. unfold zombie_child.
      rewrite bool_decide_false by naive_solver. cbn [wake_if].
      case_decide; [|done]. simplify_eq. unfold adopt. by rewrite Hz, decide_False.
  - intros [] s' (ps' & -> & Hps). rewrite length_seq in Hps. by apply HQ.
Qed.

Lemma zombie_children_wake me pa ps :
  existsb (zombie_child me) (wake_parent pa <$> ps) = existsb (zombie_child me) ps.
Proof.
  induction ps as [|p ps IH]; [done|]. rewrite fmap_cons. cbn [existsb]. rewrite IH. f_equal.
  unfold zombie_child. apply bool_decide_ext.
  destruct pa; [|done]. simpl. unfold wakeup1_proc. case_decide; simpl; intuition congruence.
Qed.

Lemma wlp_exit_table me pm ip (Q : unit → core * E → Prop) (B : core * E → Prop) c e :
  length (ptable c) = NPROC → ptable c !! me = Some pm → initproc c = Some ip →
  (∀ ps', (∀ j, ps' !! j =
      exited me ip (parent pm) (existsb (zombie_child me) (ptable c)) j <$> ptable c !! j) →
    B (set_locks ({[L_ptable]} ∪ locks c) (set_ptable ps' c), e)) →
  wlp (exit_table me) Q B (c, e).
Proof.
  intros Hlen Hme Hip HB. destruct c as [lk ps np ip' cu]. core_cbn_in. subst ip'.
  unfold exit_table. wlp_run. wlp_tidy.
  set (ps1 := wake_parent (parent pm) <$> ps).
  assert (Hw : ∀ Q' B', wlp (for_each (seq 0 NPROC) (exit_child me)) Q' B'
      (mkCore ({[L_ptable]} ∪ lk) ps1 np (Some ip) cu, e) →
    wlp (wakeup1_opt (parent pm)) (λ _ s, wlp (for_each (seq 0 NPROC) (exit_child me)) Q' B' s)
      B' (mkCore ({[L_ptable]} ∪ lk) ps np (Some ip) cu, e)).
  { intros Q' B' Hc. unfold ps1 in Hc. unfold wakeup1_opt, wakeup1, wake_parent in *.
    destruct (parent pm); wlp_run; [done|]. by rewrite list_fmap_id in Hc. }
  eapply wlp_mono; [apply (Hw (λ _ s, wlp (setp me (set_state ZOMBIE) ;; sched) Q B s) B)| |].
  - apply wlp_exit_children; [by unfold ps1; rewrite length_fmap|].
    intros ps' Hps. wlp_run. apply HB. intros j. rewrite list_lookup_alter, Hps.
    unfold ps1. rewrite list_lookup_fmap.
    assert (Hz : existsb (zombie_child me) (take NPROC ps1) = existsb (zombie_child me) ps).
    { rewrite take_ge by (unfold ps1; rewrite length_fmap; lia). apply zombie_children_wake. }
    assert (Hx : ∀ j p, ps !! j = Some p →
      adopting me ip ps1 NPROC j (wake_parent (parent pm) p) =
      wake_if (existsb (zombie_child me) ps) ip (adopt me ip (wake_parent (parent pm) p))).
    { intros j' p Hj. unfold adopting. rewrite Hz, decide_True; [done|].
      rewrite <-Hlen. by eapply lookup_lt_Some. }
    unfold exited. destruct (decide (me = j)) as [<-|Hne].
    + rewrite Hme. cbn [fmap option_fmap option_map]. rewrite decide_True by done.
      by rewrite <-(Hx me pm Hme).
    + rewrite Hps. unfold ps1. rewrite list_lookup_fmap.
      destruct (ps !! j) as [p|] eqn:Hj; [|done]. cbn [fmap option_fmap option_map].
      rewrite decide_False by done. by rewrite <-(Hx j p Hj).
  - intros [] s' Hs. by apply wlp_bind.
  - done.
Qed.

(** *** wait *)

Lemma wait_scan_spec me ps i b :
  match wait_scan me ps i b with
  | (Some k, _) => ∃ j p, k = (i + j)%nat ∧ ps !! j = Some p ∧
      parent p = Some me ∧ state p = ZOMBIE
  | (None, h) => (∀ j p, ps !! j = Some p → parent p = Some me → state p ≠ ZOMBIE) ∧
      (h = true ↔ b = true ∨ ∃ j p, ps !! j = Some p ∧ parent p = Some me)
  end.
Proof.
  revert i b. induction ps as [|p ps IH]; intros i b; simpl.
  { split; [done|]. split; [auto|]. intros [H|(j & p & H & _)]; [done|]. by destruct j. }
  destruct (decide (parent p = Some me)) as [Hp|Hp].
  - destruct (decide (state p = ZOMBIE)) as [Hz|Hz].
    + exists 0%nat, p. split_and!; auto.
    + specialize (IH (S i) true). destruct (wait_scan me ps (S i) true) as [[k|] h].
      * destruct IH as (j & q & -> & ? & ?). exists (S j), q. split; [lia|done].
      * destruct IH as [H1 H2]. split; [intros [|j] q Hq; simpl in Hq; naive_solver|].
        split; [|intros _; apply H2; auto]. intros _. right. by exists 0%nat, p.
  - specialize (IH (S i) b). destruct (wait_scan me ps (S i) b) as [[k|] h].
    + destruct IH as (j & q & -> & ? & ?). exists (S j), q. split; [lia|done].
    + destruct IH as [H1 H2]. split; [intros [|j] q Hq; simpl in Hq; naive_solver|].
      rewrite H2. split; (intros [?|(j & q & Hq & ?)]; [by left|right]).
      * by exists (S j), q.
      * destruct j as [|j]; simpl in Hq; [by simplify_eq|]. by exists j, q.
Qed.

Lemma wlp_wait_round me pm (Q : Z → core * E → Prop) (B : core * E → Prop) c e :
  runs c me pm →
  (∀ i p e', ptable c !! i = Some p → parent p = Some me → state p = ZOMBIE →
     Q (pid p) (set_locks (locks c ∖ {[L_ptable]}) (upd_proc i reaped c), e')) →
  ((killed pm ≠ 0 ∨ ∀ j p, ptable c !! j = Some p → parent p ≠ Some me) →
     (∀ j p, ptable c !! j = Some p → parent p = Some me → state p ≠ ZOMBIE) →
     Q (-1) (set_locks (locks c ∖ {[L_ptable]}) c, e)) →
  (killed pm = 0 → (∃ j p, ptable c !! j = Some p ∧ parent p = Some me) →
     (∀ j p, ptable c !! j = Some p → parent p = Some me → state p ≠ ZOMBIE) →
     B (upd_proc me (λ p, set_state SLEEPING (set_chan (Some (Ch_proc me)) p)) c, e)) →
  wlp wait_round Q B (c, e).
Proof.
  intros (Hcur & Hme & Hrun) HR HN HB. destruct c as [lk ps np ip cu]. core_cbn_in. subst cu.
  unfold wait_round. wlp_run. core_cbn_in. simplify_eq.
  pose proof (wait_scan_spec me ps 0 false) as Hscan.
  destruct (wait_scan me ps 0 false) as [[k|] h].
  - destruct Hscan as (j & p & -> & Hj & Hpar & Hz). cbn [Nat.add]. unfold wait_reap.
    wlp_run. core_cbn_in. simplify_eq.
    apply wlp_const; [apply kfree_core|]. intros ? e1 _. wlp_run. core_cbn_in.
    apply wlp_const; [apply freevm_core|]. intros ? e2 _. wlp_run.
    rewrite !list_alter_alter_eq. by eapply HR.
  - destruct Hscan as [Hz Hh]. wlp_run. core_cbn_in. simplify_eq.
    destruct h; [destruct (Z.eqb_spec (killed pm) 0) as [Hk|Hk]|]; cbn [negb orb].
    + unfold sleep. wlp_run. rewrite decide_True by done. wlp_run.
      rewrite list_alter_alter_eq. apply HB; [done| |done].
      destruct Hh as [Hh _]. by destruct Hh as [?|?].
    + wlp_run. apply HN; [by left|done].
    + wlp_run. apply HN; [|done]. right. intros j p Hj Hp.
      destruct Hh as [_ Hh]. discriminate Hh. right. eauto.
Qed.

End Rules.

(** ** The operations keep the invariant *)

(** What [wf] looks at in a slot. *)
Definition same_role (p p' : proc) : Prop :=
  state p' = state p ∧ pid p' = pid p ∧ parent p' = parent p ∧ chan p' = chan p ∧
  step p' = step p ∧ sizeStep p' = sizeStep p ∧ pgdir p' = pgdir p ∧
  length (ofile p') = length (ofile p) ∧ (¬ alive (state p) → ofile p' = ofile p).

Lemma woken_alive p p' : woken p p' → (alive (state p') ↔ alive (state p)).
Proof. unfold woken, alive. intros [->|[H ->]]; [done|]. simpl. rewrite H. naive_solver. Qed.

Section Wf.
Implicit Types c : core.

Lemma wf_slot c i p : wf c → ptable c !! i = Some p → (i < NPROC)%nat.
Proof. intros W H. rewrite <-(wf_len c W). by eapply lookup_lt_Some. Qed.

Lemma wf_set_locks ls c : wf (set_locks ls c) ↔ wf c.
Proof. split; intros []; by constructor. Qed.

Lemma wf_locks ls ls' ps np ip cu : wf (mkCore ls ps np ip cu) → wf (mkCore ls' ps np ip cu).
Proof. intros W. by apply (wf_set_locks ls' (mkCore ls ps np ip cu)). Qed.

(** A table that differs from a good one slot by slot in ways [wf] does not
    mind: same roles, and sleepers woken. *)
Lemma wf_pointwise c c' :
  length (ptable c') = length (ptable c) →
  (∀ i p', ptable c' !! i = Some p' → ∃ p, ptable c !! i = Some p ∧
     (same_role p p' ∨ woken p p')) →
  nextpid c' = nextpid c → initproc c' = initproc c → cur c' = cur c →
  wf c → wf c'.
Proof.
  intros Hlen Hpt Hn Hip Hcur W. destruct W as [W1 W2 W3 W4 W5 W6 W7 W8 W9 W10 W11 W14 W13 W12].
  assert (K : ∀ i p', ptable c' !! i = Some p' → ∃ p, ptable c !! i = Some p ∧
    pid p' = pid p ∧ parent p' = parent p ∧ step p' = step p ∧ sizeStep p' = sizeStep p ∧
    pgdir p' = pgdir p ∧ chan p' = chan p ∧
    (state p' = state p ∨ state p = SLEEPING ∧ state p' = RUNNABLE) ∧
    length (ofile p') = length (ofile p) ∧ (¬ alive (state p) → ofile p' = ofile p)).
  { intros i p' Hi. destruct (Hpt i p' Hi) as (p & Hp & [S|S]); exists p; (split; [done|]).
    - destruct S as (?&?&?&?&?&?&?&?&?). split_and!; auto.
    - destruct S as [->|[? ->]]; simpl; split_and!; auto. }
  assert (Kf : ∀ i p, ptable c !! i = Some p → ∃ p', ptable c' !! i = Some p' ∧
    parent p' = parent p ∧ (alive (state p) → alive (state p'))).
  { intros i p Hi. destruct (ptable c' !! i) as [p'|] eqn:E.
    - destruct (K i p' E) as (q & Hq & ?&?&?&?&?&?& Hs &?&?). simplify_eq. exists p'.
      split_and!; [done..|]. unfold alive. destruct Hs as [->|[-> ->]]; auto.
    - apply lookup_ge_None in E. apply lookup_lt_Some in Hi. lia. }
  constructor; rewrite ?Hn, ?Hip, ?Hcur; try lia.
  - intros i p Hp Hs. destruct (K i p Hp) as (q & Hq & -> &?&?&?&?&?& Hst &?&?).
    eapply W3; [done|]. intuition congruence.
  - intros i j p q Hp Hq Hsp Hsq. destruct (K i p Hp) as (p0 & Hp0 & -> &?&?&?&?&?& Hst1 &?&?).
    destruct (K j q Hq) as (q0 & Hq0 & -> &?&?&?&?&?& Hst2 &?&?).
    eapply W4; eauto; intuition congruence.
  - intros i p Hp Hs. destruct (K i p Hp) as (q & Hq & ?&?& -> & -> &?&?& Hst &?&?).
    eapply W5; [done|]. unfold alive in *. intuition congruence.
  - intros i p Hp Hs Hs'. destruct (K i p Hp) as (q & Hq & ?&?&?&?& -> &?& Hst &?&?).
    eapply W6; [done|..]; intuition congruence.
  - intros i p Hp Hs. destruct (K i p Hp) as (q & Hq & ?&?&?&?&?&?& Hst &?&?).
    eapply W7; [done|]. intuition congruence.
  - intros i p Hp Hs. destruct (K i p Hp) as (q & Hq & ?& -> &?&?&?&?& Hst &?&?).
    eapply W8; [done|]. intuition congruence.
  - intros i p Hp Hs. destruct (K i p Hp) as (q & Hq & ?&?&?&?&?&?& Hst &?& ->).
    + eapply W9; [done|]. unfold alive in *. intuition congruence.
    + unfold alive in *. intuition congruence.
  - intros i p Hp Hs Hs' Hin. destruct (K i p Hp) as (q & Hq & ?& -> &?&?&?&?& Hst &?&?).
    destruct (W10 i q) as (k & r & Hk & Hr & Ha); [done|intuition congruence..|].
    destruct (Kf k r Hr) as (r' & ? & _ & ?). exists k, r'. auto.
  - destruct W11 as (i & p & Hi & Hp & Hpar & Ha). destruct (Kf i p Hp) as (p' & ? & Hp' & ?).
    exists i, p'. rewrite Hp'. auto.
  - intros i p Hp. destruct (K i p Hp) as (q & Hq & ?&?&?&?&?&?&?& -> &?). eauto.
  - intros i p Hp. destruct (K i p Hp) as (q & Hq & ?& -> & _). eauto.
  - intros i p k Hp Hs Hc. destruct (K i p Hp) as (q & Hq & ?&?&?&?&?& Hch & Hst &?&?).
    destruct (W12 i q k) as (-> & (j & r & Hr & Hrp) & Hz); [done|intuition congruence..|].
    split; [done|]. split.
    + destruct (Kf j r Hr) as (r' & ? & Hr' & _). exists j, r'. split; [done|congruence].
    + intros j' r' Hr' Hp'. destruct (K j' r' Hr') as (r0 & Hr0 & ?& Hpr &?&?&?&?& Hst0 &?&?).
      specialize (Hz j' r0 Hr0 ltac:(congruence)). intuition congruence.
Qed.

Lemma wf_same i f c :
  (∀ p, ptable c !! i = Some p → same_role p (f p)) → wf c → wf (upd_proc i f c).
Proof.
  intros Hf. apply wf_pointwise; try done; [apply length_alter|].
  intros j p'. rewrite upd_lookup. case_decide; subst.
  - destruct (ptable c !! j) as [p|]; [|done]. intros [= <-]. eauto.
  - intros ?. exists p'. split; [done|]. left. by unfold same_role.
Qed.

Lemma wf_woken c c' : only_woken c c' → wf c → wf c'.
Proof.
  intros []. apply wf_pointwise; try done.
  - symmetry. by eapply Forall2_length.
  - intros i p' Hp'. destruct (Forall2_lookup_r _ _ _ _ _ ow_procs Hp') as (p & ? & ?). eauto.
Qed.

(** Case analysis on the slots of a table with slot [i] replaced. *)
Ltac slots :=
  repeat match goal with
  | H : <[?i:=_]> _ !! ?j = Some _ |- _ =>
      apply list_lookup_insert_Some in H as [(<- & <- & _)|(? & H)]
  end.

Lemma alter_as_insert {A} (f : A → A) (i : nat) (l : list A) (x : A) :
  l !! i = Some x → alter f i l = <[i := f x]> l.
Proof.
  intros Hx. apply list_eq. intros j. rewrite list_lookup_alter.
  destruct (decide (i = j)) as [<-|Hne].
  - rewrite Hx. by rewrite list_lookup_insert_eq by (by eapply lookup_lt_Some).
  - by rewrite list_lookup_insert_ne.
Qed.

(** A live process changes: its state among the live ones, channel, step. *)
Lemma wf_alive i p p' c c' :
  ptable c !! i = Some p → ptable c' = <[i := p']> (ptable c) →
  nextpid c' = nextpid c → initproc c' = initproc c →
  alive (state p) → alive (state p') → pid p' = pid p → parent p' = parent p →
  sizeStep p' = sizeStep p → pgdir p' = pgdir p → 0 ≤ step p' < STEP_LIMIT + 200 →
  length (ofile p') = NOFILE →
  (state p' = RUNNING → cur c' = Some i) →
  (∀ j q, j ≠ i → ptable c !! j = Some q → state q = RUNNING → cur c' = Some j) →
  (∀ k, state p' = SLEEPING → chan p' = Some (Ch_proc k) →
     k = i ∧ (∃ j q, ptable c !! j = Some q ∧ parent q = Some i) ∧
     ∀ j q, ptable c !! j = Some q → parent q = Some i → state q ≠ ZOMBIE) →
  wf c → wf c'.
Proof.
  intros Hi Hpt Hn Hip Ha Ha' Hpid Hpar Hss Hpg Hst Hnf Hrun Hoth Hch W.
  assert (Hlt := lookup_lt_Some _ _ _ Hi).
  assert (Hnz : state p' ≠ ZOMBIE ∧ state p' ≠ UNUSED ∧ state p' ≠ EMBRYO ∧
                state p ≠ UNUSED ∧ state p ≠ EMBRYO).
  { unfold alive in *. intuition congruence. }
  destruct Hnz as (? & ? & ? & ? & ?).
  assert (Kf : ∀ j q, ptable c !! j = Some q → ∃ q', ptable c' !! j = Some q' ∧
    parent q' = parent q ∧ (alive (state q) → alive (state q'))).
  { intros j q Hj. rewrite Hpt. destruct (decide (i = j)) as [<-|Hne].
    - exists p'. rewrite list_lookup_insert_eq by done. by simplify_eq.
    - exists q. by rewrite list_lookup_insert_ne. }
  destruct W as [W1 W2 W3 W4 W5 W6 W7 W8 W9 W10 W11 W14 W13 W12].
  constructor; rewrite ?Hn, ?Hip; [by rewrite Hpt, length_insert|done|..].
  - intros j q Hj. rewrite Hpt in Hj. slots; [rewrite Hpid|]; eauto.
  - intros j k q r Hj Hk. rewrite Hpt in Hj, Hk. slots; rewrite ?Hpid; eauto.
  - intros j q Hj Hal. rewrite Hpt in Hj. slots; [rewrite Hss|]; eauto.
    split; [done|]. by eapply W5.
  - intros j q Hj. rewrite Hpt in Hj. slots; [rewrite Hpg|]; eauto.
  - intros j q Hj Hr. rewrite Hpt in Hj. slots; eauto.
  - intros j q Hj Hf. rewrite Hpt in Hj. slots; [|by eauto]. by destruct Hf.
  - intros j q Hj Hf. rewrite Hpt in Hj. slots; [done|by eauto].
  - intros j q Hj ? ? Hini. assert (∃ k r, parent q = Some k ∧ ptable c !! k = Some r ∧
      alive (state r)) as (k & r & Hk & Hr & Hra).
    { rewrite Hpt in Hj. slots; [rewrite Hpar|]; eauto. }
    destruct (Kf k r Hr) as (r' & ? & _ & ?). eauto 10.
  - destruct W11 as (k & r & Hk & Hr & Hrp & Hra). destruct (Kf k r Hr) as (r' & ? & Hr' & ?).
    rewrite Hrp in Hr'. eauto 10.
  - intros j q Hj. rewrite Hpt in Hj. slots; eauto.
  - intros j q Hj. rewrite Hpt in Hj. slots; [rewrite Hpar|]; eauto.
  - intros j q k Hj Hs Hc.
    assert (k = j ∧ (∃ m r, ptable c !! m = Some r ∧ parent r = Some j) ∧
      ∀ m r, ptable c !! m = Some r → parent r = Some j → state r ≠ ZOMBIE)
      as (-> & (m & r & Hm & Hr) & Hz).
    { rewrite Hpt in Hj. slots; eauto. }
    split; [done|]. split.
    + destruct (Kf m r Hm) as (r' & ? & ? & _). exists m, r'. split; [done|congruence].
    + intros m' r' Hm' Hr'. rewrite Hpt in Hm'. slots; [done|]. eauto.
Qed.

(** A dead slot becomes or stays free. *)
Lemma wf_unused i p p' c c' :
  ptable c !! i = Some p → ptable c' = <[i := p']> (ptable c) →
  nextpid c ≤ nextpid c' < 2 ^ 31 → initproc c' = initproc c → cur c' = cur c →
  ¬ alive (state p) → state p' = UNUSED → parent p' = None → ofile p' = no_files →
  (∀ k q, parent p = Some k → ptable c !! k = Some q → state q ≠ SLEEPING) →
  wf c → wf c'.
Proof.
  intros Hi Hpt Hn Hip Hcur Hd Hst Hpar Hof Hk W.
  assert (Hlt := lookup_lt_Some _ _ _ Hi).
  assert (Ka : ∀ j q, ptable c !! j = Some q → alive (state q) →
    ptable c' !! j = Some q).
  { intros j q Hj Ha. rewrite Hpt, list_lookup_insert_ne; [done|]. congruence. }
  assert (Hna : ¬ alive UNUSED) by (unfold alive; intuition congruence).
  destruct W as [W1 W2 W3 W4 W5 W6 W7 W8 W9 W10 W11 W14 W13 W12].
  constructor; rewrite ?Hip, ?Hcur; [by rewrite Hpt, length_insert|lia|..].
  - intros j q Hj Hs. rewrite Hpt in Hj. slots; [congruence|].
    pose proof (W3 _ _ Hj Hs). lia.
  - intros j k q r Hj Hk'. rewrite Hpt in Hj, Hk'. slots; intros; try congruence. eauto.
  - intros j q Hj Ha. rewrite Hpt in Hj. slots; [congruence|eauto].
  - intros j q Hj. rewrite Hpt in Hj. slots; [congruence|eauto].
  - intros j q Hj. rewrite Hpt in Hj. slots; [congruence|eauto].
  - intros j q Hj. rewrite Hpt in Hj. slots; [congruence|eauto].
  - intros j q Hj. rewrite Hpt in Hj. slots; [congruence|eauto].
  - intros j q Hj ? ? ?. rewrite Hpt in Hj. slots; [congruence|].
    destruct (W10 j q) as (k & r & ? & ? & ?); auto. eauto 10.
  - destruct W11 as (k & r & ? & ? & ? & ?). eauto 10.
  - intros j q Hj. rewrite Hpt in Hj. slots; [by rewrite Hof|eauto].
  - intros j q Hj. rewrite Hpt in Hj. slots; [congruence|eauto].
  - intros j q k Hj Hs Hc. rewrite Hpt in Hj. slots; [congruence|].
    destruct (W12 j q k) as (-> & (m & r & Hm & Hr) & Hz); auto. split; [done|]. split.
    + exists m, r. split; [|done]. rewrite Hpt. rewrite list_lookup_insert_ne; [done|].
      intros <-. simplify_eq. by eapply Hk.
    + intros m' r' Hm' Hr'. rewrite Hpt in Hm'. slots; [congruence|eauto].
Qed.

(** A free slot becomes a child of a live process that is not in [wait]. *)
Lemma wf_child i p p' me pm c c' :
  ptable c !! i = Some p → ptable c' = <[i := p']> (ptable c) →
  nextpid c' = nextpid c + 1 → nextpid c' < 2 ^ 31 → initproc c' = initproc c →
  cur c' = cur c → state p = UNUSED → state p' = RUNNABLE → pid p' = nextpid c →
  ptable c !! me = Some pm → state pm = RUNNING → parent p' = Some me →
  0 ≤ step p' < STEP_LIMIT + 200 → 10 ≤ sizeStep p' ≤ 200 → pgdir p' ≠ 0 →
  length (ofile p') = NOFILE → wf c → wf c'.
Proof.
  intros Hi Hpt Hn Hn' Hip Hcur Hst Hst' Hpid Hme Hrun Hpar Hstep Hss Hpg Hnf W.
  assert (Hlt := lookup_lt_Some _ _ _ Hi).
  assert (Ka : ∀ j q, ptable c !! j = Some q → state q ≠ UNUSED → ptable c' !! j = Some q).
  { intros j q Hj Ha. rewrite Hpt, list_lookup_insert_ne; [done|]. congruence. }
  assert (Hal : ∀ st, alive st → st ≠ UNUSED) by (unfold alive; intuition congruence).
  destruct W as [W1 W2 W3 W4 W5 W6 W7 W8 W9 W10 W11 W14 W13 W12].
  constructor; rewrite ?Hip, ?Hcur, ?Hn; [by rewrite Hpt, length_insert|lia|..].
  - intros j q Hj Hs. rewrite Hpt in Hj. slots; [lia|].
    pose proof (W3 _ _ Hj Hs). lia.
  - intros j k q r Hj Hk Hq Hr Hqr. rewrite Hpt in Hj, Hk. slots; [done|..|by eauto].
    + pose proof (W3 _ _ Hj Hq). lia.
    + pose proof (W3 _ _ Hk Hr). lia.
  - intros j q Hj Ha. rewrite Hpt in Hj. slots; [done|eauto].
  - intros j q Hj. rewrite Hpt in Hj. slots; [done|eauto].
  - intros j q Hj. rewrite Hpt in Hj. slots; [congruence|eauto].
  - intros j q Hj Hf. rewrite Hpt in Hj. slots; [|eauto]. rewrite Hst' in Hf. by destruct Hf.
  - intros j q Hj Hf. rewrite Hpt in Hj. slots; [|eauto]. destruct Hf. unfold alive. auto.
  - intros j q Hj ? ? ?. rewrite Hpt in Hj. slots.
    + exists me, pm. split_and!; [done| |unfold alive; auto]. apply Ka; [done|congruence].
    + destruct (W10 j q) as (k & r & ? & ? & ?); auto. exists k, r. eauto.
  - destruct W11 as (k & r & ? & ? & ? & ?). exists k, r. eauto 10.
  - intros j q Hj. rewrite Hpt in Hj. slots; eauto.
  - intros j q Hj. rewrite Hpt in Hj. slots; [congruence|eauto].
  - intros j q k Hj Hs Hc. rewrite Hpt in Hj. slots; [congruence|].
    destruct (W12 j q k) as (-> & (m & r & Hm & Hr) & Hz); auto. split; [done|]. split.
    + exists m, r. split; [|done]. apply Ka; [done|]. intros Hu.
      specialize (W8 m r Hm (or_introl Hu)). congruence.
    + intros m' r' Hm' Hr'. rewrite Hpt in Hm'. slots; [congruence|eauto].
Qed.

Lemma pointwise_length (ps ps' : list proc) f :
  (∀ j, ps' !! j = f j <$> ps !! j) → length ps' = length ps.
Proof.
  intros H. apply Nat.le_antisymm; apply lookup_ge_None.
  - rewrite H. by rewrite (proj2 (lookup_ge_None ps _)) by lia.
  - specialize (H (length ps')). rewrite (proj2 (lookup_ge_None ps' _)) in H by lia.
    by destruct (ps !! length ps').
Qed.

(** What [exit] does to a slot. *)
Lemma exited_fields me ip pa z j p :
  let p' := exited me ip pa z j p in
  pid p' = pid p ∧ step p' = step p ∧ sizeStep p' = sizeStep p ∧ pgdir p' = pgdir p ∧
  chan p' = chan p ∧ ofile p' = ofile p ∧
  parent p' = (if decide (parent p = Some me) then Some ip else parent p).
Proof.
  unfold exited, wake_if, adopt, wake_parent, wakeup1_proc.
  destruct z, pa; repeat case_decide; simpl in *; repeat split; try done; congruence.
Qed.

Lemma exited_state me ip pa z j p :
  let p' := exited me ip pa z j p in
  (j = me → state p' = ZOMBIE) ∧
  (j ≠ me → (state p' = state p ∨ state p = SLEEPING ∧ state p' = RUNNABLE) ∧
    (state p' = SLEEPING → ∀ k, chan p = Some (Ch_proc k) →
       pa ≠ Some k ∧ (z = true → k ≠ ip))).
Proof.
  unfold exited, wake_if, adopt, wake_parent, wakeup1_proc. split.
  { intros ->. by rewrite decide_True. }
  intros Hne. rewrite decide_False by done.
  destruct z, pa; repeat case_decide; simpl in *; split; auto; intuition congruence.
Qed.

(** The table [ps'] that [exit_table] leaves, against the one it found. *)
Section ExitTable.
Context (me ip : nat) (pm : proc) (c : core) (ps' : list proc).
Abbreviation zomb := (existsb (zombie_child me) (ptable c)).
Hypothesis Hme : ptable c !! me = Some pm.
Hypothesis Hps : ∀ j, ps' !! j = exited me ip (parent pm) zomb j <$> ptable c !! j.

(** Every slot of it: who it was and what changed. *)
Lemma exit_from j p' : ps' !! j = Some p' → ∃ p, ptable c !! j = Some p ∧
  pid p' = pid p ∧ step p' = step p ∧ sizeStep p' = sizeStep p ∧ pgdir p' = pgdir p ∧
  chan p' = chan p ∧ ofile p' = ofile p ∧
  parent p' = (if decide (parent p = Some me) then Some ip else parent p) ∧
  (j = me ∧ p = pm ∧ state p' = ZOMBIE ∨
   j ≠ me ∧ (state p' = state p ∨ state p = SLEEPING ∧ state p' = RUNNABLE) ∧
   (state p' = SLEEPING → ∀ k, chan p = Some (Ch_proc k) → parent pm ≠ Some k ∧ (zomb = true → k ≠ ip))).
Proof.
  intros Hj. rewrite Hps in Hj. destruct (ptable c !! j) as [p|] eqn:Hp; [|done].
  injection Hj as <-. exists p. split; [done|].
  destruct (exited_fields me ip (parent pm) zomb j p) as (?&?&?&?&?&?&?).
  destruct (exited_state me ip (parent pm) zomb j p) as [Hx1 Hx2].
  repeat (split; [done|]). destruct (decide (j = me)) as [->|Hj]; [left|right].
  - split_and!; [done|congruence|auto].
  - by destruct (Hx2 Hj).
Qed.

(** Who was there before, the exiting process apart, is there and as alive. *)
Lemma exit_kept j p : ptable c !! j = Some p → j ≠ me → ∃ p', ps' !! j = Some p' ∧
  parent p' = (if decide (parent p = Some me) then Some ip else parent p) ∧
  (alive (state p) → alive (state p')).
Proof.
  intros Hj Hjm. rewrite Hps, Hj. simpl. eexists. split; [done|].
  destruct (exited_fields me ip (parent pm) zomb j p) as (?&?&?&?&?&?&?).
  destruct (exited_state me ip (parent pm) zomb j p) as [_ Hs]. destruct (Hs Hjm) as [Hs' _].
  split; [done|]. unfold alive. intuition congruence.
Qed.

Lemma zombie_seen j q : ptable c !! j = Some q → parent q = Some me → state q = ZOMBIE → zomb = true.
Proof.
  intros Hj Hq Hqz. apply existsb_exists. exists q.
  split; [by apply list_elem_of_In; eapply list_elem_of_lookup_2|].
  by apply bool_decide_eq_true.
Qed.

(** A process that still sleeps in [wait] has a child and no zombie. *)
Lemma exit_sleeper j p' k :
  (∀ j p k, ptable c !! j = Some p → state p = SLEEPING → chan p = Some (Ch_proc k) →
     k = j ∧ (∃ m r, ptable c !! m = Some r ∧ parent r = Some j) ∧
     ∀ m r, ptable c !! m = Some r → parent r = Some j → state r ≠ ZOMBIE) →
  (∀ j p, ptable c !! j = Some p → parent p ≠ Some j) →
  ps' !! j = Some p' → state p' = SLEEPING → chan p' = Some (Ch_proc k) →
  k = j ∧ (∃ m r, ps' !! m = Some r ∧ parent r = Some j) ∧
  ∀ m r, ps' !! m = Some r → parent r = Some j → state r ≠ ZOMBIE.
Proof.
  intros W12 W13 Hj Hs Hc. destruct (exit_from j p' Hj) as (p & Hp & ?&?&?&?& Hch &?& Hpp & Hst).
  destruct Hst as [(?&?&?)|(Hjm & Hst & Hwake)]; [congruence|].
  rewrite Hch in Hc. destruct (Hwake Hs k Hc) as [Hpa Hzk].
  destruct (W12 j p k) as (-> & (m & r & Hm & Hr) & Hnz); [done|intuition congruence|done|].
  split; [done|]. split.
  - destruct (decide (m = me)) as [->|Hmm].
    + rewrite Hme in Hm. injection Hm as <-. by destruct Hpa.
    + destruct (exit_kept m r Hm Hmm) as (r' & ? & Hr' & _). exists m, r'. split; [done|].
      rewrite Hr', Hr. rewrite decide_False; [done|congruence].
  - intros m' r' Hm' Hr'. destruct (exit_from m' r' Hm') as (r0 & Hr0 & ?&?&?&?&?&?& Hp0 & Hst0).
    rewrite Hp0 in Hr'. destruct Hst0 as [(-> & -> & _)|(? & Hst0 & _)].
    + case_decide; [|by destruct Hpa]. by destruct (W13 me pm Hme).
    + case_decide as Hd.
      * injection Hr' as ->. assert (state r0 ≠ ZOMBIE); [|intuition congruence].
        intros Hrz. by destruct (Hzk (zombie_seen m' r0 Hr0 Hd Hrz)).
      * specialize (Hnz m' r0 Hr0 Hr'). intuition congruence.
Qed.

End ExitTable.

Lemma wf_exit me pm ip ls ps' c :
  wf c → runs c me pm → initproc c = Some ip → me ≠ ip → ofile pm = no_files →
  (∀ j, ps' !! j =
     exited me ip (parent pm) (existsb (zombie_child me) (ptable c)) j <$> ptable c !! j) →
  wf (set_locks ls (set_ptable ps' c)).
Proof.
  intros W (Hcur & Hme & Hrun) Hip Hne Hof Hps. apply wf_set_locks.
  pose proof (exit_from me ip pm c ps' Hme Hps) as K. pose proof (exit_kept me ip pm c ps' Hps) as Kf.
  assert (Hna : ¬ alive ZOMBIE) by (unfold alive; intuition congruence).
  destruct (wf_init c W) as (ip' & pi & Hip' & Hpi & Hpip & Hpia).
  rewrite Hip in Hip'. injection Hip' as <-.
  destruct W as [W1 W2 W3 W4 W5 W6 W7 W8 W9 W10 _ W14 W13 W12].
  constructor; simpl; rewrite ?Hip; try done;
    try (intros j p' Hj; destruct (K j p' Hj) as (p & Hp & E1 & E2 & E3 & E4 & Ech & Eof & Epa & Hst)).
  - rewrite <-W1. by eapply pointwise_length.
  - intros Hs. rewrite E1. eapply W3; [done|]. intuition congruence.
  - intros i j p' q' Hi Hj Hs Hs' Hpid.
    destruct (K i p' Hi) as (p & Hp & E & ?&?&?&?&?&?& Hst).
    destruct (K j q' Hj) as (q & Hq & E' & ?&?&?&?&?&?& Hst'). rewrite E, E' in Hpid.
    eapply W4; [exact Hp|exact Hq| | |done]; intuition congruence.
  - intros Hs. rewrite E2, E3. eapply W5; [done|]. unfold alive in *. intuition congruence.
  - intros Hs Hs'. rewrite E4. eapply W6; [done|..]; intuition congruence.
  - intros Hs. eapply W7; [done|]. intuition congruence.
  - intros Hs. rewrite Epa. assert (parent p = None) as -> by (eapply W8; [done|]; intuition congruence).
    by rewrite decide_False.
  - intros Hs. rewrite Eof. destruct Hst as [(_ & -> & _)|(? & Hst & _)]; [done|].
    eapply W9; [done|]. unfold alive in *. intuition congruence.
  - intros Hs Hs' Hini. rewrite Epa.
    destruct (W10 j p) as (k & r & Hk & Hr & Ha); [done|intuition congruence..|]. case_decide as Hme'.
    + destruct (Kf ip pi Hpi ltac:(congruence)) as (pi' & ? & _ & ?). eauto 10.
    + destruct (Kf k r Hr ltac:(congruence)) as (r' & ? & _ & ?). eauto 10.
  - destruct (Kf ip pi Hpi ltac:(congruence)) as (pi' & ? & Hpp & ?).
    exists ip, pi'. split_and!; auto. rewrite Hpp, Hpip. by rewrite decide_False.
  - rewrite Eof. eauto.
  - rewrite Epa. case_decide as Hme'; [|eauto]. intros [= ->]. congruence.
  - intros j p' k Hj Hs Hc. eapply (exit_sleeper me ip pm c ps'); eauto.
Qed.

Lemma wf_idle c :
  (∀ i p, ptable c !! i = Some p → state p ≠ RUNNING) → wf c → wf (set_cur None c).
Proof. intros H []. constructor; simpl; try done. intros i p Hi Hr. by destruct (H i p Hi). Qed.

End Wf.
