(* ===== verification/ProcSteps.v ===== *)
(** * The kernel's process operations as steps (proc.c)

    [pstep] is one operation of proc.c or of a client, with the state in which
    it may happen; every step keeps the invariant [wf] of [ProcInv], from the
    first process on.  Then what the system calls do, branch by branch. *)
From S2P Require Import Prelude Spinlock Core CString Proc Stride ProcInv.

(** ** Every operation, as a step *)

(** The operations of a running kernel.  [Op_env] is any other kernel function
    a process runs: a client of the interface, which may sleep. *)
Inductive op (E : Type) :=
| Op_sched | Op_back | Op_yield_resume | Op_sleep_resume (lk : lockid) | Op_forkret (first : bool)
| Op_fork (tickets : Z) | Op_exit | Op_exit_table | Op_wait | Op_wait_resume
| Op_yield | Op_sleep (ch : chan_t) (lk : lockid) | Op_wakeup (ch : chan_t)
| Op_kill (n : Z) | Op_growproc (n : Z) | Op_env (m : M (core * E) unit).
Arguments Op_sched {E}. Arguments Op_back {E}. Arguments Op_yield_resume {E}.
Arguments Op_sleep_resume {E}. Arguments Op_forkret {E}. Arguments Op_fork {E}.
Arguments Op_exit {E}. Arguments Op_exit_table {E}. Arguments Op_wait {E}.
Arguments Op_wait_resume {E}. Arguments Op_yield {E}. Arguments Op_sleep {E}.
Arguments Op_wakeup {E}. Arguments Op_kill {E}. Arguments Op_growproc {E}.
Arguments Op_env {E}.

Section Steps.
Context {E : Type} `{KE : !KernelEnv E, !KernelEnvOk E}.
Implicit Types (c : core) (e : E).

(** The CPU runs a process, or a process has just been switched away from. *)
Definition running c : Prop := ∃ i p, runs c i p.
Definition switched c : Prop :=
  ∃ i p, cur c = Some i ∧ ptable c !! i = Some p ∧ state p ≠ RUNNING.

Definition run_op (o : op E) : M (core * E) unit :=
  match o with
  | Op_sched => scheduler_round ;; mret ()
  | Op_back => scheduler_back
  | Op_yield_resume => yield_resume
  | Op_sleep_resume lk => sleep_resume lk
  | Op_forkret first => forkret first ;; mret ()
  | Op_fork t => fork t ;; mret ()
  | Op_exit => exit
  | Op_exit_table => me ← myproc; exit_table me
  | Op_wait => wait ;; mret ()
  | Op_wait_resume => wait_resume ;; mret ()
  | Op_yield => yield
  | Op_sleep ch lk => sleep ch lk
  | Op_wakeup ch => wakeup ch
  | Op_kill n => kill n ;; mret ()
  | Op_growproc n => growproc n ;; mret ()
  | Op_env m => m
  end.

(** When each can happen.  [exit_table] is the part of [exit] that runs after
    the files are closed; a sleeper in [wait] is on its own channel, all
    others on one that is not a process; pids have not run out. *)
Definition op_guard (o : op E) c : Prop :=
  match o with
  | Op_sched => in_scheduler c
  | Op_back => switched c
  | Op_fork _ => running c ∧ nextpid c < 2 ^ 31 - 1
  | Op_exit_table => ∃ i p, runs c i p ∧ initproc c ≠ Some i ∧ ofile p = no_files
  | Op_sleep ch _ => running c ∧ ∀ q, ch ≠ Ch_proc q
  | Op_env m => running c ∧ core_wakes m
  | _ => running c
  end.

Inductive pstep : core * E → core * E → Prop :=
| pstep_ret o s s' : op_guard o (fst s) → run_op o s = Ret () s' → pstep s s'
| pstep_block o s s' : op_guard o (fst s) → run_op o s = Block s' → pstep s s'.

Lemma wf_stride_ok c : wf c → stride_ok (ptable c).
Proof.
  intros W i p Hi Hr. destruct (wf_stride c W i p Hi) as [? ?].
  { unfold alive. auto. }
  split_and!; try lia. apply (wf_pgdir c W i p Hi); congruence.
Qed.

Lemma runs_alive c i p : runs c i p → alive (state p).
Proof. intros (_ & _ & ->). unfold alive. auto. Qed.

Lemma wf_no_other c i p : wf c → runs c i p →
  ∀ j q, j ≠ i → ptable c !! j = Some q → state q = RUNNING → cur c = Some j.
Proof. intros W _ j q _ Hj Hr. by eapply (wf_running c W). Qed.

(** The running process changes its own slot. *)
Lemma wf_self_update c i p f :
  wf c → runs c i p → pid (f p) = pid p → parent (f p) = parent p →
  sizeStep (f p) = sizeStep p → pgdir (f p) = pgdir p → step (f p) = step p →
  length (ofile (f p)) = NOFILE → alive (state (f p)) →
  (∀ k, state (f p) = SLEEPING → chan (f p) = Some (Ch_proc k) →
     k = i ∧ (∃ j q, ptable c !! j = Some q ∧ parent q = Some i) ∧
     ∀ j q, ptable c !! j = Some q → parent q = Some i → state q ≠ ZOMBIE) →
  wf (upd_proc i f c).
Proof.
  intros W R Hpid Hpar Hss Hpg Hst Hnf Ha Hch. pose proof R as (Hcur & Hi & Hr).
  eapply (wf_alive i p (f p) c); eauto.
  - by apply alter_as_insert.
  - by eapply runs_alive.
  - rewrite Hst. eapply (wf_stride c W); eauto using runs_alive.
  - intros j q _ Hj Hq. by eapply (wf_running c W).
Qed.

Lemma wf_asleep c c' : wf c → running c → asleep c c' → wf c'.
Proof.
  intros W (i & p & R) (c1 & j & ch & How & Hj & Hch & ->). apply wf_set_locks.
  pose proof R as (Hcur & Hi & Hr). simplify_eq.
  destruct (Forall2_lookup_l _ _ _ _ _ (ow_procs _ _ How) Hi) as (p1 & Hp1 & [->|[? _]]);
    [|congruence].
  assert (R1 : runs c1 j p) by (split_and!; [by rewrite (ow_cur _ _ How)|done|done]).
  apply (wf_self_update _ _ p); auto; [by eapply wf_woken|..].
  - simpl. eapply (wf_nfiles c W); eauto.
  - unfold alive. auto.
  - intros k _ [= ->]. by destruct (Hch k).
Qed.

Lemma runs_woken c c' i p : only_woken c c' → runs c i p → runs c' i p.
Proof.
  intros How (Hcur & Hi & Hr).
  destruct (Forall2_lookup_l _ _ _ _ _ (ow_procs _ _ How) Hi) as (p1 & Hp1 & [->|[? _]]);
    [|congruence].
  split_and!; [by rewrite (ow_cur _ _ How)|done|done].
Qed.

(** *** Each operation keeps [wf] *)

Notation keeps_wf m c e :=
  (wlp m (λ _ s, wf (fst s)) (λ s, wf (fst s)) (c, e)).

Lemma wlp_drop {A} (m : M (core * E) A) (Q : core * E → Prop) B s :
  wlp m (λ _ s', Q s') B s → wlp (m ;; mret ()) (λ _ s', Q s') B s.
Proof. intros H. apply wlp_bind. eapply wlp_mono; [exact H|by intros|done]. Qed.

Lemma wf_sched c e : wf c → in_scheduler c → keeps_wf scheduler_round c e.
Proof.
  intros W Hin. pose proof (scheduler_round_run c e Hin (wf_stride_ok c W)) as H.
  destruct (pick _ _ _ _) as [i|] eqn:Hp; [|by unfold wlp; rewrite H].
  destruct H as [e' He']. unfold wlp. rewrite He'. simpl.
  apply pick_Some in Hp as (p & Hi & Hs & Hlt & _).
  destruct (wf_stride c W i p Hi) as [? ?]; [by unfold alive; auto|].
  eapply (wf_alive i p (set_state RUNNING (bump p)) c); simpl; auto.
  - by apply (alter_as_insert (set_state RUNNING ∘ bump)).
  - unfold alive. auto.
  - unfold alive. auto.
  - rewrite i32_step by lia. lia.
  - eapply (wf_nfiles c W); eauto.
  - intros j q _ Hj Hq. pose proof (wf_running c W j q Hj Hq) as Hc.
    destruct Hin as [Hcur _]. congruence.
  - done.
Qed.

Lemma wf_back c e : wf c → switched c → keeps_wf scheduler_back c e.
Proof.
  intros W (i & p & Hcur & Hi & Hr). unfold scheduler_back.
  assert (W' : wf (set_cur None c)).
  { apply wf_idle; [|done]. intros j q Hj Hq.
    pose proof (wf_running c W j q Hj Hq). congruence. }
  destruct c. core_cbn_in. wlp_run. by eapply wf_locks.
Qed.

Lemma wf_yield c e : wf c → running c → keeps_wf yield c e.
Proof.
  intros W (i & p & R). unfold yield.
  assert (W' : wf (upd_proc i (set_state RUNNABLE) c)).
  { eapply wf_self_update; [done|done|simpl; auto..].
    - destruct R as (_ & Hi & _). by eapply (wf_nfiles c W).
    - unfold alive; auto.
    - done. }
  destruct R as (Hcur & Hi & Hr). destruct c. core_cbn_in. subst.
  wlp_run. by eapply wf_locks.
Qed.

Lemma wf_sleep ch lk c e :
  wf c → running c → (∀ q, ch ≠ Ch_proc q) → keeps_wf (sleep ch lk) c e.
Proof.
  intros W (i & p & R) Hch. unfold sleep.
  assert (W' : wf (upd_proc i (set_state SLEEPING ∘ set_chan (Some ch)) c)).
  { eapply wf_self_update; [done|done|simpl; auto..].
    - destruct R as (_ & Hi & _). by eapply (wf_nfiles c W).
    - unfold alive; auto.
    - intros k _ [= ->]. by destruct (Hch k). }
  destruct R as (Hcur & Hi & Hr). destruct c. core_cbn_in. subst.
  wlp_run. case_decide; wlp_run; rewrite list_alter_alter_eq; by eapply wf_locks.
Qed.

Lemma wf_wakeup ch c e : wf c → keeps_wf (wakeup ch) c e.
Proof.
  intros W. pose proof (wf_woken _ _ (wakeup_only_woken ch c) W) as W'.
  unfold wakeup, wakeup1. destruct c. core_cbn_in. wlp_run. by eapply wf_locks.
Qed.

Lemma wf_release_only l c e : wf c → keeps_wf (release l) c e.
Proof. intros W. destruct c. wlp_run. by eapply wf_locks. Qed.

Lemma wf_sleep_resume lk c e : wf c → running c → keeps_wf (sleep_resume lk) c e.
Proof.
  intros W (i & p & R). unfold sleep_resume.
  assert (W' : wf (upd_proc i (set_chan None) c)).
  { eapply wf_self_update; [done|done|simpl; auto..].
    - destruct R as (_ & Hi & _). by eapply (wf_nfiles c W).
    - by eapply runs_alive.
    - done. }
  destruct R as (Hcur & Hi & Hr). destruct c. core_cbn_in. subst.
  wlp_run. case_decide; wlp_run; by eapply wf_locks.
Qed.

Lemma wf_kill n c e : wf c → keeps_wf (kill n) c e.
Proof.
  intros W. unfold kill, find_pid. destruct c as [lk ps np ip cu].
  wlp_run. destruct (list_find _ ps) as [[i p]|] eqn:Hf; simpl.
  - apply list_find_Some in Hf as (Hi & Hp & _).
    assert (W1 : wf (upd_proc i (set_killed 1) (mkCore lk ps np ip cu))).
    { apply wf_same; [|done]. intros q _. by unfold same_role. }
    wlp_run. core_cbn_in. rewrite list_lookup_alter_eq, Hi in *. simplify_eq/=.
    apply wlp_when; intros Hb; wlp_run.
    + apply bool_decide_eq_true in Hb. eapply wf_locks, wf_woken; [|exact W1].
      constructor; try done. simpl. apply Forall2_same_length_lookup.
      split; [by rewrite !length_alter|]. intros j x y Hx Hy.
      rewrite list_lookup_alter in Hy. case_decide; subst; [|left; congruence].
      rewrite Hx in Hy. injection Hy as <-. right. split; [|done].
      rewrite list_lookup_alter_eq, Hi in Hx. by injection Hx as <-.
    + by eapply wf_locks.
  - wlp_run. by eapply wf_locks.
Qed.

Lemma wf_growproc n c e : wf c → running c → keeps_wf (growproc n) c e.
Proof.
  intros W (i & p & R).
  assert (W' : ∀ v, wf (upd_proc i (set_sz v) c)).
  { intros v. apply wf_same; [|done]. intros q _. by unfold same_role. }
  destruct R as (Hcur & Hi & Hr). destruct c as [lk ps np ip cu]. core_cbn_in. subst.
  unfold growproc. wlp_run. wlp_tidy.
  repeat case_match; wlp_run;
    try (apply wlp_const; [apply allocuvm_core || apply deallocuvm_core|]; intros ? ? _);
    repeat case_match; wlp_run; try done;
    (apply wlp_const; [apply switchuvm_core|]; intros ? ? _; wlp_run; apply W').
Qed.

Lemma wf_wakes {A} (m : M (core * E) A) c e :
  core_wakes m → wf c → running c → keeps_wf m c e.
Proof.
  intros Hm W R. apply wlp_wakes; [done|..]; simpl.
  - intros _ c' _ How. by eapply wf_woken.
  - intros c' _ Ha. by eapply wf_asleep.
Qed.

Lemma running_locks c ls : running c → running (set_locks ls c).
Proof. done. Qed.

Lemma wf_forkret first c e : wf c → running c → keeps_wf (forkret first) c e.
Proof.
  intros W R. unfold forkret. apply wlp_bind, wlp_release. intros _.
  destruct first; [|by apply wlp_ret, wf_set_locks].
  apply wlp_bind. eapply wlp_mono; [apply (wf_wakes initlog); [apply initlog_core|..]| |done].
  - by apply wf_set_locks.
  - done.
  - intros ? s' H. by apply wlp_ret.
Qed.

Lemma stride_of_range t : 10 ≤ stride_of t ≤ 200.
Proof.
  unfold stride_of. repeat case_match; zify_bool; try (vm_compute; split; discriminate).
  rewrite Z.quot_div_nonneg by lia. split.
  - apply Z.div_le_lower_bound; lia.
  - apply Z.div_le_upper_bound; lia.
Qed.

Lemma not_alive_unused : ¬ alive UNUSED.
Proof. unfold alive. intuition congruence. Qed.

(** A failed [allocproc] or [fork] leaves the slot free, with a used-up pid. *)
Lemma wf_failed i c f :
  wf c → find_unused (ptable c) = Some i → nextpid c < 2 ^ 31 - 1 →
  (∀ p, state p = UNUSED → state (f p) = UNUSED ∧ parent (f p) = parent p ∧ ofile (f p) = ofile p) →
  wf (after_alloc i f c).
Proof.
  intros W Hf Hn Hfp. destruct (find_unused_Some _ _ Hf) as (p & Hi & Hs).
  destruct (Hfp p Hs) as (Hs' & Hpar & Hof).
  assert (Hp0 : parent p = None) by (by eapply (wf_free c W); eauto).
  eapply (wf_unused i p (f p) c); simpl; auto.
  - by apply alter_as_insert.
  - pose proof (wf_next c W). rewrite i32_small by lia. lia.
  - rewrite Hs. apply not_alive_unused.
  - congruence.
  - rewrite Hof. eapply (wf_files c W); [done|]. rewrite Hs. apply not_alive_unused.
  - congruence.
Qed.

Lemma length_child_files fs gs n : length (child_files fs gs n) = length gs.
Proof.
  unfold child_files. revert fs gs. induction n as [|n IH]; intros [|f fs] [|g gs]; try done.
  simpl. f_equal. apply IH.
Qed.

Lemma wf_fork t c e :
  wf c → running c → nextpid c < 2 ^ 31 - 1 → keeps_wf (fork t) c e.
Proof.
  intros W (me & pm & R) Hn. eapply wlp_fork; [done|..]; simpl.
  - done.
  - intros i _ Hf. by apply wf_failed.
  - intros i k _ Hf. by apply wf_failed.
  - intros i k d nm _ p Hf Hi Hd _. destruct R as (Hcur & Hme & Hr).
    destruct (find_unused_Some _ _ Hf) as (p' & Hi' & Hs). simplify_eq.
    pose proof (wf_next c W) as Hnext. pose proof (stride_of_range t).
    eapply (wf_child i p (child t (nextpid c) k d me pm nm p) me pm c); simpl; auto.
    + by apply alter_as_insert.
    + apply i32_small. lia.
    + rewrite i32_small by lia. lia.
    + unfold STEP_LIMIT. lia.
    + rewrite length_child_files. eapply (wf_nfiles c W); eauto.
Qed.

Lemma wf_exit_table me pm c e :
  wf c → runs c me pm → initproc c ≠ Some me → ofile pm = no_files →
  keeps_wf (exit_table me) c e.
Proof.
  intros W R Hini Hof. destruct (wf_init c W) as (ip & pi & Hip & _).
  eapply (wlp_exit_table me pm ip); [apply (wf_len c W)|by destruct R as (_ & ? & _)|done|].
  intros ps' Hps. simpl. eapply (wf_exit me pm ip); eauto. congruence.
Qed.

(** [exit] while it closes files: [n] of them are closed. *)
Definition closing (c : core) (me n : nat) (s : core * E) : Prop :=
  ∃ c' pm, fst s = c' ∧ wf c' ∧ runs c' me pm ∧ initproc c' = initproc c ∧
    ∀ j, (j < n)%nat → ofile pm !! j = Some None.

Lemma wf_same_running i p f c :
  wf c → runs c i p → same_role p (f p) → wf (upd_proc i f c) ∧ runs (upd_proc i f c) i (f p).
Proof.
  intros W (Hcur & Hi & Hr) Hs. split.
  - apply wf_same; [|done]. intros q Hq. by simplify_eq.
  - split_and!; [done| |].
    + by rewrite upd_lookup, decide_True, Hi.
    + destruct Hs as (-> & _). done.
Qed.

Lemma wf_exit_file me c n s :
  closing c me n s →
  wlp (exit_file me n) (λ _ s', closing c me (S n) s') (λ s', wf (fst s')) s.
Proof.
  destruct s as [c0 e0]. intros (c1 & pm & Hc1 & W & R & Hip & Hcl). simpl in Hc1. subst c0.
  unfold exit_file. apply wlp_bind, wlp_getp. simpl. intros p Hp.
  pose proof R as (_ & Hme & Hrun). simplify_eq.
  apply wlp_bind, wlp_deref. intros [f|] Hf.
  - apply wlp_bind, wlp_wakes; [apply fileclose_core|..].
    + intros _ c2 e2 How. apply wlp_setp. simpl.
      pose proof (runs_woken _ _ _ _ How R) as R2. pose proof (wf_woken _ _ How W) as W2.
      destruct (wf_same_running me p (λ p, set_ofile (<[n:=None]> (ofile p)) p) c2) as [W3 R3];
        [done..| |].
      { unfold same_role. simpl. split_and!; try done; [by rewrite length_insert|].
        intros Hna. by destruct (Hna (runs_alive _ _ _ R)). }
      eexists _, _. split_and!; [reflexivity|done|exact R3|simpl; by rewrite (ow_init _ _ How)|].
      simpl. intros j Hj. destruct (decide (j = n)) as [->|Hne].
      * rewrite list_lookup_insert_eq; [done|]. by eapply lookup_lt_Some.
      * rewrite list_lookup_insert_ne by done. apply Hcl. lia.
    + intros c2 e2 Ha. simpl. eapply wf_asleep; eauto. by eexists _, _.
  - apply wlp_ret. exists c1, p. split_and!; auto.
    intros j Hj. destruct (decide (j = n)) as [->|]; [done|]. apply Hcl. lia.
Qed.

Lemma all_none (fs : list (option nat)) :
  length fs = NOFILE → (∀ j, (j < NOFILE)%nat → fs !! j = Some None) → fs = no_files.
Proof.
  intros Hl H. apply list_eq. intros j. unfold no_files.
  destruct (decide (j < NOFILE)%nat).
  - rewrite H by done. symmetry. by apply lookup_replicate_2.
  - rewrite !(proj2 (lookup_ge_None _ _)); [done|rewrite length_replicate|]; lia.
Qed.

Lemma wf_exit_op c e : wf c → running c → keeps_wf Proc.exit c e.
Proof.
  intros W (me & pm & R). unfold Proc.exit. pose proof R as (Hcur & Hme & Hrun).
  apply wlp_bind. eapply wlp_myproc_at; [done|]. apply wlp_bind, wlp_getc. simpl.
  case_decide as Hini; [done|]. apply wlp_bind.
  eapply wlp_mono; [apply (wlp_for_each (closing c me) (seq 0 NOFILE) (exit_file me) (λ s, wf (fst s)))| |done].
  - exists c, pm. split_and!; auto. lia.
  - intros i x s Hx Hs. apply lookup_seq in Hx as [-> _]. rewrite Nat.add_1_r.
    by apply wf_exit_file.
  - intros [] [c0 e0] (c1 & pm1 & Hc & W1 & R1 & Hip1 & Hcl). simpl in Hc. subst c0.
    rewrite length_seq in Hcl. pose proof R1 as (Hcur1 & Hme1 & Hrun1).
    apply wlp_bind, wlp_getp. simpl. intros q Hq. rewrite Hme1 in Hq. injection Hq as <-.
    apply wlp_bind, wlp_deref. intros w Hw. apply wlp_bind.
    apply wlp_wakes; [apply iput_core|..].
    + intros _ c2 e2 How. apply wlp_bind, wlp_setp. simpl.
      pose proof (runs_woken _ _ _ _ How R1) as R2. pose proof (wf_woken _ _ How W1) as W2.
      destruct (wf_same_running me pm1 (set_cwd None) c2) as [W3 R3]; [done..|].
      eapply wf_exit_table; [done|exact R3|..]; simpl.
      * rewrite (ow_init _ _ How), Hip1. congruence.
      * apply all_none; [|done]. by eapply (wf_nfiles c1 W1).
    + intros c2 e2 Ha. simpl. eapply wf_asleep; eauto. by eexists _, _.
Qed.

Lemma wf_wait_round c e : wf c → running c → keeps_wf wait_round c e.
Proof.
  intros W (me & pm & R). pose proof R as (Hcur & Hme & Hrun).
  assert (Hnz : ¬ alive ZOMBIE) by (unfold alive; intuition congruence).
  eapply wlp_wait_round; [done|..]; simpl.
  - intros i p _ Hi Hpar Hz. apply wf_set_locks.
    eapply (wf_unused i p (reaped p) c); simpl; auto.
    + by apply alter_as_insert.
    + pose proof (wf_next c W). lia.
    + by rewrite Hz.
    + eapply (wf_files c W); [done|]. by rewrite Hz.
    + intros k q Hk Hq. rewrite Hpar in Hk. simplify_eq. congruence.
  - intros _ _. by apply wf_set_locks.
  - intros _ Hkid Hnzk. eapply wf_self_update; [done|done|simpl; auto..].
    + by eapply (wf_nfiles c W).
    + unfold alive; auto.
    + intros k _ [= ->]. auto.
Qed.

Lemma wf_wait_resume c e : wf c → running c → keeps_wf wait_resume c e.
Proof.
  intros W (me & pm & R). pose proof R as (Hcur & Hme & Hrun).
  unfold wait_resume, sleep_resume. do 2 apply wlp_bind. eapply wlp_myproc_at; [done|].
  apply wlp_bind, wlp_setp. rewrite decide_True by done. apply wlp_ret.
  apply wf_wait_round.
  - eapply wf_self_update; [done|done|simpl; auto..].
    + by eapply (wf_nfiles c W).
    + by eapply runs_alive.
    + done.
  - exists me, (set_chan None pm). split_and!; [done| |done].
    simpl. by rewrite list_lookup_alter_eq, Hme.
Qed.

(** Any operation, in any state where it can happen, keeps [wf]. *)
Lemma wf_op o c e : wf c → op_guard o c → keeps_wf (run_op o) c e.
Proof.
  intros W G. destruct o; simpl in G |- *;
    try apply (wlp_drop _ (λ s, wf (fst s))).
  - by apply wf_sched.
  - by apply wf_back.
  - by apply wf_release_only.
  - by apply wf_sleep_resume.
  - by apply wf_forkret.
  - destruct G. by apply wf_fork.
  - by apply wf_exit_op.
  - destruct G as (i & p & R & Hini & Hof). apply wlp_bind.
    eapply wlp_myproc_at; [by destruct R|]. by eapply wf_exit_table.
  - apply wlp_bind, wlp_acquire. intros _. apply wf_wait_round; [by apply wf_set_locks|done].
  - by apply wf_wait_resume.
  - by apply wf_yield.
  - destruct G. by apply wf_sleep.
  - by apply wf_wakeup.
  - by apply wf_kill.
  - by apply wf_growproc.
  - destruct G. by apply wf_wakes.
Qed.

Lemma wf_pstep s s' : pstep s s' → wf (fst s) → wf (fst s').
Proof.
  intros [o [c e] s1 G H|o [c e] s1 G H] W.
  - by apply (wlp_keeps _ _ _ _ _ _ (wf_op o c e W G) H).
  - by apply (wlp_blocks _ _ _ _ _ (wf_op o c e W G) H).
Qed.

Lemma wf_steps s s' : rtc pstep s s' → wf (fst s) → wf (fst s').
Proof. induction 1; eauto using wf_pstep. Qed.

(** *** The first process *)

Lemma only_woken_nosleep c c' :
  (∀ i p, ptable c !! i = Some p → state p ≠ SLEEPING) → only_woken c c' → c' = c.
Proof.
  intros Hns [Hl Hp Hn Hi Hc]. destruct c as [lk ps np ip cu], c' as [lk' ps' np' ip' cu'].
  simpl in *. subst. f_equal. apply list_eq. intros j. destruct (ps !! j) as [x|] eqn:Hj.
  - destruct (Forall2_lookup_l _ _ _ _ _ Hp Hj) as (y & Hy & [->|[Hs _]]); [done|].
    by destruct (Hns j x Hj).
  - apply lookup_ge_None in Hj. apply lookup_ge_None.
    pose proof (Forall2_length Hp). lia.
Qed.

Lemma wf_first p lk :
  state p = RUNNABLE → pid p = 1 → parent p = None → step p = 0 → 10 ≤ sizeStep p ≤ 200 →
  pgdir p ≠ 0 → length (ofile p) = NOFILE →
  wf (mkCore lk (p :: replicate 63 proc0) 2 (Some 0%nat) None).
Proof.
  intros Hs Hpid Hpar Hst Hss Hpg Hf.
  assert (K : ∀ i q, (p :: replicate 63 proc0) !! i = Some q →
    i = 0%nat ∧ q = p ∨ i ≠ 0%nat ∧ q = proc0).
  { intros [|i] q Hq; [left; naive_solver|right].
    apply (lookup_replicate_1 63) in Hq as [-> _]. auto. }
  constructor; simpl; try lia.
  - done.
  - intros i q Hq Hu. destruct (K i q Hq) as [[-> ->]|[_ ->]]; [lia|done].
  - intros i j q r Hq Hr Hqu Hru _.
    destruct (K i q Hq) as [[-> _]|[_ ->]]; [|done]. by destruct (K j r Hr) as [[-> _]|[_ ->]].
  - intros i q Hq Ha. destruct (K i q Hq) as [[-> ->]|[_ ->]].
    + unfold STEP_LIMIT. lia.
    + by destruct (not_alive_unused Ha).
  - intros i q Hq Hu. destruct (K i q Hq) as [[-> ->]|[_ ->]]; done.
  - intros i q Hq Hr. destruct (K i q Hq) as [[-> ->]|[_ ->]]; [congruence|done].
  - intros i q Hq Hr. destruct (K i q Hq) as [[-> ->]|[_ ->]]; [|done]. done.
  - intros i q Hq Ha. destruct (K i q Hq) as [[-> ->]|[_ ->]]; [|done].
    destruct Ha. unfold alive. auto.
  - intros i q Hq Hu _ Hi. destruct (K i q Hq) as [[-> ->]|[_ ->]]; done.
  - exists 0%nat, p. split_and!; auto. unfold alive. auto.
  - intros i q Hq. destruct (K i q Hq) as [[-> ->]|[_ ->]]; done.
  - intros i q Hq. destruct (K i q Hq) as [[-> ->]|[_ ->]]; [by rewrite Hpar|done].
  - intros i q k Hq Hr. destruct (K i q Hq) as [[-> ->]|[_ ->]]; [congruence|done].
Qed.

Lemma wf_userinit code e s' : userinit code (core0, e) = Ret () s' → wf (fst s').
Proof.
  intros Hrun. pose proof (wlp_keeps (userinit code) (λ _ s, wf (fst s)) (λ _, True)
    (core0, e) () s') as K. apply K; [clear K Hrun|done].
  unfold userinit. apply wlp_bind, wlp_allocproc.
  { intros _. wlp_run. congruence. }
  { intros i e' _. wlp_run. congruence. }
  intros i k e' Hf Hk. assert (i = 0%nat) as -> by (vm_compute in Hf; congruence).
  clear Hf. unfold after_alloc, core0. core_cbn. wlp_run. core_cbn_in. simplify_eq.
  apply wlp_const; [apply setupkvm_core|]. intros d e1 _. wlp_run.
  destruct (Z.eqb_spec d 0) as [->|Hd]; [done|]. wlp_step.
  apply wlp_const; [apply inituvm_core|]. intros _ e2 _. wlp_run.
  rewrite !list_alter_alter_eq. change (replicate NPROC proc0) with (proc0 :: replicate 63 proc0).
  cbn [alter list_alter]. apply wlp_wakes; [apply namei_core|..]; [|done].
  intros w c' e3 How. apply only_woken_nosleep in How as ->.
  - wlp_run. cbn [alter list_alter]. apply wf_first; done.
  - intros [|i] q Hq; simpl in Hq; [by simplify_eq|].
    by apply (lookup_replicate_1 63) in Hq as [-> _].
Qed.

(** C2. Process-table invariant: from the first process on, along every sequence
    of the operations of proc.c, with any other kernel code between them that
    only sleeps (on channels that are no process) and wakes ([core_wakes]) and as
    long as pids have not run out, the table keeps unique pids, strides between
    10 and 200, page tables for everything that runs, at most the current process
    [RUNNING], living parents, no parents or open files in free slots, and no
    lost wakeup in [wait]: a process asleep there has a child and none of its
    children is a zombie. *)
Theorem process_table_invariant code e s0 s :
  userinit code (core0, e) = Ret () s0 → rtc pstep s0 s → wf (fst s).
Proof.
  intros H0 Hs. eapply wf_steps; [exact Hs|]. by apply wf_userinit in H0.
Qed.

(** *** What the calls do *)






(** The table after [me] has exited: [me] is a zombie; its children belong to
    init [ip]; its parent, if asleep in [wait], is runnable, and so is init if it
    got a zombie; the rest is as before. *)
Definition exit_post (c : core) (me : nat) (pm : proc) (ip : nat) (c' : core) : Prop :=
  length (ptable c') = length (ptable c) ∧
  ∀ i p, ptable c !! i = Some p → ∃ p', ptable c' !! i = Some p' ∧
    pid p' = pid p ∧ chan p' = chan p ∧
    parent p' = (if decide (parent p = Some me) then Some ip else parent p) ∧
    (i = me → state p' = ZOMBIE) ∧
    (i ≠ me → state p = SLEEPING → chan p = Some (Ch_proc i) →
       parent pm = Some i ∨ i = ip ∧ (∃ j q, ptable c !! j = Some q ∧
                                         parent q = Some me ∧ state q = ZOMBIE) →
       state p' = RUNNABLE) ∧
    (i ≠ me → state p ≠ SLEEPING → state p' = state p).

(** C27. The last part of [exit] ends in the scheduler, with [ptable.lock] held and
    the table as [exit_post] says; [exit] itself never returns. *)
Theorem exit_correct c e me pm ip :
  wf c → runs c me pm → initproc c = Some ip →
  (∀ s', exit_table me (c, e) = Block s' →
     exit_post c me pm ip (fst s') ∧ L_ptable ∈ locks (fst s')) ∧
  ∀ s s', Proc.exit (KE := KE) s ≠ Ret () s'.
Proof.
  intros W R Hip. split.
  - intros s' H. pattern s'. eapply (wlp_blocks (exit_table me) (λ _ _, True)); [|exact H].
    eapply (wlp_exit_table me pm ip); [apply (wf_len c W)|by destruct R as (_ & ? & _)|done|].
    intros ps' Hps. split; [|simpl; set_solver]. split; [simpl; by eapply pointwise_length|].
    intros i p Hi. simpl. rewrite Hps, Hi. simpl. eexists. split; [done|].
    set (z := existsb (zombie_child me) (ptable c)).
    destruct (exited_fields me ip (parent pm) z i p) as (?&?&?&?&?&?&?).
    destruct (exited_state me ip (parent pm) z i p) as [Hz Hs].
    split_and!; try done.
    + intros Hne Hsl Hch Hwake. destruct (Hs Hne) as [Hst Hw].
      destruct Hst as [Hst|[_ Hst]]; [|done]. exfalso.
      destruct (Hw ltac:(congruence) i Hch) as [Hpa Hzi].
      destruct Hwake as [?|(-> & j & q & Hj & Hq & Hqz)]; [done|].
      apply Hzi; [|done]. apply existsb_exists. exists q.
      split; [by apply list_elem_of_In; eapply list_elem_of_lookup_2|].
      by apply bool_decide_eq_true.
    + intros Hne Hsl. destruct (Hs Hne) as [[?|[? _]] _]; done.
  - intros s s'. revert s. generalize (). revert s'.
    assert (never (Proc.exit (KE := KE))) as Hn; [|intros ? ? ?; apply Hn].
    unfold Proc.exit, exit_table. do 2 (apply never_bind_r; intros ?).
    case_decide; [done|]. do 10 (apply never_bind_r; intros ?). apply never_sched.
Qed.

(** The result of one pass of [wait] by [me]. *)
Definition wait_post (c : core) (me : nat) (pm : proc) (v : Z) (c' : core) : Prop :=
  (∃ i p, ptable c !! i = Some p ∧ parent p = Some me ∧ state p = ZOMBIE ∧
     v = pid p ∧ ptable c' = <[i := reaped p]> (ptable c)) ∨
  (v = -1 ∧ c' = c ∧
   (killed pm ≠ 0 ∨ ∀ j p, ptable c !! j = Some p → parent p ≠ Some me) ∧
   ∀ j p, ptable c !! j = Some p → parent p = Some me → state p ≠ ZOMBIE).
Definition wait_sleeps (c : core) (me : nat) (pm : proc) (c' : core) : Prop :=
  killed pm = 0 ∧ (∃ j p, ptable c !! j = Some p ∧ parent p = Some me) ∧
  (∀ j p, ptable c !! j = Some p → parent p = Some me → state p ≠ ZOMBIE) ∧
  ptable c' = <[me := set_state SLEEPING (set_chan (Some (Ch_proc me)) pm)]> (ptable c) ∧
  locks c' = {[L_ptable]} ∪ locks c.

(** C28. [wait] collects a zombie child and returns its pid, freeing that slot and
    no other; without one it returns -1 and changes nothing when the caller has
    no children or was killed; otherwise it sleeps on the caller's own channel. *)
Theorem wait_correct c e me pm :
  runs c me pm →
  (∀ v c' e', wait (c, e) = Ret v (c', e') → wait_post c me pm v c') ∧
  (∀ c' e', wait (c, e) = Block (c', e') → wait_sleeps c me pm c').
Proof.
  intros R. pose proof R as (Hcur & Hme & _).
  assert (K : wlp wait (λ v s, wait_post c me pm v (fst s)) (λ s, wait_sleeps c me pm (fst s))
    (c, e)).
  { unfold wait. apply wlp_bind, wlp_acquire. simpl. intros Hl.
    eapply (wlp_wait_round me pm); [done|..]; simpl.
    - intros i p _ Hi Hp Hz. left. exists i, p. split_and!; try done.
      by apply alter_as_insert.
    - intros Hk Hz. right. split_and!; [done| |done..].
      destruct c as [lk ps np ip cu]. unfold set_locks; simpl in *.
      by rewrite locks_back.
    - intros Hk Hkid Hz. split_and!; try done. simpl.
      by apply (alter_as_insert (λ p, set_state SLEEPING (set_chan (Some (Ch_proc me)) p))). }
  split; intros; [by apply (wlp_keeps _ _ _ _ _ _ K H)|by apply (wlp_blocks _ _ _ _ _ K H)].
Qed.

(** [kill] of a pid: -1 and no change if no slot has it; otherwise the first
    slot with that pid is marked killed and made runnable if it slept, and 0 is
    returned. *)
Theorem kill_correct n c e :
  L_ptable ∉ locks c →
  kill n (c, e) =
    match find_pid n (ptable c) with
    | None => Ret (-1) (c, e)
    | Some i => Ret 0 (upd_proc i (λ p, let p := set_killed 1 p in
        if decide (state p = SLEEPING) then set_state RUNNABLE p else p) c, e)
    end.
Proof.
  intros Hl. unfold kill. erewrite bind_eq by (rewrite acquire_run, decide_False; done).
  erewrite bind_eq by done. simpl. destruct c as [lk ps np ip cu]. simpl in *.
  destruct (find_pid n ps) as [i|] eqn:Hf.
  - unfold find_pid in Hf. destruct (list_find _ ps) as [[j p]|] eqn:Hj; [|done].
    injection Hf as ->. apply list_find_Some in Hj as (Hi & _ & _).
    erewrite bind_eq by done. erewrite bind_eq.
    2:{ unfold getp. erewrite bind_eq by done. simpl. rewrite list_lookup_alter_eq, Hi.
        reflexivity. }
    cbn beta. change (state (set_killed 1 p)) with (state p).
    erewrite (bind_eq (when _ _)).
    2:{ unfold when. instantiate (1 := (mkCore ({[L_ptable]} ∪ lk) (alter (λ p,
          let p := set_killed 1 p in if decide (state p = SLEEPING) then set_state RUNNABLE p
          else p) i ps) np ip cu, e)). instantiate (1 := ()).
        case_bool_decide as Hs.
        - unfold setp, modc, modify, upd_proc, set_ptable, set_locks; simpl. do 3 f_equal.
          rewrite list_alter_alter_eq. apply list_alter_ext; [|done].
          intros q Hq. rewrite Hi in Hq. injection Hq as <-. simpl. by rewrite decide_True.
        - unfold upd_proc, set_ptable, set_locks, mret, M_ret; simpl. do 3 f_equal.
          apply list_alter_ext; [|done].
          intros q Hq. rewrite Hi in Hq. injection Hq as <-. simpl. by rewrite decide_False. }
    erewrite bind_eq by (rewrite release_run, decide_True; [done|simpl; set_solver]).
    simpl. unfold mret, M_ret, set_locks, upd_proc, set_ptable; simpl.
    by rewrite locks_back.
  - erewrite bind_eq by (rewrite release_run, decide_True; [done|simpl; set_solver]).
    unfold mret, M_ret, set_locks; simpl. by rewrite locks_back.
Qed.

End Steps.

(** ** A run of the first processes

    Over the environment [Tiny] with twenty pages: init is created, scheduled,
    enters user space, forks with 100 tickets, and waits. *)
Import Tiny.

Definition after {S A} (m : M S A) (s : S) : S :=
  match m s with Ret _ s' | Block s' => s' | _ => s end.

Definition run0 : core * T := after (userinit [144]) (core0, 20%nat).
Definition run1 : core * T := after scheduler_round run0.
Definition run2 : core * T := after (forkret true) run1.
Definition run3 : core * T := after (fork 100) run2.
Definition run4 : core * T := after wait run3.

Lemma run0_boot : userinit [144] (core0, 20%nat) = Ret () run0.
Proof. vm_compute. reflexivity. Qed.

Lemma run2_runs : runs (fst run2) 0 (default proc0 (ptable (fst run2) !! 0%nat)).
Proof. vm_compute. repeat split; reflexivity. Qed.

Lemma run3_runs : runs (fst run3) 0 (default proc0 (ptable (fst run3) !! 0%nat)).
Proof. vm_compute. repeat split; reflexivity. Qed.

Lemma run_steps : rtc pstep run0 run4.
Proof.
  apply (rtc_l _ _ run1).
  { apply (pstep_ret Op_sched); [by vm_compute|vm_compute; reflexivity]. }
  apply (rtc_l _ _ run2).
  { apply (pstep_ret (Op_forkret true)); [|vm_compute; reflexivity].
    eexists 0%nat, _. vm_compute. repeat split; reflexivity. }
  apply (rtc_l _ _ run3).
  { apply (pstep_ret (Op_fork 100)); [|vm_compute; reflexivity].
    split; [eexists _, _; apply run2_runs|vm_compute; reflexivity]. }
  apply (rtc_l _ _ run4); [|constructor].
  apply (pstep_block Op_wait); [|vm_compute; reflexivity].
  eexists _, _. apply run3_runs.
Qed.


Lemma process_table_invariant_witness : wf (fst run4).
Proof. exact (process_table_invariant _ _ _ _ run0_boot run_steps). Defined.


(** The child of [run4], scheduled and past its entry into user space, exits
    while its parent waits. *)
Definition run5 : core * T := after (forkret false) (after scheduler_round (after scheduler_back run4)).
Definition run6 : core * T := after (exit_table 1) run5.

Lemma run5_runs : runs (fst run5) 1 (default proc0 (ptable (fst run5) !! 1%nat)).
Proof. vm_compute. repeat split; reflexivity. Qed.

Lemma run5_wf : wf (fst run5).
Proof.
  apply (wf_steps run4).
  - apply (rtc_l _ _ (after scheduler_back run4)).
    { apply (pstep_ret Op_back); [|vm_compute; reflexivity].
      eexists 0%nat, _. vm_compute. repeat split. discriminate. }
    apply (rtc_l _ _ (after scheduler_round (after scheduler_back run4))); [|apply rtc_once].
    + apply (pstep_ret Op_sched); [by vm_compute|vm_compute; reflexivity].
    + apply (pstep_ret (Op_forkret false)); [|vm_compute; reflexivity].
      eexists 1%nat, _. vm_compute. repeat split; reflexivity.
  - apply (wf_steps run0 run4 run_steps). by apply (wf_userinit _ _ _ run0_boot).
Qed.

Lemma exit_correct_witness :
  exit_table 1 run5 = Block run6 ∧
  exit_post (fst run5) 1 (default proc0 (ptable (fst run5) !! 1%nat)) 0 (fst run6).
Proof.
  assert (H : exit_table 1 run5 = Block run6) by (vm_compute; reflexivity).
  split; [exact H|].
  apply (exit_correct (fst run5) (snd run5) 1 (default proc0 (ptable (fst run5) !! 1%nat)) 0
    run5_wf run5_runs eq_refl).
  destruct run5. exact H.
Defined.

(** The parent, switched to again, collects the zombie. *)
Definition run7 : core * T := after yield_resume (after scheduler_round (after scheduler_back run6)).

Lemma wait_correct_witness :
  wait run3 = Block run4 ∧
  wait_sleeps (fst run3) 0 (default proc0 (ptable (fst run3) !! 0%nat)) (fst run4) ∧
  wait run7 = Ret 2 (after wait run7) ∧
  wait_post (fst run7) 0 (default proc0 (ptable (fst run7) !! 0%nat)) 2 (fst (after wait run7)).
Proof.
  assert (H : wait run3 = Block run4) by (vm_compute; reflexivity).
  assert (H' : wait run7 = Ret 2 (after wait run7)) by (vm_compute; reflexivity).
  assert (R : runs (fst run7) 0 (default proc0 (ptable (fst run7) !! 0%nat)))
    by (vm_compute; repeat split; reflexivity).
  split_and!; [exact H| |exact H'|].
  - apply (wait_correct (fst run3) (snd run3) 0 _ run3_runs) with (e' := snd run4).
    destruct run3, run4. exact H.
  - apply (wait_correct (fst run7) (snd run7) 0 _ R) with (e' := snd (after wait run7)).
    destruct run7 as [c7 e7]. destruct (after wait (c7, e7)). exact H'.
Defined.

Lemma kill_correct_witness : kill 2 run3 = Ret 0
  (upd_proc 1 (λ p, let p := set_killed 1 p in
     if decide (state p = SLEEPING) then set_state RUNNABLE p else p) (fst run3), snd run3).
Proof.
  assert (Hl : L_ptable ∉ locks (fst run3)) by (vm_compute; intros H; discriminate H).
  assert (Hf : find_pid 2 (ptable (fst run3)) = Some 1%nat) by (vm_compute; reflexivity).
  pose proof (kill_correct 2 (fst run3) (snd run3) Hl) as H.
  rewrite Hf, <-surjective_pairing in H. exact H.
Defined.

(** A failed [fork] leaves its pid in the free slot, [kill] does not look at
    the state, and neither [allocproc] nor [fork] clears [killed]: with one free
    page [fork] fails on the page table, a [kill] of the pid it used up succeeds,
    and once memory is back the next [fork] makes a child born killed. *)
Theorem fork_born_killed :
  let s1 := after (fork 100) (fst run2, 1%nat) in
  let s2 := after (kill 2) s1 in
  let s3 := after (fork 100) (fst s2, 5%nat) in
  fork 100 (fst run2, 1%nat) = Ret (-1) s1 ∧ kill 2 s1 = Ret 0 s2 ∧
  fork 100 (fst s2, 5%nat) = Ret 3 s3 ∧
  (λ p, (state p, pid p, killed p)) <$> ptable (fst s3) !! 1%nat = Some (RUNNABLE, 3, 1).
Proof. vm_compute. repeat split; reflexivity. Qed.
