(* ===== verification/Kalloc.v ===== *)
(** * The physical page allocator (kalloc.c)

    Physical memory is the byte memory of [CString.Mem], addressed by kernel
    virtual address.  The free list lives in the free pages themselves, as in
    the code: each free page starts with the address of the next. *)
From S2P Require Import Prelude Spinlock Core CString.
Import Mem MemFacts.

(** ** Memory layout (memlayout.h, mmu.h) *)

Definition EXTMEM : Z := 0x100000.
Definition PHYSTOP : Z := 0xE000000.
Definition DEVSPACE : Z := 0xFE000000.
Definition KERNBASE : Z := 0x80000000.
Definition KERNLINK : Z := KERNBASE + EXTMEM.
Definition v2p (a : Z) : Z := u32 (a - KERNBASE).
Definition p2v (a : Z) : Z := u32 (a + KERNBASE).

Definition PGROUNDUP (sz : Z) : Z := Z.land (u32 (sz + PGSIZE - 1)) (u32 (Z.lnot (PGSIZE - 1))).
Definition PGROUNDDOWN (a : Z) : Z := Z.land a (u32 (Z.lnot (PGSIZE - 1))).

(** ** State: [kmem], the memory it lives in, and what vm.c keeps *)

(** [struct segdesc], and the registers and globals of vm.c on this CPU: [%cr3],
    the GDT, the ring-0 stack of the task state, [kpgdir]. *)
Record segdesc := mkSeg {
  lim_15_0 : Z; base_15_0 : Z; base_23_16 : Z; sg_type : Z; sg_s : Z; sg_dpl : Z; sg_p : Z;
  lim_19_16 : Z; sg_avl : Z; sg_rsv1 : Z; sg_db : Z; sg_g : Z; base_31_24 : Z }.
Record mmu := mkMmu {
  cr3 : Z; gdt : list segdesc; ts_ss0 : Z; ts_esp0 : Z; tr : Z; gs : Z; kpgdir : Z }.
Definition seg0 : segdesc := mkSeg 0 0 0 0 0 0 0 0 0 0 0 0 0.
Definition mmu0 : mmu := mkMmu 0 (replicate 7 seg0) 0 0 0 0 0.

Record pmem := mkPmem { pm_mem : mem; freelist : Z; use_lock : bool; regs : mmu }.
Definition set_mem m p := mkPmem m (freelist p) (use_lock p) (regs p).
Definition set_freelist f p := mkPmem (pm_mem p) f (use_lock p) (regs p).
Definition set_use_lock b p := mkPmem (pm_mem p) (freelist p) b (regs p).
Definition set_regs r p := mkPmem (pm_mem p) (freelist p) (use_lock p) r.

(** The environment [Ext] is the state of other components. *)
Section Kalloc.
Context {Ext : Type}.
Abbreviation K := (core * (pmem * Ext))%type.

(** [end]: the first address after the kernel, from the linker. *)
Context (kend : Z).

Definition getm {A} (f : pmem → A) : M K A := gets (λ s, f (fst (snd s))).
Definition modm (f : pmem → pmem) : M K unit :=
  modify (λ s, (fst s, (f (fst (snd s)), snd (snd s)))).

Definition kfree (v : Z) : M K unit :=
  if negb (v mod PGSIZE =? 0) || (v <? kend) || (PHYSTOP <=? v2p v) then panic "kfree" else
  modm (λ p, set_mem (memset (pm_mem p) v 1 PGSIZE) p) ;;
  ul ← getm use_lock;
  when ul (acquire L_kmem) ;;
  modm (λ p, set_mem (st32 (pm_mem p) v (freelist p)) p) ;;
  modm (set_freelist v) ;;
  when ul (release L_kmem).

Definition kalloc : M K Z :=
  ul ← getm use_lock;
  when ul (acquire L_kmem) ;;
  r ← getm freelist;
  when (negb (r =? 0)) (modm (λ p, set_freelist (ld32 (pm_mem p) r) p)) ;;
  when ul (release L_kmem) ;;
  mret r.

(** The loop of [freerange]; [fuel] bounds the number of rounds. *)
Fixpoint freerange_loop (fuel : nat) (p vend : Z) : M K unit :=
  match fuel with
  | O => fault
  | S f => if p + PGSIZE <=? vend then kfree p ;; freerange_loop f (p + PGSIZE) vend
           else mret ()
  end.
Definition freerange (vstart vend : Z) : M K unit :=
  let p := PGROUNDUP vstart in freerange_loop (S (Z.to_nat (vend / PGSIZE))) p vend.

Definition kinit1 (vstart vend : Z) : M K unit :=
  modm (set_use_lock false) ;; freerange vstart vend.
Definition kinit2 (vstart vend : Z) : M K unit :=
  freerange vstart vend ;; modm (set_use_lock true).

(** ** The free list *)

(** A page [kfree] accepts. *)
Definition page_ok (p : Z) : Prop :=
  p mod PGSIZE = 0 ∧ kend ≤ p ∧ p < KERNBASE + PHYSTOP.

(** From [h] the list of pages [l] is linked through their first words. *)
Fixpoint linked (m : mem) (h : Z) (l : list Z) : Prop :=
  match l with
  | [] => h = 0
  | p :: l' => h = p ∧ page_ok p ∧ linked m (ld32 m p) l'
  end.

(** The allocator's invariant: [l] are the free pages, each once. *)
Definition kmem_inv (p : pmem) (l : list Z) : Prop :=
  linked (pm_mem p) (freelist p) l ∧ NoDup l.

(** The lock can be taken. *)
Definition lock_free (c : core) (p : pmem) : Prop := use_lock p = true → L_kmem ∉ locks c.

Hypothesis kend_high : KERNBASE ≤ kend.

Lemma linked_ext m m' h l :
  (∀ p, p ∈ l → ld32 m' p = ld32 m p) → linked m h l → linked m' h l.
Proof.
  revert h. induction l as [|p l IH]; intros h He; simpl; [done|].
  intros (-> & Hp & Hl). split_and!; [done..|]. rewrite He by set_solver.
  apply IH; [|done]. set_solver.
Qed.

Lemma linked_ok m h l p : linked m h l → p ∈ l → page_ok p.
Proof.
  revert h. induction l as [|q l IH]; intros h; simpl; [set_solver|].
  intros (-> & Hq & Hl) [->|Hp]%elem_of_cons; eauto.
Qed.

Lemma pages_apart p q : page_ok p → page_ok q → p ≠ q → p + PGSIZE ≤ q ∨ q + PGSIZE ≤ p.
Proof.
  unfold page_ok, PGSIZE. intros (Hp & _) (Hq & _) Hne.
  pose proof (Z.div_mod p 4096). pose proof (Z.div_mod q 4096).
  assert (p / 4096 ≠ q / 4096) by lia. lia.
Qed.

Lemma page_ok_range p : page_ok p → 0 < p ∧ p + PGSIZE ≤ 2 ^ 32.
Proof. unfold page_ok, KERNBASE, PHYSTOP, PGSIZE in *. lia. Qed.

(** ** Runs *)

Lemma kfree_check v :
  0 ≤ v < 2 ^ 32 →
  negb (v mod PGSIZE =? 0) || (v <? kend) || (PHYSTOP <=? v2p v) = negb (bool_decide (page_ok v)).
Proof.
  intros Hv. unfold page_ok, v2p.
  destruct (Z.eqb_spec (v mod PGSIZE) 0); cbn [negb orb];
    [|by rewrite bool_decide_false by naive_solver].
  destruct (Z.ltb_spec v kend); cbn [orb]; [by rewrite bool_decide_false by lia|].
  rewrite u32_small by (unfold KERNBASE in *; lia).
  destruct (Z.leb_spec PHYSTOP (v - KERNBASE)).
  - by rewrite bool_decide_false by lia.
  - by rewrite bool_decide_true by lia.
Qed.

Lemma lock_cycle c p : lock_free c p → use_lock p = true →
  set_locks (({[L_kmem]} ∪ locks c) ∖ {[L_kmem]}) c = c.
Proof.
  intros Hl Hu. destruct c. unfold set_locks. simpl. f_equal.
  specialize (Hl Hu). simpl in Hl. set_solver.
Qed.

Definition kfreed (v : Z) (p : pmem) : pmem :=
  mkPmem (st32 (memset (pm_mem p) v 1 PGSIZE) v (freelist p)) v (use_lock p) (regs p).

Lemma kfree_run v c p x :
  lock_free c p → page_ok v → kfree v (c, (p, x)) = Ret () (c, (kfreed v p, x)).
Proof.
  intros Hl Hv. unfold kfree. rewrite kfree_check by (destruct Hv; unfold page_ok, KERNBASE, PHYSTOP in *; lia).
  rewrite bool_decide_true by done. cbn [negb].
  erewrite bind_eq by reflexivity. erewrite bind_eq by reflexivity.
  destruct p as [m f [|] r]; simpl.
  - unfold when. erewrite bind_eq.
    2:{ rewrite acquire_run, decide_False; [reflexivity|]. by apply Hl. }
    simpl. erewrite bind_eq by reflexivity. erewrite bind_eq by reflexivity.
    rewrite release_run, decide_True by set_solver. simpl.
    do 2 f_equal. by apply (lock_cycle c (mkPmem m f true r)).
  - reflexivity.
Qed.

Lemma kfree_panic v s : 0 ≤ v < 2 ^ 32 → ¬ page_ok v → kfree v s = Panic "kfree".
Proof.
  intros Hr Hv. unfold kfree. rewrite kfree_check by done. by rewrite bool_decide_false.
Qed.

Definition kalloced (p : pmem) : pmem :=
  if freelist p =? 0 then p else set_freelist (ld32 (pm_mem p) (freelist p)) p.

Lemma kalloc_run c p x :
  lock_free c p → kalloc (c, (p, x)) = Ret (freelist p) (c, (kalloced p, x)).
Proof.
  intros Hl. unfold kalloc, kalloced. destruct p as [m f [|] r]; simpl.
  - erewrite bind_eq by reflexivity. simpl. unfold when.
    erewrite bind_eq.
    2:{ rewrite acquire_run, decide_False; [reflexivity|]. by apply Hl. }
    simpl. erewrite bind_eq by reflexivity. simpl.
    pose proof (lock_cycle c (mkPmem m f true r) Hl eq_refl) as Hc.
    destruct (f =? 0); simpl.
    + erewrite bind_eq by reflexivity. erewrite bind_eq.
      2:{ rewrite release_run, decide_True; [reflexivity|set_solver]. }
      unfold mret, M_ret. simpl. unfold set_locks in *; simpl in *. by rewrite Hc.
    + erewrite bind_eq by reflexivity. erewrite bind_eq.
      2:{ rewrite release_run, decide_True; [reflexivity|set_solver]. }
      unfold mret, M_ret. simpl. unfold set_locks in *; simpl in *. by rewrite Hc.
  - unfold mbind, M_bind. simpl. by destruct (f =? 0).
Qed.

(** Memory outside the page. *)
Lemma kfreed_mem v p b :
  ¬ (v ≤ b < v + PGSIZE) → rd (pm_mem (kfreed v p)) b = rd (pm_mem p) b.
Proof.
  intros Hb. unfold PGSIZE in *. simpl. rewrite rd_st32 by lia.
  rewrite rd_memset by done. by rewrite decide_False.
Qed.

Lemma kfreed_inv v p l :
  kmem_inv p l → page_ok v → v ∉ l → 0 ≤ freelist p < 2 ^ 32 → kmem_inv (kfreed v p) (v :: l).
Proof.
  intros [Hl Hn] Hv Hvl Hf. split; [|by constructor]. simpl. split_and!; [done..|].
  rewrite ld32_st32 by done. eapply linked_ext; [|done].
  intros q Hq. apply ld32_ext. intros b Hb. apply (kfreed_mem v p).
  pose proof (linked_ok _ _ _ _ Hl Hq) as Hqo.
  destruct (pages_apart v q Hv Hqo) as [?|?]; [by intros ->|..]; unfold PGSIZE in *; lia.
Qed.

Lemma kmem_inv_head p l : kmem_inv p l → 0 ≤ freelist p < 2 ^ 32.
Proof.
  intros [Hl _]. destruct l as [|q l]; simpl in Hl; [lia|]. destruct Hl as (-> & Hq & _).
  pose proof (page_ok_range q Hq). unfold PGSIZE in *. lia.
Qed.

Lemma kalloced_inv p l :
  kmem_inv p l → kmem_inv (kalloced p) (tail l) ∧
  freelist p = default 0 (head l) ∧ pm_mem (kalloced p) = pm_mem p ∧
  use_lock (kalloced p) = use_lock p.
Proof.
  intros [Hl Hn]. unfold kalloced. destruct l as [|q l]; simpl in Hl |- *.
  - by rewrite Hl.
  - destruct Hl as (-> & Hq & Hl). pose proof (page_ok_range q Hq).
    destruct (Z.eqb_spec q 0); [lia|]. by inversion_clear Hn.
Qed.

(** ** Rounding *)

Lemma land_page_mask a : 0 ≤ a < 2 ^ 32 → Z.land a 0xFFFFF000 = a / PGSIZE * PGSIZE.
Proof.
  intros Ha. change 0xFFFFF000 with (Z.ldiff (Z.ones 32) (Z.ones 12)).
  transitivity (Z.ldiff (Z.land a (Z.ones 32)) (Z.ones 12)).
  { apply Z.bits_inj'. intros n Hn. rewrite !Z.land_spec, !Z.ldiff_spec, Z.land_spec.
    by rewrite andb_assoc. }
  rewrite Z.land_ones, Z.mod_small by lia. rewrite Z.ldiff_ones_r by lia.
  rewrite Z.shiftr_div_pow2, Z.shiftl_mul_pow2 by lia. done.
Qed.

Lemma PGROUNDDOWN_spec a : 0 ≤ a < 2 ^ 32 → PGROUNDDOWN a = a / PGSIZE * PGSIZE.
Proof. apply land_page_mask. Qed.

Lemma PGROUNDUP_spec a :
  0 ≤ a → a + PGSIZE ≤ 2 ^ 32 → PGROUNDUP a = (a + PGSIZE - 1) / PGSIZE * PGSIZE.
Proof.
  intros H1 H2. unfold PGROUNDUP. unfold PGSIZE in *. rewrite (u32_small (a + 4096 - 1)) by lia.
  apply (land_page_mask (a + 4096 - 1)). lia.
Qed.

(** ** freerange *)

(** The pages of the range, last freed first. *)
Fixpoint pages_from (p : Z) (n : nat) : list Z :=
  match n with O => [] | S n' => p :: pages_from (p + PGSIZE) n' end.

Lemma pages_from_elem p n q :
  q ∈ pages_from p n → p ≤ q ∧ q + PGSIZE ≤ p + PGSIZE * Z.of_nat n.
Proof.
  revert p. induction n as [|n IH]; intros p H; simpl in H; [by apply elem_of_nil in H|].
  unfold PGSIZE in *. apply elem_of_cons in H as [->|H]; [lia|].
  specialize (IH _ H). lia.
Qed.

Lemma freerange_loop_run fuel p vend c pm x l :
  lock_free c pm → kmem_inv pm l → p mod PGSIZE = 0 → kend ≤ p →
  vend ≤ KERNBASE + PHYSTOP → (∀ q, q ∈ l → q + PGSIZE ≤ p ∨ vend ≤ q) →
  vend < p + PGSIZE * (Z.of_nat fuel + 1) →
  ∃ pm', freerange_loop (S fuel) p vend (c, (pm, x)) = Ret () (c, (pm', x)) ∧
    kmem_inv pm' (rev (pages_from p (Z.to_nat ((vend - p) / PGSIZE))) ++ l) ∧
    use_lock pm' = use_lock pm ∧ regs pm' = regs pm ∧
    ∀ b, b < p ∨ vend ≤ b → rd (pm_mem pm') b = rd (pm_mem pm) b.
Proof.
  revert p pm l. induction fuel as [|fuel IH]; intros p pm l Hlk Hinv Hp Hk Hv Hl Hf.
  - exists pm. assert ((vend - p) / PGSIZE ≤ 0) as Hz.
    { destruct (Z_le_gt_dec p vend).
      - rewrite Z.div_small; [done|]. unfold PGSIZE in *. lia.
      - unfold PGSIZE in *. apply Z.lt_le_incl, Z.div_lt_upper_bound; lia. }
    replace (Z.to_nat ((vend - p) / PGSIZE)) with 0%nat by lia.
    cbn [freerange_loop]. rewrite (proj2 (Z.leb_gt (p + PGSIZE) vend)) by (unfold PGSIZE in *; lia). done.
  - remember (S fuel) as fuel1 eqn:Ef. cbn [freerange_loop]. subst fuel1. destruct (Z.leb_spec (p + PGSIZE) vend) as [Hle|Hlt].
    + assert (Hpo : page_ok p) by (unfold page_ok, PGSIZE in *; lia).
      rewrite (bind_eq _ _ _ _ _ (kfree_run p c pm x Hlk Hpo)).
      assert (Hpl : p ∉ l) by (intros Hin; destruct (Hl p Hin); unfold PGSIZE in *; lia).
      destruct (IH (p + PGSIZE) (kfreed p pm) (p :: l)) as (pm' & Hr & Hi & Hu & Hg & Hb); try done.
      * apply kfreed_inv; [done..|]. by eapply kmem_inv_head.
      * unfold PGSIZE in *. rewrite <-Hp. by rewrite Z.add_mod, Z_mod_same_full, Z.add_0_r, Zmod_mod by lia.
      * unfold PGSIZE in *. lia.
      * intros q [->|Hq]%elem_of_cons; [left; lia|]. destruct (Hl q Hq); unfold PGSIZE in *; lia.
      * unfold PGSIZE in *. lia.
      * exists pm'. split_and!; [done| |done|done|].
        2:{ intros b Hb'. rewrite Hb by (unfold PGSIZE in *; lia). apply kfreed_mem. unfold PGSIZE in *. lia. }
        assert ((vend - p) / PGSIZE = (vend - (p + PGSIZE)) / PGSIZE + 1) as Hd.
        { rewrite <-Z.div_add by done. f_equal. unfold PGSIZE. lia. }
        assert (0 ≤ (vend - (p + PGSIZE)) / PGSIZE) by (apply Z.div_pos; unfold PGSIZE in *; lia).
        rewrite Hd. replace (Z.to_nat ((vend - (p + PGSIZE)) / PGSIZE + 1))
          with (S (Z.to_nat ((vend - (p + PGSIZE)) / PGSIZE))) by lia.
        simpl. by rewrite <-app_assoc.
    + exists pm. assert ((vend - p) / PGSIZE ≤ 0) as Hz.
      { destruct (Z_le_gt_dec p vend).
        - rewrite Z.div_small; [done|]. unfold PGSIZE in *. lia.
        - unfold PGSIZE in *. apply Z.lt_le_incl, Z.div_lt_upper_bound; lia. }
      by replace (Z.to_nat ((vend - p) / PGSIZE)) with 0%nat by lia.
Qed.

Lemma PGROUNDUP_mod a : 0 ≤ a → a + PGSIZE ≤ 2 ^ 32 →
  PGROUNDUP a mod PGSIZE = 0 ∧ a ≤ PGROUNDUP a < a + PGSIZE.
Proof.
  intros H1 H2. rewrite PGROUNDUP_spec by done. unfold PGSIZE in *.
  rewrite Z.mod_mul by done. pose proof (Z.div_mod (a + 4096 - 1) 4096).
  pose proof (Z.mod_pos_bound (a + 4096 - 1) 4096). lia.
Qed.

(** C17. The allocator implements a stack of pages: [kalloc] pops the list of free
    pages (0 when it is empty) and leaves memory alone; [kfree] of a page of the
    allocator's range that is not free pushes it and touches no byte outside
    it; [kfree] of anything else panics.  No page is ever in the list twice. *)
Theorem allocator_correct c pm x l :
  lock_free c pm → kmem_inv pm l →
  (∃ pm', kalloc (c, (pm, x)) = Ret (default 0 (head l)) (c, (pm', x)) ∧
     kmem_inv pm' (tail l) ∧ pm_mem pm' = pm_mem pm ∧ use_lock pm' = use_lock pm) ∧
  (∀ v, page_ok v → v ∉ l →
     ∃ pm', kfree v (c, (pm, x)) = Ret () (c, (pm', x)) ∧ kmem_inv pm' (v :: l) ∧
       use_lock pm' = use_lock pm ∧
       ∀ b, ¬ (v ≤ b < v + PGSIZE) → rd (pm_mem pm') b = rd (pm_mem pm) b) ∧
  (∀ v, 0 ≤ v < 2 ^ 32 → ¬ page_ok v → kfree v (c, (pm, x)) = Panic "kfree").
Proof.
  intros Hl Hi. split_and!.
  - destruct (kalloced_inv pm l Hi) as (H1 & H2 & H3 & H4).
    exists (kalloced pm). rewrite kalloc_run, H2 by done. auto.
  - intros v Hv Hvl. exists (kfreed v pm). split_and!.
    + by apply kfree_run.
    + apply kfreed_inv; [done..|]. by eapply kmem_inv_head.
    + done.
    + intros b Hb. by apply kfreed_mem.
  - intros v Hv Hn. by apply kfree_panic.
Qed.

(** The whole pages from [v] to [e], in the order of the free list. *)
Definition pages_between (v e : Z) : list Z :=
  rev (pages_from (PGROUNDUP v) (Z.to_nat ((e - PGROUNDUP v) / PGSIZE))).

Lemma pages_between_elem v e p : 0 ≤ v → v + PGSIZE ≤ e → e ≤ 2 ^ 32 →
  p ∈ pages_between v e → PGROUNDUP v ≤ p ∧ p + PGSIZE ≤ e.
Proof.
  intros H0 Hve He Hp. apply list_elem_of_In, in_rev, list_elem_of_In in Hp. apply pages_from_elem in Hp.
  destruct (PGROUNDUP_mod v) as [_ B]; [lia..|].
  assert (0 ≤ (e - PGROUNDUP v) / PGSIZE) by (apply Z.div_pos; [lia|done]).
  rewrite Z2Nat.id in Hp by done.
  pose proof (Z.mul_div_le (e - PGROUNDUP v) PGSIZE ltac:(done)). lia.
Qed.

Lemma pages_from_all p n q : p mod PGSIZE = 0 → q mod PGSIZE = 0 → p ≤ q → q + PGSIZE ≤ p + PGSIZE * Z.of_nat n →
  q ∈ pages_from p n.
Proof.
  revert p. induction n as [|n IH]; intros p Hp Hq Hle Hn; simpl; [unfold PGSIZE in *; lia|].
  destruct (decide (q = p)) as [->|Hne]; [by left|right]. apply IH; [|done| |].
  - unfold PGSIZE in *. by rewrite Z.add_mod, Hp by done.
  - unfold PGSIZE in *. pose proof (Z.div_mod p 4096 ltac:(done)). pose proof (Z.div_mod q 4096 ltac:(done)). lia.
  - unfold PGSIZE in *. lia.
Qed.

Lemma pages_from_mod q n : ∀ p, q ∈ pages_from p n → p mod PGSIZE = 0 → q mod PGSIZE = 0.
Proof.
  induction n as [|n IH]; intros p Hq M; simpl in Hq; [by apply elem_of_nil in Hq|].
  apply elem_of_cons in Hq as [->|Hq]; [done|]. apply (IH (p + PGSIZE)); [done|].
  unfold PGSIZE in *. by rewrite Z.add_mod, M by done.
Qed.

Lemma pages_between_iff v e p : 0 ≤ v → v + PGSIZE ≤ e → e ≤ 2 ^ 32 →
  p ∈ pages_between v e ↔ p mod PGSIZE = 0 ∧ v ≤ p ∧ p + PGSIZE ≤ e.
Proof.
  intros H0 Hve He. destruct (PGROUNDUP_mod v) as [M B]; [lia..|].
  assert (Hz : 0 ≤ (e - PGROUNDUP v) / PGSIZE) by (apply Z.div_pos; [lia|done]).
  split.
  - intros Hp. split_and!; [|apply pages_between_elem in Hp; lia..].
    apply list_elem_of_In, in_rev, list_elem_of_In in Hp. by eapply pages_from_mod.
  - intros (Hm & Hv & He'). unfold pages_between. apply list_elem_of_In. rewrite <-in_rev. apply list_elem_of_In.
    apply pages_from_all; [done..| |].
    + unfold PGSIZE in *. pose proof (Z.div_mod p 4096 ltac:(done)). pose proof (Z.div_mod (PGROUNDUP v) 4096 ltac:(done)). lia.
    + rewrite Z2Nat.id by done. unfold PGSIZE in *.
      pose proof (Z.div_mod p 4096 ltac:(done)). pose proof (Z.div_mod (PGROUNDUP v) 4096 ltac:(done)).
      pose proof (Z.div_mod (e - PGROUNDUP v) 4096 ltac:(done)). pose proof (Z.mod_pos_bound (e - PGROUNDUP v) 4096 ltac:(done)).
      lia.
Qed.

Lemma pages_between_length v e : 0 ≤ v → v + PGSIZE ≤ e → e ≤ 2 ^ 32 →
  e - v < PGSIZE * (Z.of_nat (length (pages_between v e)) + 2).
Proof.
  intros H0 Hve He. destruct (PGROUNDUP_mod v) as [M B]; [lia..|].
  assert (Hl : ∀ n p, length (pages_from p n) = n) by (induction n as [|n IH]; intros; simpl; [done|by rewrite IH]).
  unfold pages_between. rewrite length_rev, Hl. assert (Hz : 0 ≤ (e - PGROUNDUP v) / PGSIZE) by (apply Z.div_pos; [lia|done]).
  rewrite Z2Nat.id by done. unfold PGSIZE in *.
  pose proof (Z.div_mod (e - PGROUNDUP v) 4096 ltac:(done)). pose proof (Z.mod_pos_bound (e - PGROUNDUP v) 4096 ltac:(done)). lia.
Qed.

Lemma freerange_run v e c pm x l :
  lock_free c pm → kmem_inv pm l → kend ≤ v → v + PGSIZE ≤ e → e ≤ KERNBASE + PHYSTOP →
  (∀ q, q ∈ l → q + PGSIZE ≤ v ∨ e ≤ q) →
  ∃ pm', freerange v e (c, (pm, x)) = Ret () (c, (pm', x)) ∧ kmem_inv pm' (pages_between v e ++ l) ∧
    use_lock pm' = use_lock pm ∧ regs pm' = regs pm ∧
    ∀ b, b < v ∨ e ≤ b → rd (pm_mem pm') b = rd (pm_mem pm) b.
Proof.
  intros Hl Hi Hk Hr He Hq. assert (K : KERNBASE + PHYSTOP < 2 ^ 32) by done.
  assert (Hs : 0 ≤ KERNBASE) by done.
  destruct (PGROUNDUP_mod v ltac:(lia) ltac:(unfold PGSIZE in *; lia)) as [M1 B1].
  destruct (freerange_loop_run (Z.to_nat (e / PGSIZE)) (PGROUNDUP v) e c pm x l)
    as (pm1 & R1 & I1 & U1 & G1 & F1); try done; try lia.
  { intros q Hq'. destruct (Hq q Hq'); lia. }
  { pose proof (Z.div_pos e PGSIZE ltac:(lia) ltac:(done)).
    rewrite Z2Nat.id by done. pose proof (Z.mul_succ_div_gt e PGSIZE ltac:(done)). lia. }
  exists pm1. split_and!; try done. intros b Hb. apply F1. lia.
Qed.

(** [kinit1] starts the free list, [kinit2] adds to it and turns locking on;
    neither writes outside of its range. *)
Lemma kinit1_run v e c pm x :
  freelist pm = 0 → kend ≤ v → v + PGSIZE ≤ e → e ≤ KERNBASE + PHYSTOP →
  ∃ pm', kinit1 v e (c, (pm, x)) = Ret () (c, (pm', x)) ∧ kmem_inv pm' (pages_between v e) ∧
    use_lock pm' = false ∧ regs pm' = regs pm ∧ ∀ b, b < v ∨ e ≤ b → rd (pm_mem pm') b = rd (pm_mem pm) b.
Proof.
  intros Hf Hk Hr He. destruct (freerange_run v e c (set_use_lock false pm) x []) as (pm' & R & I & U & G & F); try done.
  { split; [done|constructor]. } { by intros q ?%elem_of_nil. }
  rewrite app_nil_r in I. exists pm'. split_and!; try done.
Qed.
Lemma kinit2_run v e c pm x l :
  lock_free c pm → kmem_inv pm l → kend ≤ v → v + PGSIZE ≤ e → e ≤ KERNBASE + PHYSTOP →
  (∀ q, q ∈ l → q + PGSIZE ≤ v) →
  ∃ pm', kinit2 v e (c, (pm, x)) = Ret () (c, (pm', x)) ∧ kmem_inv pm' (pages_between v e ++ l) ∧
    use_lock pm' = true ∧ regs pm' = regs pm ∧ ∀ b, b < v ∨ e ≤ b → rd (pm_mem pm') b = rd (pm_mem pm) b.
Proof.
  intros Hl Hi Hk Hr He Hq. destruct (freerange_run v e c pm x l) as (pm' & R & I & U & G & F); try done.
  { intros q ?%Hq. by left. }
  exists (set_use_lock true pm'). split_and!; try done. unfold kinit2. by rewrite (bind_eq _ _ _ _ _ R).
Qed.

(** [kinit1] from an empty list puts every whole page of the range on the
    free list, once; [kinit2] adds those of its range and turns locking on. *)
Theorem kinit_correct c pm x v1 e1 v2 e2 :
  use_lock pm = false → freelist pm = 0 → kend ≤ v1 → v1 + PGSIZE ≤ e1 → e1 ≤ v2 →
  v2 + PGSIZE ≤ e2 → e2 ≤ KERNBASE + PHYSTOP →
  let l1 := rev (pages_from (PGROUNDUP v1) (Z.to_nat ((e1 - PGROUNDUP v1) / PGSIZE))) in
  let l2 := rev (pages_from (PGROUNDUP v2) (Z.to_nat ((e2 - PGROUNDUP v2) / PGSIZE))) in
  ∃ pm1 pm2, kinit1 v1 e1 (c, (pm, x)) = Ret () (c, (pm1, x)) ∧ kmem_inv pm1 l1 ∧
    kinit2 v2 e2 (c, (pm1, x)) = Ret () (c, (pm2, x)) ∧ kmem_inv pm2 (l2 ++ l1) ∧
    use_lock pm2 = true.
Proof.
  intros Hu Hf Hk1 Hr1 H12 Hr2 He2 l1 l2. assert (K : 0 ≤ KERNBASE ∧ KERNBASE + PHYSTOP < 2 ^ 32) by done.
  destruct (kinit1_run v1 e1 c pm x) as (pm1 & R1 & I1 & U1 & _ & _); try done; [unfold PGSIZE in *; lia|].
  destruct (kinit2_run v2 e2 c pm1 x l1) as (pm2 & R2 & I2 & U2 & _ & _); try done; try lia.
  { intros H. by rewrite U1 in H. } { unfold PGSIZE in *. lia. }
  { intros q Hq. apply (pages_between_elem v1 e1) in Hq; unfold PGSIZE in *; lia. }
  exists pm1, pm2. by split_and!.
Qed.

End Kalloc.

(** ** Concrete instances *)

Definition kend0 : Z := 0x80114000.
Definition pmem0 : pmem := mkPmem ∅ 0 false mmu0.

Lemma allocator_correct_witness :
  ∃ pm', kfree kend0 0x80200000 (core0, (pmem0, ())) = Ret () (core0, (pm', ())) ∧
    kmem_inv kend0 pm' [0x80200000] ∧ use_lock pm' = false ∧
    ∀ b, ¬ (0x80200000 ≤ b < 0x80200000 + PGSIZE) → rd (pm_mem pm') b = rd ∅ b.
Proof.
  assert (H : KERNBASE ≤ kend0) by done.
  destruct (allocator_correct kend0 H core0 pmem0 () []) as (_ & Hf & _).
  - by intros ?.
  - split; [done|constructor].
  - apply Hf; [|by intros ?%elem_of_nil]. by vm_compute.
Defined.

Lemma kinit_correct_witness :
  ∃ pm1 pm2, kinit1 kend0 0x80114000 0x80116000 (core0, (pmem0, ())) = Ret () (core0, (pm1, ())) ∧
    kmem_inv kend0 pm1 [0x80115000; 0x80114000] ∧
    kinit2 kend0 0x80116000 0x80118000 (core0, (pm1, ())) = Ret () (core0, (pm2, ())) ∧
    kmem_inv kend0 pm2 [0x80117000; 0x80116000; 0x80115000; 0x80114000] ∧ use_lock pm2 = true.
Proof.
  assert (H : KERNBASE ≤ kend0) by done.
  exact (kinit_correct kend0 H core0 pmem0 () 0x80114000 0x80116000 0x80116000 0x80118000
    eq_refl eq_refl ltac:(done) ltac:(done) ltac:(done) ltac:(done) ltac:(done)).
Defined.
