(* ===== verification/Vm.v ===== *)
(** * Page tables (vm.c, mmu.h)

    Page directories and tables are pages of the physical memory of [Kalloc];
    the functions read and write their entries as 32-bit words.  A null
    pointer is 0. *)
From S2P Require Import Prelude Spinlock Core CString Kalloc.
Import Mem MemFacts.

(** ** Entries *)

Definition PTE_P : Z := 1.
Definition PTE_W : Z := 2.
Definition PTE_U : Z := 4.
Definition PTE_ADDR (e : Z) : Z := Z.land e 0xFFFFF000.
Definition PTE_FLAGS (e : Z) : Z := Z.land e 0xFFF.
Definition PDX (va : Z) : Z := Z.land (Z.shiftr va 22) 0x3FF.
Definition PTX (va : Z) : Z := Z.land (Z.shiftr va 12) 0x3FF.
Definition NPDENTRIES : nat := 1024.
Definition NPTENTRIES : Z := 1024.

(** ** Segments *)

Definition SEG_KCODE : nat := 1.
Definition SEG_KDATA : nat := 2.
Definition SEG_KCPU : nat := 3.
Definition SEG_UCODE : nat := 4.
Definition SEG_UDATA : nat := 5.
Definition SEG_TSS : nat := 6.
Definition STA_X : Z := 8.
Definition STA_W : Z := 2.
Definition STA_R : Z := 2.
Definition STS_T32A : Z := 9.
Definition DPL_USER : Z := 3.

Definition SEG (type base lim dpl : Z) : segdesc :=
  mkSeg (Z.land (Z.shiftr lim 12) 0xffff) (Z.land base 0xffff)
    (Z.land (Z.shiftr base 16) 0xff) type 1 dpl 1
    (Z.shiftr lim 28) 0 0 1 1 (Z.shiftr base 24).
(** [SEG16] stores [lim >> 16] in a 4-bit field. *)
Definition SEG16 (type base lim dpl : Z) : segdesc :=
  mkSeg (Z.land lim 0xffff) (Z.land base 0xffff)
    (Z.land (Z.shiftr base 16) 0xff) type 1 dpl 1
    (Z.land (Z.shiftr lim 16) 0xf) 0 0 1 0 (Z.shiftr base 24).
Definition set_s (v : Z) (d : segdesc) : segdesc :=
  mkSeg (lim_15_0 d) (base_15_0 d) (base_23_16 d) (sg_type d) v (sg_dpl d) (sg_p d)
    (lim_19_16 d) (sg_avl d) (sg_rsv1 d) (sg_db d) (sg_g d) (base_31_24 d).

Section Vm.
Context {Ext : Type}.
Abbreviation K := (core * (pmem * Ext))%type.
(** Linker symbols; the addresses of this CPU's [cpu->cpu] and [cpu->ts];
    [readi], which copies file bytes to a kernel address. *)
Context (kend data cpu_addr ts_addr : Z).
Context (readi : nat → Z → Z → Z → M K Z).

Definition rd32 (a : Z) : M K Z := getm (λ p, ld32 (pm_mem p) a).
Definition wr32 (a v : Z) : M K unit := modm (λ p, set_mem (st32 (pm_mem p) a v) p).
Definition memset_k (a c n : Z) : M K unit := modm (λ p, set_mem (memset (pm_mem p) a c n) p).
Definition memmove_k (d s n : Z) : M K unit := modm (λ p, set_mem (memmove (pm_mem p) d s n) p).
Definition modregs (f : mmu → mmu) : M K unit := modm (λ p, set_regs (f (regs p)) p).

(** ** seginit *)

Definition seginit : M K unit :=
  modregs (λ r,
    let g := gdt r in
    let g := <[SEG_KCODE := SEG (Z.lor STA_X STA_R) 0 0xffffffff 0]> g in
    let g := <[SEG_KDATA := SEG STA_W 0 0xffffffff 0]> g in
    let g := <[SEG_UCODE := SEG (Z.lor STA_X STA_R) 0 0xffffffff DPL_USER]> g in
    let g := <[SEG_UDATA := SEG STA_W 0 0xffffffff DPL_USER]> g in
    let g := <[SEG_KCPU := SEG STA_W cpu_addr 8 0]> g in
    mkMmu (cr3 r) g (ts_ss0 r) (ts_esp0 r) (tr r)
      (Z.shiftl (Z.of_nat SEG_KCPU) 3) (kpgdir r)) ;;
  modc (set_cur None).

(** ** Walking *)

Definition walkpgdir (pgdir va : Z) (alloc : bool) : M K Z :=
  let pde := pgdir + 4 * PDX va in
  e ← rd32 pde;
  if negb (Z.land e PTE_P =? 0) then mret (p2v (PTE_ADDR e) + 4 * PTX va)
  else if negb alloc then mret 0 else
    pgtab ← kalloc;
    if pgtab =? 0 then mret 0 else
    memset_k pgtab 0 PGSIZE ;;
    wr32 pde (Z.lor (Z.lor (Z.lor (v2p pgtab) PTE_P) PTE_W) PTE_U) ;;
    mret (pgtab + 4 * PTX va).

(** The loop of [mappages]: it ends when [a] reaches [last], after at most the
    number of pages of the address space. *)
Fixpoint mappages_loop (fuel : nat) (pgdir a last pa perm : Z) : M K Z :=
  match fuel with
  | O => fault
  | S f =>
      pte ← walkpgdir pgdir a true;
      if pte =? 0 then mret (-1) else
      e ← rd32 pte;
      if negb (Z.land e PTE_P =? 0) then panic "remap" else
      wr32 pte (Z.lor (Z.lor pa perm) PTE_P) ;;
      if a =? last then mret 0
      else mappages_loop f pgdir (u32 (a + PGSIZE)) last (u32 (pa + PGSIZE)) perm
  end.
Definition mappages (pgdir va size pa perm : Z) : M K Z :=
  let a := PGROUNDDOWN va in
  let last := PGROUNDDOWN (u32 (va + size - 1)) in
  mappages_loop (S (Z.to_nat (u32 (last - a) / PGSIZE))) pgdir a last pa perm.

(** ** The kernel part *)

Record kmap_t := mkKmap { k_virt : Z; k_start : Z; k_end : Z; k_perm : Z }.
Definition kmap : list kmap_t :=
  [mkKmap KERNBASE 0 EXTMEM PTE_W;
   mkKmap KERNLINK (v2p KERNLINK) (v2p data) 0;
   mkKmap data (v2p data) PHYSTOP PTE_W;
   mkKmap DEVSPACE DEVSPACE 0 PTE_W].

Fixpoint map_kernel (ks : list kmap_t) (pgdir : Z) : M K Z :=
  match ks with
  | [] => mret pgdir
  | k :: ks' =>
      r ← mappages pgdir (k_virt k) (u32 (k_end k - k_start k)) (k_start k) (k_perm k);
      if r <? 0 then mret 0 else map_kernel ks' pgdir
  end.

Definition setupkvm : M K Z :=
  pgdir ← kalloc;
  if pgdir =? 0 then mret 0 else
  memset_k pgdir 0 PGSIZE ;;
  if DEVSPACE <? p2v PHYSTOP then panic "PHYSTOP too high" else
  map_kernel kmap pgdir.

Definition set_cr3 (v : Z) (r : mmu) : mmu :=
  mkMmu v (gdt r) (ts_ss0 r) (ts_esp0 r) (tr r) (gs r) (kpgdir r).

Definition switchkvm : M K unit := modregs (λ r, set_cr3 (v2p (kpgdir r)) r).

Definition kvmalloc : M K unit :=
  d ← setupkvm;
  modregs (λ r, mkMmu (cr3 r) (gdt r) (ts_ss0 r) (ts_esp0 r) (tr r) (gs r) d) ;;
  switchkvm.

(** [switchuvm], between its [pushcli] and [popcli], which keep interrupts out and
    change nothing it works on; [proc], whose kernel stack is
    used, is the process given by every caller. *)
Definition switchuvm (p : nat) : M K unit :=
  me ← myproc;
  ks ← getp me kstack;
  modregs (λ r, mkMmu (cr3 r)
    (<[SEG_TSS := set_s 0 (SEG16 STS_T32A ts_addr (104 - 1) 0)]> (gdt r))
    (Z.shiftl (Z.of_nat SEG_KDATA) 3) (u32 (ks + KSTACKSIZE))
    (Z.shiftl (Z.of_nat SEG_TSS) 3) (gs r) (kpgdir r)) ;;
  d ← getp p pgdir;
  if d =? 0 then panic "switchuvm: no pgdir" else modregs (set_cr3 (v2p d)).

(** ** User memory *)

(** The image is the list of its bytes. *)
Definition inituvm (pgdir : Z) (init : list Z) : M K unit :=
  if PGSIZE <=? Z.of_nat (length init) then panic "inituvm: more than a page" else
  mem ← kalloc;
  if mem =? 0 then fault else
  memset_k mem 0 PGSIZE ;;
  mappages pgdir 0 PGSIZE (v2p mem) (Z.lor PTE_W PTE_U) ;;
  modm (λ p, set_mem (wr_range (pm_mem p) mem init) p).

Fixpoint loaduvm_loop (fuel : nat) (pgdir addr : Z) (ip : nat) (offset sz i : Z) : M K Z :=
  match fuel with
  | O => fault
  | S f =>
      if i <? sz then
        pte ← walkpgdir pgdir (u32 (addr + i)) false;
        if pte =? 0 then panic "loaduvm: address should exist" else
        e ← rd32 pte;
        let pa := PTE_ADDR e in
        let n := if sz - i <? PGSIZE then sz - i else PGSIZE in
        r ← readi ip (p2v pa) (u32 (offset + i)) n;
        if negb (r =? n) then mret (-1)
        else loaduvm_loop f pgdir addr ip offset sz (i + PGSIZE)
      else mret 0
  end.
Definition loaduvm (pgdir addr : Z) (ip : nat) (offset sz : Z) : M K Z :=
  if negb (addr mod PGSIZE =? 0) then panic "loaduvm: addr must be page aligned" else
  loaduvm_loop (S (S (Z.to_nat (sz / PGSIZE)))) pgdir addr ip offset sz 0.

Fixpoint deallocuvm_loop (fuel : nat) (pgdir oldsz a : Z) : M K unit :=
  match fuel with
  | O => fault
  | S f =>
      if a <? oldsz then
        pte ← walkpgdir pgdir a false;
        if pte =? 0 then
          deallocuvm_loop f pgdir oldsz (u32 (u32 (a + (NPTENTRIES - 1) * PGSIZE) + PGSIZE))
        else
          e ← rd32 pte;
          (if negb (Z.land e PTE_P =? 0) then
             let pa := PTE_ADDR e in
             if pa =? 0 then panic "kfree" else
             kfree kend (p2v pa) ;; wr32 pte 0
           else mret ()) ;;
          deallocuvm_loop f pgdir oldsz (u32 (a + PGSIZE))
      else mret ()
  end.
Definition deallocuvm (pgdir oldsz newsz : Z) : M K Z :=
  if oldsz <=? newsz then mret oldsz else
  deallocuvm_loop (S (S (Z.to_nat (oldsz / PGSIZE)))) pgdir oldsz (PGROUNDUP newsz) ;;
  mret newsz.

Fixpoint allocuvm_loop (fuel : nat) (pgdir oldsz newsz a : Z) : M K Z :=
  match fuel with
  | O => fault
  | S f =>
      if a <? newsz then
        mem ← kalloc;
        if mem =? 0 then deallocuvm pgdir newsz oldsz ;; mret 0
        else
          memset_k mem 0 PGSIZE ;;
          mappages pgdir a PGSIZE (v2p mem) (Z.lor PTE_W PTE_U) ;;
          allocuvm_loop f pgdir oldsz newsz (u32 (a + PGSIZE))
      else mret newsz
  end.
(** Without the message it prints when memory is out. *)
Definition allocuvm (pgdir oldsz newsz : Z) : M K Z :=
  if KERNBASE <=? newsz then mret 0
  else if newsz <? oldsz then mret oldsz
  else allocuvm_loop (S (S (Z.to_nat (newsz / PGSIZE)))) pgdir oldsz newsz (PGROUNDUP oldsz).

Definition freevm (pgdir : Z) : M K unit :=
  if pgdir =? 0 then panic "freevm: no pgdir" else
  deallocuvm pgdir KERNBASE 0 ;;
  for_each (seq 0 NPDENTRIES) (λ i,
    e ← rd32 (pgdir + 4 * Z.of_nat i);
    when (negb (Z.land e PTE_P =? 0)) (kfree kend (p2v (PTE_ADDR e)))) ;;
  kfree kend pgdir.

Definition clearpteu (pgdir uva : Z) : M K unit :=
  pte ← walkpgdir pgdir uva false;
  if pte =? 0 then panic "clearpteu" else
  e ← rd32 pte;
  wr32 pte (Z.land e (u32 (Z.lnot PTE_U))).

(** On a failure the page just allocated for the copy is not freed. *)
Fixpoint copyuvm_loop (fuel : nat) (pgdir sz d i : Z) : M K Z :=
  match fuel with
  | O => fault
  | S f =>
      if i <? sz then
        pte ← walkpgdir pgdir i false;
        if pte =? 0 then panic "copyuvm: pte should exist" else
        e ← rd32 pte;
        if Z.land e PTE_P =? 0 then panic "copyuvm: page not present" else
        mem ← kalloc;
        if mem =? 0 then freevm d ;; mret 0 else
        memmove_k mem (p2v (PTE_ADDR e)) PGSIZE ;;
        r ← mappages d i PGSIZE (v2p mem) (PTE_FLAGS e);
        if r <? 0 then freevm d ;; mret 0
        else copyuvm_loop f pgdir sz d (u32 (i + PGSIZE))
      else mret d
  end.
Definition copyuvm (pgdir sz : Z) : M K Z :=
  d ← setupkvm;
  if d =? 0 then mret 0 else copyuvm_loop (S (S (Z.to_nat (sz / PGSIZE)))) pgdir sz d 0.

(** No test for a null [pte]. *)
Definition uva2ka (pgdir uva : Z) : M K Z :=
  pte ← walkpgdir pgdir uva false;
  if pte =? 0 then fault else
  e ← rd32 pte;
  if Z.land e PTE_P =? 0 then mret 0
  else if Z.land e PTE_U =? 0 then mret 0
  else mret (p2v (PTE_ADDR e)).

Fixpoint copyout_loop (fuel : nat) (pgdir va buf len : Z) : M K Z :=
  match fuel with
  | O => fault
  | S f =>
      if 0 <? len then
        let va0 := PGROUNDDOWN va in
        pa0 ← uva2ka pgdir va0;
        if pa0 =? 0 then mret (-1) else
        let n := PGSIZE - (va - va0) in
        let n := if len <? n then len else n in
        memmove_k (pa0 + (va - va0)) buf n ;;
        copyout_loop f pgdir (u32 (va0 + PGSIZE)) (buf + n) (len - n)
      else mret 0
  end.
Definition copyout (pgdir va p len : Z) : M K Z :=
  copyout_loop (S (S (S (Z.to_nat (len / PGSIZE))))) pgdir va p len.

End Vm.
