(* ===== verification/VmFacts.v ===== *)
(** * What page-table operations do (vm.c)

    A page table as a function from page numbers to entries, the invariant that
    keeps its pages apart from each other and from the free list, and the
    theorems about [mappages] and [copyout]. *)
From S2P Require Import Prelude Spinlock Core CString Kalloc Vm.
Import Mem MemFacts.

(** ** Bits *)

Lemma land_low q c : 0 ≤ c < 4096 → Z.land (q * 4096) c = 0.
Proof.
  intros Hc. apply Z.bits_inj'. intros n Hn. rewrite Z.land_spec, Z.bits_0.
  destruct (Z_lt_ge_dec n 12).
  - change 4096 with (2 ^ 12). by rewrite Z.mul_pow2_bits_low.
  - rewrite (Z.bits_above_log2 c n); [by rewrite andb_false_r|lia|].
    destruct (decide (c = 0)) as [->|]; [simpl; lia|].
    assert (Z.log2 c < 12) by (apply Z.log2_lt_pow2; lia). lia.
Qed.

Lemma lor_low q c : 0 ≤ c < 4096 → Z.lor (q * 4096) c = q * 4096 + c.
Proof. intros Hc. symmetry. apply Z.add_nocarry_lor. by apply land_low. Qed.

Lemma page_multiple p : p mod PGSIZE = 0 → p = (p / 4096) * 4096.
Proof. unfold PGSIZE. pose proof (Z.div_mod p 4096). lia. Qed.

Lemma PTE_ADDR_make p c :
  p mod PGSIZE = 0 → 0 ≤ p < 2 ^ 32 → 0 ≤ c < 4096 → PTE_ADDR (Z.lor p c) = p.
Proof.
  intros Hp Hr Hc. rewrite (page_multiple p Hp) in *. set (q := p / 4096) in *.
  rewrite lor_low by done. unfold PTE_ADDR. rewrite land_page_mask by lia. unfold PGSIZE.
  rewrite Z.div_add_l by done. rewrite (Z.div_small c) by lia. lia.
Qed.

Lemma odd_lor_1 x : Z.land (Z.lor x 1) PTE_P ≠ 0.
Proof.
  unfold PTE_P. intros H. assert (Z.testbit (Z.land (Z.lor x 1) 1) 0 = true) as Hb.
  { rewrite Z.land_spec, Z.lor_spec. change (Z.testbit 1 0) with true. by rewrite orb_true_r. }
  rewrite H in Hb. done.
Qed.

Lemma PDX_spec va : 0 ≤ va < 2 ^ 32 → PDX va = va / PGSIZE / 1024.
Proof.
  intros H. unfold PDX, PGSIZE. change 0x3FF with (Z.ones 10).
  rewrite Z.land_ones, Z.shiftr_div_pow2 by lia. rewrite Z.div_div by lia.
  apply Z.mod_small. split; [apply Z.div_pos; lia|]. apply Z.div_lt_upper_bound; lia.
Qed.

Lemma PTX_spec va : 0 ≤ va < 2 ^ 32 → PTX va = (va / PGSIZE) mod 1024.
Proof.
  intros H. unfold PTX, PGSIZE. change 0x3FF with (Z.ones 10).
  by rewrite Z.land_ones, Z.shiftr_div_pow2 by lia.
Qed.

(** ** A page table as a map *)

Definition pde (m : mem) (d i : Z) : Z := ld32 m (d + 4 * i).
Definition has (m : mem) (d i : Z) : Prop := Z.land (pde m d i) PTE_P ≠ 0.
#[export] Instance has_dec m d i : Decision (has m d i).
Proof. unfold has. apply _. Defined.
Definition tab (m : mem) (d i : Z) : Z := p2v (PTE_ADDR (pde m d i)).

(** The entry of page number [n]; 0 where there is no table. *)
Definition entry (m : mem) (d n : Z) : Z :=
  if decide (has m d (n / 1024)) then ld32 m (tab m d (n / 1024) + 4 * (n mod 1024)) else 0.

Definition dir_index (i : Z) : Prop := 0 ≤ i < 1024.

Lemma entry_index i j :
  dir_index j → (i * 1024 + j) / 1024 = i ∧ (i * 1024 + j) mod 1024 = j.
Proof.
  unfold dir_index. intros Hj. split.
  - rewrite Z.div_add_l by done. rewrite (Z.div_small j) by lia. lia.
  - rewrite (Z.add_comm (i * 1024) j), Z_mod_plus_full. by apply Z.mod_small.
Qed.

Lemma page_index n : 0 ≤ n < 2 ^ 20 → dir_index (n / 1024) ∧ dir_index (n mod 1024).
Proof.
  intros Hn. split; [|by apply Z.mod_pos_bound].
  split; [apply Z.div_pos; lia|]. apply Z.div_lt_upper_bound; lia.
Qed.

Section VmFacts.
Context {Ext : Type}.
Abbreviation K := (core * (pmem * Ext))%type.
Context (kend : Z) (kend_high : KERNBASE ≤ kend).

(** The directory and the tables are distinct pages, none of them free. *)
Record pt_ok (m : mem) (d : Z) (free : list Z) : Prop := {
  pt_dir : page_ok kend d ∧ d ∉ free;
  pt_tab i : dir_index i → has m d i →
    page_ok kend (tab m d i) ∧ tab m d i ∉ free ∧ tab m d i ≠ d;
  pt_inj i j : dir_index i → dir_index j → has m d i → has m d j →
    tab m d i = tab m d j → i = j }.

(** [p] is a page table of [d]. *)
Definition table_page (m : mem) (d p : Z) : Prop := ∃ i, dir_index i ∧ has m d i ∧ tab m d i = p.

Lemma table_page_pde m m' d :
  (∀ i, dir_index i → pde m' d i = pde m d i) → ∀ p, table_page m' d p ↔ table_page m d p.
Proof.
  intros H p. split; intros (i & Hi & Hh & <-); exists i; unfold has, tab in *;
    rewrite (H i Hi) in *; done.
Qed.

(** [b] is a byte of page [p]. *)
Definition in_page (p b : Z) : Prop := p ≤ b < p + PGSIZE.

(** [b] belongs to no page of the table and no free page. *)
Definition foreign (m : mem) (d : Z) (free : list Z) (b : Z) : Prop :=
  ¬ in_page d b ∧ (∀ i, dir_index i → has m d i → ¬ in_page (tab m d i) b) ∧
  ∀ p, p ∈ free → ¬ in_page p b.

Lemma pde_st32_page m d i p o v :
  page_ok kend d → page_ok kend p → p ≠ d → dir_index i → dir_index o →
  pde (st32 m (p + 4 * o) v) d i = pde m d i.
Proof.
  intros Hd Hp Hne Hi Ho. unfold pde. apply ld32_st32_ne. unfold dir_index in *.
  destruct (pages_apart kend p d Hp Hd Hne); unfold PGSIZE in *; lia.
Qed.

Lemma ld32_range m a : (∀ b, 0 ≤ rd m b < 256) → 0 ≤ ld32 m a < 2 ^ 32.
Proof.
  intros Hb. unfold ld32. pose proof (le_val_range (rd_range m a 4)) as H.
  rewrite rd_range_length in H. apply H. simpl. repeat constructor; apply Hb.
Qed.

(** *** Writing an entry *)

Lemma pt_write m d free i j v :
  pt_ok m d free → dir_index i → dir_index j → has m d i → 0 ≤ v < 2 ^ 32 →
  let m' := st32 m (tab m d i + 4 * j) v in
  (∀ k, dir_index k → pde m' d k = pde m d k) ∧ pt_ok m' d free ∧
  entry m' d (i * 1024 + j) = v ∧
  (∀ n, 0 ≤ n < 2 ^ 20 → n ≠ i * 1024 + j → entry m' d n = entry m d n) ∧
  (∀ p, p ∈ free → page_ok kend p → ld32 m' p = ld32 m p) ∧
  (∀ b, foreign m d free b → rd m' b = rd m b ∧ foreign m' d free b).
Proof.
  intros Hok Hi Hj Hhas Hv m'. pose proof (pt_dir _ _ _ Hok) as [Hd Hdf].
  destruct (pt_tab _ _ _ Hok i Hi Hhas) as (Ht & Htf & Htd).
  assert (Hpde : ∀ k, dir_index k → pde m' d k = pde m d k).
  { intros k Hk. by apply pde_st32_page. }
  assert (Hh : ∀ k, dir_index k → has m' d k ↔ has m d k).
  { intros k Hk. unfold has. by rewrite Hpde. }
  assert (Htb : ∀ k, dir_index k → tab m' d k = tab m d k).
  { intros k Hk. unfold tab. by rewrite Hpde. }
  split_and!; [done|..].
  - constructor; [done|..].
    + intros k Hk Hhk. rewrite Htb by done. apply (pt_tab _ _ _ Hok); [done|]. by apply Hh.
    + intros k l Hk Hl Hhk Hhl. rewrite !Htb by done.
      apply (pt_inj _ _ _ Hok); [done..|by apply Hh|by apply Hh].
  - assert (Hdiv : (i * 1024 + j) / 1024 = i ∧ (i * 1024 + j) mod 1024 = j).
    { by apply entry_index. }
    destruct Hdiv as [E1 E2]. unfold entry. rewrite E1, E2.
    rewrite decide_True by (by apply Hh). rewrite Htb by done. by apply ld32_st32.
  - intros n Hn Hne. unfold entry.
    assert (Hdi : dir_index (n / 1024)).
    { split; [apply Z.div_pos; lia|]. apply Z.div_lt_upper_bound; lia. }
    pose proof (Z.mod_pos_bound n 1024 ltac:(done)) as Hmod.
    pose proof (Z.div_mod n 1024 ltac:(done)) as Hdm.
    destruct (decide (has m d (n / 1024))) as [Hn'|Hn'].
    + rewrite decide_True by (by apply Hh). rewrite Htb by done.
      apply ld32_st32_ne. unfold dir_index in *.
      destruct (decide (n / 1024 = i)) as [Hni|Hni]; [rewrite Hni in *; lia|].
      destruct (pt_tab _ _ _ Hok _ Hdi Hn') as (Ht' & _).
      destruct (pages_apart kend (tab m d i) (tab m d (n / 1024)) Ht Ht');
        [|unfold PGSIZE in *; lia..].
      intros E. apply Hni. symmetry. by apply (pt_inj _ _ _ Hok).
    + rewrite decide_False; [done|]. by rewrite Hh.
  - intros p Hp Hpo. apply ld32_st32_ne. unfold dir_index in *.
    destruct (pages_apart kend (tab m d i) p Ht Hpo); [by intros <-|unfold PGSIZE in *; lia..].
  - intros b (Hb1 & Hb & Hb3). split.
    + apply rd_st32. specialize (Hb i Hi Hhas). unfold in_page in Hb.
      unfold dir_index, PGSIZE in *. lia.
    + split_and!; [done| |done]. intros k Hk Hhk. rewrite Htb by done. apply Hb; [done|].
      by apply Hh.
Qed.

(** *** Adding a table *)

Lemma ld32_memset0 m p o : 0 ≤ o → o + 4 ≤ PGSIZE → ld32 (memset m p 0 PGSIZE) (p + o) = 0.
Proof.
  intros H1 H2. unfold PGSIZE in *. unfold ld32. simpl rd_range.
  rewrite !rd_memset by done. rewrite !decide_True by lia. done.
Qed.

Lemma new_pde t : page_ok kend t →
  let e := Z.lor (Z.lor (Z.lor (v2p t) PTE_P) PTE_W) PTE_U in
  0 ≤ e < 2 ^ 32 ∧ Z.land e PTE_P ≠ 0 ∧ p2v (PTE_ADDR e) = t.
Proof.
  intros Ht e. unfold page_ok in Ht. assert (Hr : 0 ≤ v2p t < PHYSTOP ∧ v2p t = t - KERNBASE).
  { unfold v2p. rewrite u32_small by (unfold KERNBASE, PHYSTOP in *; lia). lia. }
  destruct Hr as [Hr Hv].
  assert (Hm : v2p t mod PGSIZE = 0).
  { rewrite Hv. unfold PGSIZE in *. rewrite Zminus_mod. destruct Ht as (-> & _). done. }
  assert (He : e = Z.lor (v2p t) 7) by (unfold e; by rewrite <-!Z.lor_assoc).
  assert (Hl : Z.lor (v2p t) 7 = v2p t + 7).
  { rewrite (page_multiple _ Hm) at 1. rewrite lor_low by done. by rewrite <-(page_multiple _ Hm). }
  rewrite He. split_and!.
  - lia.
  - unfold PHYSTOP in *. lia.
  - change 7 with (Z.lor 6 1). rewrite Z.lor_assoc. apply odd_lor_1.
  - rewrite PTE_ADDR_make; [|done|unfold PHYSTOP in *; lia|done].
    unfold p2v. rewrite u32_small by (unfold KERNBASE, PHYSTOP in *; lia). lia.
Qed.

Section Grow.
Context (m : mem) (d t : Z) (free : list Z) (i : Z).
Hypotheses (Hok : pt_ok m d (t :: free)) (Hnd : NoDup (t :: free)) (Ht : page_ok kend t)
  (Hi : dir_index i) (Hn : ¬ has m d i).
Let m' := st32 (memset m t 0 PGSIZE) (d + 4 * i) (Z.lor (Z.lor (Z.lor (v2p t) PTE_P) PTE_W) PTE_U).

Lemma grow_apart : t ≠ d ∧ t ∉ free ∧ page_ok kend d ∧ d ∉ free.
Proof.
  pose proof (pt_dir _ _ _ Hok) as [Hd Hdf]. split_and!; [|by inversion_clear Hnd|done|].
  - intros ->. apply Hdf. by left.
  - intros H. apply Hdf. by right.
Qed.

(** Words off the new table and off the new entry. *)
Lemma grow_other p o : page_ok kend p → p ≠ t → 0 ≤ o → o + 4 ≤ PGSIZE →
  (p = d → o + 4 ≤ 4 * i ∨ 4 * i + 4 ≤ o) → ld32 m' (p + o) = ld32 m (p + o).
Proof.
  intros Hpo Hpt Ho1 Ho2 Hpd. destruct grow_apart as (_ & _ & Hd & _).
  unfold m', dir_index in *. rewrite ld32_st32_ne.
  - apply ld32_ext. intros b Hb. rewrite rd_memset by done. rewrite decide_False; [done|].
    destruct (pages_apart kend p t Hpo Ht Hpt); lia.
  - destruct (decide (p = d)) as [->|Hne]; [destruct (Hpd eq_refl); lia|].
    destruct (pages_apart kend p d Hpo Hd Hne); unfold PGSIZE in *; lia.
Qed.

Lemma grow_new : has m' d i ∧ tab m' d i = t.
Proof.
  destruct (new_pde t Ht) as (_ & Hp & Ha). unfold has, tab.
  assert (E : pde m' d i = Z.lor (Z.lor (Z.lor (v2p t) PTE_P) PTE_W) PTE_U).
  { unfold pde, m'. rewrite ld32_st32; [done|]. apply new_pde, Ht. }
  by rewrite E.
Qed.

Lemma grow_old k : dir_index k → k ≠ i → (has m' d k ↔ has m d k) ∧ tab m' d k = tab m d k.
Proof.
  intros Hk Hne. destruct grow_apart as (Htd & _ & Hd & _). unfold has, tab.
  assert (E : pde m' d k = pde m d k).
  { unfold pde. unfold dir_index, PGSIZE in *. apply grow_other; unfold PGSIZE; try done; lia. }
  by rewrite E.
Qed.

Lemma grow_ok : pt_ok m' d free.
Proof.
  destruct grow_apart as (Htd & Htf & Hd & Hdf). destruct grow_new as [Hhi Hti].
  assert (Hx : ∀ k, dir_index k → k ≠ i → has m' d k → tab m' d k ≠ t).
  { intros k Hk Hne Hh. destruct (grow_old k Hk Hne) as [H1 ->]. apply H1 in Hh.
    destruct (pt_tab _ _ _ Hok k Hk Hh) as (_ & Hf & _). intros E. apply Hf. rewrite E. by left. }
  constructor.
  - done.
  - intros k Hk Hh. destruct (decide (k = i)) as [->|Hne]; [by rewrite Hti|].
    destruct (grow_old k Hk Hne) as [H1 ->]. apply H1 in Hh.
    destruct (pt_tab _ _ _ Hok k Hk Hh) as (? & Hf & ?). split_and!; [done| |done].
    intros Hin. apply Hf. by right.
  - intros k l Hk Hl Hh Hh' E. destruct (decide (k = i)) as [->|Hne], (decide (l = i)) as [->|Hne'].
    + done.
    + rewrite Hti in E. by destruct (Hx l).
    + rewrite Hti in E. by destruct (Hx k).
    + destruct (grow_old k Hk Hne) as [H1 E1], (grow_old l Hl Hne') as [H2 E2].
      rewrite E1, E2 in E. by apply (pt_inj _ _ _ Hok); try done; [apply H1|apply H2].
Qed.

Lemma grow_tables p : table_page m' d p ↔ p = t ∨ table_page m d p.
Proof.
  destruct grow_new as [Hhi Hti]. split.
  - intros (k & Hk & Hh & <-). destruct (decide (k = i)) as [->|Hne]; [by left|right].
    destruct (grow_old k Hk Hne) as [H1 ->]. exists k. split_and!; [done| |done]. by apply H1.
  - intros [->|(k & Hk & Hh & <-)]; [by exists i|]. destruct (decide (k = i)) as [->|Hne]; [done|].
    destruct (grow_old k Hk Hne) as [H1 <-]. exists k. split_and!; [done| |done]. by apply H1.
Qed.

Lemma grow_entry n : 0 ≤ n < 2 ^ 20 → entry m' d n = entry m d n.
Proof.
  intros Hn'. destruct (page_index n Hn') as [Hk Hj]. destruct grow_apart as (Htd & _ & Hd & _). unfold entry.
  destruct (decide (n / 1024 = i)) as [E|Hne].
  - destruct grow_new as [Hhi Hti]. rewrite E, decide_True, decide_False by done. rewrite Hti.
    unfold m', dir_index in *. rewrite ld32_st32_ne.
    + apply ld32_memset0; unfold PGSIZE; lia.
    + destruct (pages_apart kend t d Ht Hd Htd); unfold PGSIZE in *; lia.
  - destruct (grow_old _ Hk Hne) as [H1 ->]. destruct (decide (has m d (n / 1024))) as [Hh|Hh].
    + rewrite decide_True by (by apply H1).
      destruct (pt_tab _ _ _ Hok _ Hk Hh) as (? & Hf & ?).
      apply grow_other; unfold dir_index, PGSIZE in *; try done; try lia.
      intros E. apply Hf. rewrite E. by left.
    + rewrite decide_False; [done|]. by rewrite H1.
Qed.

Lemma grow_foreign b : foreign m d (t :: free) b → rd m' b = rd m b ∧ foreign m' d free b.
Proof.
  destruct grow_apart as (_ & _ & Hd & _). intros (Hb1 & Hb2 & Hb3). split.
  - unfold m'. rewrite rd_st32 by (unfold in_page, dir_index, PGSIZE in *; lia).
    rewrite rd_memset by done. rewrite decide_False; [done|].
    apply (Hb3 t). by left.
  - split_and!; [done| |].
    + intros k Hk Hh. destruct (decide (k = i)) as [->|Hne].
      * destruct grow_new as [_ ->]. apply Hb3. by left.
      * destruct (grow_old k Hk Hne) as [H1 ->]. apply Hb2; [done|]. by apply H1.
    + intros p Hp'. apply Hb3. by right.
Qed.

End Grow.

Lemma pt_grow m d t free i :
  pt_ok m d (t :: free) → NoDup (t :: free) → page_ok kend t → dir_index i → ¬ has m d i →
  let m' := st32 (memset m t 0 PGSIZE) (d + 4 * i)
              (Z.lor (Z.lor (Z.lor (v2p t) PTE_P) PTE_W) PTE_U) in
  has m' d i ∧ tab m' d i = t ∧ pt_ok m' d free ∧
  (∀ n, 0 ≤ n < 2 ^ 20 → entry m' d n = entry m d n) ∧
  (∀ p, p ∈ free → page_ok kend p → ld32 m' p = ld32 m p) ∧
  (∀ b, foreign m d (t :: free) b → rd m' b = rd m b ∧ foreign m' d free b) ∧
  (∀ p, table_page m' d p ↔ p = t ∨ table_page m d p) ∧
  (∀ k, dir_index k → has m' d k → has m d k ∨ k = i).
Proof.
  intros Hok Hnd Ht Hi Hn m'. destruct (grow_new m d t i) as [H1 H2]; [assumption..|].
  destruct (grow_apart m d t free i) as (Htd & Htf & _ & Hdf); [assumption..|].
  refine (conj H1 (conj H2 (conj _ (conj _ (conj _ (conj _ (conj _ _)))))));
    [by apply grow_ok|by eapply grow_entry| |by eapply grow_foreign|by eapply grow_tables|].
  2:{ intros k Hk Hh. destruct (decide (k = i)) as [|Hne]; [by right|left].
      by apply (grow_old m d t free i) in Hh. }
  intros p Hp Hpo. rewrite <-(Z.add_0_r p). eapply grow_other; unfold PGSIZE; try done.
  - by intros ->.
  - by intros ->.
Qed.

(** ** walkpgdir *)

(** The allocator and the table [d] in one memory. *)
Record vm_ok (pm : pmem) (d : Z) (free : list Z) : Prop := {
  vm_free : kmem_inv kend pm free;
  vm_pt : pt_ok (pm_mem pm) d free }.

(** [pm'] is [pm] after page-table operations on [d] that left every entry alone. *)
Record same_entries (d : Z) (pm pm' : pmem) (free free' : list Z) : Prop := {
  se_entry n : 0 ≤ n < 2 ^ 20 → entry (pm_mem pm') d n = entry (pm_mem pm) d n;
  se_foreign b : foreign (pm_mem pm) d free b →
    rd (pm_mem pm') b = rd (pm_mem pm) b ∧ foreign (pm_mem pm') d free' b;
  se_lock : use_lock pm' = use_lock pm;
  se_free : ∃ used, free = used ++ free';
  se_pages p : p ∈ free' ∨ table_page (pm_mem pm') d p ↔ p ∈ free ∨ table_page (pm_mem pm) d p }.

Lemma page_number va : 0 ≤ va < 2 ^ 32 → 0 ≤ va / PGSIZE < 2 ^ 20.
Proof.
  intros H. unfold PGSIZE. split; [apply Z.div_pos; lia|]. apply Z.div_lt_upper_bound; lia.
Qed.

Lemma walk_noalloc d va c pm (x : Ext) :
  walkpgdir d va false (c, (pm, x)) =
    Ret (if decide (has (pm_mem pm) d (PDX va)) then tab (pm_mem pm) d (PDX va) + 4 * PTX va else 0)
      (c, (pm, x)).
Proof.
  unfold walkpgdir, rd32, getm, gets, mbind, M_bind. simpl. unfold has, tab, pde.
  destruct (Z.eqb_spec (Z.land (ld32 (pm_mem pm) (d + 4 * PDX va)) PTE_P) 0) as [E|E].
  - by rewrite decide_False by auto.
  - by rewrite decide_True by auto.
Qed.

Lemma walk_alloc d va c pm (x : Ext) free :
  lock_free c pm → vm_ok pm d free → 0 ≤ va < 2 ^ 32 →
  ∃ r pm' free', walkpgdir d va true (c, (pm, x)) = Ret r (c, (pm', x)) ∧
    vm_ok pm' d free' ∧ same_entries d pm pm' free free' ∧
    (∀ i, dir_index i → has (pm_mem pm') d i → has (pm_mem pm) d i ∨ i = PDX va) ∧
    ((r = 0 ∧ free' = []) ∨
     (r ≠ 0 ∧ has (pm_mem pm') d (PDX va) ∧ r = tab (pm_mem pm') d (PDX va) + 4 * PTX va)).
Proof.
  intros Hlk [Hfree Hpt] Hva. pose proof (page_number va Hva) as Hpn.
  destruct (page_index _ Hpn) as [Hi Hj]. rewrite <-PDX_spec in Hi by done.
  rewrite <-PTX_spec in Hj by done. unfold walkpgdir.
  erewrite bind_eq by reflexivity. cbn beta. fold (pde (pm_mem pm) d (PDX va)).
  change (ld32 (pm_mem (fst (snd (c, (pm, x))))) (d + 4 * PDX va)) with (pde (pm_mem pm) d (PDX va)).
  destruct (Z.eqb_spec (Z.land (pde (pm_mem pm) d (PDX va)) PTE_P) 0) as [E|E]; cbn [negb].
  - assert (Hn : ¬ has (pm_mem pm) d (PDX va)) by (unfold has; auto).
    destruct (kalloced_inv kend kend_high pm free Hfree) as (Ha & Hr & Hm & Hu).
    rewrite (bind_eq _ _ _ _ _ (kalloc_run kend kend_high c pm x Hlk)). rewrite Hr.
    destruct free as [|t free]; simpl.
    + exists 0, (kalloced pm), []. split_and!; [done| | | |by left].
      * split; [done|]. by rewrite Hm.
      * split; rewrite ?Hm; auto. by exists [].
      * rewrite Hm. auto.
    + assert (Ht : page_ok kend t) by (eapply (linked_ok kend kend_high); [apply Hfree|by left]).
      pose proof (page_ok_range kend kend_high t Ht) as Hrange.
      destruct (Z.eqb_spec t 0); [lia|].
      assert (Hnd : NoDup (t :: free)) by apply Hfree.
      destruct (pt_grow _ _ _ _ _ Hpt Hnd Ht Hi Hn) as (H1 & H2 & H3 & H4 & H5 & H6 & H7 & H8).
      eexists _, (set_mem _ (kalloced pm)), free.
      split; [unfold mbind, M_bind, memset_k, wr32, modm, modify, mret, M_ret; simpl; by rewrite Hm|].
      rewrite ?Hm. split_and!.
      * split; [|exact H3]. destruct Ha as [Ha1 Ha2]. split; [|done]. simpl in *.
        rewrite Hm in Ha1. eapply (linked_ext kend kend_high); [|exact Ha1].
        intros p Hp. apply H5; [done|]. by eapply (linked_ok kend kend_high).
      * split; [exact H4|exact H6|done|by exists [t]|]. intros p. rewrite H7, elem_of_cons. tauto.
      * exact H8.
      * right. cbn [set_mem pm_mem]. split_and!; [|exact H1|by rewrite H2]. unfold dir_index in Hj. lia.
  - exists (tab (pm_mem pm) d (PDX va) + 4 * PTX va), pm, free.
    split_and!; [done|by split| |by auto|right].
    + split; auto. by exists [].
    + split_and!; [|done|done]. destruct (pt_tab _ _ _ Hpt _ Hi E) as (Ht & _).
      pose proof (page_ok_range kend kend_high _ Ht). unfold dir_index in Hj. lia.
Qed.

(** ** mappages *)

Lemma entry_word m d free va :
  pt_ok m d free → 0 ≤ va < 2 ^ 32 → has m d (PDX va) →
  entry m d (va / PGSIZE) = ld32 m (tab m d (PDX va) + 4 * PTX va).
Proof.
  intros Hok Hva Hh. unfold entry. rewrite <-PDX_spec, <-PTX_spec by done.
  by rewrite decide_True.
Qed.

Lemma page_number_parts va : 0 ≤ va < 2 ^ 32 → va / PGSIZE = PDX va * 1024 + PTX va.
Proof.
  intros H. rewrite PDX_spec, PTX_spec by done. pose proof (Z.div_mod (va / PGSIZE) 1024). lia.
Qed.

(** The pages of the list and the table are the same together, and the table's
    new pages are for directory entries in [I]. *)
Definition pages_moved (I : Z → Prop) (d : Z) (pm pm' : pmem) (free free' : list Z) : Prop :=
  (∀ p, p ∈ free' ∨ table_page (pm_mem pm') d p ↔ p ∈ free ∨ table_page (pm_mem pm) d p) ∧
  ∀ i, dir_index i → has (pm_mem pm') d i → has (pm_mem pm) d i ∨ I i.

Lemma pages_moved_trans I J L d pm pm1 pm2 free free1 free2 :
  pages_moved I d pm pm1 free free1 → pages_moved J d pm1 pm2 free1 free2 →
  (∀ i, I i → L i) → (∀ i, J i → L i) → pages_moved L d pm pm2 free free2.
Proof.
  intros [A1 A2] [B1 B2] HI HJ. split.
  - intros p. by rewrite B1, A1.
  - intros i Hi [[?|?%HI]%A2|?%HJ]%B2; auto.
Qed.

Lemma moved_first n a d pm pm' free free' :
  pages_moved (eq (a / PGSIZE / 1024)) d pm pm' free free' →
  pages_moved (λ i, ∃ k, 0 ≤ k ≤ Z.of_nat n ∧ i = (a / PGSIZE + k) / 1024) d pm pm' free free'.
Proof.
  intros [H1 H2]. split; [done|]. intros i Hi [?| <-]%H2; [by left|right|done].
  exists 0. rewrite Z.add_0_r. split; [lia|done].
Qed.

(** One round of the loop: the page gets its entry, or memory is out. *)
Lemma map_one d a pa perm c pm (x : Ext) free last f :
  lock_free c pm → vm_ok pm d free → 0 ≤ a < 2 ^ 32 → 0 ≤ pa < 2 ^ 32 → 0 ≤ perm < 4096 →
  Z.land (entry (pm_mem pm) d (a / PGSIZE)) PTE_P = 0 →
  ∃ pm' free', vm_ok pm' d free' ∧
    (∃ used, free = used ++ free') ∧
    pages_moved (eq (a / PGSIZE / 1024)) d pm pm' free free' ∧
    use_lock pm' = use_lock pm ∧
    (∀ b, foreign (pm_mem pm) d free b →
       rd (pm_mem pm') b = rd (pm_mem pm) b ∧ foreign (pm_mem pm') d free' b) ∧
    (∀ n, 0 ≤ n < 2 ^ 20 → n ≠ a / PGSIZE → entry (pm_mem pm') d n = entry (pm_mem pm) d n) ∧
    ((free' = [] ∧ entry (pm_mem pm') d (a / PGSIZE) = entry (pm_mem pm) d (a / PGSIZE) ∧
      mappages_loop (S f) d a last pa perm (c, (pm, x)) = Ret (-1) (c, (pm', x))) ∨
     (entry (pm_mem pm') d (a / PGSIZE) = Z.lor (Z.lor pa perm) PTE_P ∧
      mappages_loop (S f) d a last pa perm (c, (pm, x)) =
        if a =? last then Ret 0 (c, (pm', x))
        else mappages_loop f d (u32 (a + PGSIZE)) last (u32 (pa + PGSIZE)) perm (c, (pm', x)))).
Proof.
  intros Hlk Hok Ha Hpa Hperm Hnp.
  destruct (walk_alloc d a c pm x free Hlk Hok Ha) as (r & pm1 & free1 & Hw & Hok1 & Hse & Hhas & Hr).
  destruct Hse as [He Hf Hl Hu Hpg]. rewrite PDX_spec in Hhas by done. pose proof (page_number a Ha) as Hn.
  cbn [mappages_loop]. rewrite (bind_eq _ _ _ _ _ Hw).
  destruct Hr as [[-> ->]|(Hr0 & Hh & ->)].
  { exists pm1, []. split_and!; auto. split; [done|]. intros i Hi [?| ->]%Hhas; auto. }
  rewrite (proj2 (Z.eqb_neq _ _) Hr0). erewrite bind_eq by reflexivity.
  destruct (page_index _ Hn) as [Hi Hj]. rewrite <-PDX_spec in Hi by done.
  rewrite <-PTX_spec in Hj by done. destruct Hok1 as [Hfree1 Hpt1].
  assert (Hw32 : 0 ≤ Z.lor (Z.lor pa perm) PTE_P < 2 ^ 32).
  { split; [apply Z.lor_nonneg; split; [apply Z.lor_nonneg; lia|done]|].
    assert (Hlt : ∀ u w, 0 ≤ u < 2 ^ 32 → 0 ≤ w < 2 ^ 32 → Z.lor u w < 2 ^ 32).
    { intros u w Hu' Hw'. destruct (decide (Z.lor u w = 0)) as [->|]; [done|].
      apply Z.log2_lt_pow2; [pose proof (Z.lor_nonneg u w); lia|].
      rewrite Z.log2_lor by lia. apply Z.max_lub_lt.
      - destruct (decide (u = 0)) as [->|]; [done|]. apply Z.log2_lt_pow2; lia.
      - destruct (decide (w = 0)) as [->|]; [done|]. apply Z.log2_lt_pow2; lia. }
    apply Hlt; [|done]. split; [apply Z.lor_nonneg; lia|]. apply Hlt; lia. }
  destruct (pt_write _ _ _ _ _ _ Hpt1 Hi Hj Hh Hw32) as (W1 & W2 & W3 & W4 & W5 & W6).
  cbn beta. simpl (pm_mem _).
  change (ld32 (pm_mem (fst (snd (c, (pm1, x)))))) with (ld32 (pm_mem pm1)).
  rewrite <-(entry_word _ _ free1) by done. rewrite He, Hnp by done. cbn [negb Z.eqb].
  set (pm2 := set_mem (st32 (pm_mem pm1) (tab (pm_mem pm1) d (PDX a) + 4 * PTX a)
                (Z.lor (Z.lor pa perm) PTE_P)) pm1).
  exists pm2, free1. rewrite <-page_number_parts in W3, W4 by done.
  split_and!; [|done| |done| | |right; split; [exact W3|]].
  - split; [|exact W2]. destruct Hfree1 as [L N]. split; [|done]. simpl.
    eapply (linked_ext kend kend_high); [|exact L]. intros p Hp. apply W5; [done|].
    by eapply (linked_ok kend kend_high).
  - split.
    + intros p. rewrite <-Hpg. apply or_iff_compat_l. by apply table_page_pde.
    + intros i Hi' Hhi. destruct (Hhas i Hi') as [?| ->]; [|by left|by right]. unfold has in *. by rewrite <-W1.
  - intros b Hb. destruct (Hf b Hb) as [Hb1 Hb2]. destruct (W6 b Hb2) as [W6a W6b].
    split; [by rewrite <-Hb1|done].
  - intros n Hn' Hne. simpl. rewrite W4 by done. by apply He.
  - erewrite bind_eq by reflexivity. by destruct (a =? last).
Qed.

(** What mapping the [S n] pages from [a] on leaves: the pages taken, what stays,
    and the entries or the failure. *)
Definition mapped (n : nat) (d a pa perm : Z) (pm : pmem) (free : list Z)
    (pm' : pmem) (free' : list Z) (r : Z) : Prop :=
  vm_ok pm' d free' ∧ (∃ used, free = used ++ free') ∧
  pages_moved (λ i, ∃ k, 0 ≤ k ≤ Z.of_nat n ∧ i = (a / PGSIZE + k) / 1024) d pm pm' free free' ∧
  use_lock pm' = use_lock pm ∧
  (∀ b, foreign (pm_mem pm) d free b →
     rd (pm_mem pm') b = rd (pm_mem pm) b ∧ foreign (pm_mem pm') d free' b) ∧
  (∀ k, 0 ≤ k < 2 ^ 20 → ¬ (a / PGSIZE ≤ k ≤ a / PGSIZE + Z.of_nat n) →
     entry (pm_mem pm') d k = entry (pm_mem pm) d k) ∧
  ((r = -1 ∧ free' = []) ∨
   (r = 0 ∧ ∀ k, 0 ≤ k ≤ Z.of_nat n →
      entry (pm_mem pm') d (a / PGSIZE + k) = Z.lor (Z.lor (pa + k * PGSIZE) perm) PTE_P)).

Lemma next_page a : (a + PGSIZE) / PGSIZE = a / PGSIZE + 1.
Proof. unfold PGSIZE. by rewrite <-Z.div_add by done. Qed.

(** The first page mapped and then the others. *)
Lemma mapped_then n d a pa perm pm pm1 pm2 free free1 free2 r :
  0 ≤ a → a mod PGSIZE = 0 → a + Z.of_nat (S (S n)) * PGSIZE ≤ 2 ^ 32 →
  (∃ used, free = used ++ free1) →
  pages_moved (eq (a / PGSIZE / 1024)) d pm pm1 free free1 →
  use_lock pm1 = use_lock pm →
  (∀ b, foreign (pm_mem pm) d free b →
     rd (pm_mem pm1) b = rd (pm_mem pm) b ∧ foreign (pm_mem pm1) d free1 b) →
  (∀ k, 0 ≤ k < 2 ^ 20 → k ≠ a / PGSIZE → entry (pm_mem pm1) d k = entry (pm_mem pm) d k) →
  entry (pm_mem pm1) d (a / PGSIZE) = Z.lor (Z.lor pa perm) PTE_P →
  mapped n d (a + PGSIZE) (pa + PGSIZE) perm pm1 free1 pm2 free2 r →
  mapped (S n) d a pa perm pm free pm2 free2 r.
Proof.
  intros Ha0 Ham Har [u1 ->] HP H3 H4 H5 He (R2 & [u2 ->] & RP & R4 & R5 & R6 & R7).
  pose proof (page_number a) as Hpn. pose proof (next_page a) as Hdiv. unfold mapped. split_and!; try done.
  - exists (u1 ++ u2). by rewrite app_assoc.
  - eapply pages_moved_trans; [exact HP|exact RP|..].
    + intros i <-. exists 0. rewrite Z.add_0_r. split; [lia|done].
    + intros i (k & Hk & ->). exists (k + 1). split; [lia|]. f_equal. lia.
  - congruence.
  - intros b Hb. destruct (H4 b Hb) as [<- Hb2]. by apply R5.
  - intros k Hk Hnk. rewrite R6, H5 by lia. done.
  - destruct R7 as [?|[-> R7]]; [by left|right]. split; [done|]. intros k Hk.
    destruct (decide (k = 0)) as [->|Hk0].
    + rewrite Z.add_0_r, Z.mul_0_l, Z.add_0_r. rewrite R6; [done| |lia].
      apply page_number. unfold PGSIZE in *. lia.
    + replace (a / PGSIZE + k) with ((a + PGSIZE) / PGSIZE + (k - 1)) by lia.
      rewrite R7 by lia. do 2 f_equal. unfold PGSIZE. lia.
Qed.

Lemma map_many n d a pa perm c pm (x : Ext) free :
  lock_free c pm → vm_ok pm d free → 0 ≤ a → a mod PGSIZE = 0 →
  a + Z.of_nat (S n) * PGSIZE ≤ 2 ^ 32 → 0 ≤ pa → pa + Z.of_nat (S n) * PGSIZE ≤ 2 ^ 32 →
  0 ≤ perm < 4096 →
  (∀ k, 0 ≤ k ≤ Z.of_nat n → Z.land (entry (pm_mem pm) d (a / PGSIZE + k)) PTE_P = 0) →
  ∃ pm' free' r,
    mappages_loop (S n) d a (a + Z.of_nat n * PGSIZE) pa perm (c, (pm, x)) = Ret r (c, (pm', x)) ∧
    mapped n d a pa perm pm free pm' free' r.
Proof.
  revert a pa pm free. induction n as [|n IH];
    intros a pa pm free Hlk Hok Ha0 Ham Har Hpa Hpar Hperm Hnp.
  - destruct (map_one d a pa perm c pm x free (a + 0 * PGSIZE) 0) as
      (pm1 & free1 & H1 & H2 & HP & H3 & H4 & H5 & H6); try done; try (unfold PGSIZE in *; lia).
    { specialize (Hnp 0). rewrite Z.add_0_r in Hnp. apply Hnp. lia. }
    apply (moved_first 0) in HP.
    rewrite Z.add_0_r, Z.eqb_refl in H6. change (Z.of_nat 0) with 0. unfold mapped.
    destruct H6 as [(-> & _ & Hr)|[He Hr]].
    + exists pm1, [], (-1). rewrite Z.add_0_r. split_and!; try done; [|by left].
      intros k Hk Hne. apply H5; [done|lia].
    + exists pm1, free1, 0. rewrite Z.add_0_r. split_and!; try done.
      * intros k Hk Hne. apply H5; [done|lia].
      * right. split; [done|]. intros k Hk. assert (k = 0) as -> by lia.
        by rewrite Z.add_0_r, He, Z.mul_0_l, Z.add_0_r.
  - destruct (map_one d a pa perm c pm x free (a + Z.of_nat (S n) * PGSIZE) (S n)) as
      (pm1 & free1 & H1 & H2 & HP & H3 & H4 & H5 & H6); try done; try (unfold PGSIZE in *; lia).
    { specialize (Hnp 0). rewrite Z.add_0_r in Hnp. apply Hnp. lia. }
    rewrite (proj2 (Z.eqb_neq a (a + Z.of_nat (S n) * PGSIZE))) in H6 by (unfold PGSIZE; lia).
    destruct H6 as [(-> & _ & Hr)|[He Hr]].
    + apply (moved_first (S n)) in HP. exists pm1, [], (-1). unfold mapped. split_and!; try done; [|by left].
      intros k Hk Hnk. apply H5; [done|lia].
    + rewrite !u32_small in Hr by (unfold PGSIZE in *; lia).
      destruct (IH (a + PGSIZE) (pa + PGSIZE) pm1 free1) as (pm2 & free2 & r & R1 & R); try done;
        try (unfold PGSIZE in *; lia).
      * unfold lock_free in *. by rewrite H3.
      * unfold PGSIZE in *. by rewrite Z.add_mod, Ham by done.
      * intros k Hk. rewrite next_page. unfold PGSIZE in *. rewrite H5; [|split|lia].
        -- rewrite <-Z.add_assoc. apply Hnp. lia.
        -- pose proof (Z.div_pos a 4096). lia.
        -- assert (a / 4096 + (Z.of_nat n + 1) < 2 ^ 20); [|lia].
           rewrite <-Z.div_add by done. apply Z.div_lt_upper_bound; lia.
      * exists pm2, free2, r. split; [|by eapply (mapped_then n d a pa perm pm pm1)]. rewrite Hr, <-R1.
        f_equal. unfold PGSIZE. lia.
Qed.

(** The last page of a range of [n]. *)
Lemma last_page va n :
  0 ≤ va → va mod PGSIZE = 0 → 0 < n → va + n * PGSIZE ≤ 2 ^ 32 →
  PGROUNDDOWN va = va ∧ PGROUNDDOWN (u32 (va + n * PGSIZE - 1)) = va + (n - 1) * PGSIZE.
Proof.
  intros Hva Hal Hn Hhi.
  assert (E1 : va / PGSIZE * PGSIZE = va) by (rewrite (page_multiple va Hal) at 2; done).
  rewrite !PGROUNDDOWN_spec; [|apply u32_range|unfold PGSIZE in *; lia].
  split; [done|]. rewrite u32_small by (unfold PGSIZE in *; lia).
  replace (va + n * PGSIZE - 1) with ((va / PGSIZE + (n - 1)) * PGSIZE + (PGSIZE - 1)).
  - rewrite Z.div_add_l by done. rewrite (Z.div_small (PGSIZE - 1)) by done.
    rewrite <-E1 at 2. lia.
  - rewrite <-E1 at 2. unfold PGSIZE. lia.
Qed.

Lemma mappages_run d va n pa perm c pm (x : Ext) free :
  lock_free c pm → vm_ok pm d free →
  0 ≤ va → va mod PGSIZE = 0 → 0 < n → va + n * PGSIZE ≤ 2 ^ 32 →
  0 ≤ pa → pa + n * PGSIZE ≤ 2 ^ 32 → 0 ≤ perm < 4096 →
  (∀ k, 0 ≤ k < n → Z.land (entry (pm_mem pm) d (va / PGSIZE + k)) PTE_P = 0) →
  ∃ r pm' free', mappages d va (n * PGSIZE) pa perm (c, (pm, x)) = Ret r (c, (pm', x)) ∧
    mapped (Z.to_nat (n - 1)) d va pa perm pm free pm' free' r.
Proof.
  intros Hlk Hok Hva Hal Hn Hhi Hpa Hpahi Hperm Hnp.
  destruct (map_many (Z.to_nat (n - 1)) d va pa perm c pm x free Hlk Hok Hva Hal)
    as (pm' & free' & r & H1 & H2); try lia.
  1,2: unfold PGSIZE in *; lia.
  { intros k Hk. apply Hnp. lia. }
  rewrite Z2Nat.id in H1 by lia. exists r, pm', free'. split; [|done].
  unfold mappages. destruct (last_page va n Hva Hal Hn Hhi) as [-> ->].
  rewrite u32_small by (unfold PGSIZE in *; lia).
  replace (va + (n - 1) * PGSIZE - va) with ((n - 1) * PGSIZE) by lia. by rewrite Z.div_mul.
Qed.

(** One page. *)
Lemma mappages_one d va pa perm c pm (x : Ext) free :
  lock_free c pm → vm_ok pm d free → 0 ≤ va → va mod PGSIZE = 0 → va + PGSIZE ≤ 2 ^ 32 →
  0 ≤ pa → pa + PGSIZE ≤ 2 ^ 32 → 0 ≤ perm < 4096 →
  Z.land (entry (pm_mem pm) d (va / PGSIZE)) PTE_P = 0 →
  ∃ r pm' free', mappages d va PGSIZE pa perm (c, (pm, x)) = Ret r (c, (pm', x)) ∧
    mapped 0 d va pa perm pm free pm' free' r ∧
    (r = -1 → entry (pm_mem pm') d (va / PGSIZE) = entry (pm_mem pm) d (va / PGSIZE)).
Proof.
  intros Hlk Hok Hva Hal Hhi Hpa Hpahi Hperm Hnp.
  destruct (last_page va 1 Hva Hal ltac:(done) ltac:(unfold PGSIZE in *; lia)) as [E1 E2].
  rewrite Z.mul_1_l, Z.sub_diag, Z.mul_0_l, Z.add_0_r in E2.
  unfold mappages. rewrite E1, E2, Z.sub_diag. change (S (Z.to_nat (u32 0 / PGSIZE))) with 1%nat.
  destruct (map_one d va pa perm c pm x free va 0) as
    (pm1 & free1 & H1 & H2 & HP & H3 & H4 & H5 & H6); try done; try (unfold PGSIZE in *; lia).
  rewrite Z.eqb_refl in H6. apply (moved_first 0) in HP.
  assert (Ho : ∀ k, 0 ≤ k < 2 ^ 20 → ¬ (va / PGSIZE ≤ k ≤ va / PGSIZE + Z.of_nat 0) →
    entry (pm_mem pm1) d k = entry (pm_mem pm) d k).
  { intros k Hk Hnk. apply H5; [done|lia]. }
  destruct H6 as [(-> & He & R)|[He R]]; eexists _, pm1, _; (split; [exact R|]); unfold mapped.
  - split_and!; try done. by left.
  - split_and!; try done. right. split; [done|]. intros k Hk. assert (k = 0) as -> by lia.
    by rewrite Z.add_0_r, He, Z.mul_0_l, Z.add_0_r.
Qed.

(** C16. [mappages] of [n] unmapped pages: either it returns 0 and exactly these
    pages get the entry of their physical page, or it returns -1 and memory has
    run out; in both cases no other page number changes its entry, new table
    pages come off the free list, the table and the free list stay disjoint,
    and no byte outside them changes. *)
Theorem mappages_correct d va n pa perm c pm (x : Ext) free :
  lock_free c pm → vm_ok pm d free →
  0 ≤ va → va mod PGSIZE = 0 → 0 < n → va + n * PGSIZE ≤ 2 ^ 32 →
  0 ≤ pa → pa + n * PGSIZE ≤ 2 ^ 32 → 0 ≤ perm < 4096 →
  (∀ k, 0 ≤ k < n → Z.land (entry (pm_mem pm) d (va / PGSIZE + k)) PTE_P = 0) →
  ∃ r pm' free', mappages d va (n * PGSIZE) pa perm (c, (pm, x)) = Ret r (c, (pm', x)) ∧
    vm_ok pm' d free' ∧ (∃ used, free = used ++ free') ∧
    (∀ b, foreign (pm_mem pm) d free b → rd (pm_mem pm') b = rd (pm_mem pm) b) ∧
    (∀ k, 0 ≤ k < 2 ^ 20 → ¬ (va / PGSIZE ≤ k < va / PGSIZE + n) →
       entry (pm_mem pm') d k = entry (pm_mem pm) d k) ∧
    ((r = -1 ∧ free' = []) ∨
     (r = 0 ∧ ∀ k, 0 ≤ k < n →
        entry (pm_mem pm') d (va / PGSIZE + k) = Z.lor (Z.lor (pa + k * PGSIZE) perm) PTE_P)).
Proof.
  intros Hlk Hok Hva Hal Hn Hhi Hpa Hpahi Hperm Hnp.
  destruct (mappages_run d va n pa perm c pm x free)
    as (r & pm' & free' & H1 & H2 & H3 & _ & H4 & H5 & H6 & H7); try done.
  rewrite Z2Nat.id in H6, H7 by lia. exists r, pm', free'. split_and!; try done.
  - intros b Hb. by apply H5.
  - intros k Hk Hnk. apply H6; [done|lia].
  - destruct H7 as [?|[-> H7]]; [by left|right]. split; [done|]. intros k Hk. apply H7. lia.
Qed.

(** ** copyout *)

(** The kernel address of user address [a], and what makes it writable. *)
Definition frame (m : mem) (d a : Z) : Z := p2v (PTE_ADDR (entry m d (a / PGSIZE))).
Definition user_addr (m : mem) (d a : Z) : Prop :=
  has m d (PDX a) ∧ Z.land (entry m d (a / PGSIZE)) PTE_P ≠ 0 ∧
  Z.land (entry m d (a / PGSIZE)) PTE_U ≠ 0.
Definition ka (m : mem) (d a : Z) : Z := frame m d a + a mod PGSIZE.

(** User range [va, va + len) can be written from [buf]: it is mapped for the
    user on distinct pages that are not the table's and do not hold [buf]. *)
Record writable (m : mem) (d va buf len : Z) : Prop := {
  wr_user a : va ≤ a < va + len → user_addr m d a ∧ page_ok kend (frame m d a);
  wr_apart a b : va ≤ a < va + len → in_page (frame m d a) b → foreign m d [] b;
  wr_inj a a' : va ≤ a < va + len → va ≤ a' < va + len → frame m d a = frame m d a' →
    a / PGSIZE = a' / PGSIZE;
  wr_buf a k : va ≤ a < va + len → 0 ≤ k < len → ¬ in_page (frame m d a) (buf + k) }.

(** Writes to foreign bytes do not change the table. *)
Lemma table_frame m m' d :
  (∀ b, ¬ foreign m d [] b → rd m' b = rd m b) →
  (∀ i, dir_index i → pde m' d i = pde m d i) ∧
  (∀ n, 0 ≤ n < 2 ^ 20 → entry m' d n = entry m d n) ∧
  (∀ b, foreign m' d [] b ↔ foreign m d [] b).
Proof.
  intros H.
  assert (P : ∀ i, dir_index i → pde m' d i = pde m d i).
  { intros i Hi. unfold pde. apply ld32_ext. intros b Hb. apply H. intros (Hf & _).
    unfold in_page, dir_index, PGSIZE in *. lia. }
  split_and!; [done|..].
  - intros n Hn. destruct (page_index n Hn) as [Hi Hj]. unfold entry.
    assert (Hhh : has m' d (n / 1024) ↔ has m d (n / 1024)) by (unfold has; by rewrite P).
    assert (Htt : tab m' d (n / 1024) = tab m d (n / 1024)) by (unfold tab; by rewrite P).
    rewrite Htt. destruct (decide (has m d (n / 1024))) as [Hh|Hh];
      [rewrite decide_True by (by apply Hhh)|by rewrite decide_False by (by rewrite Hhh)].
    apply ld32_ext. intros b Hb. apply H.
    intros (_ & Hf & _). apply (Hf _ Hi Hh). unfold tab, in_page, dir_index, PGSIZE in *. lia.
  - intros b. unfold foreign. split; intros (H1 & H2 & H3); split_and!; try done;
      intros i Hi; specialize (H2 i Hi); unfold has, tab in *; by rewrite (P i Hi) in *.
Qed.

Lemma uva2ka_run d a c pm (x : Ext) :
  pt_ok (pm_mem pm) d [] → 0 ≤ a < 2 ^ 32 → user_addr (pm_mem pm) d a →
  uva2ka d a (c, (pm, x)) = Ret (frame (pm_mem pm) d a) (c, (pm, x)).
Proof.
  intros Hok Ha (Hh & HP & HU). unfold uva2ka.
  rewrite (bind_eq _ _ _ _ _ (walk_noalloc d a c pm x)). rewrite decide_True by done.
  destruct (page_index _ (page_number a Ha)) as [Hi Hj].
  rewrite <-PDX_spec in Hi by done. rewrite <-PTX_spec in Hj by done.
  destruct (pt_tab _ _ _ Hok _ Hi Hh) as (Ht & _).
  pose proof (page_ok_range kend kend_high _ Ht). unfold dir_index in Hj.
  destruct (Z.eqb_spec (tab (pm_mem pm) d (PDX a) + 4 * PTX a) 0); [lia|].
  erewrite bind_eq by reflexivity. cbn beta.
  change (ld32 (pm_mem (fst (snd (c, (pm, x)))))) with (ld32 (pm_mem pm)).
  rewrite <-(entry_word _ _ []) by done.
  rewrite (proj2 (Z.eqb_neq _ _) HP), (proj2 (Z.eqb_neq _ _) HU). done.
Qed.

(** Within one page. *)
Lemma same_page va k : 0 ≤ va → 0 ≤ k → va mod PGSIZE + k < PGSIZE →
  (va + k) / PGSIZE = va / PGSIZE ∧ (va + k) mod PGSIZE = va mod PGSIZE + k.
Proof.
  intros H1 H2 H3. unfold PGSIZE in *. pose proof (Z.div_mod va 4096 ltac:(done)).
  pose proof (Z.mod_pos_bound va 4096 ltac:(done)).
  replace (va + k) with ((va / 4096) * 4096 + (va mod 4096 + k)) by lia.
  rewrite Z.div_add_l, (Z.div_small (_ + k)) by lia.
  rewrite (Z.add_comm (_ * 4096)), Z_mod_plus_full, Z.mod_small by lia. lia.
Qed.

Lemma frame_page m d a a' : a / PGSIZE = a' / PGSIZE → frame m d a = frame m d a'.
Proof. unfold frame. by intros ->. Qed.

Lemma pt_ok_foreign m m' d :
  (∀ b, ¬ foreign m d [] b → rd m' b = rd m b) → pt_ok m d [] → pt_ok m' d [].
Proof.
  intros H Hok. destruct (table_frame m m' d H) as (P & _ & _).
  constructor; [apply (pt_dir _ _ _ Hok)|..].
  - intros i Hi. unfold has, tab. rewrite P by done. apply (pt_tab _ _ _ Hok i Hi).
  - intros i j Hi Hj. unfold has, tab. rewrite !P by done. apply (pt_inj _ _ _ Hok i j Hi Hj).
Qed.

Lemma user_addr_page m d a a' :
  0 ≤ a < 2 ^ 32 → 0 ≤ a' < 2 ^ 32 → a / PGSIZE = a' / PGSIZE →
  user_addr m d a → user_addr m d a'.
Proof.
  intros Ha Ha' E. unfold user_addr. rewrite !PDX_spec by done. by rewrite E.
Qed.

(** The state of a user range carries over a write to foreign bytes. *)
Lemma writable_foreign m m' d va buf len :
  (∀ b, ¬ foreign m d [] b → rd m' b = rd m b) → 0 ≤ va → va + len ≤ 2 ^ 32 →
  writable m d va buf len →
  writable m' d va buf len ∧ ∀ a, va ≤ a < va + len → frame m' d a = frame m d a.
Proof.
  intros H Hva Hhi W. destruct (table_frame m m' d H) as (P & En & F).
  assert (Hr : ∀ a, va ≤ a < va + len → 0 ≤ a / PGSIZE < 2 ^ 20 ∧ dir_index (PDX a)).
  { intros a Ha. pose proof (page_number a ltac:(lia)) as Hp. split; [done|].
    rewrite PDX_spec by lia. by apply page_index. }
  assert (Hf : ∀ a, va ≤ a < va + len → frame m' d a = frame m d a).
  { intros a Ha. unfold frame. rewrite En; [done|]. by apply Hr. }
  split; [|done]. destruct W as [W1 W2 W3 W4]. constructor.
  - intros a Ha. destruct (Hr a Ha) as [Hn Hd]. destruct (W1 a Ha) as [[H1 H2] H3].
    rewrite Hf by done. split; [|done]. unfold user_addr. rewrite En by done. split; [|done].
    unfold has. by rewrite P.
  - intros a b Ha. rewrite Hf by done. rewrite F. by apply W2.
  - intros a a' Ha Ha'. rewrite !Hf by done. by apply W3.
  - intros a k Ha Hk. rewrite Hf by done. by apply W4.
Qed.

Lemma writable_tail m d va buf len n :
  0 ≤ n ≤ len → writable m d va buf len → writable m d (va + n) (buf + n) (len - n).
Proof.
  intros Hn [W1 W2 W3 W4]. constructor.
  - intros a Ha. apply W1. lia.
  - intros a b Ha. apply W2. lia.
  - intros a a' Ha Ha'. apply W3; lia.
  - intros a k Ha Hk. rewrite <-Z.add_assoc. apply W4; lia.
Qed.

(** The first chunk: up to the end of its page. *)
Lemma copy_chunk m d va buf len n :
  0 ≤ va → va + len ≤ 2 ^ 32 → 0 < n ≤ len → va mod PGSIZE + n ≤ PGSIZE →
  writable m d va buf len →
  let m1 := memmove m (ka m d va) buf n in
  (∀ b, ¬ foreign m d [] b → rd m1 b = rd m b) ∧
  (∀ k, 0 ≤ k < n → ka m d (va + k) = ka m d va + k ∧
     rd m1 (ka m d (va + k)) = rd m (buf + k)) ∧
  (∀ b, (∀ k, 0 ≤ k < n → b ≠ ka m d (va + k)) → rd m1 b = rd m b) ∧
  (∀ k, 0 ≤ k < len → rd m1 (buf + k) = rd m (buf + k)).
Proof.
  intros Hva Hhi Hn Hoff W m1. pose proof (Z.mod_pos_bound va PGSIZE ltac:(done)) as Hm.
  assert (Hka : ∀ k, 0 ≤ k < n → ka m d (va + k) = ka m d va + k).
  { intros k Hk. unfold ka. destruct (same_page va k) as [E1 E2]; [lia..|].
    rewrite E2. rewrite (frame_page m d (va + k) va E1). lia. }
  assert (Hpg : ∀ b, ka m d va ≤ b < ka m d va + n → in_page (frame m d va) b).
  { intros b Hb. unfold in_page, ka in *. lia. }
  split_and!.
  - intros b Hb. unfold m1. rewrite rd_memmove by lia. case_decide as Hd; [|done].
    destruct Hb. apply (wr_apart _ _ _ _ _ W va); [lia|]. by apply Hpg.
  - intros k Hk. rewrite Hka by done. split; [done|]. unfold m1. rewrite rd_memmove by lia.
    rewrite decide_True by lia. f_equal. lia.
  - intros b Hb. unfold m1. rewrite rd_memmove by lia. case_decide as Hd; [|done].
    destruct (Hb (b - ka m d va)); [lia|]. rewrite Hka by lia. lia.
  - intros k Hk. unfold m1. rewrite rd_memmove by lia. case_decide as Hd; [|done].
    destruct (wr_buf _ _ _ _ _ W va k); [lia..|]. by apply Hpg.
Qed.

Lemma ka_inj m d va buf len k k' :
  writable m d va buf len → 0 ≤ k < len → 0 ≤ k' < len →
  ka m d (va + k) = ka m d (va + k') → k = k'.
Proof.
  intros W Hk Hk'. destruct (wr_user _ _ _ _ _ W (va + k) ltac:(lia)) as [_ P1].
  destruct (wr_user _ _ _ _ _ W (va + k') ltac:(lia)) as [_ P2].
  pose proof (wr_inj _ _ _ _ _ W (va + k) (va + k') ltac:(lia) ltac:(lia)) as Hi.
  unfold ka. pose proof (Z.mod_pos_bound (va + k) PGSIZE ltac:(done)).
  pose proof (Z.mod_pos_bound (va + k') PGSIZE ltac:(done)).
  pose proof (Z.div_mod (va + k) PGSIZE ltac:(done)).
  pose proof (Z.div_mod (va + k') PGSIZE ltac:(done)).
  intros E. destruct (decide (frame m d (va + k) = frame m d (va + k'))) as [Ef|Hne].
  - specialize (Hi Ef). rewrite Hi in *. lia.
  - destruct (pages_apart kend _ _ P1 P2 Hne); lia.
Qed.

Lemma copyout_loop_S f d va buf len (s : K) :
  0 < len →
  copyout_loop (S f) d va buf len s =
    (pa0 ← uva2ka d (PGROUNDDOWN va);
     if pa0 =? 0 then mret (-1) else
     let n := if len <? PGSIZE - (va - PGROUNDDOWN va) then len
              else PGSIZE - (va - PGROUNDDOWN va) in
     memmove_k (pa0 + (va - PGROUNDDOWN va)) buf n ;;
     copyout_loop f d (u32 (PGROUNDDOWN va + PGSIZE)) (buf + n) (len - n)) s.
Proof. intros H. cbn [copyout_loop]. by rewrite (proj2 (Z.ltb_lt _ _) H). Qed.

Lemma copyout_loop_0 f d va buf (s : K) : copyout_loop (S f) d va buf 0 s = Ret 0 s.
Proof. done. Qed.

(** The start of the page of [va]. *)
Lemma page_start va : 0 ≤ va → va < 2 ^ 32 →
  PGROUNDDOWN va = va - va mod PGSIZE ∧ 0 ≤ va - va mod PGSIZE ∧ (va - va mod PGSIZE) mod PGSIZE = 0 ∧
  va / PGSIZE = (va - va mod PGSIZE) / PGSIZE.
Proof.
  intros H0 Hh. pose proof (Z.mod_pos_bound va PGSIZE ltac:(done)) as Hoff.
  pose proof (Z.div_mod va PGSIZE ltac:(done)) as E. pose proof (Z.div_pos va PGSIZE H0 ltac:(done)).
  assert (Em : (va - va mod PGSIZE) mod PGSIZE = 0) by (by rewrite Zminus_mod_idemp_r, Z.sub_diag).
  split_and!; [|unfold PGSIZE in *; lia|done|].
  - rewrite PGROUNDDOWN_spec by lia. unfold PGSIZE in *. lia.
  - destruct (same_page (va - va mod PGSIZE) (va mod PGSIZE)) as [E1 _]; [unfold PGSIZE in *; lia|lia|lia|].
    rewrite <-E1. f_equal. lia.
Qed.

Lemma copyout_loop_run fuel d va buf len c pm (x : Ext) :
  pt_ok (pm_mem pm) d [] → 0 ≤ va → 0 ≤ len → va + len ≤ KERNBASE →
  writable (pm_mem pm) d va buf len → va mod PGSIZE + len ≤ Z.of_nat fuel * PGSIZE →
  ∃ m', copyout_loop (S fuel) d va buf len (c, (pm, x)) = Ret 0 (c, (set_mem m' pm, x)) ∧
    (∀ k, 0 ≤ k < len → rd m' (ka (pm_mem pm) d (va + k)) = rd (pm_mem pm) (buf + k)) ∧
    (∀ b, (∀ k, 0 ≤ k < len → b ≠ ka (pm_mem pm) d (va + k)) → rd m' b = rd (pm_mem pm) b).
Proof.
  revert va buf len pm. induction fuel as [|fuel IH]; intros va buf len pm Hok Hva Hlen Hhi Hw Hf;
    pose proof (Z.mod_pos_bound va PGSIZE ltac:(done)) as Hoff.
  { assert (len = 0) as -> by lia. exists (pm_mem pm). rewrite copyout_loop_0.
    split_and!; [by destruct pm|lia|done]. }
  destruct (decide (len = 0)) as [->|Hne].
  { exists (pm_mem pm). rewrite copyout_loop_0. split_and!; [by destruct pm|lia|done]. }
  assert (HK : KERNBASE < 2 ^ 32) by done.
  rewrite copyout_loop_S by lia. set (m := pm_mem pm) in *.
  destruct (page_start va Hva ltac:(lia)) as (Hva0 & Hva0r & Hva0m & Hpg).
  rewrite Hva0. replace (va - (va - va mod PGSIZE)) with (va mod PGSIZE) by lia.
  set (va0 := va - va mod PGSIZE) in *.
  destruct (wr_user _ _ _ _ _ Hw va ltac:(lia)) as [Hu Hpo].
  rewrite (bind_eq _ _ _ _ _ (uva2ka_run d va0 c pm x Hok ltac:(lia)
    (user_addr_page _ _ va va0 ltac:(lia) ltac:(lia) Hpg Hu))).
  fold m. rewrite (frame_page m d va0 va) by done.
  pose proof (page_ok_range kend kend_high _ Hpo) as Hpor.
  destruct (Z.eqb_spec (frame m d va) 0) as [?|_]; [lia|].
  set (n := if len <? PGSIZE - va mod PGSIZE then len else PGSIZE - va mod PGSIZE).
  assert (Hn : 0 < n ≤ len ∧ va mod PGSIZE + n ≤ PGSIZE ∧ (n = len ∨ va0 + PGSIZE = va + n)).
  { unfold n, va0. destruct (Z.ltb_spec len (PGSIZE - va mod PGSIZE)); lia. }
  destruct Hn as (Hn1 & Hn2 & Hn3). cbv zeta. erewrite bind_eq by reflexivity.
  destruct (copy_chunk m d va buf len n ltac:(lia) ltac:(lia) Hn1 Hn2 Hw) as (C1 & C2 & C3 & C4).
  change (frame m d va + va mod PGSIZE) with (ka m d va).
  set (m1 := memmove m (ka m d va) buf n) in *.
  destruct (writable_foreign m m1 d va buf len C1 ltac:(lia) ltac:(lia) Hw) as [Hw1 Hfr].
  assert (Hka1 : ∀ k, 0 ≤ k < len → ka m1 d (va + k) = ka m d (va + k)).
  { intros k Hk. unfold ka. by rewrite Hfr by lia. }
  assert (Hfin : ∃ m', copyout_loop (S fuel) d (u32 (va0 + PGSIZE)) (buf + n) (len - n)
      (c, (set_mem m1 pm, x)) = Ret 0 (c, (set_mem m' pm, x)) ∧
    (∀ k, n ≤ k < len → rd m' (ka m1 d (va + k)) = rd m1 (buf + k)) ∧
    (∀ b, (∀ k, n ≤ k < len → b ≠ ka m1 d (va + k)) → rd m' b = rd m1 b)).
  { destruct Hn3 as [Hnl|Hnp].
    - exists m1. rewrite Hnl, Z.sub_diag, copyout_loop_0. split_and!; [done|lia|done].
    - destruct (IH (va + n) (buf + n) (len - n) (set_mem m1 pm)) as (m' & R1 & R2 & R3); try lia.
      + by eapply pt_ok_foreign.
      + simpl. apply writable_tail; [lia|done].
      + assert ((va + n) mod PGSIZE = 0) as ->; [|unfold PGSIZE in *; lia].
        rewrite <-Hnp, <-Zplus_mod_idemp_l, Hva0m. done.
      + exists m'. rewrite Hnp, u32_small by lia. split_and!; [exact R1|..].
        * intros k Hk. specialize (R2 (k - n) ltac:(lia)). simpl in R2.
          replace (va + n + (k - n)) with (va + k) in R2 by lia.
          by replace (buf + n + (k - n)) with (buf + k) in R2 by lia.
        * intros b Hb. apply R3. simpl. intros k Hk.
          specialize (Hb (n + k) ltac:(lia)). by rewrite Z.add_assoc in Hb. }
  destruct Hfin as (m' & R1 & R2 & R3). exists m'. split_and!; [exact R1|..].
  - intros k Hk. destruct (decide (k < n)).
    + destruct (C2 k ltac:(lia)) as [E1 <-]. apply R3. intros k' Hk'. rewrite Hka1 by lia.
      intros E. assert (k = k') by (eapply (ka_inj m d va buf len); [done|lia..|done]). lia.
    + rewrite <-Hka1, R2 by lia. by apply C4.
  - intros b Hb. rewrite R3.
    + apply C3. intros k Hk. apply Hb. lia.
    + intros k Hk. rewrite Hka1 by lia. apply Hb. lia.
Qed.

(** C30. [copyout] to a user range that is mapped, writable for the user and apart
    from the table returns 0, and afterwards the bytes at the user addresses are
    those of the buffer and no other byte of memory has changed. *)
Theorem copyout_correct d va buf len c pm (x : Ext) free :
  vm_ok pm d free → 0 ≤ va → 0 ≤ len → va + len ≤ KERNBASE →
  writable (pm_mem pm) d va buf len →
  ∃ m', copyout d va buf len (c, (pm, x)) = Ret 0 (c, (set_mem m' pm, x)) ∧
    (∀ k, 0 ≤ k < len → rd m' (ka (pm_mem pm) d (va + k)) = rd (pm_mem pm) (buf + k)) ∧
    (∀ b, (∀ k, 0 ≤ k < len → b ≠ ka (pm_mem pm) d (va + k)) → rd m' b = rd (pm_mem pm) b).
Proof.
  intros [_ [P1 P2 P3]] Hva Hlen Hhi Hw. unfold copyout.
  destruct (copyout_loop_run (S (S (Z.to_nat (len / PGSIZE)))) d va buf len c pm x)
    as (m' & R & H1 & H2); try done.
  - split; [split; [apply P1|by intros ?%elem_of_nil]| |done].
    intros i Hi Hh. destruct (P2 i Hi Hh) as (? & _ & ?). split_and!; [done| |done].
    by intros ?%elem_of_nil.
  - pose proof (Z.mod_pos_bound va PGSIZE ltac:(done)).
    pose proof (Z.div_pos len PGSIZE ltac:(done) ltac:(done)).
    pose proof (Z.mul_succ_div_gt len PGSIZE ltac:(done)). unfold PGSIZE in *. lia.
  - exists m'. by split_and!.
Qed.

End VmFacts.

(** ** Concrete instances *)

Definition dir0 : Z := 0x80200000.
Definition tab0 : Z := 0x80201000.
Definition page0 : Z := 0x80202000.

Lemma kend0_high : KERNBASE ≤ kend0.
Proof. done. Qed.

Lemma ld32_empty a : ld32 ∅ a = 0.
Proof. done. Qed.

Definition pm_map : pmem := mkPmem ∅ tab0 false mmu0.

Lemma pm_map_ok : vm_ok kend0 pm_map dir0 [tab0].
Proof.
  split.
  - split; [by vm_compute|apply NoDup_singleton].
  - split.
    + split; [by vm_compute|]. by intros ?%list_elem_of_singleton.
    + intros i Hi Hh. unfold has, pde in Hh. by rewrite ld32_empty in Hh.
    + intros i j Hi Hj Hh. unfold has, pde in Hh. by rewrite ld32_empty in Hh.
Qed.

Lemma mappages_correct_witness :
  ∃ r pm' free', mappages dir0 0 (2 * PGSIZE) 0x202000 6 (core0, (pm_map, ())) =
      Ret r (core0, (pm', ())) ∧
    vm_ok kend0 pm' dir0 free' ∧ (∃ used, [tab0] = used ++ free') ∧
    (∀ b, foreign ∅ dir0 [tab0] b → rd (pm_mem pm') b = rd ∅ b) ∧
    (∀ k, 0 ≤ k < 2 ^ 20 → ¬ (0 ≤ k < 0 + 2) → entry (pm_mem pm') dir0 k = entry ∅ dir0 k) ∧
    ((r = -1 ∧ free' = []) ∨
     (r = 0 ∧ ∀ k, 0 ≤ k < 2 →
        entry (pm_mem pm') dir0 (0 + k) = Z.lor (Z.lor (0x202000 + k * PGSIZE) 6) PTE_P)).
Proof.
  apply (mappages_correct kend0 kend0_high dir0 0 2 0x202000 6 core0 pm_map () [tab0]);
    try done.
  - apply pm_map_ok.
Defined.

(** One user page, at address 0. *)
Definition mem_user : mem := st32 (st32 ∅ dir0 0x201007) tab0 0x202007.
Definition pm_user : pmem := mkPmem mem_user 0 false mmu0.

Lemma mem_user_pde i : dir_index i → pde mem_user dir0 i = if decide (i = 0) then 0x201007 else 0.
Proof.
  intros Hi. unfold dir_index in Hi. unfold pde, mem_user. case_decide as H; [by subst|].
  unfold dir0, tab0 in *. rewrite !ld32_st32_ne by lia. apply ld32_empty.
Qed.

Lemma pm_user_ok : vm_ok kend0 pm_user dir0 [].
Proof.
  assert (Hh : ∀ i, dir_index i → has mem_user dir0 i → i = 0).
  { intros i Hi Hh. unfold has in Hh. rewrite mem_user_pde in Hh by done.
    by case_decide. }
  split; [split; [done|constructor]|]. split.
  - split; [by vm_compute|by intros ?%elem_of_nil].
  - intros i Hi Hhi. rewrite (Hh i Hi Hhi). split_and!; [by vm_compute|by intros ?%elem_of_nil|done].
  - intros i j Hi Hj Hhi Hhj _. by rewrite (Hh i Hi Hhi), (Hh j Hj Hhj).
Qed.

Lemma user_page0 a : 0 ≤ a < PGSIZE → a / PGSIZE = 0 ∧ frame mem_user dir0 a = page0 ∧
  user_addr mem_user dir0 a.
Proof.
  intros Ha. assert (E : a / PGSIZE = 0) by (by apply Z.div_small).
  assert (Hx : PDX a = 0) by (rewrite PDX_spec, E; [done|unfold PGSIZE in *; lia]).
  unfold frame, user_addr. rewrite E, Hx. by vm_compute.
Qed.

Lemma copyout_correct_witness :
  ∃ m', copyout dir0 100 0x80203000 10 (core0, (pm_user, ())) =
      Ret 0 (core0, (set_mem m' pm_user, ())) ∧
    (∀ k, 0 ≤ k < 10 → rd m' (ka mem_user dir0 (100 + k)) = rd mem_user (0x80203000 + k)) ∧
    (∀ b, (∀ k, 0 ≤ k < 10 → b ≠ ka mem_user dir0 (100 + k)) → rd m' b = rd mem_user b).
Proof.
  apply (copyout_correct kend0 kend0_high dir0 100 0x80203000 10 core0 pm_user () []); try done.
  - apply pm_user_ok.
  - change (pm_mem pm_user) with mem_user. split.
    + intros a Ha. destruct (user_page0 a) as (_ & -> & H); [unfold PGSIZE; lia|].
      split; [done|by vm_compute].
    + intros a b Ha. destruct (user_page0 a) as (_ & -> & _); [unfold PGSIZE; lia|].
      unfold in_page, PGSIZE, page0. intros Hb. split_and!.
      * unfold in_page, dir0, PGSIZE. lia.
      * intros i Hi Hh. unfold has in Hh. rewrite mem_user_pde in Hh by done.
        case_decide; [|done]. subst i. change (tab _ _ _) with tab0.
        unfold in_page, tab0, PGSIZE. lia.
      * by intros p ?%elem_of_nil.
    + intros a a' Ha Ha' _. destruct (user_page0 a) as (-> & _); [unfold PGSIZE; lia|].
      destruct (user_page0 a') as (-> & _); [unfold PGSIZE; lia|done].
    + intros a k Ha Hk. destruct (user_page0 a) as (_ & -> & _); [unfold PGSIZE; lia|].
      unfold in_page, page0, PGSIZE. lia.
Defined.
