(* ===== verification/Bio.v ===== *)
(** * The buffer cache (bio.c) on the memory disk (memide.c)

    Buffers are cells 0 to [NBUF - 1] of an array; cell [NBUF] is [bcache.head].
    [prev] and [next] are array indices.  The disk of memide.c is a list of
    sectors; a write also appends to a trace, which the code does not have and
    which only theorems about crashes look at. *)
From S2P Require Import Prelude Spinlock Core.

Definition NBUF : nat := 10.
Definition BSIZE : nat := 512.
Definition ROOTDEV : Z := 1.
Definition B_BUSY : Z := 1.
Definition B_VALID : Z := 2.
Definition B_DIRTY : Z := 4.

(** [struct buf]; [qnext] is ide.c's. *)
Record buf := mkBuf {
  flags : Z; bdev : Z; sector : Z; prev : nat; next : nat; bdata : list Z }.
Definition buf0 : buf := mkBuf 0 0 0 0 0 (replicate BSIZE 0).
Definition set_flags v b := mkBuf v (bdev b) (sector b) (prev b) (next b) (bdata b).
Definition set_bdev v b := mkBuf (flags b) v (sector b) (prev b) (next b) (bdata b).
Definition set_sector v b := mkBuf (flags b) (bdev b) v (prev b) (next b) (bdata b).
Definition set_prev v b := mkBuf (flags b) (bdev b) (sector b) v (next b) (bdata b).
Definition set_next v b := mkBuf (flags b) (bdev b) (sector b) (prev b) v (bdata b).
Definition set_bdata v b := mkBuf (flags b) (bdev b) (sector b) (prev b) (next b) v.

(** [bcache] and the disk. *)
Record bio := mkBio { bufs : list buf; disk : list (list Z); dtrace : list (Z * list Z) }.
Definition upd_buf (i : nat) (f : buf → buf) (β : bio) : bio :=
  mkBio (alter f i (bufs β)) (disk β) (dtrace β).

(** The device after power-on: BSS, and what is on the disk. *)
Definition bio0 (d : list (list Z)) : bio := mkBio (replicate (S NBUF) buf0) d [].

(** [Ext] is the state of the components above. *)
Section Bio.
Context {Ext : Type}.
Abbreviation K := (core * (bio * Ext))%type.

Definition getβ {A} (f : bio → A) : M K A := gets (λ s, f (fst (snd s))).
Definition modβ (f : bio → bio) : M K unit :=
  modify (λ s, (fst s, (f (fst (snd s)), snd (snd s)))).
Definition getb {A} (i : nat) (f : buf → A) : M K A :=
  o ← getβ (λ β, bufs β !! i); b ← deref o; mret (f b).
Definition setb (i : nat) (f : buf → buf) : M K unit := modβ (upd_buf i f).

Definition binit_one (b : nat) : M K unit :=
  n ← getb NBUF next;
  setb b (set_next n) ;;
  setb b (set_prev NBUF) ;;
  setb b (set_bdev (u32 (-1))) ;;
  n ← getb NBUF next;
  setb n (set_prev b) ;;
  setb NBUF (set_next b).

Definition binit : M K unit :=
  setb NBUF (set_prev NBUF) ;;
  setb NBUF (set_next NBUF) ;;
  for_each (seq 0 NBUF) binit_one.

(** *** memide.c *)

Definition disksize (β : bio) : Z := Z.of_nat (length (disk β)).

Definition iderw (b : nat) : M K unit :=
  f ← getb b flags;
  if Z.land f B_BUSY =? 0 then panic "iderw: buf not busy" else
  if Z.land f (Z.lor B_VALID B_DIRTY) =? B_VALID then panic "iderw: nothing to do" else
  d ← getb b bdev;
  if negb (d =? 1) then panic "iderw: request not for disk 1" else
  s ← getb b sector;
  ds ← getβ disksize;
  if ds <=? s then panic "iderw: sector out of range" else
  (if negb (Z.land f B_DIRTY =? 0) then
     setb b (λ x, set_flags (Z.land (flags x) (Z.lnot B_DIRTY)) x) ;;
     p ← getb b bdata;
     modβ (λ β, mkBio (bufs β) (<[Z.to_nat s := p]> (disk β)) (dtrace β ++ [(s, p)]))
   else
     o ← getβ (λ β, disk β !! Z.to_nat s);
     p ← deref o;
     setb b (set_bdata p)) ;;
  setb b (λ x, set_flags (Z.lor (flags x) B_VALID) x).

(** *** bget, bread, bwrite, brelse *)

(** The first scan: from [b] along [next]; [fuel] bounds the list. *)
Fixpoint scan_next (fuel : nat) (bs : list buf) (dev sec : Z) (b : nat) : option (option nat) :=
  match fuel with
  | O => None
  | S f =>
      if Nat.eqb b NBUF then Some None else
      match bs !! b with
      | None => None
      | Some x => if (bdev x =? dev) && (sector x =? sec) then Some (Some b)
                  else scan_next f bs dev sec (next x)
      end
  end.

(** The second scan: from [b] along [prev] for a buffer that can be recycled. *)
Fixpoint scan_prev (fuel : nat) (bs : list buf) (b : nat) : option (option nat) :=
  match fuel with
  | O => None
  | S f =>
      if Nat.eqb b NBUF then Some None else
      match bs !! b with
      | None => None
      | Some x => if (Z.land (flags x) B_BUSY =? 0) && (Z.land (flags x) B_DIRTY =? 0)
                  then Some (Some b) else scan_prev f bs (prev x)
      end
  end.

(** From the label [loop:], [bcache.lock] held. *)
Definition bget_loop (dev sec : Z) : M K nat :=
  h ← getb NBUF next;
  o ← getβ (λ β, scan_next (S NBUF) (bufs β) dev sec h);
  r ← deref o;
  match r with
  | Some b =>
      f ← getb b flags;
      if Z.land f B_BUSY =? 0 then
        setb b (λ x, set_flags (Z.lor (flags x) B_BUSY) x) ;;
        release L_bcache ;; mret b
      else sleep (Ch_buf b) L_bcache ;; mret b (* not reached: [sleep] blocks *)
  | None =>
      t ← getb NBUF prev;
      o ← getβ (λ β, scan_prev (S NBUF) (bufs β) t);
      r ← deref o;
      match r with
      | Some b =>
          setb b (set_bdev dev) ;;
          setb b (set_sector sec) ;;
          setb b (set_flags B_BUSY) ;;
          release L_bcache ;; mret b
      | None => panic "bget: no buffers"
      end
  end.
Definition bget (dev sec : Z) : M K nat := acquire L_bcache ;; bget_loop dev sec.
Definition bget_resume (dev sec : Z) : M K nat := sleep_resume L_bcache ;; bget_loop dev sec.

Definition bread (dev sec : Z) : M K nat :=
  b ← bget dev sec;
  f ← getb b flags;
  when (Z.land f B_VALID =? 0) (iderw b) ;;
  mret b.

Definition bwrite (b : nat) : M K unit :=
  f ← getb b flags;
  if Z.land f B_BUSY =? 0 then panic "bwrite" else
  setb b (λ x, set_flags (Z.lor (flags x) B_DIRTY) x) ;;
  iderw b.

Definition brelse (b : nat) : M K unit :=
  f ← getb b flags;
  if Z.land f B_BUSY =? 0 then panic "brelse" else
  acquire L_bcache ;;
  n ← getb b next; p ← getb b prev;
  setb n (set_prev p) ;;
  setb p (set_next n) ;;
  h ← getb NBUF next;
  setb b (set_next h) ;;
  setb b (set_prev NBUF) ;;
  h ← getb NBUF next;
  setb h (set_prev b) ;;
  setb NBUF (set_next b) ;;
  setb b (λ x, set_flags (Z.land (flags x) (Z.lnot B_BUSY)) x) ;;
  wakeup (Ch_buf b) ;;
  release L_bcache.

End Bio.
