(* ===== verification/BioFacts.v ===== *)
(** * What the buffer cache does (bio.c)

    The doubly linked list as a list of buffers, most recently used first;
    [bget] and [brelse] on that list; and the coherence of cached data with
    the disk. *)
From S2P Require Import Prelude Spinlock Core Bio.

(** ** Linked paths *)

Definition upd {A} (f : nat → A) (i : nat) (v : A) (j : nat) : A :=
  if decide (j = i) then v else f j.

(** Following [f] from [x] visits [l] and then [z]. *)
Fixpoint path (f : nat → nat) (x : nat) (l : list nat) (z : nat) : Prop :=
  match l with [] => f x = z | y :: l' => f x = y ∧ path f y l' z end.

Fixpoint last_of (x : nat) (l : list nat) : nat :=
  match l with [] => x | y :: l' => last_of y l' end.

Lemma path_ext f g x l z : (∀ i, i ∈ x :: l → g i = f i) → path f x l z → path g x l z.
Proof.
  revert x. induction l as [|y l IH]; intros x H; simpl.
  - rewrite H by set_solver. done.
  - intros [Hx Hl]. rewrite H by set_solver. split; [done|]. apply IH; [|done]. set_solver.
Qed.

Lemma path_app f x l y l' z : path f x (l ++ y :: l') z ↔ path f x l y ∧ path f y l' z.
Proof. revert x. induction l as [|a l IH]; intros x; simpl; [done|]. rewrite IH. naive_solver. Qed.

Lemma path_hd f x l z : path f x l z → f x = hd z l.
Proof. destruct l; simpl; naive_solver. Qed.

Lemma last_of_in x l : last_of x l ∈ x :: l.
Proof.
  revert x. induction l as [|y l IH]; intros x; simpl; [set_solver|]. specialize (IH y). set_solver.
Qed.

Lemma last_of_app x l k : last_of x l ∈ x :: l ++ k.
Proof. pose proof (last_of_in x l). rewrite app_comm_cons. apply elem_of_app. by left. Qed.

Lemma last_of_snoc x l y : last_of x (l ++ [y]) = y.
Proof. revert x. induction l; intros; simpl; auto. Qed.

Lemma hd_rev z l : hd z (rev l) = last_of z l.
Proof.
  induction l as [|y l IH] using rev_ind; [done|]. by rewrite rev_app_distr, last_of_snoc.
Qed.

Lemma last_of_rev z l : last_of z (rev l) = hd z l.
Proof. by rewrite <-hd_rev, rev_involutive. Qed.

Lemma upd_eq {A} (f : nat → A) i v : upd f i v i = v.
Proof. unfold upd. by rewrite decide_True. Qed.
Lemma upd_ne {A} (f : nat → A) i j v : j ≠ i → upd f i v j = f j.
Proof. intros. unfold upd. by rewrite decide_False. Qed.

Lemma upd_congr {A} (f g : nat → A) i v j : (∀ k, f k = g k) → upd f i v j = upd g i v j.
Proof. intros H. unfold upd. by case_decide. Qed.

(** Taking [b] out, putting it first, putting it last. *)
Lemma path_remove f x l b l' z :
  NoDup (x :: l ++ b :: l') → path f x (l ++ b :: l') z →
  path (upd f (last_of x l) (f b)) x (l ++ l') z.
Proof.
  revert x. induction l as [|a l IH]; intros x Hn; simpl.
  - intros [Hx Hp]. inversion_clear Hn as [|?? Hni Hn'].
    destruct l' as [|y l']; simpl in *.
    + by rewrite upd_eq.
    + destruct Hp as [Hb Hp]. rewrite upd_eq. split; [done|].
      eapply path_ext; [|done]. intros i Hi. rewrite upd_ne; [done|]. set_solver.
  - intros [Hx Hp]. inversion_clear Hn as [|?? Hni Hn']. split.
    + rewrite upd_ne; [done|]. intros E. apply Hni. rewrite E. by apply last_of_app.
    + by apply IH.
Qed.

Lemma path_cons_front f x b l z :
  b ∉ x :: l → x ∉ l → path f x l z → path (upd (upd f b (f x)) x b) x (b :: l) z.
Proof.
  intros Hb Hx Hp. simpl. rewrite upd_eq. split; [done|].
  destruct l as [|y l]; simpl in *.
  - rewrite upd_ne by set_solver. by rewrite upd_eq.
  - destruct Hp as [Hy Hp]. rewrite upd_ne by set_solver. rewrite upd_eq. split; [done|].
    eapply path_ext; [|done]. intros i Hi. rewrite !upd_ne by set_solver. done.
Qed.

Lemma path_snoc f x b l z :
  NoDup (x :: l) → b ∉ x :: l → path f x l z →
  path (upd (upd f b z) (last_of x l) b) x (l ++ [b]) z.
Proof.
  revert x. induction l as [|y l IH]; intros x Hn Hb; simpl.
  - intros _. rewrite upd_eq. split; [done|]. rewrite upd_ne by set_solver. by rewrite upd_eq.
  - intros [Hx Hp]. inversion_clear Hn as [|?? Hni Hn']. split.
    + rewrite !upd_ne; [done|set_solver|]. intros E. apply Hni. rewrite E.
      apply last_of_in.
    + apply IH; [done|set_solver|done].
Qed.

(** ** The ring of buffers *)

Definition nx (bs : list buf) (i : nat) : nat := default NBUF (next <$> bs !! i).
Definition pv (bs : list buf) (i : nat) : nat := default NBUF (prev <$> bs !! i).

(** The list of [bcache.head] holds the buffers in the order [l]. *)
Record ring (bs : list buf) (l : list nat) : Prop := {
  rg_len : length bs = S NBUF;
  rg_next : path (nx bs) NBUF l NBUF;
  rg_prev : path (pv bs) NBUF (rev l) NBUF;
  rg_nodup : NoDup l;
  rg_all i : i ∈ l ↔ (i < NBUF)%nat }.

Lemma nx_next bs i v : (i < length bs)%nat →
  ∀ j, nx (alter (set_next v) i bs) j = upd (nx bs) i v j.
Proof.
  intros Hi j. unfold nx, upd. rewrite list_lookup_alter.
  destruct (decide (i = j)) as [<-|Hne]; [|by rewrite decide_False].
  rewrite decide_True by done. apply lookup_lt_is_Some in Hi as [b Hb]. by rewrite Hb.
Qed.

Lemma pv_prev bs i v : (i < length bs)%nat →
  ∀ j, pv (alter (set_prev v) i bs) j = upd (pv bs) i v j.
Proof.
  intros Hi j. unfold pv, upd. rewrite list_lookup_alter.
  destruct (decide (i = j)) as [<-|Hne]; [|by rewrite decide_False].
  rewrite decide_True by done. apply lookup_lt_is_Some in Hi as [b Hb]. by rewrite Hb.
Qed.

(** An update that leaves a link alone. *)
Lemma nx_other bs i f : (∀ b, next (f b) = next b) → ∀ j, nx (alter f i bs) j = nx bs j.
Proof.
  intros Hf j. unfold nx. rewrite list_lookup_alter. case_decide; [subst|done].
  destruct (bs !! j); simpl; [by rewrite Hf|done].
Qed.

Lemma pv_other bs i f : (∀ b, prev (f b) = prev b) → ∀ j, pv (alter f i bs) j = pv bs j.
Proof.
  intros Hf j. unfold pv. rewrite list_lookup_alter. case_decide; [subst|done].
  destruct (bs !! j); simpl; [by rewrite Hf|done].
Qed.

Lemma ring_same bs bs' l :
  length bs' = length bs → (∀ i, nx bs' i = nx bs i) → (∀ i, pv bs' i = pv bs i) →
  ring bs l → ring bs' l.
Proof.
  intros Hl Hn Hp [R1 R2 R3 R4 R5]. constructor; [congruence|..]; try done.
  - by eapply path_ext; [|exact R2].
  - by eapply path_ext; [|exact R3].
Qed.

Lemma ring_upd bs i f l :
  (∀ b, next (f b) = next b ∧ prev (f b) = prev b) → ring bs l → ring (alter f i bs) l.
Proof.
  intros Hf. apply ring_same; [apply length_alter|..].
  - apply nx_other. apply Hf.
  - apply pv_other. apply Hf.
Qed.

(** What [brelse] does to the links, as one function of the array. *)
Definition unlink (b : nat) (bs : list buf) : list buf :=
  alter (set_next (nx bs b)) (pv bs b) (alter (set_prev (pv bs b)) (nx bs b) bs).
Definition link_front (b : nat) (bs : list buf) : list buf :=
  let h := nx bs NBUF in
  alter (set_next b) NBUF (alter (set_prev b) h
    (alter (set_prev NBUF) b (alter (set_next h) b bs))).

Lemma rev_NoDup {A} (l : list A) : NoDup l → NoDup (rev l).
Proof. intros H. by apply NoDup_ListNoDup, NoDup_rev, NoDup_ListNoDup. Qed.
Lemma elem_of_rev {A} (l : list A) x : x ∈ rev l ↔ x ∈ l.
Proof. by rewrite !list_elem_of_In, <-in_rev. Qed.

(** A member of the ring and its neighbours. *)
Section Member.
Context (bs : list buf) (l : list nat) (b : nat) (l' : list nat).
Hypothesis R : ring bs (l ++ b :: l').

Lemma ring_lt i : i ∈ NBUF :: l ++ b :: l' → (i < length bs)%nat.
Proof. destruct R as [R1 R2 R3 R4 R5]. intros [->|Hi]%elem_of_cons; rewrite R1; [lia|]. apply R5 in Hi. lia. Qed.

Lemma ring_head_out : NBUF ∉ l ++ b :: l'.
Proof. destruct R as [R1 R2 R3 R4 R5]. intros H. apply R5 in H. lia. Qed.

Lemma ring_split_rev : rev (l ++ b :: l') = rev l' ++ b :: rev l.
Proof. rewrite rev_app_distr. simpl. by rewrite <-app_assoc. Qed.

Lemma ring_prev : pv bs b = last_of NBUF l.
Proof.
  pose proof R as [R1 R2 R3 R4 R5]. rewrite ring_split_rev in R3.
  apply path_app in R3 as [_ R3]. rewrite (path_hd _ _ _ _ R3). apply hd_rev.
Qed.
Lemma ring_next : nx bs b = last_of NBUF (rev l').
Proof.
  pose proof R as [R1 R2 R3 R4 R5]. apply path_app in R2 as [_ R2].
  rewrite (path_hd _ _ _ _ R2). by rewrite last_of_rev.
Qed.
Lemma ring_neighbours : (b < length bs)%nat ∧ (pv bs b < length bs)%nat ∧ (nx bs b < length bs)%nat.
Proof.
  split_and!; apply ring_lt; [set_solver| |].
  - rewrite ring_prev. pose proof (last_of_in NBUF l). set_solver.
  - rewrite ring_next, last_of_rev. destruct l'; simpl; set_solver.
Qed.

(** Taken out: the two paths close over it. *)
Lemma ring_unlink :
  length (unlink b bs) = length bs ∧
  path (nx (unlink b bs)) NBUF (l ++ l') NBUF ∧ path (pv (unlink b bs)) NBUF (rev (l ++ l')) NBUF ∧
  NoDup (b :: l ++ l') ∧ NBUF ∉ l ++ l' ∧ NBUF ≠ b.
Proof.
  pose proof R as [R1 R2 R3 R4 R5]. destruct ring_neighbours as (Hbl & Hpl & Hnl). pose proof ring_head_out as HN.
  rewrite ring_split_rev in R3.
  assert (Hnd' : NoDup (NBUF :: rev l' ++ b :: rev l)).
  { rewrite <-ring_split_rev. constructor; [by rewrite elem_of_rev|by apply rev_NoDup]. }
  split_and!; [unfold unlink; by rewrite !length_alter| | | |set_solver|set_solver].
  - eapply path_ext; [intros i _|apply (path_remove (nx bs) NBUF l b l' NBUF); [by constructor|exact R2]].
    unfold unlink. rewrite nx_next by (by rewrite length_alter).
    rewrite <-ring_prev. apply upd_congr. intros k. by apply nx_other.
  - rewrite rev_app_distr.
    eapply path_ext; [intros i _|apply (path_remove (pv bs) NBUF (rev l') b (rev l) NBUF); [exact Hnd'|exact R3]].
    unfold unlink. rewrite pv_other, <-ring_next by done. by apply pv_prev.
  - apply NoDup_ListNoDup. apply NoDup_ListNoDup, NoDup_remove in R4 as [H1 H2]. by constructor.
Qed.

End Member.

(** Put in at the front. *)
Lemma ring_link_front bs2 l b : length bs2 = S NBUF → (b < NBUF)%nat →
  path (nx bs2) NBUF l NBUF → path (pv bs2) NBUF (rev l) NBUF →
  NoDup (b :: l) → NBUF ∉ l → (∀ i, i ∈ l → (i < NBUF)%nat) →
  path (nx (link_front b bs2)) NBUF (b :: l) NBUF ∧ path (pv (link_front b bs2)) NBUF (rev (b :: l)) NBUF.
Proof.
  intros L2 Hb F2 B2 Hnd HN Hlt. set (h := nx bs2 NBUF).
  assert (Hh : h = hd NBUF l) by (by apply path_hd).
  assert (HbN : b ∉ NBUF :: l) by (inversion_clear Hnd; intros [->|?]%elem_of_cons; [lia|done]).
  assert (Hhl : (h < length bs2)%nat).
  { rewrite Hh. destruct l as [|y k]; simpl; [lia|]. pose proof (Hlt y). rewrite L2. set_solver by lia. }
  assert (N3 : ∀ j, nx (link_front b bs2) j = upd (upd (nx bs2) b h) NBUF b j).
  { intros j. unfold link_front. fold h. rewrite nx_next by (rewrite !length_alter, L2; lia).
    apply upd_congr. intros k. rewrite !nx_other by done. apply nx_next. lia. }
  assert (P3 : ∀ j, pv (link_front b bs2) j = upd (upd (pv bs2) b NBUF) h b j).
  { intros j. unfold link_front. fold h. rewrite pv_other by done.
    rewrite pv_prev by (by rewrite !length_alter).
    apply upd_congr. intros k. rewrite pv_prev by (rewrite !length_alter; lia).
    apply upd_congr. intros i. by apply pv_other. }
  split.
  - eapply path_ext; [intros i _; apply N3|]. by apply path_cons_front.
  - cbn [rev]. eapply path_ext; [intros i _; apply P3|].
    replace h with (last_of NBUF (rev l)) by (by rewrite last_of_rev).
    apply path_snoc; [| |done].
    + constructor; [by rewrite elem_of_rev|]. apply rev_NoDup. by inversion_clear Hnd.
    + intros H. apply HbN. rewrite elem_of_cons, elem_of_rev in H. set_solver.
Qed.

Lemma ring_mtf bs l b l' :
  ring bs (l ++ b :: l') → ring (link_front b (unlink b bs)) (b :: l ++ l').
Proof.
  intros R. destruct (ring_unlink bs l b l' R) as (L2 & F2 & B2 & Hnd & HN & _).
  destruct R as [R1 _ _ _ R5].
  destruct (ring_link_front (unlink b bs) (l ++ l') b) as [F3 B3]; [congruence|apply R5; set_solver|done..| |].
  { intros i Hi. apply R5. set_solver. }
  constructor; [|done|done|done|intros i; rewrite <-R5; set_solver].
  unfold link_front. by rewrite !length_alter, L2.
Qed.

(** ** The scans *)

Definition holds (bs : list buf) (dev sec : Z) (i : nat) : bool :=
  match bs !! i with Some b => (bdev b =? dev) && (sector b =? sec) | None => false end.
Definition recyclable (bs : list buf) (i : nat) : bool :=
  match bs !! i with
  | Some b => (Z.land (flags b) B_BUSY =? 0) && (Z.land (flags b) B_DIRTY =? 0)
  | None => false
  end.

Lemma scan_next_spec fuel bs dev sec x l :
  path (nx bs) x l NBUF → length bs = S NBUF → (∀ i, i ∈ l → (i < NBUF)%nat) →
  (length l < fuel)%nat →
  scan_next fuel bs dev sec (nx bs x) = Some (List.find (holds bs dev sec) l).
Proof.
  revert x l. induction fuel as [|fuel IH]; intros x l Hp Hlen Hlt Hf; [lia|].
  destruct l as [|y l]; simpl in Hp.
  - rewrite Hp. cbn [scan_next List.find]. by rewrite Nat.eqb_refl.
  - destruct Hp as [-> Hp]. cbn [scan_next List.find length] in *.
    assert (Hy : (y < NBUF)%nat) by (apply Hlt; by left).
    rewrite (proj2 (Nat.eqb_neq y NBUF)) by lia.
    destruct (lookup_lt_is_Some_2 bs y) as [b Hb]; [lia|].
    unfold holds at 1. rewrite Hb. destruct (_ && _); [done|].
    replace (next b) with (nx bs y) by (unfold nx; by rewrite Hb).
    apply IH; [done..| |lia]. intros i Hi. apply Hlt. by right.
Qed.

Lemma scan_prev_spec fuel bs x l :
  path (pv bs) x l NBUF → length bs = S NBUF → (∀ i, i ∈ l → (i < NBUF)%nat) →
  (length l < fuel)%nat →
  scan_prev fuel bs (pv bs x) = Some (List.find (recyclable bs) l).
Proof.
  revert x l. induction fuel as [|fuel IH]; intros x l Hp Hlen Hlt Hf; [lia|].
  destruct l as [|y l]; simpl in Hp.
  - rewrite Hp. cbn [scan_prev List.find]. by rewrite Nat.eqb_refl.
  - destruct Hp as [-> Hp]. cbn [scan_prev List.find length] in *.
    assert (Hy : (y < NBUF)%nat) by (apply Hlt; by left).
    rewrite (proj2 (Nat.eqb_neq y NBUF)) by lia.
    destruct (lookup_lt_is_Some_2 bs y) as [b Hb]; [lia|].
    unfold recyclable at 1. rewrite Hb. destruct (_ && _); [done|].
    replace (prev b) with (pv bs y) by (unfold pv; by rewrite Hb).
    apply IH; [done..| |lia]. intros i Hi. apply Hlt. by right.
Qed.

Lemma ring_length bs l : ring bs l → length l = NBUF.
Proof.
  intros R. assert (Hp : l ≡ₚ seq 0 NBUF).
  { apply NoDup_Permutation; [apply (rg_nodup _ _ R)|apply NoDup_seq|].
    intros i. rewrite (rg_all _ _ R), elem_of_seq. lia. }
  by rewrite Hp, length_seq.
Qed.

(** ** Runs *)

Section Runs.
Context {Ext : Type}.
Implicit Types (c : core) (β : bio) (x : Ext).

Lemma getb_run {A} i (f : buf → A) c β x b :
  bufs β !! i = Some b → getb i f (c, (β, x)) = Ret (f b) (c, (β, x)).
Proof. intros H. unfold getb, getβ, gets, mbind, M_bind. simpl. by rewrite H. Qed.

Definition recycle (dev sec : Z) (b : buf) : buf :=
  set_flags B_BUSY (set_sector sec (set_bdev dev b)).
Definition mark_busy (b : buf) : buf := set_flags (Z.lor (flags b) B_BUSY) b.
Definition busy (b : buf) : Prop := Z.land (flags b) B_BUSY ≠ 0.

Lemma find_lookup {P : nat → bool} l i :
  List.find P l = Some i → i ∈ l ∧ P i = true.
Proof. intros H. apply find_some in H as [H1 H2]. split; [by apply list_elem_of_In|done]. Qed.

(** [bget] on the list [l]: the cached buffer, or the least recently used one
    that is neither busy nor dirty. *)
Lemma bget_run c β x l dev sec :
  ring (bufs β) l → L_bcache ∉ locks c →
  match List.find (holds (bufs β) dev sec) l with
  | Some b => ∃ y, bufs β !! b = Some y ∧
      if Z.land (flags y) B_BUSY =? 0
      then bget dev sec (c, (β, x)) = Ret b (c, (upd_buf b mark_busy β, x))
      else ∀ r s', bget dev sec (c, (β, x)) ≠ Ret r s'
  | None =>
      bget dev sec (c, (β, x)) =
        match List.find (recyclable (bufs β)) (rev l) with
        | Some b => Ret b (c, (upd_buf b (recycle dev sec) β, x))
        | None => Panic "bget: no buffers"
        end
  end.
Proof.
  intros R Hl. pose proof R as [R1 R2 R3 R4 R5].
  destruct (lookup_lt_is_Some_2 (bufs β) NBUF) as [h Hh]; [lia|].
  assert (Hnx : next h = nx (bufs β) NBUF) by (unfold nx; by rewrite Hh).
  assert (Hpv : prev h = pv (bufs β) NBUF) by (unfold pv; by rewrite Hh).
  pose proof (ring_length _ _ R) as Hlen.
  assert (Hacq : acquire L_bcache (c, (β, x)) =
    Ret () (set_locks ({[L_bcache]} ∪ locks c) c, (β, x))).
  { rewrite acquire_run, decide_False; done. }
  set (c1 := set_locks ({[L_bcache]} ∪ locks c) c) in *.
  assert (Hrel : ∀ β', release L_bcache (c1, (β', x)) = Ret () (c, (β', x))).
  { intros β'. rewrite release_run, decide_True by (simpl; set_solver). simpl. do 2 f_equal.
    destruct c as [lk ps np ip cu]. unfold c1, set_locks; simpl in *. f_equal. set_solver. }
  assert (Hloop : bget dev sec (c, (β, x)) = bget_loop dev sec (c1, (β, x))).
  { unfold bget. by rewrite (bind_eq _ _ _ _ _ Hacq). }
  rewrite Hloop. unfold bget_loop. rewrite (bind_eq _ _ _ _ _ (getb_run _ _ _ _ _ _ Hh)).
  assert (Hscan : scan_next (S NBUF) (bufs β) dev sec (next h) =
    Some (List.find (holds (bufs β) dev sec) l)).
  { rewrite Hnx. apply scan_next_spec; [done..| |lia]. intros i Hi. by apply R5. }
  erewrite bind_eq by reflexivity. cbn [snd fst]. rewrite Hscan.
  erewrite bind_eq by reflexivity.
  destruct (List.find (holds (bufs β) dev sec) l) as [b|] eqn:Hf.
  - apply find_lookup in Hf as [Hb _]. apply R5 in Hb.
    destruct (lookup_lt_is_Some_2 (bufs β) b) as [y Hy]; [lia|]. exists y. split; [done|].
    rewrite (bind_eq _ _ _ _ _ (getb_run _ _ _ _ _ _ Hy)).
    destruct (Z.land (flags y) B_BUSY =? 0).
    + erewrite bind_eq by reflexivity. rewrite (bind_eq _ _ _ _ _ (Hrel _)). reflexivity.
    + assert (never (sleep (S := core * (bio * Ext)) (Ch_buf b) L_bcache ;; mret b)) as Hnv.
      { apply never_bind_l. unfold sleep. apply never_bind_r. intros [?|]; [|done].
        do 3 (apply never_bind_r; intros ?). apply never_sched. }
      apply Hnv.
  - rewrite (bind_eq _ _ _ _ _ (getb_run _ _ _ _ _ _ Hh)).
    assert (Hscan' : scan_prev (S NBUF) (bufs β) (prev h) =
      Some (List.find (recyclable (bufs β)) (rev l))).
    { rewrite Hpv. apply scan_prev_spec; [done..| |rewrite length_rev; lia].
      intros i Hi. apply R5. apply list_elem_of_In, in_rev. by apply list_elem_of_In. }
    erewrite bind_eq by reflexivity. cbn [snd fst]. rewrite Hscan'.
    erewrite bind_eq by reflexivity.
    destruct (List.find (recyclable (bufs β)) (rev l)) as [b|]; [|done].
    do 3 (erewrite bind_eq by reflexivity). rewrite (bind_eq _ _ _ _ _ (Hrel _)).
    unfold upd_buf, mret, M_ret. simpl. by rewrite !list_alter_alter_eq.
Qed.

Definition mark_free (b : buf) : buf := set_flags (Z.land (flags b) (Z.lnot B_BUSY)) b.

(** [brelse]: the buffer moves to the front and who waits for it is woken. *)
Lemma brelse_run c β x l b l' y :
  ring (bufs β) (l ++ b :: l') → bufs β !! b = Some y → busy y →
  L_bcache ∉ locks c → L_ptable ∉ locks c →
  brelse b (c, (β, x)) =
    Ret () (set_ptable (wakeup1_proc (Ch_buf b) <$> ptable c) c,
      (mkBio (alter mark_free b (link_front b (unlink b (bufs β)))) (disk β) (dtrace β), x)).
Proof.
  intros R Hy Hbusy Hl1 Hl2. pose proof R as [R1 R2 R3 R4 R5].
  unfold brelse. rewrite (bind_eq _ _ _ _ _ (getb_run _ _ _ _ _ _ Hy)).
  rewrite (proj2 (Z.eqb_neq _ _) Hbusy).
  erewrite bind_eq by (rewrite acquire_run, decide_False; done). simpl.
  set (c1 := set_locks ({[L_bcache]} ∪ locks c) c).
  rewrite (bind_eq _ _ _ _ _ (getb_run _ _ _ _ _ _ Hy)).
  rewrite (bind_eq _ _ _ _ _ (getb_run _ _ _ _ _ _ Hy)).
  assert (Hn : next y = nx (bufs β) b) by (unfold nx; by rewrite Hy).
  assert (Hp : prev y = pv (bufs β) b) by (unfold pv; by rewrite Hy).
  rewrite Hn, Hp.
  do 2 (erewrite bind_eq by reflexivity). cbn [fst snd].
  change (upd_buf (pv (bufs β) b) (set_next (nx (bufs β) b))
    (upd_buf (nx (bufs β) b) (set_prev (pv (bufs β) b)) β))
    with (mkBio (unlink b (bufs β)) (disk β) (dtrace β)).
  set (bs2 := unlink b (bufs β)).
  assert (L2 : length bs2 = S NBUF) by (unfold bs2, unlink; by rewrite !length_alter).
  destruct (lookup_lt_is_Some_2 bs2 NBUF) as [h Hh]; [lia|].
  assert (Hhn : next h = nx bs2 NBUF) by (unfold nx; by rewrite Hh).
  rewrite (bind_eq _ _ _ _ _ (getb_run _ _ _ (mkBio bs2 (disk β) (dtrace β)) _ _ Hh)).
  rewrite Hhn. do 2 (erewrite bind_eq by reflexivity). cbn [fst snd]. unfold upd_buf at 1 2.
  cbn [bufs disk dtrace].
  set (bs3 := alter (set_prev NBUF) b (alter (set_next (nx bs2 NBUF)) b bs2)).
  assert (Hb : (b < NBUF)%nat) by (apply R5; set_solver).
  assert (Hh3 : bs3 !! NBUF = Some h).
  { unfold bs3. rewrite !list_lookup_alter_ne by lia. done. }
  rewrite (bind_eq _ _ _ _ _ (getb_run _ _ _ (mkBio bs3 (disk β) (dtrace β)) _ _ Hh3)).
  rewrite Hhn. do 3 (erewrite bind_eq by reflexivity). cbn [fst snd]. unfold upd_buf.
  cbn [bufs disk dtrace].
  assert (Hw : ∀ s : core * (bio * Ext), fst s = c1 → wakeup (Ch_buf b) s =
    Ret () (set_ptable (wakeup1_proc (Ch_buf b) <$> ptable c) c1, snd s)).
  { intros [c' s'] Hc. simpl in Hc. subst c'. rewrite wakeup_run; [done|]. simpl.
    intros [?%elem_of_singleton|?]%elem_of_union; done. }
  erewrite bind_eq by (by apply Hw). rewrite release_run, decide_True by (simpl; set_solver).
  simpl. do 2 f_equal. destruct c as [lk ps np ip cu].
  unfold c1, set_locks, set_ptable; simpl in *. f_equal. set_solver.
Qed.

End Runs.

(** ** Flags *)

Lemma land_pow2 f k : 0 ≤ k → Z.land f (2 ^ k) = if Z.testbit f k then 2 ^ k else 0.
Proof.
  intros Hk. apply Z.bits_inj'. intros n Hn. rewrite Z.land_spec, Z.pow2_bits_eqb by done.
  destruct (Z.eqb_spec k n) as [->|Hne].
  - rewrite andb_true_r. destruct (Z.testbit f n); [by rewrite Z.pow2_bits_true|by rewrite Z.bits_0].
  - rewrite andb_false_r. destruct (Z.testbit f k); [|by rewrite Z.bits_0].
    by rewrite Z.pow2_bits_false.
Qed.

Definition is_busy (y : buf) : bool := Z.testbit (flags y) 0.
Definition is_valid (y : buf) : bool := Z.testbit (flags y) 1.
Definition is_dirty (y : buf) : bool := Z.testbit (flags y) 2.

Lemma land_busy f : (Z.land f B_BUSY =? 0) = negb (Z.testbit f 0).
Proof. change B_BUSY with (2 ^ 0). rewrite land_pow2 by done. by destruct (Z.testbit f 0). Qed.
Lemma land_valid f : (Z.land f B_VALID =? 0) = negb (Z.testbit f 1).
Proof. change B_VALID with (2 ^ 1). rewrite land_pow2 by done. by destruct (Z.testbit f 1). Qed.
Lemma land_dirty f : (Z.land f B_DIRTY =? 0) = negb (Z.testbit f 2).
Proof. change B_DIRTY with (2 ^ 2). rewrite land_pow2 by done. by destruct (Z.testbit f 2). Qed.
Lemma land_valid_dirty f :
  (Z.land f (Z.lor B_VALID B_DIRTY) =? B_VALID) = Z.testbit f 1 && negb (Z.testbit f 2).
Proof.
  change B_DIRTY with (2 ^ 2). change B_VALID with (2 ^ 1).
  rewrite Z.land_lor_distr_r, !land_pow2 by done.
  by destruct (Z.testbit f 1), (Z.testbit f 2).
Qed.

Lemma busy_is y : busy y ↔ is_busy y = true.
Proof.
  unfold busy, is_busy. pose proof (land_busy (flags y)) as H.
  destruct (Z.eqb_spec (Z.land (flags y) B_BUSY) 0), (Z.testbit (flags y) 0); naive_solver.
Qed.

(** The flag updates of bio.c and memide.c. *)
Lemma bits_lor f k j : 0 ≤ j → 0 ≤ k →
  Z.testbit (Z.lor f (2 ^ k)) j = Z.testbit f j || (k =? j).
Proof. intros. by rewrite Z.lor_spec, Z.pow2_bits_eqb. Qed.
Lemma bits_clear f k j : 0 ≤ j → 0 ≤ k →
  Z.testbit (Z.land f (Z.lnot (2 ^ k))) j = Z.testbit f j && negb (k =? j).
Proof. intros. by rewrite Z.land_spec, Z.lnot_spec, Z.pow2_bits_eqb. Qed.

Definition add_flag (k : Z) (y : buf) : buf := set_flags (Z.lor (flags y) (2 ^ k)) y.
Definition del_flag (k : Z) (y : buf) : buf := set_flags (Z.land (flags y) (Z.lnot (2 ^ k))) y.

(** ** Coherence *)

(** What a reader of sector [n] sees: the cached copy if there is a valid one,
    else the disk. *)
Definition dsk (β : bio) (n : Z) : list Z := default [] (disk β !! Z.to_nat n).
Definition view (β : bio) (n : Z) : list Z :=
  match List.find (holds (bufs β) ROOTDEV n) (seq 0 NBUF) with
  | Some b =>
      match bufs β !! b with
      | Some y => if is_valid y then bdata y else dsk β n
      | None => dsk β n
      end
  | None => dsk β n
  end.

(** A sector's worth of bytes. *)
Definition block_ok (v : list Z) : Prop := length v = BSIZE ∧ Forall is_byte v.

(** The cache is consistent: one list of all buffers; a sector is cached once;
    a buffer that is clean and nobody's is what the disk holds. *)
Record bio_ok (β : bio) : Prop := {
  bo_ring : ∃ l, ring (bufs β) l;
  bo_once i j : (i < NBUF)%nat → (j < NBUF)%nat →
    ∀ n, holds (bufs β) ROOTDEV n i = true → holds (bufs β) ROOTDEV n j = true → i = j;
  bo_clean i y : (i < NBUF)%nat → bufs β !! i = Some y →
    is_valid y = true → is_dirty y = false → is_busy y = false → bdata y = dsk β (sector y);
  bo_dev i y : (i < NBUF)%nat → bufs β !! i = Some y →
    is_valid y = true ∨ is_busy y = true → bdev y = ROOTDEV;
  bo_dirty i y : (i < NBUF)%nat → bufs β !! i = Some y → is_dirty y = true → is_valid y = true;
  bo_sector i y : (i < NBUF)%nat → bufs β !! i = Some y → 0 ≤ sector y;
  bo_block i y : (i < NBUF)%nat → bufs β !! i = Some y → block_ok (bdata y);
  bo_disk : Forall block_ok (disk β) }.

(** Buffer [b] is in use for sector [n] and holds its data. *)
Definition owned (β : bio) (b : nat) (n : Z) (v : list Z) : Prop :=
  (b < NBUF)%nat ∧ ∃ y, bufs β !! b = Some y ∧ is_busy y = true ∧ is_valid y = true ∧
    bdev y = ROOTDEV ∧ sector y = n ∧ bdata y = v.

Lemma holds_lookup bs dev n i y :
  bs !! i = Some y → holds bs dev n i = true ↔ bdev y = dev ∧ sector y = n.
Proof. intros H. unfold holds. rewrite H. destruct (Z.eqb_spec (bdev y) dev), (Z.eqb_spec (sector y) n); naive_solver. Qed.

Lemma view_cached β n i y :
  bio_ok β → (i < NBUF)%nat → bufs β !! i = Some y → bdev y = ROOTDEV → sector y = n →
  view β n = if is_valid y then bdata y else dsk β n.
Proof.
  intros Hok Hi Hy Hd Hn. unfold view.
  assert (Hh : holds (bufs β) ROOTDEV n i = true) by (by apply (holds_lookup _ _ _ _ y)).
  destruct (List.find _ _) as [b|] eqn:Hf.
  - apply find_lookup in Hf as [Hb Hbh]. apply elem_of_seq in Hb.
    assert (b = i) as -> by (apply (bo_once _ Hok b i) with n; [lia|done..]). by rewrite Hy.
  - pose proof (find_none _ _ Hf i) as Hno. rewrite Hno in Hh; [done|]. apply in_seq. lia.
Qed.

Lemma view_uncached β n :
  (∀ i y, (i < NBUF)%nat → bufs β !! i = Some y → ¬ (bdev y = ROOTDEV ∧ sector y = n)) →
  view β n = dsk β n.
Proof.
  intros H. unfold view. destruct (List.find _ _) as [b|] eqn:Hf; [|done].
  apply find_lookup in Hf as [Hb Hbh]. apply elem_of_seq in Hb.
  destruct (bufs β !! b) as [y|] eqn:Hy; [|done].
  apply (holds_lookup _ _ _ _ y) in Hbh; [|done]. destruct (H b y); [lia|done|done].
Qed.

(** *** Changing one buffer *)

Definition keeps_links (f : buf → buf) : Prop := ∀ b, next (f b) = next b ∧ prev (f b) = prev b.
Definition at1 (y : buf) (n : Z) : Prop := bdev y = ROOTDEV ∧ sector y = n.

Lemma bio_ok_upd β i y f d t :
  bio_ok β → (i < NBUF)%nat → bufs β !! i = Some y → keeps_links f →
  let β' := mkBio (alter f i (bufs β)) d t in
  (is_valid (f y) = true ∨ is_busy (f y) = true → bdev (f y) = ROOTDEV) →
  (is_dirty (f y) = true → is_valid (f y) = true) → 0 ≤ sector (f y) →
  (∀ n j z, at1 (f y) n → j ≠ i → (j < NBUF)%nat → bufs β !! j = Some z → ¬ at1 z n) →
  (is_valid (f y) = true → is_dirty (f y) = false → is_busy (f y) = false →
     bdata (f y) = dsk β' (sector (f y))) →
  (∀ n, 0 ≤ n → dsk β' n = dsk β n ∨ at1 y n) →
  block_ok (bdata (f y)) → Forall block_ok d →
  bio_ok β'.
Proof.
  intros Hok Hi Hy Hf β' Hdev Hdirty Hsec Honce Hclean Hdsk Hblk Hdk.
  assert (L : ∀ j z, bufs β' !! j = Some z → j = i ∧ z = f y ∨ j ≠ i ∧ bufs β !! j = Some z).
  { intros j z. simpl. rewrite list_lookup_alter. case_decide; subst; [|auto].
    rewrite Hy. intros [= <-]. auto. }
  constructor.
  - destruct (bo_ring _ Hok) as [l R]. exists l. by apply ring_upd.
  - assert (H1 : ∀ k n, (k < NBUF)%nat → holds (bufs β') ROOTDEV n k = true →
      k = i ∧ at1 (f y) n ∨ k ≠ i ∧ ∃ z, bufs β !! k = Some z ∧ at1 z n).
    { intros k n Hk Hh. destruct (bufs β' !! k) as [z|] eqn:Hz;
        [|unfold holds in Hh; by rewrite Hz in Hh].
      apply (holds_lookup _ _ _ _ z) in Hh; [|done].
      destruct (L k z Hz) as [[-> ->]|[Hne Hz']]; [by left|right]. eauto. }
    intros j k Hj Hk n Hjh Hkh.
    destruct (H1 j n Hj Hjh) as [[-> Ha]|[Hne (z & Hz & Ha)]];
      destruct (H1 k n Hk Hkh) as [[-> Ha']|[Hne' (z' & Hz' & Ha')]].
    + done.
    + exfalso. by apply (Honce n k z').
    + exfalso. by apply (Honce n j z).
    + apply (bo_once _ Hok j k Hj Hk n); by eapply holds_lookup.
  - intros j z Hj Hz Hv Hd Hb. destruct (L j z Hz) as [[-> ->]|[Hne Hz']]; [by apply Hclean|].
    rewrite (bo_clean _ Hok j z) by done.
    destruct (Hdsk (sector z)) as [->|Ha]; [by eapply (bo_sector _ Hok j)|done|].
    exfalso. assert (Hzd : bdev z = ROOTDEV) by (eapply (bo_dev _ Hok j); eauto).
    apply Hne. apply (bo_once _ Hok j i Hj Hi (sector z)); by eapply holds_lookup.
  - intros j z Hj Hz Hvb. destruct (L j z Hz) as [[-> ->]|[Hne Hz']]; [by apply Hdev|].
    by apply (bo_dev _ Hok j z).
  - intros j z Hj Hz Hd. destruct (L j z Hz) as [[-> ->]|[Hne Hz']]; [by apply Hdirty|].
    by apply (bo_dirty _ Hok j z).
  - intros j z Hj Hz. destruct (L j z Hz) as [[-> ->]|[Hne Hz']]; [done|].
    by apply (bo_sector _ Hok j z).
  - intros j z Hj Hz. destruct (L j z Hz) as [[-> ->]|[Hne Hz']]; [done|].
    by apply (bo_block _ Hok j z).
  - done.
Qed.

Lemma find_ext (P Q : nat → bool) l :
  (∀ k, k ∈ l → P k = Q k) → List.find P l = List.find Q l.
Proof.
  induction l as [|k l IH]; intros H; [done|]. simpl. rewrite H by set_solver.
  rewrite IH; [done|]. intros. apply H. set_solver.
Qed.

Lemma view_other β i y f d t n :
  bufs β !! i = Some y → (i < NBUF)%nat → ¬ at1 y n → ¬ at1 (f y) n →
  let β' := mkBio (alter f i (bufs β)) d t in dsk β' n = dsk β n → view β' n = view β n.
Proof.
  intros Hy Hi Hn1 Hn2 β' Hd. unfold view. rewrite Hd.
  assert (Hh : ∀ k, holds (bufs β') ROOTDEV n k = holds (bufs β) ROOTDEV n k).
  { intros k. unfold holds. simpl. rewrite list_lookup_alter. case_decide; [|done]. subst k.
    rewrite Hy. simpl. unfold at1 in *.
    destruct (Z.eqb_spec (bdev (f y)) ROOTDEV), (Z.eqb_spec (sector (f y)) n),
      (Z.eqb_spec (bdev y) ROOTDEV), (Z.eqb_spec (sector y) n); naive_solver. }
  rewrite (find_ext _ (holds (bufs β) ROOTDEV n)) by auto.
  destruct (List.find _ _) as [b|] eqn:Hf; [|done].
  apply find_lookup in Hf as [_ Hbh]. simpl. rewrite list_lookup_alter_ne; [done|].
  intros <-. apply (holds_lookup _ _ _ _ y) in Hbh; done.
Qed.

(** *** What one operation does to the cache *)

Definition content (y : buf) : Z * Z * Z * list Z := (flags y, bdev y, sector y, bdata y).

(** Only buffer [b] changes, links apart. *)
Definition others (b : nat) (β β' : bio) : Prop :=
  ∀ j, j ≠ b → content <$> bufs β' !! j = content <$> bufs β !! j.

Definition flagged (k : Z) (β : bio) (i : nat) : bool :=
  match bufs β !! i with Some y => Z.testbit (flags y) k | None => false end.
(** The buffers with flag bit [k]. *)
Definition flagset (k : Z) (β : bio) : gset nat :=
  filter (λ i, flagged k β i = true) (set_seq 0 NBUF).
Definition busys : bio → gset nat := flagset 0.
Definition dirtys : bio → gset nat := flagset 2.

Definition settled (β : bio) (b : nat) : Prop :=
  ∃ y, bufs β !! b = Some y ∧ (is_dirty y = true ∨ bdata y = dsk β (sector y)).

(** [β'] is [β] with buffer [b] in use for sector [n] with data [v]. *)
Record holding_buf (β : bio) (b : nat) (n : Z) (v : list Z) (β' : bio) : Prop := {
  hb_ok : bio_ok β';
  hb_owned : owned β' b n v;
  hb_others : others b β β';
  hb_view m : 0 ≤ m → view β' m = if decide (m = n) then v else view β m }.

Lemma elem_flagset k β i :
  i ∈ flagset k β ↔ (i < NBUF)%nat ∧ ∃ y, bufs β !! i = Some y ∧ Z.testbit (flags y) k = true.
Proof.
  unfold flagset. rewrite elem_of_filter, elem_of_set_seq. unfold flagged.
  split.
  - intros [H1 H2]. split; [lia|]. destruct (bufs β !! i); [eauto|done].
  - intros [H1 (y & -> & H2)]. split; [done|lia].
Qed.

Lemma flagset_alter k β b y f d t :
  (b < NBUF)%nat → bufs β !! b = Some y →
  flagset k (mkBio (alter f b (bufs β)) d t) =
    if Z.testbit (flags (f y)) k then {[b]} ∪ flagset k β else flagset k β ∖ {[b]}.
Proof.
  intros Hb Hy. apply set_eq. intros i. rewrite elem_flagset. simpl.
  rewrite list_lookup_alter. destruct (Z.testbit (flags (f y)) k) eqn:E; case_decide.
  - subst i. rewrite Hy, elem_of_union, elem_of_singleton.
    split; [by left|]. intros _. split; [done|]. by exists (f y).
  - rewrite elem_of_union, elem_flagset, elem_of_singleton.
    split; [by right|]. by intros [->|Hb'].
  - subst i. rewrite Hy, elem_of_difference, elem_of_singleton.
    split; [|by intros [_ Hb']]. intros (_ & z & [= <-] & Hb'). congruence.
  - rewrite elem_of_difference, elem_flagset, elem_of_singleton.
    split; [|by intros [Hb' _]]. intros Hb'. by split; [|congruence].
Qed.

Lemma flagset_keep k β b y f d t :
  (b < NBUF)%nat → bufs β !! b = Some y → Z.testbit (flags (f y)) k = Z.testbit (flags y) k →
  flagset k (mkBio (alter f b (bufs β)) d t) = flagset k β.
Proof.
  intros Hb Hy E. rewrite (flagset_alter _ _ _ y) by done. rewrite E. apply set_eq. intros i.
  destruct (Z.testbit (flags y) k) eqn:E'.
  - rewrite elem_of_union, elem_of_singleton. split; [|auto]. intros [->|]; [|done].
    apply elem_flagset. eauto.
  - rewrite elem_of_difference, elem_of_singleton. split; [tauto|]. intros H. split; [done|].
    intros ->. apply elem_flagset in H as (_ & z & Hz & Ht). congruence.
Qed.

Lemma others_alter β b f d t : others b β (mkBio (alter f b (bufs β)) d t).
Proof. intros j Hj. simpl. by rewrite list_lookup_alter_ne. Qed.

Lemma others_owned b β β' j n v : others b β β' → j ≠ b → owned β j n v → owned β' j n v.
Proof.
  intros Ho Hj (Hl & y & Hy & H). split; [done|]. specialize (Ho j Hj). rewrite Hy in Ho.
  destruct (bufs β' !! j) as [y'|] eqn:Hy'; [|done]. simpl in Ho. injection Ho as H1 H2 H3 H4.
  exists y'. unfold is_busy, is_valid in *. rewrite H1, H2, H3, H4. done.
Qed.

Lemma others_settled b β β' j n v :
  others b β β' → j ≠ b → owned β j n v → dsk β' n = dsk β n → settled β j → settled β' j.
Proof.
  intros Ho Hj (Hl & y & Hy & _ & _ & _ & Hn & _) Hd (y' & Hy2 & H). rewrite Hy in Hy2. injection Hy2 as <-.
  specialize (Ho j Hj). rewrite Hy in Ho.
  destruct (bufs β' !! j) as [z|] eqn:Hz; [|done]. simpl in Ho. injection Ho as H1 H2 H3 H4.
  exists z. split; [done|]. unfold is_dirty in *. rewrite H1, H3, H4. subst n. by rewrite Hd.
Qed.

Lemma others_trans b β β' β'' : others b β β' → others b β' β'' → others b β β''.
Proof. intros H1 H2 j Hj. rewrite H2, H1; done. Qed.

(** Sector [m] has a dirty buffer. *)
Definition dirty_but (P : nat → Prop) (β : bio) (m : Z) : Prop :=
  ∃ i y, (i < NBUF)%nat ∧ P i ∧ bufs β !! i = Some y ∧ is_dirty y = true ∧ sector y = m.
Definition dirty_at : bio → Z → Prop := dirty_but (λ _, True).

Lemma dirty_at_split β b y m : (b < NBUF)%nat → bufs β !! b = Some y →
  dirty_at β m ↔ (is_dirty y = true ∧ sector y = m) ∨ dirty_but (λ i, i ≠ b) β m.
Proof.
  intros Hb Hy. split.
  - intros (i & z & Hi & _ & Hz & Hd & Hs). destruct (decide (i = b)) as [->|Hne].
    + left. by simplify_eq.
    + right. by exists i, z.
  - intros [[Hd Hs]|(i & z & Hi & _ & H)]; [by exists b, y|by exists i, z].
Qed.

Lemma dirty_but_alter β b f d t m :
  dirty_but (λ i, i ≠ b) (mkBio (alter f b (bufs β)) d t) m ↔ dirty_but (λ i, i ≠ b) β m.
Proof.
  split; intros (i & z & Hi & Hne & Hz & H); exists i, z;
    simpl in *; rewrite list_lookup_alter_ne in *; by auto.
Qed.

Lemma dirty_at_alter β b y f d t m : (b < NBUF)%nat → bufs β !! b = Some y →
  dirty_at (mkBio (alter f b (bufs β)) d t) m ↔
    (is_dirty (f y) = true ∧ sector (f y) = m) ∨ dirty_but (λ i, i ≠ b) β m.
Proof.
  intros Hb Hy. rewrite (dirty_at_split _ b (f y)), dirty_but_alter; [done..|].
  simpl. by rewrite list_lookup_alter_eq, Hy.
Qed.

Lemma dirty_elsewhere β b y m : bio_ok β → (b < NBUF)%nat → bufs β !! b = Some y →
  bdev y = ROOTDEV → dirty_but (λ i, i ≠ b) β m → m ≠ sector y.
Proof.
  intros Hok Hb Hy Hd (i & z & Hi & Hne & Hz & Hdz & <-) E. apply Hne.
  apply (bo_once _ Hok i b Hi Hb (sector y)); eapply holds_lookup; eauto. split; [|done].
  apply (bo_dev _ Hok i z Hi Hz). left. by apply (bo_dirty _ Hok i z).
Qed.

Lemma dirtys_dirty_at β : dirtys β = ∅ ↔ ∀ m, ¬ dirty_at β m.
Proof.
  split.
  - intros H m (i & y & Hi & _ & Hy & Hd & _). apply (not_elem_of_empty (C := gset nat) i).
    rewrite <-H. apply elem_flagset. eauto.
  - intros H. apply set_eq. intros i. split; [|intros Hi; by apply not_elem_of_empty in Hi].
    intros (Hi & y & Hy & Hd)%elem_flagset. destruct (H (sector y)). by exists i, y.
Qed.

Lemma owned_inj β i j n v w : bio_ok β → owned β i n v → owned β j n w → i = j.
Proof.
  intros Hok (Hi & y & Hy & _ & _ & Hd & Hs & _) (Hj & z & Hz & _ & _ & Hd' & Hs' & _).
  apply (bo_once _ Hok i j Hi Hj n); by eapply holds_lookup.
Qed.

Lemma owned_view β b n v : bio_ok β → owned β b n v → view β n = v.
Proof.
  intros Hok (Hb & y & Hy & _ & Hv & Hd & Hs & <-). by rewrite (view_cached β n b y), Hv.
Qed.

Lemma owned_busy β b n v : owned β b n v → b ∈ busys β.
Proof. intros (Hb & y & Hy & H & _). apply elem_flagset. eauto. Qed.

(** A buffer in use is given other flags or data. *)
Lemma holding_upd β b n v f w d t :
  bio_ok β → owned β b n v → keeps_links f →
  (∀ y, bdev (f y) = bdev y ∧ sector (f y) = sector y ∧
        (is_busy y = true → is_busy (f y) = true) ∧ (is_valid y = true → is_valid (f y) = true)) →
  (∀ y, bdata y = v → bdata (f y) = w) → block_ok w → Forall block_ok d →
  (∀ m, 0 ≤ m → default [] (d !! Z.to_nat m) = dsk β m ∨ m = n) →
  holding_buf β b n w (mkBio (alter f b (bufs β)) d t).
Proof.
  intros Hok Ho Hf Hk Hw Hblk Hdk Hd. pose proof Ho as (Hb & y & Hy & Hbusy & Hv & Hdv & Hs & Hdat).
  destruct (Hk y) as (Hk1 & Hk2 & Hk3 & Hk4).
  set (β' := mkBio (alter f b (bufs β)) d t).
  assert (Hy' : bufs β' !! b = Some (f y)) by (simpl; by rewrite list_lookup_alter_eq, Hy).
  assert (Hok' : bio_ok β').
  { apply (bio_ok_upd β b y); try done.
    - intros _. congruence.
    - intros _. auto.
    - rewrite Hk2. by apply (bo_sector _ Hok b y).
    - intros m j z [Hm1 Hm] Hne Hj Hz [Hz1 Hz2]. apply Hne.
      apply (bo_once _ Hok j b Hj Hb m); eapply holds_lookup; eauto; split; congruence.
    - intros _ _ H. rewrite Hk3 in H; done.
    - intros m Hm. destruct (Hd m Hm) as [H|H]; [by left|right; split; congruence].
    - by rewrite (Hw y). }
  assert (Ho' : owned β' b n w).
  { split; [done|]. exists (f y). split_and!; auto; congruence. }
  constructor; [done|done|apply others_alter|]. intros m Hm. case_decide as Hmn.
  - subst m. by apply (owned_view _ b).
  - apply (view_other β b y); try done; unfold at1; simpl; [intros [? ?]; congruence..|].
    destruct (Hd m Hm); [done|congruence].
Qed.

(** ** Specifications of the operations *)

Section CacheSpecs.
Context {Ext : Type}.
Implicit Types (c : core) (β : bio) (x : Ext).

Lemma land_busy_true y : is_busy y = true → (Z.land (flags y) B_BUSY =? 0) = false.
Proof. unfold is_busy. rewrite land_busy. by intros ->. Qed.

(** [iderw] reads or writes, by the dirty flag. *)
Lemma iderw_read_run c β x b y p :
  bufs β !! b = Some y → is_busy y = true → is_valid y = false → is_dirty y = false →
  bdev y = 1 → 0 ≤ sector y → disk β !! Z.to_nat (sector y) = Some p →
  iderw b (c, (β, x)) = Ret () (c, (upd_buf b (add_flag 1 ∘ set_bdata p) β, x)).
Proof.
  intros Hy Hbusy Hv Hd Hdev Hs Hp. unfold iderw, is_valid, is_dirty in *.
  rewrite (bind_eq _ _ _ _ _ (getb_run _ _ _ _ _ _ Hy)).
  rewrite (land_busy_true y) by done. rewrite land_valid_dirty, Hv. simpl.
  rewrite (bind_eq _ _ _ _ _ (getb_run _ _ _ _ _ _ Hy)). rewrite Hdev. simpl.
  rewrite (bind_eq _ _ _ _ _ (getb_run _ _ _ _ _ _ Hy)).
  erewrite bind_eq by reflexivity. cbn [fst snd].
  apply lookup_lt_Some in Hp as Hlt. unfold disksize.
  rewrite (proj2 (Z.leb_gt _ _)) by lia. rewrite land_dirty, Hd. simpl.
  unfold mbind, M_bind, getβ, gets, deref. simpl. rewrite Hp. simpl.
  unfold setb, modβ, modify, upd_buf. simpl. by rewrite list_alter_alter_eq.
Qed.

Lemma iderw_write_run c β x b y :
  bufs β !! b = Some y → is_busy y = true → is_dirty y = true →
  bdev y = 1 → 0 ≤ sector y < disksize β →
  iderw b (c, (β, x)) = Ret () (c,
    (mkBio (alter (add_flag 1 ∘ del_flag 2) b (bufs β)) (<[Z.to_nat (sector y) := bdata y]> (disk β))
       (dtrace β ++ [(sector y, bdata y)]), x)).
Proof.
  intros Hy Hbusy Hd Hdev Hs. unfold iderw, is_dirty in *.
  rewrite (bind_eq _ _ _ _ _ (getb_run _ _ _ _ _ _ Hy)).
  rewrite (land_busy_true y) by done. rewrite land_valid_dirty, Hd, andb_false_r.
  rewrite (bind_eq _ _ _ _ _ (getb_run _ _ _ _ _ _ Hy)). rewrite Hdev. simpl.
  rewrite (bind_eq _ _ _ _ _ (getb_run _ _ _ _ _ _ Hy)).
  erewrite bind_eq by reflexivity. cbn [fst snd].
  rewrite (proj2 (Z.leb_gt _ _)) by lia. rewrite land_dirty, Hd. simpl.
  unfold setb, modβ, modify, getb, getβ, gets, deref, upd_buf. simpl.
  unfold mbind, M_bind. simpl. rewrite list_lookup_alter_eq, Hy. simpl.
  by rewrite list_alter_alter_eq.
Qed.

Definition disk_sector β n : Prop := 0 ≤ n < disksize β.

Lemma dsk_block β n : Forall block_ok (disk β) → disk_sector β n →
  disk β !! Z.to_nat n = Some (dsk β n) ∧ block_ok (dsk β n).
Proof.
  intros Hf [H1 H2]. unfold disksize in H2.
  destruct (lookup_lt_is_Some_2 (disk β) (Z.to_nat n)) as [p Hp]; [lia|].
  unfold dsk. rewrite Hp. split; [done|]. by apply (Forall_lookup_1 _ _ _ _ Hf Hp).
Qed.

(** Buffer [b], nobody's and clean, is taken for sector [n]. *)
Lemma take_buf β b y n F :
  bio_ok β → disk_sector β n → (b < NBUF)%nat → bufs β !! b = Some y → is_busy y = false →
  keeps_links F → at1 (F y) n → is_busy (F y) = true → is_valid (F y) = true →
  is_dirty (F y) = is_dirty y → bdata (F y) = view β n →
  (is_dirty y = false → bdata (F y) = dsk β n) → block_ok (bdata (F y)) →
  (at1 y n ∨ is_dirty y = false ∧ ∀ j z, (j < NBUF)%nat → bufs β !! j = Some z → ¬ at1 z n) →
  let β' := upd_buf b F β in
  holding_buf β b n (view β n) β' ∧ settled β' b ∧ b ∉ busys β ∧
  busys β' = {[b]} ∪ busys β ∧ dirtys β' = dirtys β ∧ ∀ m, dirty_at β' m ↔ dirty_at β m.
Proof.
  intros Hok Hn Hb Hy Hnb HF [Ha1 Ha2] Hbusy Hv Hd Hdat Hclean Hblk Hor β'.
  assert (Hy' : bufs β' !! b = Some (F y)) by (simpl; by rewrite list_lookup_alter_eq, Hy).
  assert (Hok' : bio_ok β').
  { apply (bio_ok_upd β b y); try done.
    - rewrite Ha2. apply Hn.
    - intros m j z [Hm1 Hm2] Hne Hj Hz Hat. assert (m = n) as -> by congruence.
      destruct Hor as [[Hz1 Hz2]|[_ Hno]]; [|by apply (Hno j z)].
      apply Hne. destruct Hat. apply (bo_once _ Hok j b Hj Hb n); by eapply holds_lookup.
    - intros _ _ H. congruence.
    - intros m _. by left.
    - apply (bo_disk _ Hok). }
  assert (Ho' : owned β' b n (view β n)) by (split; [done|]; exists (F y); by split_and!).
  split_and!.
  - constructor; [done|done|apply others_alter|]. intros m Hm. case_decide as Hmn.
    + subst m. by apply (owned_view _ b).
    + destruct (decide (at1 y m)) as [[Hm1 Hm2]|Hnm].
      * destruct Hor as [[? ?]|[Hyd Hno]]; [congruence|].
        rewrite (view_cached β m b y), (view_uncached β') by
          (done || (intros i z Hi; simpl; rewrite list_lookup_alter; case_decide;
            [subst i; rewrite Hy; intros [= <-] [? ?]; congruence|
             intros Hz [? ?]; apply H; symmetry;
             apply (bo_once _ Hok i b Hi Hb m); eapply holds_lookup; eauto; done])).
        destruct (is_valid y) eqn:Hyv; [|done].
        rewrite (bo_clean _ Hok b y), Hm2 by done. done.
      * apply (view_other β b y); try done; unfold at1; intros [? ?]; congruence.
  - exists (F y). split; [done|]. rewrite Hd, Ha2. destruct (is_dirty y); auto.
  - intros Hin. apply elem_flagset in Hin as (_ & z & Hz & Hzb). unfold is_busy in *. congruence.
  - unfold busys, β', upd_buf. rewrite (flagset_alter _ _ _ y) by done.
    unfold is_busy in Hbusy. by rewrite Hbusy.
  - unfold dirtys. by apply (flagset_keep _ _ _ y).
  - intros m. unfold β', upd_buf. rewrite (dirty_at_alter _ _ y), (dirty_at_split β b y) by done.
    rewrite Hd, Ha2. destruct Hor as [[_ ->]|[-> _]]; [done|]. intuition done.
Qed.

Definition no_busy_at β n : Prop :=
  ∀ i y, (i < NBUF)%nat → bufs β !! i = Some y → at1 y n → is_busy y = false.

(** The locks are free: what every block operation assumes of its caller. *)
Definition bio_free c : Prop := L_bcache ∉ locks c ∧ L_ptable ∉ locks c.

Lemma recyclable_exists β l :
  ring (bufs β) l → (size (busys β ∪ dirtys β) < NBUF)%nat →
  ∃ b, List.find (recyclable (bufs β)) (rev l) = Some b.
Proof.
  intros R Hsz. destruct (List.find _ _) eqn:E; [eauto|]. exfalso.
  assert (Hall : set_seq 0 NBUF ⊆ busys β ∪ dirtys β).
  { intros i Hi. apply elem_of_set_seq in Hi.
    assert (Hli : i ∈ l) by (apply (rg_all _ _ R); lia).
    pose proof (find_none _ _ E i) as H.
    rewrite <-in_rev, <-list_elem_of_In in H. specialize (H Hli).
    unfold recyclable in H. destruct (lookup_lt_is_Some_2 (bufs β) i) as [y Hy].
    { rewrite (rg_len _ _ R). lia. }
    rewrite Hy, land_busy, land_dirty in H. apply elem_of_union.
    unfold busys, dirtys. rewrite !elem_flagset.
    destruct (Z.testbit (flags y) 0) eqn:E0; [left; split; [lia|eauto]|].
    destruct (Z.testbit (flags y) 2) eqn:E2; [right; split; [lia|eauto]|done]. }
  apply subseteq_size in Hall. rewrite size_set_seq in Hall. lia.
Qed.

Definition bread_post c β x n (b : nat) (s' : core * (bio * Ext)) : Prop :=
  ∃ β', s' = (c, (β', x)) ∧ disk β' = disk β ∧ dtrace β' = dtrace β ∧
    holding_buf β b n (view β n) β' ∧ settled β' b ∧ b ∉ busys β ∧
    busys β' = {[b]} ∪ busys β ∧ dirtys β' = dirtys β ∧ ∀ m, dirty_at β' m ↔ dirty_at β m.

(** [bread] after [bget] has taken [b]. *)
Lemma bread_finish c β x n b y G :
  bio_ok β → disk_sector β n → (b < NBUF)%nat → bufs β !! b = Some y → is_busy y = false →
  keeps_links G → at1 (G y) n → is_busy (G y) = true → bdata (G y) = bdata y →
  is_dirty (G y) = is_dirty y →
  (is_valid (G y) = true ∧ is_valid y = true ∧ at1 y n ∨
   is_valid (G y) = false ∧ is_dirty y = false ∧ view β n = dsk β n ∧
   (at1 y n ∨ ∀ j z, (j < NBUF)%nat → bufs β !! j = Some z → ¬ at1 z n)) →
  bget ROOTDEV n (c, (β, x)) = Ret b (c, (upd_buf b G β, x)) →
  wp (bread ROOTDEV n) (bread_post c β x n) (c, (β, x)).
Proof.
  intros Hok Hn Hb Hy Hnb HG [Ha1 Ha2] Hbusy Hdat Hd Hcase Hget. unfold bread.
  unfold wp. rewrite (bind_eq _ _ _ _ _ Hget). set (β1 := upd_buf b G β) in *.
  assert (Hy1 : bufs β1 !! b = Some (G y)) by (simpl; by rewrite list_lookup_alter_eq, Hy).
  rewrite (bind_eq _ _ _ _ _ (getb_run _ _ _ _ _ _ Hy1)). rewrite land_valid.
  change (Z.testbit (flags (G y)) 1) with (is_valid (G y)).
  destruct Hcase as [(Hv & Hyv & Hya1 & Hya2)|(Hv & Hyd & Hview & Hor)]; rewrite Hv; simpl.
  - exists β1. split; [done|]. split; [done|]. split; [done|]. unfold β1.
    assert (Hvw : bdata (G y) = view β n) by (by rewrite Hdat, (view_cached β n b y), Hyv).
    apply (take_buf β b y n G); try done.
    + intros Hcl. rewrite Hdat, <-Hya2. by apply (bo_clean _ Hok b y).
    + rewrite Hdat. by apply (bo_block _ Hok b y).
    + left. by split.
  - destruct (dsk_block β n (bo_disk _ Hok) Hn) as [Hp Hpb].
    assert (Hrd := iderw_read_run c β1 x b (G y) (dsk β n) Hy1 Hbusy Hv).
    rewrite Ha2 in Hrd. rewrite (bind_eq _ _ _ _ _ (Hrd ltac:(congruence) Ha1 (proj1 Hn) Hp)).
    set (F := (add_flag 1 ∘ set_bdata (dsk β n)) ∘ G).
    assert (Eβ : upd_buf b (add_flag 1 ∘ set_bdata (dsk β n)) β1 = upd_buf b F β).
    { unfold upd_buf, F, β1. simpl. by rewrite list_alter_alter_eq. }
    rewrite Eβ. exists (upd_buf b F β). do 3 (split; [done|]).
    assert (Hbits : ∀ k, 0 ≤ k → k ≠ 1 →
      Z.testbit (flags (F y)) k = Z.testbit (flags (G y)) k).
    { intros k Hk Hk1. unfold F, compose, add_flag. cbn [flags set_flags set_bdata]. rewrite (bits_lor _ 1) by lia.
      rewrite (proj2 (Z.eqb_neq 1 k)) by lia. by rewrite orb_false_r. }
    apply (take_buf β b y n F); try done.
    + unfold is_busy. rewrite Hbits by lia. done.
    + unfold is_valid, F, compose, add_flag. cbn [flags set_flags set_bdata]. rewrite (bits_lor _ 1) by lia. by rewrite orb_true_r.
    + unfold is_dirty. rewrite Hbits by lia. done.
    + destruct Hor as [H|H]; [by left|by right].
Qed.

(** [bread] of a sector nobody holds, with a buffer left, returns a buffer in
    use with what a reader of the sector sees, and changes nothing else. *)
Lemma bread_spec c β x n :
  bio_ok β → bio_free c → disk_sector β n → no_busy_at β n →
  (size (busys β ∪ dirtys β) < NBUF)%nat →
  wp (bread ROOTDEV n) (bread_post c β x n) (c, (β, x)).
Proof.
  intros Hok [Hl _] Hn Hnb Hsz. destruct (bo_ring _ Hok) as [l R].
  pose proof (bget_run c β x l ROOTDEV n R Hl) as Hrun.
  destruct (List.find (holds (bufs β) ROOTDEV n) l) as [b|] eqn:Hf.
  - destruct Hrun as (y & Hy & Hrun). apply find_lookup in Hf as [Hb Hh].
    apply (rg_all _ _ R) in Hb. apply (holds_lookup _ _ _ _ y) in Hh; [|done].
    assert (Hyb : is_busy y = false) by (by apply (Hnb b)).
    rewrite land_busy in Hrun. unfold is_busy in Hyb. rewrite Hyb in Hrun. simpl in Hrun.
    assert (Hm : ∀ k, 0 ≤ k → Z.testbit (flags (mark_busy y)) k = Z.testbit (flags y) k || (0 =? k)).
    { intros k Hk. by apply (bits_lor _ 0). }
    apply (bread_finish c β x n b y mark_busy); try done.
    + unfold is_busy. rewrite Hm by done. by rewrite orb_true_r.
    + unfold is_dirty. rewrite Hm by done. by rewrite orb_false_r.
    + unfold is_valid, is_dirty. rewrite Hm by done. rewrite orb_false_r.
      destruct (Z.testbit (flags y) 1) eqn:Hv; [left; by split_and!|right].
      split_and!; [done| | |by left].
      * destruct (Z.testbit (flags y) 2) eqn:Hd; [|done].
        pose proof (bo_dirty _ Hok b y Hb Hy Hd). unfold is_valid in *. congruence.
      * destruct Hh. rewrite (view_cached β n b y) by done. unfold is_valid. by rewrite Hv.
  - destruct (recyclable_exists β l R Hsz) as [b Hb]. rewrite Hb in Hrun.
    apply find_lookup in Hb as [Hb Hrec].
    assert (Hbl : (b < NBUF)%nat).
    { apply (rg_all _ _ R), list_elem_of_In, in_rev, list_elem_of_In. done. }
    unfold recyclable in Hrec. destruct (bufs β !! b) as [y|] eqn:Hy; [|done].
    rewrite land_busy, land_dirty in Hrec. apply andb_prop in Hrec as [H0 H2].
    apply negb_true_iff in H0, H2.
    assert (Hno : ∀ j z, (j < NBUF)%nat → bufs β !! j = Some z → ¬ at1 z n).
    { intros j z Hj Hz Hat. assert (Hjl : j ∈ l) by (by apply (rg_all _ _ R)).
      pose proof (find_none _ _ Hf j) as H. rewrite <-list_elem_of_In in H.
      specialize (H Hjl). rewrite (proj2 (holds_lookup _ _ _ _ z Hz) Hat) in H. done. }
    apply (bread_finish c β x n b y (recycle ROOTDEV n)); try done.
    right. split_and!; [done|done| |by right]. by apply view_uncached.
Qed.

(** New data in a buffer in use. *)
Lemma set_data_spec c β x b n v w :
  bio_ok β → owned β b n v → block_ok w →
  wp (setb b (set_bdata w)) (λ _ s', ∃ β', s' = (c, (β', x)) ∧
      disk β' = disk β ∧ dtrace β' = dtrace β ∧ holding_buf β b n w β' ∧
      busys β' = busys β ∧ dirtys β' = dirtys β ∧ ∀ m, dirty_at β' m ↔ dirty_at β m)
    (c, (β, x)).
Proof.
  intros Hok Ho Hw. pose proof Ho as (Hb & y & Hy & _).
  exists (upd_buf b (set_bdata w) β). do 3 (split; [done|]). split_and!.
  - apply (holding_upd β b n v); try done; [apply (bo_disk _ Hok)|by left].
  - by apply (flagset_keep _ _ _ y).
  - by apply (flagset_keep _ _ _ y).
  - intros m. unfold upd_buf. by rewrite (dirty_at_alter _ _ y), (dirty_at_split β b y).
Qed.

(** Pinning a buffer in the cache. *)
Lemma mark_dirty_spec c β x b n v :
  bio_ok β → owned β b n v →
  wp (setb b (λ y, set_flags (Z.lor (flags y) B_DIRTY) y)) (λ _ s', ∃ β', s' = (c, (β', x)) ∧
      disk β' = disk β ∧ dtrace β' = dtrace β ∧ holding_buf β b n v β' ∧ settled β' b ∧
      busys β' = busys β ∧ dirtys β' = {[b]} ∪ dirtys β ∧
      ∀ m, dirty_at β' m ↔ dirty_at β m ∨ m = n) (c, (β, x)).
Proof.
  intros Hok Ho. pose proof Ho as (Hb & y & Hy & Hbusy & Hv & Hd & Hs & Hdat).
  set (β' := upd_buf b (add_flag 2) β).
  assert (Hbits : ∀ y k, 0 ≤ k → Z.testbit (flags (add_flag 2 y)) k = Z.testbit (flags y) k || (2 =? k)).
  { intros. by apply (bits_lor _ 2). }
  exists β'. do 3 (split; [done|]). split_and!.
  - apply (holding_upd β b n v); try done; [|subst v; by apply (bo_block _ Hok b y)
      |apply (bo_disk _ Hok)|by left].
    intros z. unfold is_busy, is_valid. rewrite !Hbits by done. rewrite !orb_false_r. done.
  - exists (add_flag 2 y). split; [simpl; by rewrite list_lookup_alter_eq, Hy|left].
    unfold is_dirty. rewrite Hbits by done. by rewrite orb_true_r.
  - apply (flagset_keep _ _ _ y); [done..|]. rewrite Hbits by done. by rewrite orb_false_r.
  - unfold dirtys, β', upd_buf. rewrite (flagset_alter _ _ _ y) by done.
    rewrite Hbits by done. by rewrite orb_true_r.
  - intros m. unfold β', upd_buf. rewrite (dirty_at_alter _ _ y), (dirty_at_split β b y) by done.
    unfold is_dirty at 1. rewrite Hbits, orb_true_r by done. simpl. rewrite Hs. intuition.
Qed.

(** [bwrite]: the disk holds the data, one sector write is made. *)
Lemma bwrite_spec c β x b n v :
  bio_ok β → owned β b n v → disk_sector β n →
  wp (bwrite b) (λ _ s', ∃ β', s' = (c, (β', x)) ∧
      disk β' = <[Z.to_nat n := v]> (disk β) ∧ dtrace β' = dtrace β ++ [(n, v)] ∧
      holding_buf β b n v β' ∧ settled β' b ∧
      busys β' = busys β ∧ dirtys β' = dirtys β ∖ {[b]} ∧
      ∀ m, dirty_at β' m ↔ dirty_at β m ∧ m ≠ n) (c, (β, x)).
Proof.
  intros Hok Ho Hn. pose proof Ho as (Hb & y & Hy & Hbusy & Hv & Hd & Hs & Hdat).
  unfold wp, bwrite. rewrite (bind_eq _ _ _ _ _ (getb_run _ _ _ _ _ _ Hy)).
  rewrite (land_busy_true y) by done. erewrite bind_eq by reflexivity. cbn [fst snd].
  assert (Ha : ∀ y k, 0 ≤ k → Z.testbit (flags (add_flag 2 y)) k = Z.testbit (flags y) k || (2 =? k)).
  { intros. by apply (bits_lor _ 2). }
  change (upd_buf b _ β) with (upd_buf b (add_flag 2) β).
  rewrite (iderw_write_run _ _ _ _ (add_flag 2 y)); try done;
    [|simpl; by rewrite list_lookup_alter_eq, Hy
     |unfold is_busy; rewrite Ha by done; unfold is_busy in Hbusy; by rewrite Hbusy
     |unfold is_dirty; rewrite Ha by done; by rewrite orb_true_r
     |simpl; by subst n].
  simpl. rewrite list_alter_alter_eq, Hs, Hdat.
  set (F := (add_flag 1 ∘ del_flag 2) ∘ add_flag 2).
  assert (HF : ∀ y k, 0 ≤ k → Z.testbit (flags (F y)) k =
    Z.testbit (flags y) k && negb (2 =? k) || (1 =? k)).
  { intros z k Hk. unfold F, compose, add_flag, del_flag. cbn [flags set_flags].
    rewrite bits_lor, bits_clear, bits_lor by done. by destruct (Z.testbit (flags z) k), (2 =? k). }
  eexists. do 3 (split; [reflexivity|]).
  assert (Hblk : block_ok v) by (subst v; by apply (bo_block _ Hok b y)).
  assert (Hlt : (Z.to_nat n < length (disk β))%nat) by (unfold disk_sector, disksize in Hn; lia).
  split_and!.
  - apply (holding_upd β b n v); try done.
    + intros z. split_and!; [done..| |]; unfold is_busy, is_valid; rewrite HF by done;
        [intros ->; done|by rewrite orb_true_r].
    + apply Forall_insert; [apply (bo_disk _ Hok)|done].
    + intros m Hm. destruct (decide (m = n)); [by right|left].
      rewrite list_lookup_insert_ne; [done|]. destruct Hn. lia.
  - exists (F y). split; [simpl; by rewrite list_lookup_alter_eq, Hy|right].
    unfold dsk. simpl. rewrite Hs, list_lookup_insert_eq by done. by rewrite Hdat.
  - apply (flagset_keep _ _ _ y); [done..|]. rewrite HF by done.
    by rewrite andb_true_r, orb_false_r.
  - unfold dirtys. rewrite (flagset_alter _ _ _ y) by done. rewrite HF by done.
    by rewrite andb_false_r.
  - intros m. rewrite (dirty_at_alter _ _ y), (dirty_at_split β b y) by done.
    unfold is_dirty at 1. rewrite HF, andb_false_r by done. change (false || (1 =? 2)) with false.
    pose proof (dirty_elsewhere β b y m Hok Hb Hy Hd) as Hel. subst n. intuition congruence.
Qed.

(** Other links, same contents. *)
Definition same_content β β' : Prop := ∀ j, content <$> bufs β' !! j = content <$> bufs β !! j.

Lemma content_inv β β' j z' : same_content β β' → bufs β' !! j = Some z' →
  ∃ z, bufs β !! j = Some z ∧
    flags z' = flags z ∧ bdev z' = bdev z ∧ sector z' = sector z ∧ bdata z' = bdata z.
Proof.
  intros Hc Hz. specialize (Hc j). rewrite Hz in Hc. destruct (bufs β !! j) as [z|]; [|done].
  injection Hc as ????. by exists z.
Qed.

Lemma content_holds β β' d n j :
  same_content β β' → holds (bufs β') d n j = holds (bufs β) d n j.
Proof.
  intros Hc. unfold holds. destruct (bufs β' !! j) as [z'|] eqn:Hz.
  - destruct (content_inv β β' j z' Hc Hz) as (z & -> & _ & -> & -> & _). done.
  - specialize (Hc j). rewrite Hz in Hc. by destruct (bufs β !! j).
Qed.

Lemma content_ok β β' l :
  bio_ok β → same_content β β' → ring (bufs β') l → disk β' = disk β →
  bio_ok β' ∧ (∀ n, view β' n = view β n) ∧ ∀ k, flagset k β' = flagset k β.
Proof.
  intros Hok Hc R Hd. assert (Hds : ∀ n, dsk β' n = dsk β n) by (intros; unfold dsk; by rewrite Hd).
  split_and!.
  - constructor; [by exists l|..|by rewrite Hd; apply (bo_disk _ Hok)].
    + intros i j Hi Hj n. rewrite !(content_holds β β') by done. by apply (bo_once _ Hok).
    + intros i z' Hi Hz. destruct (content_inv β β' i z' Hc Hz) as (z & Hz2 & Hf & _ & Hs & Hdt).
      unfold is_valid, is_dirty, is_busy. rewrite Hf, Hs, Hdt, Hds.
      by apply (bo_clean _ Hok i z).
    + intros i z' Hi Hz. destruct (content_inv β β' i z' Hc Hz) as (z & Hz2 & Hf & Hs & _).
      unfold is_valid, is_busy. rewrite Hf, Hs. by apply (bo_dev _ Hok i z).
    + intros i z' Hi Hz. destruct (content_inv β β' i z' Hc Hz) as (z & Hz2 & Hf & _).
      unfold is_valid, is_dirty. rewrite Hf. by apply (bo_dirty _ Hok i z).
    + intros i z' Hi Hz. destruct (content_inv β β' i z' Hc Hz) as (z & Hz2 & _ & _ & -> & _).
      by apply (bo_sector _ Hok i z).
    + intros i z' Hi Hz. destruct (content_inv β β' i z' Hc Hz) as (z & Hz2 & _ & _ & _ & ->).
      by apply (bo_block _ Hok i z).
  - intros n. unfold view. rewrite Hds.
    rewrite (find_ext _ (holds (bufs β) ROOTDEV n)) by (intros; by apply content_holds).
    destruct (List.find _ _) as [b|]; [|done]. destruct (bufs β' !! b) as [z'|] eqn:Hz.
    + destruct (content_inv β β' b z' Hc Hz) as (z & -> & Hf & _ & _ & ->).
      unfold is_valid. by rewrite Hf.
    + specialize (Hc b). rewrite Hz in Hc. by destruct (bufs β !! b).
  - intros k. apply set_eq. intros i. rewrite !elem_flagset. f_equiv. split.
    + intros (z' & Hz & Ht). destruct (content_inv β β' i z' Hc Hz) as (z & Hz2 & Hf & _).
      exists z. by rewrite <-Hf.
    + intros (z & Hz & Ht). pose proof (Hc i) as Hci. rewrite Hz in Hci.
      destruct (bufs β' !! i) as [z'|]; [|done]. injection Hci as Hf _ _ _. exists z'.
      by rewrite Hf.
Qed.

Lemma content_alter (bs : list buf) i f j :
  (∀ z, content (f z) = content z) → content <$> alter f i bs !! j = content <$> bs !! j.
Proof.
  intros Hf. rewrite list_lookup_alter. case_decide; [|done]. subst.
  destruct (bs !! j); simpl; [by rewrite Hf|done].
Qed.

Lemma relink_content b (bs : list buf) j :
  content <$> link_front b (unlink b bs) !! j = content <$> bs !! j.
Proof. unfold link_front, unlink. by rewrite !content_alter. Qed.

(** [brelse]: the buffer is nobody's and goes to the front of the list; what
    readers see does not change. *)
Lemma brelse_spec c β x b n v :
  bio_ok β → bio_free c → owned β b n v → settled β b →
  wp (brelse b) (λ _ s', ∃ c' β', s' = (c', (β', x)) ∧ only_woken c c' ∧
      disk β' = disk β ∧ dtrace β' = dtrace β ∧ bio_ok β' ∧ others b β β' ∧
      busys β' = busys β ∖ {[b]} ∧ dirtys β' = dirtys β ∧
      (∀ m, 0 ≤ m → view β' m = view β m) ∧ ∀ m, dirty_at β' m ↔ dirty_at β m) (c, (β, x)).
Proof.
  intros Hok [Hl1 Hl2] (Hb & y & Hy & Hbusy & Hv & Hd & Hs & Hdat) (y' & Hy' & Hset).
  rewrite Hy in Hy'. injection Hy' as <-.
  destruct (bo_ring _ Hok) as [l R]. assert (Hbl : b ∈ l) by (by apply (rg_all _ _ R)).
  apply list_elem_of_split in Hbl as (l1 & l2 & ->).
  unfold wp. rewrite (brelse_run c β x l1 b l2 y R Hy); [|by apply busy_is|done..].
  set (β2 := mkBio (link_front b (unlink b (bufs β))) (disk β) (dtrace β)).
  assert (Hsame : same_content β β2) by (intros j; apply relink_content).
  destruct (content_ok β β2 (b :: l1 ++ l2) Hok Hsame) as (Hok2 & Hview2 & Hfl2);
    [by apply ring_mtf|done|].
  destruct (bufs β2 !! b) as [z|] eqn:Hz;
    [|pose proof (Hsame b) as Hsb; by rewrite Hz, Hy in Hsb].
  destruct (content_inv β β2 b z Hsame Hz) as (y0 & Hy0 & Hzf & Hzd & Hzs & Hzt).
  rewrite Hy in Hy0. injection Hy0 as <-.
  assert (Hm : ∀ k, 0 ≤ k → Z.testbit (flags (mark_free z)) k = Z.testbit (flags y) k && negb (0 =? k)).
  { intros k Hk. unfold mark_free. cbn [flags set_flags]. rewrite Hzf. by apply (bits_clear _ 0). }
  change (mkBio _ _ _) with (upd_buf b mark_free β2). eexists _, _. split; [reflexivity|].
  assert (Hok' : bio_ok (upd_buf b mark_free β2)).
  { apply (bio_ok_upd β2 b z); try done; unfold is_valid, is_dirty, is_busy in *.
    - intros _. simpl. congruence.
    - rewrite !Hm, Hv by done. done.
    - simpl. by apply (bo_sector _ Hok2 b z).
    - intros m j w [Hm1 Hm2] Hne Hj Hw [Hw1 Hw2]. apply Hne.
      apply (bo_once _ Hok2 j b Hj Hb m); by eapply holds_lookup.
    - rewrite !Hm by done. cbn [negb Z.eqb]. rewrite !andb_true_r. intros _ Hnd _.
      destruct Hset as [Hset|Hset]; [congruence|]. simpl. by rewrite Hzt, Hset, Hzs.
    - intros m _. by left.
    - by apply (bo_block _ Hok2 b z).
    - apply (bo_disk _ Hok). }
  split_and!; try done.
  - apply wakeup_only_woken.
  - intros j Hj. rewrite <-(Hsame j). simpl. by rewrite list_lookup_alter_ne.
  - unfold busys, upd_buf. rewrite (flagset_alter _ _ _ z), Hm, andb_false_r by done.
    by rewrite Hfl2.
  - unfold dirtys, upd_buf. rewrite (flagset_keep _ _ _ z); [by rewrite Hfl2|done..|].
    rewrite Hm, Hzf by done. by rewrite andb_true_r.
  - intros m Hmm. rewrite <-Hview2. destruct (decide (at1 z m)) as [[Ha1 Ha2]|Hna].
    + rewrite (view_cached β2 m b z) by done.
      rewrite (view_cached (upd_buf b mark_free β2) m b (mark_free z)); try done;
        [|simpl in *; by rewrite list_lookup_alter_eq, Hz].
      unfold is_valid in *. by rewrite Hm, Hzf, Hv.
    + by apply (view_other β2 b z).
  - intros m. unfold upd_buf. rewrite (dirty_at_alter _ _ z) by done.
    assert (Hda : dirty_at β m ↔ dirty_at β2 m).
    { unfold dirty_at, dirty_but. apply exist_proper. intros i. pose proof (Hsame i) as Hsi. split.
      - intros (w & Hi & _ & Hw & Hwd & Hws). rewrite Hw in Hsi.
        destruct (bufs β2 !! i) as [w'|]; [|done]. injection Hsi as E1 E2 E3 E4. exists w'.
        unfold is_dirty in *. by rewrite E1, E3.
      - intros (w & Hi & _ & Hw & Hwd & Hws).
        destruct (content_inv β β2 i w Hsame Hw) as (w' & Hw' & E1 & E2 & E3 & E4). exists w'.
        unfold is_dirty in *. by rewrite <-E1, <-E3. }
    rewrite Hda, (dirty_at_split β2 b z) by done. unfold is_dirty at 1.
    rewrite Hm by done. unfold is_dirty. rewrite Hzf. by rewrite andb_true_r.
Qed.

End CacheSpecs.

(** ** [binit] *)

(** Cell [i] after [binit]. *)
Definition init_buf (i : nat) : buf :=
  if Nat.eqb i NBUF then mkBuf 0 0 0 0 (NBUF - 1) (replicate BSIZE 0)
  else mkBuf 0 (2 ^ 32 - 1) 0 (if Nat.eqb i (NBUF - 1) then NBUF else S i)
         (match i with O => NBUF | S j => j end) (replicate BSIZE 0).
Definition init_bufs : list buf := init_buf <$> seq 0 (S NBUF).

Lemma binit_run {Ext} c d (x : Ext) :
  binit (c, (bio0 d, x)) = Ret () (c, (mkBio init_bufs d [], x)).
Proof. vm_compute. reflexivity. Qed.

Lemma init_bufs_lookup i y : init_bufs !! i = Some y → y = init_buf i ∧ (i ≤ NBUF)%nat.
Proof.
  unfold init_bufs. rewrite list_lookup_fmap. intros H.
  destruct (seq 0 (S NBUF) !! i) as [k|] eqn:E; [|done]. simpl in H. injection H as <-.
  apply lookup_seq in E as [-> E]. split; [done|lia].
Qed.

Lemma init_ring : ring init_bufs (rev (seq 0 NBUF)).
Proof.
  constructor; [reflexivity|vm_compute; by repeat split..| |].
  - apply NoDup_ListNoDup, NoDup_rev, NoDup_ListNoDup, NoDup_seq.
  - intros i. rewrite list_elem_of_In, <-in_rev, in_seq. lia.
Qed.

Lemma init_buf_facts i : (i < NBUF)%nat →
  flags (init_buf i) = 0 ∧ bdev (init_buf i) ≠ ROOTDEV ∧ sector (init_buf i) = 0 ∧
  bdata (init_buf i) = replicate BSIZE 0.
Proof.
  intros Hi. unfold init_buf. rewrite (proj2 (Nat.eqb_neq i NBUF)) by lia. by split_and!.
Qed.

Lemma zeros_block : block_ok (replicate BSIZE 0).
Proof. split; [apply length_replicate|]. apply Forall_replicate. unfold is_byte. lia. Qed.

Lemma init_ok d : Forall block_ok d →
  let β := mkBio init_bufs d [] in
  bio_ok β ∧ busys β = ∅ ∧ dirtys β = ∅ ∧ (∀ n, view β n = dsk β n).
Proof.
  intros Hd β.
  assert (Hf : ∀ i y, (i < NBUF)%nat → bufs β !! i = Some y → flags y = 0 ∧ bdev y ≠ ROOTDEV ∧
    sector y = 0 ∧ bdata y = replicate BSIZE 0).
  { intros i y Hi Hy. apply init_bufs_lookup in Hy as [-> _]. by apply init_buf_facts. }
  assert (Hno : ∀ k, flagset k β = ∅).
  { intros k. apply set_eq. intros i. rewrite elem_flagset. split; [|set_solver].
    intros (Hi & y & Hy & Ht). destruct (Hf i y Hi Hy) as (H0 & _). rewrite H0, Z.bits_0 in Ht. done. }
  assert (Hflag : ∀ i y k, (i < NBUF)%nat → bufs β !! i = Some y → Z.testbit (flags y) k = false).
  { intros i y k Hi Hy. destruct (Hf i y Hi Hy) as (-> & _). apply Z.bits_0. }
  assert (Hh : ∀ i n, (i < NBUF)%nat → holds (bufs β) ROOTDEV n i = false).
  { intros i n Hi. unfold holds. destruct (bufs β !! i) as [y|] eqn:Hy; [|done].
    destruct (Hf i y Hi Hy) as (_ & Hdev & _). by rewrite (proj2 (Z.eqb_neq _ _) Hdev). }
  split_and!; [|apply Hno..|].
  - constructor.
    + exists (rev (seq 0 NBUF)). apply init_ring.
    + intros i j Hi Hj n Hhi. by rewrite Hh in Hhi.
    + intros i y Hi Hy Hv. unfold is_valid in Hv. by rewrite (Hflag i) in Hv.
    + intros i y Hi Hy [H|H]; unfold is_valid, is_busy in H; by rewrite (Hflag i) in H.
    + intros i y Hi Hy H. unfold is_dirty in H. by rewrite (Hflag i) in H.
    + intros i y Hi Hy. destruct (Hf i y Hi Hy) as (_ & _ & -> & _). done.
    + intros i y Hi Hy. destruct (Hf i y Hi Hy) as (_ & _ & _ & ->). apply zeros_block.
    + done.
  - intros n. apply view_uncached. intros i y Hi Hy [Hdev _].
    by destruct (Hf i y Hi Hy) as (_ & ? & _).
Qed.

(** ** Theorems *)

(** C13. The cache is a least-recently-used list.  [binit] links all buffers.
    From an order [l] of the buffers, most recently used first, [bget] returns
    the buffer that caches the sector if there is one and it is not busy; if
    none does, the buffer nearest the end of [l] that is neither busy nor dirty,
    now caching the sector and not valid; and panics exactly when there is no
    such buffer.  The order stays.  [brelse] clears [B_BUSY] and moves the
    buffer to the front of the order. *)
Theorem cache_is_lru {Ext} (c : core) (β : bio) (x : Ext) (l : list nat) (dev sec : Z)
    (R : ring (bufs β) l) (Hfree : bio_free c) :
  (∀ d, ∃ β0, binit (c, (bio0 d, x)) = Ret () (c, (β0, x)) ∧ disk β0 = d ∧
    ring (bufs β0) (rev (seq 0 NBUF))) ∧
  match List.find (holds (bufs β) dev sec) l with
  | Some b => ∃ y, bufs β !! b = Some y ∧
      if is_busy y then ∀ r s', bget dev sec (c, (β, x)) ≠ Ret r s'
      else bget dev sec (c, (β, x)) = Ret b (c, (upd_buf b mark_busy β, x)) ∧
           ring (bufs (upd_buf b mark_busy β)) l
  | None =>
      match List.find (recyclable (bufs β)) (rev l) with
      | Some b => bget dev sec (c, (β, x)) = Ret b (c, (upd_buf b (recycle dev sec) β, x)) ∧
           ring (bufs (upd_buf b (recycle dev sec) β)) l
      | None => bget dev sec (c, (β, x)) = Panic "bget: no buffers"
      end
  end ∧
  ∀ l1 b l2 y, l = l1 ++ b :: l2 → bufs β !! b = Some y → is_busy y = true →
    ∃ c' β', brelse b (c, (β, x)) = Ret () (c', (β', x)) ∧ ring (bufs β') (b :: l1 ++ l2) ∧
      disk β' = disk β ∧ only_woken c c' ∧ others b β β' ∧
      content <$> bufs β' !! b = Some (content (mark_free y)).
Proof.
  destruct Hfree as [Hl1 Hl2]. split_and!.
  - intros d. eexists. split; [apply binit_run|]. split; [done|].
    apply init_ring.
  - pose proof (bget_run c β x l dev sec R Hl1) as Hrun.
    destruct (List.find (holds _ _ _) l) as [b|].
    + destruct Hrun as (y & Hy & Hrun). exists y. split; [done|].
      rewrite land_busy in Hrun. unfold is_busy. destruct (Z.testbit (flags y) 0); [done|].
      split; [done|]. by apply ring_upd.
    + destruct (List.find (recyclable _) _) as [b|]; [|done]. split; [done|]. by apply ring_upd.
  - intros l1 b l2 y -> Hy Hb. rewrite (brelse_run c β x l1 b l2 y) by (done || by apply busy_is).
    eexists _, _. split; [done|]. split_and!; [| |apply wakeup_only_woken| |].
    + apply ring_upd; [done|]. by apply ring_mtf.
    + done.
    + intros j Hj. simpl. rewrite list_lookup_alter_ne by done. apply relink_content.
    + simpl. rewrite list_lookup_alter_eq. pose proof (relink_content b (bufs β) b) as Hc.
      rewrite Hy in Hc. destruct (link_front _ _ !! b) as [z|]; [|done].
      injection Hc as H1 H2 H3 H4. simpl. unfold content. simpl. by rewrite H1, H2, H3, H4.
Qed.

Lemma cache_is_lru_witness :
  bget ROOTDEV 3 (core0, (mkBio init_bufs [] [], ())) =
    Ret 0%nat (core0, (upd_buf 0 (recycle ROOTDEV 3) (mkBio init_bufs [] []), ())).
Proof.
  assert (F : bio_free core0) by (split; apply not_elem_of_empty).
  pose proof (cache_is_lru core0 (mkBio init_bufs [] []) () _ ROOTDEV 3 init_ring F) as (_ & H & _).
  exact (proj1 H).
Defined.

Section UpdateBlock.
Context {Ext : Type}.

(** The way kernel code replaces a block. *)
Definition update_block (n : Z) (w : list Z) : M (core * (bio * Ext)) unit :=
  b ← bread ROOTDEV n; setb b (set_bdata w) ;; bwrite b ;; brelse b.

End UpdateBlock.

(** Coherence with the disk: from a consistent cache in which no buffer of
    sector [n] is in use and not every buffer is in use or dirty, replacing a block
    through [bread], [bwrite] and [brelse] returns; the disk then holds the new
    data in that sector and is otherwise as before; exactly that sector was
    written, once; every reader of the sector from now on gets the new data
    and readers of other sectors what they got before; the buffer is free again
    and the cache consistent. *)
Theorem update_block_correct {Ext} (c : core) (β : bio) (x : Ext) (n : Z) (w : list Z)
    (Hok : bio_ok β) (Hfree : bio_free c) (Hn : disk_sector β n) (Hnb : no_busy_at β n)
    (Hsz : (size (busys β ∪ dirtys β) < NBUF)%nat) (Hw : block_ok w) :
  ∃ c' β', update_block n w (c, (β, x)) = Ret () (c', (β', x)) ∧
    only_woken c c' ∧ bio_ok β' ∧
    disk β' = <[Z.to_nat n := w]> (disk β) ∧ dtrace β' = dtrace β ++ [(n, w)] ∧
    (∀ m, 0 ≤ m → view β' m = if decide (m = n) then w else view β m) ∧
    busys β' = busys β ∧ dirtys β' ⊆ dirtys β.
Proof.
  assert (H : wp (update_block n w) (λ _ s', ∃ c' β', s' = (c', (β', x)) ∧
    only_woken c c' ∧ bio_ok β' ∧
    disk β' = <[Z.to_nat n := w]> (disk β) ∧ dtrace β' = dtrace β ++ [(n, w)] ∧
    (∀ m, 0 ≤ m → view β' m = if decide (m = n) then w else view β m) ∧
    busys β' = busys β ∧ dirtys β' ⊆ dirtys β) (c, (β, x))).
  2:{ apply wp_Ret in H as ([] & s & Hrun & c' & β' & -> & H). by exists c', β'. }
  unfold update_block. apply wp_bind. eapply wp_mono; [by apply bread_spec|].
  intros b s1 (β1 & -> & D1 & T1 & [K1 O1 X1 V1] & S1 & N1 & B1 & G1 & _).
  apply wp_bind. eapply wp_mono; [by apply (set_data_spec _ _ _ _ n (view β n))|].
  intros _ s2 (β2 & -> & D2 & T2 & [K2 O2 X2 V2] & B2 & G2 & _).
  apply wp_bind. eapply wp_mono; [apply (bwrite_spec _ _ _ _ n w); try done|].
  { unfold disk_sector, disksize. by rewrite D2, D1. }
  intros _ s3 (β3 & -> & D3 & T3 & [K3 O3 X3 V3] & S3 & B3 & G3 & _).
  eapply wp_mono; [by apply (brelse_spec _ _ _ _ n w)|].
  intros _ s4 (c' & β4 & -> & W & D4 & T4 & K4 & X4 & B4 & G4 & V4 & _).
  exists c', β4. split_and!; try done.
  - by rewrite D4, D3, D2, D1.
  - by rewrite T4, T3, T2, T1.
  - intros m Hm. rewrite V4, V3, V2, V1 by done. by repeat case_decide.
  - rewrite B4, B3, B2, B1. set_solver.
  - rewrite G4, G3, G2, G1. set_solver.
Qed.

Lemma update_block_correct_witness :
  ∃ c' β', update_block 1 (replicate BSIZE 7)
      (core0, (mkBio init_bufs (replicate 3 (replicate BSIZE 0)) [], ())) = Ret () (c', (β', ())) ∧
    view β' 1 = replicate BSIZE 7.
Proof.
  set (d := replicate 3 (replicate BSIZE 0)).
  assert (Hd : Forall block_ok d) by (apply Forall_replicate, zeros_block).
  destruct (init_ok d Hd) as (Hok & Hb & Hdt & _).
  assert (Hw : block_ok (replicate BSIZE 7)).
  { split; [apply length_replicate|]. apply Forall_replicate. unfold is_byte. lia. }
  destruct (update_block_correct core0 (mkBio init_bufs d []) () 1 (replicate BSIZE 7))
    as (c' & β' & H & _ & _ & _ & _ & V & _); [done| |done| | |done|].
  - split; apply not_elem_of_empty.
  - intros i y Hi Hy [Ha _]. apply init_bufs_lookup in Hy as [-> _].
    by destruct (init_buf_facts i Hi) as (_ & ? & _).
  - rewrite Hb, Hdt. vm_compute. lia.
  - exists c', β'. split; [done|]. by rewrite V.
Defined.
