(* ===== verification/Cache.v ===== *)
(** * The buffer cache as its clients see it

    [cache] says that a [bio] stands for an abstract state: the disk [D] and
    the trace [T] of sector writes, what readers see of each sector ([V]), the
    buffers in use with their sectors ([H]; the flag says that the buffer may be
    released: its data is on disk or it is dirty), and the set of dirty sectors.
    The lemmas are the operations on that state; log.c and fs.c are verified
    against them alone. *)
From S2P Require Import Prelude Spinlock Core Bio BioFacts.

Definition vupd (n : Z) (w : list Z) (V : Z → list Z) (m : Z) : list Z :=
  if decide (m = n) then w else V m.

Lemma vupd_eq n w V : vupd n w V n = w.
Proof. unfold vupd. by rewrite decide_True. Qed.
Lemma vupd_ne n w V m : m ≠ n → vupd n w V m = V m.
Proof. intros. unfold vupd. by rewrite decide_False. Qed.

Record cache (β : bio) (D : list (list Z)) (T : list (Z * list Z)) (V : Z → list Z)
    (H : gmap nat (Z * bool)) (Dy : gset Z) : Prop := {
  ca_ok : bio_ok β;
  ca_disk : disk β = D;
  ca_trace : dtrace β = T;
  ca_view n : 0 ≤ n → view β n = V n;
  ca_busy : busys β = dom H;
  ca_held b n st : H !! b = Some (n, st) →
    0 ≤ n ∧ owned β b n (V n) ∧ (st = true → settled β b);
  ca_dirty m : dirty_at β m ↔ m ∈ Dy }.

(** ** Counting dirty buffers *)

Lemma dirtys_size β (Dy : gset Z) : bio_ok β → (∀ m, dirty_at β m → m ∈ Dy) →
  (size (dirtys β) ≤ size Dy)%nat.
Proof.
  intros Hok Hd.
  set (f := λ i : nat, match bufs β !! i with Some y => sector y | None => 0 end).
  assert (Hin : ∀ i, i ∈ dirtys β →
    ∃ y, (i < NBUF)%nat ∧ bufs β !! i = Some y ∧ is_dirty y = true ∧ bdev y = ROOTDEV ∧ f i = sector y).
  { intros i (Hi & y & Hy & Ht)%elem_flagset. exists y. split_and!; try done.
    - apply (bo_dev _ Hok i y Hi Hy). left. by apply (bo_dirty _ Hok i y).
    - unfold f. by rewrite Hy. }
  transitivity (size (list_to_set (C := gset Z) (f <$> elements (dirtys β)))).
  - rewrite size_list_to_set.
    + by rewrite length_fmap.
    + apply NoDup_fmap_2_strong; [|apply NoDup_elements].
      intros i j Hi Hj E. apply elem_of_elements in Hi, Hj.
      destruct (Hin i Hi) as (y & Hil & Hy & _ & Hyd & Hyf).
      destruct (Hin j Hj) as (z & Hjl & Hz & _ & Hzd & Hzf).
      apply (bo_once _ Hok i j Hil Hjl (sector y)); eapply holds_lookup; eauto.
      split; congruence.
  - apply subseteq_size. intros m. rewrite elem_of_list_to_set, list_elem_of_fmap.
    intros (i & -> & Hi%elem_of_elements). apply Hd.
    destruct (Hin i Hi) as (y & Hil & Hy & Hyd & _ & ->). by exists i, y.
Qed.

(** ** The operations *)

Section CacheOps.
Context {Ext : Type}.
Implicit Types (c : core) (β : bio) (x : Ext).

Lemma wp_setb b f Q c β (x : Ext) :
  Q () (c, (upd_buf b f β, x)) → wp (setb b f) Q (c, (β, x)).
Proof. done. Qed.

(** What the data of a buffer in use is. *)
Lemma cache_buf β D T V H Dy b n st :
  cache β D T V H Dy → H !! b = Some (n, st) →
  ∃ y, bufs β !! b = Some y ∧ bdata y = V n ∧ sector y = n ∧ bdev y = ROOTDEV ∧
    is_busy y = true ∧ block_ok (V n).
Proof.
  intros C Hb. destruct (ca_held _ _ _ _ _ _ C b n st Hb)
    as (_ & (Hlt & y & Hy & Hbusy & _ & Hd & Hs & Hv) & _).
  exists y. split_and!; try done. rewrite <-Hv. by apply (bo_block _ (ca_ok _ _ _ _ _ _ C) b y).
Qed.

Lemma cache_read {A} c x β D T V H Dy b n st (f : buf → A) Q :
  cache β D T V H Dy → H !! b = Some (n, st) →
  (∀ y, bdata y = V n → sector y = n → bdev y = ROOTDEV → Q (f y) (c, (β, x))) →
  wp (getb b f) Q (c, (β, x)).
Proof.
  intros C Hb HQ. destruct (cache_buf _ _ _ _ _ _ _ _ _ C Hb) as (y & Hy & Hd & Hs & Hdv & _).
  unfold wp. rewrite (getb_run _ _ _ _ _ _ Hy). by apply HQ.
Qed.

(** The buffers other than [b] after an operation on [b]. *)
Lemma held_others β β' (V V' : Z → list Z) (H : gmap nat (Z * bool)) b n j m st :
  others b β β' → (∀ k, 0 ≤ k → k ≠ n → V' k = V k) →
  (∀ k, 0 ≤ k → k ≠ n → dsk β' k = dsk β k) → bio_ok β →
  j ≠ b → m ≠ n → 0 ≤ m ∧ owned β j m (V m) ∧ (st = true → settled β j) →
  0 ≤ m ∧ owned β' j m (V' m) ∧ (st = true → settled β' j).
Proof.
  intros Ho HV Hd Hok Hj Hmn (Hm & Hown & Hst). split; [done|]. split.
  - rewrite HV by done. by apply (others_owned b β).
  - intros E. apply (others_settled b β β' j m (V m)); auto.
Qed.

Lemma cache_bread c x β D T V H Dy n Q :
  cache β D T V H Dy → bio_free c → 0 ≤ n < Z.of_nat (length D) →
  (∀ b st, H !! b ≠ Some (n, st)) → (size (dom H) + size Dy < NBUF)%nat →
  (∀ b β', H !! b = None → cache β' D T V (<[b := (n, true)]> H) Dy → Q b (c, (β', x))) →
  wp (bread ROOTDEV n) Q (c, (β, x)).
Proof.
  intros [Hok Hd Ht Hv Hb Hh Hdy] Hf Hn Hnh Hsz HQ.
  assert (Hbusy : ∀ i y, (i < NBUF)%nat → bufs β !! i = Some y → is_busy y = true →
    ∃ m st, H !! i = Some (m, st) ∧ sector y = m).
  { intros i y Hi Hy Hby. assert (Hin : i ∈ busys β) by (apply elem_flagset; eauto).
    rewrite Hb in Hin. apply elem_of_dom in Hin as [[m st] Hm]. exists m, st. split; [done|].
    destruct (Hh i m st Hm) as (_ & (_ & z & Hz & _ & _ & _ & Hs & _) & _). congruence. }
  eapply wp_mono; [apply bread_spec; try done|].
  - unfold disk_sector, disksize. by rewrite Hd.
  - intros i y Hi Hy [_ Hs]. destruct (is_busy y) eqn:E; [|done].
    destruct (Hbusy i y Hi Hy E) as (m & st & Hm & <-). destruct (Hnh i st). congruence.
  - pose proof (dirtys_size β Dy Hok (λ m, proj1 (Hdy m))) as Hds. rewrite Hb.
    pose proof (size_union_alt (dom H) (dirtys β)) as Hu. rewrite Hu.
    assert (size (dirtys β ∖ dom H) ≤ size (dirtys β))%nat 
      by (apply subseteq_size; intros i Hi; apply elem_of_difference in Hi; apply Hi).
    lia.
  - intros b s' (β' & -> & D' & T' & [K O X VV] & S & N & B & G & Y).
    assert (Hbn : H !! b = None) by (apply not_elem_of_dom; by rewrite <-Hb).
    apply HQ; [done|]. constructor; try done.
    + congruence.
    + congruence.
    + intros m Hm. rewrite VV by done. case_decide; subst; by apply Hv.
    + rewrite B, Hb. set_solver.
    + intros j m st [[<- [= <- <-]]|[Hne Hj]]%lookup_insert_Some.
      * split; [apply Hn|]. rewrite <-Hv by apply Hn. by split.
      * apply (held_others β β' V V H b n j m st); auto.
        -- intros. unfold dsk. by rewrite D'.
        -- intros ->. by apply (Hnh j st).
    + intros m. by rewrite Y.
Qed.

Lemma cache_set_data β D T V H Dy b n st g :
  cache β D T V H Dy → H !! b = Some (n, st) → block_ok (g (V n)) →
  cache (upd_buf b (λ y, set_bdata (g (bdata y)) y) β) D T (vupd n (g (V n)) V)
    (<[b := (n, false)]> H) Dy.
Proof.
  intros C Hb Hg. pose proof C as [Hok Hd Ht Hv Hbs Hh Hdy].
  destruct (Hh b n st Hb) as (Hn & Hown & _).
  destruct (cache_buf _ _ _ _ _ _ _ _ _ C Hb) as (y & Hy & Hyd & _).
  assert (E : upd_buf b (λ y, set_bdata (g (bdata y)) y) β = upd_buf b (set_bdata (g (V n))) β).
  { unfold upd_buf. f_equal. apply list_alter_ext; [|done]. intros z Hz. simplify_eq.
    by rewrite Hyd. }
  rewrite E. pose proof (set_data_spec core0 β () b n (V n) (g (V n)) Hok Hown Hg) as Hs.
  destruct Hs as (β' & [= Eβ] & D' & T' & [K O X VV] & B & G & Y). rewrite Eβ.
  constructor; try done.
  - congruence.
  - congruence.
  - intros m Hm. rewrite VV, Hv by done. done.
  - rewrite B, Hbs, dom_insert_L. assert (b ∈ dom H) by (by eapply elem_of_dom_2). set_solver.
  - intros j m st' [[<- [= <- <-]]|[Hne Hj]]%lookup_insert_Some.
    + rewrite vupd_eq. split_and!; done.
    + destruct (decide (m = n)) as [->|Hmn].
      { destruct (Hh j n st' Hj) as (_ & Hown' & _). destruct Hne.
      by apply (owned_inj β b j n (V n) (V n)). }
      apply (held_others β β' V _ H b n j m st'); auto.
      * intros. by apply vupd_ne.
      * intros. unfold dsk. by rewrite D'.
  - intros m. by rewrite Y.
Qed.

Lemma cache_mark_dirty β D T V H Dy b n st :
  cache β D T V H Dy → H !! b = Some (n, st) →
  cache (upd_buf b (λ y, set_flags (Z.lor (flags y) B_DIRTY) y) β) D T V
    (<[b := (n, true)]> H) ({[n]} ∪ Dy).
Proof.
  intros C Hb. pose proof C as [Hok Hd Ht Hv Hbs Hh Hdy].
  destruct (Hh b n st Hb) as (Hn & Hown & _).
  pose proof (mark_dirty_spec core0 β () b n (V n) Hok Hown) as Hs.
  destruct Hs as (β' & [= Eβ] & D' & T' & [K O X VV] & S & B & G & Y). rewrite Eβ.
  constructor; try done.
  - congruence.
  - congruence.
  - intros m Hm. rewrite VV, Hv by done. by case_decide; subst.
  - rewrite B, Hbs, dom_insert_L. assert (b ∈ dom H) by (by eapply elem_of_dom_2). set_solver.
  - intros j m st' [[<- [= <- <-]]|[Hne Hj]]%lookup_insert_Some; [by split_and!|].
    destruct (decide (m = n)) as [->|Hmn].
    { destruct (Hh j n st' Hj) as (_ & Hown' & _). destruct Hne.
      by apply (owned_inj β b j n (V n) (V n)). }
    apply (held_others β β' V _ H b n j m st'); auto. intros. unfold dsk. by rewrite D'.
  - intros m. rewrite Y, Hdy. set_solver.
Qed.

Lemma cache_bwrite c x β D T V H Dy b n st Q :
  cache β D T V H Dy → H !! b = Some (n, st) → n < Z.of_nat (length D) →
  (∀ β', cache β' (<[Z.to_nat n := V n]> D) (T ++ [(n, V n)]) V (<[b := (n, true)]> H)
     (Dy ∖ {[n]}) → Q () (c, (β', x))) →
  wp (bwrite b) Q (c, (β, x)).
Proof.
  intros C Hb Hlen HQ. pose proof C as [Hok Hd Ht Hv Hbs Hh Hdy].
  destruct (Hh b n st Hb) as (Hn & Hown & _).
  eapply wp_mono; [apply (bwrite_spec c β x b n (V n) Hok Hown)|].
  { unfold disk_sector, disksize. by rewrite Hd. }
  intros [] s' (β' & -> & D' & T' & [K O X VV] & S & B & G & Y). apply HQ.
  constructor; try done.
  - congruence.
  - congruence.
  - intros m Hm. rewrite VV, Hv by done. by case_decide; subst.
  - rewrite B, Hbs, dom_insert_L. assert (b ∈ dom H) by (by eapply elem_of_dom_2). set_solver.
  - intros j m st' [[<- [= <- <-]]|[Hne Hj]]%lookup_insert_Some; [by split_and!|].
    destruct (decide (m = n)) as [->|Hmn].
    { destruct (Hh j n st' Hj) as (_ & Hown' & _). destruct Hne.
      by apply (owned_inj β b j n (V n) (V n)). }
    apply (held_others β β' V _ H b n j m st'); auto.
    intros k Hk Hkn. unfold dsk. rewrite D', list_lookup_insert_ne; [done|]. lia.
  - intros m. rewrite Y, Hdy. set_solver.
Qed.

Lemma cache_brelse c x β D T V H Dy b n Q :
  cache β D T V H Dy → bio_free c → H !! b = Some (n, true) →
  (∀ c' β', only_woken c c' → cache β' D T V (delete b H) Dy → Q () (c', (β', x))) →
  wp (brelse b) Q (c, (β, x)).
Proof.
  intros C Hf Hb HQ. pose proof C as [Hok Hd Ht Hv Hbs Hh Hdy].
  destruct (Hh b n true Hb) as (Hn & Hown & Hst).
  eapply wp_mono; [apply (brelse_spec c β x b n (V n) Hok Hf Hown (Hst eq_refl))|].
  intros [] s' (c' & β' & -> & W & D' & T' & K & X & B & G & VV & Y). apply HQ; [done|].
  constructor; try done.
  - congruence.
  - congruence.
  - intros m Hm. by rewrite VV, Hv.
  - rewrite B, Hbs, dom_delete_L. done.
  - intros j m st' [Hne Hj]%lookup_delete_Some.
    destruct (decide (m = n)) as [->|Hmn].
    { destruct (Hh j n st' Hj) as (_ & Hown' & _). destruct Hne.
      by apply (owned_inj β b j n (V n) (V n)). }
    apply (held_others β β' V _ H b n j m st'); auto. intros. unfold dsk. by rewrite D'.
  - intros m. by rewrite Y.
Qed.

Lemma bio_free_woken c c' : only_woken c c' → bio_free c → bio_free c'.
Proof. intros W [H1 H2]. unfold bio_free. by rewrite (ow_locks _ _ W). Qed.

End CacheOps.

Lemma cache_view_ext β D T V V' H Dy :
  (∀ n, 0 ≤ n → V n = V' n) → cache β D T V H Dy → cache β D T V' H Dy.
Proof.
  intros HV [K1 K2 K3 K4 K5 K6 K7]. constructor; try done.
  - intros n Hn. by rewrite <-HV, K4.
  - intros b n st Hb. destruct (K6 b n st Hb) as (Hn & ? & ?). by rewrite <-HV.
Qed.

(** After [binit] on disk [D]. *)
Lemma cache_init D : Forall block_ok D →
  cache (mkBio init_bufs D []) D [] (λ n, default [] (D !! Z.to_nat n)) ∅ ∅.
Proof.
  intros HD. destruct (init_ok D HD) as (Hok & Hb & Hd & Hv). constructor; try done.
  - intros m. split; [|by intros ?%not_elem_of_empty]. intros Hm.
    by destruct (proj1 (dirtys_dirty_at _) Hd m).
Qed.
