(* ===== verification/Log.v ===== *)
(** * The log (log.c)

    One transaction at a time; its blocks go to the log area on disk, the
    header is written last.  [readsb] of fs.c is here because [initlog] calls it. *)
From S2P Require Import Prelude Spinlock Core Bio.

Definition LOGSIZE : nat := 10.

(** [struct superblock]. *)
Record superblock := mkSb { sb_size : Z; sb_nblocks : Z; sb_ninodes : Z; sb_nlog : Z }.

(** [struct log]; [lh_n] and [lh_sector] are its [lh]. *)
Record logst := mkLog {
  lstart : Z; lsize : Z; lbusy : Z; ldev : Z; lh_n : Z; lh_sector : list Z }.
Definition log0 : logst := mkLog 0 0 0 0 0 (replicate LOGSIZE 0).
Definition set_lstart v g := mkLog v (lsize g) (lbusy g) (ldev g) (lh_n g) (lh_sector g).
Definition set_lsize v g := mkLog (lstart g) v (lbusy g) (ldev g) (lh_n g) (lh_sector g).
Definition set_lbusy v g := mkLog (lstart g) (lsize g) v (ldev g) (lh_n g) (lh_sector g).
Definition set_ldev v g := mkLog (lstart g) (lsize g) (lbusy g) v (lh_n g) (lh_sector g).
Definition set_lh_n v g := mkLog (lstart g) (lsize g) (lbusy g) (ldev g) v (lh_sector g).
Definition set_lh_sector v g := mkLog (lstart g) (lsize g) (lbusy g) (ldev g) (lh_n g) v.

(** 32-bit words of a block, as [uint] and as [int]. *)
Definition word_at (i : nat) (d : list Z) : option Z :=
  if decide (4 * i + 4 ≤ length d)%nat then Some (le_val (sublist (4 * i) 4 d)) else None.
Definition put_word (i : nat) (z : Z) (d : list Z) : list Z :=
  splice (4 * i) (le_bytes 4 (u32 z)) d.

(** [memmove(dst->data, src->data, BSIZE)]. *)
Definition copy_data (src dst : list Z) : list Z := splice 0 (take BSIZE src) dst.

Section Log.
Context {Ext : Type}.
Abbreviation K := (core * (bio * (logst * Ext)))%type.

Definition getg {A} (f : logst → A) : M K A := gets (λ s, f (fst (snd (snd s)))).
Definition setg (f : logst → logst) : M K unit :=
  modify (λ s, (fst s, (fst (snd s), (f (fst (snd (snd s))), snd (snd (snd s)))))).

Definition readsb (dev : Z) : M K superblock :=
  bp ← bread dev 1;
  d ← getb bp bdata;
  sz ← deref (word_at 0 d); nb ← deref (word_at 1 d);
  ni ← deref (word_at 2 d); nl ← deref (word_at 3 d);
  brelse bp ;;
  mret (mkSb sz nb ni nl).

Definition install_one (tail : nat) : M K unit :=
  dev ← getg ldev; start ← getg lstart;
  lbuf ← bread dev (u32 (start + Z.of_nat tail + 1));
  o ← getg (λ g, lh_sector g !! tail); s ← deref o;
  dbuf ← bread dev (u32 s);
  d ← getb lbuf bdata;
  setb dbuf (λ y, set_bdata (copy_data d (bdata y)) y) ;;
  bwrite dbuf ;;
  brelse lbuf ;;
  brelse dbuf.
Definition install_trans : M K unit :=
  n ← getg lh_n; for_each (seq 0 (Z.to_nat n)) install_one.

Definition read_head : M K unit :=
  dev ← getg ldev; start ← getg lstart;
  buf ← bread dev (u32 start);
  d ← getb buf bdata;
  n ← deref (word_at 0 d);
  setg (set_lh_n (i32 n)) ;;
  for_each (seq 0 (Z.to_nat (i32 n))) (λ i,
    s ← deref (word_at (S i) d);
    o ← getg (λ g, lh_sector g !! i); _ ← deref o;
    setg (λ g, set_lh_sector (<[i := i32 s]> (lh_sector g)) g)) ;;
  brelse buf.

Definition write_head : M K unit :=
  dev ← getg ldev; start ← getg lstart;
  buf ← bread dev (u32 start);
  n ← getg lh_n;
  setb buf (λ y, set_bdata (put_word 0 n (bdata y)) y) ;;
  for_each (seq 0 (Z.to_nat n)) (λ i,
    o ← getg (λ g, lh_sector g !! i); s ← deref o;
    setb buf (λ y, set_bdata (put_word (S i) s (bdata y)) y)) ;;
  bwrite buf ;;
  brelse buf.

Definition recover_from_log : M K unit :=
  read_head ;;
  install_trans ;;
  setg (set_lh_n 0) ;;
  write_head.

Definition initlog : M K unit :=
  if (BSIZE <=? 4 + 4 * LOGSIZE)%nat then panic "initlog: too big logheader" else
  sb ← readsb ROOTDEV;
  setg (set_lstart (i32 (sb_size sb - sb_nlog sb))) ;;
  setg (set_lsize (i32 (sb_nlog sb))) ;;
  setg (set_ldev ROOTDEV) ;;
  recover_from_log.

(** [begin_trans] from the [while]; [sleep] blocks and the caller resumes in
    [begin_trans_resume]. *)
Definition begin_trans_loop : M K unit :=
  b ← getg lbusy;
  if negb (b =? 0) then sleep Ch_log L_log else
  setg (set_lbusy 1) ;;
  release L_log.
Definition begin_trans : M K unit := acquire L_log ;; begin_trans_loop.
Definition begin_trans_resume : M K unit := sleep_resume L_log ;; begin_trans_loop.

Definition commit_trans : M K unit :=
  n ← getg lh_n;
  when (0 <? n) (write_head ;; install_trans ;; setg (set_lh_n 0) ;; write_head) ;;
  acquire L_log ;;
  setg (set_lbusy 0) ;;
  wakeup Ch_log ;;
  release L_log.

(** The loop of [log_write]: the slot of sector [s] among the first [n], or [n]. *)
Fixpoint log_slot (n i : nat) (ss : list Z) (s : Z) : nat :=
  match n, ss with
  | S n', s' :: ss' => if u32 s' =? s then i else log_slot n' (S i) ss' s
  | _, _ => i
  end.

Definition log_write (b : nat) : M K unit :=
  n ← getg lh_n; sz ← getg lsize;
  if (Z.of_nat LOGSIZE <=? n) || (sz - 1 <=? n) then panic "too big a transaction" else
  y ← getg lbusy;
  if y =? 0 then panic "write outside of trans" else
  s ← getb b sector;
  i ← getg (λ g, log_slot (Z.to_nat n) 0 (lh_sector g) s);
  setg (λ g, set_lh_sector (<[i := i32 s]> (lh_sector g)) g) ;;
  dev ← getb b bdev; start ← getg lstart;
  lbuf ← bread dev (u32 (start + Z.of_nat i + 1));
  d ← getb b bdata;
  setb lbuf (λ y, set_bdata (copy_data d (bdata y)) y) ;;
  bwrite lbuf ;;
  brelse lbuf ;;
  when (Z.of_nat i =? n) (setg (λ g, set_lh_n (lh_n g + 1) g)) ;;
  setb b (λ y, set_flags (Z.lor (flags y) B_DIRTY) y).

End Log.
