(* ===== verification/LogFacts.v ===== *)
(** * The log is atomic (log.c)

    The header block, what installing and recovery do to the disk, and the
    crash theorem: after any prefix of a transaction's disk writes, booting
    recovers all of it or none. *)
From S2P Require Import Prelude Spinlock Core Bio BioFacts Cache Log.

(** ** Words in a block *)

Lemma put_word_length i z d : (4 * i + 4 ≤ length d)%nat → length (put_word i z d) = length d.
Proof.
  intros H. unfold put_word. rewrite splice_length; [done|]. rewrite le_bytes_length. lia.
Qed.

Lemma word_at_put_eq i z d : (4 * i + 4 ≤ length d)%nat → word_at i (put_word i z d) = Some (u32 z).
Proof.
  intros H. unfold word_at. rewrite put_word_length by done. rewrite decide_True by done.
  f_equal. unfold put_word. pose proof (sublist_splice (4 * i) (le_bytes 4 (u32 z)) d) as E.
  rewrite le_bytes_length in E. rewrite E by lia. apply le_val_bytes. apply u32_range.
Qed.

Lemma word_at_put_ne i j z d : i ≠ j → (4 * i + 4 ≤ length d)%nat →
  word_at j (put_word i z d) = word_at j d.
Proof.
  intros Hne H. unfold word_at. rewrite put_word_length by done.
  destruct (decide (4 * j + 4 ≤ length d)%nat) as [Hj|]; [|done]. do 2 f_equal.
  apply list_eq. intros k. destruct (decide (k < 4)%nat) as [Hk|Hk].
  - rewrite !sublist_lookup by lia. unfold put_word. apply splice_lookup_old;
      rewrite le_bytes_length; lia.
  - unfold sublist. rewrite !lookup_take_ge by lia. done.
Qed.

Lemma word_at_range i d w : Forall is_byte d → word_at i d = Some w → 0 ≤ w < 2 ^ 32.
Proof.
  unfold word_at. case_decide as Hl; [|done]. intros Hd [= <-].
  assert (Hf : Forall is_byte (sublist (4 * i) 4 d)) by (by apply Forall_take, Forall_drop).
  pose proof (le_val_range _ Hf) as H. rewrite sublist_length in H by lia. done.
Qed.

Lemma splice_bytes off new d : Forall is_byte new → Forall is_byte d → Forall is_byte (splice off new d).
Proof.
  intros. unfold splice. rewrite !Forall_app. split_and!; [by apply Forall_take|done|by apply Forall_drop].
Qed.

Lemma put_word_block i z d : (4 * i + 4 ≤ BSIZE)%nat → block_ok d → block_ok (put_word i z d).
Proof.
  intros Hi [Hl Hb]. split; [by rewrite put_word_length; rewrite ?Hl|].
  apply splice_bytes; [apply le_bytes_range|done].
Qed.

Lemma copy_data_block s d : block_ok s → length d = BSIZE → copy_data s d = s.
Proof.
  intros [Hs _] Hd. unfold copy_data, splice. rewrite (take_ge s) by lia. simpl.
  rewrite drop_ge by lia. apply app_nil_r.
Qed.

(** ** The header *)

(** The header block [d] lists the sectors [ss]. *)
Definition lists (ss : list Z) (d : list Z) : Prop :=
  word_at 0 d = Some (Z.of_nat (length ss)) ∧
  ∀ i s, ss !! i = Some s → word_at (S i) d = Some s.

(** [write_head] on the block it read. *)
Definition put_head (ss : list Z) (d : list Z) : list Z :=
  foldl (λ d p, put_word (S (fst p)) (snd p) d) (put_word 0 (Z.of_nat (length ss)) d)
    (imap pair ss).

Lemma put_words_facts (ss : list Z) k d :
  (k + length ss ≤ LOGSIZE)%nat → block_ok d → Forall (λ s, 0 ≤ s < 2 ^ 31) ss →
  let d' := foldl (λ d p, put_word (S (fst p)) (snd p) d) d (imap (λ i s, ((k + i)%nat, s)) ss) in
  block_ok d' ∧ (∀ j, (j < S k)%nat → word_at j d' = word_at j d) ∧
  ∀ i s, ss !! i = Some s → word_at (S (k + i)) d' = Some s.
Proof.
  revert k d. induction ss as [|s ss IH]; intros k d Hk Hd Hss; [by split_and!|].
  inversion_clear Hss as [|?? Hs Hss']. cbn [imap foldl length fst snd] in *.
  rewrite Nat.add_0_r. set (d1 := put_word (S k) s d).
  assert (Hbk : (4 * S k + 4 ≤ BSIZE)%nat) by (unfold LOGSIZE, BSIZE in *; lia).
  assert (Hd1 : block_ok d1) by (by apply put_word_block).
  assert (Hl : (4 * S k + 4 ≤ length d)%nat) by (by rewrite (proj1 Hd)).
  destruct (IH (S k) d1) as (I1 & I2 & I3); [lia|done..|].
  assert (Eq : imap ((λ i s0, ((k + i)%nat, s0)) ∘ S) ss = imap (λ i s0, ((S k + i)%nat, s0)) ss).
  { apply imap_ext. intros. simpl. by rewrite Nat.add_succ_r. }
  rewrite Eq. split_and!; [done| |].
  - intros j Hj. rewrite I2 by lia. apply word_at_put_ne; [lia|done].
  - intros [|i] s' Hi.
    + injection Hi as ->. rewrite Nat.add_0_r, I2 by lia.
      unfold d1. rewrite word_at_put_eq, u32_small by (done || lia). done.
    + rewrite Nat.add_succ_r. by apply I3.
Qed.

Lemma put_head_facts ss d : (length ss ≤ LOGSIZE)%nat → block_ok d →
  Forall (λ s, 0 ≤ s < 2 ^ 31) ss → block_ok (put_head ss d) ∧ lists ss (put_head ss d).
Proof.
  intros Hl Hd Hss. assert (Hl0 : (4 * 0 + 4 ≤ length d)%nat) by (rewrite (proj1 Hd); unfold BSIZE; lia).
  destruct (put_words_facts ss 0 (put_word 0 (Z.of_nat (length ss)) d)) as (H1 & H2 & H3);
    [done| |done|].
  { apply put_word_block; [unfold BSIZE; lia|done]. }
  split; [exact H1|]. split; [|exact H3]. unfold put_head. etransitivity; [apply H2; lia|].
  rewrite word_at_put_eq, u32_small by (done || (unfold LOGSIZE in Hl; lia)). done.
Qed.

(** ** Disks and writes *)

Definition apply_writes (D : list (list Z)) (T : list (Z * list Z)) : list (list Z) :=
  foldl (λ D p, <[Z.to_nat (fst p) := snd p]> D) D T.
Definition view_writes (V : Z → list Z) (T : list (Z * list Z)) : Z → list Z :=
  foldl (λ V p, vupd (fst p) (snd p) V) V T.

Lemma apply_writes_app D T T' : apply_writes D (T ++ T') = apply_writes (apply_writes D T) T'.
Proof. apply foldl_app. Qed.
Lemma view_writes_app V T T' : view_writes V (T ++ T') = view_writes (view_writes V T) T'.
Proof. apply foldl_app. Qed.

Lemma apply_writes_length D T : length (apply_writes D T) = length D.
Proof.
  revert D. induction T as [|p T IH]; intros D; [done|]. simpl. rewrite IH. apply length_insert.
Qed.

Lemma view_writes_notin V T m : m ∉ T.*1 → view_writes V T m = V m.
Proof.
  revert V. induction T as [|p T IH]; intros V Hm; [done|]. simpl in *.
  rewrite IH by set_solver. apply vupd_ne. set_solver.
Qed.

Lemma apply_writes_notin D T m : 0 ≤ m → Forall (λ p, 0 ≤ fst p) T → m ∉ T.*1 →
  apply_writes D T !! Z.to_nat m = D !! Z.to_nat m.
Proof.
  intros Hm. revert D. induction T as [|p T IH]; intros D Hp Hni; [done|].
  inversion_clear Hp as [|?? Hp0 Hp']. simpl in *. rewrite IH by (done || set_solver).
  apply list_lookup_insert_ne. assert (m ≠ fst p) by set_solver. lia.
Qed.

Lemma apply_writes_block D T : Forall block_ok D → Forall (λ p, block_ok (snd p)) T →
  Forall block_ok (apply_writes D T).
Proof.
  revert D. induction T as [|p T IH]; intros D HD HT; [done|].
  inversion_clear HT. simpl. apply IH; [|done]. by apply Forall_insert.
Qed.

(** ** Runs on the abstract cache *)

(** No buffer in use has the sector. *)
Ltac solve_held :=
  let b := fresh "b" in let st := fresh "st" in let Hin := fresh "Hin" in
  intros b st Hin;
  repeat (apply lookup_insert_Some in Hin as [[_ [= ? ?]]|[_ Hin]]; [lia|]);
  by rewrite lookup_empty in Hin.

Section LogOps.
Context {Ext : Type}.
Implicit Types (c : core) (β : bio) (g : logst) (x : Ext) (V : Z → list Z) (Dy : gset Z).

Lemma wp_getg {A} (f : logst → A) Q c β g x :
  Q (f g) (c, (β, (g, x))) → wp (getg f) Q (c, (β, (g, x))).
Proof. done. Qed.
Lemma wp_setg f Q c β g x :
  Q () (c, (β, (f g, x))) → wp (setg f) Q (c, (β, (g, x))).
Proof. done. Qed.

(** The in-memory log: where it is, whether a transaction is on, what it lists. *)
Record glog (st sz : Z) (ss : list Z) (busy : Z) (g : logst) : Prop := {
  gl_start : lstart g = st;
  gl_size : lsize g = sz;
  gl_dev : ldev g = ROOTDEV;
  gl_busy : lbusy g = busy;
  gl_n : lh_n g = Z.of_nat (length ss);
  gl_secs : take (length ss) (lh_sector g) = ss;
  gl_len : length (lh_sector g) = LOGSIZE }.

Lemma glog_lookup st sz ss busy g i s :
  glog st sz ss busy g → ss !! i = Some s → lh_sector g !! i = Some s.
Proof.
  intros G Hi. rewrite <-(gl_secs _ _ _ _ _ G) in Hi. by apply lookup_take_Some in Hi as [? _].
Qed.

Lemma glog_le st sz ss busy g : glog st sz ss busy g → (length ss ≤ LOGSIZE)%nat.
Proof.
  intros G. rewrite <-(gl_secs _ _ _ _ _ G), length_take, (gl_len _ _ _ _ _ G). lia.
Qed.

Lemma cache_block β D T V H Dy b n st :
  cache β D T V H Dy → H !! b = Some (n, st) → block_ok (V n).
Proof. intros C Hb. destruct (cache_buf _ _ _ _ _ _ _ _ _ C Hb) as (y & ?). naive_solver. Qed.

Lemma install_one_wp c x β g D T V Dy st sz ss busy i s Q :
  cache β D T V ∅ Dy → bio_free c → glog st sz ss busy g → ss !! i = Some s →
  0 ≤ s < Z.of_nat (length D) → 0 ≤ st + Z.of_nat i + 1 < Z.of_nat (length D) →
  s ≠ st + Z.of_nat i + 1 → Z.of_nat (length D) < 2 ^ 32 → (size Dy + 1 < NBUF)%nat →
  let v := V (st + Z.of_nat i + 1) in
  (∀ c' β', only_woken c c' →
     cache β' (<[Z.to_nat s := v]> D) (T ++ [(s, v)]) (vupd s v V) ∅ (Dy ∖ {[s]}) →
     Q () (c', (β', (g, x)))) →
  wp (install_one i) Q (c, (β, (g, x))).
Proof.
  intros C Hf G Hs Hr1 Hr2 Hne Hmax Hsz v HQ. unfold install_one.
  apply wp_bind, wp_getg, wp_bind, wp_getg, wp_bind.
  rewrite (gl_start _ _ _ _ _ G), (gl_dev _ _ _ _ _ G), u32_small by lia.
  apply (cache_bread c (g, x) β D T V ∅ Dy); try done; [rewrite dom_empty_L, size_empty; lia|].
  intros l β1 _ C1. apply wp_bind, wp_getg. rewrite (glog_lookup _ _ _ _ _ _ _ G Hs).
  apply wp_bind. eapply wp_deref; [done|]. apply wp_bind. rewrite u32_small by lia.
  eapply (cache_bread c (g, x) β1); [exact C1|done|done|solve_held| |].
  { rewrite dom_insert_L, dom_empty_L, union_empty_r_L, size_singleton. lia. }
  intros d β2 Hd C2. apply lookup_insert_None in Hd as [_ Hdl].
  assert (Hl2 : (<[d := (s, true)]> (<[l := (st + Z.of_nat i + 1, true)]> ∅) : gmap nat (Z * bool))
    !! l = Some (st + Z.of_nat i + 1, true)) by (by rewrite lookup_insert_ne, lookup_insert_eq).
  apply wp_bind. eapply (cache_read c (g, x) β2); [exact C2|exact Hl2|]. intros y Hy _ _.
  rewrite Hy. fold v. apply wp_bind, wp_setb.
  pose proof (cache_block _ _ _ _ _ _ _ _ _ C2 Hl2) as Hv.
  assert (Hd2 : (<[d := (s, true)]> (<[l := (st + Z.of_nat i + 1, true)]> ∅) : gmap nat (Z * bool))
    !! d = Some (s, true)) by (by rewrite lookup_insert_eq).
  pose proof (cache_block _ _ _ _ _ _ _ _ _ C2 Hd2) as Hw.
  assert (Ecp : copy_data v (V s) = v) by (apply copy_data_block; [done|apply Hw]).
  pose proof (cache_set_data _ _ _ _ _ _ d s true (copy_data v) C2 Hd2) as C3.
  rewrite Ecp in C3. specialize (C3 Hv).
  apply wp_bind. eapply (cache_bwrite c (g, x)); [exact C3|by rewrite lookup_insert_eq|lia|].
  intros β4 C4. rewrite vupd_eq in C4. apply wp_bind.
  eapply (cache_brelse c (g, x) _ _ _ _ _ _ l); [exact C4|done|by simplify_map_eq|].
  intros c5 β5 W5 C5.
  eapply (cache_brelse c5 (g, x) _ _ _ _ _ _ d); [exact C5|by eapply bio_free_woken|
    by simplify_map_eq|].
  intros c6 β6 W6 C6. apply HQ; [by eapply only_woken_trans|].
  assert (Em : delete d (delete l (<[d:=(s, true)]> (<[d:=(s, false)]> (<[d:=(s, true)]>
    (<[l:=(st + Z.of_nat i + 1, true)]> ∅))))) = (∅ : gmap nat (Z * bool))).
  { apply map_eq. intros k. destruct (decide (k = d)), (decide (k = l)); by simplify_map_eq. }
  by rewrite Em in C6.
Qed.

(** Where the log area is; the sectors outside it. *)
Record layout (st sz : Z) (n : nat) : Prop := {
  ly_start : 0 ≤ st; ly_size : 1 ≤ sz; ly_end : st + sz ≤ Z.of_nat n;
  ly_max : Z.of_nat n < 2 ^ 31 }.
Definition home (st sz : Z) (n : nat) (s : Z) : Prop :=
  0 ≤ s < Z.of_nat n ∧ (s < st ∨ st + sz ≤ s).

Definition install_writes (V : Z → list Z) (st : Z) (ss : list Z) : list (Z * list Z) :=
  imap (λ i s, (s, V (st + Z.of_nat i + 1))) ss.

Lemma install_writes_fst V st ss : (install_writes V st ss).*1 = ss.
Proof.
  unfold install_writes. revert V st. induction ss as [|s ss IH]; intros V st; [done|].
  simpl. f_equal. rewrite <-(IH (λ n, V (n + 1)) st) at 2. f_equal. apply imap_ext.
  intros i s' _. simpl. do 2 f_equal. lia.
Qed.

Lemma take_Sr {A} (l : list A) j a : l !! j = Some a → take (j + 1) l = take j l ++ [a].
Proof. intros H. rewrite Nat.add_1_r. by apply take_S_r. Qed.

Lemma install_trans_wp c x β g D T V Dy st sz ss busy Q :
  cache β D T V ∅ Dy → bio_free c → glog st sz ss busy g → layout st sz (length D) →
  Forall (home st sz (length D)) ss → Z.of_nat (length ss) ≤ sz - 1 → (size Dy + 1 < NBUF)%nat →
  let W := install_writes V st ss in
  (∀ c' β', only_woken c c' →
     cache β' (apply_writes D W) (T ++ W) (view_writes V W) ∅ (Dy ∖ list_to_set ss) →
     Q () (c', (β', (g, x)))) →
  wp install_trans Q (c, (β, (g, x))).
Proof.
  intros C Hf G L Hh Hlen Hsz W HQ. unfold install_trans. apply wp_bind, wp_getg.
  rewrite (gl_n _ _ _ _ _ G), Nat2Z.id.
  set (I := λ (j : nat) (s : core * (bio * (logst * Ext))), ∃ c' β', s = (c', (β', (g, x))) ∧
    only_woken c c' ∧ cache β' (apply_writes D (take j W)) (T ++ take j W)
      (view_writes V (take j W)) ∅ (Dy ∖ list_to_set (take j ss))).
  assert (HlW : length W = length ss) by (unfold W, install_writes; by rewrite length_imap).
  eapply wp_mono; [eapply (wp_for_each I)|].
  - exists c, β. split_and!; [done|apply only_woken_refl|]. rewrite !take_0, app_nil_r.
    by rewrite list_to_set_nil, difference_empty_L.
  - intros j i s Hj (c' & β' & -> & Hw & C'). apply lookup_seq in Hj as [-> Hj].
    simpl. destruct (lookup_lt_is_Some_2 ss j Hj) as [s Hs].
    assert (Hsh : home st sz (length D) s) by (by eapply Forall_lookup_1 in Hh).
    destruct Hsh as [Hs1 Hs2]. destruct L as [L1 L2 L3 L4].
    assert (HWj : W !! j = Some (s, V (st + Z.of_nat j + 1))).
    { unfold W, install_writes. by rewrite list_lookup_imap, Hs. }
    assert (Hv : view_writes V (take j W) (st + Z.of_nat j + 1) = V (st + Z.of_nat j + 1)).
    { apply view_writes_notin. rewrite fmap_take. unfold W. rewrite install_writes_fst.
      intros (k & Hk & _)%elem_of_take.
      apply (Forall_lookup_1 _ _ _ _ Hh) in Hk as [_ Hx]. lia. }
    eapply install_one_wp; [exact C'|by eapply bio_free_woken|exact G|exact Hs| | | | | |];
      rewrite ?apply_writes_length; try lia.
    { assert (size (Dy ∖ list_to_set (take j ss)) ≤ size Dy)%nat; [|lia].
      apply subseteq_size. intros k Hk. by apply elem_of_difference in Hk as [? _]. }
    rewrite Hv. intros c2 β2 W2 C2. exists c2, β2.
    split_and!; [done|by eapply only_woken_trans|].
    rewrite (take_Sr W _ _ HWj), (take_Sr ss _ _ Hs), apply_writes_app, view_writes_app, app_assoc.
    assert (E : Dy ∖ list_to_set (take j ss ++ [s]) = Dy ∖ list_to_set (take j ss) ∖ {[s]})
      by set_solver.
    rewrite E. done.
  - intros [] s' (c' & β' & -> & Hw & C'). rewrite length_seq in C'. apply HQ; [done|].
    rewrite !take_ge in C' by lia. done.
Qed.

(** The block while [write_head] fills it: the count and the first [j] sectors. *)
Definition head_prefix (ss : list Z) (d : list Z) (j : nat) : list Z :=
  foldl (λ d p, put_word (S (fst p)) (snd p) d) (put_word 0 (Z.of_nat (length ss)) d)
    (take j (imap pair ss)).

Lemma head_prefix_block ss d j : (length ss ≤ LOGSIZE)%nat → block_ok d → block_ok (head_prefix ss d j).
Proof.
  intros Hl Hd. unfold head_prefix.
  assert (H0 : block_ok (put_word 0 (Z.of_nat (length ss)) d)) by
    (apply put_word_block; [unfold BSIZE; lia|done]).
  assert (Hp : Forall (λ p : nat * Z, (fst p < LOGSIZE)%nat) (take j (imap pair ss))).
  { apply Forall_take, Forall_lookup_2. intros i [k s] Hi.
    rewrite list_lookup_imap in Hi. destruct (ss !! i) eqn:E; [|done].
    apply lookup_lt_Some in E. injection Hi as <- _. simpl. lia. }
  revert H0. generalize (put_word 0 (Z.of_nat (length ss)) d).
  induction Hp as [|[k s] l Hk Hp IH]; intros d' Hd'; [done|]. simpl in *. apply IH.
  apply put_word_block; [unfold LOGSIZE, BSIZE in *; lia|done].
Qed.

Lemma head_prefix_S ss d j s : ss !! j = Some s →
  put_word (S j) s (head_prefix ss d j) = head_prefix ss d (j + 1).
Proof.
  intros Hs. unfold head_prefix. rewrite (take_Sr _ j (j, s)), foldl_app; [done|].
  by rewrite list_lookup_imap, Hs.
Qed.

Lemma head_prefix_all ss d : head_prefix ss d (length ss) = put_head ss d.
Proof. unfold head_prefix, put_head. by rewrite take_ge by (by rewrite length_imap). Qed.

(** [write_head]: one sector write, the header listing [ss]. *)
Lemma write_head_wp c x β g D T V Dy st sz ss busy Q :
  cache β D T V ∅ Dy → bio_free c → glog st sz ss busy g → layout st sz (length D) →
  Forall (home st sz (length D)) ss → (size Dy < NBUF)%nat →
  (block_ok (V st) → let h := put_head ss (V st) in block_ok h → lists ss h →
   ∀ c' β', only_woken c c' →
     cache β' (<[Z.to_nat st := h]> D) (T ++ [(st, h)]) (vupd st h V) ∅ (Dy ∖ {[st]}) →
     Q () (c', (β', (g, x)))) →
  wp write_head Q (c, (β, (g, x))).
Proof.
  intros C Hf G L Hh Hsz HQ. destruct L as [L1 L2 L3 L4]. unfold write_head.
  apply wp_bind, wp_getg, wp_bind, wp_getg, wp_bind.
  rewrite (gl_start _ _ _ _ _ G), (gl_dev _ _ _ _ _ G), u32_small by lia.
  apply (cache_bread c (g, x) β D T V ∅ Dy); try done; [lia|].
  intros b β1 _ C1. apply wp_bind, wp_getg. rewrite (gl_n _ _ _ _ _ G), Nat2Z.id.
  apply wp_bind, wp_setb.
  assert (Hb1 : (<[b := (st, true)]> ∅ : gmap nat (Z * bool)) !! b = Some (st, true))
    by (by rewrite lookup_insert_eq).
  pose proof (cache_block _ _ _ _ _ _ _ _ _ C1 Hb1) as Hblk.
  assert (Hss : Forall (λ s, 0 ≤ s < 2 ^ 31) ss).
  { eapply Forall_impl; [|exact Hh]. intros s [? _]. lia. }
  destruct (put_head_facts ss (V st) (glog_le _ _ _ _ _ G) Hblk Hss) as [Hh1 Hh2].
  set (h := put_head ss (V st)) in *.
  set (hj := head_prefix ss (V st)).
  assert (Hhj : ∀ j, block_ok (hj j)) by (intros j; apply head_prefix_block; [by eapply glog_le|done]).
  set (I := λ (j : nat) (s : core * (bio * (logst * Ext))), ∃ β', s = (c, (β', (g, x))) ∧
    cache β' D T (vupd st (hj j) V) (<[b := (st, false)]> ∅) Dy).
  apply wp_bind. eapply wp_mono; [eapply (wp_for_each I)|].
  - eexists. split; [reflexivity|].
    pose proof (cache_set_data _ _ _ _ _ _ b st true (put_word 0 (Z.of_nat (length ss))) C1 Hb1) as C2.
    rewrite insert_insert_eq in C2. apply C2. apply (Hhj 0%nat).
  - intros j i s Hj (β' & -> & C'). apply lookup_seq in Hj as [-> Hj]. simpl.
    destruct (lookup_lt_is_Some_2 ss j Hj) as [s Hs].
    apply wp_bind, wp_getg. rewrite (glog_lookup _ _ _ _ _ _ _ G Hs).
    apply wp_bind. eapply wp_deref; [done|]. apply wp_setb. eexists. split; [reflexivity|].
    pose proof (cache_set_data _ _ _ _ _ _ b st false (put_word (S j) s) C'
      ltac:(by rewrite lookup_insert_eq)) as C2.
    rewrite insert_insert_eq, vupd_eq in C2.
    rewrite (head_prefix_S _ _ _ _ Hs : put_word (S j) s (hj j) = hj (j + 1)%nat) in C2. eapply cache_view_ext; [|apply C2, Hhj].
    intros m _. unfold vupd. by case_decide.
  - intros [] s' (β' & -> & C'). rewrite length_seq in C'.
    rewrite (head_prefix_all ss (V st) : hj (length ss) = h) in C'. apply wp_bind.
    eapply (cache_bwrite c (g, x)); [exact C'|by rewrite lookup_insert_eq|lia|].
    intros β4 C4. rewrite vupd_eq, insert_insert_eq in C4.
    eapply (cache_brelse c (g, x) _ _ _ _ _ _ b); [exact C4|done|by rewrite lookup_insert_eq|].
    intros c5 β5 W5 C5. rewrite delete_insert_id in C5 by done. by apply HQ.
Qed.

(** [read_head] makes the in-memory header what the block on disk lists. *)
Lemma read_head_wp c x β g D T V Dy st sz ss busy Q :
  cache β D T V ∅ Dy → bio_free c → layout st sz (length D) → (size Dy < NBUF)%nat →
  lstart g = st → lsize g = sz → ldev g = ROOTDEV → lbusy g = busy →
  length (lh_sector g) = LOGSIZE → lists ss (V st) →
  (length ss ≤ LOGSIZE)%nat → Forall (home st sz (length D)) ss →
  (∀ c' β' g', only_woken c c' → cache β' D T V ∅ Dy → glog st sz ss busy g' →
     Q () (c', (β', (g', x)))) →
  wp read_head Q (c, (β, (g, x))).
Proof.
  intros C Hf [L1 L2 L3 L4] Hsz Gst Gsz Gdev Gb Glen [Hn Hs] Hlen Hh HQ. unfold read_head.
  apply wp_bind, wp_getg, wp_bind, wp_getg, wp_bind. rewrite Gst, Gdev, u32_small by lia.
  apply (cache_bread c (g, x) β D T V ∅ Dy); try done; [lia|].
  intros b β1 _ C1.
  assert (Hb1 : (<[b := (st, true)]> ∅ : gmap nat (Z * bool)) !! b = Some (st, true))
    by (by rewrite lookup_insert_eq).
  apply wp_bind. eapply (cache_read c (g, x)); [exact C1|exact Hb1|]. intros y Hy _ _. rewrite Hy.
  apply wp_bind. eapply wp_deref; [exact Hn|]. apply wp_bind, wp_setg.
  assert (HnL : Z.of_nat (length ss) < 2 ^ 31) by (unfold LOGSIZE in Hlen; lia).
  rewrite i32_small, Nat2Z.id by lia.
  set (I := λ (j : nat) (s : core * (bio * (logst * Ext))), ∃ g', s = (c, (β1, (g', x))) ∧
    lstart g' = st ∧ lsize g' = sz ∧ ldev g' = ROOTDEV ∧ lbusy g' = busy ∧
    lh_n g' = Z.of_nat (length ss) ∧ length (lh_sector g') = LOGSIZE ∧
    take j (lh_sector g') = take j ss).
  apply wp_bind. eapply wp_mono; [eapply (wp_for_each I)|].
  - eexists. by split_and!.
  - intros j i s Hj (g' & -> & G1 & G2 & G3 & G4 & G5 & G6 & G7).
    apply lookup_seq in Hj as [-> Hj]. cbn [Nat.add].
    destruct (lookup_lt_is_Some_2 ss j Hj) as [s Hsj].
    apply wp_bind. eapply wp_deref; [by apply Hs|]. apply wp_bind, wp_getg.
    destruct (lookup_lt_is_Some_2 (lh_sector g') j) as [o Ho]; [lia|].
    apply wp_bind. rewrite Ho. eapply wp_deref; [done|]. apply wp_setg.
    assert (Hsr : 0 ≤ s < Z.of_nat (length D)) by (by eapply Forall_lookup_1 in Hh as [? _]).
    eexists. split; [reflexivity|]. simpl. rewrite length_insert, i32_small by lia.
    split_and!; try done.
    rewrite Nat.add_1_r. rewrite (take_S_r _ _ s), (take_S_r ss _ s) by
      (done || (apply list_lookup_insert_eq; lia)).
    by rewrite take_insert_ge, G7.
  - intros [] s' (g' & -> & G1 & G2 & G3 & G4 & G5 & G6 & G7). rewrite length_seq in G7.
    eapply (cache_brelse c (g', x)); [exact C1|done|exact Hb1|]. intros c2 β2 W2 C2.
    rewrite delete_insert_id in C2 by done. apply HQ; [done..|].
    constructor; try done. rewrite G7. by rewrite take_ge.
Qed.

Lemma log_slot_spec ss l k s :
  take (length ss) l = ss → Forall (λ s, 0 ≤ s < 2 ^ 32) ss →
  (∃ i, log_slot (length ss) k l s = (k + i)%nat ∧ ss !! i = Some s) ∨
  (log_slot (length ss) k l s = (k + length ss)%nat ∧ s ∉ ss).
Proof.
  revert l k. induction ss as [|s' ss IH]; intros l k Hl Hss.
  - right. split; [destruct l; simpl; lia|apply not_elem_of_nil].
  - destruct l as [|y l]; [done|]. injection Hl as -> Hl. inversion_clear Hss as [|?? H1 H2].
    cbn [log_slot length]. rewrite u32_small by done. destruct (Z.eqb_spec s' s) as [->|Hne].
    + left. exists 0%nat. by rewrite Nat.add_0_r.
    + destruct (IH l (S k) Hl H2) as [(i & Hi & Hs)|[Hi Hs]].
      * left. exists (S i). by rewrite Hi, Nat.add_succ_r.
      * right. rewrite Hi. split; [lia|]. set_solver.
Qed.

(** The sectors listed after [log_write] of sector [n], and its slot. *)
Definition slot_of (ss : list Z) (n : Z) : nat :=
  match list_find (λ s, s = n) ss with Some (i, _) => i | None => length ss end.
Definition add_sector (ss : list Z) (n : Z) : list Z :=
  if decide (n ∈ ss) then ss else ss ++ [n].

Lemma slot_lookup ss n : add_sector ss n !! slot_of ss n = Some n.
Proof.
  unfold add_sector, slot_of. destruct (list_find _ ss) as [[i s]|] eqn:E.
  - apply list_find_Some in E as (Hi & -> & _). rewrite decide_True; [done|].
    by eapply list_elem_of_lookup_2.
  - apply list_find_None in E. rewrite decide_False.
    + by rewrite lookup_app_r, Nat.sub_diag by lia.
    + intros Hn. rewrite Forall_forall in E. apply (E n); [by apply list_elem_of_In|done].
Qed.

Lemma slot_le ss n : (slot_of ss n ≤ length ss)%nat.
Proof.
  unfold slot_of. destruct (list_find _ ss) as [[i s]|] eqn:E; [|done].
  apply list_find_Some in E as (Hi & _). apply lookup_lt_Some in Hi. lia.
Qed.

Lemma add_sector_in ss n m : m ∈ add_sector ss n ↔ m ∈ ss ∨ m = n.
Proof.
  unfold add_sector. case_decide as Hn.
  - split; [auto|]. by intros [?| ->].
  - by rewrite elem_of_app, list_elem_of_singleton.
Qed.

Lemma add_sector_nodup ss n : NoDup ss → NoDup (add_sector ss n).
Proof.
  intros H. unfold add_sector. case_decide; [done|]. apply list.NoDup_app. split_and!; [done| |].
  - intros x Hx Hx'. apply list_elem_of_singleton in Hx'. congruence.
  - apply NoDup_singleton.
Qed.

Lemma add_sector_length ss n :
  (length ss ≤ length (add_sector ss n) ≤ length ss + 1)%nat.
Proof. unfold add_sector. case_decide; rewrite ?length_app; simpl; lia. Qed.

(** The scan of the header finds the slot. *)
Lemma log_slot_of ss l n : take (length ss) l = ss → NoDup ss → Forall (λ s, 0 ≤ s < 2 ^ 32) ss →
  log_slot (length ss) 0 l n = slot_of ss n.
Proof.
  intros Hl Hnd Hss. destruct (log_slot_spec ss l 0 n Hl Hss) as [(i & -> & Hi)|[-> Hi]].
  - pose proof (slot_lookup ss n) as Hs. unfold add_sector in Hs.
    rewrite decide_True in Hs by (by eapply list_elem_of_lookup_2).
    by eapply NoDup_lookup.
  - unfold slot_of. destruct (list_find _ ss) as [[i s]|] eqn:E; [|done].
    apply list_find_Some in E as (Hi' & -> & _). destruct Hi. by eapply list_elem_of_lookup_2.
Qed.

(** The in-memory header with sector [n] put in its slot. *)
Lemma glog_add st sz ss busy g n :
  glog st sz ss busy g → (length ss < LOGSIZE)%nat →
  let i := slot_of ss n in
  glog st sz (add_sector ss n) busy
    (if Z.of_nat i =? Z.of_nat (length ss)
     then set_lh_n (Z.of_nat (length ss) + 1) (set_lh_sector (<[i:=n]> (lh_sector g)) g)
     else set_lh_sector (<[i:=n]> (lh_sector g)) g).
Proof.
  intros G Hl1 i. pose proof G as [G1 G2 G3 G4 G5 G6 G7].
  pose proof (slot_lookup ss n) as Hs. pose proof (slot_le ss n) as Hi. fold i in Hs, Hi.
  unfold add_sector in *.
  destruct (Z.eqb_spec (Z.of_nat i) (Z.of_nat (length ss))) as [Ei|Ei]; case_decide as Hin.
  - apply lookup_lt_Some in Hs. lia.
  - assert (i = length ss) as Ei' by lia. constructor; simpl; try done.
    + rewrite length_app. simpl. lia.
    + rewrite length_app, Nat.add_1_r. rewrite (take_S_r _ _ n).
      * by rewrite take_insert_ge, G6 by lia.
      * rewrite Ei'. apply list_lookup_insert_eq. lia.
    + by rewrite length_insert.
  - assert (Hlk : lh_sector g !! i = Some n) by (by eapply glog_lookup).
    rewrite list_insert_id by done. by constructor.
  - rewrite lookup_app_l in Hs by lia. destruct Hin. by eapply list_elem_of_lookup_2.
Qed.

(** [log_write]: the data goes to the sector's log block, the header in memory
    lists the sector, the buffer stays in the cache. *)
Lemma log_write_wp c x β g D T V Dy st sz ss busy b n f Q :
  cache β D T V {[ b := (n, f) ]} Dy → bio_free c → glog st sz ss busy g → busy ≠ 0 →
  layout st sz (length D) → Forall (home st sz (length D)) ss → home st sz (length D) n →
  NoDup ss → (length ss < LOGSIZE)%nat → Z.of_nat (length ss) < sz - 1 →
  (1 + size Dy < NBUF)%nat →
  let k := st + Z.of_nat (slot_of ss n) + 1 in
  (∀ c' β' g', only_woken c c' →
     cache β' (<[Z.to_nat k := V n]> D) (T ++ [(k, V n)]) (vupd k (V n) V) {[ b := (n, true) ]}
       ({[n]} ∪ Dy ∖ {[k]}) →
     glog st sz (add_sector ss n) busy g' → Q () (c', (β', (g', x)))) →
  wp (log_write b) Q (c, (β, (g, x))).
Proof.
  intros C Hf G Hbusy [L1 L2 L3 L4] Hh Hn Hnd Hl1 Hl2 Hsz k HQ. unfold log_write.
  pose proof G as [G1 G2 G3 G4 G5 G6 G7].
  apply wp_bind, wp_getg, wp_bind, wp_getg. rewrite G5, G2.
  rewrite (proj2 (Z.leb_gt (Z.of_nat LOGSIZE) _)), (proj2 (Z.leb_gt (sz - 1) _)) by lia. simpl.
  apply wp_bind, wp_getg. rewrite G4, (proj2 (Z.eqb_neq busy 0)) by done.
  assert (Hb : ({[ b := (n, f) ]} : gmap nat (Z * bool)) !! b = Some (n, f)) by (by rewrite lookup_singleton_eq).
  pose proof (cache_block _ _ _ _ _ _ _ _ _ C Hb) as Hvn.
  apply wp_bind. eapply (cache_read c (g, x)); [exact C|exact Hb|]. intros y Hyd Hys Hydev. rewrite Hys.
  apply wp_bind, wp_getg. rewrite Nat2Z.id.
  rewrite (log_slot_of ss (lh_sector g) n G6 Hnd) by (eapply Forall_impl; [|exact Hh]; intros s [? _]; lia).
  set (i := slot_of ss n) in *. pose proof (slot_le ss n) as Hi. fold i in Hi.
  destruct Hn as [Hn1 Hn2]. rewrite i32_small by lia.
  apply wp_bind, wp_setg. apply wp_bind. eapply (cache_read c (_, x)); [exact C|exact Hb|].
  intros y2 _ _ Hy2. rewrite Hy2. apply wp_bind, wp_getg. cbn [lstart set_lh_sector].
  rewrite G1, u32_small by lia. fold k. apply wp_bind.
  assert (Hnk : n ≠ k) by lia.
  eapply (cache_bread c (_, x)); [exact C|done|lia| | |].
  { intros b' f' Hb'. apply lookup_singleton_Some in Hb' as [_ [= Hk _]]. lia. }
  { rewrite dom_singleton_L, size_singleton. lia. }
  intros l β1 Hl C1. apply lookup_singleton_None in Hl.
  assert (Hb1 : (<[l := (k, true)]> {[ b := (n, f) ]} : gmap nat (Z * bool)) !! b = Some (n, f))
    by (by rewrite lookup_insert_ne).
  assert (Hl1' : (<[l := (k, true)]> {[ b := (n, f) ]} : gmap nat (Z * bool)) !! l = Some (k, true))
    by (by rewrite lookup_insert_eq).
  apply wp_bind. eapply (cache_read c (_, x)); [exact C1|exact Hb1|]. intros y3 Hy3 _ _. rewrite Hy3.
  apply wp_bind, wp_setb.
  pose proof (cache_block _ _ _ _ _ _ _ _ _ C1 Hl1') as Hvk.
  assert (Ecp : copy_data (V n) (V k) = V n) by (apply copy_data_block; [done|apply Hvk]).
  pose proof (cache_set_data _ _ _ _ _ _ l k true (copy_data (V n)) C1 Hl1') as C2.
  rewrite Ecp in C2. specialize (C2 Hvn). rewrite insert_insert_eq in C2.
  apply wp_bind. eapply (cache_bwrite c (_, x)); [exact C2|by rewrite lookup_insert_eq|lia|].
  intros β3 C3. rewrite vupd_eq, insert_insert_eq in C3.
  apply wp_bind. eapply (cache_brelse c (_, x)); [exact C3|done|by rewrite lookup_insert_eq|].
  intros c4 β4 W4 C4. rewrite delete_insert_id in C4 by (by apply lookup_singleton_None).
  pose proof (glog_add st sz ss busy g n G Hl1) as Hgl. cbv zeta in Hgl. fold i in Hgl.
  apply wp_bind. unfold wp, when. destruct (Z.of_nat i =? Z.of_nat (length ss)); simpl;
    unfold setg, setb, modβ, modify, wp, mret, M_ret; simpl; rewrite ?G5;
    (apply HQ; [done| |exact Hgl]);
    pose proof (cache_mark_dirty _ _ _ _ _ _ b n f C4 Hb) as C5;
    by rewrite insert_singleton_eq in C5.
Qed.

(** *** Transactions *)

(** How kernel code changes a block inside a transaction. *)
Definition tx_update (p : Z * list Z) : M (core * (bio * (logst * Ext))) unit :=
  b ← bread ROOTDEV (fst p);
  setb b (λ y, set_bdata (snd p) y) ;;
  log_write b ;;
  brelse b.
Definition transaction (ups : list (Z * list Z)) : M (core * (bio * (logst * Ext))) unit :=
  begin_trans ;; for_each ups tx_update ;; commit_trans.

(** A transaction that lists [ss], started on disk [D0]. *)
Record txinv (st sz : Z) (D0 : list (list Z)) (ss : list Z) (V : Z → list Z)
    (D : list (list Z)) (T : list (Z * list Z)) : Prop := {
  tx_disk : D = apply_writes D0 T;
  tx_trace : Forall (λ p, st + 1 ≤ fst p < st + sz ∧ block_ok (snd p)) T;
  tx_nodup : NoDup ss;
  tx_home : Forall (home st sz (length D0)) ss;
  tx_log i s : ss !! i = Some s → V (st + Z.of_nat i + 1) = V s ∧
    D !! Z.to_nat (st + Z.of_nat i + 1) = Some (V s);
  tx_old s : 0 ≤ s → home st sz (length D0) s → s ∉ ss → D0 !! Z.to_nat s = Some (V s);
  tx_head : D0 !! Z.to_nat st = Some (V st) }.

Lemma txinv_len st sz D0 ss V D T : txinv st sz D0 ss V D T → length D = length D0.
Proof. intros X. rewrite (tx_disk _ _ _ _ _ _ _ X). apply apply_writes_length. Qed.

(** Writes to the log blocks leave the other sectors alone. *)
Lemma log_writes_notin st sz D0 T m :
  0 ≤ st → Forall (λ p, st + 1 ≤ fst p < st + sz ∧ block_ok (snd p)) T →
  0 ≤ m → m = st ∨ home st sz (length D0) m →
  apply_writes D0 T !! Z.to_nat m = D0 !! Z.to_nat m.
Proof.
  intros Hst HT Hm Hor. apply apply_writes_notin; [done| |].
  - eapply Forall_impl; [|exact HT]. intros p [? _]. lia.
  - intros (p & -> & Hp)%list_elem_of_fmap. rewrite Forall_forall in HT.
    destruct (HT p) as [Hp' _]; [by apply list_elem_of_In|]. unfold home in Hor. lia.
Qed.

(** Sectors outside the log are not log blocks. *)
Lemma home_ne_log st sz n m i : home st sz n m → Z.of_nat i < sz - 1 → m ≠ st + Z.of_nat i + 1.
Proof. intros [? ?] ?. lia. Qed.

Lemma add_sector_home st sz n ss s i :
  Forall (home st sz n) ss → home st sz n s → ∀ s', add_sector ss s !! i = Some s' → home st sz n s'.
Proof.
  intros Hss Hs s' [H| ->]%list_elem_of_lookup_2%add_sector_in; [|done].
  apply list_elem_of_lookup in H as [j Hj]. by apply (Forall_lookup_1 _ _ _ _ Hss) in Hj.
Qed.

(** Sector [n] set to [w] and logged. *)
Lemma txinv_add st sz D0 ss V D T n (w : list Z) :
  txinv st sz D0 ss V D T → layout st sz (length D0) → home st sz (length D0) n → block_ok w →
  Z.of_nat (length ss) < sz - 1 →
  let k := st + Z.of_nat (slot_of ss n) + 1 in
  txinv st sz D0 (add_sector ss n) (vupd k w (vupd n w V)) (<[Z.to_nat k := w]> D) (T ++ [(k, w)]).
Proof.
  intros X [L1 L2 L3 L4] Hn Hw Hl2 k. pose proof (txinv_len _ _ _ _ _ _ _ X) as HlD.
  pose proof X as [X1 X2 X3 X4 X5 X6 X7]. pose proof (slot_le ss n) as Hsl.
  assert (Hhk : ∀ m, home st sz (length D0) m → m ≠ k) by (intros m Hm; eapply home_ne_log; [done|lia]).
  constructor.
  - rewrite apply_writes_app, <-X1. done.
  - apply Forall_app. split; [done|]. constructor; [|done]. split; [simpl; lia|done].
  - by apply add_sector_nodup.
  - apply Forall_lookup_2. intros i s. by eapply add_sector_home.
  - intros i s Hi. set (ki := st + Z.of_nat i + 1).
    assert (Hs : home st sz (length D0) s).
    { by eapply add_sector_home. }
    rewrite (vupd_ne k _ _ s) by (by apply Hhk).
    destruct (decide (s = n)) as [->|Hsn].
    + rewrite vupd_eq. assert (i = slot_of ss n) as ->.
      { eapply NoDup_lookup; [by apply add_sector_nodup|exact Hi|apply slot_lookup]. }
      fold k in ki. unfold ki. rewrite vupd_eq. split; [done|].
      apply list_lookup_insert_eq. rewrite HlD. lia.
    + rewrite (vupd_ne n _ _ s) by done.
      assert (Hi' : ss !! i = Some s).
      { unfold add_sector in Hi. case_decide; [done|]. apply lookup_app_Some in Hi as [?|[_ Hi]]; [done|].
        apply list_lookup_singleton_Some in Hi as [_ ->]. done. }
      assert (Hik : ki ≠ k).
      { intros E. assert (i = slot_of ss n) as -> by (unfold ki, k in E; lia).
        pose proof (slot_lookup ss n). congruence. }
      destruct (X5 i s Hi') as [X51 X52]. apply lookup_lt_Some in Hi' as Hlt.
      assert (ki ≠ n) by (intros E; apply (Hhk n) in Hn as Hn'; destruct Hn; unfold ki in E; lia).
      rewrite (vupd_ne k), (vupd_ne n) by done. split; [done|].
      rewrite list_lookup_insert_ne; [done|]. unfold ki, k in Hik |- *. lia.
  - intros s Hs0 Hs Hni. rewrite add_sector_in in Hni.
    rewrite (vupd_ne k), (vupd_ne n) by (tauto || by apply Hhk). apply X6; tauto.
  - rewrite (vupd_ne k), (vupd_ne n); [done| |lia]. destruct Hn. lia.
Qed.

(** Changing the data of a buffer and logging it. *)
Lemma tx_modify_wp c x β g D T0 T V st sz D0 ss b n f Q :
  cache β D (T0 ++ T) V {[ b := (n, true) ]} (list_to_set ss) → txinv st sz D0 ss V D T →
  bio_free c → glog st sz ss 1 g → layout st sz (length D0) →
  home st sz (length D0) n → block_ok (f (V n)) → (length ss < 8)%nat → Z.of_nat (length ss) < sz - 1 →
  (∀ c' β' g' D' T' V', only_woken c c' →
     cache β' D' (T0 ++ T') V' ∅ (list_to_set (add_sector ss n)) →
     txinv st sz D0 (add_sector ss n) V' D' T' → glog st sz (add_sector ss n) 1 g' →
     (∀ m, home st sz (length D0) m → V' m = if decide (m = n) then f (V n) else V m) →
     Q () (c', (β', (g', x)))) →
  wp (setb b (λ y, set_bdata (f (bdata y)) y) ;; log_write b ;; brelse b) Q (c, (β, (g, x))).
Proof.
  intros C1 X Hf G L Hn Hw Hl1 Hl2 HQ. pose proof (txinv_len _ _ _ _ _ _ _ X) as HlD.
  pose proof X as [X1 X2 X3 X4 X5 X6 X7]. pose proof L as [L1 L2 L3 L4].
  assert (Hsz : size (list_to_set ss : gset Z) = length ss) by (by apply size_list_to_set).
  apply wp_bind, wp_setb.
  assert (Hb : ({[b := (n, true)]} : gmap nat (Z * bool)) !! b = Some (n, true)) by (by rewrite lookup_singleton_eq).
  pose proof (cache_set_data _ _ _ _ _ _ b n true f C1 Hb Hw) as C2.
  rewrite insert_singleton_eq in C2.
  apply wp_bind. eapply (log_write_wp c x); [exact C2|done|exact G|done|by rewrite HlD|
    by rewrite HlD|by rewrite HlD|done|unfold LOGSIZE; lia|done|rewrite Hsz; unfold NBUF; lia|].
  rewrite vupd_eq. set (k := st + Z.of_nat (slot_of ss n) + 1).
  pose proof (slot_le ss n) as Hsl. assert (Hk : st + 1 ≤ k < st + sz) by lia.
  intros c3 β3 g3 W3 C3 G3. pose proof (bio_free_woken _ _ W3 Hf) as Hf3.
  eapply (cache_brelse c3 (g3, x)); [exact C3|done|by rewrite lookup_singleton_eq|].
  intros c4 β4 W4 C4. rewrite delete_singleton_eq in C4.
  assert (Hhk : ∀ m, home st sz (length D0) m → m ≠ k) by (intros m [? ?]; lia).
  assert (Hks : k ∉ ss).
  { intros Hin%list_elem_of_lookup. destruct Hin as [i Hi].
    apply (Forall_lookup_1 _ _ _ _ X4) in Hi. by apply Hhk in Hi. }
  assert (ED : {[n]} ∪ list_to_set ss ∖ {[k]} = (list_to_set (add_sector ss n) : gset Z)).
  { apply set_eq. intros m. rewrite elem_of_union, elem_of_difference, !elem_of_singleton,
      !elem_of_list_to_set, add_sector_in. split; [tauto|]. intros [Hm| ->]; [|by left].
    right. split; [done|]. intros ->. done. }
  rewrite ED, <-app_assoc in C4.
  apply (HQ c4 β4 g3 _ _ _ (only_woken_trans _ _ _ W3 W4) C4); [|done|].
  2:{ intros m Hm. by rewrite (vupd_ne k) by (by apply Hhk). }
  apply txinv_add; [done..|lia].
Qed.

Lemma tx_update_wp c x β g D T0 T V st sz D0 ss n w Q :
  cache β D (T0 ++ T) V ∅ (list_to_set ss) → txinv st sz D0 ss V D T →
  bio_free c → glog st sz ss 1 g → layout st sz (length D0) →
  home st sz (length D0) n → block_ok w → (length ss < 8)%nat → Z.of_nat (length ss) < sz - 1 →
  (∀ c' β' g' D' T' V', only_woken c c' →
     cache β' D' (T0 ++ T') V' ∅ (list_to_set (add_sector ss n)) →
     txinv st sz D0 (add_sector ss n) V' D' T' → glog st sz (add_sector ss n) 1 g' →
     (∀ m, home st sz (length D0) m → V' m = if decide (m = n) then w else V m) →
     Q () (c', (β', (g', x)))) →
  wp (tx_update (n, w)) Q (c, (β, (g, x))).
Proof.
  intros C X Hf G L Hn Hw Hl1 Hl2 HQ. pose proof (txinv_len _ _ _ _ _ _ _ X) as HlD.
  assert (Hsz : size (list_to_set ss : gset Z) = length ss) by (apply size_list_to_set, X).
  unfold tx_update. cbn [fst snd]. apply wp_bind.
  eapply (cache_bread c (g, x)); [exact C|done|rewrite HlD; apply Hn|solve_held| |].
  { rewrite dom_empty_L, size_empty, Hsz. unfold NBUF. lia. }
  intros b β1 _ C1. fold (singletonM b (n, true) : gmap nat (Z * bool)) in C1.
  by eapply (tx_modify_wp c x β1 g D T0 T V st sz D0 ss b n (λ _, w)).
Qed.

(** The sectors listed, and what readers see, after a list of updates. *)
Definition upd_sectors (ups : list (Z * list Z)) (ss : list Z) : list Z :=
  foldl add_sector ss (ups.*1).

Lemma updates_wp c x β g D T0 T V st sz D0 ss ups Q :
  cache β D (T0 ++ T) V ∅ (list_to_set ss) → txinv st sz D0 ss V D T →
  bio_free c → glog st sz ss 1 g → layout st sz (length D0) →
  Forall (λ p, home st sz (length D0) (fst p) ∧ block_ok (snd p)) ups →
  (length ss + length ups ≤ 8)%nat → Z.of_nat (length ss + length ups) ≤ sz - 1 →
  (∀ c' β' g' D' T' V' ss', only_woken c c' →
     cache β' D' (T0 ++ T') V' ∅ (list_to_set ss') →
     txinv st sz D0 ss' V' D' T' → glog st sz ss' 1 g' → (length ss' ≤ 8)%nat →
     Z.of_nat (length ss') ≤ sz - 1 →
     (∀ m, home st sz (length D0) m → V' m = view_writes V ups m) →
     (∀ s, s ∈ ss' → s ∈ ss ∨ s ∈ ups.*1) →
     Q () (c', (β', (g', x)))) →
  wp (for_each ups tx_update) Q (c, (β, (g, x))).
Proof.
  revert c β g D T V ss. induction ups as [|[n w] ups IH]; intros c β g D T V ss C X Hf G L Hu Hl1 Hl2 HQ.
  - simpl in *. apply wp_ret. apply (HQ c β g D T V ss); try done; [apply only_woken_refl|lia|lia|by left].
  - inversion_clear Hu as [|?? [Hn Hw] Hu']. cbn [for_each length fst snd] in *. apply wp_bind.
    eapply tx_update_wp; [exact C|exact X|done|exact G|done|done|done|lia|lia|].
    intros c' β' g' D' T' V' W' C' X' G' HV'. pose proof (add_sector_length ss n).
    eapply IH; [exact C'|exact X'|by eapply bio_free_woken|exact G'|done|done|lia|lia|].
    intros c2 β2 g2 D2 T2 V2 ss2 W2 C2 X2 G2 Hlen2 Hsz2 HV2 Hin2.
    apply (HQ c2 β2 g2 D2 T2 V2 ss2); try done; [by eapply only_woken_trans| |].
    2:{ intros s [Hs|Hs]%Hin2; [|right; by apply elem_of_cons; right].
      apply add_sector_in in Hs as [?| ->]; [by left|right; by apply elem_of_cons; left]. }
    intros m Hm. rewrite HV2 by done. simpl.
    assert (Hext : ∀ ups V1 V1', V1 m = V1' m → view_writes V1 ups m = view_writes V1' ups m).
    { clear. intros ups. induction ups as [|p ups IH]; intros V1 V1' E; [done|]. simpl. apply IH.
      unfold vupd. by case_decide. }
    apply Hext. rewrite HV' by done. done.
Qed.

End LogOps.

(** ** Disks in recovery *)

Definition dview (D : list (list Z)) (n : Z) : list Z := default [] (D !! Z.to_nat n).

Lemma install_keeps D W m :
  0 ≤ m → Forall (λ p, 0 ≤ fst p) W → m ∉ W.*1 → apply_writes D W !! Z.to_nat m = D !! Z.to_nat m.
Proof. apply apply_writes_notin. Qed.

(** The value the log block of a listed sector has ends up in the sector. *)
Lemma apply_writes_in D W s v :
  NoDup (W.*1) → Forall (λ p, 0 ≤ fst p) W → (s, v) ∈ W → (Z.to_nat s < length D)%nat →
  apply_writes D W !! Z.to_nat s = Some v.
Proof.
  revert D. induction W as [|[s' v'] W IH]; intros D Hnd Hp Hin Hl; [by apply elem_of_nil in Hin|].
  inversion_clear Hnd as [|?? Hni Hnd']. inversion_clear Hp as [|?? Hp0 Hp']. simpl in *.
  apply elem_of_cons in Hin as [[= <- <-]|Hin].
  - rewrite apply_writes_notin; [by apply list_lookup_insert_eq|done|done|].
    intros H. apply Hni. by apply list_elem_of_In.
  - apply IH; [done|done|done|]. by rewrite length_insert.
Qed.

(** Where the superblock puts the log. *)
Definition sb_valid (st sz : Z) (b : list Z) : Prop :=
  ∃ size nlog, word_at 0 b = Some size ∧ word_at 3 b = Some nlog ∧ st = size - nlog ∧ sz = nlog.

Section Crash.
Context {Ext : Type}.
Implicit Types (c : core) (β : bio) (g : logst) (x : Ext) (V : Z → list Z).

Lemma readsb_wp c β D T V Dy (e : logst * Ext) Q :
  cache β D T V ∅ Dy → bio_free c → 1 < Z.of_nat (length D) → (size Dy < NBUF)%nat →
  (∀ c' β' sz nb ni nl, only_woken c c' → cache β' D T V ∅ Dy →
    word_at 0 (V 1) = Some sz → word_at 1 (V 1) = Some nb → word_at 2 (V 1) = Some ni →
    word_at 3 (V 1) = Some nl → Q (mkSb sz nb ni nl) (c', (β', e))) →
  wp (readsb ROOTDEV) Q (c, (β, e)).
Proof.
  intros C Hf Hl Hsz HQ. unfold readsb. apply wp_bind.
  eapply (cache_bread c e); [exact C|done|lia|solve_held|by rewrite dom_empty_L, size_empty|].
  intros b β1 _ C1.
  assert (Hb1 : (<[b := (1, true)]> ∅ : gmap nat (Z * bool)) !! b = Some (1, true))
    by (by rewrite lookup_insert_eq).
  pose proof (cache_block _ _ _ _ _ _ _ _ _ C1 Hb1) as [Hblk _].
  assert (Hw : ∀ i, (i < 4)%nat → ∃ w, word_at i (V 1) = Some w).
  { intros i Hi. unfold word_at. rewrite decide_True; [eauto|]. rewrite Hblk. unfold BSIZE. lia. }
  apply wp_bind. eapply (cache_read c e); [exact C1|exact Hb1|]. intros y Hy _ _. rewrite Hy.
  destruct (Hw 0%nat) as [w0 E0]; [lia|]. destruct (Hw 1%nat) as [w1 E1]; [lia|].
  destruct (Hw 2%nat) as [w2 E2]; [lia|]. destruct (Hw 3%nat) as [w3 E3]; [lia|].
  do 4 (apply wp_bind; eapply wp_deref; [eassumption|]). apply wp_bind.
  eapply (cache_brelse c e); [exact C1|done|exact Hb1|]. intros c2 β2 W2 C2.
  rewrite delete_insert_id in C2 by done. by apply wp_ret, HQ.
Qed.

(** Recovery installs what the header lists and clears it. *)
Lemma recover_wp c x β g D T V Dy st sz ss busy Q :
  cache β D T V ∅ Dy → bio_free c → layout st sz (length D) → (size Dy + 1 < NBUF)%nat →
  lstart g = st → lsize g = sz → ldev g = ROOTDEV → lbusy g = busy →
  length (lh_sector g) = LOGSIZE → lists ss (V st) → (length ss ≤ LOGSIZE)%nat →
  Forall (home st sz (length D)) ss → Z.of_nat (length ss) ≤ sz - 1 →
  let W := install_writes V st ss in let h := put_head [] (view_writes V W st) in
  (∀ c' β' g', only_woken c c' → block_ok h → lists [] h →
     cache β' (<[Z.to_nat st := h]> (apply_writes D W)) ((T ++ W) ++ [(st, h)])
       (vupd st h (view_writes V W)) ∅ (Dy ∖ list_to_set ss ∖ {[st]}) →
     glog st sz [] busy g' → Q () (c', (β', (g', x)))) →
  wp recover_from_log Q (c, (β, (g, x))).
Proof.
  intros C Hf L Hsz G1 G2 G3 G4 G5 Hls Hlen Hh Hcap W h HQ. unfold recover_from_log. apply wp_bind.
  eapply (read_head_wp c x); [exact C|done|exact L|lia|done..|]. intros c1 β1 g1 W1 C1 Gg1.
  apply wp_bind. pose proof (bio_free_woken _ _ W1 Hf) as Hf1.
  eapply (install_trans_wp c1 x); [exact C1|done|exact Gg1|exact L|done|done|done|].
  intros c2 β2 W2 C2. apply wp_bind, wp_setg.
  assert (G2' : glog st sz [] busy (set_lh_n 0 g1)) by (destruct Gg1; by constructor).
  eapply (write_head_wp c2 x); [exact C2|by eapply bio_free_woken|exact G2'| |done| |].
  - by rewrite apply_writes_length.
  - assert (size (Dy ∖ list_to_set ss) ≤ size Dy)%nat; [|lia].
    apply subseteq_size. intros k Hk. by apply elem_of_difference in Hk as [? _].
  - intros _ h0 Hh1 Hh2 c3 β3 W3 C3. eapply HQ; [|done..].
    by do 2 (eapply only_woken_trans; [done|]).
Qed.

(** Power-on: an empty cache, then [initlog]. *)
Definition boot : M (core * (bio * (logst * Ext))) unit := binit ;; initlog.

Lemma boot_recovers c x D st sz ss :
  Forall block_ok D → bio_free c → layout st sz (length D) → 1 < Z.of_nat (length D) →
  sb_valid st sz (dview D 1) → lists ss (dview D st) → (length ss ≤ LOGSIZE)%nat →
  Forall (home st sz (length D)) ss → Z.of_nat (length ss) ≤ sz - 1 →
  ∃ c' β' g' h, boot (c, (bio0 D, (log0, x))) = Ret () (c', (β', (g', x))) ∧
    lists [] h ∧ disk β' = <[Z.to_nat st := h]> (apply_writes D (install_writes (dview D) st ss)).
Proof.
  intros HD Hf L Hl1 (size & nlog & Hs0 & Hs3 & Est & Esz) Hls Hlen Hh Hcap.
  assert (H : wp boot (λ _ s, ∃ c' β' g' h, s = (c', (β', (g', x))) ∧ lists [] h ∧
    disk β' = <[Z.to_nat st := h]> (apply_writes D (install_writes (dview D) st ss)))
    (c, (bio0 D, (log0, x)))).
  2:{ apply wp_Ret in H as ([] & s & Hrun & c' & β' & g' & h & -> & H). by exists c', β', g', h. }
  unfold boot. apply wp_bind. unfold wp at 1. rewrite binit_run.
  pose proof (cache_init D HD) as C. change (λ n, default [] (D !! Z.to_nat n)) with (dview D) in C.
  pose proof L as [L1 L2 L3 L4].
  unfold initlog. change ((BSIZE <=? 4 + 4 * LOGSIZE)%nat) with false. cbv iota.
  apply wp_bind. eapply (readsb_wp c); [exact C|done|done|vm_compute; lia|].
  intros c1 β1 w0 w1 w2 w3 W1 C1 E0 E1 E2 E3.
  rewrite Hs0 in E0. rewrite Hs3 in E3. injection E0 as <-. injection E3 as <-. cbn [sb_size sb_nlog].
  rewrite <-Est. rewrite <-Esz.
  apply wp_bind, wp_setg, wp_bind, wp_setg, wp_bind, wp_setg. rewrite !i32_small by lia.
  eapply (recover_wp c1 x); [exact C1|by eapply bio_free_woken|exact L|vm_compute; lia|done..|].
  intros c2 β2 g2 W2 Hh1 Hh2 C2 G2. eexists c2, β2, g2, _. split; [done|]. split; [exact Hh2|].
  by rewrite (ca_disk _ _ _ _ _ _ C2).
Qed.

(** [commit_trans] of a transaction that lists [ss]: header, installation,
    cleared header. *)
Definition commit_writes (V : Z → list Z) (st : Z) (ss : list Z) (h h' : list Z) : list (Z * list Z) :=
  match ss with
  | [] => []
  | _ => (st, h) :: ((λ s, (s, V s)) <$> ss) ++ [(st, h')]
  end.

(** The log is given back and its waiters are woken. *)
Lemma end_trans_wp c c1 x β g st sz Q :
  only_woken c c1 → bio_free c → L_log ∉ locks c → glog st sz [] 1 g →
  (∀ c' g', only_woken c c' → glog st sz [] 0 g' → Q () (c', (β, (g', x)))) →
  wp (acquire L_log ;; setg (set_lbusy 0) ;; wakeup Ch_log ;; release L_log) Q (c1, (β, (g, x))).
Proof.
  intros W1 Hf Hlk G1 HQ.
  assert (Hlk1 : L_log ∉ locks c1) by (by rewrite (ow_locks _ _ W1)).
  assert (Hpt1 : L_ptable ∉ locks c1) by (rewrite (ow_locks _ _ W1); apply Hf).
  apply wp_bind, wp_acquire; [done|]. apply wp_bind, wp_setg. apply wp_bind.
  apply wp_wakeup; [simpl; set_solver|]. apply wp_release; [simpl; set_solver|]. simpl.
  apply HQ; [|by destruct G1].
  eapply only_woken_trans; [exact W1|]. destruct c1 as [lk ps np ip cu].
  pose proof (wakeup_only_woken Ch_log (mkCore lk ps np ip cu)) as [O1 O2 O3 O4 O5].
  constructor; try done. simpl in *. set_solver.
Qed.

Lemma view_writes_same V ss V1 m : V1 m = V m → view_writes V1 ((λ s, (s, V s)) <$> ss) m = V m.
Proof.
  revert V1. induction ss as [|s ss IH]; intros V1 E; [done|]. simpl. apply IH.
  unfold vupd. case_decide; [by subst|done].
Qed.

(** With the header written, the log blocks still hold what the sectors listed do. *)
Lemma install_logged st sz D0 ss V D T h :
  txinv st sz D0 ss V D T → install_writes (vupd st h V) st ss = (λ s, (s, V s)) <$> ss.
Proof.
  intros X. apply list_eq. intros i. unfold install_writes. rewrite list_lookup_imap, list_lookup_fmap.
  destruct (ss !! i) as [s|] eqn:Ei; [|done]. simpl. do 2 f_equal.
  rewrite vupd_ne by lia. by destruct (tx_log _ _ _ _ _ _ _ X i s Ei).
Qed.

(** Nor is the header's sector listed, or changed by the transaction. *)
Lemma head_not_dirty st sz n (ss : list Z) : layout st sz n → Forall (home st sz n) ss →
  list_to_set ss ∖ {[st]} = (list_to_set ss : gset Z).
Proof.
  intros [L1 L2 _ _] Hh. assert (Hst : st ∉ ss).
  { intros [i Hi]%list_elem_of_lookup. apply (Forall_lookup_1 _ _ _ _ Hh) in Hi as [? ?]. lia. }
  apply set_eq. intros m. rewrite elem_of_difference, elem_of_list_to_set, elem_of_singleton.
  split; [tauto|]. intros Hm. split; [done|]. by intros ->.
Qed.

Lemma tx_head_block β D T0 T V H Dy st sz D0 ss :
  cache β D T0 V H Dy → txinv st sz D0 ss V D T →
  0 ≤ st → block_ok (V st).
Proof.
  intros C X Hst. pose proof (bo_disk _ (ca_ok _ _ _ _ _ _ C)) as Hbd.
  rewrite (ca_disk _ _ _ _ _ _ C) in Hbd. apply (Forall_lookup_1 _ _ (Z.to_nat st) _ Hbd).
  rewrite (tx_disk _ _ _ _ _ _ _ X), (log_writes_notin st sz); [|done|apply X|done|by left].
  apply (tx_head _ _ _ _ _ _ _ X).
Qed.

Lemma commit_wp c x β g D T0 T V st sz D0 ss Q :
  cache β D (T0 ++ T) V ∅ (list_to_set ss) → txinv st sz D0 ss V D T →
  bio_free c → L_log ∉ locks c → glog st sz ss 1 g → layout st sz (length D0) →
  (length ss ≤ 8)%nat → Z.of_nat (length ss) ≤ sz - 1 →
  (∀ c' β' g' h h' V', only_woken c c' → block_ok h → lists ss h → block_ok h' → lists [] h' →
     let W := commit_writes V st ss h h' in
     cache β' (apply_writes D W) (T0 ++ T ++ W) V' ∅ ∅ → glog st sz [] 0 g' →
     (∀ m, home st sz (length D0) m → V' m = V m) →
     Q () (c', (β', (g', x)))) →
  wp commit_trans Q (c, (β, (g, x))).
Proof.
  intros C X Hf Hlk G L Hl1 Hl2 HQ. pose proof (txinv_len _ _ _ _ _ _ _ X) as HlD.
  pose proof L as [L1 L2 L3 L4].
  unfold commit_trans. apply wp_bind, wp_getg. rewrite (gl_n _ _ _ _ _ G).
  destruct ss as [|s0 ss'] eqn:Ess.
  { apply wp_bind. simpl. apply wp_ret.
    destruct (put_head_facts [] (V st)) as [Hb1 Hb2]; [unfold LOGSIZE; simpl; lia| |done|].
    { by eapply tx_head_block. }
    apply (end_trans_wp c c x β g st sz); try done; [apply only_woken_refl|]. intros c' g' W' G'.
    eapply (HQ c' β g' (put_head [] (V st)) (put_head [] (V st)) V); try done.
    simpl. by rewrite app_nil_r. }
  rewrite <-Ess in *. assert (Hpos : (0 < length ss)%nat) by (rewrite Ess; simpl; lia).
  rewrite (proj2 (Z.ltb_lt 0 _)) by lia. unfold when.
  assert (Hsz : size (list_to_set ss : gset Z) = length ss).
  { apply size_list_to_set. apply X. }
  apply wp_bind, wp_bind. pose proof (tx_home _ _ _ _ _ _ _ X) as Hhm.
  eapply (write_head_wp c x); [exact C|done|exact G|by rewrite HlD|by rewrite HlD|rewrite Hsz; unfold NBUF; lia|].
  intros Hbst h Hb1 Hb2 c1 β1 W1 C1.
  pose proof (bio_free_woken _ _ W1 Hf) as Hf1.
  rewrite (head_not_dirty st sz _ _ L Hhm) in C1. apply wp_bind.
  eapply (install_trans_wp c1 x); [exact C1|done|exact G|by rewrite length_insert, HlD|
    by rewrite length_insert, HlD|done|rewrite Hsz; unfold NBUF; lia|].
  rewrite (install_logged _ _ _ _ _ _ _ h X). set (W := (λ s, (s, V s)) <$> ss). intros c2 β2 W2 C2.
  apply wp_bind, wp_setg.
  assert (G2 : glog st sz [] 1 (set_lh_n 0 g)) by (destruct G; by constructor).
  assert (EDy2 : list_to_set ss ∖ list_to_set ss = (∅ : gset Z)) by set_solver. rewrite EDy2 in C2.
  eapply (write_head_wp c2 x); [exact C2|by eapply bio_free_woken|exact G2|
    by rewrite apply_writes_length, length_insert, HlD|done|vm_compute; lia|].
  intros _ h' Hb3 Hb4 c3 β3 W3 C3.
  assert (E : commit_writes V st ss h h' = (st, h) :: W ++ [(st, h')]) by (unfold W; by rewrite Ess).
  apply (end_trans_wp c c3 x β3 (set_lh_n 0 g) st sz); try done.
  { by do 2 (eapply only_woken_trans; [done|]). }
  intros c4 g4 W4 G4. apply (HQ c4 β3 g4 h h' (vupd st h' (view_writes (vupd st h V) W))); try done.
  - rewrite E. change ((st, h) :: W ++ [(st, h')]) with ([(st, h)] ++ W ++ [(st, h')]).
    rewrite !apply_writes_app. rewrite <-!app_assoc in C3.
    assert (E3 : (∅ ∖ {[st]} : gset Z) = ∅) by set_solver. rewrite E3 in C3. exact C3.
  - intros m [Hm1 Hm2]. rewrite vupd_ne by lia. apply view_writes_same, vupd_ne. lia.
Qed.

End Crash.

(** ** Crashes *)

Lemma prefix_app_or {A} (P X Y : list A) :
  P `prefix_of` X ++ Y → P `prefix_of` X ∨ ∃ P', P = X ++ P' ∧ P' `prefix_of` Y.
Proof.
  revert P. induction X as [|a X IH]; intros P H; [right; by exists P|].
  destruct P as [|b P]; [left; apply prefix_nil|].
  pose proof (prefix_cons_inv_1 _ _ _ _ H) as ->. apply prefix_cons_inv_2 in H.
  destruct (IH P H) as [H'|(P' & -> & H')]; [left; by apply prefix_cons|right; by exists P'].
Qed.

Lemma prefix_Forall {A} (Q : A → Prop) P l : P `prefix_of` l → Forall Q l → Forall Q P.
Proof. intros [k ->] H. by apply Forall_app in H as [H _]. Qed.

(** The sectors outside the log hold [V]. *)
Definition holds_view (st sz : Z) (D : list (list Z)) (V : Z → list Z) : Prop :=
  ∀ s, home st sz (length D) s → D !! Z.to_nat s = Some (V s).

Section CrashDisk.
Context (st sz : Z) (D0 D : list (list Z)) (ss : list Z) (V : Z → list Z) (T : list (Z * list Z)).
Hypothesis L : layout st sz (length D0).
Hypothesis X : txinv st sz D0 ss V D T.
Hypothesis Hcap : Z.of_nat (length ss) ≤ sz - 1.
Hypothesis Hb0 : Forall block_ok D0.

Let W := (λ s, (s, V s)) <$> ss.

Lemma crash_W_fst : W.*1 = ss.
Proof. unfold W. rewrite <-list_fmap_compose. apply list_fmap_id. Qed.

Lemma crash_ss_home s : s ∈ ss → home st sz (length D0) s.
Proof.
  intros [i Hi]%list_elem_of_lookup. by apply (Forall_lookup_1 _ _ _ _ (tx_home _ _ _ _ _ _ _ X)) in Hi.
Qed.

Lemma crash_len : length D = length D0.
Proof. apply (txinv_len _ _ _ _ _ _ _ X). Qed.

Lemma crash_W_pos P : P `prefix_of` W → Forall (λ p, 0 ≤ fst p) P.
Proof.
  intros HP. eapply prefix_Forall; [done|]. apply Forall_lookup_2. intros i p Hi.
  unfold W in Hi. rewrite list_lookup_fmap in Hi. destruct (ss !! i) as [s|] eqn:E; [|done].
  injection Hi as <-. simpl. apply crash_ss_home. by eapply list_elem_of_lookup_2.
Qed.

(** During the installation the log area does not change. *)
Lemma crash_log_area h P m :
  P `prefix_of` W → 0 ≤ m → st ≤ m < st + sz →
  apply_writes (<[Z.to_nat st := h]> D) P !! Z.to_nat m = <[Z.to_nat st := h]> D !! Z.to_nat m.
Proof.
  intros HP Hm Hr. apply apply_writes_notin; [done|by apply crash_W_pos|].
  intros Hin. assert (Hs : m ∈ ss).
  { rewrite <-crash_W_fst. destruct HP as [k HP]. rewrite HP, fmap_app. apply elem_of_app. by left. }
  apply crash_ss_home in Hs as [? ?]. lia.
Qed.

Lemma crash_old_disk m : home st sz (length D0) m → D !! Z.to_nat m = D0 !! Z.to_nat m.
Proof.
  intros Hm. rewrite (tx_disk _ _ _ _ _ _ _ X).
  apply (log_writes_notin st sz); [apply L|apply X|apply Hm|by right].
Qed.

(** Whatever part of the installation was done, doing all of it from the log
    gives the new contents. *)
Lemma crash_install h P s :
  P `prefix_of` W → home st sz (length D0) s →
  let D' := apply_writes (<[Z.to_nat st := h]> D) P in
  apply_writes D' (install_writes (dview D') st ss) !! Z.to_nat s = Some (V s).
Proof.
  intros HP Hs D'. pose proof L as [L1 L2 L3 L4].
  assert (Hlen : length D' = length D0).
  { unfold D'. by rewrite apply_writes_length, length_insert, crash_len. }
  assert (EW : install_writes (dview D') st ss = W).
  { apply list_eq. intros i. unfold install_writes, W. rewrite list_lookup_imap, list_lookup_fmap.
    destruct (ss !! i) as [s'|] eqn:Ei; [|done]. simpl. do 2 f_equal. unfold dview.
    apply lookup_lt_Some in Ei as Hi. unfold D'. rewrite crash_log_area by (done || lia).
    rewrite list_lookup_insert_ne by lia.
    by destruct (tx_log _ _ _ _ _ _ _ X i s' Ei) as [_ ->]. }
  rewrite EW. destruct (decide (s ∈ ss)) as [Hin|Hni].
  - apply apply_writes_in; [rewrite crash_W_fst; apply X|by apply crash_W_pos| |].
    + unfold W. apply list_elem_of_fmap. by exists s.
    + rewrite Hlen. destruct Hs. lia.
  - rewrite apply_writes_notin; [|apply Hs|by apply crash_W_pos|by rewrite crash_W_fst].
    unfold D'. rewrite apply_writes_notin; [|apply Hs|by apply crash_W_pos|].
    + rewrite list_lookup_insert_ne by (destruct Hs; lia). rewrite crash_old_disk by done.
      by apply (tx_old _ _ _ _ _ _ _ X); [apply Hs| |].
    + destruct HP as [k HP]. intros Hin. apply Hni. rewrite <-crash_W_fst, HP, fmap_app.
      apply elem_of_app. by left.
Qed.

(** The header on disk after a prefix of the transaction's writes, and what
    recovery makes of that disk. *)
Lemma crash_cases h h' P :
  lists [] (dview D0 st) → lists ss h → lists [] h' →
  P `prefix_of` T ++ commit_writes V st ss h h' →
  let D' := apply_writes D0 P in
  ∃ ss', lists ss' (dview D' st) ∧ (ss' = [] ∨ ss' = ss) ∧
    let R := apply_writes D' (install_writes (dview D') st ss') in
    (∀ s, home st sz (length D0) s → R !! Z.to_nat s = D0 !! Z.to_nat s) ∨
    (∀ s, home st sz (length D0) s → R !! Z.to_nat s = Some (V s)).
Proof.
  intros Hl0 Hlh Hlh' HP D'. pose proof L as [L1 L2 L3 L4].
  assert (Hold : P `prefix_of` T → ∃ ss', lists ss' (dview D' st) ∧ (ss' = [] ∨ ss' = ss) ∧
    let R := apply_writes D' (install_writes (dview D') st ss') in
    (∀ s, home st sz (length D0) s → R !! Z.to_nat s = D0 !! Z.to_nat s) ∨
    (∀ s, home st sz (length D0) s → R !! Z.to_nat s = Some (V s))).
  { intros HPT. pose proof (prefix_Forall _ _ _ HPT (tx_trace _ _ _ _ _ _ _ X)) as HT.
    exists []. split; [|split; [by left|left]].
    - unfold dview, D'. rewrite (log_writes_notin st sz); [done|done|done|done|by left].
    - intros s Hs. simpl. apply (log_writes_notin st sz); [done|done|apply Hs|by right]. }
  apply prefix_app_or in HP as [HP|(P1 & -> & HP)]; [by apply Hold|].
  assert (Ecw : commit_writes V st ss h h' = [] ∨
    commit_writes V st ss h h' = (st, h) :: W ++ [(st, h')]).
  { unfold commit_writes, W. destruct ss; [by left|by right]. }
  destruct Ecw as [E|E]; rewrite E in HP.
  { apply prefix_nil_inv in HP as ->. apply Hold. by rewrite app_nil_r. }
  destruct P1 as [|p P1]; [apply Hold; by rewrite app_nil_r|].
  pose proof (prefix_cons_inv_1 _ _ _ _ HP) as ->. apply prefix_cons_inv_2 in HP.
  assert (ED : D' = apply_writes (<[Z.to_nat st := h]> D) P1).
  { unfold D'. rewrite apply_writes_app, <-(tx_disk _ _ _ _ _ _ _ X). done. }
  assert (Hlt : (Z.to_nat st < length D)%nat) by (rewrite crash_len; lia).
  apply prefix_app_or in HP as [HP|(P2 & -> & HP)].
  - exists ss. rewrite ED. split; [|split; [by right|right]].
    + unfold dview. rewrite crash_log_area by (done || lia). by rewrite list_lookup_insert_eq.
    + intros s Hs. by apply crash_install.
  - destruct P2 as [|p P2].
    + rewrite app_nil_r in ED. exists ss. rewrite ED. split; [|split; [by right|right]].
      * unfold dview. rewrite crash_log_area by (done || lia). by rewrite list_lookup_insert_eq.
      * intros s Hs. by apply crash_install.
    + pose proof (prefix_cons_inv_1 _ _ _ _ HP) as ->. apply prefix_cons_inv_2, prefix_nil_inv in HP as ->.
      fold W in ED. rewrite apply_writes_app in ED. simpl in ED.
      assert (Hlen : length (apply_writes (<[Z.to_nat st := h]> D) W) = length D0).
      { by rewrite apply_writes_length, length_insert, crash_len. }
      exists []. split; [|split; [by left|right]].
      * unfold dview. rewrite ED, list_lookup_insert_eq; [done|]. rewrite Hlen. lia.
      * intros s Hs. simpl. rewrite ED, list_lookup_insert_ne by (destruct Hs; lia).
        pose proof (crash_install h [] s (prefix_nil _) Hs) as Hi. simpl in Hi.
        destruct (decide (s ∈ ss)) as [Hin|Hni].
        -- apply apply_writes_in; [rewrite crash_W_fst; apply X|by apply crash_W_pos| |].
           ++ unfold W. apply list_elem_of_fmap. by exists s.
           ++ rewrite length_insert, crash_len. destruct Hs. lia.
        -- rewrite apply_writes_notin; [|apply Hs|by apply crash_W_pos|by rewrite crash_W_fst].
           rewrite list_lookup_insert_ne by (destruct Hs; lia). rewrite crash_old_disk by done.
           by apply (tx_old _ _ _ _ _ _ _ X); [apply Hs| |].
Qed.

End CrashDisk.

(** Between transactions: nothing in use, nothing dirty, the log empty. *)
Definition idle {Ext} (st sz : Z) (D : list (list Z)) (s : core * (bio * (logst * Ext))) : Prop :=
  ∃ T, cache (fst (snd s)) D T (dview D) ∅ ∅ ∧ glog st sz [] 0 (fst (snd (snd s))) ∧
    bio_free (fst s) ∧ L_log ∉ locks (fst s).

(** A disk with a superblock and an empty log. *)
Record good_disk (st sz : Z) (D : list (list Z)) : Prop := {
  gd_blocks : Forall block_ok D;
  gd_layout : layout st sz (length D);
  gd_len : 1 < Z.of_nat (length D);
  gd_sb : sb_valid st sz (dview D 1);
  gd_sb_home : home st sz (length D) 1;
  gd_head : lists [] (dview D st) }.

Lemma begin_wp {Ext} c β g (x : Ext) st sz ss Q :
  glog st sz ss 0 g → L_log ∉ locks c →
  (∀ c' g', only_woken c c' → glog st sz ss 1 g' → Q () (c', (β, (g', x)))) →
  wp begin_trans Q (c, (β, (g, x))).
Proof.
  intros G Hl HQ. unfold begin_trans. apply wp_bind, wp_acquire; [done|]. simpl.
  unfold begin_trans_loop. apply wp_bind, wp_getg. rewrite (gl_busy _ _ _ _ _ G). simpl.
  apply wp_bind, wp_setg. apply wp_release; [simpl; set_solver|]. simpl. apply HQ.
  - pose proof (only_woken_refl c) as [O1 O2 O3 O4 O5]. constructor; try done. simpl. set_solver.
  - destruct G. by constructor.
Qed.

Lemma view_writes_ext T V V' m : V m = V' m → view_writes V T m = view_writes V' T m.
Proof.
  revert V V'. induction T as [|p T IH]; intros V V' E; [done|]. simpl. apply IH.
  unfold vupd. by case_decide.
Qed.

(** Every sector a transaction writes. *)
Lemma tx_writes_sectors st sz D0 D V h h' ss T :
  layout st sz (length D0) → txinv st sz D0 ss V D T → block_ok h → block_ok h' →
  (∀ s, s ∈ ss → block_ok (V s)) →
  Forall (λ p, block_ok (snd p) ∧ (st ≤ fst p < st + sz ∨ fst p ∈ ss))
    (T ++ commit_writes V st ss h h').
Proof.
  intros [L1 L2 L3 L4] X Hh Hh' HV. apply Forall_app. split.
  - eapply Forall_impl; [|apply X]. intros p [? ?]. split; [done|]. left. lia.
  - assert (Hst : st ≤ st < st + sz) by lia. unfold commit_writes.
    destruct ss as [|s0 ss0] eqn:E; [done|]. rewrite <-E in *.
    constructor; [by split; [|left]|]. apply Forall_app. split; [|constructor; [by split; [|left]|done]].
    apply Forall_lookup_2. intros i p Hi. rewrite list_lookup_fmap in Hi.
    destruct (ss !! i) as [s|] eqn:Es; [|done]. injection Hi as <-. simpl.
    assert (Hs : s ∈ ss) by (by eapply list_elem_of_lookup_2). split; [by apply HV|by right].
Qed.

(** With nothing in use or dirty, readers see the disk. *)
Lemma clean_view β D T V m : cache β D T V ∅ ∅ → 0 ≤ m → V m = dview D m.
Proof.
  intros C Hm. rewrite <-(ca_view _ _ _ _ _ _ C) by done.
  pose proof (ca_disk _ _ _ _ _ _ C) as Hd. rewrite <-Hd. change (dview (disk β) m) with (dsk β m).
  pose proof (ca_ok _ _ _ _ _ _ C) as Hok. unfold view.
  destruct (List.find _ _) as [b|] eqn:Hfd; [|done]. apply find_lookup in Hfd as [Hb Hbh].
  apply elem_of_seq in Hb. destruct (bufs β !! b) as [y|] eqn:Hy; [|done].
  destruct (proj1 (holds_lookup _ _ _ _ y Hy) Hbh) as [_ Es].
  destruct (is_valid y) eqn:Hv; [|done]. rewrite <-Es. apply (bo_clean _ Hok b y); [lia|done|done| |].
  - apply not_true_is_false. intros Hdy. apply (not_elem_of_empty (C := gset Z) (sector y)).
    apply (ca_dirty _ _ _ _ _ _ C). exists b, y. split_and!; [lia|done..].
  - apply not_true_is_false. intros Hbz. apply (not_elem_of_empty (C := gset nat) b).
    assert (Hin : b ∈ busys β) by (apply elem_flagset; split; [lia|by exists y]).
    by rewrite (ca_busy _ _ _ _ _ _ C), dom_empty_L in Hin.
Qed.

Section Reboot.
Context {Ext : Type} (c0 : core) (x0 : Ext) (st sz : Z).
Context (D0 D : list (list Z)) (ss : list Z) (V : Z → list Z) (T : list (Z * list Z)).
Context (h h' : list Z).
Hypothesis Hc0 : bio_free c0.
Hypothesis G : good_disk st sz D0.
Hypothesis X : txinv st sz D0 ss V D T.
Hypothesis Hcap : Z.of_nat (length ss) ≤ sz - 1.
Hypothesis Hlen : (length ss ≤ 8)%nat.
Hypothesis Hb : block_ok h.
Hypothesis Hb' : block_ok h'.
Hypothesis Hh : lists ss h.
Hypothesis Hh' : lists [] h'.
Hypothesis HV : ∀ s, s ∈ ss → block_ok (V s).
Hypothesis Hno1 : 1 ∉ ss.

(** Booting after any prefix of the writes. *)
Lemma reboot_atomic P : P `prefix_of` T ++ commit_writes V st ss h h' →
  ∃ s2, boot (c0, (bio0 (apply_writes D0 P), (log0, x0))) = Ret () s2 ∧
    length (disk (fst (snd s2))) = length D0 ∧
    (holds_view st sz (disk (fst (snd s2))) (dview D0) ∨
     holds_view st sz (disk (fst (snd s2))) V).
Proof.
  intros HP. destruct G as [HD L Hl1 Hsb Hsb1 Hhd]. pose proof L as [L1 L2 L3 L4].
  destruct (crash_cases st sz D0 D ss V T L X Hcap h h' P Hhd Hh Hh' HP) as (ss' & Hls & Hss' & HR).
  set (D' := apply_writes D0 P) in *.
  assert (HlenP : length D' = length D0) by apply apply_writes_length.
  pose proof (prefix_Forall _ _ _ HP (tx_writes_sectors st sz D0 D V h h' ss T L X Hb Hb' HV)) as HF.
  assert (H1 : dview D' 1 = dview D0 1).
  { unfold dview, D'. rewrite apply_writes_notin; [done|done| |].
    - eapply Forall_impl; [|exact HF]. intros p [_ [?|Hp]]; [lia|].
      apply (crash_ss_home st sz D0 D ss V T X) in Hp as [? _]. lia.
    - intros (p & E & Hp)%list_elem_of_fmap. rewrite Forall_forall in HF.
      destruct (HF p) as [_ [Hr|Hr]]; [by apply list_elem_of_In|..].
      + rewrite <-E in Hr. destruct Hsb1 as [_ ?]. lia.
      + by rewrite <-E in Hr. }
  destruct (boot_recovers c0 x0 D' st sz ss') as (c' & β' & g' & h2 & Hrun & _ & Hd); try done.
  - apply apply_writes_block; [done|]. eapply Forall_impl; [|exact HF]. by intros p [? _].
  - by rewrite HlenP.
  - by rewrite HlenP.
  - by rewrite H1.
  - destruct Hss' as [-> | ->]; unfold LOGSIZE; simpl; lia.
  - rewrite HlenP. destruct Hss' as [-> | ->]; [done|apply X].
  - destruct Hss' as [-> | ->]; simpl; lia.
  - eexists. split; [exact Hrun|]. cbn [fst snd]. rewrite Hd.
    assert (Hsame : ∀ s, home st sz (length D0) s → ∀ E, <[Z.to_nat st:=h2]> E !! Z.to_nat s = (E : list (list Z)) !! Z.to_nat s).
    { intros s [? ?] E. apply list_lookup_insert_ne. lia. }
    split; [by rewrite length_insert, apply_writes_length|].
    unfold holds_view. rewrite length_insert, apply_writes_length, HlenP.
    destruct HR as [HR|HR]; [left|right]; intros s Hs; rewrite Hsame, HR by done; [|done].
    unfold dview. destruct Hs as [Hs _].
    destruct (lookup_lt_is_Some_2 D0 (Z.to_nat s)) as [v Hv]; [lia|]. by rewrite Hv.
Qed.

End Reboot.

Lemma dview_some D s : 0 ≤ s < Z.of_nat (length D) → D !! Z.to_nat s = Some (dview D s).
Proof.
  intros Hs. unfold dview. destruct (lookup_lt_is_Some_2 D (Z.to_nat s)) as [v Hv]; [lia|]. by rewrite Hv.
Qed.

(** A transaction that has done nothing. *)
Lemma txinv_start st sz D : layout st sz (length D) → txinv st sz D [] (dview D) D [].
Proof.
  intros [L1 L2 L3 L4]. constructor; try done; [by constructor| |].
  - intros s _ [Hs _] _. by apply dview_some.
  - apply dview_some. lia.
Qed.

Lemma listed_block β D T0 V H Dy st sz D0 ss T s :
  cache β D T0 V H Dy → txinv st sz D0 ss V D T → s ∈ ss → block_ok (V s).
Proof.
  intros C X [i Hi]%list_elem_of_lookup. destruct (tx_log _ _ _ _ _ _ _ X i s Hi) as [_ Hl].
  pose proof (bo_disk _ (ca_ok _ _ _ _ _ _ C)) as HB. rewrite (ca_disk _ _ _ _ _ _ C) in HB.
  apply (Forall_lookup_1 _ _ _ _ HB Hl).
Qed.

(** C3. Crash atomicity of the log.  Take a disk with an empty log, the kernel
    between transactions, and a transaction that replaces up to eight blocks
    outside the log through [bread], [log_write] and [brelse], between
    [begin_trans] and [commit_trans].  It returns, and then the disk and all
    readers have the new blocks, and the kernel is between transactions again.
    If the machine stops after any prefix of the transaction's sector writes,
    booting on that disk ([binit], [initlog]) returns and leaves the sectors
    outside the log either all as before the transaction or all as after it. *)
Theorem log_crash_atomic {Ext} (c c0 : core) (β : bio) (g : logst) (x x0 : Ext) (st sz : Z)
    (D0 : list (list Z)) (ups : list (Z * list Z))
    (Hidle : idle st sz D0 (c, (β, (g, x)))) (Hdisk : good_disk st sz D0)
    (Hups : Forall (λ p, home st sz (length D0) (fst p) ∧ fst p ≠ 1 ∧ block_ok (snd p)) ups)
    (Hn : (length ups ≤ 8)%nat) (Hcap : Z.of_nat (length ups) ≤ sz - 1) (Hc0 : bio_free c0) :
  let V := view_writes (dview D0) ups in
  ∃ s' D1 T, transaction ups (c, (β, (g, x))) = Ret () s' ∧ idle st sz D1 s' ∧
    length D1 = length D0 ∧ holds_view st sz D1 V ∧
    dtrace (fst (snd s')) = dtrace β ++ T ∧ D1 = apply_writes D0 T ∧
    ∀ P, P `prefix_of` T →
      ∃ s2, boot (c0, (bio0 (apply_writes D0 P), (log0, x0))) = Ret () s2 ∧
        (holds_view st sz (disk (fst (snd s2))) (dview D0) ∨
         holds_view st sz (disk (fst (snd s2))) V).
Proof.
  intros V. destruct Hidle as (T0 & C & G & Hf & Hlk). pose proof Hdisk as HG.
  destruct Hdisk as [HD L Hl1 Hsb Hsb1 Hhd]. cbn [fst snd] in *. pose proof L as [L1 L2 L3 L4].
  assert (H : wp (transaction ups) (λ _ s', ∃ D1 T, idle st sz D1 s' ∧
    length D1 = length D0 ∧ holds_view st sz D1 V ∧
    dtrace (fst (snd s')) = dtrace β ++ T ∧ D1 = apply_writes D0 T ∧
    ∀ P, P `prefix_of` T →
      ∃ s2, boot (c0, (bio0 (apply_writes D0 P), (log0, x0))) = Ret () s2 ∧
        (holds_view st sz (disk (fst (snd s2))) (dview D0) ∨
         holds_view st sz (disk (fst (snd s2))) V)) (c, (β, (g, x)))).
  2:{ apply wp_Ret in H as ([] & s' & Hrun & D1 & T & H). by exists s', D1, T. }
  unfold transaction. apply wp_bind. eapply (begin_wp c β g x); [exact G|done|].
  intros c1 g1 W1 G1. apply wp_bind.
  eapply (updates_wp c1 x β g1 D0 T0 [] (dview D0) st sz D0 []);
    [by rewrite app_nil_r|by apply txinv_start|by eapply bio_free_woken|exact G1|exact L| |done|simpl; lia|].
  { eapply Forall_impl; [|exact Hups]. by intros p (? & _ & ?). }
  intros c2 β2 g2 D T V2 ss W2 C2 X G2 Hss1 Hss2 HV2 Hin2.
  eapply (commit_wp c2 x β2 g2 D T0 T V2 st sz D0 ss); [exact C2|exact X| | |exact G2|exact L|done|done|].
  { by do 2 (eapply bio_free_woken; [done|]). }
  { by rewrite (ow_locks _ _ W2), (ow_locks _ _ W1). }
  intros c3 β3 g3 h h' V3 W3 Hb1 Hb2 Hb3 Hb4 W C3 G3 HV3.
  assert (ED1 : apply_writes D W = apply_writes D0 (T ++ W)).
  { by rewrite apply_writes_app, <-(tx_disk _ _ _ _ _ _ _ X). }
  assert (Hlen1 : length (apply_writes D W) = length D0) by (rewrite ED1; apply apply_writes_length).
  exists (apply_writes D W), (T ++ W). split_and!; [|done| | |done|].
  - exists (T0 ++ T ++ W). cbn [fst snd]. split_and!; [|done| |].
    + eapply cache_view_ext; [|exact C3]. intros m Hm. by apply (clean_view β3 _ _ _ _ C3).
    + by do 3 (eapply bio_free_woken; [done|]).
    + by rewrite (ow_locks _ _ W3), (ow_locks _ _ W2), (ow_locks _ _ W1).
  - intros s Hs. rewrite Hlen1 in Hs. unfold V. rewrite <-HV2, <-HV3 by done.
    rewrite (clean_view β3 _ _ _ s C3) by apply Hs. apply dview_some. rewrite Hlen1. apply Hs.
  - cbn [fst snd]. by rewrite (ca_trace _ _ _ _ _ _ C3), (ca_trace _ _ _ _ _ _ C).
  - intros P HP.
    destruct (reboot_atomic c0 x0 st sz D0 D ss V2 T h h' Hc0 HG X Hss2 Hss1 Hb1 Hb3 Hb2 Hb4
      (λ s, listed_block _ _ _ _ _ _ _ _ _ _ _ s C2 X))
      with (P := P) as (s2 & Hr & Hl2 & Hor); [|exact HP|].
    { intros [?%elem_of_nil|Hin]%Hin2; [done|]. apply list_elem_of_fmap in Hin as (p & E & Hp).
      rewrite Forall_forall in Hups. destruct (Hups p) as (_ & ? & _); [by apply list_elem_of_In|done]. }
    exists s2. split; [done|]. destruct Hor as [?|Hor]; [by left|right].
    intros s Hs. rewrite Hor by done. f_equal. apply HV2. by rewrite Hl2 in Hs.
Qed.

(** A disk of 16 sectors whose last ten are the log. *)
Definition tiny_sb : list Z := put_word 3 10 (put_word 0 16 (replicate BSIZE 0)).
Definition tiny_disk : list (list Z) := <[1%nat := tiny_sb]> (replicate 16 (replicate BSIZE 0)).
Definition tiny_log : logst := mkLog 6 10 0 ROOTDEV 0 (replicate LOGSIZE 0).

Lemma tiny_good : good_disk 6 10 tiny_disk.
Proof.
  assert (Hz : Forall block_ok (replicate 16 (replicate BSIZE 0))) by apply Forall_replicate, zeros_block.
  constructor.
  - apply Forall_insert; [done|]. do 2 (apply put_word_block; [unfold BSIZE; lia|]). apply zeros_block.
  - constructor; simpl; lia.
  - simpl. lia.
  - exists 16, 10. split_and!; reflexivity.
  - split; simpl; lia.
  - split; [reflexivity|]. intros i s H. by rewrite lookup_nil in H.
Qed.

Lemma tiny_idle : idle 6 10 tiny_disk (core0, (mkBio init_bufs tiny_disk [], (tiny_log, ()))).
Proof.
  exists []. split; [apply cache_init, tiny_good|]. split; [by constructor|].
  split; [split|]; apply not_elem_of_empty.
Qed.

Lemma log_crash_atomic_witness :
  let ups := [(3, replicate BSIZE 1); (4, replicate BSIZE 2); (3, replicate BSIZE 5)] in
  ∃ s' D1, transaction ups (core0, (mkBio init_bufs tiny_disk [], (tiny_log, ()))) = Ret () s' ∧
    idle 6 10 D1 s' ∧ holds_view 6 10 D1 (view_writes (dview tiny_disk) ups).
Proof.
  intros ups.
  assert (Hrep : ∀ v, is_byte v → block_ok (replicate BSIZE v)).
  { intros v Hv. split; [apply length_replicate|by apply Forall_replicate]. }
  destruct (log_crash_atomic core0 core0 (mkBio init_bufs tiny_disk []) tiny_log () () 6 10 tiny_disk ups)
    as (s' & D1 & T & H1 & H2 & _ & H3 & _).
  - apply tiny_idle.
  - apply tiny_good.
  - assert (∀ v, 0 ≤ v < 256 → block_ok (replicate BSIZE v)) as Hb by apply Hrep.
    repeat constructor; simpl; try lia; apply Hb; lia.
  - simpl. lia.
  - simpl. lia.
  - split; apply not_elem_of_empty.
  - exists s', D1. split; [exact H1|]. split; [exact H2|exact H3].
Defined.
