(* ===== verification/Console.v ===== *)
(** * The console (console.c) and the keyboard (kbd.c)

    Output is the bytes sent to the serial port and the CGA screen; input is
    the ring [input].  The interrupt handler takes the values its [getc] returns
    before the first negative one. *)
From S2P Require Import Prelude Spinlock Core CString.

(** Characters of a string literal. *)
Definition chars (s : string) : list Z := (λ a, Z.of_N (Ascii.N_of_ascii a)) <$> String.list_ascii_of_string s.

(** ** Numbers *)

Definition digits : list Z := chars "0123456789abcdef".

(** The [do ... while] of [printint]: the digits of [x], least first. *)
Fixpoint digit_loop (fuel : nat) (tbl : list Z) (x base : Z) (buf : list Z) : list Z :=
  match fuel with
  | O => buf
  | S f =>
      let buf := buf ++ [default 0 (aget tbl (x mod base))] in
      let x := x / base in
      if x =? 0 then buf else digit_loop f tbl x base buf
  end.
(** What [printint] puts out; its buffer has sixteen bytes. *)
Definition printint_out (tbl : list Z) (xx base : Z) (sign : bool) : list Z :=
  let neg := sign && (xx <? 0) in
  let x := u32 (if neg then - xx else xx) in
  let buf := digit_loop 16 tbl x base [] in
  rev (if neg then buf ++ [45] else buf).

(** ** [cprintf] *)

(** A variadic argument: a word, or a [char*] with what it points to. *)
Inductive arg := AInt (v : Z) | AStr (s : option (list Z)).

(** The output for [fmt] and the arguments; [None] when the format takes more
    arguments, or others, than there are. *)
Fixpoint cprintf_out (fmt : list Z) (args : list arg) : option (list Z) :=
  match fmt with
  | [] => Some []
  | c :: fmt' =>
      if negb (c =? 37) then cons c <$> cprintf_out fmt' args else
      match fmt' with
      | [] => Some []
      | c :: fmt'' =>
          if c =? 100 then
            match args with
            | AInt v :: args' => app (printint_out digits (i32 v) 10 true) <$> cprintf_out fmt'' args'
            | _ => None
            end
          else if (c =? 120) || (c =? 112) then
            match args with
            | AInt v :: args' => app (printint_out digits (i32 v) 16 false) <$> cprintf_out fmt'' args'
            | _ => None
            end
          else if c =? 115 then
            match args with
            | AStr s :: args' => app (default (chars "(null)") s) <$> cprintf_out fmt'' args'
            | _ => None
            end
          else if c =? 37 then cons 37 <$> cprintf_out fmt'' args
          else app [37; c] <$> cprintf_out fmt'' args
      end
  end.

(** ** State *)

Definition INPUT_BUF : Z := 128.
Definition BACKSPACE : Z := 256.
Definition C_P : Z := 16.
Definition C_U : Z := 21.
Definition C_H : Z := 8.
Definition C_D : Z := 4.
Definition NL : Z := 10.

(** [panicked], [cons.locking], [input], what the serial port sent, CGA memory
    and the cursor registers. *)
Record consst := mkCons {
  panicked : bool; locking : bool;
  ibuf : list Z; ir : Z; iw : Z; ie : Z;
  uart_out : list Z; crt : list Z; cursor : Z }.
Definition cons0 : consst :=
  mkCons false false (replicate (Z.to_nat INPUT_BUF) 0) 0 0 0 [] (replicate 2000 0) 0.
Definition set_ir v s := mkCons (panicked s) (locking s) (ibuf s) v (iw s) (ie s) (uart_out s) (crt s) (cursor s).
Definition set_iw v s := mkCons (panicked s) (locking s) (ibuf s) (ir s) v (ie s) (uart_out s) (crt s) (cursor s).
Definition set_ie v s := mkCons (panicked s) (locking s) (ibuf s) (ir s) (iw s) v (uart_out s) (crt s) (cursor s).
Definition set_ibuf v s := mkCons (panicked s) (locking s) v (ir s) (iw s) (ie s) (uart_out s) (crt s) (cursor s).
Definition set_locking v s := mkCons (panicked s) v (ibuf s) (ir s) (iw s) (ie s) (uart_out s) (crt s) (cursor s).
Definition set_panicked v s := mkCons v (locking s) (ibuf s) (ir s) (iw s) (ie s) (uart_out s) (crt s) (cursor s).
Definition add_uart c s := mkCons (panicked s) (locking s) (ibuf s) (ir s) (iw s) (ie s) (uart_out s ++ [c]) (crt s) (cursor s).
Definition set_screen m p s := mkCons (panicked s) (locking s) (ibuf s) (ir s) (iw s) (ie s) (uart_out s) m p.

(** [cgaputc] on screen memory and cursor position. *)
Definition cga_put (c : Z) (m : list Z) (pos : Z) : list Z * Z :=
  let '(m, pos) :=
    if c =? NL then (m, pos + (80 - Z.rem pos 80))
    else if c =? BACKSPACE then (m, if 0 <? pos then pos - 1 else pos)
    else (aset m pos (Z.lor (Z.land c 0xff) 0x700), pos + 1) in
  let '(m, pos) :=
    if 24 <=? Z.quot pos 80 then
      let m := splice 0 (sublist 80 (23 * 80) m) m in
      let pos := pos - 80 in
      (splice (Z.to_nat pos) (replicate (Z.to_nat (24 * 80 - pos)) 0) m, pos)
    else (m, pos) in
  (aset m pos (Z.lor 32 0x700), pos).

(** ** Stack traces and process listings *)

(** [getcallerpcs], with [word] the words of kernel memory: the return addresses
    on the chain of saved %ebp that starts two words below [v]. *)
Fixpoint callerpcs_loop (fuel : nat) (word : Z → Z) (ebp : Z) : list Z :=
  match fuel with
  | O => []
  | S f =>
      if (ebp =? 0) || (ebp <? 0x80000000) || (ebp =? 0xffffffff) then replicate fuel 0
      else word (u32 (ebp + 4)) :: callerpcs_loop f word (word ebp)
  end.
Definition getcallerpcs (word : Z → Z) (v : Z) : list Z := callerpcs_loop 10 word (u32 (v - 8)).

Definition state_name (st : procstate) : string :=
  match st with
  | UNUSED => "unused" | EMBRYO => "embryo" | SLEEPING => "sleep "
  | RUNNABLE => "runble" | RUNNING => "run   " | ZOMBIE => "zombie"
  end.

(** ** Operations *)

Section Console.
Context {St : Type} `{LC : !Lens St core} `{LX : !Lens St consst}.
Context (ilock iunlock : nat → M St unit) (word : Z → Z).

Definition getx {A} (f : consst → A) : M St A := gets (λ s : St, f (lget s)).
Definition modx (f : consst → consst) : M St unit := modify (λ s : St, lset (f (lget s)) s).

Definition uartputc (c : Z) : M St unit := modx (add_uart (u8 c)).
Definition cgaputc (c : Z) : M St unit :=
  modx (λ s : consst, let '(m, p) := cga_put c (crt s) (cursor s) in set_screen m (Z.land p 0xffff) s).

(** A CPU that finds [panicked] set stops. *)
Definition consputc (c : Z) : M St unit :=
  p ← getx panicked;
  if (p : bool) then block else
  (if c =? BACKSPACE then uartputc 8 ;; uartputc 32 ;; uartputc 8 else uartputc c) ;;
  cgaputc c.

Definition printint (xx base : Z) (sign : bool) : M St unit :=
  for_each (printint_out digits xx base sign) consputc.

Definition cprintf (fmt : list Z) (args : list arg) : M St unit :=
  l ← getx locking;
  when l (acquire L_cons) ;;
  out ← deref (cprintf_out fmt args);
  for_each out consputc ;;
  when l (release L_cons).

(** [panic] stops the machine with this output; [v] is the address of its
    argument on the stack. *)
Definition panic_stop (cpuid : Z) (s : list Z) (v : Z) : M St unit :=
  modx (set_locking false) ;;
  cprintf (chars "cpu%d: panic: ") [AInt cpuid] ;;
  cprintf s [] ;;
  cprintf [NL] [] ;;
  for_each (getcallerpcs word v) (λ pc, cprintf (chars " %p") [AInt pc]) ;;
  modx (set_panicked true) ;;
  block.

(** One turn of [procdump]'s loop; [panic] and sleepers show return addresses. *)
Definition procdump_line (p : proc) : M St unit :=
  if decide (state p = UNUSED) then mret () else
  cprintf (chars "%d %s %s")
    [AInt (pid p); AStr (Some (chars (state_name (state p)))); AStr (Some (Str.cstr (name p)))] ;;
  when (bool_decide (state p = SLEEPING))
    (for_each (Str.cstr (getcallerpcs word (u32 (c_ebp (ctx p) + 8))))
       (λ pc, cprintf (chars " %p") [AInt pc])) ;;
  cprintf [NL] [].
Definition procdump : M St unit := ps ← getc ptable; for_each ps procdump_line.

(** *** Input *)

(** The [C('U')] loop. *)
Fixpoint kill_line (fuel : nat) : M St unit :=
  match fuel with
  | O => fault
  | S f =>
      e ← getx ie; w ← getx iw;
      if e =? w then mret () else
      o ← getx (λ s : consst, aget (ibuf s) (u32 (e - 1) mod INPUT_BUF)); c ← deref o;
      if c =? NL then mret () else
      modx (set_ie (u32 (e - 1))) ;;
      consputc BACKSPACE ;;
      kill_line f
  end.

(** One turn of [consoleintr]'s loop. *)
Definition console_char (c : Z) : M St unit :=
  if c =? C_P then procdump
  else if c =? C_U then e ← getx ie; w ← getx iw; kill_line (S (Z.to_nat (u32 (e - w))))
  else if (c =? C_H) || (c =? 127) then
    e ← getx ie; w ← getx iw;
    when (negb (e =? w)) (modx (set_ie (u32 (e - 1))) ;; consputc BACKSPACE)
  else
    e ← getx ie; r ← getx ir;
    when (negb (c =? 0) && (u32 (e - r) <? INPUT_BUF))
      (let c := if c =? 13 then NL else c in
       modx (λ s : consst, set_ie (u32 (e + 1)) (set_ibuf (aset (ibuf s) (e mod INPUT_BUF) (u8 c)) s)) ;;
       consputc c ;;
       e ← getx ie; r ← getx ir;
       when ((c =? NL) || (c =? C_D) || (e =? u32 (r + INPUT_BUF)))
         (modx (set_iw e) ;; wakeup Ch_input)).
Definition consoleintr (cs : list Z) : M St unit :=
  acquire L_input ;;
  for_each cs console_char ;;
  release L_input.

(** [consoleread] from the outer [while], [input.lock] held: [n] bytes are
    still wanted, [acc] were stored.  After a sleep the process resumes with the
    same [n] and [acc]. *)
Fixpoint consoleread_loop (fuel : nat) (ip : nat) (n target : Z) (acc : list Z) : M St (Z * list Z) :=
  match fuel with
  | O => fault
  | S f =>
      if 0 <? n then
        r ← getx ir; w ← getx iw;
        if r =? w then
          me ← myproc; k ← getp me killed;
          if negb (k =? 0) then release L_input ;; ilock ip ;; mret (-1, acc)
          else sleep Ch_input L_input ;; mret (0, []) (* not reached *)
        else
          o ← getx (λ s : consst, aget (ibuf s) (r mod INPUT_BUF)); c ← deref o;
          modx (set_ir (u32 (r + 1))) ;;
          if c =? C_D then
            when (n <? target) (modx (set_ir r)) ;;
            release L_input ;; ilock ip ;; mret (target - n, acc)
          else if c =? NL then
            release L_input ;; ilock ip ;; mret (target - (n - 1), acc ++ [c])
          else consoleread_loop f ip (n - 1) target (acc ++ [c])
      else release L_input ;; ilock ip ;; mret (target - n, acc)
  end.
Definition consoleread (ip : nat) (n : Z) : M St (Z * list Z) :=
  iunlock ip ;;
  acquire L_input ;;
  consoleread_loop (S (Z.to_nat n)) ip n n [].
Definition consoleread_resume (ip : nat) (n target : Z) (acc : list Z) : M St (Z * list Z) :=
  sleep_resume L_input ;; consoleread_loop (S (Z.to_nat n)) ip n target acc.

Definition consolewrite (ip : nat) (buf : list Z) (n : Z) : M St Z :=
  iunlock ip ;;
  acquire L_cons ;;
  for_each (take (Z.to_nat n) buf) (λ c, consputc (Z.land c 0xff)) ;;
  release L_cons ;;
  ilock ip ;;
  mret n.

End Console.
