(* ===== verification/Kbd.v ===== *)
(** * The keyboard (kbd.c, kbd.h)

    [kbdgetc] on the data byte the controller delivers: the new value of
    [shift] and the character. *)
From S2P Require Import Prelude Spinlock Core Console.

Definition SHIFT : Z := 1.
Definition CTL : Z := 2.
Definition ALT : Z := 4.
Definition CAPSLOCK : Z := 8.
Definition NUMLOCK : Z := 16.
Definition SCROLLLOCK : Z := 32.
Definition E0ESC : Z := 64.

(** [C(x)] on an [uchar]. *)
Definition Ctl (x : string) : Z := default 0 (head (chars x)) - 64.

(** A 256-entry array from its leading entries and its designated ones. *)
Definition table (l : list Z) (des : list (Z * Z)) : list Z :=
  foldl (λ t p, <[Z.to_nat (fst p) := u8 (snd p)]> t) ((u8 <$> l) ++ replicate (256 - length l)%nat 0) des.

Definition shiftcode : list Z :=
  table [] [(0x1D, CTL); (0x2A, SHIFT); (0x36, SHIFT); (0x38, ALT); (0x9D, CTL); (0xB8, ALT)].
Definition togglecode : list Z :=
  table [] [(0x3A, CAPSLOCK); (0x45, NUMLOCK); (0x46, SCROLLLOCK)].

Definition keypad (enter slash : Z) : list (Z * Z) :=
  [(0x9C, enter); (0xB5, slash); (0xC8, 0xE2); (0xD0, 0xE3); (0xC9, 0xE6); (0xD1, 0xE7);
   (0xCB, 0xE4); (0xCD, 0xE5); (0x97, 0xE0); (0xCF, 0xE1); (0xD2, 0xE8); (0xD3, 0xE9)].

Definition normalmap : list Z :=
  table ([0; 0x1B] ++ chars "1234567890-=" ++ [8; 9] ++ chars "qwertyuiop[]" ++ [10; 0] ++
    chars "asdfghjkl;'`" ++ [0] ++ chars "\zxcvbnm,./" ++ [0] ++ chars "*" ++ [0; 32] ++
    replicate 13 0 ++ chars "789-456+1230." ++ replicate 4 0)
    (keypad 10 47).
Definition shiftmap : list Z :=
  table ([0; 27] ++ chars "!@#$%^&*()_+" ++ [8; 9] ++ chars "QWERTYUIOP{}" ++ [10; 0] ++
    chars "ASDFGHJKL:" ++ [34] ++ chars "~" ++ [0] ++ chars "|ZXCVBNM<>?" ++ [0] ++ chars "*" ++ [0; 32] ++
    replicate 13 0 ++ chars "789-456+1230." ++ replicate 4 0)
    (keypad 10 47).
Definition ctls (s : string) : list Z := (λ c, c - 64) <$> chars s.
Definition ctlmap : list Z :=
  table (replicate 16 0 ++ ctls "QWERTYUIOP" ++ [0; 0; 13; 0] ++ ctls "ASDFGHJKL" ++
    replicate 4 0 ++ ctls "\ZXCVBNM" ++ [0; 0; 47 - 64; 0; 0])
    (keypad 13 (47 - 64)).
Definition charcode (k : Z) : list Z :=
  if k =? 0 then normalmap else if k =? SHIFT then shiftmap else ctlmap.

Definition at_ (t : list Z) (i : Z) : Z := default 0 (aget t i).

(** A data byte: the result of [kbdgetc] after the status test. *)
Definition kbd_byte (shift data : Z) : Z * Z :=
  if data =? 0xE0 then (Z.lor shift E0ESC, 0)
  else if negb (Z.land data 0x80 =? 0) then
    let data := if negb (Z.land shift E0ESC =? 0) then data else Z.land data 0x7F in
    (Z.land shift (Z.lnot (Z.lor (at_ shiftcode data) E0ESC)), 0)
  else
    let esc := negb (Z.land shift E0ESC =? 0) in
    let data := if esc then Z.lor data 0x80 else data in
    let shift := if esc then Z.land shift (Z.lnot E0ESC) else shift in
    let shift := Z.lor shift (at_ shiftcode data) in
    let shift := Z.lxor shift (at_ togglecode data) in
    let c := at_ (charcode (Z.land shift (Z.lor CTL SHIFT))) data in
    let c := if negb (Z.land shift CAPSLOCK =? 0) then
               if (97 <=? c) && (c <=? 122) then c - 32
               else if (65 <=? c) && (c <=? 90) then c + 32 else c
             else c in
    (shift, c).

(** [kbdgetc]: nothing waiting is -1. *)
Definition kbdgetc (shift : Z) (st : option Z) : Z * Z :=
  match st with None => (shift, -1) | Some data => kbd_byte shift data end.

(** The values [kbdgetc] gives for a sequence of bytes. *)
Fixpoint kbd_run (shift : Z) (bytes : list Z) : Z * list Z :=
  match bytes with
  | [] => (shift, [])
  | b :: bs =>
      let '(s, c) := kbdgetc shift (Some b) in
      let '(s', cs) := kbd_run s bs in (s', c :: cs)
  end.

Section Kbd.
Context {St : Type} `{LC : !Lens St core} `{LX : !Lens St consst}.
Context (word : Z → Z).

(** [kbdintr] with [bytes] waiting; the new [shift]. *)
Definition kbdintr (shift : Z) (bytes : list Z) : M St Z :=
  let '(s, cs) := kbd_run shift bytes in
  consoleintr word cs ;; mret s.

End Kbd.
