(* ===== verification/Fs.v ===== *)
(** * The file system (fs.c)

    Block allocator, inodes, inode contents, directories and path names.
    Inode pointers are indices into [icache.inode].  Where the code is given a
    destination ([readi]'s [dst]) the model returns the bytes it stores there,
    in order; where it is given a source ([writei]'s [src]) it takes the bytes.
    A path is the list of its bytes with the terminating zero; moving the
    pointer is dropping bytes. *)
From S2P Require Import Prelude Spinlock Core Bio Log CString.

(** ** Constants (fs.h, file.h, stat.h, param.h) *)

Definition NINODE : nat := 50.
Definition ROOTINO : Z := 1.
Definition NDIRECT : Z := 12.
Definition NINDIRECT : Z := Z.of_nat BSIZE / 4.
Definition MAXFILE : Z := NDIRECT + NINDIRECT.
Definition DIRSIZ : nat := 14.
Definition DINODE : nat := 64.
Definition DIRENT : Z := 16.
Definition IPB : Z := Z.of_nat BSIZE / 64.
Definition BPB : Z := Z.of_nat BSIZE * 8.
Definition NDEV : Z := 10.
Definition T_DIR : Z := 1.
Definition T_FILE : Z := 2.
Definition T_DEV : Z := 3.
Definition I_BUSY : Z := 1.
Definition I_VALID : Z := 2.
Definition IBLOCK (i : Z) : Z := u32 (i / IPB + 2).
Definition BBLOCK (b ninodes : Z) : Z := u32 (b / BPB + ninodes / IPB + 3).

(** ** Data *)

(** [struct dinode]. *)
Record dinode := mkDinode {
  d_type : Z; d_major : Z; d_minor : Z; d_nlink : Z; d_size : Z; d_addrs : list Z }.

(** [struct inode]. *)
Record inode := mkInode {
  i_dev : Z; i_inum : Z; i_ref : Z; i_flags : Z;
  i_type : Z; i_major : Z; i_minor : Z; i_nlink : Z; i_size : Z; i_addrs : list Z }.
Definition inode0 : inode := mkInode 0 0 0 0 0 0 0 0 0 (replicate 13 0).
Definition icache0 : list inode := replicate NINODE inode0.

Definition set_i_ref v i := mkInode (i_dev i) (i_inum i) v (i_flags i)
  (i_type i) (i_major i) (i_minor i) (i_nlink i) (i_size i) (i_addrs i).
Definition set_i_flags v i := mkInode (i_dev i) (i_inum i) (i_ref i) v
  (i_type i) (i_major i) (i_minor i) (i_nlink i) (i_size i) (i_addrs i).
Definition set_i_type v i := mkInode (i_dev i) (i_inum i) (i_ref i) (i_flags i)
  v (i_major i) (i_minor i) (i_nlink i) (i_size i) (i_addrs i).
Definition set_i_devno mj mn i := mkInode (i_dev i) (i_inum i) (i_ref i) (i_flags i)
  (i_type i) mj mn (i_nlink i) (i_size i) (i_addrs i).
Definition set_i_nlink v i := mkInode (i_dev i) (i_inum i) (i_ref i) (i_flags i)
  (i_type i) (i_major i) (i_minor i) v (i_size i) (i_addrs i).
Definition set_i_size v i := mkInode (i_dev i) (i_inum i) (i_ref i) (i_flags i)
  (i_type i) (i_major i) (i_minor i) (i_nlink i) v (i_addrs i).
Definition set_i_addr k v i := mkInode (i_dev i) (i_inum i) (i_ref i) (i_flags i)
  (i_type i) (i_major i) (i_minor i) (i_nlink i) (i_size i) (<[k := v]> (i_addrs i)).
(** [ilock]'s copy from the disk inode. *)
Definition load_dinode (d : dinode) i := mkInode (i_dev i) (i_inum i) (i_ref i) (i_flags i)
  (d_type d) (d_major d) (d_minor d) (d_nlink d) (d_size d) (d_addrs d).
(** [iget]'s reuse of a free entry. *)
Definition recycle_inode (dev inum : Z) i := mkInode dev inum 1 0
  (i_type i) (i_major i) (i_minor i) (i_nlink i) (i_size i) (i_addrs i).

(** [struct stat]. *)
Record stat := mkStat { st_type : Z; st_dev : Z; st_ino : Z; st_nlink : Z; st_size : Z }.

(** ** The on-disk layout of inodes and directory entries *)

Definition half_at (off : nat) (d : list Z) : Z := i16 (le_val (sublist off 2 d)).
Definition dinode_off (inum : Z) : nat := (DINODE * Z.to_nat (inum mod IPB))%nat.

(** [(struct dinode* )bp->data + inum%IPB], read and written. *)
Definition get_dinode (inum : Z) (d : list Z) : dinode :=
  let o := dinode_off inum in
  mkDinode (half_at o d) (half_at (o + 2) d) (half_at (o + 4) d) (half_at (o + 6) d)
    (le_val (sublist (o + 8) 4 d))
    ((λ k, le_val (sublist (o + 12 + 4 * k) 4 d)) <$> seq 0 13).
Definition dinode_bytes (n : dinode) : list Z :=
  le_bytes 2 (u16 (d_type n)) ++ le_bytes 2 (u16 (d_major n)) ++
  le_bytes 2 (u16 (d_minor n)) ++ le_bytes 2 (u16 (d_nlink n)) ++
  le_bytes 4 (d_size n) ++ mjoin (le_bytes 4 <$> d_addrs n).
Definition put_dinode (inum : Z) (n : dinode) (d : list Z) : list Z :=
  splice (dinode_off inum) (dinode_bytes n) d.
Definition dinode0 (type : Z) : dinode := mkDinode type 0 0 0 0 (replicate 13 0).
Definition to_dinode (i : inode) : dinode :=
  mkDinode (i_type i) (i_major i) (i_minor i) (i_nlink i) (i_size i) (i_addrs i).

(** [struct dirent]: inode number and name. *)
Definition de_inum (e : list Z) : Z := le_val (sublist 0 2 e).
Definition de_name (e : list Z) : list Z := drop 2 e.
Definition dirent_bytes (inum : Z) (name : list Z) : list Z := le_bytes 2 (u16 inum) ++ name.

(** ** The bitmap *)

(** Bit [bi] of a bitmap block. *)
Definition bit_set (d : list Z) (bi : Z) : bool :=
  negb (Z.land (default 0 (aget d (bi / 8))) (Z.shiftl 1 (bi mod 8)) =? 0).
Definition set_bit (bi : Z) (d : list Z) : list Z :=
  aset d (bi / 8) (Z.lor (default 0 (aget d (bi / 8))) (Z.shiftl 1 (bi mod 8))).
Definition clear_bit (bi : Z) (d : list Z) : list Z :=
  aset d (bi / 8) (Z.land (default 0 (aget d (bi / 8))) (Z.lnot (Z.shiftl 1 (bi mod 8)))).

(** The inner loop of [balloc] from [bi]: the first free bit below both
    [BPB] and the size of the file system. *)
Fixpoint free_bit (fuel : nat) (d : list Z) (b size bi : Z) : option Z :=
  match fuel with
  | O => None
  | S f =>
      if (bi <? BPB) && (b + bi <? size)
      then if bit_set d bi then free_bit f d b size (bi + 1) else Some bi
      else None
  end.

(** ** Scans of the inode cache *)

(** [iget]'s loop: the entry of the inode, else the first free one. *)
Fixpoint iget_scan (l : list inode) (i : nat) (empty : option nat) (dev inum : Z)
    : option nat * option nat :=
  match l with
  | [] => (None, empty)
  | ip :: l' =>
      if (0 <? i_ref ip) && (i_dev ip =? dev) && (i_inum ip =? inum) then (Some i, empty)
      else iget_scan l' (S i)
             (match empty with
              | None => if i_ref ip =? 0 then Some i else None
              | Some e => Some e
              end) dev inum
  end.

(** ** Path elements *)

Fixpoint skip_slashes (path : list Z) : list Z :=
  match path with
  | c :: p => if c =? 47 then skip_slashes p else path
  | [] => []
  end.
(** The bytes up to the next slash or the end. *)
Fixpoint elem_len (path : list Z) : nat :=
  match path with
  | c :: p => if (c =? 47) || (c =? 0) then O else S (elem_len p)
  | [] => O
  end.
(** [skipelem]: the rest of the path and the [name] buffer; [None] for a null
    result. *)
Definition skipelem (path name : list Z) : option (list Z * list Z) :=
  let s := skip_slashes path in
  match s with
  | [] => None
  | c :: _ =>
      if c =? 0 then None else
      let len := elem_len s in
      let name' := if (DIRSIZ <=? len)%nat then splice 0 (take DIRSIZ s) name
                   else splice 0 (take len s ++ [0]) name in
      Some (skip_slashes (drop len s), name')
  end.

(** ** Operations *)

Section Fs.
Context {Ext : Type}.
Abbreviation K := (core * (bio * (logst * (list inode * Ext))))%type.

(** [devsw]: the read and write functions of a major device. *)
Context (devsw : Z → option ((nat → Z → M K (Z * list Z)) * (nat → list Z → Z → M K Z))).

Definition geti {A} (i : nat) (f : inode → A) : M K A :=
  o ← gets (λ s : K, fst (snd (snd (snd s))) !! i); ip ← deref o; mret (f ip).
Definition seti (i : nat) (f : inode → inode) : M K unit :=
  modify (λ s : K, (fst s, (fst (snd s), (fst (snd (snd s)),
    (alter f i (fst (snd (snd (snd s)))), snd (snd (snd (snd s)))))))).

(** *** Blocks *)

Definition bzero (dev bno : Z) : M K unit :=
  bp ← bread dev bno;
  setb bp (set_bdata (replicate BSIZE 0)) ;;
  log_write bp ;;
  brelse bp.

Fixpoint balloc_loop (fuel : nat) (dev size ninodes b : Z) : M K Z :=
  match fuel with
  | O => fault
  | S f =>
      if b <? size then
        bp ← bread dev (BBLOCK b ninodes);
        d ← getb bp bdata;
        match free_bit (S (Z.to_nat BPB)) d b size 0 with
        | Some bi =>
            setb bp (λ y, set_bdata (set_bit bi (bdata y)) y) ;;
            log_write bp ;;
            brelse bp ;;
            bzero dev (b + bi) ;;
            mret (b + bi)
        | None =>
            brelse bp ;;
            balloc_loop f dev size ninodes (b + BPB)
        end
      else panic "balloc: out of blocks"
  end.
Definition balloc (dev : Z) : M K Z :=
  sb ← readsb dev;
  balloc_loop (S (S (Z.to_nat (sb_size sb / BPB)))) dev (sb_size sb) (sb_ninodes sb) 0.

Definition bfree (dev b : Z) : M K unit :=
  sb ← readsb dev;
  bp ← bread dev (BBLOCK b (sb_ninodes sb));
  let bi := b mod BPB in
  d ← getb bp bdata;
  if negb (bit_set d bi) then panic "freeing free block" else
  setb bp (λ y, set_bdata (clear_bit bi (bdata y)) y) ;;
  log_write bp ;;
  brelse bp.

(** *** Inodes *)

Definition iget (dev inum : Z) : M K nat :=
  acquire L_icache ;;
  r ← gets (λ s : K, iget_scan (fst (snd (snd (snd s)))) 0 None dev inum);
  match r with
  | (Some ip, _) =>
      seti ip (λ i, set_i_ref (i_ref i + 1) i) ;;
      release L_icache ;;
      mret ip
  | (None, None) => panic "iget: no inodes"
  | (None, Some ip) =>
      seti ip (recycle_inode dev inum) ;;
      release L_icache ;;
      mret ip
  end.

Fixpoint ialloc_loop (fuel : nat) (dev type ninodes inum : Z) : M K nat :=
  match fuel with
  | O => fault
  | S f =>
      if inum <? ninodes then
        bp ← bread dev (IBLOCK inum);
        d ← getb bp bdata;
        if d_type (get_dinode inum d) =? 0 then
          setb bp (λ y, set_bdata (put_dinode inum (dinode0 type) (bdata y)) y) ;;
          log_write bp ;;
          brelse bp ;;
          iget dev inum
        else
          brelse bp ;;
          ialloc_loop f dev type ninodes (inum + 1)
      else panic "ialloc: no inodes"
  end.
Definition ialloc (dev type : Z) : M K nat :=
  sb ← readsb dev;
  ialloc_loop (S (Z.to_nat (sb_ninodes sb))) dev type (sb_ninodes sb) 1.

Definition iupdate (ip : nat) : M K unit :=
  dev ← geti ip i_dev; inum ← geti ip i_inum;
  bp ← bread dev (IBLOCK inum);
  n ← geti ip to_dinode;
  setb bp (λ y, set_bdata (put_dinode inum n (bdata y)) y) ;;
  log_write bp ;;
  brelse bp.

Definition idup (ip : nat) : M K nat :=
  acquire L_icache ;;
  seti ip (λ i, set_i_ref (i_ref i + 1) i) ;;
  release L_icache ;;
  mret ip.

(** [ilock] from its [while], [icache.lock] held. *)
Definition ilock_loop (ip : nat) : M K unit :=
  f ← geti ip i_flags;
  if negb (Z.land f I_BUSY =? 0) then sleep (Ch_inode ip) L_icache else
  seti ip (λ i, set_i_flags (Z.lor (i_flags i) I_BUSY) i) ;;
  release L_icache ;;
  f ← geti ip i_flags;
  when (Z.land f I_VALID =? 0)
    (dev ← geti ip i_dev; inum ← geti ip i_inum;
     bp ← bread dev (IBLOCK inum);
     d ← getb bp bdata;
     seti ip (load_dinode (get_dinode inum d)) ;;
     brelse bp ;;
     seti ip (λ i, set_i_flags (Z.lor (i_flags i) I_VALID) i) ;;
     t ← geti ip i_type;
     if t =? 0 then panic "ilock: no type" else mret ()).
(** The pointer argument may be null. *)
Definition ilock (o : option nat) : M K unit :=
  match o with
  | None => panic "ilock"
  | Some ip =>
      r ← geti ip i_ref;
      if r <? 1 then panic "ilock" else
      acquire L_icache ;; ilock_loop ip
  end.
Definition ilock_resume (ip : nat) : M K unit := sleep_resume L_icache ;; ilock_loop ip.

Definition iunlock (o : option nat) : M K unit :=
  match o with
  | None => panic "iunlock"
  | Some ip =>
      f ← geti ip i_flags; r ← geti ip i_ref;
      if (Z.land f I_BUSY =? 0) || (r <? 1) then panic "iunlock" else
      acquire L_icache ;;
      seti ip (λ i, set_i_flags (Z.land (i_flags i) (Z.lnot I_BUSY)) i) ;;
      wakeup (Ch_inode ip) ;;
      release L_icache
  end.

(** *** Contents *)

Definition bmap (ip : nat) (bn : Z) : M K Z :=
  dev ← geti ip i_dev;
  if bn <? NDIRECT then
    o ← geti ip (λ i, aget (i_addrs i) bn); addr ← deref o;
    if addr =? 0 then
      a ← balloc dev;
      seti ip (set_i_addr (Z.to_nat bn) a) ;; mret a
    else mret addr
  else
    let bn := bn - NDIRECT in
    if bn <? NINDIRECT then
      o ← geti ip (λ i, aget (i_addrs i) NDIRECT); addr ← deref o;
      addr ← (if addr =? 0 then
                a ← balloc dev;
                seti ip (set_i_addr (Z.to_nat NDIRECT) a) ;; mret a
              else mret addr);
      bp ← bread dev addr;
      d ← getb bp bdata;
      addr ← deref (word_at (Z.to_nat bn) d);
      addr ← (if addr =? 0 then
                a ← balloc dev;
                setb bp (λ y, set_bdata (put_word (Z.to_nat bn) a (bdata y)) y) ;;
                log_write bp ;; mret a
              else mret addr);
      brelse bp ;;
      mret addr
    else panic "bmap: out of range".

Definition itrunc (ip : nat) : M K unit :=
  dev ← geti ip i_dev;
  for_each (seq 0 (Z.to_nat NDIRECT)) (λ i,
    o ← geti ip (λ x, i_addrs x !! i); a ← deref o;
    when (negb (a =? 0)) (bfree dev a ;; seti ip (set_i_addr i 0))) ;;
  o ← geti ip (λ x, aget (i_addrs x) NDIRECT); a ← deref o;
  when (negb (a =? 0))
    (bp ← bread dev a;
     for_each (seq 0 (Z.to_nat NINDIRECT)) (λ j,
       d ← getb bp bdata;
       w ← deref (word_at j d);
       when (negb (w =? 0)) (bfree dev w)) ;;
     brelse bp ;;
     bfree dev a ;;
     seti ip (set_i_addr (Z.to_nat NDIRECT) 0)) ;;
  seti ip (set_i_size 0) ;;
  iupdate ip.

Definition iput (ip : nat) : M K unit :=
  acquire L_icache ;;
  r ← geti ip i_ref; f ← geti ip i_flags; n ← geti ip i_nlink;
  when ((r =? 1) && negb (Z.land f I_VALID =? 0) && (n =? 0))
    (if negb (Z.land f I_BUSY =? 0) then panic "iput busy" else
     seti ip (λ i, set_i_flags (Z.lor (i_flags i) I_BUSY) i) ;;
     release L_icache ;;
     itrunc ip ;;
     seti ip (set_i_type 0) ;;
     iupdate ip ;;
     acquire L_icache ;;
     seti ip (set_i_flags 0) ;;
     wakeup (Ch_inode ip)) ;;
  seti ip (λ i, set_i_ref (i_ref i - 1) i) ;;
  release L_icache.

Definition iunlockput (ip : nat) : M K unit := iunlock (Some ip) ;; iput ip.

Definition stati (ip : nat) : M K stat :=
  geti ip (λ i, mkStat (i_type i) (i_dev i) (i_inum i) (i_nlink i) (i_size i)).

Definition dev_entry (major : Z) :=
  if (major <? 0) || (NDEV <=? major) then None else devsw major.

Fixpoint readi_loop (fuel : nat) (ip : nat) (off n tot : Z) (acc : list Z) : M K (Z * list Z) :=
  match fuel with
  | O => fault
  | S f =>
      if tot <? n then
        dev ← geti ip i_dev;
        a ← bmap ip (off / Z.of_nat BSIZE);
        bp ← bread dev a;
        let m := Z.min (n - tot) (Z.of_nat BSIZE - off mod Z.of_nat BSIZE) in
        d ← getb bp bdata;
        let acc := acc ++ sublist (Z.to_nat (off mod Z.of_nat BSIZE)) (Z.to_nat m) d in
        brelse bp ;;
        readi_loop f ip (off + m) n (tot + m) acc
      else mret (i32 n, acc)
  end.
Definition readi (ip : nat) (off n : Z) : M K (Z * list Z) :=
  t ← geti ip i_type;
  if t =? T_DEV then
    major ← geti ip i_major;
    match dev_entry major with
    | Some (rd, _) => rd ip (i32 n)
    | None => mret (-1, [])
    end
  else
    sz ← geti ip i_size;
    if (sz <? off) || (u32 (off + n) <? off) then mret (-1, []) else
    let n := if sz <? u32 (off + n) then u32 (sz - off) else n in
    readi_loop (3 + Z.to_nat (n / Z.of_nat BSIZE)) ip off n 0 [].

Fixpoint writei_loop (fuel : nat) (ip : nat) (src : list Z) (off n tot : Z) : M K Z :=
  match fuel with
  | O => fault
  | S f =>
      if tot <? n then
        dev ← geti ip i_dev;
        a ← bmap ip (off / Z.of_nat BSIZE);
        bp ← bread dev a;
        let m := Z.min (n - tot) (Z.of_nat BSIZE - off mod Z.of_nat BSIZE) in
        setb bp (λ y, set_bdata (splice (Z.to_nat (off mod Z.of_nat BSIZE))
          (sublist (Z.to_nat tot) (Z.to_nat m) src) (bdata y)) y) ;;
        log_write bp ;;
        brelse bp ;;
        writei_loop f ip src (off + m) n (tot + m)
      else mret off
  end.
Definition writei (ip : nat) (src : list Z) (off n : Z) : M K Z :=
  t ← geti ip i_type;
  if t =? T_DEV then
    major ← geti ip i_major;
    match dev_entry major with
    | Some (_, wr) => wr ip src (i32 n)
    | None => mret (-1)
    end
  else
    sz ← geti ip i_size;
    if (sz <? off) || (u32 (off + n) <? off) then mret (-1) else
    if MAXFILE * Z.of_nat BSIZE <? u32 (off + n) then mret (-1) else
    off' ← writei_loop (3 + Z.to_nat (n / Z.of_nat BSIZE)) ip src off n 0;
    sz ← geti ip i_size;
    when ((0 <? n) && (sz <? off')) (seti ip (set_i_size off') ;; iupdate ip) ;;
    mret (i32 n).

(** *** Directories *)

Definition namecmp (s t : list Z) : option Z := Str.strncmp s t DIRSIZ.

(** The scan over the entries from [off]; the result is the inode and the
    offset stored through [poff]. *)
Fixpoint dirlookup_loop (fuel : nat) (dp : nat) (name : list Z) (off : Z) : M K (option (nat * Z)) :=
  match fuel with
  | O => fault
  | S f =>
      sz ← geti dp i_size;
      if off <? sz then
        r ← readi dp off DIRENT;
        if negb (fst r =? DIRENT) then panic "dirlink read" else
        let de := snd r in
        if de_inum de =? 0 then dirlookup_loop f dp name (off + DIRENT) else
        c ← deref (namecmp name (de_name de));
        if c =? 0 then
          dev ← geti dp i_dev;
          ip ← iget dev (de_inum de);
          mret (Some (ip, off))
        else dirlookup_loop f dp name (off + DIRENT)
      else mret None
  end.
Definition dirlookup (dp : nat) (name : list Z) : M K (option (nat * Z)) :=
  t ← geti dp i_type;
  if negb (t =? T_DIR) then panic "dirlookup not DIR" else
  sz ← geti dp i_size;
  dirlookup_loop (S (S (Z.to_nat (sz / DIRENT)))) dp name 0.

(** [dirlink]'s search for an empty entry: its offset, or the size. *)
Fixpoint empty_dirent (fuel : nat) (dp : nat) (off : Z) : M K Z :=
  match fuel with
  | O => fault
  | S f =>
      sz ← geti dp i_size;
      if off <? sz then
        r ← readi dp off DIRENT;
        if negb (fst r =? DIRENT) then panic "dirlink read" else
        if de_inum (snd r) =? 0 then mret off else empty_dirent f dp (off + DIRENT)
      else mret off
  end.
Definition dirlink (dp : nat) (name : list Z) (inum : Z) : M K Z :=
  o ← dirlookup dp name;
  match o with
  | Some (ip, _) => iput ip ;; mret (-1)
  | None =>
      sz ← geti dp i_size;
      off ← empty_dirent (S (S (Z.to_nat (sz / DIRENT)))) dp 0;
      nm ← deref (Str.strncpy (replicate DIRSIZ 0) name DIRSIZ);
      r ← writei dp (dirent_bytes inum nm) off DIRENT;
      if negb (r =? DIRENT) then panic "dirlink" else mret 0
  end.

(** *** Paths *)

(** The loop of [namex]; [name] is the caller's buffer of [DIRSIZ] bytes. *)
Fixpoint namex_loop (fuel : nat) (path : list Z) (nameiparent : bool) (name : list Z) (ip : nat)
    : M K (option nat * list Z) :=
  match fuel with
  | O => fault
  | S f =>
      match skipelem path name with
      | None =>
          if nameiparent then iput ip ;; mret (None, name) else mret (Some ip, name)
      | Some (path, name) =>
          ilock (Some ip) ;;
          t ← geti ip i_type;
          if negb (t =? T_DIR) then iunlockput ip ;; mret (None, name) else
          c ← deref (head path);
          if nameiparent && (c =? 0) then iunlock (Some ip) ;; mret (Some ip, name) else
          o ← dirlookup ip name;
          match o with
          | None => iunlockput ip ;; mret (None, name)
          | Some (next, _) => iunlockput ip ;; namex_loop f path nameiparent name next
          end
      end
  end.
Definition namex (path : list Z) (nameiparent : bool) (name : list Z) : M K (option nat * list Z) :=
  c ← deref (head path);
  ip ← (if c =? 47 then iget ROOTDEV ROOTINO
        else p ← myproc; o ← getp p cwd; d ← deref o; idup d);
  namex_loop (S (length path)) path nameiparent name ip.

Definition namei (path : list Z) : M K (option nat) :=
  r ← namex path false (replicate DIRSIZ 0); mret (fst r).
Definition nameiparent (path name : list Z) : M K (option nat * list Z) := namex path true name.

End Fs.
