(* ===== verification/Pipe.v ===== *)
(** * Pipes (pipe.c)

    The pipes are a map from the page [kalloc] gave to the structure in it.
    A user buffer that is read is the list of its bytes; the bytes [piperead]
    stores are returned.  [pipealloc] is in File.v. *)
From S2P Require Import Prelude Spinlock Core.

Definition PIPESIZE : Z := 512.

(** [struct pipe], but for its lock, which is [L_pipe p]. *)
Record pipe := mkPipe {
  pdata : list Z; nread : Z; nwrite : Z; readopen : bool; writeopen : bool }.
Definition set_pdata v q := mkPipe v (nread q) (nwrite q) (readopen q) (writeopen q).
Definition set_nread v q := mkPipe (pdata q) v (nwrite q) (readopen q) (writeopen q).
Definition set_nwrite v q := mkPipe (pdata q) (nread q) v (readopen q) (writeopen q).
Definition set_readopen v q := mkPipe (pdata q) (nread q) (nwrite q) v (writeopen q).
Definition set_writeopen v q := mkPipe (pdata q) (nread q) (nwrite q) (readopen q) v.

Section Pipe.
Context {St : Type} `{LC : !Lens St core} `{LP : !Lens St (gmap Z pipe)}.
Context (kfree : Z → M St unit).

Definition getq {A} (p : Z) (f : pipe → A) : M St A :=
  o ← gets (λ s : St, (lget s : gmap Z pipe) !! p); q ← deref o; mret (f q).
Definition setq (p : Z) (f : pipe → pipe) : M St unit :=
  modify (λ s : St, lset (alter f p (lget s : gmap Z pipe)) s).

Definition pipeclose (p : Z) (writable : bool) : M St unit :=
  acquire (L_pipe p) ;;
  (if writable then
     setq p (set_writeopen false) ;; wakeup (Ch_nread p)
   else
     setq p (set_readopen false) ;; wakeup (Ch_nwrite p)) ;;
  r ← getq p readopen; w ← getq p writeopen;
  if negb r && negb w then release (L_pipe p) ;; kfree p
  else release (L_pipe p).

(** [pipewrite] from the test of the [for] with [i], [p->lock] held.  After a
    sleep the process resumes with [pipewrite_resume] and the same [i]. *)
Fixpoint pipewrite_loop (fuel : nat) (p : Z) (addr : list Z) (n i : Z) : M St Z :=
  match fuel with
  | O => fault
  | S f =>
      if i <? n then
        r ← getq p nread; w ← getq p nwrite;
        if w =? u32 (r + PIPESIZE) then
          ro ← getq p readopen; me ← myproc; k ← getp me killed;
          if negb ro || negb (k =? 0) then release (L_pipe p) ;; mret (-1)
          else
            wakeup (Ch_nread p) ;;
            sleep (Ch_nwrite p) (L_pipe p) ;;
            mret 0 (* not reached: [sleep] blocks *)
        else
          c ← deref (aget addr i);
          setq p (λ q, set_nwrite (u32 (nwrite q + 1))
                         (set_pdata (aset (pdata q) (nwrite q mod PIPESIZE) c) q)) ;;
          pipewrite_loop f p addr n (i + 1)
      else
        wakeup (Ch_nread p) ;;
        release (L_pipe p) ;;
        mret n
  end.
Definition pipewrite_from (p : Z) (addr : list Z) (n i : Z) : M St Z :=
  pipewrite_loop (S (Z.to_nat (n - i))) p addr n i.
Definition pipewrite (p : Z) (addr : list Z) (n : Z) : M St Z :=
  acquire (L_pipe p) ;; pipewrite_from p addr n 0.
Definition pipewrite_resume (p : Z) (addr : list Z) (n i : Z) : M St Z :=
  sleep_resume (L_pipe p) ;; pipewrite_from p addr n i.

(** The copy loop of [piperead]: the value of [i] and the bytes stored. *)
Fixpoint piperead_copy (fuel : nat) (p : Z) (n i : Z) (acc : list Z) : M St (Z * list Z) :=
  match fuel with
  | O => fault
  | S f =>
      if i <? n then
        r ← getq p nread; w ← getq p nwrite;
        if r =? w then mret (i, acc)
        else
          d ← getq p pdata;
          c ← deref (aget d (r mod PIPESIZE));
          setq p (set_nread (u32 (r + 1))) ;;
          piperead_copy f p n (i + 1) (acc ++ [c])
      else mret (i, acc)
  end.
Definition piperead_loop (p : Z) (n : Z) : M St (Z * list Z) :=
  r ← getq p nread; w ← getq p nwrite; wo ← getq p writeopen;
  if (r =? w) && wo then
    me ← myproc; k ← getp me killed;
    if negb (k =? 0) then release (L_pipe p) ;; mret (-1, [])
    else sleep (Ch_nread p) (L_pipe p) ;; mret (0, []) (* not reached *)
  else
    res ← piperead_copy (S (Z.to_nat n)) p n 0 [];
    wakeup (Ch_nwrite p) ;;
    release (L_pipe p) ;;
    mret res.
Definition piperead (p : Z) (n : Z) : M St (Z * list Z) :=
  acquire (L_pipe p) ;; piperead_loop p n.
Definition piperead_resume (p : Z) (n : Z) : M St (Z * list Z) :=
  sleep_resume (L_pipe p) ;; piperead_loop p n.

End Pipe.
