(* ===== verification/Duo.v ===== *)
(** * Two components side by side

    Code that works on [core] and on one more component [T] of a larger state.
    [Separate] says that the two lenses do not overlap; [put c t s] is [s] with
    both components replaced, the form in which the run lemmas of pipes and the
    console keep the state. *)
From S2P Require Import Prelude Spinlock Core.

Class Separate (S : Type) {T U : Type} (L1 : Lens S T) (L2 : Lens S U) := {
  sep_get1 u s : lget (Lens := L1) (lset (Lens := L2) u s) = lget (Lens := L1) s;
  sep_get2 t s : lget (Lens := L2) (lset (Lens := L1) t s) = lget (Lens := L2) s;
  sep_comm t u s : lset (Lens := L1) t (lset (Lens := L2) u s) =
                   lset (Lens := L2) u (lset (Lens := L1) t s) }.

(** [core] first, then the component. *)
#[export] Instance separate_pair T : Separate (core * T) (lens_fst (L := lens_id core)) lens_snd.
Proof. by constructor. Qed.

Section Duo.
Context {St T : Type} {L1 : Lens St core} {L2 : Lens St T} `{Sep : !Separate St L1 L2}.
Implicit Types (c : core) (t : T) (s : St).

Definition put c t s : St := lset c (lset t s).

Lemma put_core c t s : lget (T := core) (put c t s) = c.
Proof. apply lget_lset. Qed.
Lemma put_snd c t s : lget (T := T) (put c t s) = t.
Proof. unfold put. by rewrite sep_get2, lget_lset. Qed.
Lemma put_set_core c c' t s : lset c' (put c t s) = put c' t s.
Proof. apply lset_lset. Qed.
Lemma put_set_snd c t t' s : lset t' (put c t s) = put c t' s.
Proof. unfold put. by rewrite <-sep_comm, lset_lset. Qed.
Lemma put_get s : put (lget s) (lget s) s = s.
Proof. unfold put. by rewrite !lset_lget. Qed.

(** ** The operations of [core] in this form *)

Lemma put_acquire l c t s : l ∉ locks c →
  acquire (L := L1) l (put c t s) = Ret () (put (set_locks ({[l]} ∪ locks c) c) t s).
Proof. intros. by rewrite acquire_run, put_core, decide_False, put_set_core by done. Qed.

Lemma put_release l c t s : l ∈ locks c →
  release (L := L1) l (put c t s) = Ret () (put (set_locks (locks c ∖ {[l]}) c) t s).
Proof. intros. by rewrite release_run, put_core, decide_True, put_set_core by done. Qed.

Definition wakes (ch : chan_t) c : core := set_ptable (wakeup1_proc ch <$> ptable c) c.

Lemma put_wakeup ch c t s : L_ptable ∉ locks c →
  wakeup (L := L1) ch (put c t s) = Ret () (put (wakes ch c) t s).
Proof. intros. by rewrite wakeup_run; rewrite put_core; [rewrite put_set_core|]. Qed.

Lemma put_myproc i c t s : cur c = Some i → myproc (L := L1) (put c t s) = Ret i (put c t s).
Proof. intros H. unfold myproc, getc. erewrite bind_eq by reflexivity. rewrite put_core, H. done. Qed.

Lemma put_getp {A} i (f : proc → A) p c t s : ptable c !! i = Some p →
  getp (L := L1) i f (put c t s) = Ret (f p) (put c t s).
Proof. intros H. unfold getp, getc. erewrite bind_eq by reflexivity. rewrite put_core, H. done. Qed.

Lemma put_setp i f c t s : setp (L := L1) i f (put c t s) = Ret () (put (upd_proc i f c) t s).
Proof. unfold setp, modc, modify. by rewrite put_core, put_set_core. Qed.

(** [me] goes to sleep on [ch]: the state the scheduler finds. *)
Definition slept (ch : chan_t) (me : nat) c : core :=
  set_locks {[L_ptable]} (upd_proc me (λ p, set_state SLEEPING (set_chan (Some ch) p)) c).

Lemma put_sleep ch lk i p c t s :
  lk ≠ L_ptable → locks c = {[lk]} → cur c = Some i → ptable c !! i = Some p →
  sleep (L := L1) ch lk (put c t s) = Block (put (slept ch i c) t s).
Proof.
  intros Hlk Hl Hc Hp. unfold sleep.
  erewrite bind_eq by (unfold getc, gets; reflexivity). rewrite put_core, Hc.
  rewrite decide_False by done.
  erewrite bind_eq.
  2:{ erewrite bind_eq by (apply put_acquire; rewrite Hl; set_solver).
      apply put_release. simpl. set_solver. }
  erewrite bind_eq by apply put_setp. erewrite bind_eq by apply put_setp.
  rewrite upd_upd.
  assert (E : locks c ∪ {[L_ptable]} = {[L_ptable; lk]}) by (rewrite Hl; set_solver).
  erewrite sched_run with (i := i); rewrite ?put_core.
  - unfold slept. f_equal. f_equal. unfold upd_proc, set_ptable, set_locks. simpl. f_equal.
    rewrite Hl. set_solver.
  - simpl. rewrite Hl. set_solver.
  - done.
  - rewrite upd_lookup, decide_True by done. simpl. by rewrite Hp.
  - done.
Qed.

(** What runs first when [me] has the CPU back, [ptable.lock] held. *)
Definition awake (me : nat) (lk : lockid) c : core :=
  set_locks ({[lk]} ∪ locks c ∖ {[L_ptable]}) (upd_proc me (set_chan None) c).

Lemma put_sleep_resume lk i c t s :
  lk ≠ L_ptable → L_ptable ∈ locks c → lk ∉ locks c → cur c = Some i →
  sleep_resume (L := L1) lk (put c t s) = Ret () (put (awake i lk c) t s).
Proof.
  intros Hlk Hl Hn Hc. unfold sleep_resume.
  erewrite bind_eq by by apply put_myproc.
  erewrite bind_eq by apply put_setp. rewrite decide_False by done.
  erewrite bind_eq by by apply put_release.
  rewrite put_acquire; [done|]. simpl. set_solver.
Qed.

End Duo.

(** Taking a free lock and dropping it again changes nothing. *)
Lemma lock_unlock l c : l ∉ locks c →
  set_locks (locks (set_locks ({[l]} ∪ locks c) c) ∖ {[l]}) (set_locks ({[l]} ∪ locks c) c) = c.
Proof. destruct c. simpl. intros. unfold set_locks. simpl. f_equal. set_solver. Qed.

(** On a pair. *)
Section Pair.
Context {T : Type}.
Abbreviation St := (core * T)%type.

Lemma pair_acquire l c (t : T) : l ∉ locks c →
  acquire (S := St) l (c, t) = Ret () (set_locks ({[l]} ∪ locks c) c, t).
Proof. intros. rewrite acquire_run. simpl. by rewrite decide_False. Qed.

Lemma pair_sleep_resume lk i c (t : T) :
  lk ≠ L_ptable → L_ptable ∈ locks c → lk ∉ locks c → cur c = Some i →
  sleep_resume (S := St) lk (c, t) = Ret () (awake i lk c, t).
Proof. intros H1 H2 H3 H4. exact (put_sleep_resume (L2 := lens_snd) lk i c t (c, t) H1 H2 H3 H4). Qed.

Lemma pair_release l c (t : T) : l ∈ locks c →
  release (S := St) l (c, t) = Ret () (set_locks (locks c ∖ {[l]}) c, t).
Proof. exact (put_release (L2 := lens_snd) l c t (c, t)). Qed.

Lemma pair_wakeup ch c (t : T) : L_ptable ∉ locks c →
  wakeup (S := St) ch (c, t) = Ret () (wakes ch c, t).
Proof. exact (put_wakeup (L2 := lens_snd) ch c t (c, t)). Qed.

Lemma pair_sleep ch lk i p c (t : T) :
  lk ≠ L_ptable → locks c = {[lk]} → cur c = Some i → ptable c !! i = Some p →
  sleep (S := St) ch lk (c, t) = Block (slept ch i c, t).
Proof. intros H1 H2 H3 H4. exact (put_sleep (L2 := lens_snd) ch lk i p c t (c, t) H1 H2 H3 H4). Qed.

End Pair.
