(* ===== verification/ConsoleFacts.v ===== *)
(** * The console's line discipline (console.c)

    The input ring holds the bytes of finished lines followed by the line being
    edited.  [typed] edits a pair of queues the way a terminal is expected to;
    the interrupt handler implements it, and [consoleread] takes whole lines
    from the first queue. *)
From S2P Require Import Prelude Spinlock Core CString Ring Console Duo.

(** ** What typing does *)

(** Finished bytes and the current line. *)
Abbreviation term := (list Z * list Z)%type.

Definition stored (c : Z) : Z := if c =? 13 then NL else c.
Definition accepts (t : term) (c : Z) : bool :=
  negb (c =? 0) && (Z.of_nat (length (fst t ++ snd t)) <? INPUT_BUF).
Definition is_erase (c : Z) : bool := (c =? C_H) || (c =? 127).
Definition is_control (c : Z) : bool := (c =? C_P) || (c =? C_U) || is_erase c.

(** Does the key finish the line? *)
Definition commits (t : term) (c : Z) : bool :=
  negb (is_control c) && accepts t c &&
  ((stored c =? NL) || (stored c =? C_D) || (Z.of_nat (length (fst t ++ snd t)) + 1 =? INPUT_BUF)).

Definition edit (t : term) (c : Z) : term :=
  if c =? C_P then t
  else if c =? C_U then (fst t, [])
  else if is_erase c then (fst t, removelast (snd t))
  else if negb (accepts t c) then t
  else if commits t c then (fst t ++ snd t ++ [stored c], [])
  else (fst t, snd t ++ [stored c]).

(** What the terminal shows for it; a process listing is not described. *)
Definition rubout : list Z := [8; 32; 8].
Definition echo (t : term) (c : Z) : list Z :=
  if c =? C_P then []
  else if c =? C_U then concat (replicate (length (snd t)) rubout)
  else if is_erase c then (if decide (snd t = []) then [] else rubout)
  else if negb (accepts t c) then [] else [stored c].

Fixpoint typed (t : term) (cs : list Z) : term * list Z * bool :=
  match cs with
  | [] => (t, [], false)
  | c :: cs =>
      let '(t', out, b) := typed (edit t c) cs in (t', echo t c ++ out, commits t c || b)
  end.

(** ** What reading does *)

(** At most [n] bytes of the finished ones, up to a newline or a ^D; a ^D after
    other bytes stays.  The flag says whether the read is complete. *)
Fixpoint taken (n : nat) (some : bool) (C : list Z) : list Z * list Z * bool :=
  match n, C with
  | O, _ => ([], C, true)
  | S _, [] => ([], [], false)
  | S n, c :: C' =>
      if c =? C_D then ([], if some then C else C', true)
      else if c =? NL then ([c], C', true)
      else let '(l, C'', e) := taken n true C' in (c :: l, C'', e)
  end.

(** ** The ring *)

Lemma input_range : 0 < INPUT_BUF < 2 ^ 32.
Proof. done. Qed.
Lemma input_div : (INPUT_BUF | 2 ^ 32).
Proof. by exists (2 ^ 25). Qed.
#[local] Hint Resolve input_range input_div : core.

Record holds (x : consst) (t : term) : Prop := {
  h_alive : panicked x = false;
  h_ring : ring INPUT_BUF (ibuf x) (ir x) (ie x) (fst t ++ snd t);
  h_iw : iw x = u32 (ir x + Z.of_nat (length (fst t)));
  h_line : NL ∉ snd t }.

(** [x'] is [x] after [out] was shown. *)
Record shown (out : list Z) (x x' : consst) : Prop := {
  s_alive : panicked x' = panicked x;
  s_lock : locking x' = locking x;
  s_buf : ibuf x' = ibuf x;
  s_r : ir x' = ir x;
  s_w : iw x' = iw x;
  s_e : ie x' = ie x;
  s_out : uart_out x' = uart_out x ++ out }.

Lemma shown_refl x : shown [] x x.
Proof. constructor; try done. by rewrite app_nil_r. Qed.

Lemma shown_trans o o' x x' x'' : shown o x x' → shown o' x' x'' → shown (o ++ o') x x''.
Proof. intros [] []. constructor; try congruence. rewrite app_assoc. congruence. Qed.

Lemma holds_shown out x x' t : shown out x x' → holds x t → holds x' t.
Proof. intros [] []. constructor; congruence. Qed.

(** The code's tests. *)
Lemma holds_line_empty x t : holds x t → (ie x =? iw x) = bool_decide (snd t = []).
Proof.
  intros [_ R W _]. rewrite W, (rg_w _ _ _ _ _ R), length_app.
  apply Bool.eq_iff_eq_true. rewrite Z.eqb_eq, bool_decide_eq_true.
  pose proof (rg_fit _ _ _ _ _ R) as Hf. rewrite length_app in Hf. unfold INPUT_BUF in Hf. split.
  - intros E%u32_shift_inj; [apply nil_length_inv; lia|lia].
  - intros ->. simpl. do 2 f_equal. lia.
Qed.

Lemma holds_empty x t : holds x t → (ir x =? iw x) = bool_decide (fst t = []).
Proof.
  intros [_ R W _]. pose proof (rg_fit _ _ _ _ _ R) as Hf. rewrite length_app in Hf.
  unfold INPUT_BUF in Hf. rewrite W. rewrite <-(u32_small (ir x)) at 1 by apply R.
  apply Bool.eq_iff_eq_true. rewrite Z.eqb_eq, bool_decide_eq_true. split.
  - rewrite <-(Z.add_0_r (ir x)) at 1. intros E%u32_shift_inj; [apply nil_length_inv; lia|lia].
  - intros ->. by rewrite Z.add_0_r.
Qed.

Lemma holds_line_length x t : holds x t → u32 (ie x - iw x) = Z.of_nat (length (snd t)).
Proof.
  intros [_ R W _]. pose proof (rg_fit _ _ _ _ _ R) as Hf. rewrite length_app in Hf.
  rewrite W, (rg_w _ _ _ _ _ R), u32_sub_l, u32_sub_r, length_app.
  rewrite <-(u32_small (Z.of_nat (length (snd t)))); [f_equal; lia|unfold INPUT_BUF in Hf; lia].
Qed.

Lemma holds_room x t : holds x t → u32 (ie x - ir x) = Z.of_nat (length (fst t ++ snd t)).
Proof. intros [_ R _ _]. by apply (ring_count INPUT_BUF) with (ibuf x). Qed.

(** ** Runs *)

Section Runs.
Context {St : Type} {LC : Lens St core} {LX : Lens St consst} `{Sep : !Separate St LC LX}.
Context (word : Z → Z).
Implicit Types (c : core) (x : consst) (s : St) (t : term).

Notation put := (put (L1 := LC) (L2 := LX)).
Notation getx := (getx (LX := LX)).
Notation modx := (modx (LX := LX)).

Lemma put_getx {A} (f : consst → A) c x s : getx f (put c x s) = Ret (f x) (put c x s).
Proof. unfold Console.getx, gets. by rewrite put_snd. Qed.

Lemma put_modx f c x s : modx f (put c x s) = Ret () (put c (f x) s).
Proof. unfold Console.modx, modify. by rewrite put_snd, put_set_snd. Qed.

(** [m] only shows things. *)
Definition shows (out : list Z) (m : M St unit) : Prop := ∀ c x s, panicked x = false →
  ∃ x', m (put c x s) = Ret () (put c x' s) ∧ shown out x x'.

Lemma shows_modx out f : (∀ x, shown out x (f x)) → shows out (modx f).
Proof. intros H c x s _. exists (f x). by rewrite put_modx. Qed.

Lemma shows_ret : shows [] (mret ()).
Proof. intros c x s _. exists x. split; [done|apply shown_refl]. Qed.

Lemma shows_then o o' m m' : shows o m → shows o' m' → shows (o ++ o') (m ;; m').
Proof.
  intros H H' c x s Hp. destruct (H c x s Hp) as (x1 & E1 & S1).
  destruct (H' c x1 s) as (x2 & E2 & S2); [by rewrite (s_alive _ _ _ S1)|].
  exists x2. erewrite bind_eq by exact E1. eauto using shown_trans.
Qed.

Lemma shows_for_each {A} (f : A → list Z) (xs : list A) body :
  (∀ a, shows (f a) (body a)) → shows (concat (f <$> xs)) (for_each xs body).
Proof. intros H. induction xs; simpl; [apply shows_ret|by apply shows_then]. Qed.

(** The bytes [consputc] sends for a character. *)
Definition sent (ch : Z) : list Z := if ch =? BACKSPACE then rubout else [u8 ch].

Lemma shows_uartputc ch : shows [u8 ch] (uartputc (LX := LX) ch).
Proof. apply shows_modx. by constructor. Qed.

Lemma shows_consputc ch : shows (sent ch) (consputc (LX := LX) ch).
Proof.
  intros c x s Hp. unfold consputc. erewrite bind_eq by apply put_getx. rewrite Hp.
  revert c x s Hp. rewrite <-(app_nil_r (sent ch)). apply shows_then; unfold sent.
  - destruct (ch =? BACKSPACE); [|apply shows_uartputc].
    apply (shows_then [8] [32; 8]); [apply (shows_uartputc 8)|].
    apply (shows_then [32] [8]); [apply (shows_uartputc 32)|apply (shows_uartputc 8)].
  - apply shows_modx. intros x. destruct (cga_put _ _ _). constructor; try done. by rewrite app_nil_r.
Qed.

(** [cprintf] when its own lock is free. *)
Lemma cprintf_run fmt args out c x s :
  cprintf_out fmt args = Some out → panicked x = false → L_cons ∉ locks c →
  ∃ x', cprintf (LC := LC) (LX := LX) fmt args (put c x s) = Ret () (put c x' s) ∧
    shown (concat (sent <$> out)) x x'.
Proof.
  intros Ho Hp Hl. unfold cprintf. erewrite bind_eq by apply put_getx. rewrite Ho.
  pose (c' := if locking x then set_locks ({[L_cons]} ∪ locks c) c else c).
  destruct (shows_for_each sent out (consputc (LX := LX)) shows_consputc c' x s Hp) as (x' & E & Hs).
  exists x'. split; [|done].
  erewrite bind_eq.
  2:{ instantiate (1 := put c' x s). unfold when, c'. destruct (locking x); [by apply put_acquire|done]. }
  cbn [deref]. erewrite bind_eq by done. erewrite bind_eq by exact E.
  unfold when, c'. destruct (locking x); [|done].
  rewrite put_release by set_solver. by rewrite lock_unlock.
Qed.

(** A listing shows something and changes nothing else. *)
Definition lists (m : M St unit) : Prop := ∀ c x s, panicked x = false → L_cons ∉ locks c →
  ∃ x' out, m (put c x s) = Ret () (put c x' s) ∧ shown out x x'.

Lemma lists_ret : lists (mret ()).
Proof. intros c x s _ _. exists x, []. split; [done|apply shown_refl]. Qed.

Lemma lists_then m m' : lists m → lists m' → lists (m ;; m').
Proof.
  intros H H' c x s Hp Hl. destruct (H c x s Hp Hl) as (x1 & o1 & E1 & S1).
  destruct (H' c x1 s) as (x2 & o2 & E2 & S2); [by rewrite (s_alive _ _ _ S1)|done|].
  exists x2, (o1 ++ o2). erewrite bind_eq by exact E1. eauto using shown_trans.
Qed.

Lemma lists_cprintf fmt args : is_Some (cprintf_out fmt args) →
  lists (cprintf (LC := LC) (LX := LX) fmt args).
Proof. intros [out Ho] c x s Hp Hl. destruct (cprintf_run fmt args out c x s) as (x' & ? & ?); eauto. Qed.

Lemma lists_for_each {A} (xs : list A) body : (∀ a, lists (body a)) → lists (for_each xs body).
Proof. intros H. induction xs; simpl; [apply lists_ret|by apply lists_then]. Qed.

Lemma lists_procdump : lists (procdump (LC := LC) (LX := LX) word).
Proof.
  intros c x s Hp Hl. unfold procdump.
  erewrite bind_eq by (unfold getc, gets; reflexivity).
  apply lists_for_each; [intros p|done|done]. unfold procdump_line. case_decide; [apply lists_ret|].
  apply lists_then; [by apply lists_cprintf; eexists|].
  apply lists_then; [|by apply lists_cprintf; eexists].
  case_bool_decide; [|apply lists_ret]. apply lists_for_each. intros pc.
  by apply lists_cprintf; eexists.
Qed.

(** *** Editing *)

(** After the index moved back over the last byte of the line. *)
Lemma holds_back x t l a : snd t = l ++ [a] → holds x t →
  holds (set_ie (u32 (ie x - 1)) x) (fst t, l) ∧ aget (ibuf x) (u32 (ie x - 1) mod INPUT_BUF) = Some a.
Proof.
  intros Ht [Ha R W Hn]. rewrite Ht, app_assoc in R. apply ring_unpush in R as [R Hx]; auto.
  split; [|done]. constructor; simpl; try done. rewrite Ht in Hn. set_solver.
Qed.

Lemma kill_line_run fuel : ∀ c x s t, holds x t → (length (snd t) < fuel)%nat →
  ∃ x', kill_line (LX := LX) fuel (put c x s) = Ret () (put c x' s) ∧ holds x' (fst t, []) ∧
    uart_out x' = uart_out x ++ concat (replicate (length (snd t)) rubout).
Proof.
  induction fuel as [|f IH]; intros c x s t H Hf; [lia|].
  cbn [kill_line]. do 2 erewrite bind_eq by apply put_getx.
  rewrite (holds_line_empty _ _ H). case_bool_decide as E.
  { exists x. split_and!; [done|by destruct t; simpl in E; subst|by rewrite E, app_nil_r]. }
  destruct (exists_last E) as (l & a & El). destruct (holds_back x t l a El H) as [H' Ha].
  erewrite bind_eq by apply put_getx. rewrite Ha. cbn [deref]. erewrite bind_eq by done.
  rewrite (proj2 (Z.eqb_neq a NL)).
  2:{ intros ->. apply (h_line _ _ H). rewrite El. set_solver. }
  erewrite bind_eq by apply put_modx.
  destruct (shows_consputc BACKSPACE c (set_ie (u32 (ie x - 1)) x) s (h_alive _ _ H)) as (x1 & E1 & S1).
  erewrite bind_eq by exact E1.
  destruct (IH c x1 s (fst t, l)) as (x2 & E2 & H2 & O2); [by eapply holds_shown|..].
  { simpl. rewrite El, length_app in Hf. simpl in Hf. lia. }
  exists x2. split_and!; [done..|]. rewrite O2, (s_out _ _ _ S1), <-app_assoc. cbn [snd].
  rewrite El, length_app, Nat.add_comm. done.
Qed.

(** A byte goes into the ring. *)
Definition stored_in (x : consst) (a : Z) : consst :=
  set_ie (u32 (ie x + 1)) (set_ibuf (aset (ibuf x) (ie x mod INPUT_BUF) a) x).

Lemma stored_ring x t a : holds x t → Z.of_nat (length (fst t ++ snd t)) < INPUT_BUF →
  ring INPUT_BUF (ibuf (stored_in x a)) (ir x) (ie (stored_in x a)) (fst t ++ snd t ++ [a]).
Proof. intros [_ R _ _] HL. rewrite app_assoc. by apply ring_push. Qed.

(** The test that ends a line. *)
Lemma commit_test x t ch : holds x t → is_control ch = false → accepts t ch = true →
  (stored ch =? NL) || (stored ch =? C_D) || (ie (stored_in x (stored ch)) =? u32 (ir x + INPUT_BUF))
    = commits t ch.
Proof.
  intros H Hc Ha. unfold commits. rewrite Hc, Ha. cbn [negb andb]. f_equal.
  unfold accepts in Ha. apply andb_prop in Ha as [_ Ha%Z.ltb_lt].
  rewrite (ring_full INPUT_BUF) with (buf := ibuf (stored_in x (stored ch))) (Q := fst t ++ snd t ++ [stored ch]);
    [|done|by apply stored_ring].
  apply Bool.eq_iff_eq_true. rewrite bool_decide_eq_true, Z.eqb_eq. rewrite !length_app. simpl. lia.
Qed.

Lemma stored_byte ch : is_byte ch → u8 (stored ch) = stored ch ∧ sent (stored ch) = [stored ch].
Proof.
  unfold is_byte, stored, sent, BACKSPACE, NL. intros H. case (ch =? 13); [done|].
  rewrite (proj2 (Z.eqb_neq ch 256)) by lia. by rewrite u8_small.
Qed.

(** What a key that is not a control key does. *)
Lemma store_run c x s t ch : holds x t → is_byte ch → is_control ch = false → accepts t ch = true →
  L_ptable ∉ locks c →
  ∃ x', console_char (LC := LC) (LX := LX) word ch (put c x s) =
      Ret () (put (if commits t ch then wakes Ch_input c else c) x' s) ∧
    holds x' (edit t ch) ∧ uart_out x' = uart_out x ++ [stored ch].
Proof.
  intros H Hb Hc Ha Hl. pose proof Hc as Hc'. unfold is_control, is_erase in Hc'.
  apply orb_false_elim in Hc' as [[H1 H2]%orb_false_elim H3].
  unfold console_char. rewrite H1, H2, H3.
  do 2 erewrite bind_eq by apply put_getx. rewrite (holds_room _ _ H). fold (accepts t ch). rewrite Ha.
  cbn [when]. change (if ch =? 13 then NL else ch) with (stored ch). cbv zeta.
  destruct (stored_byte ch Hb) as [Hu Hsent].
  erewrite bind_eq by apply put_modx. rewrite Hu. change (set_ie _ (set_ibuf _ x)) with (stored_in x (stored ch)).
  destruct (shows_consputc (stored ch) c (stored_in x (stored ch)) s (h_alive _ _ H)) as (x1 & E1 & S1).
  erewrite bind_eq by exact E1. do 2 erewrite bind_eq by apply put_getx.
  rewrite (s_e _ _ _ S1), (s_r _ _ _ S1). change (ir (stored_in x _)) with (ir x).
  rewrite (commit_test x t ch H Hc Ha).
  assert (Hr : ring INPUT_BUF (ibuf x1) (ir x1) (ie x1) (fst t ++ snd t ++ [stored ch])).
  { rewrite (s_buf _ _ _ S1), (s_r _ _ _ S1), (s_e _ _ _ S1). apply (stored_ring x); [done|].
    unfold accepts in Ha. apply andb_prop in Ha as [_ Ha%Z.ltb_lt]. done. }
  pose proof (s_out _ _ _ S1) as Ho. rewrite Hsent in Ho.
  unfold edit. rewrite H1, H2. unfold is_erase. rewrite H3, Ha. cbn [negb].
  destruct (commits t ch) eqn:Hcm; cbn [when].
  - erewrite bind_eq by apply put_modx. rewrite put_wakeup by done.
    eexists. split_and!; [done| |done]. constructor; simpl.
    + rewrite (s_alive _ _ _ S1). apply (h_alive _ _ H).
    + by rewrite app_nil_r.
    + change (u32 (ie x + 1)) with (ie (stored_in x (stored ch))). rewrite <-(s_e _ _ _ S1). apply Hr.
    + set_solver.
  - exists x1. split_and!; [done| |done]. constructor; simpl.
    + rewrite (s_alive _ _ _ S1). apply (h_alive _ _ H).
    + done.
    + rewrite (s_r _ _ _ S1), (s_w _ _ _ S1). apply (h_iw _ _ H).
    + unfold commits in Hcm. rewrite Hc, Ha in Hcm. cbn [negb andb] in Hcm.
      apply orb_false_elim in Hcm as [[Hnl%Z.eqb_neq _]%orb_false_elim _].
      pose proof (h_line _ _ H). set_solver.
Qed.

Lemma char_run c x s t ch : holds x t → is_byte ch → L_ptable ∉ locks c → L_cons ∉ locks c →
  ∃ x', console_char (LC := LC) (LX := LX) word ch (put c x s) =
      Ret () (put (if commits t ch then wakes Ch_input c else c) x' s) ∧
    holds x' (edit t ch) ∧ (ch ≠ C_P → uart_out x' = uart_out x ++ echo t ch).
Proof.
  intros H Hb Hl Hl'. destruct (is_control ch) eqn:Hc.
  2:{ destruct (accepts t ch) eqn:Ha.
      - destruct (store_run c x s t ch) as (x' & Er & Hh & Ho); auto. exists x'. split_and!; [done..|].
        intros _. rewrite Ho. unfold is_control in Hc. apply orb_false_elim in Hc as [[H1 H2]%orb_false_elim H3].
        unfold echo. by rewrite H1, H2, H3, Ha.
      - unfold is_control, is_erase in Hc. apply orb_false_elim in Hc as [[H1 H2]%orb_false_elim H3].
        exists x. unfold console_char, edit, echo, commits, is_erase. rewrite H1, H2, H3.
        do 2 erewrite bind_eq by apply put_getx. rewrite (holds_room _ _ H). fold (accepts t ch). rewrite Ha.
        cbn [when negb]. rewrite andb_false_r. split_and!; try done. intros _. by rewrite app_nil_r. }
  unfold commits. rewrite Hc. cbn [negb andb]. unfold console_char, edit, echo.
  destruct (ch =? C_P) eqn:H1.
  { destruct (lists_procdump c x s (h_alive _ _ H) Hl') as (x' & out & E & Hs).
    exists x'. split_and!; [done|by eapply holds_shown|]. intros. by apply Z.eqb_eq in H1. }
  destruct (ch =? C_U) eqn:H2.
  { do 2 erewrite bind_eq by apply put_getx. rewrite (holds_line_length _ _ H), Nat2Z.id.
    destruct (kill_line_run (S (length (snd t))) c x s t H) as (x' & ? & ? & ?); [lia|]. eauto. }
  unfold is_control in Hc. rewrite H1, H2 in Hc. cbn [orb] in Hc. rewrite Hc. unfold is_erase in Hc. rewrite Hc.
  do 2 erewrite bind_eq by apply put_getx. rewrite (holds_line_empty _ _ H).
  case_bool_decide as E; cbn [negb when].
  { exists x. rewrite E, decide_True by done. split_and!; try done; [|intros; by rewrite app_nil_r].
    simpl. destruct t; simpl in E; by subst. }
  destruct (exists_last E) as (l & a & El). destruct (holds_back x t l a El H) as [H' Ha].
  erewrite bind_eq by apply put_modx.
  destruct (shows_consputc BACKSPACE c (set_ie (u32 (ie x - 1)) x) s (h_alive _ _ H)) as (x1 & E1 & S1).
  rewrite E1. exists x1. rewrite decide_False by done. split_and!; [done| |intros; apply (s_out _ _ _ S1)].
  rewrite El, removelast_last. by eapply holds_shown.
Qed.

(** *** The interrupt *)

Lemma wakeup1_idem ch p : wakeup1_proc ch (wakeup1_proc ch p) = wakeup1_proc ch p.
Proof.
  unfold wakeup1_proc at 2 3. case_decide; [|unfold wakeup1_proc; by rewrite decide_False].
  unfold wakeup1_proc. rewrite decide_False; [done|]. simpl. naive_solver.
Qed.

Definition wake_if (b : bool) c : core := if b then wakes Ch_input c else c.

Lemma wake_if_or b b' c : wake_if b' (wake_if b c) = wake_if (b || b') c.
Proof.
  destruct b, b'; try done. unfold wake_if, wakes. simpl. unfold set_ptable. simpl. f_equal.
  rewrite <-list_fmap_compose. apply list_fmap_ext. intros. apply wakeup1_idem.
Qed.

Lemma wake_if_locks b c : locks (wake_if b c) = locks c.
Proof. by destruct b. Qed.

Lemma chars_run cs : ∀ c x s t, holds x t → Forall is_byte cs → L_ptable ∉ locks c → L_cons ∉ locks c →
  ∃ x', for_each cs (console_char (LC := LC) (LX := LX) word) (put c x s) =
      Ret () (put (wake_if (typed t cs).2 c) x' s) ∧
    holds x' (typed t cs).1.1 ∧ (C_P ∉ cs → uart_out x' = uart_out x ++ (typed t cs).1.2).
Proof.
  induction cs as [|ch cs IH]; intros c x s t H Hcs Hl Hl'.
  { exists x. split_and!; [done|done|]. intros. by rewrite app_nil_r. }
  inversion_clear Hcs as [|? ? Hb Hcs'].
  destruct (char_run c x s t ch H Hb Hl Hl') as (x1 & E1 & H1 & O1).
  cbn [for_each typed]. erewrite bind_eq by exact E1. fold (wake_if (commits t ch) c).
  destruct (IH (wake_if (commits t ch) c) x1 s (edit t ch) H1 Hcs') as (x2 & E2 & H2 & O2);
    [by rewrite wake_if_locks..|].
  destruct (typed (edit t ch) cs) as [[t' out] b]. simpl in *. exists x2. split_and!; [|done|].
  - rewrite E2. do 2 f_equal. apply wake_if_or.
  - intros Hp. rewrite O2, O1, app_assoc; set_solver.
Qed.

Lemma intr_run cs c x s t : holds x t → Forall is_byte cs →
  locks c ## {[L_input; L_cons; L_ptable]} →
  ∃ x', consoleintr (LC := LC) (LX := LX) word cs (put c x s) =
      Ret () (put (wake_if (typed t cs).2 c) x' s) ∧
    holds x' (typed t cs).1.1 ∧ (C_P ∉ cs → uart_out x' = uart_out x ++ (typed t cs).1.2).
Proof.
  intros H Hcs Hl. unfold consoleintr.
  erewrite bind_eq by (apply put_acquire; set_solver).
  destruct (chars_run cs (set_locks ({[L_input]} ∪ locks c) c) x s t H Hcs) as (x' & E & H' & O);
    [simpl; set_solver..|].
  exists x'. erewrite bind_eq by exact E. split; [|done].
  rewrite put_release by (rewrite wake_if_locks; simpl; set_solver). do 2 f_equal. rewrite wake_if_locks.
  transitivity (wake_if (typed t cs).2
    (set_locks (locks (set_locks ({[L_input]} ∪ locks c) c) ∖ {[L_input]}) (set_locks ({[L_input]} ∪ locks c) c))).
  - by destruct ((typed t cs).2).
  - f_equal. apply lock_unlock. set_solver.
Qed.

(** *** Reading *)

Context (ilock iunlock : nat → M St unit).

Lemma holds_pop x a C L : holds x (a :: C, L) →
  holds (set_ir (u32 (ir x + 1)) x) (C, L) ∧ aget (ibuf x) (ir x mod INPUT_BUF) = Some a.
Proof.
  intros [Ha R W Hn]. simpl in *. apply ring_pop in R as [R Hx]; auto.
  split; [|done]. constructor; simpl; try done. rewrite W, u32_add_l. f_equal. lia.
Qed.

(** How a read ends that has [bs] of the [target] bytes. *)
Definition read_end (fin : bool) (ip : nat) (target : Z) (bs : list Z) (me : nat) (pr : proc) c x s : outcome St (Z * list Z) :=
  if fin || negb (killed pr =? 0) then
    (ilock ip ;; mret (if fin then Z.of_nat (length bs) else -1, bs)) (put (set_locks ∅ c) x s)
  else Block (put (slept Ch_input me c) x s).

Lemma unlock_input c x s : locks c = {[L_input]} →
  release (L := LC) L_input (put c x s) = Ret () (put (set_locks ∅ c) x s).
Proof. intros Hl. rewrite put_release by set_solver. do 3 f_equal. set_solver. Qed.

Lemma line_read_run fuel : ∀ ip n target acc me pr c x s C L,
  holds x (C, L) → cur c = Some me → ptable c !! me = Some pr → locks c = {[L_input]} →
  (Z.to_nat n < fuel)%nat → 0 ≤ n → target - n = Z.of_nat (length acc) →
  let '(bs, C', fin) := taken (Z.to_nat n) (n <? target) C in
  ∃ x', holds x' (C', L) ∧ uart_out x' = uart_out x ∧
    consoleread_loop (LC := LC) (LX := LX) ilock fuel ip n target acc (put c x s) =
    read_end fin ip target (acc ++ bs) me pr c x' s.
Proof.
  induction fuel as [|f IH]; intros ip n target acc me pr c x s C L H Hc Hp Hl Hf Hn Ht; [lia|].
  cbn [consoleread_loop]. destruct (Z.ltb_spec 0 n) as [Hpos|].
  2:{ replace (Z.to_nat n) with 0%nat by lia. exists x. split_and!; [done|done|].
      erewrite bind_eq by by apply unlock_input. unfold read_end. cbn [orb]. rewrite app_nil_r.
      replace (target - n) with (Z.of_nat (length acc)) by lia. done. }
  replace (Z.to_nat n) with (S (Z.to_nat (n - 1))) by lia.
  do 2 erewrite bind_eq by apply put_getx. rewrite (holds_empty _ _ H). cbn [fst].
  destruct C as [|a C]; cbn [taken].
  { exists x. split_and!; [done|done|]. rewrite bool_decide_eq_true_2, app_nil_r by done.
    erewrite bind_eq by by apply put_myproc. erewrite bind_eq by by apply put_getp.
    unfold read_end. cbn [orb]. destruct (negb (killed pr =? 0)).
    - by erewrite bind_eq by by apply unlock_input.
    - unfold mbind, M_bind. erewrite put_sleep; eauto. }
  rewrite bool_decide_eq_false_2 by done. destruct (holds_pop _ _ _ _ H) as [H' Ha].
  erewrite bind_eq by apply put_getx. rewrite Ha. cbn [deref]. erewrite bind_eq by done.
  erewrite bind_eq by apply put_modx. cbv beta.
  destruct (a =? C_D).
  { rewrite app_nil_r. destruct (n <? target) eqn:Hs.
    - exists (set_ir (ir x) (set_ir (u32 (ir x + 1)) x)). split_and!; [by destruct H|done|].
      erewrite bind_eq by (unfold when; apply put_modx). erewrite bind_eq by by apply unlock_input.
      unfold read_end. cbn [orb]. by rewrite Ht.
    - exists (set_ir (u32 (ir x + 1)) x). split_and!; [done|done|].
      erewrite bind_eq by done. erewrite bind_eq by by apply unlock_input.
      unfold read_end. cbn [orb]. by rewrite Ht. }
  destruct (a =? NL).
  { exists (set_ir (u32 (ir x + 1)) x). split_and!; [done|done|].
    erewrite bind_eq by by apply unlock_input. unfold read_end. cbn [orb].
    rewrite length_app. simpl length. replace (target - (n - 1)) with (Z.of_nat (length acc + 1)) by lia. done. }
  specialize (IH ip (n - 1) target (acc ++ [a]) me pr c (set_ir (u32 (ir x + 1)) x) s C L H' Hc Hp Hl).
  rewrite length_app in IH. simpl length in IH.
  rewrite (proj2 (Z.ltb_lt (n - 1) target)) in IH by lia.
  destruct (taken (Z.to_nat (n - 1)) true C) as [[bs C'] fin].
  destruct IH as (x' & ? & ? & E); [lia..|]. exists x'. split_and!; [done..|].
  by rewrite E, <-app_assoc.
Qed.

End Runs.

(** Whatever is typed, the finished bytes only grow, and only by a key that
    wakes the readers. *)
Lemma typed_grows cs : ∀ t, ∃ new, fst (typed t cs).1.1 = fst t ++ new ∧ ((typed t cs).2 = false → new = []).
Proof.
  induction cs as [|ch cs IH]; intros t; [exists []; by rewrite app_nil_r|].
  cbn [typed]. destruct (IH (edit t ch)) as (new & E & Hn).
  destruct (typed (edit t ch) cs) as [[t' out] b]. simpl in *. rewrite E.
  assert (Hm : ∃ m, fst (edit t ch) = fst t ++ m ∧ (commits t ch = false → m = [])).
  { unfold edit. repeat case_match; simpl; try (exists []; by rewrite app_nil_r).
    exists (t.2 ++ [stored ch]). split; [done|congruence]. }
  destruct Hm as (m & -> & Hm). exists (m ++ new). rewrite app_assoc. split; [done|].
  intros [H1 H2]%orb_false_elim. by rewrite Hm, Hn.
Qed.

(** ** The theorem *)

(** C14. The console implements a line editor and whole-line reads.  The
    interrupt handler edits the current line as [typed] says for any bytes the
    keyboard delivers (^U kills the line, backspace takes back one character, a
    carriage return is a newline, a full buffer drops the key), echoes what it
    did, wakes the readers exactly when a line was finished, and never panics.
    [consoleread] returns at most [n] bytes of the finished lines, up to a
    newline or an end of file, which it leaves for the next read unless it is
    first; with no finished bytes it sleeps, or fails if the process was
    killed; after a wakeup it goes on where it was. *)
Theorem console_line_discipline {St : Type} {LC : Lens St core} {LX : Lens St consst} `{Sep : !Separate St LC LX}
    word (ilock iunlock : nat → M St unit) c x s t :
  holds x t →
  (∀ cs, Forall is_byte cs → locks c = ∅ →
     (∃ x', consoleintr (LC := LC) (LX := LX) word cs (put (L1 := LC) (L2 := LX) c x s) =
        Ret () (put (L1 := LC) (L2 := LX) (wake_if (typed t cs).2 c) x' s) ∧
      holds x' (typed t cs).1.1 ∧
      (C_P ∉ cs → uart_out x' = uart_out x ++ (typed t cs).1.2)) ∧
     ((typed t cs).2 = false → fst (typed t cs).1.1 = fst t)) ∧
  (∀ ip n me pr s0, 0 ≤ n → cur c = Some me → ptable c !! me = Some pr → locks c = ∅ →
     iunlock ip s0 = Ret () (put (L1 := LC) (L2 := LX) c x s) →
     let '(bs, C', fin) := taken (Z.to_nat n) false (fst t) in
     ∃ x', holds x' (C', snd t) ∧ consoleread (LC := LC) (LX := LX) ilock iunlock ip n s0 =
       read_end (LC := LC) (LX := LX) ilock fin ip n bs me pr (set_locks {[L_input]} c) x' s) ∧
  (∀ ip n target acc me pr, 0 ≤ n → target - n = Z.of_nat (length acc) →
     cur c = Some me → ptable c !! me = Some pr → locks c = {[L_ptable]} →
     let '(bs, C', fin) := taken (Z.to_nat n) (n <? target) (fst t) in
     ∃ x', holds x' (C', snd t) ∧
       consoleread_resume (LC := LC) (LX := LX) ilock ip n target acc (put (L1 := LC) (L2 := LX) c x s) =
       read_end (LC := LC) (LX := LX) ilock fin ip target (acc ++ bs) me (set_chan None pr) (awake me L_input c) x' s).
Proof.
  intros H. split_and!.
  - intros cs Hcs Hl. split; [apply intr_run; [done..|rewrite Hl; set_solver]|].
    intros Hw. destruct (typed_grows cs t) as (new & -> & Hn). by rewrite Hn, app_nil_r.
  - intros ip n me pr s0 Hn Hc Hp Hl Hi. destruct t as [C L].
    pose proof (line_read_run (LC := LC) (LX := LX) ilock (S (Z.to_nat n)) ip n n [] me pr
      (set_locks {[L_input]} c) x s C L) as R.
    rewrite Z.ltb_irrefl in R. cbn [fst snd]. destruct (taken _ _ C) as [[bs C'] fin].
    destruct R as (x' & Hx & _ & E); try done; [lia|simpl; lia|]. exists x'. split; [done|].
    unfold consoleread. erewrite bind_eq by exact Hi.
    erewrite bind_eq by (apply put_acquire; set_solver). etrans; [|exact E]. by rewrite Hl, union_empty_r_L.
  - intros ip n target acc me pr Hn Ht Hc Hp Hl. destruct t as [C L].
    pose proof (line_read_run (LC := LC) (LX := LX) ilock (S (Z.to_nat n)) ip n target acc me (set_chan None pr)
      (awake me L_input c) x s C L) as R.
    cbn [fst snd]. destruct (taken _ _ C) as [[bs C'] fin].
    destruct R as (x' & Hx & _ & E); try done; [|simpl; rewrite Hl; set_solver|lia|].
    { simpl. by rewrite list_lookup_alter_eq, Hp. }
    exists x'. split; [done|]. unfold consoleread_resume.
    erewrite bind_eq by (apply put_sleep_resume; rewrite ?Hl; set_solver). done.
Qed.

(** Typing [ab], backspace, [c], return at an idle console. *)
Definition ex_cons : core * consst := (set_cur (Some 0%nat) core0, cons0).
Lemma ex_holds : holds cons0 ([], []).
Proof. constructor; [done|by apply ring_new|done|set_solver]. Qed.

Lemma console_line_discipline_witness :
  ∃ x', consoleintr (λ _, 0) [97; 98; 8; 99; 13] ex_cons = Ret () (fst ex_cons, x') ∧
    holds x' ([97; 99; NL], []) ∧ uart_out x' = [97; 98; 8; 32; 8; 99; NL].
Proof.
  destruct (console_line_discipline (LC := lens_fst (L := lens_id core)) (LX := lens_snd)
    (λ _, 0) (λ _, mret ()) (λ _, mret ()) (fst ex_cons) cons0 ex_cons ([], []) ex_holds) as [H _].
  destruct (H [97; 98; 8; 99; 13]) as [(x' & E & Hx & O) _].
  - repeat constructor; done.
  - done.
  - exists x'. split_and!; [exact E|exact Hx|]. apply O. set_solver.
Defined.
