(* ===== verification/KbdFacts.v ===== *)
(** * Key codes become bytes for the console (kbd.c)

    Whatever the keyboard controller sends, the modifier state stays in its
    seven bits and the characters are bytes, so [kbdintr] is the line editor of
    [ConsoleFacts] fed with [kbd_run]. *)
From S2P Require Import Prelude Spinlock Core CString Console Kbd Duo ConsoleFacts.

Definition mods_ok (shift : Z) : Prop := 0 ≤ shift < 128.

Lemma seqZ_all (P : Z → Prop) n : Forall P (seqZ 0 n) → ∀ x, 0 ≤ x < n → P x.
Proof. rewrite list.Forall_forall. intros H x Hx. apply H, elem_of_seqZ. lia. Qed.

Definition kbd_ok (shift data : Z) : bool :=
  let '(s, c) := kbd_byte shift data in
  (0 <=? s) && (s <? 128) && (0 <=? c) && (c <? 256).

Lemma kbd_all_ok : forallb (λ shift, forallb (kbd_ok shift) (seqZ 0 256)) (seqZ 0 128) = true.
Proof. vm_compute. reflexivity. Qed.

Lemma kbd_byte_ok shift data : mods_ok shift → is_byte data →
  mods_ok (fst (kbd_byte shift data)) ∧ is_byte (snd (kbd_byte shift data)).
Proof.
  intros Hs Hd. pose proof kbd_all_ok as H. rewrite forallb_forall in H.
  specialize (H shift). rewrite forallb_forall in H.
  assert (Hk : kbd_ok shift data = true).
  { apply H; apply list_elem_of_In, elem_of_seqZ; unfold mods_ok, is_byte in *; lia. }
  unfold kbd_ok in Hk. destruct (kbd_byte shift data) as [s c]. unfold mods_ok, is_byte. simpl.
  repeat (apply andb_prop in Hk as [Hk ?]). lia.
Qed.

Lemma kbd_run_ok bytes : ∀ shift, mods_ok shift → Forall is_byte bytes →
  mods_ok (fst (kbd_run shift bytes)) ∧ Forall is_byte (snd (kbd_run shift bytes)).
Proof.
  induction bytes as [|b bs IH]; intros shift Hs Hb; [done|]. inversion_clear Hb as [|? ? Hb1 Hb2].
  cbn [kbd_run kbdgetc]. destruct (kbd_byte_ok shift b Hs Hb1) as [H1 H2].
  destruct (kbd_byte shift b) as [s c]. destruct (IH s H1 Hb2) as [H3 H4].
  destruct (kbd_run s bs) as [s' cs]. split; [done|]. by constructor.
Qed.

(** A key that is neither a modifier nor a lock, pressed and released: the
    character of its map under the modifiers, and the modifiers as before. *)
Definition key_ok (shift k : Z) : bool :=
  if (at_ shiftcode k =? 0) && (at_ togglecode k =? 0) then
    let '(s, cs) := kbd_run shift [k; k + 128] in
    (s =? shift) &&
    bool_decide (cs = [snd (kbd_byte shift k); 0]) &&
    ((negb (Z.land shift (Z.lor CAPSLOCK 3) =? 0)) || bool_decide (cs = [at_ normalmap k; 0]))
  else true.
Lemma keys_all_ok : forallb (λ shift, forallb (key_ok shift) (seqZ 0 96)) (seqZ 0 64) = true.
Proof. vm_compute. reflexivity. Qed.

(** C38. For any modifier state and any bytes from the controller: the modifiers
    stay within their bits and every character is a byte; a plain key pressed and
    released leaves the modifiers alone and, with none of them held, gives its
    entry of [normalmap]; and the keyboard interrupt edits the console's line
    with exactly those characters. *)
Theorem keyboard_feeds_console {St : Type} {LC : Lens St core} {LX : Lens St consst} `{Sep : !Separate St LC LX}
    word c x s t shift bytes :
  mods_ok shift → Forall is_byte bytes →
  mods_ok (fst (kbd_run shift bytes)) ∧ Forall is_byte (snd (kbd_run shift bytes)) ∧
  (∀ k, 0 ≤ k < 96 → at_ shiftcode k = 0 → at_ togglecode k = 0 → shift < 64 →
     kbd_run shift [k; k + 128] = (shift, [snd (kbd_byte shift k); 0]) ∧
     (Z.land shift (Z.lor CAPSLOCK 3) = 0 → snd (kbd_byte shift k) = at_ normalmap k)) ∧
  (holds x t → locks c = ∅ →
     ∃ x', kbdintr (LC := LC) (LX := LX) word shift bytes (put (L1 := LC) (L2 := LX) c x s) =
       Ret (fst (kbd_run shift bytes))
         (put (L1 := LC) (L2 := LX) (wake_if (typed t (snd (kbd_run shift bytes))).2 c) x' s) ∧
       holds x' (typed t (snd (kbd_run shift bytes))).1.1).
Proof.
  intros Hs Hb. destruct (kbd_run_ok bytes shift Hs Hb) as [H1 H2]. split_and!; [done|done| |].
  - intros k Hk E1 E2 Hlt. pose proof keys_all_ok as H. rewrite forallb_forall in H.
    specialize (H shift). rewrite forallb_forall in H. unfold mods_ok in Hs.
    assert (Hkey : key_ok shift k = true) by (apply H; apply list_elem_of_In, elem_of_seqZ; lia).
    unfold key_ok in Hkey. rewrite E1, E2 in Hkey. cbn [Z.eqb andb] in Hkey.
    destruct (kbd_run shift [k; k + 128]) as [s' cs].
    apply andb_prop in Hkey as [[Es%Z.eqb_eq Ec%bool_decide_eq_true]%andb_prop Em]. subst s' cs.
    split; [done|]. intros Hm. rewrite Hm in Em. cbn [Z.eqb negb orb] in Em.
    apply bool_decide_eq_true in Em. by injection Em.
  - intros Hh Hl. destruct (intr_run word (snd (kbd_run shift bytes)) c x s t Hh H2) as (x' & E & Hx & _);
      [rewrite Hl; set_solver|].
    exists x'. split; [|done]. unfold kbdintr. destruct (kbd_run shift bytes) as [s' cs].
    by erewrite bind_eq by exact E.
Qed.

(** The key codes of A and of return, pressed and released. *)
Lemma keyboard_feeds_console_witness :
  ∃ x', kbdintr (λ _, 0) 0 [0x1E; 0x9E; 0x1C; 0x9C] ex_cons = Ret 0 (fst ex_cons, x') ∧
    holds x' ([97; NL], []).
Proof.
  destruct (keyboard_feeds_console (LC := lens_fst (L := lens_id core)) (LX := lens_snd)
    (λ _, 0) (fst ex_cons) cons0 ex_cons ([], []) 0 [0x1E; 0x9E; 0x1C; 0x9C]) as (_ & _ & _ & H).
  - split; [discriminate|reflexivity].
  - repeat (apply List.Forall_cons; [split; [discriminate|reflexivity]|]). apply List.Forall_nil.
  - destruct (H ex_holds eq_refl) as (x' & E & Hx). exists x'. split; [exact E|exact Hx].
Defined.
