(* ===== verification/PipeFacts.v ===== *)
(** * Pipes are bounded byte queues (pipe.c)

    [qrep] relates a [struct pipe] to the queue it stands for.  The first part
    gives every run of [pipewrite] and [piperead] in terms of the queue; the
    second lets any number of processes use a pipe in any order, with the rest
    of the kernel running between, and follows the bytes that went in and out
    and the processes that sleep. *)
From S2P Require Import Prelude Spinlock Core Ring Duo Pipe.

(** ** The queue in a pipe *)

Definition PS : nat := Z.to_nat PIPESIZE.

Definition qrep (q : pipe) : list Z → Prop := ring PIPESIZE (pdata q) (nread q) (nwrite q).

Lemma pipe_range : 0 < PIPESIZE < 2 ^ 32.
Proof. done. Qed.
Lemma pipe_div : (PIPESIZE | 2 ^ 32).
Proof. by exists (2 ^ 23). Qed.
#[local] Hint Resolve pipe_range pipe_div : core.

Lemma qr_nwrite q Q : qrep q Q → nwrite q = u32 (nread q + Z.of_nat (length Q)).
Proof. apply rg_w. Qed.
Lemma qr_len q Q : qrep q Q → (length Q ≤ PS)%nat.
Proof. intros [_ _ _ L _]. unfold PS. lia. Qed.
Lemma qr_len_eq l : bool_decide (Z.of_nat l = PIPESIZE) = bool_decide (l = PS).
Proof. apply bool_decide_ext. unfold PS, PIPESIZE. lia. Qed.

(** The code's tests for a full and an empty pipe. *)
Lemma qrep_full q Q : qrep q Q → (nwrite q =? u32 (nread q + PIPESIZE)) = bool_decide (length Q = PS).
Proof. intros H. rewrite <-qr_len_eq. by apply (ring_full PIPESIZE) with (pdata q). Qed.
Lemma qrep_empty q Q : qrep q Q → (nread q =? nwrite q) = bool_decide (Q = []).
Proof. by apply (ring_empty PIPESIZE). Qed.

(** One byte in, one byte out. *)
Definition push (x : Z) (q : pipe) : pipe :=
  set_nwrite (u32 (nwrite q + 1)) (set_pdata (aset (pdata q) (nwrite q mod PIPESIZE) x) q).
Definition pop (q : pipe) : pipe := set_nread (u32 (nread q + 1)) q.

Lemma qrep_push q Q x : qrep q Q → (length Q < PS)%nat → qrep (push x q) (Q ++ [x]).
Proof. intros R HL. apply (ring_push PIPESIZE); auto. unfold PS in HL. lia. Qed.
Lemma qrep_pop q Q x : qrep q (x :: Q) →
  qrep (pop q) Q ∧ aget (pdata q) (nread q mod PIPESIZE) = Some x.
Proof. by apply (ring_pop PIPESIZE). Qed.
Lemma qrep_new d : length d = PS → qrep (mkPipe d 0 0 true true) [].
Proof. by apply (ring_new PIPESIZE). Qed.

(** ** Runs *)

(** Taking the lock first, or getting it back after a sleep. *)
Definition locked (p : Z) (c : core) : core := set_locks ({[L_pipe p]} ∪ locks c) c.
Lemma lock_pipe p c : locks c = ∅ → locks (locked p c) = {[L_pipe p]}.
Proof. simpl. intros ->. set_solver. Qed.
Lemma lock_awake p me c : locks c = {[L_ptable]} → locks (awake me (L_pipe p) c) = {[L_pipe p]}.
Proof. simpl. intros ->. set_solver. Qed.

Section Runs.
Context {St : Type} {LC : Lens St core} {LP : Lens St (gmap Z pipe)} `{Sep : !Separate St LC LP}.
Context (p : Z).
Implicit Types (c : core) (ps : gmap Z pipe) (s : St) (Q : list Z).

Notation getq := (getq (LP := LP)).
Notation setq := (setq (LP := LP)).
Notation put := (put (L1 := LC) (L2 := LP)).

Lemma put_getq {A} (f : pipe → A) q c ps s : ps !! p = Some q →
  getq p f (put c ps s) = Ret (f q) (put c ps s).
Proof. intros H. unfold Pipe.getq. erewrite bind_eq by reflexivity. by rewrite put_snd, H. Qed.

Lemma put_setq f q c ps s : ps !! p = Some q →
  setq p f (put c ps s) = Ret () (put c (<[p := f q]> ps) s).
Proof.
  intros H. unfold Pipe.setq, modify. rewrite put_snd, put_set_snd. do 2 f_equal.
  apply map_eq. intros i. destruct (decide (i = p)) as [->|].
  - by rewrite lookup_alter_eq, H, lookup_insert_eq.
  - by rewrite lookup_alter_ne, lookup_insert_ne.
Qed.

(** The process that runs. *)
Definition me_is c (me : nat) (pr : proc) : Prop := cur c = Some me ∧ ptable c !! me = Some pr.

Definition unlocked c : core := set_locks (locks c ∖ {[L_pipe p]}) c.

(** What a writer with the lock does, [w] bytes still to go into a queue of
    [l]: all of them; or give up; or fill the queue and sleep. *)
Definition write_end (c : core) (me : nat) (pr : proc) (q : pipe) (l w n : Z) (ps' : gmap Z pipe) (s : St)
    : outcome St Z :=
  if w <=? PIPESIZE - l then Ret n (put (unlocked (wakes (Ch_nread p) c)) ps' s)
  else if negb (readopen q) || negb (killed pr =? 0) then Ret (-1) (put (unlocked c) ps' s)
  else Block (put (slept (Ch_nwrite p) me (wakes (Ch_nread p) c)) ps' s).

Lemma wakes_me ch c me pr : me_is c me pr → state pr = RUNNING → me_is (wakes ch c) me pr.
Proof.
  intros [Hc Hp] Hr. split; [done|]. simpl. rewrite list_lookup_fmap, Hp. simpl. f_equal.
  unfold wakeup1_proc. rewrite decide_False; [done|]. intros [? _]. congruence.
Qed.

Lemma write_loop_run addr n me pr fuel : ∀ i q Q c ps s,
  ps !! p = Some q → qrep q Q → me_is c me pr → state pr = RUNNING → locks c = {[L_pipe p]} →
  n ≤ Z.of_nat (length addr) → 0 ≤ i → (Z.to_nat (n - i) < fuel)%nat →
  ∃ q', qrep q' (Q ++ sublist (Z.to_nat i) (Z.to_nat (Z.min (n - i) (PIPESIZE - Z.of_nat (length Q)))) addr) ∧
    readopen q' = readopen q ∧ writeopen q' = writeopen q ∧ nread q' = nread q ∧
    pipewrite_loop (LC := LC) (LP := LP) fuel p addr n i (put c ps s) =
      write_end c me pr q (Z.of_nat (length Q)) (n - i) n (<[p := q']> ps) s.
Proof.
  induction fuel as [|fuel IH]; intros i q Q c ps s Hq HQ Hme Hr Hl Hn Hi Hf; [lia|].
  pose proof (qr_len _ _ HQ) as HL. unfold PS in HL.
  cbn [pipewrite_loop]. destruct (Z.ltb_spec i n) as [Hin|Hin].
  2:{ exists q. rewrite insert_id by done. split_and!; try done.
      - rewrite (Z2Nat.nonpos (Z.min _ _)) by lia. by rewrite app_nil_r.
      - unfold write_end. destruct (Z.leb_spec (n - i) (PIPESIZE - Z.of_nat (length Q))); [|unfold PIPESIZE in *; lia].
        erewrite bind_eq by (apply put_wakeup; rewrite Hl; set_solver).
        erewrite bind_eq by (apply put_release; simpl; rewrite Hl; set_solver).
        done. }
  erewrite bind_eq by by apply put_getq. erewrite bind_eq by by apply put_getq.
  rewrite (qrep_full q Q HQ). case_bool_decide as Hfull.
  - exists q. rewrite insert_id by done. rewrite Hfull.
    replace (Z.to_nat (Z.min (n - i) (PIPESIZE - Z.of_nat PS))) with 0%nat by (unfold PS, PIPESIZE; lia).
    rewrite app_nil_r. split_and!; try done.
    unfold write_end. destruct (Z.leb_spec (n - i) (PIPESIZE - Z.of_nat PS)); [unfold PS, PIPESIZE in *; lia|].
    erewrite bind_eq by by apply put_getq.
    erewrite bind_eq by (apply put_myproc, Hme). erewrite bind_eq by (apply put_getp, Hme).
    destruct (negb (readopen q) || negb (killed pr =? 0)).
    + erewrite bind_eq by (apply put_release; rewrite Hl; set_solver). done.
    + erewrite bind_eq by (apply put_wakeup; rewrite Hl; set_solver).
      destruct (wakes_me (Ch_nread p) c me pr Hme Hr) as [Hc Hp].
      unfold mbind, M_bind. erewrite put_sleep; try done.
  - destruct (lookup_lt_is_Some_2 addr (Z.to_nat i)) as [x Hx]; [lia|].
    erewrite bind_eq.
    2:{ unfold aget. destruct (Z.ltb_spec i 0); [lia|]. rewrite Hx. reflexivity. }
    erewrite bind_eq by by apply put_setq. 
    assert (Hpush : qrep (push x q) (Q ++ [x])) by (apply qrep_push; [done|unfold PS in *; lia]).
    destruct (IH (i + 1) (push x q) (Q ++ [x]) c (<[p := push x q]> ps) s) as (q' & Hq' & Ho & Hw & Hnr & E); auto; try lia.
    { by rewrite lookup_insert_eq. }
    exists q'. rewrite insert_insert_eq in E. rewrite length_app in Hq', E. cbn [length] in Hq', E.
    split_and!; try done.
    + revert Hq'. rewrite <-app_assoc. cbn [app].
      replace (Z.to_nat (Z.min (n - i) (PIPESIZE - Z.of_nat (length Q))))
        with (S (Z.to_nat (Z.min (n - (i + 1)) (PIPESIZE - Z.of_nat (length Q + 1)))))
        by (unfold PS, PIPESIZE in *; lia).
      unfold sublist. rewrite (drop_S addr x (Z.to_nat i)) by done. cbn [take].
      by replace (Z.to_nat (i + 1)) with (S (Z.to_nat i)) by lia.
    + etransitivity; [exact E|]. unfold write_end. change (readopen (push x q)) with (readopen q).
      replace (n - (i + 1) <=? PIPESIZE - Z.of_nat (length Q + 1))
        with (n - i <=? PIPESIZE - Z.of_nat (length Q)); [done|].
      apply Bool.eq_iff_eq_true. rewrite !Z.leb_le. lia.
Qed.

(** What a reader with the lock does: it gives up, sleeps on an empty queue
    while there is a writer, or takes what there is, up to [n] bytes. *)
Definition read_end (c : core) (me : nat) (pr : proc) (q : pipe) Q (n : Z) (ps ps' : gmap Z pipe) (s : St)
    : outcome St (Z * list Z) :=
  if bool_decide (Q = []) && writeopen q then
    if negb (killed pr =? 0) then Ret (-1, []) (put (unlocked c) ps s)
    else Block (put (slept (Ch_nread p) me c) ps s)
  else
    let bs := take (Z.to_nat n) Q in
    Ret (Z.of_nat (length bs), bs) (put (unlocked (wakes (Ch_nwrite p) c)) ps' s).

Lemma read_copy_run n fuel : ∀ i q Q acc c ps s,
  ps !! p = Some q → qrep q Q → (Z.to_nat (n - i) < fuel)%nat → 
  ∃ q', qrep q' (drop (Z.to_nat (n - i)) Q) ∧
    readopen q' = readopen q ∧ writeopen q' = writeopen q ∧
    piperead_copy (LP := LP) fuel p n i acc (put c ps s) =
      let bs := take (Z.to_nat (n - i)) Q in
      Ret (i + Z.of_nat (length bs), acc ++ bs) (put c (<[p := q']> ps) s).
Proof.
  induction fuel as [|fuel IH]; intros i q Q acc c ps s Hq HQ Hf; [lia|].
  cbn [piperead_copy]. destruct (Z.ltb_spec i n) as [Hin|Hin].
  2:{ exists q. rewrite (Z2Nat.nonpos (n - i)) by lia. rewrite insert_id by done. cbn.
      by rewrite Z.add_0_r, app_nil_r. }
  erewrite bind_eq by by apply put_getq. erewrite bind_eq by by apply put_getq.
  rewrite (qrep_empty q Q HQ). destruct Q as [|x Q].
  { exists q. rewrite drop_nil, take_nil, insert_id by done. cbn. by rewrite Z.add_0_r, app_nil_r. }
  cbn [bool_decide decide_rel]. rewrite bool_decide_false by done.
  destruct (qrep_pop q Q x HQ) as [HQ' Hx].
  erewrite bind_eq by by apply put_getq.
  erewrite bind_eq by (rewrite Hx; reflexivity).
  erewrite bind_eq by by apply put_setq.
  destruct (IH (i + 1) (pop q) Q (acc ++ [x]) c (<[p := pop q]> ps) s)
    as (q' & Hq' & Ho & Hw & E); auto; try lia.
  { by rewrite lookup_insert_eq. }
  exists q'. rewrite insert_insert_eq in E.
  replace (Z.to_nat (n - i)) with (S (Z.to_nat (n - (i + 1)))) by lia.
  split_and!; try done. etransitivity; [exact E|]. cbn [take length].
  rewrite <-app_assoc. cbn [app]. do 2 f_equal. lia.
Qed.

Lemma read_loop_run n me pr q Q c ps s :
  ps !! p = Some q → qrep q Q → me_is c me pr → locks c = {[L_pipe p]} →
  ∃ q', qrep q' (drop (Z.to_nat n) Q) ∧
    readopen q' = readopen q ∧ writeopen q' = writeopen q ∧
    piperead_loop (LC := LC) (LP := LP) p n (put c ps s) =
      read_end c me pr q Q n ps (<[p := q']> ps) s.
Proof.
  intros Hq HQ [Hme Hpr] Hl.
  destruct (read_copy_run n (S (Z.to_nat n)) 0 q Q [] c ps s) as (q' & Hq' & Ho & Hw & E); auto; try lia.
  rewrite Z.sub_0_r in *. exists q'. split_and!; try done.
  unfold piperead_loop, read_end.
  do 3 erewrite bind_eq by by apply put_getq. rewrite (qrep_empty q Q HQ).
  destruct (bool_decide (Q = []) && writeopen q).
  - erewrite bind_eq by by apply put_myproc. erewrite bind_eq by by apply put_getp.
    destruct (negb (killed pr =? 0)).
    + erewrite bind_eq by (apply put_release; rewrite Hl; set_solver). done.
    + unfold mbind, M_bind. by erewrite put_sleep.
  - erewrite bind_eq by exact E. cbn zeta.
    erewrite bind_eq by (apply put_wakeup; rewrite Hl; set_solver).
    erewrite bind_eq by (apply put_release; simpl; rewrite Hl; set_solver). done.
Qed.

(** [pipeclose]: the end is marked closed and its sleepers are woken; the page
    goes when both ends are closed. *)
Definition closed_end (w : bool) (q : pipe) : pipe :=
  if w then set_writeopen false q else set_readopen false q.
Definition end_chan (w : bool) : chan_t := if w then Ch_nread p else Ch_nwrite p.
Definition closing (w : bool) c : core :=
  unlocked (wakes (end_chan w) (set_locks ({[L_pipe p]} ∪ locks c) c)).

Lemma close_run kfree w q c ps s :
  ps !! p = Some q → L_pipe p ∉ locks c → L_ptable ∉ locks c →
  pipeclose (LC := LC) (LP := LP) kfree p w (put c ps s) =
    let s' := put (closing w c) (<[p := closed_end w q]> ps) s in
    if negb (readopen (closed_end w q)) && negb (writeopen (closed_end w q))
    then kfree p s' else Ret () s'.
Proof.
  intros Hq H1 H2. unfold pipeclose.
  erewrite bind_eq by by apply put_acquire.
  assert (Hq' : <[p := closed_end w q]> ps !! p = Some (closed_end w q)) by by rewrite lookup_insert_eq.
  assert (Hw : ∀ s1 : gmap Z pipe, wakeup (L := LC) (end_chan w) (put (set_locks ({[L_pipe p]} ∪ locks c) c) s1 s)
    = Ret () (put (wakes (end_chan w) (set_locks ({[L_pipe p]} ∪ locks c) c)) s1 s)).
  { intros. apply put_wakeup. simpl. set_solver. }
  erewrite bind_eq.
  2:{ instantiate (1 := put (wakes (end_chan w) (set_locks ({[L_pipe p]} ∪ locks c) c))
        (<[p := closed_end w q]> ps) s). instantiate (1 := tt).
      destruct w; (erewrite bind_eq by by apply put_setq); apply Hw. }
  do 2 erewrite bind_eq by by apply put_getq.
  assert (Hrel : release (L := LC) (L_pipe p) (put (wakes (end_chan w) (set_locks ({[L_pipe p]} ∪ locks c) c))
    (<[p := closed_end w q]> ps) s) = Ret () (put (closing w c) (<[p := closed_end w q]> ps) s)).
  { apply put_release. simpl. set_solver. }
  destruct (_ && _); [by erewrite bind_eq|done].
Qed.

End Runs.

(** ** Many processes on one pipe *)

Definition asleep_on (ch : chan_t) (c : core) (j : nat) : Prop :=
  ∃ pr, ptable c !! j = Some pr ∧ state pr = SLEEPING ∧ chan pr = Some ch.

Lemma asleep_wakes ch ch' c j : asleep_on ch (wakes ch' c) j ↔ asleep_on ch c j ∧ ch ≠ ch'.
Proof.
  unfold asleep_on. simpl. rewrite list_lookup_fmap. split.
  - intros (pr & (pr0 & -> & Hp)%fmap_Some & Hs & Hc). revert Hs Hc. unfold wakeup1_proc in Hp.
    case_decide as D; subst; simpl; [done|]. intros Hs Hc. split; [eauto|]. intros ->. by destruct D.
  - intros ((pr & Hp & Hs & Hc) & Hne). exists pr. rewrite Hp. simpl. unfold wakeup1_proc.
    rewrite decide_False; [done|]. intros [_ ?]. congruence.
Qed.

Lemma asleep_slept ch ch' me c j :
  asleep_on ch (slept ch' me c) j → asleep_on ch c j ∨ ch = ch'.
Proof.
  intros (pr & Hp & Hs & Hc). unfold slept, set_locks in Hp. cbn [ptable] in Hp.
  rewrite upd_lookup in Hp. case_decide; [|left; by exists pr].
  apply fmap_Some in Hp as (pr0 & _ & ->). simpl in Hc. right. congruence.
Qed.

Lemma asleep_locks ch ls c j : asleep_on ch (set_locks ls c) j ↔ asleep_on ch c j.
Proof. done. Qed.

Lemma asleep_awake ch me lk c j : asleep_on ch (awake me lk c) j → asleep_on ch c j.
Proof.
  intros (pr & Hp & Hs & Hc). unfold awake, set_locks in Hp. cbn [ptable] in Hp.
  rewrite upd_lookup in Hp. case_decide; [|by exists pr].
  apply fmap_Some in Hp as (pr0 & _ & ->). done.
Qed.

(** A call in progress: what a sleeping process will go on with. *)
Inductive pcall := PWrite (addr : list Z) (n i : Z) | PRead (n : Z).

(** The kernel, the calls that sleep, the bytes that went in and that came out,
    and whether a write has failed. *)
Record net := mkNet {
  kst : core * gmap Z pipe; pend : gmap nat pcall;
  sent : list Z; got : list Z; gaveup : bool }.

Section Net.
Context (p : Z).
Abbreviation St := (core * gmap Z pipe)%type.

(** A freed page holds no pipe. *)
Definition free_page (a : Z) : M St unit := modify (λ s, (fst s, delete a (snd s))).

(** The bytes a writer moved between two states. *)
Definition wcount (s s' : St) : Z :=
  match snd s !! p, snd s' !! p with
  | Some q, Some q' => u32 (nwrite q' - nwrite q)
  | _, _ => 0
  end.

(** What is recorded of a write of [addr] that was at [i], and of a read. *)
Definition rec_write (me : nat) (addr : list Z) (n i : Z) (x : net) (o : outcome St Z) : option net :=
  match o with
  | Ret r s' =>
      Some (mkNet s' (delete me (pend x))
        (sent x ++ sublist (Z.to_nat i) (Z.to_nat (wcount (kst x) s')) addr) (got x)
        (gaveup x || (r <? 0)))
  | Block s' =>
      let k := wcount (kst x) s' in
      Some (mkNet s' (<[me := PWrite addr n (i + k)]> (pend x))
        (sent x ++ sublist (Z.to_nat i) (Z.to_nat k) addr) (got x) (gaveup x))
  | _ => None
  end.
Definition rec_read (me : nat) (n : Z) (x : net) (o : outcome St (Z * list Z)) : option net :=
  match o with
  | Ret r s' => Some (mkNet s' (delete me (pend x)) (sent x) (got x ++ snd r) (gaveup x))
  | Block s' => Some (mkNet s' (<[me := PRead n]> (pend x)) (sent x) (got x) (gaveup x))
  | _ => None
  end.

(** [me] has the CPU, with the locks [ls], and refers to the pipe. *)
Definition on_cpu (s : St) (me : nat) (ls : gset lockid) : Prop :=
  cur (fst s) = Some me ∧ locks (fst s) = ls ∧ is_Some (snd s !! p) ∧
  ∃ pr, ptable (fst s) !! me = Some pr ∧ state pr = RUNNING.

(** The rest of the kernel leaves this pipe alone and puts no one to sleep on
    it. *)
Definition elsewhere (s s' : St) : Prop :=
  snd s' !! p = snd s !! p ∧
  ∀ ch j, ch = Ch_nread p ∨ ch = Ch_nwrite p → asleep_on ch (fst s') j → asleep_on ch (fst s) j.

Inductive pnet : net → net → Prop :=
| N_write me addr n x x' :
    on_cpu (kst x) me ∅ → pend x !! me = None → n ≤ Z.of_nat (length addr) →
    rec_write me addr n 0 x (pipewrite p addr n (kst x)) = Some x' → pnet x x'
| N_write_resume me addr n i x x' :
    on_cpu (kst x) me {[L_ptable]} → pend x !! me = Some (PWrite addr n i) →
    rec_write me addr n i x (pipewrite_resume p addr n i (kst x)) = Some x' → pnet x x'
| N_read me n x x' :
    on_cpu (kst x) me ∅ → pend x !! me = None →
    rec_read me n x (piperead p n (kst x)) = Some x' → pnet x x'
| N_read_resume me n x x' :
    on_cpu (kst x) me {[L_ptable]} → pend x !! me = Some (PRead n) →
    rec_read me n x (piperead_resume p n (kst x)) = Some x' → pnet x x'
| N_close me w x s' : on_cpu (kst x) me ∅ →
    pipeclose free_page p w (kst x) = Ret () s' →
    pnet x (mkNet s' (pend x) (sent x) (got x) (gaveup x))
| N_env x s' : elsewhere (kst x) s' →
    pnet x (mkNet s' (pend x) (sent x) (got x) (gaveup x)).

(** The bytes in flight and the sleepers. *)
Definition pinv (x : net) : Prop :=
  ∃ Q, sent x = got x ++ Q ∧ (length Q ≤ PS)%nat ∧
    (∀ q, snd (kst x) !! p = Some q → qrep q Q) ∧
    (∀ j, asleep_on (Ch_nwrite p) (fst (kst x)) j →
       length Q = PS ∧ ∃ q, snd (kst x) !! p = Some q ∧ readopen q = true) ∧
    (gaveup x = false → ∀ j, asleep_on (Ch_nread p) (fst (kst x)) j →
       Q = [] ∧ ∃ q, snd (kst x) !! p = Some q ∧ writeopen q = true) ∧
    (∀ me addr n i, pend x !! me = Some (PWrite addr n i) → n ≤ Z.of_nat (length addr) ∧ 0 ≤ i).

Lemma wcount_push s s' q q' Q bs :
  snd s !! p = Some q → snd s' !! p = Some q' → qrep q Q → qrep q' (Q ++ bs) →
  nread q' = nread q → wcount s s' = Z.of_nat (length bs).
Proof.
  intros Hs Hs' HQ HQ' Hr. unfold wcount. rewrite Hs, Hs', (qr_nwrite _ _ HQ), (qr_nwrite _ _ HQ').
  rewrite Hr, u32_sub_l, u32_sub_r, length_app. rewrite <-(u32_small (Z.of_nat (length bs))).
  - f_equal. lia.
  - pose proof (qr_len _ _ HQ') as HL. rewrite length_app in HL. unfold PS, PIPESIZE in HL. lia.
Qed.

(** A writer's turn, from the lock on. *)
Lemma write_keeps me pr addr n i x x' c :
  pinv x → is_Some (snd (kst x) !! p) → locks c = {[L_pipe p]} →
  me_is c me pr → state pr = RUNNING → n ≤ Z.of_nat (length addr) → 0 ≤ i →
  (∀ ch j, asleep_on ch c j → asleep_on ch (fst (kst x)) j) →
  rec_write me addr n i x (pipewrite_from p addr n i (c, snd (kst x))) = Some x' → pinv x'.
Proof.
  intros (Q & Hs & HL & HQ & Hw & Hr & Hp) [q Hq] Hl Hme Hrun Hn Hi Hsl E.
  destruct (write_loop_run p addr n me pr (S (Z.to_nat (n - i))) i q Q c (snd (kst x)) (c, snd (kst x)))
    as (q' & HQ' & Ho & Hwo & Hnr & R); auto.
  unfold pipewrite_from in E. change (c, snd (kst x)) with (put c (snd (kst x)) (c, snd (kst x))) in E.
  rewrite R in E. clear R. specialize (HQ q Hq).
  set (bs := sublist (Z.to_nat i) _ addr) in *.
  assert (Hbs : length bs = Z.to_nat (Z.min (n - i) (PIPESIZE - Z.of_nat (length Q)))).
  { destruct (Z.leb_spec (n - i) 0).
    - subst bs. rewrite (Z2Nat.nonpos (Z.min _ _)) by lia. done.
    - unfold bs. apply sublist_length. lia. }
  assert (Hwc : ∀ c', wcount (kst x) (c', <[p:=q']> (snd (kst x))) = Z.of_nat (length bs)).
  { intros c'. eapply wcount_push; eauto. simpl. by rewrite lookup_insert_eq. }
  assert (Hsub : sublist (Z.to_nat i) (Z.to_nat (Z.of_nat (length bs))) addr = bs).
  { rewrite Nat2Z.id, Hbs. done. }
  pose proof (qr_len _ _ HQ') as HL'. pose proof (length_app Q bs) as HLb.
  unfold write_end in E.
  destruct (Z.leb_spec (n - i) (PIPESIZE - Z.of_nat (length Q))) as [Hfit|Hfit];
    [|destruct (negb (readopen q) || negb (killed pr =? 0)) eqn:Hbad];
    unfold rec_write in E; injection E as <-;
    exists (Q ++ bs); cbn [kst pend sent got gaveup put snd fst lens_snd lens_fst lens_id lget lset];
    rewrite ?Hwc, Hsub, Hs, <-app_assoc; split_and!; try done.
  - intros q1. rewrite lookup_insert_eq. by intros [= <-].
  - intros j [Hj _]%asleep_wakes. destruct (Hw j (Hsl _ j Hj)) as (HQf & q1 & Hq1 & Ho1).
    rewrite lookup_insert_eq. split; [lia|]. exists q'. simplify_eq. by rewrite Ho.
  - intros _ j [_ []]%asleep_wakes. done.
  - intros me' addr' n' i' [_ Hp']%lookup_delete_Some. by eapply Hp.
  - intros q1. rewrite lookup_insert_eq. by intros [= <-].
  - intros j Hj. destruct (Hw j (Hsl _ j Hj)) as (HQf & q1 & Hq1 & Ho1).
    rewrite lookup_insert_eq. split; [lia|]. exists q'. simplify_eq. by rewrite Ho.
  - by rewrite orb_true_r.
  - intros me' addr' n' i' [_ Hp']%lookup_delete_Some. by eapply Hp.
  - intros q1. rewrite lookup_insert_eq. by intros [= <-].
  - intros j _. rewrite lookup_insert_eq. split; [unfold PS, PIPESIZE in *; lia|].
    exists q'. split; [done|]. rewrite Ho. by destruct (readopen q).
  - intros _ j [[_ []]%asleep_wakes|]%asleep_slept; done.
  - intros me' addr' n' i' [[<- [= <- <- <-]]|[_ Hp']]%lookup_insert_Some; [lia|]. by eapply Hp.
Qed.

(** A reader's turn. *)
Lemma read_keeps me pr n x x' c :
  pinv x → is_Some (snd (kst x) !! p) → locks c = {[L_pipe p]} →
  me_is c me pr → 
  (∀ ch j, asleep_on ch c j → asleep_on ch (fst (kst x)) j) →
  rec_read me n x (piperead_loop p n (c, snd (kst x))) = Some x' → pinv x'.
Proof.
  intros (Q & Hs & HL & HQ & Hw & Hr & Hp) [q Hq] Hl Hme Hsl E.
  specialize (HQ q Hq).
  destruct (read_loop_run p n me pr q Q c (snd (kst x)) (c, snd (kst x)))
    as (q' & HQ' & Ho & Hwo & R); auto.
  change (c, snd (kst x)) with (put c (snd (kst x)) (c, snd (kst x))) in E.
  rewrite R in E. clear R. unfold read_end in E.
  destruct (bool_decide (Q = []) && writeopen q) eqn:Hempty;
    [apply andb_true_iff in Hempty as [->%bool_decide_eq_true Hwr]; destruct (negb (killed pr =? 0))|];
    unfold rec_read in E; injection E as <-.
  - exists []. cbn [kst pend sent got gaveup put snd fst lens_snd lens_fst lens_id lget lset]. rewrite app_nil_r. split_and!; try done.
    + intros q1 ?. by simplify_eq.
    + intros j Hj. by destruct (Hw j (Hsl _ j Hj)).
    + intros Hg j Hj. by apply (Hr Hg j), Hsl.
    + intros me' addr' n' i' [_ Hp']%lookup_delete_Some. by eapply Hp.
  - exists []. cbn [kst pend sent got gaveup put snd fst lens_snd lens_fst lens_id lget lset]. split_and!; try done.
    + intros q1 ?. by simplify_eq.
    + intros j [Hj|]%asleep_slept; [|done]. by destruct (Hw j (Hsl _ j Hj)).
    + intros _ j _. split; [done|]. by exists q.
    + intros me' addr' n' i' [[<- ?]|[_ Hp']]%lookup_insert_Some; [done|]. by eapply Hp.
  - exists (drop (Z.to_nat n) Q). cbn [kst pend sent got gaveup put snd fst lens_snd lens_fst lens_id lget lset]. split_and!; try done.
    + by rewrite <-app_assoc, take_drop.
    + apply (qr_len _ _ HQ').
    + intros q1. rewrite lookup_insert_eq. by intros [= <-].
    + by intros j [_ []]%asleep_wakes.
    + intros Hg j [Hj _]%asleep_wakes. destruct (Hr Hg j (Hsl _ j Hj)) as (-> & q1 & Hq1 & Hw1).
      simplify_eq. by rewrite Hw1 in Hempty.
    + intros me' addr' n' i' [_ Hp']%lookup_delete_Some. by eapply Hp.
Qed.

Lemma close_keeps me w x s' : pinv x → on_cpu (kst x) me ∅ →
  pipeclose free_page p w (kst x) = Ret () s' →
  pinv (mkNet s' (pend x) (sent x) (got x) (gaveup x)).
Proof.
  intros (Q & Hs & HL & HQ & Hw & Hr & Hp) (_ & Hl & [q Hq] & _) E.
  destruct x as [[c ps] pd sn gt gu]. cbn [kst fst snd pend sent got gaveup] in *.
  change (c, ps) with (put c ps (c, ps)) in E.
  rewrite (close_run p free_page w q) in E by (rewrite ?Hl; set_solver).
  assert (Hsl : ∀ ch j, asleep_on ch (closing p w c) j → asleep_on ch c j ∧ ch ≠ end_chan p w).
  { intros ch j Hj. unfold closing, unlocked in Hj. by rewrite asleep_locks, asleep_wakes, asleep_locks in Hj. }
  specialize (HQ q Hq). assert (HQc : qrep (closed_end w q) Q) by (by destruct w).
  exists Q. destruct (negb _ && negb _) eqn:Hfree; cbn zeta in E;
    [unfold free_page, modify in E|]; injection E as <-;
    cbn [kst pend sent got gaveup put snd fst lens_snd lens_fst lens_id lget lset].
  - assert (Hno : ∀ ch j, ch = Ch_nread p ∨ ch = Ch_nwrite p → gu = false ∨ ch = Ch_nwrite p →
      asleep_on ch (closing p w c) j → False).
    { intros ch j Hch Hg [Hj Hne]%Hsl. apply andb_true_iff in Hfree as [F1%negb_true_iff F2%negb_true_iff].
      destruct Hch as [-> | ->].
      - destruct Hg as [Hg|]; [|done]. destruct (Hr Hg j Hj) as (_ & q1 & Hq1 & Hw1). simplify_eq.
        destruct w; simpl in *; congruence.
      - destruct (Hw j Hj) as (_ & q1 & Hq1 & Hw1). simplify_eq. destruct w; simpl in *; congruence. }
    split_and!; try done.
    + intros q1. by rewrite lookup_delete_eq.
    + intros j Hj. destruct (Hno (Ch_nwrite p) j); auto.
    + intros Hg j Hj. destruct (Hno (Ch_nread p) j); auto.
  - split_and!; try done.
    + intros q1. rewrite lookup_insert_eq. by intros [= <-].
    + intros j [Hj Hne]%Hsl. destruct (Hw j Hj) as (Hf & q1 & Hq1 & Ho). simplify_eq.
      split; [done|]. rewrite lookup_insert_eq. eexists. split; [done|]. by destruct w.
    + intros Hg j [Hj Hne]%Hsl. destruct (Hr Hg j Hj) as (-> & q1 & Hq1 & Ho). simplify_eq.
      split; [done|]. rewrite lookup_insert_eq. eexists. split; [done|]. by destruct w.
Qed.

Lemma pnet_keeps x x' : pnet x x' → pinv x → pinv x'.
Proof.
  destruct 1 as [me addr n x x' (Hc & Hl & Hq & pr & Hpr & Hrun) Hpd Hn E
    |me addr n i x x' (Hc & Hl & Hq & pr & Hpr & Hrun) Hpd E
    |me n x x' (Hc & Hl & Hq & pr & Hpr & Hrun) Hpd E
    |me n x x' (Hc & Hl & Hq & pr & Hpr & Hrun) Hpd E
    |me w x s' Hon E|x s' [Hsame Hsl]]; intros I.
  - unfold pipewrite in E. destruct (kst x) as [c ps] eqn:Ek. cbn [fst snd] in *.
    erewrite bind_eq in E by (apply pair_acquire; rewrite Hl; set_solver).
    assert (Hq' : is_Some (snd (kst x) !! p)) by by rewrite Ek.
    replace ps with (snd (kst x)) in E by by rewrite Ek.
    eapply (write_keeps me pr addr n 0 x x' (locked p c) I); [exact Hq'|exact (lock_pipe p c Hl)|by split|done|done|lia| |exact E].
    intros ch j. by rewrite Ek.
  - unfold pipewrite_resume in E. destruct (kst x) as [c ps] eqn:Ek. cbn [fst snd] in *.
    erewrite bind_eq in E by (apply (pair_sleep_resume _ me); rewrite ?Hl; set_solver).
    assert (Hq' : is_Some (snd (kst x) !! p)) by by rewrite Ek.
    replace ps with (snd (kst x)) in E by by rewrite Ek.
    assert (Hi : n ≤ Z.of_nat (length addr) ∧ 0 ≤ i) by (destruct I as (Q & _ & _ & _ & _ & _ & Hp); eauto).
    eapply (write_keeps me (set_chan None pr) addr n i x x' (awake me (L_pipe p) c) I); [exact Hq'|exact (lock_awake p me c Hl)| |done|apply Hi|apply Hi| |exact E].
    + split; [done|]. simpl. by rewrite list_lookup_alter_eq, Hpr.
    + intros ch j. rewrite Ek. apply asleep_awake.
  - unfold piperead in E. destruct (kst x) as [c ps] eqn:Ek. cbn [fst snd] in *.
    erewrite bind_eq in E by (apply pair_acquire; rewrite Hl; set_solver).
    assert (Hq' : is_Some (snd (kst x) !! p)) by by rewrite Ek.
    replace ps with (snd (kst x)) in E by by rewrite Ek.
    eapply (read_keeps me pr n x x' (locked p c) I); [exact Hq'|exact (lock_pipe p c Hl)|by split| |exact E].
    intros ch j. by rewrite Ek.
  - unfold piperead_resume in E. destruct (kst x) as [c ps] eqn:Ek. cbn [fst snd] in *.
    erewrite bind_eq in E by (apply (pair_sleep_resume _ me); rewrite ?Hl; set_solver).
    assert (Hq' : is_Some (snd (kst x) !! p)) by by rewrite Ek.
    replace ps with (snd (kst x)) in E by by rewrite Ek.
    eapply (read_keeps me (set_chan None pr) n x x' (awake me (L_pipe p) c) I); [exact Hq'|exact (lock_awake p me c Hl)| | |exact E].
    + split; [done|]. simpl. by rewrite list_lookup_alter_eq, Hpr.
    + intros ch j. rewrite Ek. apply asleep_awake.
  - by eapply close_keeps.
  - destruct I as (Q & Hs & HL & HQ & Hw & Hr & Hp). exists Q. cbn [kst pend sent got gaveup].
    rewrite Hsame. split_and!; try done.
    + intros j Hj. apply Hw with j, Hsl; auto.
    + intros Hg j Hj. apply Hr with j; [done|]. apply Hsl; auto.
Qed.

(** A killed process writes more than an empty pipe holds. *)
Lemma killed_write s me pr q addr n :
  on_cpu s me ∅ → ptable (fst s) !! me = Some pr → killed pr ≠ 0 →
  snd s !! p = Some q → qrep q [] → readopen q = true → Z.of_nat PS < n ≤ Z.of_nat (length addr) →
  ∃ q', qrep q' (take PS addr) ∧ readopen q' = readopen q ∧ writeopen q' = writeopen q ∧ nread q' = nread q ∧
    pipewrite p addr n s = Ret (-1) (fst s, <[p := q']> (snd s)).
Proof.
  intros (Hc & Hl & _ & pr' & Hpr & Hrun) Hpr' Hk Hq HQ Ho [Hn Hna]. simplify_eq.
  destruct s as [c ps]. cbn [fst snd] in *.
  destruct (write_loop_run p addr n me pr' (S (Z.to_nat (n - 0))) 0 q [] (locked p c) ps (c, ps))
    as (q' & HQ' & Ho' & Hw' & Hnr & E); auto using lock_pipe; try lia; [by split|].
  exists q'. split_and!; try done.
  - revert HQ'. unfold sublist, PS, PIPESIZE in *. cbn [app length drop].
    by replace (Z.to_nat (Z.min (n - 0) (512 - Z.of_nat 0))) with (Z.to_nat 512) by lia.
  - unfold pipewrite. erewrite bind_eq by (apply pair_acquire; rewrite Hl; set_solver).
    unfold pipewrite_from. change (locked p c, ps) with (put (locked p c) ps (c, ps)).
    etransitivity; [exact E|]. unfold write_end. rewrite (proj2 (Z.leb_gt _ _)) by (unfold PS, PIPESIZE in *; simpl; lia).
    rewrite Ho, (proj2 (Z.eqb_neq _ _)) by done. cbn [negb orb].
    assert (Ec : unlocked p (locked p c) = c); [|by rewrite Ec].
    unfold unlocked, locked, set_locks. destruct c as [lk ? ? ? ?]. simpl in *.
    f_equal. rewrite Hl. set_solver.
Qed.

(** A pipe as [pipealloc] makes it, that no one uses yet. *)
Definition fresh (x : net) : Prop :=
  (∃ d, length d = PS ∧ snd (kst x) !! p = Some (mkPipe d 0 0 true true)) ∧
  pend x = ∅ ∧ sent x = [] ∧ got x = [] ∧
  ∀ ch j, ch = Ch_nread p ∨ ch = Ch_nwrite p → ¬ asleep_on ch (fst (kst x)) j.

Lemma fresh_pinv x : fresh x → pinv x.
Proof.
  intros ((d & Hd & Hq) & Hpd & Hs & Hg & Hsl). exists []. rewrite Hs, Hg, Hpd. split_and!; try done.
  - simpl. lia.
  - intros q ?. simplify_eq. by apply qrep_new.
  - intros j Hj. by destruct (Hsl (Ch_nwrite p) j (or_intror eq_refl)).
  - intros _ j Hj. by destruct (Hsl (Ch_nread p) j (or_introl eq_refl)).
Qed.

End Net.

(** ** The properties *)

(** [pipewrite] and [piperead] on a pipe that stands for the queue [Q]:
    from every state in which a process calls them they neither panic nor
    fault, and do what a bounded queue of 512 bytes does.  A write appends what
    fits and returns, fails (no reader, or killed) or sleeps; a read of an empty
    pipe with a writer fails or sleeps, and any other takes the first bytes. *)
Theorem pipe_refines_queue {St : Type} {LC : Lens St core} {LP : Lens St (gmap Z pipe)}
    {Sep : Separate St LC LP} p c ps (s : St) me pr q Q :
  ps !! p = Some q → qrep q Q → me_is c me pr → state pr = RUNNING → locks c = ∅ →
  (∀ addr n, n ≤ Z.of_nat (length addr) →
     ∃ q', qrep q' (Q ++ take (Z.to_nat (Z.min n (PIPESIZE - Z.of_nat (length Q)))) addr) ∧
       readopen q' = readopen q ∧ writeopen q' = writeopen q ∧
       pipewrite (LC := LC) (LP := LP) p addr n (put c ps s) =
         write_end p (locked p c) me pr q (Z.of_nat (length Q)) n n (<[p := q']> ps) s) ∧
  (∀ n, ∃ q', qrep q' (drop (Z.to_nat n) Q) ∧
       readopen q' = readopen q ∧ writeopen q' = writeopen q ∧
       piperead (LC := LC) (LP := LP) p n (put c ps s) =
         read_end p (locked p c) me pr q Q n ps (<[p := q']> ps) s).
Proof.
  intros Hq HQ Hme Hr Hl. split.
  - intros addr n Hn.
    destruct (write_loop_run p addr n me pr (S (Z.to_nat (n - 0))) 0 q Q (locked p c) ps s)
      as (q' & Hq' & Ho & Hw & _ & E); auto using lock_pipe; try lia.
    exists q'. rewrite Z.sub_0_r in *. split_and!; try done.
    unfold pipewrite. erewrite bind_eq by (apply put_acquire; rewrite Hl; set_solver).
    unfold pipewrite_from. by rewrite Z.sub_0_r.
  - intros n.
    destruct (read_loop_run p n me pr q Q (locked p c) ps s) as (q' & Hq' & Ho & Hw & E);
      auto using lock_pipe.
    exists q'. split_and!; try done. unfold piperead.
    by erewrite bind_eq by (apply put_acquire; rewrite Hl; set_solver).
Qed.

(** C6. However processes use a pipe, with any scheduling between their calls:
    the bytes read are a prefix of the bytes written, in order, the rest (at
    most 512 bytes) is in the pipe; a sleeping writer has a full pipe with a
    reader; and until some write has failed, a sleeping reader has an empty pipe
    with a writer, so that no wakeup is lost. *)
Theorem pipe_stream_correct p x0 x : fresh p x0 → rtc (pnet p) x0 x →
  ∃ Q, sent x = got x ++ Q ∧ (length Q ≤ PS)%nat ∧
    (∀ q, snd (kst x) !! p = Some q → qrep q Q) ∧
    (∀ j, asleep_on (Ch_nwrite p) (fst (kst x)) j →
       length Q = PS ∧ ∃ q, snd (kst x) !! p = Some q ∧ readopen q = true) ∧
    (gaveup x = false → ∀ j, asleep_on (Ch_nread p) (fst (kst x)) j →
       Q = [] ∧ ∃ q, snd (kst x) !! p = Some q ∧ writeopen q = true).
Proof.
  intros H0 Hs. assert (I : pinv p x).
  { apply fresh_pinv in H0. induction Hs; eauto using pnet_keeps. }
  destruct I as (Q & ? & ? & ? & ? & ? & _). by exists Q.
Qed.

(** ** Concrete runs *)

(** Process 0 has the CPU and 1 is ready; or 0 sleeps and 1 runs. *)
Definition ex_pg : Z := 4096.
Definition ex_who (st : procstate) (k : Z) : proc := set_killed k (set_state st proc0).
Definition ex_two (st0 st1 : procstate) (k : Z) (cu : nat) : core :=
  mkCore ∅ [ex_who st0 0; ex_who st1 k] 3 (Some 0%nat) (Some cu).
Definition ex_p0 : pipe := mkPipe (replicate PS 0) 0 0 true true.
Definition ex_x0 : net := mkNet (ex_two RUNNING RUNNABLE 0 0, {[ex_pg := ex_p0]}) ∅ [] [] false.

Definition ex_reader : net :=
  default ex_x0 (rec_read 0 3 ex_x0 (piperead ex_pg 3 (kst ex_x0))).
(** The scheduler gives the CPU to process 1, which may have been killed. *)
Definition ex_switch (k : Z) (x : net) : net :=
  mkNet (mkCore ∅ (alter (set_killed k ∘ set_state RUNNING) 1%nat (ptable (fst (kst x)))) 3
    (Some 0%nat) (Some 1%nat), snd (kst x)) (pend x) (sent x) (got x) (gaveup x).
Definition ex_write (addr : list Z) (x : net) : net :=
  default ex_x0 (rec_write ex_pg 1 addr (Z.of_nat (length addr)) 0 x
    (pipewrite ex_pg addr (Z.of_nat (length addr)) (kst x))).

Lemma ex_fresh : fresh ex_pg ex_x0.
Proof.
  split_and!; try done; [by exists (replicate PS 0)|].
  intros ch [|[|j]] _ (pr & Hp & Hs & _); by simplify_eq/=.
Qed.

Lemma ex_reader_steps k : rtc (pnet ex_pg) ex_x0 (ex_switch k ex_reader).
Proof.
  eapply rtc_l.
  { apply (N_read ex_pg 0 3 ex_x0 ex_reader); [|done|vm_compute; reflexivity].
    split_and!; [done|done|by eexists|by eexists]. }
  apply rtc_once, N_env. split; [done|]. intros ch j Hch (pr & Hp & Hs & Hc).
  destruct j as [|[|j]]; [by exists pr| |by destruct j].
  vm_compute in Hp. injection Hp as <-. discriminate Hs.
Qed.

Lemma ex_write_steps k addr :
  rec_write ex_pg 1 addr (Z.of_nat (length addr)) 0 (ex_switch k ex_reader)
    (pipewrite ex_pg addr (Z.of_nat (length addr)) (kst (ex_switch k ex_reader))) ≠ None →
  rtc (pnet ex_pg) ex_x0 (ex_write addr (ex_switch k ex_reader)).
Proof.
  intros H. eapply rtc_r; [apply (ex_reader_steps k)|].
  apply (N_write ex_pg 1 addr (Z.of_nat (length addr))); [|done|done|].
  - split_and!; [done|done|by eexists|by eexists].
  - unfold ex_write. by destruct (rec_write _ _ _ _ _ _ _).
Qed.

Lemma pipe_stream_correct_witness : ∃ x, rtc (pnet ex_pg) ex_x0 x ∧ sent x = [7; 8] ∧
  ¬ asleep_on (Ch_nread ex_pg) (fst (kst x)) 0.
Proof.
  exists (ex_write [7; 8] (ex_switch 0 ex_reader)). split; [apply ex_write_steps; vm_compute; done|].
  split; [vm_compute; reflexivity|]. intros Ha.
  destruct (pipe_stream_correct ex_pg ex_x0 (ex_write [7; 8] (ex_switch 0 ex_reader))) as (Q & HQ & _ & _ & _ & Hw).
  - exact ex_fresh.
  - apply ex_write_steps. vm_compute. done.
  - destruct (Hw ltac:(vm_compute; reflexivity) _ Ha) as [-> _]. vm_compute in HQ. discriminate.
Defined.

Lemma pipe_refines_queue_witness : ∃ q',
  qrep q' [7; 8] ∧ 
  pipewrite ex_pg [7; 8] 2 (kst ex_x0) = Ret 2 (put (unlocked ex_pg (wakes (Ch_nread ex_pg) (locked ex_pg (fst (kst ex_x0))))) {[ex_pg := q']} (kst ex_x0)).
Proof.
  destruct (pipe_refines_queue (LC := lens_fst) (LP := lens_snd) ex_pg (fst (kst ex_x0)) (snd (kst ex_x0)) (kst ex_x0) 0
    (ex_who RUNNING 0) ex_p0 []) as [Hw _].
  - reflexivity.
  - by apply qrep_new.
  - done.
  - done.
  - done.
  - destruct (Hw [7; 8] 2) as (q' & Hq' & _ & _ & E); [done|]. exists q'. split; [exact Hq'|].
    etransitivity; [exact E|]. reflexivity.
Defined.

(** C40. A wakeup can be lost.  In whatever state processes have brought a pipe to,
    with a reader [j] asleep on it and no write failed so far: let a killed
    process write more than 512 bytes, the read end open.  The write fills the
    pipe and returns -1, and nobody wakes the reader: it sleeps on, with 512
    bytes waiting for it, both ends open and the pipe's lock free. *)
Theorem pipe_lost_wakeup p x0 x me pr j addr n q :
  fresh p x0 → rtc (pnet p) x0 x → gaveup x = false →
  asleep_on (Ch_nread p) (fst (kst x)) j → snd (kst x) !! p = Some q → readopen q = true →
  on_cpu p (kst x) me ∅ → pend x !! me = None → ptable (fst (kst x)) !! me = Some pr → killed pr ≠ 0 →
  Z.of_nat PS < n ≤ Z.of_nat (length addr) →
  ∃ x' q', pipewrite p addr n (kst x) = Ret (-1) (kst x') ∧ pnet p x x' ∧ rtc (pnet p) x0 x' ∧
    asleep_on (Ch_nread p) (fst (kst x')) j ∧ locks (fst (kst x')) = ∅ ∧
    snd (kst x') !! p = Some q' ∧ qrep q' (take PS addr) ∧ readopen q' = true ∧ writeopen q' = true ∧
    sent x' = sent x ++ take PS addr ∧ got x' = got x ∧ sent x = got x.
Proof.
  intros H0 Hs Hg Hj Hq Hro Hon Hpd Hpr Hk [Hn Hna].
  assert (I : pinv p x). { apply fresh_pinv in H0. clear -H0 Hs. induction Hs; eauto using pnet_keeps. }
  destruct I as (Q & HQs & _ & HQ & _ & Hr & _). destruct (Hr Hg j Hj) as (-> & q1 & Hq1 & Hwo).
  simplify_eq. specialize (HQ q Hq).
  pose proof (killed_write p (kst x) me pr q addr n Hon Hpr Hk Hq HQ Hro (conj Hn Hna)) as (q' & HQ' & Ho' & Hw' & Hnr & R).
  set (s' := (fst (kst x), <[p := q']> (snd (kst x)))) in *.
  assert (Hwc : wcount p (kst x) s' = Z.of_nat PS).
  { rewrite (wcount_push p _ s' q q' [] (take PS addr)); try done; [|by apply lookup_insert_eq].
    rewrite length_take. lia. }
  assert (St : pnet p x (mkNet s' (delete me (pend x)) (sent x ++ take PS addr) (got x) true)).
  { eapply (N_write p me addr n); [done..|]. rewrite R. unfold rec_write. rewrite Hwc, Hg. done. }
  eexists (mkNet s' _ _ _ _), q'. split; [exact R|]. split; [exact St|]. split; [by eapply rtc_r|].
  rewrite app_nil_r in HQs. destruct Hon as (_ & Hl & _).
  split_and!; [done|done|apply lookup_insert_eq|done|congruence|congruence|done..].
Qed.

Lemma pipe_lost_wakeup_witness : ∃ x, rtc (pnet ex_pg) ex_x0 x ∧
  asleep_on (Ch_nread ex_pg) (fst (kst x)) 0 ∧ sent x = replicate PS 65 ∧ got x = [].
Proof.
  destruct (pipe_lost_wakeup ex_pg ex_x0 (ex_switch 1 ex_reader) 1 (set_state RUNNING (ex_who RUNNABLE 1)) 0
    (replicate 600 65) 600 ex_p0) as (x' & q' & _ & _ & H & Hj & _ & _ & _ & _ & _ & Hse & Hgo & _).
  - exact ex_fresh.
  - apply ex_reader_steps.
  - reflexivity.
  - eexists. split_and!; [vm_compute; reflexivity|done|done].
  - reflexivity.
  - reflexivity.
  - split_and!; [done|done|by eexists|by eexists].
  - reflexivity.
  - reflexivity.
  - done.
  - split; [reflexivity|by vm_compute].
  - exists x'. split_and!; [exact H|exact Hj|rewrite Hse; reflexivity|rewrite Hgo; reflexivity].
Defined.
