(* ===== verification/File.v ===== *)
(** * Open files (file.c) and [pipealloc] (pipe.c)

    The file table, over the file system and the pipes.  [fileread] returns the
    bytes it stores at [addr] along with its result; [filewrite] takes the bytes
    at [addr]. *)
From S2P Require Import Prelude Spinlock Core Bio Log Fs Pipe.

Definition NFILE : nat := 100.

Inductive filetype := FD_NONE | FD_PIPE | FD_INODE.
#[export] Instance filetype_eq_dec : EqDecision filetype.
Proof. solve_decision. Defined.

(** [struct file]. *)
Record file := mkFile {
  f_type : filetype; f_ref : Z; f_readable : bool; f_writable : bool;
  f_pipe : Z; f_ip : nat; f_off : Z }.
Definition file0 : file := mkFile FD_NONE 0 false false 0 0 0.
Definition set_f_ref v f := mkFile (f_type f) v (f_readable f) (f_writable f) (f_pipe f) (f_ip f) (f_off f).
Definition set_f_type v f := mkFile v (f_ref f) (f_readable f) (f_writable f) (f_pipe f) (f_ip f) (f_off f).
Definition set_f_off v f := mkFile (f_type f) (f_ref f) (f_readable f) (f_writable f) (f_pipe f) (f_ip f) v.
(** [pipealloc] on an end of the pipe. *)
Definition open_pipe (r w : bool) (p : Z) f := mkFile FD_PIPE (f_ref f) r w p (f_ip f) (f_off f).
(** [sys_open] on the file of inode [ip]. *)
Definition open_inode (ip : nat) (r w : bool) f := mkFile FD_INODE (f_ref f) r w (f_pipe f) ip 0.

(** [ftable.file] and the pipes. *)
Record filest := mkFiles { ftable : list file; pipes : gmap Z pipe }.
Definition files0 : filest := mkFiles (replicate NFILE file0) ∅.
Definition set_ftable v s := mkFiles v (pipes s).
Definition set_pipes v s := mkFiles (ftable s) v.

(** [filealloc]'s search. *)
Fixpoint free_file (l : list file) (i : nat) : option nat :=
  match l with
  | [] => None
  | f :: l' => if f_ref f =? 0 then Some i else free_file l' (S i)
  end.

Section File.
Context {Ext : Type}.
Abbreviation K := (core * (bio * (logst * (list inode * (filest * Ext)))))%type.
Context (devsw : Z → option ((nat → Z → M K (Z * list Z)) * (nat → list Z → Z → M K Z))).
Context (kalloc : M K Z) (kfree : Z → M K unit).

#[local] Program Instance K_pipes : Lens K (gmap Z pipe) | 1 :=
  {| lget s := pipes (fst (snd (snd (snd (snd s)))));
     lset q s := (fst s, (fst (snd s), (fst (snd (snd s)), (fst (snd (snd (snd s))),
       (set_pipes q (fst (snd (snd (snd (snd s))))), snd (snd (snd (snd (snd s))))))))) |}.
Solve All Obligations with
  (intros; repeat match goal with
    | p : _ * _ |- _ => destruct p | f : filest |- _ => destruct f end; done).

Definition getft {A} (f : list file → A) : M K A :=
  gets (λ s : K, f (ftable (fst (snd (snd (snd (snd s))))))).
Definition modft (f : list file → list file) : M K unit :=
  modify (λ s : K, (fst s, (fst (snd s), (fst (snd (snd s)), (fst (snd (snd (snd s))),
    (set_ftable (f (ftable (fst (snd (snd (snd (snd s))))))) (fst (snd (snd (snd (snd s))))),
     snd (snd (snd (snd (snd s)))))))))).
Definition getf {A} (i : nat) (f : file → A) : M K A :=
  o ← getft (λ t, t !! i); x ← deref o; mret (f x).
Definition setf (i : nat) (f : file → file) : M K unit := modft (alter f i).

Definition filealloc : M K (option nat) :=
  acquire L_ftable ;;
  o ← getft (λ t, free_file t 0);
  match o with
  | Some f => setf f (set_f_ref 1) ;; release L_ftable ;; mret (Some f)
  | None => release L_ftable ;; mret None
  end.

Definition filedup (f : nat) : M K nat :=
  acquire L_ftable ;;
  r ← getf f f_ref;
  if r <? 1 then panic "filedup" else
  setf f (set_f_ref (r + 1)) ;;
  release L_ftable ;;
  mret f.

Definition fileclose (f : nat) : M K unit :=
  acquire L_ftable ;;
  r ← getf f f_ref;
  if r <? 1 then panic "fileclose" else
  setf f (set_f_ref (r - 1)) ;;
  if 0 <? r - 1 then release L_ftable
  else
    ff ← getf f (λ x, x);
    setf f (set_f_ref 0) ;;
    setf f (set_f_type FD_NONE) ;;
    release L_ftable ;;
    match f_type ff with
    | FD_PIPE => pipeclose kfree (f_pipe ff) (f_writable ff)
    | FD_INODE => begin_trans ;; iput (f_ip ff) ;; commit_trans
    | FD_NONE => mret ()
    end.

Definition filestat (f : nat) : M K (Z * option stat) :=
  t ← getf f f_type;
  match t with
  | FD_INODE =>
      ip ← getf f f_ip;
      ilock (Some ip) ;;
      st ← stati ip;
      iunlock (Some ip) ;;
      mret (0, Some st)
  | _ => mret (-1, None)
  end.

Definition fileread (f : nat) (n : Z) : M K (Z * list Z) :=
  rd ← getf f f_readable;
  if negb rd then mret (-1, []) else
  t ← getf f f_type;
  match t with
  | FD_PIPE => p ← getf f f_pipe; piperead p n
  | FD_INODE =>
      ip ← getf f f_ip;
      ilock (Some ip) ;;
      off ← getf f f_off;
      r ← readi devsw ip off (u32 n);
      when (0 <? fst r) (setf f (λ x, set_f_off (u32 (f_off x + fst r)) x)) ;;
      iunlock (Some ip) ;;
      mret r
  | FD_NONE => panic "fileread"
  end.

(** [max] of [filewrite]. *)
Definition write_max : Z := Z.quot (Z.of_nat LOGSIZE - 1 - 1 - 2) 2 * 512.

Fixpoint filewrite_loop (fuel : nat) (f ip : nat) (addr : list Z) (n i : Z) : M K Z :=
  match fuel with
  | O => fault
  | S fu =>
      if i <? n then
        let n1 := if write_max <? n - i then write_max else n - i in
        begin_trans ;;
        ilock (Some ip) ;;
        off ← getf f f_off;
        r ← writei devsw ip (drop (Z.to_nat i) addr) off n1;
        when (0 <? r) (setf f (λ x, set_f_off (u32 (f_off x + r)) x)) ;;
        iunlock (Some ip) ;;
        commit_trans ;;
        if r <? 0 then mret (if i =? n then n else -1) else
        if negb (r =? n1) then panic "short filewrite" else
        filewrite_loop fu f ip addr n (i + r)
      else mret (if i =? n then n else -1)
  end.
Definition filewrite (f : nat) (addr : list Z) (n : Z) : M K Z :=
  wr ← getf f f_writable;
  if negb wr then mret (-1) else
  t ← getf f f_type;
  match t with
  | FD_PIPE => p ← getf f f_pipe; pipewrite p addr n
  | FD_INODE =>
      ip ← getf f f_ip;
      filewrite_loop (S (S (Z.to_nat (n / write_max)))) f ip addr n 0
  | FD_NONE => panic "filewrite"
  end.

(** *** [pipealloc] *)

Definition close_opt (o : option nat) : M K unit :=
  match o with Some f => fileclose f | None => mret () end.

(** The result and the two files it stores. *)
Definition pipealloc : M K (Z * option nat * option nat) :=
  o0 ← filealloc;
  match o0 with
  | None => mret (-1, None, None)
  | Some f0 =>
      o1 ← filealloc;
      match o1 with
      | None => fileclose f0 ;; mret (-1, Some f0, None)
      | Some f1 =>
          p ← kalloc;
          if p =? 0 then
            fileclose f0 ;; fileclose f1 ;; mret (-1, Some f0, Some f1)
          else
            modify (λ s : K, lset (<[p := mkPipe (replicate (Z.to_nat PIPESIZE) 0) 0 0 true true]>
                                     (lget s : gmap Z pipe)) s) ;;
            setf f0 (open_pipe true false p) ;;
            setf f1 (open_pipe false true p) ;;
            mret (0, Some f0, Some f1)
      end
  end.

End File.
