(* ===== verification/Syscall.v ===== *)
(** * System call arguments and dispatch (syscall.c)

    Loads from user addresses go through the current page table, which is the
    hardware's; [uload] is that load of one byte; [cprintf] is console.c's.  The pointers the functions
    store are returned next to their result; a string argument comes back as
    its bytes with the terminating zero. *)
From S2P Require Import Prelude Spinlock Core CString Console.

Section Syscall.
Context {St : Type} `{LC : !Lens St core}.
Context (uload : Z → M St Z) (cprintf : list Z → list arg → M St unit).

Fixpoint uloads (a : Z) (n : nat) : M St (list Z) :=
  match n with
  | O => mret []
  | S n' => b ← uload a; bs ← uloads (u32 (a + 1)) n'; mret (b :: bs)
  end.

(** [proc->...] *)
Definition my {A} (f : proc → A) : M St A := p ← myproc; getp p f.

(** The result and [*ip]. *)
Definition fetchint (addr : Z) : M St (Z * Z) :=
  s ← my sz;
  if (s <=? addr) || (s <? u32 (addr + 4)) then mret (-1, 0) else
  bs ← uloads addr 4;
  mret (0, i32 (le_val bs)).

(** The scan for the terminator: [s - *pp], or -1 at the end of the process. *)
Fixpoint fetchstr_loop (fuel : nat) (s ep len : Z) : M St Z :=
  match fuel with
  | O => fault
  | S f =>
      if s <? ep then
        c ← uload s;
        if c =? 0 then mret len else fetchstr_loop f (s + 1) ep (len + 1)
      else mret (-1)
  end.
Definition fetchstr (addr : Z) : M St (Z * Z) :=
  s ← my sz;
  if s <=? addr then mret (-1, 0) else
  r ← fetchstr_loop (S (Z.to_nat (s - addr))) addr s 0;
  mret (r, addr).

Definition argint (n : Z) : M St (Z * Z) :=
  esp ← my (λ p, tf_esp (tf p));
  fetchint (u32 (esp + 4 + 4 * n)).

Definition argptr (n size : Z) : M St (Z * Z) :=
  r ← argint n;
  if fst r <? 0 then mret (-1, 0) else
  let i := u32 (snd r) in
  s ← my sz;
  if (s <=? i) || (s <? u32 (i + size)) then mret (-1, 0) else mret (0, i).

Definition argstr (n : Z) : M St (Z * Z) :=
  r ← argint n;
  if fst r <? 0 then mret (-1, 0) else fetchstr (u32 (snd r)).
(** The string itself, as the code that got the pointer reads it. *)
Definition argpath (n : Z) : M St (Z * list Z) :=
  r ← argstr n;
  if fst r <? 0 then mret (fst r, []) else
  s ← uloads (snd r) (S (Z.to_nat (fst r)));
  mret (fst r, s).

(** *** Dispatch *)

Definition NSYSCALLS : Z := 22.

(** [p->tf->eax = v] *)
Definition set_eax (p : nat) (v : Z) : M St unit :=
  setp p (λ q, set_tf (let t := tf q in
    mkTf (tf_edi t) (tf_esi t) (tf_ebp t) (tf_oesp t) (tf_ebx t) (tf_edx t) (tf_ecx t) v
         (tf_gs t) (tf_fs t) (tf_es t) (tf_ds t) (tf_trapno t) (tf_err t) (tf_eip t)
         (tf_cs t) (tf_eflags t) (tf_esp t) (tf_ss t)) q).

(** [syscalls] is the table; entry 0 is a null pointer. *)
Definition syscall (syscalls : list (option (M St Z))) : M St unit :=
  p ← myproc;
  num ← getp p (λ q, i32 (tf_eax (tf q)));
  match (if (0 <? num) && (num <? NSYSCALLS) then syscalls !! Z.to_nat num else None) with
  | Some (Some f) => r ← f; set_eax p (u32 r)
  | _ =>
      pid ← getp p pid; nm ← getp p name;
      cprintf (chars "%d %s: unknown sys call %d" ++ [NL])
        [AInt pid; AStr (Some (Str.cstr nm)); AInt num] ;;
      set_eax p (u32 (-1))
  end.

(** The rest of [syscall] when the call slept: [f] is what the call does once the
    process has the CPU back, one of the functions with [_resume] in its name. *)
Definition syscall_resume (f : M St Z) : M St unit :=
  r ← f; p ← myproc; set_eax p (u32 r).

End Syscall.
