(* ===== verification/Trap.v ===== *)
(** * Traps, ticks and the process system calls (trap.c, sysproc.c)

    [ticks] is the first component of the state above [core].  Device
    handlers, the local APIC and the system call table are given to [trap]; the
    gate setup of [tvinit] is data. *)
From S2P Require Import Prelude Spinlock Core CString Proc Console Syscall.

Definition T_SYSCALL : Z := 64.
Definition T_IRQ0 : Z := 32.
Definition IRQ_TIMER : Z := 0.
Definition IRQ_KBD : Z := 1.
Definition IRQ_COM1 : Z := 4.
Definition IRQ_IDE : Z := 14.
Definition IRQ_SPURIOUS : Z := 31.
Definition STS_IG32 : Z := 14.
Definition STS_TG32 : Z := 15.

(** [struct gatedesc]. *)
Record gatedesc := mkGate {
  g_off_15_0 : Z; g_cs : Z; g_args : Z; g_rsv1 : Z; g_type : Z; g_s : Z; g_dpl : Z;
  g_p : Z; g_off_31_16 : Z }.
(** [SETGATE]. *)
Definition SETGATE (istrap : bool) (sel off d : Z) : gatedesc :=
  mkGate (Z.land off 0xffff) sel 0 0 (if istrap then STS_TG32 else STS_IG32) 0 d 1 (Z.shiftr off 16).
(** [idt] after [tvinit], for the entry points of vectors.S. *)
Definition tvinit (vectors : nat → Z) : list gatedesc :=
  <[Z.to_nat T_SYSCALL := SETGATE true (Z.shiftl 1 3) (vectors (Z.to_nat T_SYSCALL)) DPL_USER]>
    ((λ i, SETGATE false (Z.shiftl 1 3) (vectors i) 0) <$> seq 0 256).

(** The three halves [lidt] gives the processor, and [idtinit]: the register for
    a table of 256 gates at address [idt]. *)
Definition lidt (p size : Z) : list Z := [u16 (size - 1); u16 p; u16 (Z.shiftr p 16)].
Definition idtinit (idt : Z) : list Z := lidt idt (256 * 8).

Section Trap.
Context {E : Type} `{KE : !KernelEnv (Z * E)}.
Abbreviation K := (core * (Z * E))%type.
Context (uload : Z → M K Z) (cprintf : list Z → list arg → M K unit).

Definition get_ticks : M K Z := gets (λ s : K, fst (snd s)).
Definition set_ticks (v : Z) : M K unit := modify (λ s : K, (fst s, (v, snd (snd s)))).

(** *** sysproc.c *)

Definition sys_kill : M K Z :=
  r ← argint uload 0;
  if fst r <? 0 then mret (-1) else kill (snd r).

Definition sys_sbrk : M K Z :=
  r ← argint uload 0;
  if fst r <? 0 then mret (-1) else
  me ← myproc; addr ← getp me (λ p, i32 (sz p));
  g ← growproc (snd r);
  if g <? 0 then mret (-1) else mret addr.

(** [sys_sleep] from its [while], [tickslock] held; the process resumes with
    the same [n] and [ticks0]. *)
Definition sys_sleep_loop (n ticks0 : Z) : M K Z :=
  t ← get_ticks;
  if u32 (t - ticks0) <? u32 n then
    me ← myproc; k ← getp me killed;
    if negb (k =? 0) then release L_tick ;; mret (-1)
    else sleep Ch_ticks L_tick ;; mret 0 (* not reached: [sleep] blocks *)
  else release L_tick ;; mret 0.
Definition sys_sleep : M K Z :=
  r ← argint uload 0;
  if fst r <? 0 then mret (-1) else
  acquire L_tick ;;
  t ← get_ticks;
  sys_sleep_loop (snd r) t.
Definition sys_sleep_resume (n ticks0 : Z) : M K Z :=
  sleep_resume L_tick ;; sys_sleep_loop n ticks0.

Definition sys_uptime : M K Z :=
  acquire L_tick ;;
  xticks ← get_ticks;
  release L_tick ;;
  mret (i32 xticks).

(** *** [trap] *)

Context (cpuid : Z) (rcr2 : Z).
Context (ideintr kbdintr uartintr lapiceoi : M K unit) (syscalls : list (option (M K Z))).

(** [proc && ...] *)
Definition with_proc (f : proc → bool) : M K bool :=
  o ← getc cur;
  match o with None => mret false | Some p => getp p f end.

Definition user_mode (t : trapframe) : bool := Z.land (tf_cs t) 3 =? DPL_USER.

Definition timer_tick : M K unit :=
  when (cpuid =? 0)
    (acquire L_tick ;;
     t ← get_ticks; set_ticks (u32 (t + 1)) ;;
     wakeup Ch_ticks ;;
     release L_tick) ;;
  lapiceoi.

(** A trap it cannot handle while in the kernel. *)
Definition trap_in_kernel (t : trapframe) : M K unit :=
  cprintf (chars "unexpected trap %d from cpu %d eip %x (cr2=0x%x)" ++ [NL])
    [AInt (tf_trapno t); AInt cpuid; AInt (tf_eip t); AInt rcr2] ;;
  panic "trap".

(** The [switch]. *)
Definition trap_switch (t : trapframe) : M K unit :=
  let n := tf_trapno t in
  if n =? T_IRQ0 + IRQ_TIMER then timer_tick
  else if n =? T_IRQ0 + IRQ_IDE then ideintr ;; lapiceoi
  else if n =? T_IRQ0 + IRQ_IDE + 1 then mret ()
  else if n =? T_IRQ0 + IRQ_KBD then kbdintr ;; lapiceoi
  else if n =? T_IRQ0 + IRQ_COM1 then uartintr ;; lapiceoi
  else if (n =? T_IRQ0 + 7) || (n =? T_IRQ0 + IRQ_SPURIOUS) then
    cprintf (chars "cpu%d: spurious interrupt at %x:%x" ++ [NL])
      [AInt cpuid; AInt (tf_cs t); AInt (tf_eip t)] ;;
    lapiceoi
  else
    o ← getc cur;
    match o with
    | Some p =>
        if Z.land (tf_cs t) 3 =? 0 then
          trap_in_kernel t
        else
          pid ← getp p pid; nm ← getp p name;
          cprintf (chars "pid %d %s: trap %d err %d on cpu %d eip 0x%x addr 0x%x--kill proc" ++ [NL])
            [AInt pid; AStr (Some (Str.cstr nm)); AInt n; AInt (tf_err t); AInt cpuid;
             AInt (tf_eip t); AInt rcr2] ;;
          setp p (set_killed 1)
    | None => trap_in_kernel t
    end.

(** After the [switch], and after a [yield] returned. *)
Definition trap_exit_check (t : trapframe) : M K unit :=
  k ← with_proc (λ p, negb (killed p =? 0) && user_mode t);
  when k exit.

(** After [syscall]. *)
Definition trap_syscall_check (me : nat) : M K unit :=
  k ← getp me killed;
  when (negb (k =? 0)) exit.

Definition trap (t : trapframe) : M K unit :=
  if tf_trapno t =? T_SYSCALL then
    me ← myproc;
    k ← getp me killed;
    when (negb (k =? 0)) exit ;;
    setp me (set_tf t) ;;
    syscall cprintf syscalls ;;
    trap_syscall_check me
  else
    trap_switch t ;;
    trap_exit_check t ;;
    y ← with_proc (λ p, bool_decide (state p = RUNNING) && (tf_trapno t =? T_IRQ0 + IRQ_TIMER));
    when y yield ;;
    trap_exit_check t.
(** The rest of [trap] once the process runs again after [yield]. *)
Definition trap_resume (t : trapframe) : M K unit := yield_resume ;; trap_exit_check t.
(** The rest of [trap] for a system call that slept, from when its process runs
    again; [f] is the rest of the call.  It may sleep again, and then this is
    also what follows that. *)
Definition trap_syscall_resume (f : M K Z) : M K unit :=
  syscall_resume f ;; me ← myproc; trap_syscall_check me.

End Trap.
