(* ===== verification/Sysfile.v ===== *)
(** * File-system calls (sysfile.c)

    Argument checks and the calls into file.c and fs.c.  [uload] and [ustore]
    are loads and stores at user addresses, [exec] is exec.c's. *)
From S2P Require Import Prelude Spinlock Core Bio Log CString Fs Pipe File Syscall.

Definition O_RDONLY : Z := 0.
Definition O_WRONLY : Z := 1.
Definition O_RDWR : Z := 2.
Definition O_CREATE : Z := 0x200.
Definition MAXARG : nat := 32.
Definition SIZEOF_STAT : Z := 20.
Definition dot : list Z := [46; 0].
Definition dotdot : list Z := [46; 46; 0].

Section Sysfile.
Context {Ext : Type}.
Abbreviation K := (core * (bio * (logst * (list inode * (filest * Ext)))))%type.
Context (devsw : Z → option ((nat → Z → M K (Z * list Z)) * (nat → list Z → Z → M K Z))).
Context (kalloc : M K Z) (kfree : Z → M K unit).
Context (uload : Z → M K Z) (ustore : Z → list Z → M K unit).
Context (exec : list Z → list (list Z) → M K Z).

(** The result, the descriptor and the file. *)
Definition argfd (n : Z) : M K (Z * Z * nat) :=
  r ← argint uload n;
  if fst r <? 0 then mret (-1, 0, 0%nat) else
  let fd := snd r in
  if (fd <? 0) || (Z.of_nat NOFILE <=? fd) then mret (-1, 0, 0%nat) else
  me ← myproc;
  o ← getp me (λ p, ofile p !! Z.to_nat fd); fo ← deref o;
  match fo with
  | None => mret (-1, 0, 0%nat)
  | Some f => mret (0, fd, f)
  end.

Fixpoint free_fd (l : list (option nat)) (fd : nat) : option nat :=
  match l with
  | [] => None
  | None :: _ => Some fd
  | Some _ :: l' => free_fd l' (S fd)
  end.
Definition fdalloc (f : nat) : M K Z :=
  me ← myproc;
  o ← getp me (λ p, free_fd (take NOFILE (ofile p)) 0);
  match o with
  | Some fd => setp me (λ p, set_ofile (<[fd := Some f]> (ofile p)) p) ;; mret (Z.of_nat fd)
  | None => mret (-1)
  end.
Definition clear_fd (fd : Z) : M K unit :=
  me ← myproc; setp me (λ p, set_ofile (<[Z.to_nat fd := None]> (ofile p)) p).

Definition sys_dup : M K Z :=
  a ← argfd 0;
  if fst (fst a) <? 0 then mret (-1) else
  fd ← fdalloc (snd a);
  if fd <? 0 then mret (-1) else
  filedup (snd a) ;;
  mret fd.

(** The arguments of [read] and [write]: descriptor, buffer, count. *)
Definition arg_rw : M K (Z * nat * Z * Z) :=
  a ← argfd 0;
  if fst (fst a) <? 0 then mret (-1, 0%nat, 0, 0) else
  n ← argint uload 2;
  if fst n <? 0 then mret (-1, 0%nat, 0, 0) else
  p ← argptr uload 1 (snd n);
  if fst p <? 0 then mret (-1, 0%nat, 0, 0) else
  mret (0, snd a, snd p, snd n).

Definition sys_read : M K Z :=
  a ← arg_rw;
  let '(r, f, p, n) := a in
  if r <? 0 then mret (-1) else
  res ← fileread devsw f n;
  ustore p (snd res) ;;
  mret (fst res).

Definition sys_write : M K Z :=
  a ← arg_rw;
  let '(r, f, p, n) := a in
  if r <? 0 then mret (-1) else
  src ← uloads uload p (Z.to_nat n);
  filewrite devsw f src n.

Definition sys_close : M K Z :=
  a ← argfd 0;
  let '(r, fd, f) := a in
  if r <? 0 then mret (-1) else
  clear_fd fd ;;
  fileclose kfree f ;;
  mret 0.

(** The fields of a [struct stat] in user memory. *)
Definition store_stat (p : Z) (st : stat) : M K unit :=
  ustore p (le_bytes 2 (u16 (st_type st))) ;;
  ustore (p + 4) (le_bytes 4 (u32 (st_dev st))) ;;
  ustore (p + 8) (le_bytes 4 (st_ino st)) ;;
  ustore (p + 12) (le_bytes 2 (u16 (st_nlink st))) ;;
  ustore (p + 16) (le_bytes 4 (st_size st)).
Definition sys_fstat : M K Z :=
  a ← argfd 0;
  if fst (fst a) <? 0 then mret (-1) else
  p ← argptr uload 1 SIZEOF_STAT;
  if fst p <? 0 then mret (-1) else
  r ← filestat (snd a);
  match snd r with
  | Some st => store_stat (snd p) st ;; mret (fst r)
  | None => mret (fst r)
  end.

(** [bad:] of [sys_link]. *)
Definition link_bad (ip : nat) : M K Z :=
  ilock (Some ip) ;;
  seti ip (λ i, set_i_nlink (i16 (i_nlink i - 1)) i) ;;
  iupdate ip ;;
  iunlockput ip ;;
  commit_trans ;;
  mret (-1).
Definition sys_link : M K Z :=
  old ← argpath uload 0;
  if fst old <? 0 then mret (-1) else
  new ← argpath uload 1;
  if fst new <? 0 then mret (-1) else
  o ← namei devsw (snd old);
  match o with
  | None => mret (-1)
  | Some ip =>
      begin_trans ;;
      ilock (Some ip) ;;
      t ← geti ip i_type;
      if t =? T_DIR then iunlockput ip ;; commit_trans ;; mret (-1) else
      seti ip (λ i, set_i_nlink (i16 (i_nlink i + 1)) i) ;;
      iupdate ip ;;
      iunlock (Some ip) ;;
      r ← nameiparent devsw (snd new) (replicate DIRSIZ 0);
      match fst r with
      | None => link_bad ip
      | Some dp =>
          ilock (Some dp) ;;
          d1 ← geti dp i_dev; d2 ← geti ip i_dev; inum ← geti ip i_inum;
          l ← (if negb (d1 =? d2) then mret (-1) else dirlink devsw dp (snd r) inum);
          if l <? 0 then iunlockput dp ;; link_bad ip else
          iunlockput dp ;;
          iput ip ;;
          commit_trans ;;
          mret 0
      end
  end.

Fixpoint isdirempty_loop (fuel : nat) (dp : nat) (off : Z) : M K bool :=
  match fuel with
  | O => fault
  | S f =>
      s ← geti dp i_size;
      if off <? s then
        r ← readi devsw dp off DIRENT;
        if negb (fst r =? DIRENT) then panic "isdirempty: readi" else
        if negb (de_inum (snd r) =? 0) then mret false else isdirempty_loop f dp (off + DIRENT)
      else mret true
  end.
Definition isdirempty (dp : nat) : M K bool :=
  s ← geti dp i_size;
  isdirempty_loop (S (S (Z.to_nat (s / DIRENT)))) dp (2 * DIRENT).

(** [bad:] of [sys_unlink]. *)
Definition unlink_bad (dp : nat) : M K Z := iunlockput dp ;; commit_trans ;; mret (-1).
Definition sys_unlink : M K Z :=
  path ← argpath uload 0;
  if fst path <? 0 then mret (-1) else
  r ← nameiparent devsw (snd path) (replicate DIRSIZ 0);
  match fst r with
  | None => mret (-1)
  | Some dp =>
      let name := snd r in
      begin_trans ;;
      ilock (Some dp) ;;
      c1 ← deref (namecmp name dot); c2 ← deref (namecmp name dotdot);
      if (c1 =? 0) || (c2 =? 0) then unlink_bad dp else
      o ← dirlookup devsw dp name;
      match o with
      | None => unlink_bad dp
      | Some (ip, off) =>
          ilock (Some ip) ;;
          n ← geti ip i_nlink;
          if n <? 1 then panic "unlink: nlink < 1" else
          t ← geti ip i_type;
          e ← (if t =? T_DIR then isdirempty ip else mret true);
          if (t =? T_DIR) && negb e then iunlockput ip ;; unlink_bad dp else
          w ← writei devsw dp (replicate (Z.to_nat DIRENT) 0) off DIRENT;
          if negb (w =? DIRENT) then panic "unlink: writei" else
          when (t =? T_DIR)
            (seti dp (λ i, set_i_nlink (i16 (i_nlink i - 1)) i) ;; iupdate dp) ;;
          iunlockput dp ;;
          seti ip (λ i, set_i_nlink (i16 (i_nlink i - 1)) i) ;;
          iupdate ip ;;
          iunlockput ip ;;
          commit_trans ;;
          mret 0
      end
  end.

Definition create (path : list Z) (type major minor : Z) : M K (option nat) :=
  r ← nameiparent devsw path (replicate DIRSIZ 0);
  match fst r with
  | None => mret None
  | Some dp =>
      let name := snd r in
      ilock (Some dp) ;;
      o ← dirlookup devsw dp name;
      match o with
      | Some (ip, _) =>
          iunlockput dp ;;
          ilock (Some ip) ;;
          t ← geti ip i_type;
          if (type =? T_FILE) && (t =? T_FILE) then mret (Some ip)
          else iunlockput ip ;; mret None
      | None =>
          dev ← geti dp i_dev;
          ip ← ialloc dev type;
          ilock (Some ip) ;;
          seti ip (set_i_devno major minor) ;;
          seti ip (set_i_nlink 1) ;;
          iupdate ip ;;
          inum ← geti ip i_inum; dinum ← geti dp i_inum;
          when (type =? T_DIR)
            (seti dp (λ i, set_i_nlink (i16 (i_nlink i + 1)) i) ;;
             iupdate dp ;;
             l1 ← dirlink devsw ip dot inum;
             l2 ← (if l1 <? 0 then mret (-1) else dirlink devsw ip dotdot dinum);
             if l2 <? 0 then panic "create dots" else mret ()) ;;
          l ← dirlink devsw dp name inum;
          if l <? 0 then panic "create: dirlink" else
          iunlockput dp ;;
          mret (Some ip)
      end
  end.

(** The part of [sys_open] after the inode is found and locked. *)
Definition open_file (ip : nat) (omode : Z) : M K Z :=
  o ← filealloc;
  match o with
  | None => iunlockput ip ;; mret (-1)
  | Some f =>
      fd ← fdalloc f;
      if fd <? 0 then fileclose kfree f ;; iunlockput ip ;; mret (-1) else
      iunlock (Some ip) ;;
      let wronly := negb (Z.land omode O_WRONLY =? 0) in
      setf f (open_inode ip (negb wronly) (wronly || negb (Z.land omode O_RDWR =? 0))) ;;
      mret fd
  end.
Definition sys_open : M K Z :=
  path ← argpath uload 0;
  if fst path <? 0 then mret (-1) else
  m ← argint uload 1;
  if fst m <? 0 then mret (-1) else
  let omode := snd m in
  if negb (Z.land omode O_CREATE =? 0) then
    begin_trans ;;
    o ← create (snd path) T_FILE 0 0;
    commit_trans ;;
    match o with None => mret (-1) | Some ip => open_file ip omode end
  else
    o ← namei devsw (snd path);
    match o with
    | None => mret (-1)
    | Some ip =>
        ilock (Some ip) ;;
        t ← geti ip i_type;
        if (t =? T_DIR) && negb (omode =? O_RDONLY) then iunlockput ip ;; mret (-1)
        else open_file ip omode
    end.

(** The end of [sys_mkdir] and [sys_mknod]. *)
Definition created (o : option nat) : M K Z :=
  match o with
  | None => commit_trans ;; mret (-1)
  | Some ip => iunlockput ip ;; commit_trans ;; mret 0
  end.
Definition sys_mkdir : M K Z :=
  begin_trans ;;
  path ← argpath uload 0;
  o ← (if fst path <? 0 then mret None else create (snd path) T_DIR 0 0);
  created o.
Definition sys_mknod : M K Z :=
  begin_trans ;;
  path ← argpath uload 0;
  o ← (if fst path <? 0 then mret None else
       mj ← argint uload 1;
       if fst mj <? 0 then mret None else
       mn ← argint uload 2;
       if fst mn <? 0 then mret None else
       create (snd path) T_DEV (i16 (snd mj)) (i16 (snd mn)));
  created o.

Definition sys_chdir : M K Z :=
  path ← argpath uload 0;
  if fst path <? 0 then mret (-1) else
  o ← namei devsw (snd path);
  match o with
  | None => mret (-1)
  | Some ip =>
      ilock (Some ip) ;;
      t ← geti ip i_type;
      if negb (t =? T_DIR) then iunlockput ip ;; mret (-1) else
      iunlock (Some ip) ;;
      me ← myproc;
      c ← getp me cwd; old ← deref c;
      iput old ;;
      setp me (set_cwd (Some ip)) ;;
      mret 0
  end.

(** The loop over the argument vector: [None] for a return of -1. *)
Fixpoint exec_args (fuel : nat) (uargv i : Z) (argv : list (list Z)) : M K (option (list (list Z))) :=
  match fuel with
  | O => mret None
  | S f =>
      r ← fetchint uload (u32 (uargv + 4 * i));
      if fst r <? 0 then mret None else
      let uarg := u32 (snd r) in
      if uarg =? 0 then mret (Some argv) else
      s ← fetchstr uload uarg;
      if fst s <? 0 then mret None else
      b ← uloads uload uarg (S (Z.to_nat (fst s)));
      exec_args f uargv (i + 1) (argv ++ [b])
  end.
Definition sys_exec : M K Z :=
  path ← argpath uload 0;
  if fst path <? 0 then mret (-1) else
  a ← argint uload 1;
  if fst a <? 0 then mret (-1) else
  o ← exec_args MAXARG (u32 (snd a)) 0 [];
  match o with
  | None => mret (-1)
  | Some argv => exec (snd path) argv
  end.

Definition pipe_bad (rf wf : nat) : M K Z := fileclose kfree rf ;; fileclose kfree wf ;; mret (-1).
Definition sys_pipe : M K Z :=
  a ← argptr uload 0 8;
  if fst a <? 0 then mret (-1) else
  p ← pipealloc kalloc kfree;
  match p with
  | (r, Some rf, Some wf) =>
      if r <? 0 then mret (-1) else
      fd0 ← fdalloc rf;
      if fd0 <? 0 then pipe_bad rf wf else
      fd1 ← fdalloc wf;
      if fd1 <? 0 then clear_fd fd0 ;; pipe_bad rf wf else
      ustore (snd a) (le_bytes 4 (u32 fd0)) ;;
      ustore (snd a + 4) (le_bytes 4 (u32 fd1)) ;;
      mret 0
  | _ => mret (-1)
  end.

End Sysfile.
