(* ===== verification/Elf.v ===== *)
(** * The format of executables (elf.h)

    The headers as they are read from their bytes in the file: 32-bit words and
    16-bit halves, the low byte first. *)
From S2P Require Import Prelude.

Definition ELF_MAGIC : Z := 0x464C457F.
Definition ELF_PROG_LOAD : Z := 1.

Record elfhdr := mkElf {
  e_magic : Z; e_elf : list Z; e_type : Z; e_machine : Z; e_version : Z; e_entry : Z; e_phoff : Z;
  e_shoff : Z; e_flags : Z; e_ehsize : Z; e_phentsize : Z; e_phnum : Z; e_shentsize : Z; e_shnum : Z;
  e_shstrndx : Z }.
Record proghdr := mkPh {
  ph_type : Z; ph_off : Z; ph_vaddr : Z; ph_paddr : Z; ph_filesz : Z; ph_memsz : Z; ph_flags : Z;
  ph_align : Z }.
Definition SIZEOF_ELF : Z := 52.
Definition SIZEOF_PH : Z := 32.

(** The [i]th word; the half at byte [o]. *)
Definition word (i : nat) (b : list Z) : Z := le_val (sublist (4 * i) 4 b).
Definition half (o : nat) (b : list Z) : Z := le_val (sublist o 2 b).

Definition get_elf (b : list Z) : elfhdr :=
  mkElf (word 0 b) (sublist 4 12 b) (half 16 b) (half 18 b) (word 5 b) (word 6 b) (word 7 b)
    (word 8 b) (word 9 b) (half 40 b) (half 42 b) (half 44 b) (half 46 b) (half 48 b) (half 50 b).
Definition get_ph (b : list Z) : proghdr :=
  mkPh (word 0 b) (word 1 b) (word 2 b) (word 3 b) (word 4 b) (word 5 b) (word 6 b) (word 7 b).
