(* ===== verification/Exec.v ===== *)
(** * exec (exec.c)

    Over virtual memory and the file system together: the state is the one of
    Vm.v with the file system's inside, and [fs] runs an operation of Fs.v in
    it.  [readi] into a kernel address and [copyout] of a kernel object are
    spelt out for this state; the argument strings are lists of bytes with
    their terminating zeros. *)
From S2P Require Import Prelude Elf Spinlock Core CString Kalloc Vm Bio Log Fs.
Import Mem.

Definition MAXARG : Z := 32.

(** The name after the last slash. *)
Fixpoint last_elem (s last : list Z) : list Z :=
  match s with
  | [] => last
  | c :: s' => if c =? 0 then last else if c =? 47 then last_elem s' s' else last_elem s' last
  end.

Section Exec.
Context {Ext : Type}.
Abbreviation K := (core * (pmem * (bio * (logst * (list inode * Ext)))))%type.
Abbreviation KF := (core * (bio * (logst * (list inode * (pmem * Ext)))))%type.

(** The file system's view of the state. *)
#[local] Program Instance K_KF : Lens K KF | 1 :=
  {| lget s := let '(c, (m, (b, (g, (i, x))))) := s in (c, (b, (g, (i, (m, x)))));
     lset t _ := let '(c, (b, (g, (i, (m, x))))) := t in (c, (m, (b, (g, (i, x))))) |}.
Solve All Obligations with (intros; repeat match goal with p : _ * _ |- _ => destruct p end; done).

Context (devsw : Z → option ((nat → Z → M KF (Z * list Z)) * (nat → list Z → Z → M KF Z))).
(** Bytes the stack holds where [elf] lies. *)
Context (kend data ts_addr : Z) (stk : list Z).

Definition fs {A} (m : M KF A) : M K A := lift m.

(** [readi] to a kernel address. *)
Definition readi_k (ip : nat) (dst off n : Z) : M K Z :=
  r ← fs (readi devsw ip off n);
  modm (λ p, set_mem (wr_range (pm_mem p) dst (snd r)) p) ;;
  mret (fst r).

(** [copyout] of the bytes [buf]. *)
Fixpoint copyout_loop (fuel : nat) (pgdir va : Z) (buf : list Z) : M K Z :=
  match fuel with
  | O => fault
  | S f =>
      match buf with
      | [] => mret 0
      | _ =>
          let va0 := PGROUNDDOWN va in
          pa0 ← uva2ka pgdir va0;
          if pa0 =? 0 then mret (-1) else
          let n := Z.min (u32 (PGSIZE - (va - va0))) (Z.of_nat (length buf)) in
          modm (λ p, set_mem (wr_range (pm_mem p) (u32 (pa0 + (va - va0)))
                                (take (Z.to_nat n) buf)) p) ;;
          copyout_loop f pgdir (u32 (va0 + PGSIZE)) (drop (Z.to_nat n) buf)
      end
  end.
Definition copyout_bytes (pgdir va : Z) (buf : list Z) : M K Z :=
  copyout_loop (S (S (length buf))) pgdir va buf.

(** [bad:], with the page directory and the inode that are still held. *)
Definition exec_bad (pgdir : Z) (ip : option nat) : M K Z :=
  when (negb (pgdir =? 0)) (freevm kend pgdir) ;;
  match ip with Some i => fs (iunlockput i) | None => mret () end ;;
  mret (-1).

(** The loop over the program headers: the new size, or [None] for [bad]. *)
Fixpoint exec_load (n : nat) (ip : nat) (pgdir off sz : Z) : M K (option Z) :=
  match n with
  | O => mret (Some sz)
  | S n' =>
      r ← fs (readi devsw ip (u32 off) SIZEOF_PH);
      if negb (u32 (fst r) =? SIZEOF_PH) then mret None else
      let ph := get_ph (snd r) in
      if negb (ph_type ph =? ELF_PROG_LOAD) then exec_load n' ip pgdir (off + SIZEOF_PH) sz else
      if ph_memsz ph <? ph_filesz ph then mret None else
      sz ← allocuvm kend pgdir sz (u32 (ph_vaddr ph + ph_memsz ph));
      if sz =? 0 then mret None else
      l ← loaduvm readi_k pgdir (ph_vaddr ph) ip (ph_off ph) (ph_filesz ph);
      if l <? 0 then mret None else exec_load n' ip pgdir (off + SIZEOF_PH) sz
  end.

(** Pushing the argument strings: the stack pointer and their addresses. *)
Fixpoint exec_push (argv : list (list Z)) (argc pgdir sp : Z) (ustack : list Z)
    : M K (option (Z * list Z)) :=
  match argv with
  | [] => mret (Some (sp, ustack))
  | s :: argv' =>
      if MAXARG <=? argc then mret None else
      let sp := Z.land (u32 (sp - Z.of_nat (length s))) (u32 (Z.lnot 3)) in
      r ← copyout_bytes pgdir sp s;
      if r <? 0 then mret None else exec_push argv' (argc + 1) pgdir sp (ustack ++ [sp])
  end.

(** From the committing of the user image on. *)
Definition exec_commit (path : list Z) (pd size entry sp : Z) : M K Z :=
  me ← myproc;
  nm ← getp me name;
  nm' ← deref (Str.safestrcpy nm (last_elem path path) 16);
  setp me (set_name nm') ;;
  old ← getp me pgdir;
  setp me (set_pgdir pd) ;;
  setp me (set_sz size) ;;
  setp me (λ p, set_tf (let t := tf p in
    mkTf (tf_edi t) (tf_esi t) (tf_ebp t) (tf_oesp t) (tf_ebx t) (tf_edx t) (tf_ecx t) (tf_eax t)
         (tf_gs t) (tf_fs t) (tf_es t) (tf_ds t) (tf_trapno t) (tf_err t) entry
         (tf_cs t) (tf_eflags t) sp (tf_ss t)) p) ;;
  switchuvm ts_addr me ;;
  freevm kend old ;;
  mret 0.

(** The stack of the new image, after the inode is released. *)
Definition exec_stack (path : list Z) (argv : list (list Z)) (pgdir sz entry : Z) : M K Z :=
  let sz := PGROUNDUP sz in
  sz ← allocuvm kend pgdir sz (u32 (sz + 2 * PGSIZE));
  if sz =? 0 then exec_bad pgdir None else
  clearpteu pgdir (u32 (sz - 2 * PGSIZE)) ;;
  o ← exec_push argv 0 pgdir sz [];
  match o with
  | None => exec_bad pgdir None
  | Some (sp, args) =>
      let argc := Z.of_nat (length args) in
      let ustack := [0xffffffff; argc; u32 (sp - (argc + 1) * 4)] ++ args ++ [0] in
      let sp := u32 (sp - (3 + argc + 1) * 4) in
      r ← copyout_bytes pgdir sp (mjoin (le_bytes 4 <$> ustack));
      if r <? 0 then exec_bad pgdir None else exec_commit path pgdir sz entry sp
  end.

Definition exec (path : list Z) (argv : list (list Z)) : M K Z :=
  o ← fs (namei devsw path);
  match o with
  | None => mret (-1)
  | Some ip =>
      fs (ilock (Some ip)) ;;
      r ← fs (readi devsw ip 0 SIZEOF_ELF);
      if u32 (fst r) <? SIZEOF_ELF then exec_bad 0 (Some ip) else
      let elf := get_elf (snd r ++ drop (length (snd r)) stk) in
      if negb (e_magic elf =? ELF_MAGIC) then exec_bad 0 (Some ip) else
      pgdir ← setupkvm data;
      if pgdir =? 0 then exec_bad 0 (Some ip) else
      l ← exec_load (Z.to_nat (e_phnum elf)) ip pgdir (i32 (e_phoff elf)) 0;
      match l with
      | None => exec_bad pgdir (Some ip)
      | Some sz =>
          fs (iunlockput ip) ;;
          exec_stack path argv pgdir sz (e_entry elf)
      end
  end.

End Exec.
