(* ===== verification/Boot.v ===== *)
(** * The boot loader (bootmain.c)

    It runs before there is a kernel, on physical memory and the ports of the
    disk drive.  The drive is hardware: a type class gives what the loader uses
    of it.  Waiting for the drive takes fuel. *)
From S2P Require Import Prelude CString Elf.
Import Mem.

Definition SECTSIZE : Z := 512.

(** A drive: a byte to a port, a byte from one, and [cnt] words from one, as
    bytes. *)
Class DriveOps (D : Type) := {
  d_outb : Z → Z → D → D;
  d_inb : Z → D → Z * D;
  d_insl : Z → nat → D → list Z * D }.

Section Boot.
Context {D : Type} `{!DriveOps D} (fuel : nat).
(** Memory and the drive. *)
Abbreviation K := (mem * D)%type.

(** *** The instructions of x86.h that it uses *)

Definition outb (port data : Z) : M K unit := modify (λ s, (fst s, d_outb port (u8 data) (snd s))).
Definition inb (port : Z) : M K Z :=
  r ← gets (λ s : K, d_inb port (snd s));
  modify (λ s, (fst s, snd r)) ;;
  mret (fst r).
Definition insl (port addr : Z) (cnt : nat) : M K unit :=
  r ← gets (λ s : K, d_insl port cnt (snd s));
  modify (λ s, (wr_range (fst s) addr (fst r), snd r)).

(** *** bootmain.c *)

Fixpoint waitdisk_loop (f : nat) : M K unit :=
  match f with
  | O => fault
  | S f => r ← inb 0x1F7; if negb (Z.land r 0xC0 =? 0x40) then waitdisk_loop f else mret ()
  end.
Definition waitdisk : M K unit := waitdisk_loop fuel.

Definition readsect (dst offset : Z) : M K unit :=
  waitdisk ;;
  outb 0x1F2 1 ;;
  outb 0x1F3 offset ;;
  outb 0x1F4 (Z.shiftr offset 8) ;;
  outb 0x1F5 (Z.shiftr offset 16) ;;
  outb 0x1F6 (Z.lor (Z.shiftr offset 24) 0xE0) ;;
  outb 0x1F7 0x20 ;;
  waitdisk ;;
  insl 0x1F0 dst (Z.to_nat (SECTSIZE / 4)).

Fixpoint readseg_loop (n : nat) (pa epa offset : Z) : M K unit :=
  match n with
  | O => fault
  | S n =>
      if pa <? epa then readsect pa offset ;; readseg_loop n (u32 (pa + SECTSIZE)) epa (u32 (offset + 1))
      else mret ()
  end.
Definition readseg (pa count offset : Z) : M K unit :=
  let epa := u32 (pa + count) in
  let pa := u32 (pa - offset mod SECTSIZE) in
  let offset := u32 (offset / SECTSIZE + 1) in
  readseg_loop (S (Z.to_nat ((epa - pa + SECTSIZE - 1) / SECTSIZE))) pa epa offset.

Definition rdmem (a n : Z) : M K (list Z) := gets (λ s, rd_range (fst s) a (Z.to_nat n)).

(** One segment. *)
Definition load_seg (h : proghdr) : M K unit :=
  let pa := ph_paddr h in
  readseg pa (ph_filesz h) (ph_off h) ;;
  when (ph_filesz h <? ph_memsz h)
    (modify (λ s, (stosb (fst s) (u32 (pa + ph_filesz h)) 0 (Z.to_nat (ph_memsz h - ph_filesz h)), snd s))).

Fixpoint load_loop (n : nat) (ph eph : Z) : M K unit :=
  match n with
  | O => fault
  | S n =>
      if ph <? eph then
        h ← rdmem ph SIZEOF_PH;
        load_seg (get_ph h) ;;
        load_loop n (u32 (ph + SIZEOF_PH)) eph
      else mret ()
  end.

(** [bootmain]: the entry point it jumps to, [None] when it returns to
    bootasm.S. *)
Definition bootmain : M K (option Z) :=
  let elf := 0x10000 in
  readseg elf 4096 0 ;;
  b ← rdmem elf SIZEOF_ELF;
  let h := get_elf b in
  if negb (e_magic h =? ELF_MAGIC) then mret None else
  let ph := u32 (elf + e_phoff h) in
  let eph := u32 (ph + SIZEOF_PH * e_phnum h) in
  load_loop (S (Z.to_nat (e_phnum h))) ph eph ;;
  mret (Some (e_entry h)).
End Boot.
