(* ===== verification/BootFacts.v ===== *)
(** * The boot loader loads the kernel

    Given a drive that answers as the ATA interface promises, [bootmain] ends
    with every segment of the kernel in memory. *)
From S2P Require Import Prelude CString Elf Boot.
Import Mem MemFacts.

(** ** What the drive promises *)

(** Polling the status port comes, after at most [n] busy answers, to an answer
    "ready" that leaves the drive in [P]. *)
Fixpoint soon {D} `{!DriveOps D} (P : D → Prop) (n : nat) (d : D) : Prop :=
  let r := d_inb 0x1F7 d in
  if Z.land (fst r) 0xC0 =? 0x40 then P (snd r)
  else match n with O => False | S n => soon P n (snd r) end.

(** The port writes that ask for sector [lba]. *)
Definition ask {D} `{!DriveOps D} (lba : Z) (d : D) : D :=
  d_outb 0x1F7 0x20 (d_outb 0x1F6 (u8 (Z.lor (Z.shiftr lba 24) 0xE0)) (d_outb 0x1F5 (u8 (Z.shiftr lba 16))
    (d_outb 0x1F4 (u8 (Z.shiftr lba 8)) (d_outb 0x1F3 (u8 lba) (d_outb 0x1F2 1 d))))).

(** A drive with these sectors that is never busy for more than [w] polls.  In
    an [idle] state it becomes ready to take a command; a command to read a
    sector makes it busy, then it gives the sector and is idle again. *)
Class Drive (D : Type) `{!DriveOps D} (w : nat) (sectors : Z → list Z) (idle accepts : D → Prop) : Prop := {
  drive_idle d : idle d → soon accepts w d;
  drive_read d lba : accepts d → 0 ≤ lba < 2 ^ 28 →
    soon (λ d', fst (d_insl 0x1F0 128 d') = sectors lba ∧ idle (snd (d_insl 0x1F0 128 d'))) w (ask lba d);
  drive_sector lba : length (sectors lba) = 512%nat }.

Section Load.
Context {D : Type} `{!DriveOps D} (w : nat) (sectors : Z → list Z) (idle accepts : D → Prop).
Context `{!Drive D w sectors idle accepts} (fuel : nat) (Hfuel : (w < fuel)%nat).
Implicit Types (m : mem) (d : D).

(** Byte [i] of the kernel's file, which starts at sector 1. *)
Definition kbyte (i : Z) : Z := sectors (i / SECTSIZE + 1) !!! Z.to_nat (i mod SECTSIZE).
Definition kbytes (i : Z) (n : nat) : list Z := (λ k, kbyte (i + Z.of_nat k)) <$> seq 0 n.

Lemma waitdisk_loop_wp (P : D → Prop) m Q n : ∀ f d, soon P n d → (n < f)%nat → (∀ d', P d' → Q () (m, d')) →
  wp (waitdisk_loop f) Q (m, d).
Proof.
  induction n as [|n IH]; intros [|f] d Hs Hf HQ; try lia; cbn [waitdisk_loop]; apply wp_bind; unfold inb;
    apply wp_bind, wp_gets, wp_bind, wp_modify, wp_ret; cbn [fst snd soon] in *; cbv zeta in Hs; destruct (_ =? _); cbn [negb].
  - by apply wp_ret, HQ.
  - done.
  - by apply wp_ret, HQ.
  - apply IH; [done|lia|done].
Qed.
Lemma waitdisk_wp (P : D → Prop) m d Q : soon P w d → (∀ d', P d' → Q () (m, d')) → wp (waitdisk fuel) Q (m, d).
Proof. intros Hs. by apply waitdisk_loop_wp with (n := w). Qed.

Lemma readsect_wp m d dst lba Q : idle d → 0 ≤ lba < 2 ^ 28 →
  (∀ d', idle d' → Q () (wr_range m dst (sectors lba), d')) → wp (readsect fuel dst lba) Q (m, d).
Proof.
  intros Hi Hl HQ. unfold readsect. apply wp_bind. eapply waitdisk_wp; [by apply (drive_idle (w := w) (sectors := sectors))|].
  intros d1 H1. do 6 (apply wp_bind; unfold outb at 1; apply wp_modify; cbn [fst snd]).
  apply wp_bind. eapply waitdisk_wp; [by apply (drive_read (idle := idle))|]. intros d2 [H2 H3].
  unfold insl. apply wp_bind, wp_gets, wp_modify. cbn [fst snd]. change (Z.to_nat (SECTSIZE / 4)) with 128%nat.
  rewrite H2. by apply HQ.
Qed.

(** Reading sectors [s], [s + 1], ... to consecutive places from [a] on. *)
Lemma readseg_loop_wp n Q : ∀ k m d pa epa s, idle d → 0 ≤ pa → 0 ≤ s →
  epa ≤ pa + 512 * Z.of_nat k < epa + 512 → (k ≤ n)%nat → epa + 512 ≤ 2 ^ 32 → s + Z.of_nat k ≤ 2 ^ 28 →
  (∀ m' d', idle d' → (∀ a, rd m' a = if decide (pa ≤ a < pa + 512 * Z.of_nat k)
      then sectors (s + (a - pa) / 512) !!! Z.to_nat ((a - pa) mod 512) else rd m a) → Q () (m', d')) →
  wp (readseg_loop fuel (S n) pa epa s) Q (m, d).
Proof.
  induction n as [|n IH]; intros k m d pa epa s Hi Hpa Hs Hk Hn He Hs2 HQ.
  - destruct k; [|lia]. cbn [readseg_loop]. rewrite (proj2 (Z.ltb_ge _ _)) by lia. apply wp_ret, HQ; [done|].
    intros a. by rewrite decide_False by lia.
  - cbn [readseg_loop]. destruct (Z.ltb_spec pa epa) as [Hlt|Hge].
    + destruct k as [|k]; [lia|]. apply wp_bind, readsect_wp; [done|lia|]. intros d1 H1.
      unfold SECTSIZE. rewrite (u32_small (pa + 512)), (u32_small (s + 1)) by lia. apply (IH k); [done|lia|lia|lia|lia|lia|lia|].
      intros m' d' H2 Hm. apply HQ; [done|]. intros a. rewrite Hm, rd_wr_range, (drive_sector (Drive := Drive0)).
      destruct (decide (pa ≤ a < pa + 512)) as [Ha|Ha].
      * rewrite decide_False, !decide_True by lia. by rewrite Z.div_small, Z.mod_small, Z.add_0_r by lia.
      * rewrite (decide_False (P := pa ≤ a < pa + Z.of_nat 512)) by lia.
        destruct (decide (pa + 512 ≤ a < pa + 512 + 512 * Z.of_nat k)) as [Hb|Hb]; [rewrite decide_True by lia|by rewrite decide_False by lia].
        replace (a - pa) with (a - (pa + 512) + 1 * 512) by lia. rewrite Z.div_add, Z.mod_add by done. f_equal. f_equal. lia.
    + assert (k = 0%nat) as -> by lia. apply wp_ret, HQ; [done|]. intros a. by rewrite decide_False by lia.
Qed.

(** The bytes a [readseg] stores: whole sectors around the bytes asked for. *)
Definition seg_start (pa off : Z) : Z := pa - off mod SECTSIZE.
Definition seg_sectors (count off : Z) : Z := (off mod SECTSIZE + count + SECTSIZE - 1) / SECTSIZE.

Lemma readseg_wp m d pa count off Q : idle d → 0 ≤ off → 0 ≤ count → off mod SECTSIZE ≤ pa →
  pa + count + 512 ≤ 2 ^ 32 → off + count + 512 < 2 ^ 32 →
  (∀ m' d', idle d' → (∀ a, rd m' a = if decide (seg_start pa off ≤ a < seg_start pa off + 512 * seg_sectors count off)
      then kbyte (off + (a - pa)) else rd m a) → Q () (m', d')) →
  wp (readseg fuel pa count off) Q (m, d).
Proof.
  intros Hi Ho Hc Hpa Hb Hob HQ. unfold readseg, seg_start, seg_sectors, SECTSIZE in *.
  pose proof (Z.div_mod off 512 ltac:(done)) as Hdm. pose proof (Z.mod_pos_bound off 512 ltac:(done)) as Hmb.
  assert (Hq : 0 ≤ off / 512) by (apply Z.div_pos; lia).
  rewrite (u32_small (pa + count)), (u32_small (pa - off mod 512)), (u32_small (off / 512 + 1)) by lia.
  replace (pa + count - (pa - off mod 512) + 512 - 1) with (off mod 512 + count + 512 - 1) by lia.
  pose proof (Z.div_mod (off mod 512 + count + 512 - 1) 512 ltac:(done)) as Hdk.
  pose proof (Z.mod_pos_bound (off mod 512 + count + 512 - 1) 512 ltac:(done)) as Hmk.
  set (k := (off mod 512 + count + 512 - 1) / 512) in *. clearbody k.
  apply (readseg_loop_wp _ _ (Z.to_nat k)); [done|lia|lia|lia|lia|lia|lia|].
  intros m' d' Hi' Hm. apply HQ; [done|]. intros a. rewrite Hm, Z2Nat.id by lia.
  destruct (decide (pa - off mod 512 ≤ a < pa - off mod 512 + 512 * k)) as [Ha|Ha]; [|done].
  unfold kbyte, SECTSIZE. replace (off + (a - pa)) with (a - (pa - off mod 512) + off / 512 * 512) by lia.
  rewrite Z.div_add, Z.mod_add by done. f_equal. f_equal. lia.
Qed.

(** *** Segments *)

Definition seg_size (h : proghdr) : Z := Z.max (ph_filesz h) (ph_memsz h).

(** The segment is in memory: the bytes of the file, then zeros. *)
Definition in_memory (m : mem) (h : proghdr) : Prop :=
  ∀ k, 0 ≤ k < seg_size h →
    rd m (ph_paddr h + k) = if k <? ph_filesz h then kbyte (ph_off h + k) else 0.

(** The addresses that loading the segment may write. *)
Definition touch_lo (h : proghdr) : Z := seg_start (ph_paddr h) (ph_off h).
Definition touch_hi (h : proghdr) : Z :=
  Z.max (touch_lo h + 512 * seg_sectors (ph_filesz h) (ph_off h)) (ph_paddr h + seg_size h).
Definition touches (h : proghdr) (a : Z) : Prop := touch_lo h ≤ a < touch_hi h.

(** Numbers that do not wrap. *)
Record seg_fits (h : proghdr) : Prop := {
  sf_off : 0 ≤ ph_off h; sf_file : 0 ≤ ph_filesz h;
  sf_start : ph_off h mod SECTSIZE ≤ ph_paddr h;
  sf_end : ph_paddr h + seg_size h + 512 ≤ 2 ^ 32;
  sf_disk : ph_off h + ph_filesz h + 512 < 2 ^ 32 }.

Lemma load_seg_wp m d h Q : idle d → seg_fits h →
  (∀ m' d', idle d' → in_memory m' h → (∀ a, ¬ touches h a → rd m' a = rd m a) → Q () (m', d')) →
  wp (load_seg fuel h) Q (m, d).
Proof.
  intros Hi [F1 F2 F3 F4 F5] HQ. unfold load_seg. cbv zeta. unfold seg_size in F4.
  pose proof (Z.mod_pos_bound (ph_off h) SECTSIZE ltac:(done)) as Hmb.
  assert (Hk : ph_off h mod SECTSIZE + ph_filesz h ≤ 512 * seg_sectors (ph_filesz h) (ph_off h)).
  { unfold seg_sectors, SECTSIZE in *. pose proof (Z.div_mod (ph_off h mod 512 + ph_filesz h + 512 - 1) 512 ltac:(done)).
    pose proof (Z.mod_pos_bound (ph_off h mod 512 + ph_filesz h + 512 - 1) 512 ltac:(done)). lia. }
  apply wp_bind, readseg_wp; [done|done|done|done|lia|lia|]. intros m1 d1 H1 Hm1.
  assert (Hfile : ∀ k, 0 ≤ k < ph_filesz h → rd m1 (ph_paddr h + k) = kbyte (ph_off h + k)).
  { intros k Hk1. rewrite Hm1, decide_True by (unfold seg_start; lia). f_equal. lia. }
  assert (Hout : ∀ a, ¬ touches h a → rd m1 a = rd m a).
  { intros a Ha. rewrite Hm1, decide_False; [done|]. unfold touches, touch_hi, touch_lo in Ha. lia. }
  destruct (Z.ltb_spec (ph_filesz h) (ph_memsz h)) as [Hlt|Hge]; cbn [when].
  - apply wp_modify. cbn [fst snd]. rewrite u32_small by lia. apply HQ; [done|..].
    + intros k Hk1. rewrite rd_stosb, Z2Nat.id by lia. unfold seg_size in Hk1. destruct (Z.ltb_spec k (ph_filesz h)).
      * rewrite decide_False by lia. apply Hfile. lia.
      * rewrite decide_True by lia. done.
    + intros a Ha. rewrite rd_stosb, Z2Nat.id, decide_False by (unfold touches, touch_hi, touch_lo, seg_size, seg_start in Ha; lia). by apply Hout.
  - apply wp_ret, HQ; [done| |done]. intros k Hk1. unfold seg_size in Hk1. rewrite (proj2 (Z.ltb_lt _ _)) by lia. apply Hfile. lia.
Qed.

(** Loading [h] leaves the image of [h0] alone. *)
Definition spares (h h0 : proghdr) : Prop := ∀ a, touches h a → ¬ (ph_paddr h0 ≤ a < ph_paddr h0 + seg_size h0).

Lemma in_memory_frame m m' h h0 : spares h h0 → in_memory m h0 → (∀ a, ¬ touches h a → rd m' a = rd m a) → in_memory m' h0.
Proof. intros Hs H0 Hm k Hk. rewrite Hm; [by apply H0|]. intros Ht. apply (Hs _ Ht). lia. Qed.

Lemma load_loop_wp hs Q : ∀ ph eph (past : list proghdr) m d, idle d → 0 ≤ ph → eph = ph + 32 * Z.of_nat (length hs) → eph < 2 ^ 32 →
  (∀ i h, hs !! i = Some h → get_ph (rd_range m (ph + 32 * Z.of_nat i) 32) = h) →
  (∀ h, h ∈ hs → seg_fits h ∧ (∀ a, touches h a → ¬ (ph ≤ a < eph)) ∧ Forall (spares h) past) →
  (∀ i j h h', hs !! i = Some h → hs !! j = Some h' → (i < j)%nat → spares h' h) →
  Forall (in_memory m) past →
  (∀ m' d', idle d' → Forall (in_memory m') (past ++ hs) → Q () (m', d')) →
  wp (load_loop fuel (S (length hs)) ph eph) Q (m, d).
Proof.
  induction hs as [|h hs IH]; intros ph eph past m d Hi Hp He Hw Ht Hok Hord Hpast HQ; cbn [load_loop length].
  - rewrite (proj2 (Z.ltb_ge _ _)) by (simpl in He; lia). apply wp_ret, HQ; [done|]. by rewrite app_nil_r.
  - cbn [length] in He. rewrite (proj2 (Z.ltb_lt _ _)) by lia. destruct (Hok h ltac:(by left)) as (F & Hclear & Hsp).
    apply wp_bind, wp_gets. cbn [fst]. change (Z.to_nat SIZEOF_PH) with 32%nat.
    pose proof (Ht 0%nat h eq_refl) as Hh. change (32 * Z.of_nat 0) with 0 in Hh. rewrite Z.add_0_r in Hh. rewrite Hh.
    apply wp_bind, load_seg_wp; [done|done|]. intros m1 d1 H1 Him Hout. unfold SIZEOF_PH. rewrite u32_small by lia.
    eapply (IH (ph + 32) eph (past ++ [h]) m1 d1); [done|lia|lia|done|..].
    + intros i h' Hi'. rewrite <-(Ht (S i) h' Hi'). f_equal. replace (ph + 32 + 32 * Z.of_nat i) with (ph + 32 * Z.of_nat (S i)) by lia.
      apply rd_range_ext. intros b Hb. apply Hout. intros Hto. apply (Hclear b Hto).
      apply lookup_lt_Some in Hi'. lia.
    + intros h' Hh'. destruct (Hok h' ltac:(by right)) as (F' & Hc' & Hs'). split_and!; [done| |].
      * intros a Ha Hin. apply (Hc' a Ha). lia.
      * apply Forall_app. split; [done|]. apply list.Forall_cons. split; [|done].
        apply list_elem_of_lookup in Hh' as [i Hi']. by apply (Hord 0%nat (S i) h h' eq_refl Hi'); lia.
    + intros i j h1 h2 Hi1 Hj1 Hlt. apply (Hord (S i) (S j) h1 h2 Hi1 Hj1). lia.
    + apply Forall_app. split; [|by apply list.Forall_cons]. rewrite list.Forall_forall in *. intros h0 H0.
      apply (in_memory_frame m _ h); [|by apply Hpast|done]. by apply Hsp.
    + intros m' d' Hi' Hf. apply HQ; [done|]. by rewrite <-app_assoc in Hf.
Qed.

(** ** The theorem *)

Definition kernel_hdr : elfhdr := get_elf (kbytes 0 52).
Definition kernel_phs : list proghdr :=
  (λ i, get_ph (kbytes (e_phoff kernel_hdr + 32 * Z.of_nat i) 32)) <$> seq 0 (Z.to_nat (e_phnum kernel_hdr)).

(** The program headers are in the first 4096 bytes of the file.  Loading a
    segment writes neither over the program headers in the scratch page nor
    over a segment that is already there. *)
Record kernel_ok : Prop := {
  ko_table : 0 ≤ e_phoff kernel_hdr ∧ 0 ≤ e_phnum kernel_hdr ∧ e_phoff kernel_hdr + 32 * e_phnum kernel_hdr ≤ 4096;
  ko_fits h : h ∈ kernel_phs → seg_fits h;
  ko_scratch h a : h ∈ kernel_phs → touches h a →
    ¬ (0x10000 + e_phoff kernel_hdr ≤ a < 0x10000 + e_phoff kernel_hdr + 32 * e_phnum kernel_hdr);
  ko_order i j h h' : kernel_phs !! i = Some h → kernel_phs !! j = Some h' → (i < j)%nat → spares h' h }.

Lemma rd_kbytes m a i n : (∀ k, 0 ≤ k < Z.of_nat n → rd m (a + k) = kbyte (i + k)) → rd_range m a n = kbytes i n.
Proof.
  intros H. apply list_eq. intros k. unfold kbytes. rewrite list_lookup_fmap. destruct (decide (k < n)%nat) as [Hk|Hk].
  - rewrite rd_range_lookup, lookup_seq_lt by done. cbn. f_equal. apply H. lia.
  - rewrite lookup_seq_ge by lia. apply lookup_ge_None. rewrite rd_range_length. lia.
Qed.

Lemma bootmain_wp m d Q : idle d → (e_magic kernel_hdr = ELF_MAGIC → kernel_ok) →
  (∀ m' d', idle d' → e_magic kernel_hdr ≠ ELF_MAGIC → Q None (m', d')) →
  (∀ m' d', idle d' → e_magic kernel_hdr = ELF_MAGIC → Forall (in_memory m') kernel_phs → Q (Some (e_entry kernel_hdr)) (m', d')) →
  wp (bootmain fuel) Q (m, d).
Proof.
  intros Hi Hok HQ0 HQ. unfold bootmain. cbv zeta. apply wp_bind, readseg_wp; [done|done|done|done|done|done|].
  intros m1 d1 H1 Hm1.
  assert (Hk : ∀ k, 0 ≤ k < 4096 → rd m1 (0x10000 + k) = kbyte k).
  { intros k Hk. rewrite Hm1. change (seg_start 65536 0) with 65536. change (seg_sectors 4096 0) with 8.
    rewrite decide_True by lia. f_equal. lia. }
  assert (Hh : get_elf (rd_range m1 65536 52) = kernel_hdr).
  { unfold kernel_hdr. f_equal. apply rd_kbytes. intros k Hk1. rewrite Hk by lia. done. }
  apply wp_bind, wp_gets. cbn [fst]. change (Z.to_nat SIZEOF_ELF) with 52%nat. rewrite Hh.
  destruct (Z.eqb_spec (e_magic kernel_hdr) ELF_MAGIC) as [E|E]; cbn [negb]; [|by apply wp_ret, HQ0].
  destruct (Hok E) as [(T1 & T2 & T3) Hf Hs Ho]. unfold SIZEOF_PH. rewrite (u32_small (65536 + _)), u32_small by lia.
  assert (Hl : length kernel_phs = Z.to_nat (e_phnum kernel_hdr)) by (unfold kernel_phs; by rewrite length_fmap, length_seq).
  rewrite <-Hl. apply wp_bind, (load_loop_wp kernel_phs _ _ _ []); [done|lia|lia|lia|..].
  - intros i h Hi2. pose proof (lookup_lt_Some _ _ _ Hi2) as Hlt. unfold kernel_phs in Hi2.
    rewrite list_lookup_fmap, lookup_seq_lt in Hi2 by lia. apply (inj Some) in Hi2 as <-. f_equal. apply rd_kbytes. intros k Hk1.
    rewrite <-Hk by lia. f_equal. lia.
  - intros h Hh'. split_and!; [by apply Hf| |done]. intros a Ha Hin. apply (Hs h a Hh' Ha). lia.
  - exact Ho.
  - done.
  - intros m' d' Hi2 Hall. by apply wp_ret, HQ.
Qed.
End Load.
(** C24. The boot loader.  With any drive that follows the ATA protocol and the
    kernel's file from sector 1 on: [bootmain] ends; it returns to bootasm.S
    when the file has no ELF magic number, and otherwise goes to the entry point
    with every byte of every segment in its place (the file's bytes, then
    zeros), although whole sectors are read around each of them. *)
Theorem boot_loads_kernel {D} `{!DriveOps D} w sectors idle accepts `{!Drive D w sectors idle accepts} fuel m (d : D)
    (Hfuel : (w < fuel)%nat) (Hi : idle d) (Hok : e_magic (kernel_hdr sectors) = ELF_MAGIC → kernel_ok sectors) :
  wp (bootmain fuel) (λ r s', idle (snd s') ∧
    if e_magic (kernel_hdr sectors) =? ELF_MAGIC
    then r = Some (e_entry (kernel_hdr sectors)) ∧
      ∀ i h, kernel_phs sectors !! i = Some h → ∀ k, 0 ≤ k < Z.max (ph_filesz h) (ph_memsz h) →
        rd (fst s') (ph_paddr h + k) = if k <? ph_filesz h then kbyte sectors (ph_off h + k) else 0
    else r = None) (m, d).
Proof.
  eapply (bootmain_wp w sectors idle accepts fuel Hfuel); [done|done|..]; intros m' d' Hi' E.
  - split; [done|]. by rewrite (proj2 (Z.eqb_neq _ _) E).
  - rewrite E, Z.eqb_refl. intros Hall. split_and!; [done|done|]. intros i h Hh k Hk.
    by apply (proj1 (list.Forall_forall _ _) Hall h (list_elem_of_lookup_2 _ _ _ Hh)).
Qed.

(** ** A drive, and a small kernel *)

(** The address registers, how long it stays busy, and its sectors. *)
Record ata := mkAta { a_3 : Z; a_4 : Z; a_5 : Z; a_6 : Z; a_busy : nat }.

Section Ata.
Context (sectors : Z → list Z) (slow : nat).

Definition ata_lba (d : ata) : Z := a_3 d + 2 ^ 8 * a_4 d + 2 ^ 16 * a_5 d + 2 ^ 24 * Z.land (a_6 d) 15.
#[local] Instance ata_ops : DriveOps ata := {
  d_outb port v d :=
    if port =? 0x1F3 then mkAta v (a_4 d) (a_5 d) (a_6 d) (a_busy d) else
    if port =? 0x1F4 then mkAta (a_3 d) v (a_5 d) (a_6 d) (a_busy d) else
    if port =? 0x1F5 then mkAta (a_3 d) (a_4 d) v (a_6 d) (a_busy d) else
    if port =? 0x1F6 then mkAta (a_3 d) (a_4 d) (a_5 d) v (a_busy d) else
    if port =? 0x1F7 then mkAta (a_3 d) (a_4 d) (a_5 d) (a_6 d) slow else d;
  d_inb port d :=
    match a_busy d with
    | O => (0x40, d)
    | S n => (0x80, mkAta (a_3 d) (a_4 d) (a_5 d) (a_6 d) n)
    end;
  d_insl port cnt d := (sectors (ata_lba d), d) }.

Definition ata_ready (d : ata) : Prop := a_busy d = O.

Lemma ata_soon (P : ata → Prop) n : ∀ d, (a_busy d ≤ n)%nat → P (mkAta (a_3 d) (a_4 d) (a_5 d) (a_6 d) 0) → soon P n d.
Proof.
  induction n as [|n IH]; intros [r3 r4 r5 r6 [|k]] Hb HP; cbn in *; try done; [lia|]. apply IH; [simpl; lia|done].
Qed.

Lemma ata_address lba : 0 ≤ lba < 2 ^ 28 →
  u8 lba + 2 ^ 8 * u8 (Z.shiftr lba 8) + 2 ^ 16 * u8 (Z.shiftr lba 16) +
    2 ^ 24 * Z.land (u8 (Z.lor (Z.shiftr lba 24) 0xE0)) 15 = lba.
Proof.
  intros Hl. rewrite !Z.shiftr_div_pow2 by done. unfold u8. change (2 ^ 8) with 256. change (2 ^ 16) with 65536. change (2 ^ 24) with 16777216.
  assert (H24 : Z.land (Z.lor (lba / 16777216) 0xE0 mod 256) 15 = lba / 16777216).
  { change 256 with (2 ^ 8). rewrite <-Z.land_ones by done. rewrite <-Z.land_assoc. change (Z.land (Z.ones 8) 15) with (Z.ones 4).
    rewrite Z.land_lor_distr_l. change (Z.land 0xE0 (Z.ones 4)) with 0. rewrite Z.lor_0_r, Z.land_ones by done.
    apply Z.mod_small. split; [apply Z.div_pos; lia|apply Z.div_lt_upper_bound; lia]. }
  rewrite H24. pose proof (Z.div_mod lba 256 ltac:(done)). pose proof (Z.div_mod (lba / 256) 256 ltac:(done)).
  pose proof (Z.div_mod (lba / 65536) 256 ltac:(done)). rewrite !Z.div_div in * by done.
  change (256 * 256) with 65536 in *. change (65536 * 256) with 16777216 in *. lia.
Qed.

Lemma ata_drive : (∀ lba, length (sectors lba) = 512%nat) → Drive ata slow sectors (λ d, a_busy d ≤ slow)%nat ata_ready.
Proof.
  intros Hs. constructor; [| |done].
  - intros d Hd. by apply ata_soon.
  - intros [r3 r4 r5 r6 k] lba Hd Hl. apply ata_soon; [done|]. cbn. split; [|lia].
    f_equal. unfold ata_lba. cbn [a_3 a_4 a_5 a_6]. by apply ata_address.
Qed.
End Ata.

Definition ex_hdr : list Z :=
  [0x7F; 0x45; 0x4C; 0x46] ++ replicate 20 0 ++ le_bytes 4 0x10000C ++ le_bytes 4 52 ++ replicate 12 0 ++ [2; 0] ++ replicate 6 0.
Definition ex_ph (off paddr filesz memsz : Z) : list Z :=
  le_bytes 4 1 ++ le_bytes 4 off ++ replicate 4 0 ++ le_bytes 4 paddr ++ le_bytes 4 filesz ++ le_bytes 4 memsz ++ replicate 8 0.
Definition ex_kernel : list Z :=
  ex_hdr ++ ex_ph 512 0x100000 4 8 ++ ex_ph 516 0x100204 2 2 ++ replicate 396 0 ++ [1; 2; 3; 4; 5; 6].
Definition ex_sectors (lba : Z) : list Z :=
  take 512 (drop (Z.to_nat (512 * (lba - 1))) ex_kernel ++ replicate 512 0).

Definition ex_segs : list proghdr :=
  [mkPh 1 512 0 0x100000 4 8 0 0; mkPh 1 516 0 0x100204 2 2 0 0].
Lemma ex_phs : kernel_phs ex_sectors = ex_segs.
Proof. by vm_compute. Qed.

Lemma ex_kernel_ok : kernel_ok ex_sectors.
Proof.
  assert (Hp : e_phoff (kernel_hdr ex_sectors) = 52 ∧ e_phnum (kernel_hdr ex_sectors) = 2) by (by vm_compute).
  destruct Hp as [E1 E2]. constructor; rewrite ?ex_phs, ?E1, ?E2.
  - lia.
  - intros h [->|[->|[]%elem_of_nil]%elem_of_cons]%elem_of_cons; by constructor.
  - intros h a [->|[->|[]%elem_of_nil]%elem_of_cons]%elem_of_cons; unfold touches.
    + change (touch_lo _) with 0x100000. lia.
    + change (touch_lo _) with 0x100200. lia.
  - intros i j h h' Hi Hj Hlt. destruct j as [|[|j]]; [lia| |done]. destruct i; [|lia]. injection Hi as <-. injection Hj as <-.
    intros a. unfold touches. change (touch_lo _) with 0x100200. cbn [ph_paddr]. change (seg_size _) with 8. lia.
Qed.

(** A drive that is busy for three polls after each command. *)
Lemma boot_loads_kernel_witness :
  let I := ata_ops ex_sectors 3 in
  wp (bootmain 10) (λ r s', (a_busy (snd s') ≤ 3)%nat ∧ r = Some 0x10000C ∧
    rd (fst s') 0x100003 = 4 ∧ rd (fst s') 0x100004 = 0 ∧ rd (fst s') 0x100205 = 6) (∅, mkAta 0 0 0 0 2).
Proof.
  intros I. assert (Dr : Drive ata 3 ex_sectors (λ d, a_busy d ≤ 3)%nat ata_ready).
  { apply ata_drive. intros lba. unfold ex_sectors. rewrite length_take, length_app, length_replicate. lia. }
  eapply wp_mono; [apply (boot_loads_kernel 3 ex_sectors (λ d, a_busy d ≤ 3)%nat ata_ready 10 ∅ (mkAta 0 0 0 0 2))|].
  - lia.
  - cbn. lia.
  - intros _. exact ex_kernel_ok.
  - intros r s' [H1 H2]. change (e_magic (kernel_hdr ex_sectors) =? ELF_MAGIC) with true in H2. destruct H2 as [-> H2].
    rewrite ex_phs in H2. split; [exact H1|]. split; [done|].
    pose proof (H2 0%nat _ eq_refl 3 ltac:(cbn; lia)) as A. pose proof (H2 0%nat _ eq_refl 4 ltac:(cbn; lia)) as B.
    pose proof (H2 1%nat _ eq_refl 1 ltac:(cbn; lia)) as C. split_and!; [exact A|exact B|exact C].
Defined.
