(* ===== verification/Mp.v ===== *)
(** * Multiprocessor tables (mp.c)

    The BIOS leaves tables in low memory that describe the processors.  The
    tables are read byte by byte from memory, at virtual addresses; messages
    are left out.  The two ports of the interrupt mode register (IMCR) are
    hardware. *)
From S2P Require Import Prelude CString Kalloc.
Import Mem.

Definition NCPU : Z := 8.
Definition MPPROC : Z := 0.
Definition MPBUS : Z := 1.
Definition MPIOAPIC : Z := 2.
Definition MPIOINTR : Z := 3.
Definition MPLINTR : Z := 4.
Definition MPBOOT : Z := 2.

(** *** Structures in memory: sizes and field offsets *)

Definition SIZEOF_MP : Z := 16.
Definition SIZEOF_MPCONF : Z := 44.
Definition SIZEOF_MPPROC : Z := 20.
Definition SIZEOF_MPIOAPIC : Z := 8.
Definition ld16 (m : mem) (a : Z) : Z := le_val (rd_range m a 2).
Definition mp_physaddr (m : mem) (mp : Z) : Z := ld32 m (mp + 4).
Definition mp_imcrp (m : mem) (mp : Z) : Z := rd m (mp + 12).
Definition conf_length (m : mem) (c : Z) : Z := ld16 m (c + 4).
Definition conf_version (m : mem) (c : Z) : Z := rd m (c + 6).
Definition conf_lapicaddr (m : mem) (c : Z) : Z := ld32 m (c + 36).
Definition proc_apicid (m : mem) (p : Z) : Z := rd m (p + 1).
Definition proc_flags (m : mem) (p : Z) : Z := rd m (p + 3).
Definition ioapic_no (m : mem) (p : Z) : Z := rd m (p + 1).

(** *** Searching *)

Fixpoint sum_loop (m : mem) (addr : Z) (n : nat) (s : Z) : Z :=
  match n with O => s | S n => sum_loop m (addr + 1) n (i32 (s + rd m addr)) end.
Definition sum (m : mem) (addr len : Z) : Z := u8 (sum_loop m addr (Z.to_nat len) 0).

(** [memcmp] with a literal. *)
Fixpoint litcmp (m : mem) (p : Z) (lit : list Z) : Z :=
  match lit with
  | [] => 0
  | c :: lit' => if rd m p =? c then litcmp m (p + 1) lit' else rd m p - c
  end.

(** [mpsearch1]: the address it finds, 0 for none. *)
Fixpoint mpsearch1_loop (fuel : nat) (m : mem) (p e : Z) : Z :=
  match fuel with
  | O => 0
  | S f =>
      if p <? e then
        if (litcmp m p [95; 77; 80; 95] =? 0) && (sum m p SIZEOF_MP =? 0) then p
        else mpsearch1_loop f m (p + SIZEOF_MP) e
      else 0
  end.
Definition mpsearch1 (m : mem) (a len : Z) : Z :=
  let addr := p2v a in
  let e := addr + len in
  mpsearch1_loop (S (Z.to_nat len)) m addr e.

Definition mpsearch (m : mem) : Z :=
  let bda := p2v 0x400 in
  let p := Z.shiftl (Z.lor (Z.shiftl (rd m (bda + 0x0F)) 8) (rd m (bda + 0x0E))) 4 in
  let mp :=
    if negb (p =? 0) then mpsearch1 m p 1024
    else
      let p := Z.lor (Z.shiftl (rd m (bda + 0x14)) 8) (rd m (bda + 0x13)) * 1024 in
      mpsearch1 m (u32 (p - 1024)) 1024 in
  if negb (mp =? 0) then mp else mpsearch1 m 0xF0000 0x10000.

(** [mpconfig]: the floating pointer and the table. *)
Definition mpconfig (m : mem) : option (Z * Z) :=
  let mp := mpsearch m in
  if (mp =? 0) || (mp_physaddr m mp =? 0) then None else
  let conf := p2v (mp_physaddr m mp) in
  if negb (litcmp m conf [80; 67; 77; 80] =? 0) then None else
  if negb (conf_version m conf =? 1) && negb (conf_version m conf =? 4) then None else
  if negb (sum m conf (conf_length m conf) =? 0) then None else
  Some (mp, conf).

(** *** State *)

(** [bcpu] as an index, the [id]s of [cpus], and the IMCR ports as what was
    written to them. *)
Record mpst := mkMpst {
  mp_mem : mem; bcpu : Z; ismp : bool; ncpu : Z; cpu_id : list Z; ioapicid : Z; lapic : Z;
  imcr_out : list (Z * Z) }.
Definition set_bcpu v s := mkMpst (mp_mem s) v (ismp s) (ncpu s) (cpu_id s) (ioapicid s) (lapic s) (imcr_out s).
Definition set_ismp v s := mkMpst (mp_mem s) (bcpu s) v (ncpu s) (cpu_id s) (ioapicid s) (lapic s) (imcr_out s).
Definition set_ncpu v s := mkMpst (mp_mem s) (bcpu s) (ismp s) v (cpu_id s) (ioapicid s) (lapic s) (imcr_out s).
Definition set_cpu_id v s := mkMpst (mp_mem s) (bcpu s) (ismp s) (ncpu s) v (ioapicid s) (lapic s) (imcr_out s).
Definition set_ioapicid v s := mkMpst (mp_mem s) (bcpu s) (ismp s) (ncpu s) (cpu_id s) v (lapic s) (imcr_out s).
Definition set_lapic v s := mkMpst (mp_mem s) (bcpu s) (ismp s) (ncpu s) (cpu_id s) (ioapicid s) v (imcr_out s).
Definition set_mp_mem v s := mkMpst v (bcpu s) (ismp s) (ncpu s) (cpu_id s) (ioapicid s) (lapic s) (imcr_out s).
Definition add_imcr v s := mkMpst (mp_mem s) (bcpu s) (ismp s) (ncpu s) (cpu_id s) (ioapicid s) (lapic s) (imcr_out s ++ v).
Definition mpst0 (m : mem) : mpst := mkMpst m 0 false 0 (replicate (Z.to_nat NCPU) 0) 0 0 [].

Definition mpbcpu : M mpst Z := gets bcpu.

(** One processor entry; [cpus] has [NCPU] elements. *)
Definition mp_proc (p : Z) : M mpst unit :=
  m ← gets mp_mem;
  n ← gets ncpu;
  when (negb (n =? proc_apicid m p)) (modify (set_ismp false)) ;;
  when (negb (Z.land (proc_flags m p) MPBOOT =? 0)) (modify (set_bcpu n)) ;;
  ids ← gets cpu_id;
  if (0 <=? n) && (n <? Z.of_nat (length ids)) then
    modify (set_cpu_id (<[Z.to_nat n := u8 n]> ids)) ;;
    modify (set_ncpu (i32 (n + 1)))
  else fault.

Fixpoint mp_loop (fuel : nat) (p e : Z) : M mpst unit :=
  match fuel with
  | O => fault
  | S f =>
      if p <? e then
        m ← gets mp_mem;
        let t := rd m p in
        if t =? MPPROC then mp_proc p ;; mp_loop f (p + SIZEOF_MPPROC) e
        else if t =? MPIOAPIC then modify (set_ioapicid (ioapic_no m p)) ;; mp_loop f (p + SIZEOF_MPIOAPIC) e
        else if (t =? MPBUS) || (t =? MPIOINTR) || (t =? MPLINTR) then mp_loop f (p + 8) e
        else modify (set_ismp false) ;; mp_loop f p e
      else mret ()
  end.

(** [mpinit]; [imcr] is what port 0x23 reads.  [fuel] bounds the loop over the
    table. *)
Definition mpinit (fuel : nat) (imcr : Z) : M mpst unit :=
  modify (set_bcpu 0) ;;
  m ← gets mp_mem;
  match mpconfig m with
  | None => mret ()
  | Some (mp, conf) =>
      modify (set_ismp true) ;;
      modify (set_lapic (conf_lapicaddr m conf)) ;;
      mp_loop fuel (conf + SIZEOF_MPCONF) (conf + conf_length m conf) ;;
      ok ← gets ismp;
      if negb ok then
        modify (set_ncpu 1) ;; modify (set_lapic 0) ;; modify (set_ioapicid 0)
      else
        when (negb (mp_imcrp m mp =? 0))
          (modify (add_imcr [(0x22, 0x70); (0x23, Z.lor imcr 1)]))
  end.
