(* ===== verification/MpFacts.v ===== *)
(** * Reading the multiprocessor tables

    What [mpinit] makes of a table, as a function of the table's entries; and
    the tables it never gets through. *)
From S2P Require Import Prelude CString Kalloc Mp.
Import Mem MemFacts.

(** ** Tables *)

Inductive entry :=
  | EProc (apicid flags : Z)
  | EIoapic (no : Z)
  | EOther (t : Z).

Definition entry_size (x : entry) : Z :=
  match x with EProc _ _ => SIZEOF_MPPROC | EIoapic _ => SIZEOF_MPIOAPIC | EOther _ => 8 end.

(** The entry at address [p]. *)
Definition entry_at (m : mem) (p : Z) (x : entry) : Prop :=
  match x with
  | EProc a f => rd m p = MPPROC ∧ proc_apicid m p = a ∧ proc_flags m p = f
  | EIoapic n => rd m p = MPIOAPIC ∧ ioapic_no m p = n
  | EOther t => rd m p = t ∧ (t = MPBUS ∨ t = MPIOINTR ∨ t = MPLINTR)
  end.

(** The entries from [p] on, each starting below [e], lead to [q]. *)
Fixpoint entries (m : mem) (p : Z) (es : list entry) (e q : Z) : Prop :=
  match es with
  | [] => p = q
  | x :: es' => p < e ∧ entry_at m p x ∧ entries m (p + entry_size x) es' e q
  end.

Definition procs (es : list entry) : list (Z * Z) :=
  omap (λ x, match x with EProc a f => Some (a, f) | _ => None end) es.
Definition ioapics (es : list entry) : list Z :=
  omap (λ x, match x with EIoapic n => Some n | _ => None end) es.

(** The processors are numbered from [n] in the order of the table. *)
Fixpoint numbered (n : Z) (ps : list (Z * Z)) : bool :=
  match ps with [] => true | (a, _) :: ps' => (n =? a) && numbered (n + 1) ps' end.
(** The last of them that is marked as the one that booted. *)
Fixpoint boot_cpu (n b : Z) (ps : list (Z * Z)) : Z :=
  match ps with
  | [] => b
  | (_, f) :: ps' => boot_cpu (n + 1) (if Z.land f MPBOOT =? 0 then b else n) ps'
  end.
Fixpoint number_ids (n : Z) (k : nat) (ids : list Z) : list Z :=
  match k with O => ids | S k => number_ids (n + 1) k (<[Z.to_nat n := n]> ids) end.

(** The state after the entries. *)
Definition after (es : list entry) (s : mpst) : mpst :=
  mkMpst (mp_mem s) (boot_cpu (ncpu s) (bcpu s) (procs es)) (ismp s && numbered (ncpu s) (procs es))
    (ncpu s + Z.of_nat (length (procs es))) (number_ids (ncpu s) (length (procs es)) (cpu_id s))
    (default (ioapicid s) (list.last (ioapics es))) (lapic s) (imcr_out s).

Lemma after_nil s : after [] s = s.
Proof. destruct s. unfold after. cbn. by rewrite andb_true_r, Z.add_0_r. Qed.

Lemma mp_proc_wp p a f (es : list entry) s Q : entry_at (mp_mem s) p (EProc a f) → 0 ≤ ncpu s →
  ncpu s < Z.of_nat (length (cpu_id s)) ≤ 8 →
  (∀ s', mp_mem s' = mp_mem s → ncpu s' = ncpu s + 1 → length (cpu_id s') = length (cpu_id s) →
     after es s' = after (EProc a f :: es) s → Q () s') → wp (mp_proc p) Q s.
Proof.
  intros (_ & Ha & Hf) Hn Hlt HQ. unfold mp_proc. apply wp_bind, wp_gets, wp_bind, wp_gets. rewrite Ha, Hf.
  apply wp_bind.
  assert (W : ∀ s1 ism, s1 = set_ismp ism s → (ism = ismp s && (ncpu s =? a)) →
    wp (when (negb (Z.land f MPBOOT =? 0)) (modify (set_bcpu (ncpu s))) ;;
        ids ← gets cpu_id;
        if (0 <=? ncpu s) && (ncpu s <? Z.of_nat (length ids)) then
          modify (set_cpu_id (<[Z.to_nat (ncpu s) := u8 (ncpu s)]> ids)) ;; modify (set_ncpu (i32 (ncpu s + 1)))
        else fault) Q s1).
  { intros s1 ism -> Hism. apply wp_bind.
    assert (W : ∀ b, b = (if Z.land f MPBOOT =? 0 then bcpu s else ncpu s) →
      wp (ids ← gets cpu_id;
        if (0 <=? ncpu s) && (ncpu s <? Z.of_nat (length ids)) then
          modify (set_cpu_id (<[Z.to_nat (ncpu s) := u8 (ncpu s)]> ids)) ;; modify (set_ncpu (i32 (ncpu s + 1)))
        else fault) Q (set_bcpu b (set_ismp ism s))).
    { intros b Hb. apply wp_bind, wp_gets. cbn [cpu_id set_bcpu set_ismp].
      rewrite (proj2 (Z.leb_le 0 _)), (proj2 (Z.ltb_lt _ _)) by (cbn; lia). cbn [andb].
      apply wp_bind, wp_modify, wp_modify. rewrite u8_small, i32_small by lia. apply HQ; cbn; [done|done|by rewrite length_insert|].
      unfold after. change (procs (EProc a f :: es)) with ((a, f) :: procs es).
      change (ioapics (EProc a f :: es)) with (ioapics es). cbn [set_ncpu set_cpu_id set_bcpu set_ismp
        mp_mem bcpu ismp ncpu cpu_id ioapicid lapic imcr_out length boot_cpu numbered number_ids].
      rewrite Hb, Hism, andb_assoc. f_equal. lia. }
    destruct (Z.land f MPBOOT =? 0); cbn [negb when]; [|by apply wp_modify, W].
    apply wp_ret. specialize (W (bcpu s) eq_refl). by destruct s. }
  destruct (ncpu s =? a); cbn [negb when].
  - apply wp_ret, (W _ (ismp s)); [by destruct s|by rewrite andb_true_r].
  - apply wp_modify, (W _ false); [done|by rewrite andb_false_r].
Qed.

Lemma mp_loop_wp es Q : ∀ fuel p e q s, entries (mp_mem s) p es e q → 0 ≤ ncpu s →
  ncpu s + Z.of_nat (length (procs es)) ≤ Z.of_nat (length (cpu_id s)) ≤ 8 → (length es ≤ fuel)%nat →
  wp (mp_loop (fuel - length es) q e) Q (after es s) → wp (mp_loop fuel p e) Q s.
Proof.
  induction es as [|x es IH]; intros fuel p e q s He Hn Hc Hf HQ.
  - cbn in He. subst q. rewrite after_nil, Nat.sub_0_r in HQ. done.
  - destruct fuel as [|fuel]; [simpl in Hf; lia|]. destruct He as (Hlt & Hx & He). cbn [mp_loop length] in *.
    rewrite (proj2 (Z.ltb_lt _ _)) by done. apply wp_bind, wp_gets. cbv zeta. destruct x as [a f|n|t].
    + pose proof Hx as (Ht & _). rewrite Ht. change (MPPROC =? MPPROC) with true. cbv iota.
      change (length (procs (EProc a f :: es))) with (S (length (procs es))) in Hc.
      apply wp_bind, (mp_proc_wp p a f es); [done|done|lia|]. intros s' Hm Hn' Hl Ha.
      apply (IH fuel _ e q); [by rewrite Hm|lia|rewrite Hl; lia|lia|]. by rewrite Ha.
    + destruct Hx as [Ht Hno]. rewrite Ht. change (MPIOAPIC =? MPPROC) with false. change (MPIOAPIC =? MPIOAPIC) with true. cbv iota.
      apply wp_bind, wp_modify. apply (IH fuel _ e q); [done|done|done|lia|].
      replace (after es (set_ioapicid (ioapic_no (mp_mem s) p) s)) with (after (EIoapic n :: es) s); [done|].
      unfold after. change (ioapics (EIoapic n :: es)) with (n :: ioapics es). rewrite last_cons.
      cbn. rewrite Hno. f_equal. by destruct (list.last (ioapics es)).
    + destruct Hx as [Ht Hk]. rewrite Ht.
      replace (t =? MPPROC) with false by (by destruct Hk as [-> | [-> | ->]]).
      replace (t =? MPIOAPIC) with false by (by destruct Hk as [-> | [-> | ->]]).
      replace ((t =? MPBUS) || (t =? MPIOINTR) || (t =? MPLINTR)) with true by (by destruct Hk as [-> | [-> | ->]]).
      cbv iota. apply (IH fuel _ e q); [done|done|done|lia|done].
Qed.

(** ** Finding the tables *)

Definition byte_sum (l : list Z) : Z := foldr Z.add 0 l.

(** A floating pointer structure: its signature, and its bytes add up to 0. *)
Definition is_mp (m : mem) (p : Z) : Prop :=
  rd_range m p 4 = [95; 77; 80; 95] ∧ byte_sum (rd_range m p 16) mod 256 = 0.
Definition is_mpconf (m : mem) (c : Z) : Prop :=
  rd_range m c 4 = [80; 67; 77; 80] ∧ (conf_version m c = 1 ∨ conf_version m c = 4) ∧
  byte_sum (rd_range m c (Z.to_nat (conf_length m c))) mod 256 = 0.

Lemma sum_loop_mod m n : ∀ a s, u8 (sum_loop m a n s) = (s + byte_sum (rd_range m a n)) mod 256.
Proof.
  induction n as [|n IH]; intros a s; cbn [sum_loop rd_range byte_sum foldr].
  - by rewrite Z.add_0_r.
  - rewrite IH. unfold byte_sum. rewrite Z.add_assoc, <-Zplus_mod_idemp_l. symmetry. rewrite <-Zplus_mod_idemp_l. do 2 f_equal.
    unfold i32. set (x := s + rd m a). change (2 ^ 32) with (256 * 2 ^ 24).
    rewrite <-(Zminus_mod_idemp_l (_ mod _)).
    assert (E : ((x + 2 ^ 31) mod (256 * 2 ^ 24)) mod 256 = (x + 2 ^ 31) mod 256)
      by (rewrite Z.mul_comm; apply Z.mod_mod_divide; by exists (2 ^ 24)).
    rewrite E, Zminus_mod_idemp_l. f_equal. lia.
Qed.
Lemma sum_spec m a n : sum m a n = byte_sum (rd_range m a (Z.to_nat n)) mod 256.
Proof. apply sum_loop_mod. Qed.

Lemma litcmp_spec m lit : ∀ p, litcmp m p lit = 0 ↔ rd_range m p (length lit) = lit.
Proof.
  induction lit as [|c lit IH]; intros p; cbn [litcmp length rd_range]; [done|].
  destruct (Z.eqb_spec (rd m p) c) as [E|E].
  - rewrite IH, E. split; [by intros ->|by intros [= H]].
  - split; [lia|by intros [= H]].
Qed.

Lemma mp_test m p : (litcmp m p [95; 77; 80; 95] =? 0) && (sum m p SIZEOF_MP =? 0) = true ↔ is_mp m p.
Proof. rewrite andb_true_iff, !Z.eqb_eq, sum_spec, litcmp_spec. done. Qed.

(** [mpsearch1] finds the first structure on the 16-byte grid. *)
Lemma mpsearch1_first m a len : 0 ≤ len →
  (mpsearch1 m a len = 0 ∧ ∀ k, 0 ≤ 16 * k < len → ¬ is_mp m (p2v a + 16 * k)) ∨
  ∃ k, mpsearch1 m a len = p2v a + 16 * k ∧ 0 ≤ 16 * k < len ∧ is_mp m (p2v a + 16 * k) ∧
    ∀ j, 0 ≤ j < k → ¬ is_mp m (p2v a + 16 * j).
Proof.
  intros Hlen. unfold mpsearch1. cbv zeta.
  set (p0 := p2v a) in *. clearbody p0.
  assert (L : ∀ f k, 0 ≤ k → (Z.to_nat len < f + 16 * Z.to_nat k)%nat → (∀ j, 0 ≤ j < k → 16 * j < len → ¬ is_mp m (p0 + 16 * j)) →
    let v := mpsearch1_loop f m (p0 + 16 * k) (p0 + len) in
    (v = 0 ∧ ∀ k, 0 ≤ 16 * k < len → ¬ is_mp m (p0 + 16 * k)) ∨
    ∃ k, v = p0 + 16 * k ∧ 0 ≤ 16 * k < len ∧ is_mp m (p0 + 16 * k) ∧ ∀ j, 0 ≤ j < k → ¬ is_mp m (p0 + 16 * j)).
  { induction f as [|f IH]; intros k Hk Hf Hno; cbn [mpsearch1_loop].
    - left. split; [done|]. intros j Hj. apply Hno; lia.
    - destruct (Z.ltb_spec (p0 + 16 * k) (p0 + len)) as [Hlt|Hge].
      + destruct (_ && _) eqn:E.
        * apply mp_test in E. right. exists k. split_and!; [done|lia|lia|done|]. intros j Hj. apply Hno; lia.
        * assert (Hn : ¬ is_mp m (p0 + 16 * k)) by (rewrite <-mp_test; congruence).
          replace (p0 + 16 * k + SIZEOF_MP) with (p0 + 16 * (k + 1)) by (unfold SIZEOF_MP; lia).
          apply IH; [lia|lia|]. intros j Hj Hj2. destruct (decide (j = k)) as [->|]; [done|apply Hno; lia].
      + left. split; [done|]. intros j Hj. apply Hno; lia. }
  specialize (L (S (Z.to_nat len)) 0 ltac:(lia) ltac:(lia) ltac:(lia)). rewrite Z.mul_0_r, Z.add_0_r in L. exact L.
Qed.

(** Where a floating pointer can lie: the extended BIOS data area, whose segment
    is in the BIOS data area at 40:0E, or without one the last kilobyte of the
    base memory, whose size in kilobytes is at 40:13; then the BIOS ROM from
    0xF0000 on (not from 0xE0000, as the comment of [mpsearch] has it).  In each
    area every 16th address is one. *)
Definition grid (a len : Z) : list Z := (λ k : nat, p2v a + 16 * Z.of_nat k) <$> seq 0 (Z.to_nat (len / 16)).
Definition candidates (m : mem) : list Z :=
  let ebda := 16 * ld16 m (p2v 0x40E) in
  grid (if decide (ebda = 0) then 1024 * ld16 m (p2v 0x413) - 1024 else ebda) 1024 ++ grid 0xF0000 0x10000.

#[export] Instance is_mp_dec m p : Decision (is_mp m p).
Proof. unfold is_mp. apply _. Defined.

(** The floating pointer of the machine: the first candidate that is one. *)
Definition located (m : mem) : option Z := snd <$> list_find (is_mp m) (candidates m).
(** Its table: not a default configuration, with the signature, a known version
    and bytes that add up to 0. *)
Definition table (m : mem) (mp conf : Z) : Prop :=
  located m = Some mp ∧ mp_physaddr m mp ≠ 0 ∧ conf = p2v (mp_physaddr m mp) ∧ is_mpconf m conf.

Lemma grid_lookup a len k : 0 ≤ 16 * Z.of_nat k < len → (16 | len) → grid a len !! k = Some (p2v a + 16 * Z.of_nat k).
Proof.
  intros Hk [d ->]. unfold grid. rewrite Z.div_mul by done. rewrite list_lookup_fmap, lookup_seq_lt by lia. done.
Qed.
Lemma grid_elem a len p : (16 | len) → p ∈ grid a len ↔ ∃ k, p = p2v a + 16 * k ∧ 0 ≤ 16 * k < len.
Proof.
  intros [d ->]. unfold grid. rewrite Z.div_mul by done. rewrite list_elem_of_fmap. split.
  - intros (k & -> & Hk%elem_of_seq). exists (Z.of_nat k). split; [done|lia].
  - intros (k & -> & Hk). exists (Z.to_nat k). split; [by rewrite Z2Nat.id by lia|]. apply elem_of_seq. lia.
Qed.

Lemma mpsearch1_find m a len : 0 ≤ len → (16 | len) →
  mpsearch1 m a len = default 0 (snd <$> list_find (is_mp m) (grid a len)).
Proof.
  intros Hl Hd. destruct (mpsearch1_first m a len Hl) as [[-> Hno]|(k & -> & Hk & Hm & Hb)].
  - assert (list_find (is_mp m) (grid a len) = None) as ->; [|done]. apply list_find_None, list.Forall_forall.
    intros p (k & -> & Hk)%grid_elem; [|done]. by apply Hno.
  - assert (list_find (is_mp m) (grid a len) = Some (Z.to_nat k, p2v a + 16 * k)) as ->; [|done].
    apply list_find_Some. split_and!; [rewrite grid_lookup by (done || lia); do 2 f_equal; lia|done|].
    intros j y Hj Hjk. rewrite grid_lookup in Hj by (done || lia). injection Hj as <-. apply Hb. lia.
Qed.

Lemma grid_nonzero a len : (16 | len) → 0 < p2v a → 0 ∉ grid a len.
Proof. intros Hd Ha (k & E & Hk)%grid_elem; [lia|done]. Qed.

Lemma ld16_bytes m a : (∀ a, is_byte (rd m a)) → Z.lor (Z.shiftl (rd m (a + 1)) 8) (rd m a) = ld16 m a.
Proof.
  intros Hb. pose proof (Hb a) as H0. pose proof (Hb (a + 1)) as H1. unfold is_byte in *.
  unfold ld16. cbn [rd_range le_val]. rewrite <-Z.add_nocarry_lor.
  - rewrite Z.shiftl_mul_pow2 by done. change (2 ^ 8) with 256. lia.
  - apply Z.bits_inj'. intros n Hn. rewrite Z.land_spec, Z.shiftl_spec, Z.bits_0 by done.
    destruct (Z_lt_le_dec n 8) as [|Hn8]; [by rewrite (Z.testbit_neg_r _ (n - 8)) by lia|].
    rewrite (Z.bits_above_log2 (rd m a) n), andb_false_r; [done|lia|].
    destruct (decide (rd m a = 0)) as [->|]; [simpl; lia|]. apply Z.log2_lt_pow2; [lia|].
    pose proof (Z.pow_le_mono_r 2 8 n). lia.
Qed.

(** [mpsearch] finds the machine's floating pointer. *)
Lemma mpsearch_located m : (∀ a, is_byte (rd m a)) →
  mpsearch m = default 0 (located m) ∧ ∀ p, located m = Some p → p ≠ 0.
Proof.
  intros Hb. pose proof (Hb (p2v 0x40E)) as B1. pose proof (Hb (p2v 0x40E + 1)) as B2.
  pose proof (Hb (p2v 0x413)) as B3. pose proof (Hb (p2v 0x413 + 1)) as B4. unfold is_byte in *.
  assert (Hd1 : (16 | 1024)) by (by exists 64). assert (Hd2 : (16 | 0x10000)) by (by exists 4096).
  assert (R1 : 0 ≤ ld16 m (p2v 0x40E) < 65536) by (unfold ld16; cbn [rd_range le_val]; lia).
  assert (R2 : 0 ≤ ld16 m (p2v 0x413) < 65536) by (unfold ld16; cbn [rd_range le_val]; lia).
  unfold mpsearch, located, candidates. cbv zeta.
  change (p2v 0x400 + 0x0F) with (p2v 0x40E + 1). change (p2v 0x400 + 0x0E) with (p2v 0x40E).
  change (p2v 0x400 + 0x14) with (p2v 0x413 + 1). change (p2v 0x400 + 0x13) with (p2v 0x413).
  rewrite !ld16_bytes by done. rewrite Z.shiftl_mul_pow2 by done. change (2 ^ 4) with 16.
  rewrite (Z.mul_comm (ld16 m (p2v 0x40E))), (Z.mul_comm (ld16 m (p2v 0x413))).
  set (a := if decide (16 * ld16 m (p2v 0x40E) = 0) then 1024 * ld16 m (p2v 0x413) - 1024 else 16 * ld16 m (p2v 0x40E)).
  assert (Ha : 0 < p2v a).
  { unfold p2v, KERNBASE. rewrite u32_small; [unfold a; case_decide; lia|]. unfold a. case_decide; lia. }
  assert (E : (if negb (16 * ld16 m (p2v 0x40E) =? 0) then mpsearch1 m (16 * ld16 m (p2v 0x40E)) 1024
     else mpsearch1 m (u32 (1024 * ld16 m (p2v 0x413) - 1024)) 1024) = mpsearch1 m a 1024).
  { unfold a. case_decide as D; [rewrite D|by rewrite (proj2 (Z.eqb_neq _ _) D)]. cbn [Z.eqb negb].
    unfold mpsearch1, p2v. by rewrite u32_add_l. }
  rewrite E, !mpsearch1_find by done.
  pose proof (grid_nonzero a 1024 Hd1 Ha) as N1. pose proof (grid_nonzero 0xF0000 0x10000 Hd2 eq_refl) as N2.
  destruct (list_find (is_mp m) (grid a 1024)) as [[i p]|] eqn:E1.
  - rewrite (list_find_app_l _ _ _ _ _ E1). cbn [fmap option_fmap option_map snd default from_option id].
    assert (p ≠ 0) as Hp.
    { intros ->. apply list_find_Some in E1 as (Hi & _). by apply list_elem_of_lookup_2 in Hi. }
    rewrite (proj2 (Z.eqb_neq _ _) Hp). split; [done|]. by intros ? [= <-].
  - rewrite (list_find_app_r _ _ _ E1). cbn [fmap option_fmap option_map snd default from_option id Z.eqb negb].
    destruct (list_find _ (grid 0xF0000 0x10000)) as [[i p]|] eqn:E2; [|done]. split; [done|].
    cbn [option_map prod_map snd fst]. intros q [= <-]. unfold id. intros ->.
    apply list_find_Some in E2 as (Hi & _). by apply list_elem_of_lookup_2 in Hi.
Qed.

(** [mpconfig] accepts the machine's table and nothing else. *)
Lemma mpconfig_table m mp conf : (∀ a, is_byte (rd m a)) → mpconfig m = Some (mp, conf) ↔ table m mp conf.
Proof.
  intros Hb. destruct (mpsearch_located m Hb) as [Hs Hnz]. unfold table, mpconfig. cbv zeta. rewrite Hs.
  destruct (located m) as [p|]; cbn [default from_option id]; [|split; [done|by intros (? & _)]].
  specialize (Hnz p eq_refl). rewrite (proj2 (Z.eqb_neq _ _) Hnz). cbn [orb].
  assert (V : (negb (conf_version m (p2v (mp_physaddr m p)) =? 1) && negb (conf_version m (p2v (mp_physaddr m p)) =? 4)) = false
    ↔ conf_version m (p2v (mp_physaddr m p)) = 1 ∨ conf_version m (p2v (mp_physaddr m p)) = 4).
  { by rewrite andb_false_iff, !negb_false_iff, !Z.eqb_eq. }
  pose proof (litcmp_spec m [80; 67; 77; 80] (p2v (mp_physaddr m p))) as S. cbn [length] in S.
  pose proof (sum_spec m (p2v (mp_physaddr m p)) (conf_length m (p2v (mp_physaddr m p)))) as C.
  unfold is_mpconf. destruct (Z.eqb_spec (mp_physaddr m p) 0) as [E0|E0].
  { split; [done|]. by intros ([= <-] & ? & _). }
  destruct (Z.eqb_spec (litcmp m (p2v (mp_physaddr m p)) [80; 67; 77; 80]) 0) as [E1|E1]; cbn [negb].
  2:{ split; [done|]. intros ([= <-] & _ & -> & H & _). tauto. }
  destruct (_ && _) eqn:E2.
  { split; [done|]. intros ([= <-] & _ & -> & _ & H & _). apply V in H. congruence. }
  rewrite C. destruct (Z.eqb_spec (byte_sum (rd_range m (p2v (mp_physaddr m p))
    (Z.to_nat (conf_length m (p2v (mp_physaddr m p))))) mod 256) 0) as [E3|E3]; cbn [negb].
  - split; [intros [= <- <-]; tauto|by intros ([= <-] & _ & -> & _)].
  - split; [done|]. intros ([= <-] & _ & -> & _ & _ & H). tauto.
Qed.

(** ** The theorems *)

Lemma number_ids_length n k : ∀ ids, length (number_ids n k ids) = length ids.
Proof. revert n. induction k as [|k IH]; intros n ids; cbn [number_ids]; [done|]. by rewrite IH, length_insert. Qed.

Lemma number_ids_below k : ∀ n ids i, (Z.of_nat i < n) → number_ids n k ids !! i = ids !! i.
Proof.
  induction k as [|k IH]; intros n ids i Hi; cbn [number_ids]; [done|]. rewrite IH by lia.
  apply list_lookup_insert_ne. lia.
Qed.

Lemma number_ids_lookup k : ∀ n ids i, 0 ≤ n → n + Z.of_nat k ≤ Z.of_nat (length ids) → n ≤ Z.of_nat i < n + Z.of_nat k →
  number_ids n k ids !! i = Some (Z.of_nat i).
Proof.
  induction k as [|k IH]; intros n ids i Hn Hl Hi; [lia|]. cbn [number_ids]. destruct (decide (Z.of_nat i = n)) as [E|E].
  - rewrite number_ids_below by lia. replace (Z.to_nat n) with i by lia. rewrite E. apply list_lookup_insert_eq. lia.
  - apply IH; rewrite ?length_insert; lia.
Qed.

(** [cpus] is full. *)
Lemma mp_proc_full p s : Z.of_nat (length (cpu_id s)) ≤ ncpu s → mp_proc p s = Fault.
Proof.
  intros Hn. unfold mp_proc, when, gets, modify, mret, M_ret, mbind, M_bind.
  destruct (negb (ncpu s =? _)), (negb (_ =? 0)); cbn [cpu_id set_bcpu set_ismp ncpu];
    by rewrite (proj2 (Z.ltb_ge _ _) Hn), andb_false_r.
Qed.

(** A table with more processors than [cpus] has room for: the loop writes past
    its end. *)
Lemma mp_loop_overrun e q es : ∀ fuel p s, entries (mp_mem s) p es e q → 0 ≤ ncpu s →
  ncpu s ≤ Z.of_nat (length (cpu_id s)) ≤ 8 → Z.of_nat (length (cpu_id s)) < ncpu s + Z.of_nat (length (procs es)) →
  mp_loop fuel p e s = Fault.
Proof.
  induction es as [|x es IH]; intros fuel p s He Hn Hc Ho; [simpl in Ho; lia|].
  destruct fuel as [|f]; [done|]. destruct He as (Hlt & Hx & He). cbn [mp_loop].
  rewrite (proj2 (Z.ltb_lt _ _) Hlt). rewrite (bind_eq (gets mp_mem) _ s (mp_mem s) s eq_refl). cbv zeta.
  destruct x as [a fl|n|t]; cbn [entry_size] in He.
  - pose proof Hx as (Ht & _). rewrite Ht. change (MPPROC =? MPPROC) with true. cbv iota.
    change (length (procs (EProc a fl :: es))) with (S (length (procs es))) in Ho.
    destruct (Z_lt_le_dec (ncpu s) (Z.of_nat (length (cpu_id s)))) as [Hr|Hr].
    + assert (W : wp (mp_proc p) (λ _ s', mp_mem s' = mp_mem s ∧ ncpu s' = ncpu s + 1 ∧ length (cpu_id s') = length (cpu_id s)) s)
        by (apply (mp_proc_wp p a fl []); [done|done|lia|done]).
      apply wp_Ret in W as ([] & s' & E & H1 & H2 & H3). rewrite (bind_eq _ _ _ () s' E).
      apply IH; [by rewrite H1|lia|rewrite H3; lia|rewrite H2, H3; lia].
    + by rewrite (bind_fault _ _ _ (mp_proc_full p s ltac:(lia))).
  - destruct Hx as [Ht _]. rewrite Ht. change (MPIOAPIC =? MPPROC) with false. change (MPIOAPIC =? MPIOAPIC) with true. cbv iota.
    rewrite (bind_eq (modify _) _ s () (set_ioapicid (ioapic_no (mp_mem s) p) s) eq_refl). by apply IH.
  - destruct Hx as [Ht Hk]. rewrite Ht.
    replace (t =? MPPROC) with false by (by destruct Hk as [-> | [-> | ->]]).
    replace (t =? MPIOAPIC) with false by (by destruct Hk as [-> | [-> | ->]]).
    replace ((t =? MPBUS) || (t =? MPIOINTR) || (t =? MPLINTR)) with true by (by destruct Hk as [-> | [-> | ->]]).
    by apply IH.
Qed.

(** The state [mpinit] leaves for the table [conf], found through [mp], with the
    entries [es]. *)
Definition mp_result (m : mem) (mp conf imcr : Z) (es : list entry) (s : mpst) : Prop :=
  mp_mem s = m ∧ bcpu s = boot_cpu 0 0 (procs es) ∧
  (∀ i, (i < length (procs es))%nat → cpu_id s !! i = Some (Z.of_nat i)) ∧
  if numbered 0 (procs es) then
    ismp s = true ∧ ncpu s = Z.of_nat (length (procs es)) ∧ ioapicid s = default 0 (list.last (ioapics es)) ∧
    lapic s = conf_lapicaddr m conf ∧
    imcr_out s = if mp_imcrp m mp =? 0 then [] else [(0x22, 0x70); (0x23, Z.lor imcr 1)]
  else ismp s = false ∧ ncpu s = 1 ∧ ioapicid s = 0 ∧ lapic s = 0 ∧ imcr_out s = [].

Lemma mpinit_wp m fuel imcr mp conf es q :
  mpconfig m = Some (mp, conf) → entries m (conf + SIZEOF_MPCONF) es (conf + conf_length m conf) q →
  conf + conf_length m conf ≤ q → Z.of_nat (length (procs es)) ≤ NCPU → (length es < fuel)%nat →
  wp (mpinit fuel imcr) (λ _ s, mp_result m mp conf imcr es s) (mpst0 m).
Proof.
  intros Hc He Hq Hn Hf. unfold mp_result.
  unfold mpinit. apply wp_bind, wp_modify, wp_bind, wp_gets. cbn [mp_mem set_bcpu mpst0].
  rewrite Hc.
  apply wp_bind, wp_modify, wp_bind, wp_modify, wp_bind. set (s0 := set_lapic _ _).
  apply (mp_loop_wp es _ fuel _ _ q s0); [exact He|done|done|lia|].
  destruct (fuel - length es)%nat as [|f] eqn:E; [lia|]. cbn [mp_loop]. rewrite (proj2 (Z.ltb_ge _ _)) by done.
  apply wp_ret, wp_bind, wp_gets.
  assert (Hids : ∀ i, (i < length (procs es))%nat → cpu_id (after es s0) !! i = Some (Z.of_nat i)).
  { intros i Hi. unfold after. cbn [cpu_id]. apply number_ids_lookup; [done|done|]. cbn. lia. }
  unfold after in *. cbn [s0 set_lapic set_ismp set_bcpu mpst0 mp_mem bcpu ismp ncpu cpu_id ioapicid lapic imcr_out andb] in *.
  destruct (numbered 0 (procs es)); cbn [negb].
  - destruct (mp_imcrp m mp =? 0); cbn [negb when]; [apply wp_ret|apply wp_modify]; cbn; by split_and!.
  - apply wp_bind, wp_modify, wp_bind, wp_modify, wp_modify. cbn. by split_and!.
Qed.

(** C34. Reading the tables.  When the memory has no table where the MP
    specification and the code look for one ([candidates]), nothing changes.
    Otherwise let the table have entries of known types only.  With at most
    [NCPU] processors the loop ends; when they are numbered in order the machine
    has them all, with their ids, the one marked as such the boot processor, and
    the I/O and local APIC of the table; if not the system falls back to a single
    processor and no APIC.  With more than [NCPU] processors the loop writes past
    the end of [cpus]. *)
Theorem mpinit_correct m fuel imcr (Hb : ∀ a, is_byte (rd m a)) :
  ((∀ mp conf, ¬ table m mp conf) → mpinit fuel imcr (mpst0 m) = Ret () (mpst0 m)) ∧
  ∀ mp conf es q, table m mp conf →
    entries m (conf + SIZEOF_MPCONF) es (conf + conf_length m conf) q → conf + conf_length m conf ≤ q →
    (length es < fuel)%nat →
    if decide (Z.of_nat (length (procs es)) ≤ NCPU) then
      ∃ s, mpinit fuel imcr (mpst0 m) = Ret () s ∧ mp_result m mp conf imcr es s
    else mpinit fuel imcr (mpst0 m) = Fault.
Proof.
  split.
  - intros Hno. unfold mpinit. rewrite (bind_eq (modify (set_bcpu 0)) _ (mpst0 m) () (mpst0 m) eq_refl).
    rewrite (bind_eq (gets mp_mem) _ (mpst0 m) m (mpst0 m) eq_refl).
    destruct (mpconfig m) as [[mp conf]|] eqn:E; [|done]. apply mpconfig_table in E; [|done]. by destruct (Hno mp conf).
  - intros mp conf es q Ht He Hq Hf. apply mpconfig_table in Ht; [|done]. case_decide as Hn.
    + assert (W : wp (mpinit fuel imcr) (λ _ s, mp_result m mp conf imcr es s) (mpst0 m)) by by eapply mpinit_wp.
      apply wp_Ret in W as ([] & s & E & R). by exists s.
    + unfold mpinit. rewrite (bind_eq (modify (set_bcpu 0)) _ (mpst0 m) () (mpst0 m) eq_refl).
      rewrite (bind_eq (gets mp_mem) _ (mpst0 m) m (mpst0 m) eq_refl), Ht.
      rewrite (bind_eq (modify (set_ismp true)) _ (mpst0 m) () (set_ismp true (mpst0 m)) eq_refl).
      set (s1 := set_ismp true (mpst0 m)).
      rewrite (bind_eq (modify (set_lapic (conf_lapicaddr m conf))) _ s1 () (set_lapic (conf_lapicaddr m conf) s1) eq_refl).
      apply bind_fault, (mp_loop_overrun _ q es); [done|done|done|]. change (Z.of_nat (length (cpu_id (set_lapic (conf_lapicaddr m conf) s1)))) with NCPU.
      change (ncpu (set_lapic (conf_lapicaddr m conf) s1)) with 0. lia.
Qed.

Lemma mp_loop_stuck m q e (Hq : q < e) (Hb : rd m q ∉ [MPPROC; MPBUS; MPIOAPIC; MPIOINTR; MPLINTR]) es :
  ∀ fuel p s, mp_mem s = m → entries m p es e q → 0 ≤ ncpu s →
    ncpu s + Z.of_nat (length (procs es)) ≤ Z.of_nat (length (cpu_id s)) ≤ 8 → mp_loop fuel p e s = Fault.
Proof.
  induction es as [|x es IH]; intros fuel p s Hm He Hn Hc.
  - cbn in He. subst p. clear Hn Hc. revert s Hm. induction fuel as [|f IH]; intros s Hm; [done|]. cbn [mp_loop].
    rewrite (proj2 (Z.ltb_lt _ _) Hq), (bind_eq _ _ _ m s) by (unfold gets; by rewrite Hm). cbv zeta.
    rewrite !not_elem_of_cons in Hb. destruct Hb as (B1 & B2 & B3 & B4 & B5 & _).
    rewrite !(proj2 (Z.eqb_neq _ _)) by done. cbn [orb]. rewrite (bind_eq (modify (set_ismp false)) _ s () (set_ismp false s) eq_refl). by apply IH.
  - destruct fuel as [|f]; [done|]. destruct He as (Hlt & Hx & He). cbn [mp_loop].
    rewrite (proj2 (Z.ltb_lt _ _) Hlt), (bind_eq _ _ _ m s) by (unfold gets; by rewrite Hm). cbv zeta.
    destruct x as [a fl|n|t]; cbn [entry_size] in He.
    + pose proof Hx as (Ht & _). rewrite Ht. change (MPPROC =? MPPROC) with true. cbv iota.
      change (length (procs (EProc a fl :: es))) with (S (length (procs es))) in Hc. subst m.
      assert (W : wp (mp_proc p) (λ _ s', mp_mem s' = mp_mem s ∧ ncpu s' = ncpu s + 1 ∧ length (cpu_id s') = length (cpu_id s)) s)
        by (apply (mp_proc_wp p a fl []); [done|done|lia|done]).
      apply wp_Ret in W as ([] & s' & E & H1 & H2 & H3). rewrite (bind_eq _ _ _ () s' E). apply IH; [done|done|lia|rewrite H3; lia].
    + destruct Hx as [Ht _]. rewrite Ht. change (MPIOAPIC =? MPPROC) with false. change (MPIOAPIC =? MPIOAPIC) with true. cbv iota.
      rewrite (bind_eq (modify _) _ s () (set_ioapicid (ioapic_no m p) s) eq_refl). by apply IH.
    + destruct Hx as [Ht Hk]. rewrite Ht.
      replace (t =? MPPROC) with false by (by destruct Hk as [-> | [-> | ->]]).
      replace (t =? MPIOAPIC) with false by (by destruct Hk as [-> | [-> | ->]]).
      replace ((t =? MPBUS) || (t =? MPIOINTR) || (t =? MPLINTR)) with true by (by destruct Hk as [-> | [-> | ->]]).
      by apply IH.
Qed.

(** A table with an entry of another type: [mpinit] stays at it for ever,
    instead of giving up on the table as the fall-back after the loop means it
    to. *)
Theorem mpinit_hangs m mp conf es q (Hc : mpconfig m = Some (mp, conf))
    (He : entries m (conf + SIZEOF_MPCONF) es (conf + conf_length m conf) q) (Hq : q < conf + conf_length m conf)
    (Hn : Z.of_nat (length (procs es)) ≤ NCPU) (Hb : rd m q ∉ [MPPROC; MPBUS; MPIOAPIC; MPIOINTR; MPLINTR]) :
  ∀ fuel imcr s, mpinit fuel imcr (mpst0 m) ≠ Ret () s.
Proof.
  intros fuel imcr s. unfold mpinit. unfold mbind at 1, M_bind at 1, modify at 1. unfold mbind at 1, M_bind at 1, gets at 1.
  cbn [mp_mem set_bcpu mpst0]. rewrite Hc.
  unfold mbind at 1, M_bind at 1, modify at 1. unfold mbind at 1, M_bind at 1, modify at 1. unfold mbind at 1, M_bind at 1.
  by rewrite (mp_loop_stuck m q _ Hq Hb es fuel _ (set_lapic (conf_lapicaddr m conf) (set_ismp true (set_bcpu 0 (mpst0 m))))).
Qed.

(** ** A table with two processors, a bus and an I/O APIC *)

Definition ex_mp : list Z := [95; 77; 80; 95; 0; 0xFD; 9; 0; 1; 4; 26; 0; 128; 0; 0; 0].
Definition ex_table (other : Z) (check : Z) : list Z :=
  [80; 67; 77; 80; 100; 0; 4; check] ++ replicate 26 0 ++ [4; 0; 0; 0; 0xE0; 0xFE; 0; 0; 0; 0] ++
  [0; 0; 1; 2] ++ replicate 16 0 ++ [0; 1; 1; 0] ++ replicate 16 0 ++ other :: replicate 7 0 ++ [2; 2; 1; 1; 0; 0; 0xC0; 0xFE].
Definition ex_mem (other check : Z) : mem :=
  wr_range (wr_range (wr_range ∅ (p2v 0x40E) [0xC0; 0x9F]) (p2v 0x9FC10) ex_mp) (p2v 0x9FD00) (ex_table other check).
Definition ex_entries : list entry := [EProc 0 2; EProc 1 0; EOther 1; EIoapic 2].

Lemma wr_range_bytes m a vs : (∀ b, is_byte (rd m b)) → Forall is_byte vs → ∀ b, is_byte (rd (wr_range m a vs) b).
Proof.
  intros Hm Hv b. rewrite rd_wr_range. case_decide as H; [|done]. rewrite list.Forall_forall in Hv.
  apply Hv. apply list_elem_of_lookup_2 with (Z.to_nat (b - a)). apply list_lookup_lookup_total_lt. lia.
Qed.

Lemma ex_bytes other check : is_byte other → is_byte check → ∀ a, is_byte (rd (ex_mem other check) a).
Proof.
  intros Ho Hc. assert (H0 : is_byte 0) by done.
  apply wr_range_bytes; [apply wr_range_bytes; [apply wr_range_bytes; [done|]|]|]; [by repeat constructor..|].
  unfold ex_table. repeat first [apply List.Forall_nil|apply List.Forall_cons; [done|]|apply Forall_app; split|by apply Forall_replicate].
Qed.

Lemma mpinit_correct_witness :
  ∃ s, mpinit 5 0 (mpst0 (ex_mem 1 188)) = Ret () s ∧ ismp s = true ∧ ncpu s = 2 ∧ bcpu s = 0 ∧ ioapicid s = 2 ∧
    lapic s = 0xFEE00000 ∧ imcr_out s = [(0x22, 0x70); (0x23, 1)].
Proof.
  assert (Hb : ∀ a, is_byte (rd (ex_mem 1 188) a)) by by apply ex_bytes.
  assert (Hc : table (ex_mem 1 188) (p2v 0x9FC10) (p2v 0x9FD00)).
  { apply mpconfig_table; [exact Hb|]. by vm_compute. }
  destruct (mpinit_correct (ex_mem 1 188) 5 0 Hb) as [_ H].
  specialize (H (p2v 0x9FC10) (p2v 0x9FD00) ex_entries (p2v 0x9FD00 + 100) Hc).
  destruct H as (s & E & _ & H2 & _ & H4).
  - do 2 (split; [by vm_compute|split; [by vm_compute|]]). split; [by vm_compute|].
    split; [split; [by vm_compute|by left]|]. split; [by vm_compute|]. split; by vm_compute.
  - by vm_compute.
  - simpl. lia.
  - exists s. change (numbered 0 (procs ex_entries)) with true in H4. cbv iota in H4. destruct H4 as (A & B & C & Dd & F).
    split_and!; [exact E|exact A|exact B|exact H2|exact C|rewrite Dd; by vm_compute|rewrite F; by vm_compute].
Defined.

Lemma mpinit_hangs_witness : ∀ fuel imcr s, mpinit fuel imcr (mpst0 (ex_mem 9 180)) ≠ Ret () s.
Proof.
  apply (mpinit_hangs (ex_mem 9 180) (p2v 0x9FC10) (p2v 0x9FD00) [EProc 0 2; EProc 1 0] (p2v 0x9FD00 + 84)).
  - by vm_compute.
  - do 2 (split; [by vm_compute|split; [by vm_compute|]]). by vm_compute.
  - by vm_compute.
  - by vm_compute.
  - change (rd (ex_mem 9 180) (p2v 0x9FD00 + 84)) with 9. rewrite !not_elem_of_cons. split_and!; try done. apply not_elem_of_nil.
Defined.
