(* ===== verification/Intr.v ===== *)
(** * Interrupt controllers, timer and serial port (picirq.c, ioapic.c, lapic.c,
    timer.c, uart.c)

    These files only write to ports and to registers in memory.  The devices
    are a type class; waiting for one takes fuel.  The APIC addresses and
    [ismp] are those of mp.c.  Messages are left out. *)
From S2P Require Import Prelude CString Kalloc Mp Trap Console.
Import Mem.

(** A byte to a port and from one, a word to a device register and from one. *)
Class IoOps (D : Type) := {
  io_out : Z → Z → D → D;
  io_in : Z → D → Z * D;
  mm_w : Z → Z → D → D;
  mm_r : Z → D → Z * D }.

(** The globals of these files, those of mp.c, the devices. *)
Record intr (D : Type) := mkIntr { irqmask : Z; uart : bool; imp : mpst; dev : D }.
Arguments mkIntr {D}. Arguments irqmask {D}. Arguments uart {D}. Arguments imp {D}. Arguments dev {D}.

Definition IO_PIC1 : Z := 0x20.
Definition IO_PIC2 : Z := 0xA0.
Definition IRQ_SLAVE : Z := 2.
Definition irqmask0 : Z := Z.land 0xFFFF (Z.lnot (Z.shiftl 1 IRQ_SLAVE)).

Definition IOAPIC : Z := 0xFEC00000.
Definition REG_ID : Z := 0.
Definition REG_VER : Z := 1.
Definition REG_TABLE : Z := 0x10.
Definition INT_DISABLED : Z := 0x10000.

(** Local APIC registers. *)
Definition ID : Z := 0x20 / 4.
Definition VER : Z := 0x30 / 4.
Definition TPR : Z := 0x80 / 4.
Definition EOI : Z := 0xB0 / 4.
Definition SVR : Z := 0xF0 / 4.
Definition ENABLE : Z := 0x100.
Definition ESR : Z := 0x280 / 4.
Definition ICRLO : Z := 0x300 / 4.
Definition INIT : Z := 0x500.
Definition STARTUP : Z := 0x600.
Definition DELIVS : Z := 0x1000.
Definition ASSERT : Z := 0x4000.
Definition LEVEL : Z := 0x8000.
Definition BCAST : Z := 0x80000.
Definition ICRHI : Z := 0x310 / 4.
Definition TIMER : Z := 0x320 / 4.
Definition X1 : Z := 0xB.
Definition PERIODIC : Z := 0x20000.
Definition PCINT : Z := 0x340 / 4.
Definition LINT0 : Z := 0x350 / 4.
Definition LINT1 : Z := 0x360 / 4.
Definition ERROR : Z := 0x370 / 4.
Definition MASKED : Z := 0x10000.
Definition TICR : Z := 0x380 / 4.
Definition TDCR : Z := 0x3E0 / 4.
Definition IRQ_ERROR : Z := 19.
Definition IO_RTC : Z := 0x70.

Definition IO_TIMER1 : Z := 0x40.
Definition TIMER_FREQ : Z := 1193182.
Definition TIMER_DIV (x : Z) : Z := (TIMER_FREQ + x / 2) / x.
Definition TIMER_MODE : Z := IO_TIMER1 + 3.
Definition COM1 : Z := 0x3F8.

Section Intr.
Context {D : Type} `{!IoOps D} (fuel : nat).
Abbreviation K := (intr D).

Definition set_irqmask v (s : K) : K := mkIntr v (uart s) (imp s) (dev s).
Definition set_uart v (s : K) : K := mkIntr (irqmask s) v (imp s) (dev s).
Definition set_imp v (s : K) : K := mkIntr (irqmask s) (uart s) v (dev s).
Definition set_dev v (s : K) : K := mkIntr (irqmask s) (uart s) (imp s) v.

Definition outb (port data : Z) : M K unit := modify (λ s, set_dev (io_out port (u8 data) (dev s)) s).
Definition inb (port : Z) : M K Z :=
  r ← gets (λ s : K, io_in port (dev s)); modify (set_dev (snd r)) ;; mret (fst r).
Definition st32_dev (a v : Z) : M K unit := modify (λ s, set_dev (mm_w a (u32 v) (dev s)) s).
Definition ld32_dev (a : Z) : M K Z :=
  r ← gets (λ s : K, mm_r a (dev s)); modify (set_dev (snd r)) ;; mret (fst r).

(** *** picirq.c *)

Definition picsetmask (mask : Z) : M K unit :=
  modify (set_irqmask mask) ;;
  outb (IO_PIC1 + 1) mask ;;
  outb (IO_PIC2 + 1) (Z.shiftr mask 8).

Definition picenable (irq : Z) : M K unit :=
  m ← gets irqmask;
  picsetmask (u16 (Z.land m (Z.lnot (Z.shiftl 1 irq)))).

Definition picinit : M K unit :=
  outb (IO_PIC1 + 1) 0xFF ;;
  outb (IO_PIC2 + 1) 0xFF ;;
  outb IO_PIC1 0x11 ;;
  outb (IO_PIC1 + 1) T_IRQ0 ;;
  outb (IO_PIC1 + 1) (Z.shiftl 1 IRQ_SLAVE) ;;
  outb (IO_PIC1 + 1) 0x3 ;;
  outb IO_PIC2 0x11 ;;
  outb (IO_PIC2 + 1) (T_IRQ0 + 8) ;;
  outb (IO_PIC2 + 1) IRQ_SLAVE ;;
  outb (IO_PIC2 + 1) 0x3 ;;
  outb IO_PIC1 0x68 ;;
  outb IO_PIC1 0x0A ;;
  outb IO_PIC2 0x68 ;;
  outb IO_PIC2 0x0A ;;
  m ← gets irqmask;
  when (negb (m =? 0xFFFF)) (picsetmask m).

(** *** ioapic.c *)

Definition ioapicread (reg : Z) : M K Z := st32_dev IOAPIC reg ;; ld32_dev (IOAPIC + 16).
Definition ioapicwrite (reg data : Z) : M K unit := st32_dev IOAPIC reg ;; st32_dev (IOAPIC + 16) data.

Definition ioapicinit : M K unit :=
  on ← gets (λ s, ismp (imp s));
  if negb on then mret () else
  v ← ioapicread REG_VER;
  let maxintr := Z.land (Z.shiftr v 16) 0xFF in
  ioapicread REG_ID ;;
  for_each (seq 0 (Z.to_nat (maxintr + 1))) (λ i : nat,
    ioapicwrite (REG_TABLE + 2 * Z.of_nat i) (Z.lor INT_DISABLED (T_IRQ0 + Z.of_nat i)) ;;
    ioapicwrite (REG_TABLE + 2 * Z.of_nat i + 1) 0).

Definition ioapicenable (irq cpunum : Z) : M K unit :=
  on ← gets (λ s, ismp (imp s));
  if negb on then mret () else
  ioapicwrite (REG_TABLE + 2 * irq) (T_IRQ0 + irq) ;;
  ioapicwrite (REG_TABLE + 2 * irq + 1) (Z.shiftl cpunum 24).

(** *** lapic.c *)

Definition lapicw (index value : Z) : M K unit :=
  l ← gets (λ s, lapic (imp s));
  st32_dev (l + 4 * index) value ;;
  ld32_dev (l + 4 * ID) ;; mret ().

(** [while(lapic[ICRLO] & DELIVS)]. *)
Fixpoint wait_delivs (f : nat) (l : Z) : M K unit :=
  match f with
  | O => fault
  | S f => v ← ld32_dev (l + 4 * ICRLO); if negb (Z.land v DELIVS =? 0) then wait_delivs f l else mret ()
  end.

Definition lapicinit : M K unit :=
  l ← gets (λ s, lapic (imp s));
  if l =? 0 then mret () else
  lapicw SVR (Z.lor ENABLE (T_IRQ0 + IRQ_SPURIOUS)) ;;
  lapicw TDCR X1 ;;
  lapicw TIMER (Z.lor PERIODIC (T_IRQ0 + IRQ_TIMER)) ;;
  lapicw TICR 10000000 ;;
  lapicw LINT0 MASKED ;;
  lapicw LINT1 MASKED ;;
  v ← ld32_dev (l + 4 * VER);
  when (4 <=? Z.land (Z.shiftr v 16) 0xFF) (lapicw PCINT MASKED) ;;
  lapicw ERROR (T_IRQ0 + IRQ_ERROR) ;;
  lapicw ESR 0 ;;
  lapicw ESR 0 ;;
  lapicw EOI 0 ;;
  lapicw ICRHI 0 ;;
  lapicw ICRLO (Z.lor (Z.lor BCAST INIT) LEVEL) ;;
  wait_delivs fuel l ;;
  lapicw TPR 0.

Definition cpunum : M K Z :=
  l ← gets (λ s, lapic (imp s));
  if negb (l =? 0) then v ← ld32_dev (l + 4 * ID); mret (Z.shiftr v 24) else mret 0.

Definition lapiceoi : M K unit :=
  l ← gets (λ s, lapic (imp s));
  when (negb (l =? 0)) (lapicw EOI 0).

(** [microdelay] does nothing. *)
Definition lapicstartap (apicid addr : Z) : M K unit :=
  outb IO_RTC 0xF ;;
  outb (IO_RTC + 1) 0x0A ;;
  let wrv := p2v (Z.lor (Z.shiftl 0x40 4) 0x67) in
  modify (λ s, set_imp (set_mp_mem (wr_range (wr_range (mp_mem (imp s)) wrv [0; 0]) (wrv + 2) (le_bytes 2 (u16 (Z.shiftr addr 4)))) (imp s)) s) ;;
  lapicw ICRHI (Z.shiftl apicid 24) ;;
  lapicw ICRLO (Z.lor (Z.lor INIT LEVEL) ASSERT) ;;
  lapicw ICRLO (Z.lor INIT LEVEL) ;;
  for_each (seq 0 2) (λ _ : nat,
    lapicw ICRHI (Z.shiftl apicid 24) ;;
    lapicw ICRLO (Z.lor STARTUP (Z.shiftr addr 12))).

(** *** timer.c *)

Definition timerinit : M K unit :=
  outb TIMER_MODE (Z.lor (Z.lor 0 4) 0x30) ;;
  outb IO_TIMER1 (TIMER_DIV 100 mod 256) ;;
  outb IO_TIMER1 (TIMER_DIV 100 / 256) ;;
  picenable IRQ_TIMER.

(** *** uart.c *)

(** The wait for an empty transmitter gives up after 128 polls. *)
Fixpoint uart_wait (n : nat) : M K unit :=
  match n with
  | O => mret ()
  | S n => v ← inb (COM1 + 5); if Z.land v 0x20 =? 0 then uart_wait n else mret ()
  end.
Definition uartputc (c : Z) : M K unit :=
  u ← gets uart;
  if negb u then mret () else
  uart_wait 128 ;;
  outb (COM1 + 0) c.

Definition uartgetc : M K Z :=
  u ← gets uart;
  if negb u then mret (-1) else
  v ← inb (COM1 + 5);
  if Z.land v 1 =? 0 then mret (-1) else inb (COM1 + 0).

Definition uartinit : M K unit :=
  outb (COM1 + 2) 0 ;;
  outb (COM1 + 3) 0x80 ;;
  outb (COM1 + 0) (115200 / 9600) ;;
  outb (COM1 + 1) 0 ;;
  outb (COM1 + 3) 0x03 ;;
  outb (COM1 + 4) 0 ;;
  outb (COM1 + 1) 0x01 ;;
  v ← inb (COM1 + 5);
  if v =? 0xFF then mret () else
  modify (set_uart true) ;;
  inb (COM1 + 2) ;;
  inb (COM1 + 0) ;;
  picenable IRQ_COM1 ;;
  ioapicenable IRQ_COM1 0 ;;
  for_each [120; 118; 54; 46; 46; 46; 10] uartputc.

(** *** consoleinit of console.c

    With [devsw], whose entries are the driver's read and write functions. *)
Definition CONSOLE : Z := 1.
Definition consoleinit {R W} (consoleread : R) (consolewrite : W) : M (consst * gmap Z (R * W) * K) unit :=
  modify (λ s, (fst (fst s), <[CONSOLE := (consoleread, consolewrite)]> (snd (fst s)), snd s)) ;;
  modify (λ s, (Console.set_locking true (fst (fst s)), snd (fst s), snd s)) ;;
  lift (picenable IRQ_KBD) ;;
  lift (ioapicenable IRQ_KBD 0).

End Intr.
