(* ===== verification/IntrFacts.v ===== *)
(** * Interrupts are routed as they were enabled

    The interrupt controllers as their data sheets describe them, and what the
    kernel's writes make of them. *)
From S2P Require Import Prelude CString Kalloc Mp Trap Intr.

(** ** The controllers *)

(** An 8259A: the initialisation words it still expects, the number of its
    first vector, its mask. *)
Record chip := mkChip { c_expect : list nat; c_base : Z; c_imr : Z }.

(** A write to its command port: bit 4 marks ICW1, whose bits 1 and 0 say
    whether ICW3 and ICW4 follow; it clears the mask. *)
Definition chip_cmd (v : Z) (c : chip) : chip :=
  if Z.testbit v 4 then
    mkChip (2%nat :: (if Z.testbit v 1 then [] else [3%nat]) ++ (if Z.testbit v 0 then [4%nat] else [])) (c_base c) 0
  else c.
(** A write to its data port: the next ICW, or the mask. *)
Definition chip_data (v : Z) (c : chip) : chip :=
  match c_expect c with
  | [] => mkChip [] (c_base c) v
  | n :: r => mkChip r (if decide (n = 2%nat) then Z.land v 0xF8 else c_base c) (c_imr c)
  end.
Definition chip_write (cmd data port v : Z) (c : chip) : chip :=
  if port =? cmd then chip_cmd v c else if port =? data then chip_data v c else c.

(** A device with the two 8259As at their ports and an I/O APIC, its register
    selector and registers. *)
Class Controllers (D : Type) `{!IoOps D} (chip1 chip2 : D → chip) (isel : D → Z) (ireg : D → Z → Z) : Prop := {
  c1_out p v d : chip1 (io_out p v d) = chip_write 0x20 0x21 p v (chip1 d);
  c2_out p v d : chip2 (io_out p v d) = chip_write 0xA0 0xA1 p v (chip2 d);
  isel_out p v d : isel (io_out p v d) = isel d;
  ireg_out p v d r : ireg (io_out p v d) r = ireg d r;
  c1_mm a v d : chip1 (mm_w a v d) = chip1 d;
  c2_mm a v d : chip2 (mm_w a v d) = chip2 d;
  isel_mm a v d : isel (mm_w a v d) = if a =? IOAPIC then v else isel d;
  ireg_mm a v d r : ireg (mm_w a v d) r =
    if (a =? IOAPIC + 16) && (r =? isel d) && (REG_TABLE <=? r) then v else ireg d r;
  mm_r_ioapic d : mm_r (IOAPIC + 16) d = (ireg d (isel d), d) }.

Section Route.
Context {D : Type} `{!IoOps D} chip1 chip2 isel ireg `{!Controllers D chip1 chip2 isel ireg}.
Implicit Types (s : intr D).

Lemma wp_outb p v Q s : Q () (set_dev (io_out p (u8 v) (dev s)) s) → wp (outb p v) Q s.
Proof. intros H. by apply wp_modify. Qed.

(** Both chips set up, their masks those of [irqmask]. *)
Definition ready (s : intr D) (m1 m2 : Z) : Prop :=
  chip1 (dev s) = mkChip [] T_IRQ0 m1 ∧ chip2 (dev s) = mkChip [] (T_IRQ0 + 8) m2.
Record pics (s : intr D) (mask : Z) : Prop := {
  pc_mask : irqmask s = mask;
  pc_chips : ready s (u8 mask) (u8 (Z.shiftr mask 8)) }.

(** The I/O APIC and everything that is no device is as before. *)
Definition same_rest (s s' : intr D) : Prop :=
  imp s' = imp s ∧ uart s' = uart s ∧ isel (dev s') = isel (dev s) ∧ ∀ r, ireg (dev s') r = ireg (dev s) r.

Lemma picsetmask_wp mask m1 m2 s Q : ready s m1 m2 →
  (∀ s', pics s' mask → same_rest s s' → Q () s') → wp (picsetmask mask) Q s.
Proof.
  intros [H2 H3] HQ. unfold picsetmask. apply wp_bind, wp_modify, wp_bind, wp_outb, wp_outb, HQ.
  - constructor; [done|]. split; cbn.
    + rewrite !c1_out. unfold chip_write. cbn. by rewrite H2.
    + rewrite !c2_out. unfold chip_write. cbn. by rewrite H3.
  - split_and!; [done|done|cbn; by rewrite !isel_out|]. intros r. cbn. by rewrite !ireg_out.
Qed.

(** One write to a port, with what the chips make of it. *)
Lemma wp_outb_pics p v Q s0 s c1 c2 : same_rest s0 s ∧ irqmask s = irqmask s0 →
  chip1 (dev s) = c1 → chip2 (dev s) = c2 →
  (∀ s', same_rest s0 s' ∧ irqmask s' = irqmask s0 → chip1 (dev s') = chip_write 0x20 0x21 p (u8 v) c1 →
     chip2 (dev s') = chip_write 0xA0 0xA1 p (u8 v) c2 → Q () s') → wp (outb p v) Q s.
Proof.
  intros ((R1 & R2 & R3 & R4) & R5) H1 H2 HQ. apply wp_outb, HQ; cbn [dev set_dev irqmask].
  - split; [|done]. split_and!; [done|done|cbn; by rewrite isel_out|]. intros r. cbn [dev set_dev]. by rewrite ireg_out.
  - by rewrite c1_out, H1.
  - by rewrite c2_out, H2.
Qed.

(** The initialisation words, command by command. *)
Ltac pic_write :=
  apply wp_bind; eapply wp_outb_pics; [eassumption|eassumption|eassumption|];
  match goal with
  | R : same_rest ?s0 ?s ∧ _, H1 : chip1 (dev ?s) = _, H2 : chip2 (dev ?s) = _ |- _ => clear R H1 H2
  end; intros ? ? ? ?.
(** The same when the port and the value decide what the chips become. *)
Ltac pic_step :=
  pic_write;
  repeat match goal with
  | H : _ = chip_write ?a ?b ?p ?v ?c |- _ =>
      let r := eval vm_compute in (chip_write a b p v c) in change (chip_write a b p v c) with r in H
  end.

Lemma picinit_wp s Q : irqmask s ≠ 0xFFFF →
  (∀ s', pics s' (irqmask s) → same_rest s s' → Q () s') → wp picinit Q s.
Proof.
  intros Hm HQ. unfold picinit.
  assert (R0 : same_rest s s ∧ irqmask s = irqmask s) by (by split_and!).
  remember (chip1 (dev s)) as k1 eqn:E1. remember (chip2 (dev s)) as k2 eqn:E2. symmetry in E1, E2.
  do 2 pic_write. remember (chip_write 0x20 0x21 (IO_PIC2 + 1) _ _) as c1 eqn:F1. clear F1.
  remember (chip_write 0xA0 0xA1 (IO_PIC2 + 1) _ _) as c2 eqn:F2. clear F2 k1 k2.
  do 12 pic_step. apply wp_bind, wp_gets.
  match goal with R : same_rest _ _ ∧ _ |- _ => destruct R as [(R1 & R2 & R3 & R4) R5] end.
  rewrite R5, (proj2 (Z.eqb_neq _ _)) by done. cbn [negb when].
  eapply (picsetmask_wp _ 0 0); [by split|]. intros sf Hp (S1 & S2 & S3 & S4). apply HQ; [done|].
  split_and!; [congruence..|]. intros r. by rewrite S4.
Qed.


Lemma picenable_wp irq mask s Q : pics s mask →
  (∀ s', pics s' (u16 (Z.land mask (Z.lnot (Z.shiftl 1 irq)))) → same_rest s s' → Q () s') → wp (picenable irq) Q s.
Proof. intros [H1 H2] HQ. unfold picenable. apply wp_bind, wp_gets. rewrite H1. by eapply picsetmask_wp. Qed.

(** *** The I/O APIC *)

(** The I/O APIC changed only in its registers. *)
Definition regs_now (s s' : intr D) (f : Z → Z) : Prop :=
  irqmask s' = irqmask s ∧ imp s' = imp s ∧ uart s' = uart s ∧ chip1 (dev s') = chip1 (dev s) ∧
  chip2 (dev s') = chip2 (dev s) ∧ ∀ r, ireg (dev s') r = f r.

Lemma ioapicwrite_wp reg v s Q : REG_TABLE ≤ reg < 2 ^ 32 → 0 ≤ v < 2 ^ 32 →
  (∀ s', regs_now s s' (λ r, if r =? reg then v else ireg (dev s) r) → Q () s') → wp (ioapicwrite reg v) Q s.
Proof.
  intros Hr Hv HQ. unfold ioapicwrite. apply wp_bind, wp_modify, wp_modify, HQ. unfold REG_TABLE in *.
  rewrite !u32_small by lia. split_and!; [done..|cbn; by rewrite !c1_mm|cbn; by rewrite !c2_mm|].
  intros r. cbn [dev set_dev]. rewrite !ireg_mm, !isel_mm. cbn -[Z.leb]. change REG_TABLE with 0x10.
  destruct (Z.eqb_spec r reg) as [->|]; cbn [andb]; [by rewrite (proj2 (Z.leb_le _ _)) by lia|done].
Qed.

Lemma ioapicread_wp reg s Q : 0 ≤ reg < 2 ^ 32 →
  (∀ s', regs_now s s' (ireg (dev s)) → Q (ireg (dev s) reg) s') → wp (ioapicread reg) Q s.
Proof.
  intros Hr HQ. unfold ioapicread. apply wp_bind, wp_modify. unfold ld32_dev. apply wp_bind, wp_gets, wp_bind, wp_modify, wp_ret.
  rewrite (u32_small reg) by lia. cbn [dev set_dev]. rewrite mm_r_ioapic. cbn [fst snd]. rewrite isel_mm, ireg_mm. cbn [Z.eqb].
  change (IOAPIC =? IOAPIC) with true. change (IOAPIC =? IOAPIC + 16) with false. cbn [andb]. apply HQ.
  split_and!; [done..|cbn; by rewrite c1_mm|cbn; by rewrite c2_mm|]. intros r. cbn [dev set_dev].
  rewrite ireg_mm. by change (IOAPIC =? IOAPIC + 16) with false.
Qed.

(** The redirection entry of line [i]: the word and its pair. *)
Definition redirect (d : D) (i : Z) : Z * Z := (ireg d (REG_TABLE + 2 * i), ireg d (REG_TABLE + 2 * i + 1)).
Definition disabled (i : Z) : Z * Z := (Z.lor INT_DISABLED (T_IRQ0 + i), 0).
Definition routed (i cpu : Z) : Z * Z := (T_IRQ0 + i, Z.shiftl cpu 24).

Definition same_else (s s' : intr D) : Prop :=
  irqmask s' = irqmask s ∧ imp s' = imp s ∧ uart s' = uart s ∧ chip1 (dev s') = chip1 (dev s) ∧ chip2 (dev s') = chip2 (dev s).

Lemma set_entry_wp i v s Q : 0 ≤ i < 2 ^ 24 → 0 ≤ fst v < 2 ^ 32 → 0 ≤ snd v < 2 ^ 32 →
  (∀ s', same_else s s' → (∀ j, redirect (dev s') j = if j =? i then v else redirect (dev s) j) → Q () s') →
  wp (ioapicwrite (REG_TABLE + 2 * i) (fst v) ;; ioapicwrite (REG_TABLE + 2 * i + 1) (snd v)) Q s.
Proof.
  intros Hi H1 H2 HQ. unfold REG_TABLE in *. apply wp_bind, ioapicwrite_wp; [unfold REG_TABLE; lia|done|].
  intros s1 (A1 & A2 & A3 & A4 & A5 & A6). apply ioapicwrite_wp; [unfold REG_TABLE; lia|done|].
  intros s2 (B1 & B2 & B3 & B4 & B5 & B6). apply HQ; [split_and!; congruence|]. intros j. unfold redirect.
  rewrite !B6, !A6. unfold REG_TABLE. destruct v as [a b]. cbn [fst snd].
  destruct (Z.eqb_spec j i) as [->|Hne].
  - rewrite (proj2 (Z.eqb_neq _ _)) by lia. by rewrite !Z.eqb_refl.
  - by rewrite !(proj2 (Z.eqb_neq _ _)) by lia.
Qed.

Lemma lor_disabled i : 0 ≤ i < 256 → 0 ≤ Z.lor INT_DISABLED (T_IRQ0 + i) < 2 ^ 32.
Proof.
  intros Hi. unfold INT_DISABLED, T_IRQ0. split; [apply Z.lor_nonneg; lia|].
  apply (Z.log2_lt_cancel _ (2 ^ 32)). rewrite Z.log2_lor, Z.log2_pow2 by lia.
  apply Z.max_lub_lt; [done|]. apply Z.log2_lt_pow2; lia.
Qed.

(** The number of the last line. *)
Definition maxintr (d : D) : Z := Z.land (Z.shiftr (ireg d REG_VER) 16) 0xFF.

Lemma maxintr_range d : 0 ≤ maxintr d < 256.
Proof. unfold maxintr. change 0xFF with (Z.ones 8). rewrite Z.land_ones by done. by apply Z.mod_pos_bound. Qed.

Lemma init_entries_wp n Q : ∀ k s, Z.of_nat k + Z.of_nat n ≤ 256 →
  (∀ s', same_else s s' → (∀ j, redirect (dev s') j =
      if (Z.of_nat k <=? j) && (j <? Z.of_nat k + Z.of_nat n) then disabled j else redirect (dev s) j) → Q () s') →
  wp (for_each (seq k n) (λ i : nat,
    ioapicwrite (REG_TABLE + 2 * Z.of_nat i) (Z.lor INT_DISABLED (T_IRQ0 + Z.of_nat i)) ;;
    ioapicwrite (REG_TABLE + 2 * Z.of_nat i + 1) 0)) Q s.
Proof.
  induction n as [|n IH]; intros k s Hk HQ; cbn [seq for_each].
  - apply wp_ret, HQ; [by split_and!|]. intros j. destruct (Z.leb_spec (Z.of_nat k) j), (Z.ltb_spec j (Z.of_nat k + Z.of_nat 0)); cbn [andb]; (done || lia).
  - apply wp_bind, (set_entry_wp (Z.of_nat k) (disabled (Z.of_nat k))); [lia|apply lor_disabled; lia|done|].
    intros s1 A1 A2. apply IH; [lia|]. intros s2 B1 B2. apply HQ.
    + destruct A1 as (?&?&?&?&?), B1 as (?&?&?&?&?). split_and!; congruence.
    + intros j. rewrite B2, A2. destruct (Z.leb_spec (Z.of_nat (S k)) j), (Z.ltb_spec j (Z.of_nat (S k) + Z.of_nat n)),
        (Z.leb_spec (Z.of_nat k) j), (Z.ltb_spec j (Z.of_nat k + Z.of_nat (S n))), (Z.eqb_spec j (Z.of_nat k)) as [->|];
        cbn [andb]; (done || lia).
Qed.

Lemma ioapicinit_wp s Q : ismp (imp s) = true →
  (∀ s', same_else s s' → (∀ j, 0 ≤ j → redirect (dev s') j = if j <=? maxintr (dev s) then disabled j else redirect (dev s) j) →
     Q () s') → wp ioapicinit Q s.
Proof.
  intros Hm HQ. unfold ioapicinit. apply wp_bind, wp_gets. rewrite Hm. cbn [negb].
  apply wp_bind, ioapicread_wp; [unfold REG_VER; lia|]. intros s1 (A1 & A2 & A3 & A4 & A5 & A6). fold (maxintr (dev s)).
  apply wp_bind, ioapicread_wp; [unfold REG_ID; lia|]. intros s2 (B1 & B2 & B3 & B4 & B5 & B6).
  pose proof (maxintr_range (dev s)). apply init_entries_wp; [lia|]. intros s3 C1 C2. apply HQ.
  - destruct C1 as (?&?&?&?&?). split_and!; congruence.
  - intros j Hj. rewrite C2. change (Z.of_nat 0) with 0. rewrite Z2Nat.id by lia.
    destruct (Z.leb_spec 0 j), (Z.ltb_spec j (0 + (maxintr (dev s) + 1))), (Z.leb_spec j (maxintr (dev s))); cbn [andb]; try lia; try done.
    unfold redirect. by rewrite !B6, !A6.
Qed.

(** *** Both controllers *)

Definition enable (e : Z * Z) : M (intr D) unit := picenable (fst e) ;; ioapicenable (fst e) (snd e).

Definition clear_bit (mask irq : Z) : Z := u16 (Z.land mask (Z.lnot (Z.shiftl 1 irq))).
(** The processor a line goes to after the calls [ens]: the last one counts. *)
Definition target (ens : list (Z * Z)) (i : Z) : option Z :=
  foldl (λ o e, if i =? fst e then Some (snd e) else o) None ens.

Lemma ioapicenable_wp irq cpu s Q : ismp (imp s) = true → 0 ≤ irq < 16 → 0 ≤ cpu < 256 →
  (∀ s', same_else s s' → (∀ j, redirect (dev s') j = if j =? irq then routed irq cpu else redirect (dev s) j) → Q () s') →
  wp (ioapicenable irq cpu) Q s.
Proof.
  intros Hm Hi Hc HQ. unfold ioapicenable. apply wp_bind, wp_gets. rewrite Hm. cbn [negb].
  apply (set_entry_wp irq (routed irq cpu)); [lia|unfold routed, T_IRQ0; cbn; lia| |done].
  unfold routed. cbn [snd]. rewrite Z.shiftl_mul_pow2 by done. lia.
Qed.

Lemma enables_wp ens Q : ∀ s mask, ismp (imp s) = true → pics s mask →
  Forall (λ e, 0 ≤ fst e < 16 ∧ 0 ≤ snd e < 256) ens →
  (∀ s', imp s' = imp s → uart s' = uart s → pics s' (foldl clear_bit mask ens.*1) →
     (∀ j, redirect (dev s') j = foldl (λ o e, if j =? fst e then routed (fst e) (snd e) else o) (redirect (dev s) j) ens) → Q () s') →
  wp (for_each ens enable) Q s.
Proof.
  induction ens as [|e ens IH]; intros s mask Hm Hp Hr HQ; cbn [for_each].
  - by apply wp_ret, HQ.
  - apply list.Forall_cons in Hr as [[Hi Hc] Hr]. apply wp_bind. unfold enable at 1. apply wp_bind. eapply picenable_wp; [exact Hp|].
    intros s1 P1 (A1 & A2 & A3 & A4). apply ioapicenable_wp; [by rewrite A1|done|done|]. intros s2 (B1 & B2 & B3 & B4 & B5) B6.
    eapply (IH s2 (clear_bit mask (fst e))); [by rewrite B2, A1| |done|].
    + destruct P1 as [P1 [P2 P3]]. constructor; [by rewrite B1|]. split; [by rewrite B4|by rewrite B5].
    + intros s3 C1 C2 C3 C4. apply HQ; [congruence|congruence|done|]. intros j. rewrite C4, B6. cbn [foldl]. f_equal.
      destruct (j =? fst e); [done|]. unfold redirect. by rewrite !A4.
Qed.

Lemma clear_bit_spec mask irq j : 0 ≤ irq → 0 ≤ j < 16 → Z.testbit (clear_bit mask irq) j = Z.testbit mask j && negb (j =? irq).
Proof.
  intros Hi Hj. unfold clear_bit, u16. rewrite Z.mod_pow2_bits_low, Z.land_spec, Z.lnot_spec by lia. f_equal.
  rewrite Z.shiftl_spec by lia. destruct (Z.eqb_spec j irq) as [->|]; [by rewrite Z.sub_diag|].
  destruct (decide (j < irq)); [by rewrite Z.testbit_neg_r by lia|]. f_equal. apply (Z.bits_above_log2 1); [done|]. cbn. lia.
Qed.

Lemma masks_spec irqs j : Forall (λ i, 0 ≤ i) irqs → 0 ≤ j < 16 → ∀ mask,
  Z.testbit (foldl clear_bit mask irqs) j = Z.testbit mask j && negb (bool_decide (j ∈ irqs)).
Proof.
  intros Hi Hj. induction Hi as [|i irqs Hi _ IH]; intros mask; cbn [foldl]; [by rewrite andb_true_r|].
  rewrite IH, clear_bit_spec, <-andb_assoc, <-negb_orb by done. do 2 f_equal.
  destruct (Z.eqb_spec j i) as [->|Hne]; cbn [orb]; [by rewrite bool_decide_true by left|].
  apply bool_decide_ext. rewrite elem_of_cons. tauto.
Qed.

Lemma target_spec ens j : ∀ v o, v = match o with Some c => routed j c | None => disabled j end →
  foldl (λ o e, if j =? fst e then routed (fst e) (snd e) else o) v ens =
  match foldl (λ o e, if j =? fst e then Some (snd e) else o) o ens with Some c => routed j c | None => disabled j end.
Proof.
  induction ens as [|[i c] ens IH]; intros v o Hv; cbn [foldl fst snd]; [done|]. apply IH.
  by destruct (Z.eqb_spec j i) as [->|].
Qed.
End Route.

(** ** The theorem *)

(** The line is masked in the 8259A it comes in at. *)
Definition pic_masked (c1 c2 : chip) (i : Z) : bool :=
  if i <? 8 then Z.testbit (c_imr c1) i else Z.testbit (c_imr c2) (i - 8).

(** C33. The interrupt controllers, set up by [picinit] and [ioapicinit], after
    any calls of [picenable] and [ioapicenable] for the same lines: both 8259As
    are in operation, with the vectors from [T_IRQ0] on, and let through exactly
    the lines that were enabled and the line to the slave; the I/O APIC sends
    each of its enabled lines to the processor named last, with the vector
    [T_IRQ0 + irq], and has all others disabled. *)
Theorem irq_routing {D} `{!IoOps D} chip1 chip2 isel ireg `{!Controllers D chip1 chip2 isel ireg} (s : intr D) ens
    (Hmask : irqmask s = irqmask0) (Hmp : ismp (imp s) = true)
    (Hens : Forall (λ e, 0 ≤ fst e < 16 ∧ 0 ≤ snd e < 256) ens) :
  wp (picinit ;; ioapicinit ;; for_each ens enable) (λ _ s',
    imp s' = imp s ∧
    c_expect (chip1 (dev s')) = [] ∧ c_expect (chip2 (dev s')) = [] ∧
    c_base (chip1 (dev s')) = T_IRQ0 ∧ c_base (chip2 (dev s')) = T_IRQ0 + 8 ∧
    (∀ i, 0 ≤ i < 16 →
       pic_masked (chip1 (dev s')) (chip2 (dev s')) i = negb (bool_decide (i = IRQ_SLAVE ∨ i ∈ ens.*1))) ∧
    ∀ i, 0 ≤ i ≤ maxintr ireg (dev s) →
      redirect ireg (dev s') i = match target ens i with Some c => routed i c | None => disabled i end) s.
Proof.
  apply wp_bind. eapply (picinit_wp chip1 chip2 isel ireg); [by rewrite Hmask|]. intros s1 P1 (A1 & A2 & A3 & A4).
  apply wp_bind. eapply (ioapicinit_wp chip1 chip2 isel ireg); [by rewrite A1|]. intros s2 (B1 & B2 & B3 & B4 & B5) B6.
  rewrite Hmask in P1. destruct P1 as [P1 [P2 P3]].
  eapply (enables_wp chip1 chip2 isel ireg ens _ s2 irqmask0); [by rewrite B2, A1| |exact Hens|].
  { constructor; [congruence|]. split; congruence. }
  intros s3 C1 C2 [C3 [C4 C5]] C6. set (mask := foldl clear_bit irqmask0 ens.*1) in *. rewrite C4, C5.
  split_and!; [congruence|done|done|done|done|..].
  - intros i Hi. assert (Hb : pic_masked (mkChip [] T_IRQ0 (u8 mask)) (mkChip [] (T_IRQ0 + 8) (u8 (Z.shiftr mask 8))) i = Z.testbit mask i).
    { unfold pic_masked, u8. cbn [c_imr]. change 256 with (2 ^ 8). destruct (Z.ltb_spec i 8); rewrite Z.mod_pow2_bits_low by lia; [done|].
      rewrite Z.shiftr_spec by lia. f_equal. lia. }
    rewrite Hb. unfold mask. rewrite masks_spec; [|apply Forall_fmap; eapply list.Forall_impl; [exact Hens|intros e [He _]; cbn; lia]|done].
    unfold irqmask0. rewrite Z.land_spec, Z.lnot_spec, Z.shiftl_spec by lia.
    change 0xFFFF with (Z.ones 16). rewrite Z.ones_spec_low by lia. cbn [andb]. rewrite <-negb_orb. f_equal.
    apply Bool.eq_iff_eq_true. rewrite orb_true_iff, !bool_decide_eq_true. unfold IRQ_SLAVE.
    assert (Z.testbit 1 (i - 2) = true ↔ i = 2) as ->; [|tauto].
    destruct (decide (i = 2)) as [->|]; [done|]. split; [|done]. destruct (decide (i < 2)); [by rewrite Z.testbit_neg_r by lia|].
    rewrite (Z.bits_above_log2 1) by (cbn; lia). done.
  - intros i Hi. rewrite C6, B6 by lia. unfold maxintr in *. rewrite !A4 in *. rewrite (proj2 (Z.leb_le i _)) by lia.
    by apply (target_spec ens i _ None).
Qed.

(** ** A pair of 8259As and an I/O APIC with 24 lines *)

Record board := mkBoard { b_1 : chip; b_2 : chip; b_sel : Z; b_reg : gmap Z Z }.
Definition breg (d : board) (r : Z) : Z := default (if r =? REG_VER then 23 * 2 ^ 16 else 0) (b_reg d !! r).
#[export] Instance board_ops : IoOps board := {
  io_out p v d := mkBoard (chip_write 0x20 0x21 p v (b_1 d)) (chip_write 0xA0 0xA1 p v (b_2 d)) (b_sel d) (b_reg d);
  io_in p d := (0, d);
  mm_w a v d := mkBoard (b_1 d) (b_2 d) (if a =? IOAPIC then v else b_sel d)
    (if (a =? IOAPIC + 16) && (REG_TABLE <=? b_sel d) then <[b_sel d := v]> (b_reg d) else b_reg d);
  mm_r a d := (if a =? IOAPIC + 16 then breg d (b_sel d) else 0, d) }.
#[export] Instance board_ok : Controllers board b_1 b_2 b_sel breg.
Proof.
  constructor; try done. intros a v d r. unfold breg. cbn [mm_w board_ops b_reg].
  destruct (a =? IOAPIC + 16); cbn [andb]; [|done].
  destruct (Z.eqb_spec r (b_sel d)) as [->|Hne]; cbn [andb].
  - destruct (REG_TABLE <=? b_sel d); [by rewrite lookup_insert_eq|done].
  - destruct (REG_TABLE <=? b_sel d); [by rewrite lookup_insert_ne|done].
Qed.

(** The lines of the kernel: the keyboard, the serial port, the disk. *)
Lemma irq_routing_witness :
  let s := mkIntr irqmask0 false (set_ismp true (mpst0 ∅)) (mkBoard (mkChip [] 0 0) (mkChip [] 0 0) 0 ∅) in
  wp (picinit ;; ioapicinit ;; for_each [(1, 0); (4, 0); (14, 1)] enable) (λ _ s',
    redirect breg (dev s') 14 = (46, 2 ^ 24) ∧ redirect breg (dev s') 15 = (0x1002F, 0) ∧
    pic_masked (b_1 (dev s')) (b_2 (dev s')) 1 = false ∧ pic_masked (b_1 (dev s')) (b_2 (dev s')) 3 = true) s.
Proof.
  intros s. eapply wp_mono; [apply (irq_routing b_1 b_2 b_sel breg s [(1, 0); (4, 0); (14, 1)])|].
  - done.
  - done.
  - repeat (apply list.Forall_cons; split); [..|done]; cbn; lia.
  - intros _ s' (_ & _ & _ & _ & _ & H1 & H2). rewrite (H2 14), (H2 15), (H1 1), (H1 3); [done|lia|lia|vm_compute; done|vm_compute; done].
Defined.

(** ** The local APIC *)

(** A local APIC at address [l]: its registers take what is written; reading
    changes none; a delivery is over after at most [w] reads of the command
    register. *)
Fixpoint delivered {D} `{!IoOps D} (l : Z) (n : nat) (d : D) : Prop :=
  let r := mm_r (l + 4 * ICRLO) d in
  Z.land (fst r) DELIVS = 0 ∨ match n with O => False | S n => delivered l n (snd r) end.
Class LocalApic (D : Type) `{!IoOps D} (l : Z) (w : nat) (lreg : D → Z → Z) : Prop := {
  la_write i v d j : 0 ≤ i → lreg (mm_w (l + 4 * i) v d) j = if j =? i then v else lreg d j;
  la_read i d j : lreg (snd (mm_r (l + 4 * i) d)) j = lreg d j;
  la_version d : fst (mm_r (l + 4 * VER) d) = lreg d VER;
  la_busy d : delivered l w d }.

Section Lapic.
Context {D : Type} `{!IoOps D} (l : Z) (w : nat) (lreg : D → Z → Z) `{!LocalApic D l w lreg} (fuel : nat) (Hfuel : (w < fuel)%nat).
Implicit Types (s : intr D).

(** The registers, and what is no device. *)
Definition lapic_now (s s' : intr D) (f : Z → Z) : Prop :=
  irqmask s' = irqmask s ∧ uart s' = uart s ∧ imp s' = imp s ∧ ∀ j, lreg (dev s') j = f j.

Lemma lapicw_wp s0 f i v s Q : lapic_now s0 s f → lapic (imp s0) = l → 0 ≤ i → 0 ≤ v < 2 ^ 32 →
  (∀ s', lapic_now s0 s' (λ j, if j =? i then v else f j) → Q () s') → wp (lapicw i v) Q s.
Proof.
  intros (H1 & H2 & H3 & H4) Hl Hi Hv HQ. unfold lapicw. apply wp_bind, wp_gets. rewrite H3, Hl.
  apply wp_bind, wp_modify, wp_bind. unfold ld32_dev. apply wp_bind, wp_gets, wp_bind, wp_modify, wp_ret, wp_ret, HQ.
  split_and!; [done..|]. intros j. cbn [dev set_dev]. by rewrite la_read, la_write, u32_small, H4.
Qed.

Lemma wait_delivs_wp s0 f Q n : ∀ k s, (n < k)%nat → delivered l n (dev s) → lapic_now s0 s f →
  (∀ s', lapic_now s0 s' f → Q () s') → wp (wait_delivs k l) Q s.
Proof.
  induction n as [|n IH]; intros [|k] s Hk Hd (H1 & H2 & H3 & H4) HQ; try lia; cbn [wait_delivs]; apply wp_bind; unfold ld32_dev;
    apply wp_bind, wp_gets, wp_bind, wp_modify, wp_ret; cbn [delivered] in Hd; cbv zeta in Hd.
  all: assert (HN : lapic_now s0 (set_dev (snd (mm_r (l + 4 * ICRLO) (dev s))) s) f)
    by (split_and!; [done..|intros j; cbn [dev set_dev]; by rewrite la_read, H4]).
  - destruct Hd as [Hd|[]]. rewrite Hd. cbn [Z.eqb negb]. by apply wp_ret, HQ.
  - destruct (Z.eqb_spec (Z.land (fst (mm_r (l + 4 * ICRLO) (dev s))) DELIVS) 0) as [E|E]; cbn [negb]; [by apply wp_ret, HQ|].
    destruct Hd as [Hd|Hd]; [done|]. apply IH; [lia|done|exact HN|done].
Qed.

(** [lapicinit] ends; the local APIC is enabled and lets interrupts through,
    its timer is periodic with the clock's vector, the local lines and, where
    there is one, the performance counter are masked, errors have a vector. *)
Lemma lapicinit_ready s : lapic (imp s) = l → l ≠ 0 →
  wp (lapicinit fuel) (λ _ s', imp s' = imp s ∧ irqmask s' = irqmask s ∧
    lreg (dev s') SVR = Z.lor ENABLE (T_IRQ0 + IRQ_SPURIOUS) ∧
    lreg (dev s') TIMER = Z.lor PERIODIC (T_IRQ0 + IRQ_TIMER) ∧ lreg (dev s') TICR = 10000000 ∧
    lreg (dev s') LINT0 = MASKED ∧ lreg (dev s') LINT1 = MASKED ∧ lreg (dev s') ERROR = T_IRQ0 + IRQ_ERROR ∧
    lreg (dev s') TPR = 0 ∧ lreg (dev s') EOI = 0 ∧
    (4 ≤ Z.land (Z.shiftr (lreg (dev s) VER) 16) 0xFF → lreg (dev s') PCINT = MASKED)) s.
Proof.
  intros Hl Hne. unfold lapicinit. apply wp_bind, wp_gets. rewrite Hl, (proj2 (Z.eqb_neq _ _)) by done.
  assert (N0 : lapic_now s s (lreg (dev s))) by (by split_and!).
  do 6 (apply wp_bind; eapply lapicw_wp; [eassumption|exact Hl|by vm_compute|by vm_compute|]; clear N0; intros ? N0).
  apply wp_bind. unfold ld32_dev. apply wp_bind, wp_gets, wp_bind, wp_modify, wp_ret. rewrite la_version.
  destruct N0 as (N1 & N2 & N3 & N4). rewrite N4. set (s1 := set_dev _ _).
  assert (N0 : lapic_now s s1 _) by (split_and!; [exact N1|exact N2|exact N3|intros j; cbn [s1 dev set_dev]; rewrite la_read; apply N4]).
  clearbody s1. clear N1 N2 N3 N4. set (v := Z.land _ 0xFF).
  assert (Ev : v = Z.land (Z.shiftr (lreg (dev s) VER) 16) 0xFF) by done. clearbody v.
  apply wp_bind, (wp_mono _ (λ _ s2, ∃ f, lapic_now s s2 f ∧ f SVR = Z.lor ENABLE (T_IRQ0 + IRQ_SPURIOUS) ∧
    f TIMER = Z.lor PERIODIC (T_IRQ0 + IRQ_TIMER) ∧ f TICR = 10000000 ∧ f LINT0 = MASKED ∧ f LINT1 = MASKED ∧ (4 ≤ v → f PCINT = MASKED))).
  { destruct (Z.leb_spec 4 v); cbn [when].
    - eapply lapicw_wp; [exact N0|exact Hl|by vm_compute|by vm_compute|]. intros s2 N2. eexists. split; [exact N2|]. by split_and!.
    - apply wp_ret. eexists. split; [exact N0|]. split_and!; try done. lia. }
  clear N0. intros _ s2 (f & N0 & F1 & F2 & F3 & F4 & F5 & F6).
  do 6 (apply wp_bind; eapply lapicw_wp; [exact N0|exact Hl|by vm_compute|by vm_compute|]; clear N0; intros ? N0).
  apply wp_bind. eapply wait_delivs_wp; [exact Hfuel|apply la_busy|exact N0|]. clear N0. intros s3 N0.
  eapply lapicw_wp; [exact N0|exact Hl|by vm_compute|by vm_compute|]. intros s4 (N1 & N2 & N3 & N4).
  rewrite !N4. split_and!; try done.
Qed.
End Lapic.
