(* ===== verification/Ide.v ===== *)
(** * The IDE disk driver (ide.c)

    The queue is linked through the buffers' [qnext].  The controller is seen
    through what is written to its ports ([ports]: a port and the values) and
    what it answers, which the interrupt handler gets as arguments: whether the
    status shows an error and the sector's data. *)
From S2P Require Import Prelude Spinlock Core Bio.

Definition IDE_CMD_READ : Z := 0x20.
Definition IDE_CMD_WRITE : Z := 0x30.

(** The buffers, their [qnext], [idequeue], [havedisk1], the port writes. *)
Record ide := mkIde {
  ibs : list buf; qnext : gmap nat nat; idequeue : option nat; havedisk1 : bool;
  ports : list (Z * list Z) }.
Definition set_ibs v s := mkIde v (qnext s) (idequeue s) (havedisk1 s) (ports s).
Definition set_qnext v s := mkIde (ibs s) v (idequeue s) (havedisk1 s) (ports s).
Definition set_idequeue v s := mkIde (ibs s) (qnext s) v (havedisk1 s) (ports s).
Definition set_havedisk1 v s := mkIde (ibs s) (qnext s) (idequeue s) v (ports s).
Definition add_ports v s := mkIde (ibs s) (qnext s) (idequeue s) (havedisk1 s) (ports s ++ v).

(** The end of the chain from [b]: the buffer whose [qnext] is null. *)
Fixpoint queue_last (fuel : nat) (q : gmap nat nat) (b : nat) : option nat :=
  match fuel with
  | O => None
  | S f => match q !! b with None => Some b | Some b' => queue_last f q b' end
  end.

Section Ide.
Context {Ext : Type}.
Abbreviation K := (core * (ide * Ext))%type.

Definition getd {A} (f : ide → A) : M K A := gets (λ s : K, f (fst (snd s))).
Definition modd (f : ide → ide) : M K unit := modify (λ s : K, (fst s, (f (fst (snd s)), snd (snd s)))).
Definition getib {A} (b : nat) (f : buf → A) : M K A :=
  o ← getd (λ d, ibs d !! b); x ← deref o; mret (f x).
Definition setib (b : nat) (f : buf → buf) : M K unit := modd (λ d, set_ibs (alter f b (ibs d)) d).

(** The start-up probe: [probe] are the answers to its reads of the status. *)
Definition ideinit (probe : list Z) : M K unit :=
  modd (add_ports [(0x1f6, [Z.lor 0xe0 16])]) ;;
  when (existsb (λ r, negb (r =? 0)) (take 1000 probe)) (modd (set_havedisk1 true)) ;;
  modd (add_ports [(0x1f6, [0xe0])]).

(** [idestart]; [idewait] before the port writes only waits. *)
Definition idestart (o : option nat) : M K unit :=
  match o with
  | None => panic "idestart"
  | Some b =>
      x ← getib b (λ x, x);
      let s := sector x in
      modd (add_ports [
        (0x3f6, [0]); (0x1f2, [1]); (0x1f3, [Z.land s 0xff]);
        (0x1f4, [Z.land (Z.shiftr s 8) 0xff]); (0x1f5, [Z.land (Z.shiftr s 16) 0xff]);
        (0x1f6, [Z.lor (Z.lor 0xe0 (Z.shiftl (Z.land (bdev x) 1) 4)) (Z.land (Z.shiftr s 24) 0x0f)])]) ;;
      modd (add_ports
        (if negb (Z.land (flags x) B_DIRTY =? 0)
         then [(0x1f7, [IDE_CMD_WRITE]); (0x1f0, bdata x)]
         else [(0x1f7, [IDE_CMD_READ])]))
  end.

Definition ideintr (err : bool) (input : list Z) : M K unit :=
  acquire L_ide ;;
  o ← getd idequeue;
  match o with
  | None => release L_ide
  | Some b =>
      n ← getd (λ d, qnext d !! b);
      modd (set_idequeue n) ;;
      f ← getib b flags;
      when ((Z.land f B_DIRTY =? 0) && negb err) (setib b (set_bdata input)) ;;
      setib b (λ x, set_flags (Z.lor (flags x) B_VALID) x) ;;
      setib b (λ x, set_flags (Z.land (flags x) (Z.lnot B_DIRTY)) x) ;;
      wakeup (Ch_buf b) ;;
      q ← getd idequeue;
      match q with
      | Some _ => idestart q
      | None => mret ()
      end ;;
      release L_ide
  end.

(** The [while] of [iderw], [idelock] held. *)
Definition iderw_wait (b : nat) : M K unit :=
  f ← getib b flags;
  if negb (Z.land f (Z.lor B_VALID B_DIRTY) =? B_VALID) then sleep (Ch_buf b) L_ide
  else release L_ide.
Definition iderw (b : nat) : M K unit :=
  f ← getib b flags;
  if Z.land f B_BUSY =? 0 then panic "iderw: buf not busy" else
  if Z.land f (Z.lor B_VALID B_DIRTY) =? B_VALID then panic "iderw: nothing to do" else
  d ← getib b bdev; h ← getd havedisk1;
  if negb (d =? 0) && negb h then panic "iderw: ide disk 1 not present" else
  acquire L_ide ;;
  modd (λ d, set_qnext (delete b (qnext d)) d) ;;
  q ← getd idequeue;
  match q with
  | None => modd (set_idequeue (Some b))
  | Some h =>
      o ← getd (λ d, queue_last (S (length (ibs d))) (qnext d) h);
      l ← deref o;
      modd (λ d, set_qnext (<[l := b]> (qnext d)) d)
  end ;;
  q ← getd idequeue;
  when (bool_decide (q = Some b)) (idestart q) ;;
  iderw_wait b.
Definition iderw_resume (b : nat) : M K unit := sleep_resume L_ide ;; iderw_wait b.

End Ide.
