(* ===== verification/IdeFacts.v ===== *)
(** * The disk driver serves requests in order (ide.c)

    The controller carries out the request its ports were last loaded with
    ([active]) and raises an interrupt.  The driver's queue is a chain through
    the buffers; its head is the request the controller has. *)
From S2P Require Import Prelude Spinlock Core Bio Ide Duo.

(** ** The controller *)

(** A request: drive, sector, and the data of a write. *)
Record req := mkReq { rdev : Z; rsector : Z; rdata : option (list Z) }.

(** What a port was last given. *)
Definition reg (p : Z) (ws : list (Z * list Z)) : option (list Z) :=
  snd <$> (list.last (base.filter (λ w, fst w = p) ws) : option (Z * list Z)).
Definition reg1 (p : Z) (ws : list (Z * list Z)) : option Z := reg p ws ≫= head.

(** The request in the ports, as the ATA documents describe 28-bit addressing. *)
Definition active (ws : list (Z * list Z)) : option req :=
  s0 ← reg1 0x1f3 ws; s1 ← reg1 0x1f4 ws; s2 ← reg1 0x1f5 ws; dh ← reg1 0x1f6 ws;
  cmd ← reg1 0x1f7 ws;
  let sec := s0 + 2 ^ 8 * s1 + 2 ^ 16 * s2 + 2 ^ 24 * (dh mod 16) in
  let dev := dh / 16 mod 2 in
  if cmd =? IDE_CMD_WRITE then (λ d, mkReq dev sec (Some d)) <$> reg 0x1f0 ws
  else if cmd =? IDE_CMD_READ then Some (mkReq dev sec None) else None.

(** The disks' contents; carrying out a request; what a read delivers. *)
Abbreviation disks := (gmap (Z * Z) (list Z)).
Definition serve (D : disks) (r : req) : disks :=
  match rdata r with Some d => <[(rdev r, rsector r) := d]> D | None => D end.
Definition answer (D : disks) (r : req) : list Z := default [] (D !! (rdev r, rsector r)).

(** ** The driver's queue *)

Definition dirty (x : buf) : bool := negb (Z.land (flags x) B_DIRTY =? 0).
Definition finished (x : buf) : bool := Z.land (flags x) (Z.lor B_VALID B_DIRTY) =? B_VALID.
Definition request (x : buf) : req :=
  mkReq (bdev x) (sector x) (if dirty x then Some (bdata x) else None).
Definition addressable (x : buf) : Prop := 0 ≤ bdev x < 2 ∧ 0 ≤ sector x < 2 ^ 28.

Fixpoint chain (o : option nat) (q : gmap nat nat) (l : list nat) : Prop :=
  match l with [] => o = None | b :: l' => o = Some b ∧ chain (q !! b) q l' end.

Record queued (d : ide) (l : list nat) : Prop := {
  q_chain : chain (idequeue d) (qnext d) l;
  q_once : NoDup l;
  q_bufs b : b ∈ l → ∃ x, ibs d !! b = Some x ∧ addressable x ∧ finished x = false;
  q_active b x : head l = Some b → ibs d !! b = Some x → active (ports d) = Some (request x) }.

(** ** Ports *)

Lemma reg_app p ws ws' : reg p (ws ++ ws') = match reg p ws' with Some v => Some v | None => reg p ws end.
Proof. unfold reg. rewrite list.filter_app, list.last_app. by destruct (list.last (base.filter _ ws')). Qed.

Definition commands (x : buf) : list (Z * list Z) :=
  let s := sector x in
  [(0x3f6, [0]); (0x1f2, [1]); (0x1f3, [Z.land s 0xff]);
   (0x1f4, [Z.land (Z.shiftr s 8) 0xff]); (0x1f5, [Z.land (Z.shiftr s 16) 0xff]);
   (0x1f6, [Z.lor (Z.lor 0xe0 (Z.shiftl (Z.land (bdev x) 1) 4)) (Z.land (Z.shiftr s 24) 0x0f)])] ++
  (if dirty x then [(0x1f7, [IDE_CMD_WRITE]); (0x1f0, bdata x)] else [(0x1f7, [IDE_CMD_READ])]).

Lemma drive_head dev h : 0 ≤ dev < 2 → 0 ≤ h < 16 →
  Z.lor (Z.lor 0xe0 (Z.shiftl (Z.land dev 1) 4)) h = 0xe0 + 16 * dev + h.
Proof.
  intros Hd Hh. assert (H : Forall (λ d, Forall (λ h,
    Z.lor (Z.lor 0xe0 (Z.shiftl (Z.land d 1) 4)) h = 0xe0 + 16 * d + h) (seqZ 0 16)) (seqZ 0 2)).
  { repeat constructor. }
  rewrite list.Forall_forall in H. specialize (H dev). rewrite list.Forall_forall in H.
  apply H; apply elem_of_seqZ; lia.
Qed.

(** The sector from its bytes, the drive from the drive/head register. *)
Lemma sector_bytes s h : 0 ≤ s < 2 ^ 28 → h mod 16 = s / 2 ^ 24 →
  s mod 2 ^ 8 + 2 ^ 8 * (s / 2 ^ 8 mod 2 ^ 8) + 2 ^ 16 * (s / 2 ^ 16 mod 2 ^ 8) + 2 ^ 24 * (h mod 16) = s.
Proof.
  intros Hs ->. change (2 ^ 16) with (2 ^ 8 * 2 ^ 8). change (2 ^ 24) with (2 ^ 8 * 2 ^ 8 * 2 ^ 8).
  rewrite <-!Z.div_div by done.
  pose proof (Z.div_mod s (2 ^ 8)). pose proof (Z.div_mod (s / 2 ^ 8) (2 ^ 8)).
  pose proof (Z.div_mod (s / 2 ^ 8 / 2 ^ 8) (2 ^ 8)). lia.
Qed.

Lemma drive_bits dev h : 0 ≤ dev < 2 → 0 ≤ h < 16 →
  (224 + 16 * dev + h) / 16 mod 2 = dev ∧ (224 + 16 * dev + h) mod 16 = h.
Proof.
  intros. replace (224 + 16 * dev + h) with (h + (14 + dev) * 16) by lia.
  rewrite Z.div_add, Z.mod_add, (Z.mod_small h), (Z.div_small h) by lia. split; [|done].
  replace (0 + (14 + dev)) with (dev + 7 * 2) by lia. rewrite Z.mod_add by done. by apply Z.mod_small.
Qed.

(** The ports encode a 28-bit sector and the drive. *)
Lemma active_commands ws x : addressable x → active (ws ++ commands x) = Some (request x).
Proof.
  intros [Hd Hs]. unfold active, reg1. rewrite !reg_app.
  pose proof (Z.land_ones (sector x) 8) as E0. pose proof (Z.land_ones (Z.shiftr (sector x) 8) 8) as E1.
  pose proof (Z.land_ones (Z.shiftr (sector x) 16) 8) as E2. pose proof (Z.land_ones (Z.shiftr (sector x) 24) 4) as E3.
  change (Z.ones 8) with 255 in *. change (Z.ones 4) with 15 in *. rewrite Z.shiftr_div_pow2 in * by done.
  assert (Hh : 0 ≤ sector x / 2 ^ 24 < 16).
  { split; [apply Z.div_pos; lia|]. apply Z.div_lt_upper_bound; lia. }
  pose proof (drive_head (bdev x) (sector x / 2 ^ 24)) as Eh.
  assert (Hdrive : Z.lor (Z.lor 224 (Z.shiftl (Z.land (bdev x) 1) 4)) (Z.land (Z.shiftr (sector x) 24) 15) =
    224 + 16 * bdev x + sector x / 2 ^ 24).
  { rewrite <-Eh by lia. f_equal. rewrite Z.shiftr_div_pow2 by done. rewrite E3 by done. apply Z.mod_small. lia. }
  unfold commands. rewrite Hdrive, !Z.shiftr_div_pow2, E0, E1, E2 by done.
  destruct (drive_bits (bdev x) (sector x / 2 ^ 24) Hd Hh) as [Dd Dh].
  pose proof (sector_bytes (sector x) _ Hs Dh) as Es.
  unfold request. destruct (dirty x); unfold reg; simpl; do 2 f_equal; assumption.
Qed.

(** ** Flags *)

Lemma done_flags f : Z.land (Z.land (Z.lor f B_VALID) (Z.lnot B_DIRTY)) (Z.lor B_VALID B_DIRTY) = B_VALID.
Proof.
  apply Z.bits_inj'. intros n Hn. rewrite !Z.land_spec, !Z.lor_spec, Z.lnot_spec by done.
  destruct (decide (n = 1)) as [->|]; [simpl; by rewrite orb_true_r|].
  assert (E : Z.testbit B_VALID n = false) by (apply (Z.pow2_bits_false 1); lia).
  rewrite E. by destruct (Z.testbit B_DIRTY n); rewrite ?andb_false_r.
Qed.

(** What the interrupt makes of a buffer. *)
Definition settle (err : bool) (input : list Z) (x : buf) : buf :=
  let y := if negb (dirty x) && negb err then set_bdata input x else x in
  set_flags (Z.land (Z.lor (flags x) B_VALID) (Z.lnot B_DIRTY)) y.

Lemma settle_finished err input x : finished (settle err input x) = true.
Proof. unfold finished. simpl. rewrite done_flags. done. Qed.

(** ** Runs *)

Section Runs.
Context {Ext : Type}.
Abbreviation K := (core * (ide * Ext))%type.
Implicit Types (c : core) (d : ide) (e : Ext).

Lemma getd_run {A} (f : ide → A) c d e : getd f ((c, (d, e)) : K) = Ret (f d) (c, (d, e)).
Proof. done. Qed.
Lemma modd_run f c d e : modd f ((c, (d, e)) : K) = Ret () (c, (f d, e)).
Proof. done. Qed.
Lemma getib_run {A} b (f : buf → A) x c d e : ibs d !! b = Some x →
  getib b f ((c, (d, e)) : K) = Ret (f x) (c, (d, e)).
Proof. intros H. unfold getib. erewrite bind_eq by apply getd_run. by rewrite H. Qed.

Lemma idestart_run b x c d e : ibs d !! b = Some x →
  idestart (Some b) ((c, (d, e)) : K) = Ret () (c, (add_ports (commands x) d, e)).
Proof.
  intros H. unfold idestart. erewrite bind_eq by by apply getib_run.
  cbv zeta. erewrite bind_eq by apply modd_run. rewrite modd_run. do 3 f_equal.
  unfold add_ports, commands, dirty. simpl. by rewrite <-app_assoc.
Qed.

Lemma chain_length d l : queued d l → (length l ≤ length (ibs d))%nat.
Proof.
  intros [_ Hn Hb _]. rewrite <-(List.length_seq (length (ibs d)) 0). apply list.submseteq_length.
  apply NoDup_submseteq; [done|]. intros b H. apply elem_of_seq.
  destruct (Hb b H) as (x & Hx & _). apply lookup_lt_Some in Hx. lia.
Qed.

(** Where the loop over [qnext] stops. *)
Lemma queue_last_run q l : ∀ fuel h b, chain (Some h) q (l ++ [b]) → (length l < fuel)%nat →
  queue_last fuel q h = Some b ∧ q !! b = None.
Proof.
  induction l as [|a l IH]; intros [|f] h b Hc Hf; try (simpl in Hf; lia).
  - destruct Hc as [[= ->] Hn]. simpl in *. by rewrite Hn.
  - destruct Hc as [[= ->] Hc]. cbn [queue_last]. destruct (q !! a) as [h'|] eqn:E.
    + apply (IH f h' b Hc). simpl in Hf. lia.
    + by destruct l; destruct Hc.
Qed.

Lemma chain_ext q q' l : ∀ o, (∀ b, b ∈ l → q' !! b = q !! b) → chain o q l → chain o q' l.
Proof.
  induction l as [|b l IH]; intros o H; [done|]. intros [-> Hc]. split; [done|].
  rewrite H by set_solver. apply IH; [|done]. intros. apply H. set_solver.
Qed.

(** Linking a new buffer behind the last one. *)
Lemma chain_snoc q l b a : ∀ o, chain o q (l ++ [b]) → NoDup (l ++ [b]) → a ∉ l ++ [b] → q !! a = None →
  chain o (<[b := a]> q) (l ++ [b; a]).
Proof.
  induction l as [|h l IH]; intros o; simpl.
  - intros [-> Hn] _ Ha Hq. rewrite lookup_insert_eq. split_and!; try done.
    rewrite lookup_insert_ne by set_solver. done.
  - intros [-> Hc] [Hh Hd]%list.NoDup_cons Ha Hq. split; [done|].
    rewrite lookup_insert_ne by set_solver. apply IH; try done. set_solver.
Qed.

Lemma setib_run b f x c d e : ibs d !! b = Some x →
  setib b f ((c, (d, e)) : K) = Ret () (c, (set_ibs (<[b := f x]> (ibs d)) d, e)).
Proof.
  intros H. unfold setib. rewrite modd_run. do 4 f_equal. apply list_eq. intros i.
  destruct (decide (i = b)) as [->|].
  - rewrite list_lookup_alter_eq, H, list_lookup_insert_eq; [done|by eapply lookup_lt_Some].
  - by rewrite list_lookup_alter_ne, list_lookup_insert_ne.
Qed.

(** Buffers that are not in the queue may change. *)
Lemma queued_set_ibs d l b y : queued d l → b ∉ l → queued (set_ibs (<[b := y]> (ibs d)) d) l.
Proof.
  intros [H1 H2 H3 H4] Hb. constructor; try done.
  - intros i Hi. simpl. rewrite list_lookup_insert_ne by set_solver. auto.
  - intros i x Hh. simpl. rewrite list_lookup_insert_ne; [by apply H4|].
    intros ->. apply Hb. destruct l; [done|]. simpl in Hh. injection Hh as ->. set_solver.
Qed.

(** The head leaves; the next request goes to the controller. *)
Definition start_next (l : list nat) d : ide :=
  match l with
  | [] => d
  | b :: _ => add_ports (match ibs d !! b with Some x => commands x | None => [] end) d
  end.

Lemma queued_next d b l : queued d (b :: l) → queued (start_next l (set_idequeue (qnext d !! b) d)) l.
Proof.
  intros [[Ho Hc] Hn Hb Ha]. inversion_clear Hn as [|? ? Hnb Hn'].
  destruct l as [|b' l]; [constructor; simpl; try done; set_solver|]. constructor; simpl; try done.
  - intros i Hi. apply Hb. set_solver.
  - intros i x [= ->] Hx. rewrite Hx. apply active_commands.
    destruct (Hb i) as (x' & Hx' & Had & _); [set_solver|]. by simplify_eq.
Qed.

Lemma start_next_set l b y d : b ∉ l →
  start_next l (set_ibs (<[b := y]> (ibs d)) d) = set_ibs (<[b := y]> (ibs d)) (start_next l d).
Proof. destruct l as [|b' l]; [done|]. intros Hb. simpl. rewrite list_lookup_insert_ne by set_solver. done. Qed.

(** The interrupt's three stores to the buffer. *)
Lemma settle_run {A} err input b x (k : M K A) c d e : ibs d !! b = Some x →
  (when ((Z.land (flags x) B_DIRTY =? 0) && negb err) (setib b (set_bdata input)) ;;
   setib b (λ x, set_flags (Z.lor (flags x) B_VALID) x) ;;
   setib b (λ x, set_flags (Z.land (flags x) (Z.lnot B_DIRTY)) x) ;; k) (c, (d, e)) =
  k (c, (set_ibs (<[b := settle err input x]> (ibs d)) d, e)).
Proof.
  intros Hx. assert (Hlt : (b < length (ibs d))%nat) by by eapply lookup_lt_Some.
  assert (E : ∀ y d1, flags y = flags x → ibs d1 = <[b := y]> (ibs d) → set_ibs (ibs d) d1 = d →
    (setib b (λ x, set_flags (Z.lor (flags x) B_VALID) x) ;;
     setib b (λ x, set_flags (Z.land (flags x) (Z.lnot B_DIRTY)) x) ;; k) (c, (d1, e)) =
    k (c, (set_ibs (<[b := set_flags (Z.land (Z.lor (flags x) B_VALID) (Z.lnot B_DIRTY)) y]> (ibs d)) d, e))).
  { intros y d1 Hy Hd1 Hd. assert (Hb : ibs d1 !! b = Some y) by (rewrite Hd1; by apply list_lookup_insert_eq).
    erewrite bind_eq by (apply setib_run, Hb).
    erewrite bind_eq by (apply setib_run; simpl; apply list_lookup_insert_eq; by rewrite Hd1, length_insert).
    do 3 f_equal. rewrite <-Hd. unfold set_ibs. simpl. f_equal. rewrite Hd1, !list_insert_insert_eq.
    simpl. by rewrite Hy. }
  unfold settle, dirty. rewrite negb_involutive. destruct ((Z.land (flags x) B_DIRTY =? 0) && negb err); cbn [when].
  - erewrite bind_eq by by apply setib_run. apply E; [done|done|]. by destruct d.
  - erewrite bind_eq by done. apply E; [done| |by destruct d]. by rewrite list_insert_id.
Qed.

Lemma ideintr_run err input b l x c d e :
  queued d (b :: l) → ibs d !! b = Some x → L_ide ∉ locks c → L_ptable ∉ locks c →
  ∃ d', ideintr err input ((c, (d, e)) : K) = Ret () (wakes (Ch_buf b) c, (d', e)) ∧
    queued d' l ∧ ibs d' = <[b := settle err input x]> (ibs d).
Proof.
  intros Hq Hx Hl Hl'. pose proof Hq as [[Ho Hc] Hn Hb Ha]. inversion_clear Hn as [|? ? Hnb Hn'].
  set (d1 := set_idequeue (qnext d !! b) d).
  set (d2 := set_ibs (<[b := settle err input x]> (ibs d)) d1).
  exists (start_next l d2). split_and!.
  2:{ unfold d2. change (ibs d) with (ibs d1) at 1. rewrite start_next_set by done.
      replace (ibs d1) with (ibs (start_next l d1)) by by destruct l.
      apply queued_set_ibs; [|done]. by apply queued_next. }
  2:{ by destruct l. }
  unfold ideintr. erewrite bind_eq by by apply pair_acquire.
  erewrite bind_eq by apply getd_run. rewrite Ho. erewrite bind_eq by apply getd_run.
  erewrite bind_eq by apply modd_run. erewrite bind_eq by by apply getib_run.
  rewrite (settle_run err input b x _ _ d1) by done.
  change (set_ibs (<[b := settle err input x]> (ibs d1)) d1) with d2.
  erewrite bind_eq by (apply pair_wakeup; simpl; set_solver).
  erewrite bind_eq by apply getd_run. change (idequeue d2) with (qnext d !! b).
  erewrite bind_eq.
  2:{ instantiate (1 := (wakes (Ch_buf b) (set_locks ({[L_ide]} ∪ locks c) c), (start_next l d2, e))).
      destruct l as [|b' l]; [by rewrite Hc|]. destruct Hc as [-> _].
      destruct (Hb b') as (y & Hy & _); [set_solver|].
      assert (Hy' : ibs d2 !! b' = Some y) by (simpl; rewrite list_lookup_insert_ne; [done|set_solver]).
      rewrite (idestart_run b' y) by done. unfold start_next. rewrite Hy'. done. }
  rewrite pair_release by (simpl; set_solver). do 2 f_equal.
  transitivity (wakes (Ch_buf b)
    (set_locks (locks (set_locks ({[L_ide]} ∪ locks c) c) ∖ {[L_ide]}) (set_locks ({[L_ide]} ∪ locks c) c)));
    [done|]. by rewrite lock_unlock.
Qed.

(** The new request goes to the end. *)
Lemma queued_add d l b x : queued d l → b ∉ l → ibs d !! b = Some x → addressable x → finished x = false →
  ∃ d', queued d' (l ++ [b]) ∧ ibs d' = ibs d ∧ 
    (∀ A (k : M K A) c e,
      (modd (λ d, set_qnext (delete b (qnext d)) d) ;;
       q ← getd idequeue;
       match q with
       | None => modd (set_idequeue (Some b))
       | Some h =>
           o ← getd (λ d, queue_last (S (length (ibs d))) (qnext d) h);
           l ← deref o;
           modd (λ d, set_qnext (<[l := b]> (qnext d)) d)
       end ;;
       q ← getd idequeue;
       when (bool_decide (q = Some b)) (idestart q) ;; k) (c, (d, e)) = k (c, (d', e))).
Proof.
  intros Hq Hb Hx Ha Hf. pose proof (chain_length d l Hq) as HL. destruct Hq as [Hc Hn Hbs Hact].
  assert (Hc' : chain (idequeue d) (delete b (qnext d)) l).
  { eapply chain_ext; [|exact Hc]. intros i Hi. rewrite lookup_delete_ne; [done|]. by intros ->. }
  set (d1 := set_qnext (delete b (qnext d)) d).
  destruct (decide (l = [])) as [->|Hne].
  - exists (add_ports (commands x) (set_idequeue (Some b) d1)). split_and!; [|done|].
    + constructor; simpl.
      * split; [done|]. apply lookup_delete_eq.
      * apply list.NoDup_singleton.
      * intros i Hi%list_elem_of_singleton. subst. eauto.
      * intros i y [= ->] Hy. simplify_eq. by apply active_commands.
    + intros A k c e. erewrite bind_eq by apply modd_run. erewrite bind_eq by apply getd_run.
      change (idequeue _) with (idequeue d). simpl in Hc. rewrite Hc.
      erewrite bind_eq by apply modd_run. erewrite bind_eq by apply getd_run.
      cbn [idequeue set_idequeue]. rewrite bool_decide_eq_true_2 by done. cbn [when].
      by erewrite bind_eq by by apply (idestart_run b x).
  - destruct (exists_last Hne) as (l0 & z & ->).
    destruct (idequeue d) as [h|] eqn:Eh; [|by destruct l0; destruct Hc].
    destruct (queue_last_run (delete b (qnext d)) l0 (S (length (ibs d))) h z Hc') as [El Ez].
    { rewrite length_app in HL. simpl in HL. lia. }
    exists (set_qnext (<[z := b]> (delete b (qnext d))) d1). split_and!; [|done|].
    + constructor; simpl.
      * rewrite <-app_assoc. rewrite Eh. apply chain_snoc; [done..|]. apply lookup_delete_eq.
      * apply list.NoDup_app. split_and!; [done| |apply list.NoDup_singleton]. set_solver.
      * intros i Hi. apply elem_of_app in Hi as [Hi|Hi%list_elem_of_singleton]; [auto|]. subst. eauto.
      * intros i y Hi. apply Hact. rewrite <-Hi. by destruct l0.
    + intros A k c e. erewrite bind_eq by apply modd_run. erewrite bind_eq by apply getd_run.
      change (idequeue _) with (idequeue d). rewrite Eh. 
      erewrite bind_eq.
      2:{ erewrite bind_eq by apply getd_run. cbn [qnext set_qnext ibs]. rewrite El. cbn [deref].
          erewrite bind_eq by done. apply modd_run. }
      erewrite bind_eq by apply getd_run. change (idequeue _) with (idequeue d). rewrite Eh.
      rewrite bool_decide_eq_false_2; [by erewrite bind_eq by done|].
      intros [= ->]. apply Hb. destruct l0; destruct Hc as [[= ->] _]; set_solver.
Qed.

Lemma iderw_run me pr b l x c d e : queued d l → b ∉ l → ibs d !! b = Some x → addressable x →
  finished x = false → Z.land (flags x) B_BUSY ≠ 0 → (bdev x = 0 ∨ havedisk1 d = true) →
  locks c = ∅ → cur c = Some me → ptable c !! me = Some pr →
  ∃ d', iderw b ((c, (d, e)) : K) = Block (slept (Ch_buf b) me (set_locks {[L_ide]} c), (d', e)) ∧
    queued d' (l ++ [b]) ∧ ibs d' = ibs d.
Proof.
  intros Hq Hb Hx Ha Hf Hbusy Hdev Hl Hc Hp.
  destruct (queued_add d l b x Hq Hb Hx Ha Hf) as (d' & Hq' & Hi & E). exists d'. split; [|done].
  unfold iderw. erewrite bind_eq by by apply getib_run. rewrite (proj2 (Z.eqb_neq _ _)) by done.
  fold (finished x). rewrite Hf. erewrite bind_eq by by apply getib_run. erewrite bind_eq by apply getd_run.
  replace (negb (bdev x =? 0) && negb (havedisk1 d)) with false
    by (destruct Hdev as [->| ->]; rewrite ?andb_false_r; done).
  erewrite bind_eq by (apply pair_acquire; set_solver). rewrite Hl, union_empty_r_L. rewrite E.
  unfold iderw_wait. erewrite bind_eq by (apply getib_run; by rewrite Hi). fold (finished x). rewrite Hf. cbn [negb].
  by apply (pair_sleep (Ch_buf b) L_ide me pr).
Qed.

End Runs.

(** C18. The driver and the controller together serve requests in order.  From a
    state whose queue is [l]: [iderw] for a busy buffer with work to do puts it
    at the end of the queue, leaves the others alone and sleeps on it; an
    interrupt after the controller carried out the request it was given, which
    is the head's, marks the head valid and clean with the data the disk then
    holds at its sector, wakes its owner and gives the controller the next
    request; a spurious interrupt changes nothing; and the owner, once woken,
    returns if its buffer is done and otherwise sleeps again. *)
Theorem ide_serves_in_order {Ext : Type} c (d : ide) (e : Ext) l : queued d l →
  (∀ me pr b x, b ∉ l → ibs d !! b = Some x → addressable x →
     finished x = false → Z.land (flags x) B_BUSY ≠ 0 → (bdev x = 0 ∨ havedisk1 d = true) →
     locks c = ∅ → cur c = Some me → ptable c !! me = Some pr →
     ∃ d', iderw b (c, (d, e)) = Block (slept (Ch_buf b) me (set_locks {[L_ide]} c), (d', e)) ∧
       queued d' (l ++ [b]) ∧ ibs d' = ibs d) ∧
  (∀ b l' x D r, l = b :: l' → ibs d !! b = Some x → active (ports d) = Some r →
     L_ide ∉ locks c → L_ptable ∉ locks c →
     ∃ d' x', ideintr false (answer D r) (c, (d, e)) = Ret () (wakes (Ch_buf b) c, (d', e)) ∧
       queued d' l' ∧ ibs d' = <[b := x']> (ibs d) ∧ finished x' = true ∧
       bdata x' = default [] (serve D r !! (bdev x, sector x)) ∧
       serve D r = (if dirty x then <[(bdev x, sector x) := bdata x]> D else D)) ∧
  (∀ err input, l = [] → L_ide ∉ locks c → ideintr err input (c, (d, e)) = Ret () (c, (d, e))) ∧
  (∀ me pr b x, ibs d !! b = Some x → locks c = {[L_ptable]} → cur c = Some me → ptable c !! me = Some pr →
     iderw_resume b (c, (d, e)) =
       if finished x then Ret () (set_locks ∅ (awake me L_ide c), (d, e))
       else Block (slept (Ch_buf b) me (awake me L_ide c), (d, e))).
Proof.
  intros Hq. split_and!.
  - intros. by eapply iderw_run.
  - intros b l' x D r -> Hx Hr Hl Hl'.
    rewrite (q_active _ _ Hq b x) in Hr by done. injection Hr as <-.
    destruct (ideintr_run false (answer D (request x)) b l' x c d e) as (d' & E & Hq' & Hi); try done.
    exists d', (settle false (answer D (request x)) x). split_and!; try done.
    + apply settle_finished.
    + unfold settle, serve, answer, request. cbn [rdata rdev rsector]. rewrite andb_true_r.
      destruct (dirty x); cbn [negb]; [by rewrite lookup_insert_eq|done].
    + unfold serve, request. simpl. by destruct (dirty x).
  - intros err input -> Hl. unfold ideintr. erewrite bind_eq by by apply pair_acquire.
    erewrite bind_eq by apply getd_run. rewrite (q_chain _ _ Hq : idequeue d = None).
    rewrite pair_release by set_solver. by rewrite lock_unlock.
  - intros me pr b x Hx Hl Hc Hp. unfold iderw_resume.
    erewrite bind_eq by (apply pair_sleep_resume; rewrite ?Hl; set_solver).
    assert (Ha : locks (awake me L_ide c) = {[L_ide]}) by (simpl; rewrite Hl; set_solver).
    unfold iderw_wait. erewrite bind_eq by by apply getib_run. fold (finished x).
    destruct (finished x); cbn [negb].
    + rewrite pair_release by set_solver. rewrite Ha, difference_diag_L. done.
    + eapply (pair_sleep (Ch_buf b) L_ide me); [done|done|done|].
      simpl. by rewrite list_lookup_alter_eq, Hp.
Qed.

(** A read of sector 5 at an idle driver, and the interrupt. *)
Definition ex_buf : buf := mkBuf B_BUSY 0 5 0 0 [].
Definition ex_ide : ide := mkIde [ex_buf] ∅ None false [].
Definition ex_core : core := mkCore ∅ [set_state RUNNING proc0] 1 (Some 0%nat) (Some 0%nat).
Lemma ex_queued : queued ex_ide [].
Proof. constructor; simpl; [done|constructor|set_solver|done]. Qed.

Lemma ide_serves_in_order_witness :
  ∃ c' d' d'' x', iderw 0 (ex_core, (ex_ide, ())) = Block (c', (d', ())) ∧
    ideintr false [42] (set_locks ∅ c', (d', ())) = Ret () (wakes (Ch_buf 0) (set_locks ∅ c'), (d'', ())) ∧
    ibs d'' = [x'] ∧ finished x' = true ∧ bdata x' = [42].
Proof.
  destruct (ide_serves_in_order ex_core ex_ide () [] ex_queued) as [H _].
  destruct (H 0%nat (set_state RUNNING proc0) 0%nat ex_buf) as (d' & E & Hq & Hi);
    [set_solver|done|done|done|done|by left|done|done|done|].
  exists (slept (Ch_buf 0) 0 (set_locks {[L_ide]} ex_core)), d'.
  destruct (ide_serves_in_order (set_locks ∅ (slept (Ch_buf 0) 0 (set_locks {[L_ide]} ex_core))) d' () [0%nat] Hq)
    as (_ & H' & _).
  destruct (H' 0%nat [] ex_buf {[(0, 5) := [42]]} (mkReq 0 5 None)) as (d'' & x' & E' & _ & Hi' & Hf & Hd & _);
    [done|by rewrite Hi|exact (q_active _ _ Hq 0%nat ex_buf eq_refl ltac:(by rewrite Hi))|simpl; set_solver..|].
  exists d'', x'. rewrite Hi in Hi'. split_and!; [exact E|exact E'|exact Hi'|exact Hf|exact Hd].
Defined.
