(* ===== verification/Umalloc.v ===== *)
(** * The user-level allocator (umalloc.c)

    Memory is a map from the byte address of a [Header] to its [ptr] and [size]
    fields; a [Header] has eight bytes and [size] counts headers.  [sbrk] is the
    system call. *)
From S2P Require Import Prelude.

Definition HDR : Z := 8.

(** The headers, [freep], and the state of the kernel behind [sbrk]. *)
Record uheap := mkHeap { hptr : gmap Z Z; hsize : gmap Z Z; freep : Z }.
Definition set_hptr v h := mkHeap v (hsize h) (freep h).
Definition set_hsize v h := mkHeap (hptr h) v (freep h).
Definition set_freep v h := mkHeap (hptr h) (hsize h) v.
Definition heap0 : uheap := mkHeap ∅ ∅ 0.

(** A bound on the length of the free list. *)
Definition hdr_count (h : uheap) : nat := base.size (hptr h).

Section Umalloc.
Context {E : Type}.
Abbreviation K := (uheap * E)%type.
(** The address of [base]; the system call. *)
Context (base : Z) (sbrk : Z → M K Z).

Definition geth {A} (f : uheap → A) : M K A := gets (λ s : K, f (fst s)).
Definition modh (f : uheap → uheap) : M K unit := modify (λ s : K, (f (fst s), snd s)).
(** [p->s.ptr] and [p->s.size]. *)
Definition ptr (p : Z) : M K Z := o ← geth (λ h, hptr h !! p); deref o.
Definition size (p : Z) : M K Z := o ← geth (λ h, hsize h !! p); deref o.
Definition set_ptr (p v : Z) : M K unit := modh (λ h, set_hptr (<[p := v]> (hptr h)) h).
Definition set_size (p v : Z) : M K unit := modh (λ h, set_hsize (<[p := v]> (hsize h)) h).

(** [free]'s loop: the block after which [bp] goes. *)
Fixpoint free_scan (fuel : nat) (bp p : Z) : M K Z :=
  match fuel with
  | O => fault
  | S f =>
      q ← ptr p;
      if (p <? bp) && (bp <? q) then mret p
      else if (q <=? p) && ((p <? bp) || (bp <? q)) then mret p
      else free_scan f bp q
  end.
Definition free (ap : Z) : M K unit :=
  let bp := ap - HDR in
  n ← geth (λ h, hdr_count h); p0 ← geth freep;
  p ← free_scan (S n) bp p0;
  q ← ptr p;
  sb ← size bp;
  (if u32 (bp + HDR * sb) =? q then
     sq ← size q; set_size bp (u32 (sb + sq)) ;;
     qq ← ptr q; set_ptr bp qq
   else set_ptr bp q) ;;
  sp ← size p;
  (if u32 (p + HDR * sp) =? bp then
     sb ← size bp; set_size p (u32 (sp + sb)) ;;
     bq ← ptr bp; set_ptr p bq
   else set_ptr p bp) ;;
  modh (set_freep p).

Definition morecore (nu : Z) : M K Z :=
  let nu := if nu <? 4096 then 4096 else nu in
  p ← sbrk (i32 (u32 (nu * HDR)));
  if p =? u32 (-1) then mret 0 else
  set_size p nu ;;
  free (p + HDR) ;;
  geth freep.

(** [malloc]'s loop. *)
Fixpoint malloc_loop (fuel : nat) (nunits prevp p : Z) : M K Z :=
  match fuel with
  | O => fault
  | S f =>
      s ← size p;
      if nunits <=? s then
        p ← (if s =? nunits then
               q ← ptr p; set_ptr prevp q ;; mret p
             else
               set_size p (s - nunits) ;;
               let p := u32 (p + HDR * (s - nunits)) in
               set_size p nunits ;; mret p);
        modh (set_freep prevp) ;;
        mret (p + HDR)
      else
        fp ← geth freep;
        if p =? fp then
          m ← morecore nunits;
          if m =? 0 then mret 0 else
          q ← ptr m; malloc_loop f nunits m q
        else q ← ptr p; malloc_loop f nunits p q
  end.
Definition malloc (nbytes : Z) : M K Z :=
  let nunits := u32 (u32 (nbytes + HDR - 1) / HDR + 1) in
  fp ← geth freep;
  prevp ← (if fp =? 0 then
             modh (set_freep base) ;; set_ptr base base ;;
             set_size base 0 ;; mret base
           else mret fp);
  p ← ptr prevp;
  n ← geth (λ h, hdr_count h);
  malloc_loop (2 * n + 4) nunits prevp p.

End Umalloc.
