(* ===== verification/UmallocFacts.v ===== *)
(** * The user-level allocator is correct

    The free list is a ring through the static header [base]; the blocks in it
    are in the order of their addresses and no two of them touch.  Free blocks
    and the blocks in the hands of the program never overlap. *)
From S2P Require Import Prelude Umalloc.

(** ** Rings of headers *)

Abbreviation block := (Z * Z)%type.

(** The headers [l], linked from address [a] to address [b]. *)
Fixpoint seg (h : uheap) (a : Z) (l : list block) (b : Z) : Prop :=
  match l with
  | [] => a = b
  | (p, s) :: l' => a = p ∧ hsize h !! p = Some s ∧ ∃ n, hptr h !! p = Some n ∧ seg h n l' b
  end.

(** The first address of [l], [b] when it is empty. *)
Definition first (l : list block) (b : Z) : Z := match l with [] => b | x :: _ => fst x end.

(** Where a block ends. *)
Definition end_of (x : block) : Z := fst x + HDR * snd x.

(** In order, and no block touches the next. *)
Fixpoint gaps (lo : Z) (l : list block) : Prop :=
  match l with [] => True | x :: l' => lo < fst x ∧ gaps (end_of x) l' end.

Definition apart (x y : block) : Prop := end_of x ≤ fst y ∨ end_of y ≤ fst x.
Fixpoint all_apart (l : list block) : Prop :=
  match l with [] => True | x :: l' => Forall (apart x) l' ∧ all_apart l' end.

Definition units (l : list block) : Z := foldr (λ x n, snd x + n) 0 l.

(** A block of the heap, [lo] and [hi] its bounds. *)
Definition within (lo hi : Z) (x : block) : Prop := lo ≤ fst x ∧ 1 ≤ snd x ∧ end_of x ≤ hi.

(** The allocator's state: the free blocks [bl] and the blocks [live] that were
    handed out, below the break [brk]. *)
Record heap_inv (base brk : Z) (h : uheap) (bl live : list block) : Prop := {
  hi_ring : seg h base ((base, 0) :: bl) base;
  hi_freep : freep h ∈ ((base, 0) :: bl).*1;
  hi_gaps : gaps base bl;
  hi_range : Forall (within (base + HDR) brk) (bl ++ live);
  hi_apart : all_apart (bl ++ live);
  hi_live : Forall (λ x, hsize h !! fst x = Some (snd x)) live;
  hi_bounds : 0 < base ∧ base + HDR ≤ brk ≤ 2 ^ 31 }.

(** Before the first [malloc], or after. *)
Definition heap_ok (base brk : Z) (h : uheap) (bl live : list block) : Prop :=
  (freep h = 0 ∧ bl = [] ∧ live = [] ∧ 0 < base ∧ base + HDR ≤ brk ≤ 2 ^ 31) ∨ heap_inv base brk h bl live.

(** What the allocator needs of [sbrk]: it moves the break or refuses. *)
Class Sbrk {E} (sbrk : Z → M (uheap * E) Z) (brk : E → Z) : Prop :=
  sbrk_wp n h e Q : 0 < n < 2 ^ 31 → brk e ≤ 2 ^ 31 →
    (∀ e', brk e' = brk e → Q (u32 (-1)) (h, e')) →
    (∀ e', brk e' = brk e + n → brk e' ≤ 2 ^ 31 → Q (brk e) (h, e')) →
    wp (sbrk n) Q (h, e).

(** *** Segments *)

Lemma seg_app h l1 l2 a b : seg h a (l1 ++ l2) b ↔ ∃ m, seg h a l1 m ∧ seg h m l2 b.
Proof.
  revert a. induction l1 as [|[p s] l1 IH]; intros a; cbn [seg app].
  - split; [by exists a|by intros (m & -> & H)].
  - split.
    + intros (-> & Hs & n & Hn & H). apply IH in H as (m & H1 & H2). exists m. split; [|done].
      split_and!; [done..|]. by exists n.
    + intros (m & (-> & Hs & n & Hn & H1) & H2). split_and!; [done..|]. exists n. split; [done|].
      apply IH. by exists m.
Qed.

Lemma seg_first h a l b : seg h a l b → a = first l b.
Proof. destruct l as [|[p s] l]; [done|]. by intros [-> _]. Qed.

Lemma seg_ext h h' l a b : (∀ x, x ∈ l → hptr h' !! fst x = hptr h !! fst x ∧ hsize h' !! fst x = hsize h !! fst x) →
  seg h a l b → seg h' a l b.
Proof.
  revert a. induction l as [|[p s] l IH]; intros a Hx; cbn [seg]; [done|].
  intros (-> & Hs & n & Hn & H). destruct (Hx (p, s) ltac:(by left)) as [E1 E2]. cbn [fst] in *.
  split_and!; [done|by rewrite E2|]. exists n. rewrite E1. split; [done|]. apply IH; [|done].
  intros x Hl. apply Hx. by right.
Qed.

(** A header in the middle. *)
Lemma seg_mid h a l1 x l2 b : seg h a (l1 ++ x :: l2) b →
  hptr h !! fst x = Some (first l2 b) ∧ hsize h !! fst x = Some (snd x).
Proof.
  destruct x as [p s]. intros H. apply seg_app in H as (m & _ & (-> & Hs & n & Hn & H)).
  by rewrite <-(seg_first _ _ _ _ H).
Qed.

Lemma seg_elem h a l b x : seg h a l b → x ∈ l → hsize h !! fst x = Some (snd x) ∧ ∃ n, hptr h !! fst x = Some n.
Proof.
  intros H Hx. apply list_elem_of_split in Hx as (l1 & l2 & ->). apply seg_mid in H as [H1 H2]. by eauto.
Qed.

(** A segment after an update elsewhere. *)
Lemma seg_set_ptr h l a b p v : p ∉ l.*1 → seg h a l b → seg (set_hptr (<[p := v]> (hptr h)) h) a l b.
Proof.
  intros Hp. apply seg_ext. intros x Hx. cbn. split; [|done]. apply lookup_insert_ne. intros ->.
  apply Hp, list_elem_of_fmap. by exists x.
Qed.
Lemma seg_set_size h l a b p v : p ∉ l.*1 → seg h a l b → seg (set_hsize (<[p := v]> (hsize h)) h) a l b.
Proof.
  intros Hp. apply seg_ext. intros x Hx. cbn. split; [done|]. apply lookup_insert_ne. intros ->.
  apply Hp, list_elem_of_fmap. by exists x.
Qed.

(** *** Lists of blocks *)

#[export] Instance apart_sym : Symmetric apart.
Proof. intros x y [H|H]; [by right|by left]. Qed.

Lemma all_apart_app l1 l2 : all_apart (l1 ++ l2) ↔
  all_apart l1 ∧ all_apart l2 ∧ Forall (λ x, Forall (apart x) l2) l1.
Proof.
  induction l1 as [|x l1 IH]; cbn [all_apart app].
  - split; [by intros H; split_and!|by intros (_ & H & _)].
  - rewrite IH, Forall_app, list.Forall_cons. tauto.
Qed.

#[export] Instance all_apart_perm : Proper ((≡ₚ) ==> iff) all_apart.
Proof.
  assert (A : ∀ l1 l2, l1 ≡ₚ l2 → all_apart l1 → all_apart l2).
  { induction 1 as [|x l1 l2 P IH|x y l|l1 l2 l3 P1 IH1 P2 IH2]; cbn [all_apart].
    - done.
    - intros [H1 H2]. split; [by rewrite <-P|by apply IH].
    - rewrite !list.Forall_cons. intros ((H1 & H2) & H3 & H4). split_and!; [by symmetry|done..].
    - auto. }
  intros l1 l2 P. split; [by apply A|]. apply A. by symmetry.
Qed.

Lemma units_app l1 l2 : units (l1 ++ l2) = units l1 + units l2.
Proof. induction l1 as [|x l IH]; simpl; lia. Qed.

#[export] Instance units_perm : Proper ((≡ₚ) ==> eq) units.
Proof. induction 1; simpl; lia. Qed.

Lemma gaps_app lo l1 x l2 : gaps lo (l1 ++ x :: l2) ↔ gaps lo (l1 ++ [x]) ∧ gaps (end_of x) l2.
Proof. revert lo. induction l1 as [|y l1 IH]; intros lo; cbn [gaps app]; [tauto|]. rewrite IH. tauto. Qed.

Lemma gaps_lt lo l x : gaps lo l → Forall (λ x, 0 ≤ snd x) l → x ∈ l → lo < fst x.
Proof.
  revert lo. induction l as [|y l IH]; intros lo; cbn [gaps]; [by intros _ _ ?%elem_of_nil|].
  intros [H1 H2] [Hy Hl]%list.Forall_cons [->|Hx]%elem_of_cons; [done|].
  specialize (IH _ H2 Hl Hx). unfold end_of, HDR in IH. lia.
Qed.

Lemma gaps_before lo l1 x l2 : gaps lo (l1 ++ x :: l2) → Forall (λ x, 0 ≤ snd x) (l1 ++ x :: l2) →
  (∀ y, y ∈ l1 → end_of y < fst x) ∧ (∀ y, y ∈ l2 → end_of x < fst y).
Proof.
  intros H Hp. apply Forall_app in Hp as [Hp1 [Hx Hp2]%list.Forall_cons].
  pose proof (proj1 (gaps_app _ _ _ _) H) as [H1 H2]. split; intros y Hy.
  - apply list_elem_of_split in Hy as (a & b & ->). rewrite <-app_assoc in H1. cbn [app] in H1.
    apply gaps_app in H1 as [_ H1]. apply (gaps_lt _ _ x H1); [|apply elem_of_app; right; by left].
    apply Forall_app in Hp1 as [_ [_ Hb]%list.Forall_cons]. apply Forall_app. split; [done|]. by apply list.Forall_cons.
  - by apply (gaps_lt _ _ y H2).
Qed.

Lemma gaps_nodup lo l : gaps lo l → Forall (λ x, 0 ≤ snd x) l → NoDup l.*1.
Proof.
  revert lo. induction l as [|x l IH]; intros lo H Hp; [constructor|]. rewrite fmap_cons.
  pose proof (gaps_before lo [] x l H Hp) as [_ Ha]. destruct H as [_ H]. apply list.Forall_cons in Hp as [Hx Hp].
  constructor; [|by apply (IH (end_of x))]. intros (y & Hy & Hin)%list_elem_of_fmap.
  specialize (Ha y Hin). unfold end_of, HDR in Ha. lia.
Qed.

(** The headers of a ring are all in memory. *)
Lemma seg_count h a l b : seg h a l b → NoDup l.*1 → (length l ≤ hdr_count h)%nat.
Proof.
  intros H Hn. unfold hdr_count. rewrite <-(size_dom (D := gset Z)).
  rewrite <-(length_fmap fst), <-(size_list_to_set (C := gset Z)) by done.
  apply subseteq_size. intros p (x & -> & Hx)%elem_of_list_to_set%list_elem_of_fmap.
  destruct (seg_elem _ _ _ _ _ H Hx) as [_ [n Hp]]. apply elem_of_dom. by exists n.
Qed.

(** ** The operations *)

Section Facts.
Context {E : Type} (base : Z) (sbrk : Z → M (uheap * E) Z) (brk : E → Z) `{!Sbrk sbrk brk}.
Implicit Types (h : uheap) (e : E) (bl live : list block).

Abbreviation ring bl := ((base, 0) :: bl).

Lemma wp_ptr p v Q (h : uheap) (e : E) : hptr h !! p = Some v → Q v (h, e) → wp (ptr p) Q (h, e).
Proof. intros H HQ. unfold ptr. apply wp_bind, wp_gets. cbn [fst]. eapply wp_deref; [exact H|done]. Qed.
Lemma wp_size p v Q (h : uheap) (e : E) : hsize h !! p = Some v → Q v (h, e) → wp (size p) Q (h, e).
Proof. intros H HQ. unfold size. apply wp_bind, wp_gets. cbn [fst]. eapply wp_deref; [exact H|done]. Qed.
Lemma wp_set_ptr p v Q (h : uheap) (e : E) :
  Q () (set_hptr (<[p := v]> (hptr h)) h, e) → wp (set_ptr p v) Q (h, e).
Proof. intros HQ. unfold set_ptr. by apply wp_modify. Qed.
Lemma wp_set_size p v Q (h : uheap) (e : E) :
  Q () (set_hsize (<[p := v]> (hsize h)) h, e) → wp (set_size p v) Q (h, e).
Proof. intros HQ. unfold set_size. by apply wp_modify. Qed.
Lemma wp_geth {A} (f : uheap → A) Q (h : uheap) (e : E) : Q (f h) (h, e) → wp (geth f) Q (h, e).
Proof. intros HQ. unfold geth. by apply wp_gets. Qed.
Lemma wp_modh f Q (h : uheap) (e : E) : Q () (f h, e) → wp (modh f) Q (h, e).
Proof. intros HQ. unfold modh. by apply wp_modify. Qed.

(** *** The ring of a good heap *)

Section Inv.
Context (b : Z) h bl live (I : heap_inv base b h bl live).

Lemma ring_gaps : gaps (base - 1) (ring bl).
Proof. cbn [gaps fst]. split; [lia|]. unfold end_of. cbn [fst snd]. rewrite Z.mul_0_r, Z.add_0_r. apply I. Qed.

Lemma ring_nonneg : Forall (λ x, 0 ≤ snd x) (ring bl).
Proof.
  apply list.Forall_cons. split; [done|]. pose proof (hi_range _ _ _ _ _ I) as H. apply Forall_app in H as [H _].
  eapply list.Forall_impl; [exact H|]. intros x (_ & H1 & _). lia.
Qed.

Lemma ring_nodup : NoDup (ring bl).*1.
Proof. eapply gaps_nodup; [apply ring_gaps|apply ring_nonneg]. Qed.

Lemma ring_headers : (length (ring bl) ≤ hdr_count h)%nat.
Proof. eapply seg_count; [apply I|apply ring_nodup]. Qed.

Lemma ring_elem x : x ∈ bl ++ live → within (base + HDR) b x.
Proof. intros Hx. by apply (proj1 (list.Forall_forall _ _) (hi_range _ _ _ _ _ I)). Qed.

(** No header of the ring lies in a block that is out. *)
Lemma ring_apart x y : x ∈ ring bl → y ∈ live → end_of x ≤ fst y ∨ (end_of y ≤ fst x).
Proof.
  intros [->|Hx]%elem_of_cons Hy.
  - left. destruct (ring_elem y) as (H & _); [apply elem_of_app; by right|].
    unfold end_of, HDR in *. cbn [fst snd]. lia.
  - pose proof (hi_apart _ _ _ _ _ I) as H. apply all_apart_app in H as (_ & _ & H).
    rewrite list.Forall_forall in H. specialize (H x Hx). rewrite list.Forall_forall in H. by apply H.
Qed.

Lemma ring_not_live y : y ∈ live → fst y ∉ (ring bl).*1.
Proof.
  intros Hy (x & Hx & Hin)%list_elem_of_fmap. destruct (ring_elem y) as (H1 & H2 & H3); [apply elem_of_app; by right|].
  apply elem_of_cons in Hin as [->|Hin]; [cbn [fst] in *; unfold HDR in *; lia|].
  destruct (ring_elem x) as (H4 & H5 & H6); [apply elem_of_app; by left|].
  destruct (ring_apart x y) as [A|A]; [by right|done|..]; unfold end_of, HDR in *; lia.
Qed.
End Inv.

(** *** [free] *)

(** The loop stops at the last header below [bp], wherever it starts. *)
Lemma free_scan_low h e bp l2 Q k2 : ∀ k1 p s fuel, let l1 := k1 ++ (p, s) :: k2 in
  seg h base (l1 ++ l2) base → (∀ x, x ∈ l1 → fst x < bp) → (∀ x, x ∈ l2 → bp < fst x) → base < bp →
  gaps (base - 1) (l1 ++ l2) → Forall (λ x, 0 ≤ snd x) (l1 ++ l2) → (length k2 < fuel)%nat →
  (∀ l1' x, l1 = l1' ++ [x] → Q (fst x) (h, e)) → wp (free_scan fuel bp p) Q (h, e).
Proof.
  induction k2 as [|[q t] k2 IH]; intros k1 p s fuel l1 Hs H1 H2 Hb Hg Hn Hf HQ; (destruct fuel as [|fuel]; [simpl in Hf; lia|]);
    cbn [free_scan]; unfold l1 in *; rewrite <-app_assoc in *; cbn [app] in *.
  - pose proof (seg_mid _ _ _ _ _ _ Hs) as [Hp _]. cbn [fst] in Hp. apply wp_bind. eapply wp_ptr; [exact Hp|].
    assert (Hlt : p < bp) by (apply (H1 (p, s)), elem_of_app; right; by left).
    rewrite (proj2 (Z.ltb_lt _ _) Hlt). cbn [andb]. destruct l2 as [|[r u] l2]; cbn [first].
    + rewrite (proj2 (Z.ltb_ge bp base)) by lia. cbn [andb orb]. rewrite andb_true_r.
      rewrite (proj2 (Z.leb_le base p)); [by apply wp_ret, (HQ k1 (p, s))|].
      destruct k1 as [|y k1]; [apply seg_first in Hs; cbn in Hs; lia|]. cbn [app] in Hs, Hg, Hn.
      pose proof (gaps_before _ (y :: k1) _ _ Hg Hn) as [Hlt2 _]. specialize (Hlt2 y ltac:(by left)).
      pose proof (seg_first _ _ _ _ Hs) as ->. apply list.Forall_cons in Hn as [Hy _].
      unfold end_of, HDR in Hlt2. cbn [first fst] in *. lia.
    + cbn [fst]. pose proof (H2 (r, u) ltac:(by left)) as Hr. cbn [fst] in Hr.
      rewrite (proj2 (Z.ltb_lt bp r)) by done. by apply wp_ret, (HQ k1 (p, s)).
  - pose proof (seg_mid _ _ _ _ _ _ Hs) as [Hp _]. cbn [fst first] in Hp. apply wp_bind. eapply wp_ptr; [exact Hp|].
    assert (Hlt : p < bp) by (apply (H1 (p, s)), elem_of_app; right; by left).
    assert (Hq : q < bp) by (apply (H1 (q, t)), elem_of_app; right; right; by left).
    pose proof (gaps_before _ _ _ _ Hg Hn) as [_ Hpq]. specialize (Hpq (q, t) ltac:(by left)).
    assert (Hs0 : 0 ≤ s) by (apply Forall_app in Hn as [_ [Hn _]%list.Forall_cons]; exact Hn).
    unfold end_of, HDR in Hpq. cbn [fst snd] in Hpq.
    rewrite (proj2 (Z.ltb_ge bp q)), (proj2 (Z.leb_gt q p)) by lia. rewrite andb_false_r. cbn [andb].
    apply (IH (k1 ++ [(p, s)]) q t fuel); rewrite <-?app_assoc; cbn [app]; try done. simpl in Hf. lia.
Qed.

Lemma free_scan_high h e bp l1 Q k2 : ∀ k1 p s fuel, let l2 := k1 ++ (p, s) :: k2 in
  seg h base (l1 ++ l2) base → (∀ x, x ∈ l1 → fst x < bp) → (∀ x, x ∈ l2 → bp < fst x) → base < bp → l1 ≠ [] →
  gaps (base - 1) (l1 ++ l2) → Forall (λ x, 0 ≤ snd x) (l1 ++ l2) → (length k2 + length l1 < fuel)%nat →
  (∀ l1' x, l1 = l1' ++ [x] → Q (fst x) (h, e)) → wp (free_scan fuel bp p) Q (h, e).
Proof.
  induction k2 as [|[q t] k2 IH]; intros k1 p s fuel l2 Hs H1 H2 Hb Hne Hg Hn Hf HQ; (destruct fuel as [|fuel]; [simpl in Hf; lia|]);
    cbn [free_scan]; unfold l2 in *; rewrite app_assoc in Hs, Hg, Hn.
  all: pose proof (seg_mid _ _ _ _ _ _ Hs) as [Hp _]; cbn [fst first] in Hp; apply wp_bind; (eapply wp_ptr; [exact Hp|]).
  all: assert (Hlt : bp < p) by (apply (H2 (p, s)), elem_of_app; right; by left).
  all: rewrite (proj2 (Z.ltb_ge p bp)) by lia; cbn [andb orb].
  - rewrite (proj2 (Z.ltb_ge bp base)), andb_false_r by lia. rewrite <-app_assoc in Hs, Hg, Hn.
    destruct l1 as [|[b0 s0] k]; [done|]. pose proof (seg_first _ _ _ _ Hs) as E0. cbn [app first fst] in E0. subst b0.
    apply (free_scan_low h e bp (k1 ++ [(p, s)]) Q k [] base s0 fuel); try done. simpl in Hf. lia.
  - assert (Hq : bp < q) by (apply (H2 (q, t)), elem_of_app; right; right; by left).
    pose proof (gaps_before _ _ _ _ Hg Hn) as [_ Hpq]. specialize (Hpq (q, t) ltac:(by left)).
    assert (Hs0 : 0 ≤ s) by (apply Forall_app in Hn as [_ [Hn _]%list.Forall_cons]; exact Hn).
    unfold end_of, HDR in Hpq. cbn [fst snd] in Hpq.
    rewrite (proj2 (Z.leb_gt q p)) by lia. cbn [andb]. rewrite <-app_assoc in Hs, Hg, Hn.
    apply (IH (k1 ++ [(p, s)]) q t fuel); rewrite <-?app_assoc; cbn [app]; try done. simpl in Hf. lia.
Qed.

(** What [free] makes of the ring: a block joins the one after it, if they
    touch. *)
Definition join (x : block) (l : list block) : list block :=
  match l with
  | y :: l' => if end_of x =? fst y then (fst x, snd x + snd y) :: l' else x :: l
  | [] => [x]
  end.

Lemma join_units x l : units (join x l) = snd x + units l.
Proof. destruct l as [|y l]; [done|]. cbn [join]. case_match; cbn; lia. Qed.

Lemma join_length x l : (length (join x l) ≤ S (length l))%nat.
Proof. destruct l as [|y l]; [done|]. cbn [join]. case_match; simpl; lia. Qed.

Lemma join_first x l b : first (join x l) b = fst x.
Proof. destruct l as [|y l]; [done|]. cbn [join]. by case_match. Qed.

Lemma join_headers x l p : p ∈ (join x l).*1 → p = fst x ∨ p ∈ l.*1.
Proof.
  destruct l as [|y l]; cbn [join]; [intros Hp%list_elem_of_singleton; by left|].
  case_match; rewrite !fmap_cons, ?elem_of_cons; tauto.
Qed.

Lemma join_range lo hi x l : Forall (within lo hi) (x :: l) → Forall (within lo hi) (join x l).
Proof.
  intros [Hx Hl]%list.Forall_cons. destruct l as [|y l]; cbn [join]; [by apply list.Forall_cons|].
  destruct (Z.eqb_spec (end_of x) (fst y)) as [Hj|_]; [|by apply list.Forall_cons].
  apply list.Forall_cons in Hl as [(Hy1 & Hy2 & Hy3) Hl]. destruct Hx as (Hx1 & Hx2 & Hx3).
  apply list.Forall_cons. split; [|done]. unfold within, end_of in *. cbn [fst snd]. lia.
Qed.

Lemma join_gaps lo x l : lo < fst x → gaps (end_of x - 1) l → gaps lo (join x l).
Proof.
  intros Hx Hl. destruct l as [|y l]; cbn [join gaps] in *; [done|]. destruct Hl as [H1 H2].
  destruct (Z.eqb_spec (end_of x) (fst y)) as [Hj|Hj]; cbn [gaps fst]; [|split_and!; [done|lia|done]].
  split; [done|]. assert (end_of (fst x, snd x + snd y) = end_of y) as ->; [|done].
  unfold end_of in *. cbn [fst snd]. lia.
Qed.

Lemma join_apart x l rest : Forall (λ z, 1 ≤ snd z) rest → Forall (λ z, 1 ≤ snd z) (x :: l) →
  all_apart (x :: l ++ rest) → all_apart (join x l ++ rest).
Proof.
  intros Hr [_ Hl]%list.Forall_cons A. destruct l as [|y l]; cbn [join]; [done|].
  destruct (Z.eqb_spec (end_of x) (fst y)) as [Hj|_]; [|done].
  destruct A as ([_ A1]%list.Forall_cons & A2 & A3). cbn [app all_apart]. split; [|done].
  apply list.Forall_cons in Hl as [_ Hl]. rewrite list.Forall_forall in A1, A2 |- *. intros z Hz.
  assert (Hz1 : 1 ≤ snd z).
  { apply elem_of_app in Hz as [Hz|Hz]; [by apply (proj1 (list.Forall_forall _ _) Hl)|by apply (proj1 (list.Forall_forall _ _) Hr)]. }
  specialize (A1 z Hz). specialize (A2 z Hz). unfold apart, end_of, HDR in *. cbn [fst snd]. lia.
Qed.

(** The header itself touches nothing. *)
Lemma join_base l : gaps base l → join (base, 0) l = (base, 0) :: l.
Proof.
  destruct l as [|y l]; cbn [join]; [done|]. intros [H _]. unfold end_of. cbn [fst snd].
  by rewrite (proj2 (Z.eqb_neq _ _)) by lia.
Qed.

Lemma join_covers x l n : n ≤ snd x ∨ (∃ y, y ∈ l ∧ n ≤ snd y ∧ 0 ≤ snd x) → Forall (λ z, 0 ≤ snd z) l →
  ∃ y, y ∈ join x l ∧ n ≤ snd y.
Proof.
  intros H Hp. destruct l as [|y l]; cbn [join].
  { destruct H as [H|(y & Hy%elem_of_nil & _)]; [|done]. exists x. split; [by left|done]. }
  apply list.Forall_cons in Hp as [Hy Hp]. destruct (Z.eqb_spec (end_of x) (fst y)) as [Hj|_].
  - destruct H as [H|(z & [->|Hz]%elem_of_cons & Hn & Hx)]; [..|by exists z; split; [right|]].
    all: eexists; (split; [by left|]); cbn [snd]; lia.
  - destruct H as [H|(z & Hz & Hn & Hx)]; [exists x; by split; [left|]|exists z; by split; [right|]].
Qed.

Lemma gaps_replace lo l1 x l2 r : gaps lo (l1 ++ x :: l2) → (∀ lo', lo' < fst x → gaps lo' r) → gaps lo (l1 ++ r).
Proof.
  revert lo. induction l1 as [|y l1 IH]; intros lo; cbn [app gaps]; [intros [H _] Hr; by apply Hr|].
  intros [H1 H2] Hr. split; [done|]. by apply IH.
Qed.

(** A position for a new block among the headers of a ring. *)
Lemma split_at bp l : ∀ y lo, gaps lo (y :: l) → Forall (λ x, 0 ≤ snd x) (y :: l) → fst y < bp →
  (∀ z, z ∈ l → fst z ≠ bp) → ∃ l1 x l2, y :: l = l1 ++ x :: l2 ∧ (∀ z, z ∈ l1 ++ [x] → fst z < bp) ∧
    ∀ z, z ∈ l2 → bp < fst z.
Proof.
  induction l as [|z l IH]; intros y lo Hg Hp Hy Hn.
  - exists [], y, []. split; [done|]. split; [intros z ->%list_elem_of_singleton; done|by intros z ?%elem_of_nil].
  - pose proof Hg as [_ Hg']. pose proof Hp as [Hy0 Hp']%list.Forall_cons.
    destruct (decide (fst z < bp)) as [Hz|Hz].
    + destruct (IH z _ Hg' Hp' Hz ltac:(intros w Hw; apply Hn; by right)) as (l1 & x & l2 & Hl & H1 & H2).
      exists (y :: l1), x, l2. split; [by rewrite Hl|]. split; [|done].
      intros w [->|Hw]%elem_of_cons; [done|by apply H1].
    + exists [], y, (z :: l). split; [done|]. split; [intros w ->%list_elem_of_singleton; done|].
      pose proof (Hn z ltac:(by left)). intros w [->|Hw]%elem_of_cons; [lia|].
      pose proof (gaps_before _ [] z l Hg' Hp') as [_ Hb]. specialize (Hb w Hw).
      apply list.Forall_cons in Hp' as [Hz0 _]. unfold end_of, HDR in Hb. lia.
Qed.

(** The free blocks after [free]. *)
Lemma free_blocks b h bl live bp n live' l1 x l2 : heap_inv base b h bl live → live ≡ₚ (bp, n) :: live' →
  ring bl = l1 ++ x :: l2 → (∀ z, z ∈ l1 ++ [x] → fst z < bp) → (∀ z, z ∈ l2 → bp < fst z) →
  ∃ bl', l1 ++ join x (join (bp, n) l2) = ring bl' ∧ gaps base bl' ∧ Forall (within (base + HDR) b) (bl' ++ live') ∧
    all_apart (bl' ++ live') ∧ units bl' = units bl + n ∧ (length bl' ≤ S (length bl))%nat ∧ ∃ y, y ∈ bl' ∧ n ≤ snd y.
Proof.
  intros I HP HF H1 H2. pose proof (ring_gaps _ _ _ _ I) as Hg. pose proof (ring_nonneg _ _ _ _ I) as Hn0.
  pose proof (hi_range _ _ _ _ _ I) as HR. pose proof (hi_apart _ _ _ _ _ I) as HA.
  assert (Hbp : within (base + HDR) b (bp, n)) by (apply (ring_elem _ _ _ _ I), elem_of_app; right; rewrite HP; by left).
  assert (Hlive : (bp, n) ∈ live) by (rewrite HP; by left).
  rewrite HP in HR, HA. rewrite HF in Hg, Hn0. pose proof (H1 x ltac:(apply elem_of_app; right; by left)) as Hx.
  assert (Hxe : end_of x ≤ bp).
  { destruct (ring_apart _ _ _ _ I x (bp, n)) as [A|A]; [rewrite HF; apply elem_of_app; right; by left|done|exact A|].
    unfold within, end_of, HDR in *. cbn [fst snd] in *. lia. }
  assert (Hgl : gaps (end_of (bp, n) - 1) l2).
  { destruct l2 as [|y l2]; [done|]. pose proof (H2 y ltac:(by left)) as Hy. apply gaps_app in Hg as [_ [_ Hg]]. split; [|done].
    assert (Hyr : y ∈ ring bl) by (rewrite HF; apply elem_of_app; right; right; by left).
    destruct (ring_apart _ _ _ _ I y (bp, n) Hyr Hlive) as [A|A]; [|lia].
    apply Forall_app in Hn0 as [_ [_ [Hn0 _]%list.Forall_cons]%list.Forall_cons].
    unfold end_of, HDR in *. cbn [fst snd] in *. lia. }
  assert (Hj : ∀ lo, lo < fst x → gaps lo (join x (join (bp, n) l2))).
  { intros lo Hlo. apply join_gaps; [done|]. apply join_gaps; [cbn [fst]; lia|done]. }
  assert (Pos : ∀ l, Forall (within (base + HDR) b) l → Forall (λ z, 1 ≤ snd z) l)
    by (intros l Hl; eapply list.Forall_impl; [exact Hl|by intros z (_ & Hz & _)]).
  assert (Nn : ∀ l, Forall (within (base + HDR) b) l → Forall (λ z, 0 ≤ snd z) l)
    by (intros l Hl; eapply list.Forall_impl; [exact Hl|intros z (_ & Hz & _); lia]).
  destruct l1 as [|w l1]; injection HF as <- ->.
  - exists (join (bp, n) l2). rewrite join_base by (apply join_gaps; [cbn [fst] in *; lia|done]).
    apply Forall_app in HR as [HR1 HR2]. apply list.Forall_cons in HR2 as [_ HR2].
    assert (P : l2 ++ (bp, n) :: live' ≡ₚ (bp, n) :: l2 ++ live') by (by rewrite Permutation_middle).
    rewrite P in HA. split_and!; [done|apply join_gaps; [cbn [fst] in *; lia|done]|..].
    + apply Forall_app. split; [|done]. by apply join_range, list.Forall_cons.
    + apply join_apart; [by apply Pos|by apply Pos, list.Forall_cons|done].
    + rewrite join_units. cbn [snd]. lia.
    + apply join_length.
    + apply join_covers; [by left|by apply Nn].
  - exists (l1 ++ join x (join (bp, n) l2)). cbn [app] in *. apply list.Forall_cons in Hn0 as [_ Hn0].
    rewrite <-app_assoc in HR, HA. cbn [app] in HR, HA. apply Forall_app in HR as [HR1 HR2].
    apply list.Forall_cons in HR2 as [HRx HR2]. apply Forall_app in HR2 as [HR2 HR3].
    apply list.Forall_cons in HR3 as [_ HR3].
    assert (HRj : Forall (within (base + HDR) b) (join (bp, n) l2)) by (by apply join_range, list.Forall_cons).
    assert (P : l1 ++ x :: l2 ++ (bp, n) :: live' ≡ₚ (bp, n) :: l2 ++ x :: l1 ++ live') by solve_Permutation.
    rewrite P in HA. split_and!; [done|..].
    + destruct Hg as [_ Hg]. unfold end_of in Hg at 1. cbn [fst snd] in Hg. rewrite Z.mul_0_r, Z.add_0_r in Hg.
      by apply (gaps_replace _ _ x l2).
    + rewrite !Forall_app. split_and!; [done| |done]. by apply join_range, list.Forall_cons.
    + rewrite (Permutation_app_comm l1), <-app_assoc. apply join_apart; [apply Pos, Forall_app; done|by apply Pos, list.Forall_cons|].
      assert (A : all_apart (join (bp, n) l2 ++ x :: l1 ++ live')).
      { apply join_apart; [apply Pos, list.Forall_cons; split; [done|by apply Forall_app]|by apply Pos, list.Forall_cons|exact HA]. }
      rewrite <-Permutation_middle in A. exact A.
    + rewrite !units_app, !join_units. change (units (x :: l2)) with (snd x + units l2). cbn [snd]. lia.
    + rewrite !length_app. pose proof (join_length x (join (bp, n) l2)). pose proof (join_length (bp, n) l2). simpl. lia.
    + destruct (join_covers x (join (bp, n) l2) n) as (y & Hy & Hyn).
      * right. destruct (join_covers (bp, n) l2 n) as (y & Hy & Hyn); [by left|by apply Nn|]. exists y.
        destruct HRx as (_ & ? & _). split_and!; [done..|lia].
      * by apply Nn.
      * exists y. split; [|done]. apply elem_of_app. by right.
Qed.

(** *** The memory [free] leaves *)

(** Header [p] set to [(q, s)]. *)
Definition put_hdr (p q s : Z) (h : uheap) : uheap := mkHeap (<[p := q]> (hptr h)) (<[p := s]> (hsize h)) (freep h).

(** The heap agrees with [h] but for the header [p], which is that of the first
    block of [l]; the rest of [l] goes on to [base]. *)
Record headed (h h1 : uheap) (p : Z) (l : list block) : Prop := {
  hd_ptr a : a ≠ p → hptr h1 !! a = hptr h !! a;
  hd_size a : a ≠ p → hsize h1 !! a = hsize h !! a;
  hd_freep : freep h1 = freep h;
  hd_seg : seg h1 p l base }.

(** One of the two joins of [free], on a header [x] whose size is known, with
    the ring [l] after it. *)
Lemma join_wp h e Q b p s l q : q = first l base → seg h q l base → p ∉ l.*1 → hsize h !! p = Some s →
  0 ≤ s → Forall (within (base + HDR) b) l → p + HDR * s ≤ b → b ≤ 2 ^ 31 → 0 < base → base < p + HDR * s ∨ l ≠ [] → 0 ≤ p →
  (∀ h1, headed h h1 p (join (p, s) l) → hsize h1 !! p = Some (snd (default (p, s) (head (join (p, s) l)))) → Q () (h1, e)) →
  wp (if u32 (p + HDR * s) =? q then
        sq ← size q; set_size p (u32 (s + sq)) ;; qq ← ptr q; set_ptr p qq
      else set_ptr p q) Q (h, e).
Proof.
  intros -> Hs Hp Hsz H0 Hr Hb Hb2 Hbase Hne Hp0 HQ. unfold HDR in *. rewrite u32_small by lia.
  destruct l as [|[q t] l]; cbn [first fst] in *.
  - rewrite (proj2 (Z.eqb_neq _ _)) by (destruct Hne; [lia|done]).
    apply wp_set_ptr, HQ; [|by cbn]. constructor; cbn; [intros; by apply lookup_insert_ne|done|done|].
    split_and!; [done|done|]. exists base. by rewrite lookup_insert_eq.
  - destruct Hs as (_ & Ht & n & Hn & Hl). rewrite fmap_cons, not_elem_of_cons in Hp. destruct Hp as [Hpq Hp].
    cbn [join] in HQ. unfold end_of, HDR in HQ. cbn [fst snd] in *. apply list.Forall_cons in Hr as [(Hr1 & Hr2 & Hr3) Hr].
    unfold end_of, HDR in Hr3. cbn [fst snd] in *.
    destruct (Z.eqb_spec (p + 8 * s) q) as [Hj|Hj].
    + apply wp_bind. eapply wp_size; [exact Ht|]. apply wp_bind, wp_set_size. apply wp_bind.
      eapply wp_ptr; [exact Hn|]. rewrite u32_small by lia. apply wp_set_ptr, HQ; [|by cbn; rewrite lookup_insert_eq].
      constructor; cbn; [intros; by apply lookup_insert_ne|intros; by apply lookup_insert_ne|done|].
      split_and!; [done|by rewrite lookup_insert_eq|]. exists n. rewrite lookup_insert_eq. split; [done|].
      apply (seg_set_ptr (set_hsize (<[p := s + t]> (hsize h)) h)); [done|]. by apply seg_set_size.
    + apply wp_set_ptr, HQ; [|by cbn]. constructor; cbn; [intros; by apply lookup_insert_ne|done|done|].
      split_and!; [done|done|]. exists q. rewrite lookup_insert_eq. split; [done|].
      apply (seg_set_ptr h ((q, t) :: l)); [by apply not_elem_of_cons|]. split_and!; [done|done|by exists n].
Qed.

Lemma live_distinct b h bl live bp n live' y : heap_inv base b h bl live → live ≡ₚ (bp, n) :: live' → y ∈ live' → fst y ≠ bp.
Proof.
  intros I HP Hy Heq. subst bp. pose proof (hi_apart _ _ _ _ _ I) as HA. apply all_apart_app in HA as (_ & HA & _).
  rewrite HP in HA. destruct HA as [HA _]. rewrite list.Forall_forall in HA. specialize (HA y Hy).
  assert (Hb : within (base + HDR) b (fst y, n)) by (apply (ring_elem _ _ _ _ I), elem_of_app; right; rewrite HP; by left).
  assert (Hyr : within (base + HDR) b y) by (apply (ring_elem _ _ _ _ I), elem_of_app; right; rewrite HP; by right).
  destruct Hb as (_ & Hb & _), Hyr as (_ & Hyr & _). unfold apart, end_of, HDR in *. cbn [fst snd] in *. lia.
Qed.

Lemma free_scan_wp b h e bl live bp n live' Q : heap_inv base b h bl live → live ≡ₚ (bp, n) :: live' →
  (∀ l1 x l2, ring bl = l1 ++ x :: l2 → (∀ z, z ∈ l1 ++ [x] → fst z < bp) → (∀ z, z ∈ l2 → bp < fst z) → Q (fst x) (h, e)) →
  wp (free_scan (S (hdr_count h)) bp (freep h)) Q (h, e).
Proof.
  intros I HP HQ. pose proof (ring_gaps _ _ _ _ I) as Hg. pose proof (ring_nonneg _ _ _ _ I) as Hn.
  assert (Hlive : (bp, n) ∈ live) by (rewrite HP; by left).
  assert (Hbb : base < bp).
  { destruct (ring_elem _ _ _ _ I (bp, n)) as (H & _); [apply elem_of_app; by right|]. unfold HDR in H. cbn [fst] in H. lia. }
  assert (Hne : ∀ z, z ∈ bl → fst z ≠ bp).
  { intros z Hz Hzb. apply (ring_not_live _ _ _ _ I (bp, n) Hlive), list_elem_of_fmap. exists z. split; [done|by right]. }
  destruct (split_at bp bl (base, 0) (base - 1) Hg Hn Hbb Hne) as (l1 & x & l2 & HF & H1 & H2).
  pose proof (hi_ring _ _ _ _ _ I) as Hs. pose proof (hi_freep _ _ _ _ _ I) as Hf. pose proof (ring_headers _ _ _ _ I) as Hc.
  assert (HQ' : ∀ l1' y, l1 ++ [x] = l1' ++ [y] → Q (fst y) (h, e)).
  { intros l1' y Hy. apply app_inj_tail in Hy as [-> ->]. by apply (HQ l1' y l2). }
  assert (EF : l1 ++ x :: l2 = (l1 ++ [x]) ++ l2) by (by rewrite <-app_assoc).
  rewrite HF in Hs, Hg, Hn, Hf, Hc. rewrite EF in Hs, Hg, Hn, Hf, Hc. rewrite length_app in Hc.
  apply list_elem_of_fmap in Hf as ([f s] & -> & [Hf|Hf]%elem_of_app); apply list_elem_of_split in Hf as (k1 & k2 & Hk).
  - rewrite Hk in *. rewrite length_app in Hc. simpl in Hc.
    eapply (free_scan_low h e bp l2 Q k2 k1 f s); [exact Hs|done|done|done|exact Hg|exact Hn|lia|done].
  - rewrite Hk in Hs, Hg, Hn, Hc, H2. rewrite (length_app k1) in Hc. simpl in Hc.
    eapply (free_scan_high h e bp _ Q k2 k1 f s); [exact Hs|done|done|done|by destruct l1|exact Hg|exact Hn|lia|done].
Qed.

(** The ring after both joins. *)
Lemma ring_after b h bl live bp n live' l1 x l2 h1 h2 : heap_inv base b h bl live → live ≡ₚ (bp, n) :: live' →
  ring bl = l1 ++ x :: l2 → headed h h1 bp (join (bp, n) l2) → headed h1 h2 (fst x) (join x (join (bp, n) l2)) →
  seg h2 base (l1 ++ join x (join (bp, n) l2)) base.
Proof.
  intros I HP HF A1 A2. pose proof (hi_ring _ _ _ _ _ I) as Hs. rewrite HF in Hs.
  pose proof (ring_nodup _ _ _ _ I) as Hnd. rewrite HF, fmap_app, fmap_cons in Hnd.
  assert (Hbp : bp ∉ (ring bl).*1) by (apply (ring_not_live _ _ _ _ I (bp, n)); rewrite HP; by left).
  rewrite HF, fmap_app in Hbp. apply seg_app in Hs as (m & Hs1 & Hs2). apply seg_first in Hs2. cbn [first] in Hs2. subst m.
  apply seg_app. exists (fst x). split; [|apply A2]. revert Hs1. apply seg_ext. intros y Hy.
  assert (Hyf : fst y ∈ l1.*1) by (apply list_elem_of_fmap; by exists y).
  assert (Hyx : fst y ≠ fst x).
  { intros Heq. apply list.NoDup_app in Hnd as (_ & Hnd & _). apply (Hnd (fst y) Hyf). rewrite Heq. by left. }
  assert (Hyb : fst y ≠ bp) by (intros Heq; apply Hbp; rewrite <-Heq; apply elem_of_app; by left).
  by rewrite (hd_ptr _ _ _ _ A2), (hd_ptr _ _ _ _ A1), (hd_size _ _ _ _ A2), (hd_size _ _ _ _ A1) by done.
Qed.

Lemma free_wp b h e bl live live' bp n Q : heap_inv base b h bl live → live ≡ₚ (bp, n) :: live' →
  (∀ h' bl', heap_inv base b h' bl' live' → units bl' = units bl + n → (length bl' ≤ S (length bl))%nat →
     (∃ y, y ∈ bl' ∧ n ≤ snd y) → Q () (h', e)) → wp (free (bp + HDR)) Q (h, e).
Proof.
  intros I HP HQ. pose proof (hi_bounds _ _ _ _ _ I) as Hb. unfold free. replace (bp + HDR - HDR) with bp by lia.
  apply wp_bind, wp_geth. apply wp_bind, wp_geth. apply wp_bind. eapply free_scan_wp; [exact I|exact HP|].
  intros l1 x l2 HF H1 H2. destruct (free_blocks _ _ _ _ _ _ _ _ _ _ I HP HF H1 H2) as (bl' & HF' & Hg' & HR' & HA' & Hu & Hl & Hy).
  assert (Hlive : (bp, n) ∈ live) by (rewrite HP; by left).
  assert (Hbp : bp ∉ (ring bl).*1) by exact (ring_not_live _ _ _ _ I (bp, n) Hlive).
  assert (Hbr : within (base + HDR) b (bp, n)) by (apply (ring_elem _ _ _ _ I), elem_of_app; by right).
  pose proof (hi_ring _ _ _ _ _ I) as Hs. rewrite HF in Hs, Hbp. pose proof (seg_mid _ _ _ _ _ _ Hs) as [Hp Hsz].
  pose proof (ring_nonneg _ _ _ _ I) as Hnn. pose proof (ring_nodup _ _ _ _ I) as Hnd. rewrite HF in Hnn, Hnd.
  assert (HR2 : Forall (within (base + HDR) b) l2).
  { pose proof (hi_range _ _ _ _ _ I) as HR. apply Forall_app in HR as [HR _]. destruct l1; injection HF as <- ->; [done|].
    apply Forall_app in HR as [_ HR]. apply list.Forall_cons in HR as [_ HR]. exact HR. }
  assert (Hsn : hsize h !! bp = Some n) by exact (proj1 (list.Forall_forall _ _) (hi_live _ _ _ _ _ I) _ Hlive).
  rewrite fmap_app, fmap_cons, elem_of_app, elem_of_cons in Hbp.
  rewrite fmap_app, fmap_cons in Hnd. apply list.NoDup_app in Hnd as (_ & _ & [Hx2 _]%list.NoDup_cons).
  destruct Hbr as (B1 & B2 & B3). unfold end_of in B3. cbn [fst snd] in B1, B2, B3.
  apply wp_bind. eapply wp_ptr; [exact Hp|]. apply wp_bind. eapply wp_size; [exact Hsn|]. apply wp_bind.
  apply (join_wp h e _ b bp n l2); [done| | |done|lia|done|lia|lia|lia|left; unfold HDR in *; lia|unfold HDR in *; lia|].
  { apply seg_app in Hs as (m & _ & Hs). destruct x. destruct Hs as (-> & _ & m' & _ & Hs).
    by rewrite <-(seg_first _ _ _ _ Hs). }
  { tauto. }
  intros h1 A1 _. assert (Hxb : fst x ≠ bp) by (intros E1; apply Hbp; right; left; done).
  apply wp_bind. eapply wp_size; [rewrite (hd_size _ _ _ _ A1) by done; exact Hsz|]. apply wp_bind.
  assert (Hx : 0 ≤ snd x ∧ fst x + HDR * snd x ≤ b ∧ 0 ≤ fst x).
  { apply Forall_app in Hnn as [_ [Hx0 _]%list.Forall_cons]. split; [done|].
    assert (Hxr : x ∈ ring bl) by (rewrite HF; apply elem_of_app; right; by left).
    apply elem_of_cons in Hxr as [->|Hxr]; [unfold HDR in *; cbn; lia|].
    destruct (ring_elem _ _ _ _ I x) as (X1 & X2 & X3); [apply elem_of_app; by left|]. unfold end_of, HDR in *. lia. }
  destruct x as [p s]. cbn [fst snd] in *.
  apply (join_wp h1 e _ b p s (join (bp, n) l2)).
  - by rewrite join_first.
  - apply A1.
  - intros [->|Hj]%join_headers; [by cbn in Hxb|done].
  - by rewrite (hd_size _ _ _ _ A1).
  - lia.
  - apply join_range, list.Forall_cons. by split.
  - lia.
  - lia.
  - lia.
  - right. destruct l2; cbn [join]; [done|]. by case_match.
  - lia.
  - intros h2 A2 _. apply wp_modh, (HQ _ bl'); [|done..]. constructor; [| |done|done|done| |done].
    + rewrite <-HF'. apply (seg_ext h2); [done|]. by apply (ring_after b h bl live bp n live' l1 (p, s) l2 h1 h2).
    + change (freep (set_freep p h2)) with p. rewrite <-HF', fmap_app. apply elem_of_app. right. apply list_elem_of_fmap.
      exists (default (p, s) (head (join (p, s) (join (bp, n) l2)))).
      destruct (join (bp, n) l2); cbn [join]; [split; [done|by left]|]. case_match; (split; [done|by left]).
    + apply list.Forall_forall. intros y Hyl. change (hsize (set_freep p h2)) with (hsize h2).
      assert (Hyl' : y ∈ live) by (rewrite HP; by right).
      pose proof (live_distinct _ _ _ _ _ _ _ _ I HP Hyl) as Hyb.
      pose proof (ring_not_live _ _ _ _ I y Hyl') as Hyr. rewrite HF, fmap_app, fmap_cons, elem_of_app, elem_of_cons in Hyr.
      rewrite (hd_size _ _ _ _ A2), (hd_size _ _ _ _ A1) by (tauto || (cbn; intros E1; apply Hyr; right; by left)).
      exact (proj1 (list.Forall_forall _ _) (hi_live _ _ _ _ _ I) _ Hyl').
Qed.

(** *** [malloc] *)

Lemma gaps_weaken lo lo' l : gaps lo l → lo' ≤ lo → gaps lo' l.
Proof. destruct l as [|x l]; [done|]. intros [H1 H2] H. split; [lia|done]. Qed.

(** The block before [p] in the ring. *)
Lemma ring_before b h bl live p s pv : heap_inv base b h bl live → (p, s) ∈ bl → pv ∈ (ring bl).*1 →
  hptr h !! pv = Some p → ∃ Z1 z B1 Z3, pv = fst z ∧ Z1 ++ [z] = ring B1 ∧ bl = B1 ++ (p, s) :: Z3.
Proof.
  intros I Hps Hpv Hp. pose proof (hi_ring _ _ _ _ _ I) as Hs.
  apply list_elem_of_fmap in Hpv as (z & -> & Hz). apply list_elem_of_split in Hz as (Z1 & Z2 & HF).
  assert (Hpr : hsize h !! p = Some s) by (destruct (seg_elem _ _ _ _ (p, s) Hs ltac:(by right)) as [H _]; exact H).
  rewrite HF in Hs. pose proof (seg_mid _ _ _ _ _ _ Hs) as [Hz _]. rewrite Hp in Hz. injection Hz as Hz.
  destruct Z2 as [|[p' s'] Z3]; cbn [first fst] in Hz; subst p.
  - destruct (ring_elem _ _ _ _ I (base, s)) as (H & _); [apply elem_of_app; by left|]. unfold HDR in H. cbn in H. lia.
  - assert (Hs' : hsize h !! p' = Some s').
    { destruct (seg_elem _ _ _ _ (p', s') Hs) as [H _]; [apply elem_of_app; right; right; by left|exact H]. }
    rewrite Hpr in Hs'. injection Hs' as <-. destruct Z1 as [|w Z1]; injection HF as <- ->.
    + by exists [], (base, 0), [], Z3.
    + exists ((base, 0) :: Z1), z, (Z1 ++ [z]), Z3. split_and!; [done|done|]. by rewrite <-app_assoc.
Qed.

(** The ring without the block after [z]. *)
Lemma unlink_ring b h B1 p s Z3 live Z1 z h' : heap_inv base b h (B1 ++ (p, s) :: Z3) live → Z1 ++ [z] = ring B1 →
  (∀ a, a ≠ fst z → hptr h' !! a = hptr h !! a) → (∀ a, hsize h' !! a = hsize h !! a) →
  hptr h' !! fst z = Some (first Z3 base) → seg h' base (ring (B1 ++ Z3)) base.
Proof.
  intros I HB Hp Hs Hz. pose proof (hi_ring _ _ _ _ _ I) as HR. pose proof (ring_nodup _ _ _ _ I) as Hnd.
  change (ring (B1 ++ (p, s) :: Z3)) with (ring B1 ++ (p, s) :: Z3) in *.
  change (ring (B1 ++ Z3)) with (ring B1 ++ Z3). rewrite <-HB, <-app_assoc in *. cbn [app] in *.
  pose proof (seg_mid _ _ _ _ _ _ HR) as [_ Hzs]. apply seg_app in HR as (m & HR1 & HR2).
  pose proof (seg_first _ _ _ _ HR2) as ->. apply seg_app. exists (fst z). rewrite fmap_app, !fmap_cons in Hnd.
  apply list.NoDup_app in Hnd as (_ & Hd & [Hz1 Hnd]%list.NoDup_cons).
  split.
  - revert HR1. apply seg_ext. intros y Hy. rewrite Hs, Hp; [done|]. intros Heq.
    apply (Hd (fst y)); [apply list_elem_of_fmap; by exists y|]. rewrite Heq. by left.
  - destruct z as [zp zs]. cbn [fst snd seg first] in *. split_and!; [done|by rewrite Hs|]. eexists. split; [exact Hz|].
    destruct HR2 as (_ & _ & n & _ & (_ & _ & m & _ & HR2)). pose proof (seg_first _ _ _ _ HR2) as ->.
    revert HR2. apply seg_ext. intros y Hy. rewrite Hs, Hp; [done|]. intros Heq. apply Hz1. rewrite <-Heq. right.
    apply list_elem_of_fmap. by exists y.
Qed.

Lemma take_exact b h bl live p n pv Q e : heap_inv base b h bl live → (p, n) ∈ bl → pv ∈ (ring bl).*1 → hptr h !! pv = Some p →
  (∀ h' bl' a, heap_inv base b h' bl' ((a, n) :: live) → units bl' + n = units bl → Q (a + HDR) (h', e)) →
  wp (p ← (q ← ptr p; set_ptr pv q ;; mret p); modh (set_freep pv) ;; mret (p + HDR)) Q (h, e).
Proof.
  intros I Hpn Hpv Hp HQ. destruct (ring_before _ _ _ _ _ _ _ I Hpn Hpv Hp) as (Z1 & z & B1 & Z3 & -> & HB & ->).
  pose proof (hi_ring _ _ _ _ _ I) as HR. change (ring (B1 ++ (p, n) :: Z3)) with (ring B1 ++ (p, n) :: Z3) in HR.
  pose proof (seg_mid _ _ _ _ _ _ HR) as [Hq Hsz]. cbn [fst snd] in *.
  assert (P : (B1 ++ Z3) ++ (p, n) :: live ≡ₚ (B1 ++ (p, n) :: Z3) ++ live) by solve_Permutation.
  apply wp_bind, wp_bind. eapply wp_ptr; [exact Hq|]. apply wp_bind, wp_set_ptr, wp_ret, wp_bind, wp_modh, wp_ret.
  apply (HQ _ (B1 ++ Z3)).
  - constructor.
    + apply (unlink_ring b h B1 p n Z3 live Z1 z); try done; cbn; intros; [by apply lookup_insert_ne|by rewrite lookup_insert_eq].
    + change (ring (B1 ++ Z3)) with (ring B1 ++ Z3). rewrite <-HB, !fmap_app. apply elem_of_app. left.
      apply elem_of_app. right. by left.
    + pose proof (hi_gaps _ _ _ _ _ I) as Hg. apply (gaps_replace _ _ (p, n) Z3); [done|].
      apply gaps_app in Hg as [_ Hg]. intros lo Hlo. apply (gaps_weaken _ _ _ Hg).
      destruct (ring_elem _ _ _ _ I (p, n)) as (_ & H & _); [apply elem_of_app; left; apply elem_of_app; right; by left|].
      unfold end_of, HDR in *. cbn [fst snd] in *. lia.
    + rewrite P. apply I.
    + rewrite P. apply I.
    + apply list.Forall_cons. split; [done|]. apply I.
    + apply I.
  - rewrite !units_app. change (units ((p, n) :: Z3)) with (n + units Z3). lia.
Qed.

(** A block cut in two. *)
Lemma apart_cut p s n l : 1 ≤ n < s → all_apart ((p, s) :: l) → all_apart ((p, s - n) :: (p + HDR * (s - n), n) :: l).
Proof.
  intros Hn [H1 H2]. cbn [all_apart]. rewrite list.Forall_forall in H1. split_and!; [..|done].
  - apply list.Forall_cons. split; [left; unfold end_of; cbn [fst snd]; lia|].
    apply list.Forall_forall. intros z Hz. specialize (H1 z Hz). unfold apart, end_of, HDR in *. cbn [fst snd] in *. lia.
  - apply list.Forall_forall. intros z Hz. specialize (H1 z Hz). unfold apart, end_of, HDR in *. cbn [fst snd] in *. lia.
Qed.

Lemma take_split b h bl live p s n pv Q e : heap_inv base b h bl live → (p, s) ∈ bl → pv ∈ (ring bl).*1 →
  1 ≤ n < s →
  (∀ h' bl' a, heap_inv base b h' bl' ((a, n) :: live) → units bl' + n = units bl → Q (a + HDR) (h', e)) →
  wp (p ← (set_size p (s - n) ;; let p := u32 (p + HDR * (s - n)) in set_size p n ;; mret p);
      modh (set_freep pv) ;; mret (p + HDR)) Q (h, e).
Proof.
  intros I Hps Hpv Hn HQ. apply list_elem_of_split in Hps as (B1 & B2 & ->).
  destruct (ring_elem _ _ _ _ I (p, s)) as (R1 & _ & R2); [apply elem_of_app; left; apply elem_of_app; right; by left|].
  pose proof (hi_bounds _ _ _ _ _ I) as (Hb0 & Hb1 & Hb2). unfold end_of in R2. cbn [fst snd] in R1, R2.
  set (p' := p + HDR * (s - n)). assert (Ep : u32 p' = p') by (apply u32_small; unfold p', HDR in *; lia).
  apply wp_bind, wp_bind, wp_set_size, wp_bind. rewrite Ep. apply wp_set_size, wp_ret, wp_bind, wp_modh, wp_ret.
  change (ring (B1 ++ (p, s) :: B2)) with (ring B1 ++ (p, s) :: B2) in *.
  assert (Hins : ∀ x, x ∈ (B1 ++ (p, s) :: B2) ++ live → fst x ≠ p').
  { intros x Hx Heq. destruct (ring_elem _ _ _ _ I x Hx) as (X1 & X2 & X3).
    assert (Hc : x = (p, s) ∨ apart (p, s) x).
    { pose proof (hi_apart _ _ _ _ _ I) as HA. rewrite <-app_assoc in HA, Hx. cbn [app] in HA, Hx.
      rewrite <-Permutation_middle in HA. destruct HA as [HA _]. rewrite list.Forall_forall in HA.
      rewrite !elem_of_app, elem_of_cons, elem_of_app in Hx. destruct Hx as [Hx|[->|Hx]]; [right|by left|right]; apply HA;
        rewrite !elem_of_app; tauto. }
    unfold p', end_of, HDR in *. destruct Hc as [->|Hc]; [cbn [fst snd] in *; lia|].
    unfold apart, end_of, HDR in Hc. cbn [fst snd] in *. lia. }
  assert (Hbase : base ≠ p') by (unfold p', HDR in *; lia).
  apply (HQ _ (B1 ++ (p, s - n) :: B2) p').
  - pose proof (hi_ring _ _ _ _ _ I) as HR. pose proof (ring_nodup _ _ _ _ I) as Hnd.
    change (ring (B1 ++ (p, s) :: B2)) with (ring B1 ++ (p, s) :: B2) in *.
    rewrite fmap_app, fmap_cons in Hnd. apply list.NoDup_app in Hnd as (_ & Hd & [Hp2 _]%list.NoDup_cons).
    assert (Hp1 : p ∉ (ring B1).*1) by (intros H; apply (Hd p H); by left).
    assert (Hp2' : p ∉ B2.*1) by exact Hp2. clear Hp2 Hd.
    assert (Hr : ∀ l, l ⊆ ring B1 ++ B2 → p' ∉ l.*1).
    { intros l Hl (x & Hx & Hin)%list_elem_of_fmap. apply Hl in Hin. rewrite elem_of_app, elem_of_cons in Hin.
      destruct Hin as [[->|Hin]|Hin]; [by cbn in Hx|apply (Hins x)|apply (Hins x)]; try done; rewrite !elem_of_app, elem_of_cons; tauto. }
    constructor.
    + change (ring (B1 ++ (p, s - n) :: B2)) with (ring B1 ++ (p, s - n) :: B2). apply seg_app in HR as (m & HR1 & -> & Hs & q & Hq & HR2).
      set (h0 := set_hsize (<[p := s - n]> (hsize h)) h). apply (seg_ext (set_hsize (<[p' := n]> (hsize h0)) h0)); [done|].
      apply seg_app. exists p. split.
      * apply seg_set_size; [apply Hr; set_solver|]. by apply seg_set_size.
      * refine (conj eq_refl (conj _ _)).
        { cbn. rewrite lookup_insert_ne, lookup_insert_eq; [done|]. unfold p', HDR. lia. }
        exists q. split; [done|].
        apply seg_set_size; [apply Hr; set_solver|]. by apply seg_set_size.
    + change ((ring (B1 ++ (p, s - n) :: B2)).*1) with ((ring B1 ++ (p, s - n) :: B2).*1).
      rewrite fmap_app, fmap_cons in *. exact Hpv.
    + pose proof (hi_gaps _ _ _ _ _ I) as Hg. apply (gaps_replace _ _ (p, s) B2); [done|].
      apply gaps_app in Hg as [_ Hg]. intros lo Hlo. split; [done|]. apply (gaps_weaken _ _ _ Hg).
      unfold end_of, HDR. cbn [fst snd]. lia.
    + pose proof (hi_range _ _ _ _ _ I) as H. rewrite !Forall_app, !list.Forall_cons in *. destruct H as [(H1 & _ & H2) H3].
      split_and!; try done; unfold within, end_of, p', HDR in *; cbn [fst snd]; lia.
    + assert (P1 : (B1 ++ (p, s) :: B2) ++ live ≡ₚ (p, s) :: B1 ++ B2 ++ live) by solve_Permutation.
      assert (P2 : (B1 ++ (p, s - n) :: B2) ++ (p', n) :: live ≡ₚ (p, s - n) :: (p', n) :: B1 ++ B2 ++ live) by solve_Permutation.
      rewrite P2. apply apart_cut; [done|]. rewrite <-P1. apply I.
    + apply list.Forall_cons. cbn. rewrite lookup_insert_eq. split; [done|]. apply list.Forall_forall. intros y Hy.
      rewrite !lookup_insert_ne.
      * exact (proj1 (list.Forall_forall _ _) (hi_live _ _ _ _ _ I) _ Hy).
      * intros Heq. apply (ring_not_live _ _ _ _ I y Hy). rewrite fmap_cons, fmap_app, fmap_cons, <-Heq.
        right. apply elem_of_app. right. by left.
      * intros Heq. apply (Hins y); [apply elem_of_app; by right|done].
    + apply I.
  - rewrite !units_app. change (units ((p, s) :: B2)) with (s + units B2).
    change (units ((p, s - n) :: B2)) with (s - n + units B2). lia.
Qed.

(** Once around the ring: a block is found, or none is large enough. *)
Lemma malloc_walk b h e bl live n f sf m Q : heap_inv base b h bl live → freep h = f → 1 ≤ n →
  (∀ h' bl' a, heap_inv base b h' bl' ((a, n) :: live) → units bl' + n = units bl → Q (a + HDR) (h', e)) →
  ∀ W pv p fuel, seg h p (W ++ [(f, sf)]) m → (∀ x, x ∈ W ++ [(f, sf)] → x ∈ ring bl) → f ∉ W.*1 →
    pv ∈ (ring bl).*1 → hptr h !! pv = Some p → (length W < fuel)%nat →
    (Forall (λ x, snd x < n) (W ++ [(f, sf)]) →
       wp (m ← morecore sbrk n; if m =? 0 then mret 0 else q ← ptr m; malloc_loop sbrk (fuel - length W - 1) n m q) Q (h, e)) →
    wp (malloc_loop sbrk fuel n pv p) Q (h, e).
Proof.
  intros I Hf Hn HQ. induction W as [|[q s] W IH]; intros pv p fuel Hs Hsub Hnf Hpv Hp Hfu Hg;
    (destruct fuel as [|fuel]; [simpl in Hfu; lia|]); cbn [malloc_loop app] in *; destruct Hs as (-> & Hsz & r & Hr & Hs).
  - apply wp_bind. eapply wp_size; [exact Hsz|]. destruct (Z.leb_spec n sf) as [Hle|Hlt].
    + assert (Hin : (f, sf) ∈ bl).
      { pose proof (Hsub (f, sf) ltac:(by left)) as [Hb|Hin]%elem_of_cons; [|done]. injection Hb as -> ->. lia. }
      destruct (Z.eqb_spec sf n) as [->|Hne]; [by eapply take_exact|]. eapply (take_split b); try done. lia.
    + apply wp_bind, wp_geth. rewrite Hf, Z.eqb_refl. rewrite Nat.sub_0_r, Nat.sub_succ, Nat.sub_0_r in Hg. apply Hg.
      apply list.Forall_cons. by split.
  - apply wp_bind. eapply wp_size; [exact Hsz|]. destruct (Z.leb_spec n s) as [Hle|Hlt].
    + assert (Hin : (q, s) ∈ bl).
      { pose proof (Hsub (q, s) ltac:(by left)) as [Hb|Hin]%elem_of_cons; [|done]. injection Hb as -> ->. lia. }
      destruct (Z.eqb_spec s n) as [->|Hne]; [by eapply take_exact|]. eapply (take_split b); try done. lia.
    + rewrite fmap_cons, not_elem_of_cons in Hnf. destruct Hnf as [Hqf Hnf].
      apply wp_bind, wp_geth. rewrite Hf, (proj2 (Z.eqb_neq _ _)) by done. apply wp_bind. eapply wp_ptr; [exact Hr|].
      apply IH; try done.
      * intros x Hx. apply Hsub. by right.
      * apply list_elem_of_fmap. exists (q, s). split; [done|]. apply Hsub. by left.
      * simpl in Hfu. lia.
      * intros Hsm. apply Hg. apply list.Forall_cons. by split.
Qed.

Lemma malloc_search b h e bl live n fuel Q : heap_inv base b h bl live → 1 ≤ n → (length (ring bl) ≤ fuel)%nat →
  (∀ h' bl' a, heap_inv base b h' bl' ((a, n) :: live) → units bl' + n = units bl → Q (a + HDR) (h', e)) →
  (Forall (λ x, snd x < n) (ring bl) →
     wp (m ← morecore sbrk n; if m =? 0 then mret 0 else q ← ptr m; malloc_loop sbrk (fuel - length (ring bl)) n m q) Q (h, e)) →
  wp (q ← ptr (freep h); malloc_loop sbrk fuel n (freep h) q) Q (h, e).
Proof.
  intros I Hn Hfu HQ Hg. pose proof (hi_ring _ _ _ _ _ I) as Hs. pose proof (hi_freep _ _ _ _ _ I) as Hf.
  pose proof (ring_nodup _ _ _ _ I) as Hnd. apply list_elem_of_fmap in Hf as ([f sf] & Ef & Hin). cbn [fst] in Ef.
  apply list_elem_of_split in Hin as (k1 & k2 & HF). rewrite HF in Hs, Hnd.
  pose proof (seg_mid _ _ _ _ _ _ Hs) as [Hp Hsz]. cbn [fst snd] in Hp, Hsz.
  apply seg_app in Hs as (m & Hs1 & (-> & _ & r & Hr & Hs2)). rewrite Hr in Hp. injection Hp as ->.
  assert (Hrot : seg h (first k2 base) ((k2 ++ k1) ++ [(f, sf)]) (first k2 base)).
  { apply seg_app. exists f. split; [apply seg_app; by exists base|]. split_and!; [done..|]. by exists (first k2 base). }
  rewrite fmap_app, fmap_cons in Hnd. apply list.NoDup_app in Hnd as (_ & Hd & [Hf2 _]%list.NoDup_cons).
  assert (P : (k2 ++ k1) ++ [(f, sf)] ≡ₚ ring bl) by (rewrite HF; solve_Permutation).
  rewrite Ef. apply wp_bind. eapply wp_ptr; [exact Hr|].
  eapply (malloc_walk b h e bl live n f sf _ Q I Ef Hn HQ (k2 ++ k1)); [exact Hrot| | | |exact Hr|..].
  - intros x. by rewrite P.
  - rewrite fmap_app, elem_of_app. intros [H|H]; [done|]. apply (Hd f H). by left.
  - apply list_elem_of_fmap. exists (f, sf). split; [done|]. rewrite HF. apply elem_of_app. right. by left.
  - apply Permutation_length in P. rewrite length_app in P. simpl in P, Hfu. lia.
  - rewrite P. intros Hsm. pose proof (Permutation_length P) as HP. rewrite (length_app (k2 ++ k1)) in HP.
    change (length [(f, sf)]) with 1%nat in HP.
    replace (fuel - length (k2 ++ k1) - 1)%nat with (fuel - length (ring bl))%nat by lia. by apply Hg.
Qed.

(** [sbrk] refuses, or the new memory is a block of the program, for a moment. *)
Lemma grow_inv b h bl live nu : heap_inv base b h bl live → 1 ≤ nu → b + HDR * nu ≤ 2 ^ 31 →
  heap_inv base (b + HDR * nu) (set_hsize (<[b := nu]> (hsize h)) h) bl ((b, nu) :: live).
Proof.
  intros I Hnu Hb. pose proof (hi_bounds _ _ _ _ _ I) as Hbd.
  assert (Hne : ∀ x, x ∈ bl ++ live → end_of x ≤ b ∧ fst x ≠ b).
  { intros x Hx. destruct (ring_elem _ _ _ _ I x Hx) as (_ & H1 & H2). unfold end_of, HDR in *. lia. }
  constructor.
  - apply seg_set_size; [|apply I]. rewrite fmap_cons, not_elem_of_cons. split; [unfold HDR in *; cbn; lia|].
    intros (x & Hx & Hin)%list_elem_of_fmap. destruct (Hne x) as [_ Hn]; [apply elem_of_app; by left|done].
  - apply I.
  - apply I.
  - pose proof (hi_range _ _ _ _ _ I) as HR. rewrite <-Permutation_middle. apply list.Forall_cons. split.
    + unfold within, end_of. cbn [fst snd]. unfold HDR in *. lia.
    + eapply list.Forall_impl; [exact HR|]. intros x (H1 & H2 & H3). unfold within, HDR in *. lia.
  - rewrite <-Permutation_middle. split; [|apply I]. apply list.Forall_forall. intros x Hx. right. by apply Hne.
  - cbn [hsize set_hsize]. apply list.Forall_cons. cbn. rewrite lookup_insert_eq. split; [done|].
    apply list.Forall_forall. intros x Hx. rewrite lookup_insert_ne; [exact (proj1 (list.Forall_forall _ _) (hi_live _ _ _ _ _ I) _ Hx)|].
    intros Heq. destruct (Hne x) as [_ Hn]; [apply elem_of_app; by right|done].
  - unfold HDR in *. lia.
Qed.

Lemma morecore_wp h e bl live n Q : heap_inv base (brk e) h bl live → 1 ≤ n → HDR * n < 2 ^ 31 →
  (∀ e', brk e' = brk e → Q 0 (h, e')) →
  (∀ e' nu h' bl' m, n ≤ nu → brk e' = brk e + HDR * nu → heap_inv base (brk e') h' bl' live →
     units bl' = units bl + nu → (length bl' ≤ S (length bl))%nat → (∃ y, y ∈ bl' ∧ n ≤ snd y) →
     m = freep h' → m ≠ 0 → Q m (h', e')) →
  wp (morecore sbrk n) Q (h, e).
Proof.
  intros I Hn Hm HQ0 HQ. pose proof (hi_bounds _ _ _ _ _ I) as Hb. unfold morecore. cbv zeta.
  set (nu := if n <? 4096 then 4096 else n).
  assert (Hnu : n ≤ nu ∧ 1 ≤ nu ∧ HDR * nu < 2 ^ 31) by (unfold nu, HDR in *; destruct (Z.ltb_spec n 4096); lia).
  clearbody nu. rewrite (Z.mul_comm nu), (u32_small (HDR * nu)), i32_small by (unfold HDR in *; lia).
  apply wp_bind, sbrk_wp; [unfold HDR in *; lia|lia|..]; intros e' He.
  - change (u32 (-1) =? u32 (-1)) with true. by apply wp_ret, HQ0.
  - intros Hmax. change (u32 (-1)) with (2 ^ 32 - 1). rewrite (proj2 (Z.eqb_neq _ _)) by lia.
    pose proof (grow_inv _ _ _ _ nu I ltac:(lia) ltac:(lia)) as I'. rewrite <-He in I'.
    apply wp_bind, wp_set_size. apply wp_bind. eapply free_wp; [exact I'|done|].
    intros h' bl' I2 Hu Hl (y & Hy & Hyn). apply wp_geth. eapply (HQ e' nu h' bl'); try done; [lia|by exists y; split; [|lia]|].
    pose proof (hi_freep _ _ _ _ _ I2) as Hf. apply list_elem_of_fmap in Hf as (x & -> & [->|Hx]%elem_of_cons); [cbn; lia|].
    destruct (ring_elem _ _ _ _ I2 x) as (X1 & _); [apply elem_of_app; by left|]. unfold HDR in *. lia.
Qed.

(** Space that is neither free nor in use. *)
Definition slack (b : Z) (bl live : list block) : Z := b - HDR * (units bl + units live).

Lemma malloc_ready h e bl live n Q : heap_inv base (brk e) h bl live → 1 ≤ n → HDR * n < 2 ^ 31 →
  (∀ h' e' bl' a, heap_inv base (brk e') h' bl' ((a, n) :: live) → slack (brk e') bl' ((a, n) :: live) = slack (brk e) bl live →
     Q (a + HDR) (h', e')) →
  (∀ e', brk e' = brk e → Q 0 (h, e')) →
  wp (p ← ptr (freep h); k ← geth hdr_count; malloc_loop sbrk (2 * k + 4) n (freep h) p) Q (h, e).
Proof.
  intros I Hn Hm HQ HQ0. pose proof (ring_headers _ _ _ _ I) as Hc.
  assert (Hp : ∃ v, hptr h !! freep h = Some v).
  { pose proof (hi_freep _ _ _ _ _ I) as Hf. apply list_elem_of_fmap in Hf as (x & -> & Hx).
    by destruct (seg_elem _ _ _ _ x (hi_ring _ _ _ _ _ I) Hx) as [_ Hv]. }
  destruct Hp as [v Hv]. apply wp_bind. eapply wp_ptr; [exact Hv|]. apply wp_bind, wp_geth.
  set (fuel := (2 * hdr_count h + 4)%nat).
  assert (W : wp (q ← ptr (freep h); malloc_loop sbrk fuel n (freep h) q) Q (h, e)).
  - eapply malloc_search; [exact I|done|unfold fuel; lia|..].
    + intros h' bl' a I' Hu. apply (HQ h' e bl' a I'). unfold slack, HDR in *. change (units ((a, n) :: live)) with (n + units live). lia.
    + intros _. apply wp_bind. apply (morecore_wp h e bl live n); [done|done|done|intros e' He|].
      * by apply wp_ret, HQ0.
      * intros e' nu h' bl' m Hnu He I' Hu Hl (y & Hy & Hyn) -> Hf0. rewrite (proj2 (Z.eqb_neq _ _)) by done.
        eapply malloc_search; [exact I'|done|simpl in *; unfold fuel; lia|..].
        -- intros h2 bl2 a I2 Hu2. apply (HQ h2 e' bl2 a I2). unfold slack, HDR in *. change (units ((a, n) :: live)) with (n + units live). lia.
        -- intros [_ Hsm]%list.Forall_cons. rewrite list.Forall_forall in Hsm. specialize (Hsm y Hy). cbn beta in Hsm. lia.
  - revert W. unfold wp, ptr, geth, mbind, M_bind, gets. cbn -[malloc_loop]. by rewrite Hv.
Qed.

Lemma malloc_wp h e bl live nbytes Q : heap_ok base (brk e) h bl live → 0 ≤ nbytes ≤ 2 ^ 31 - 16 →
  (∀ h' e' bl' a n, heap_ok base (brk e') h' bl' ((a, n) :: live) → slack (brk e') bl' ((a, n) :: live) = slack (brk e) bl live →
     HDR + nbytes ≤ HDR * n → Q (a + HDR) (h', e')) →
  (∀ h' e', heap_ok base (brk e') h' bl live → brk e' = brk e → Q 0 (h', e')) →
  wp (malloc base sbrk nbytes) Q (h, e).
Proof.
  intros Hok Hnb HQ HQ0. unfold malloc. cbv zeta. unfold HDR in *. rewrite (u32_small (nbytes + 8 - 1)) by lia.
  pose proof (Z.div_mod (nbytes + 8 - 1) 8 ltac:(done)) as Hdm. pose proof (Z.mod_pos_bound (nbytes + 8 - 1) 8 ltac:(done)) as Hmb.
  set (n := (nbytes + 8 - 1) / 8) in *. rewrite u32_small by lia. clearbody n.
  assert (Main : ∀ h1 e1, heap_inv base (brk e1) h1 bl live → e1 = e →
    wp (p ← ptr (freep h1); k ← geth hdr_count; malloc_loop sbrk (2 * k + 4) (n + 1) (freep h1) p) Q (h1, e1)).
  { intros h1 e1 I ->. apply (malloc_ready h1 e bl live (n + 1)); [done|lia|unfold HDR; lia|..].
    - intros h' e' bl' a I' Hu. apply (HQ h' e' bl' a (n + 1)); [by right|done|lia].
    - intros e' He. apply HQ0; [right; by rewrite He|done]. }
  apply wp_bind, wp_geth. destruct Hok as [(Hf & -> & -> & Hb1 & Hb2)|I].
  - rewrite Hf. change (0 =? 0) with true. cbv iota. apply wp_bind. apply wp_bind, wp_modh, wp_bind, wp_set_ptr.
    apply wp_bind, wp_set_size, wp_ret. set (h1 := set_hsize _ _).
    assert (Hf1 : freep h1 = base) by done. rewrite <-Hf1. apply Main; [|done]. constructor; try done.
    + split_and!; [done|by cbn; rewrite lookup_insert_eq|]. exists base. split; [by cbn; rewrite lookup_insert_eq|done].
    + by left.
  - rewrite (proj2 (Z.eqb_neq _ _)); [apply wp_bind, wp_ret; by apply Main|].
    pose proof (hi_freep _ _ _ _ _ I) as Hf. pose proof (hi_bounds _ _ _ _ _ I) as Hb.
    apply list_elem_of_fmap in Hf as (x & -> & [->|Hx]%elem_of_cons); [cbn; lia|].
    destruct (ring_elem _ _ _ _ I x) as (X1 & _); [apply elem_of_app; by left|]. unfold HDR in *. lia.
Qed.
End Facts.

(** ** The theorems *)

(** C7. [malloc] of any size below 2 GB, on a heap in order: it ends, and either
    returns 0, when the kernel gives no more memory, or the address of a block
    with room for the bytes that is disjoint from every block the program
    holds; none of these is touched, and every byte the kernel gave is in a
    free block or in one of the program's. *)
Theorem malloc_correct {E} (base : Z) (sbrk : Z → M (uheap * E) Z) (brk : E → Z) `{!Sbrk sbrk brk} h e bl live nbytes
    (Hok : heap_ok base (brk e) h bl live) (Hn : 0 ≤ nbytes ≤ 2 ^ 31 - 16) :
  wp (malloc base sbrk nbytes) (λ r s', let '(h', e') := s' in
    if r =? 0 then heap_ok base (brk e') h' bl live ∧ brk e' = brk e
    else ∃ bl' n, heap_ok base (brk e') h' bl' ((r - HDR, n) :: live) ∧
      slack (brk e') bl' ((r - HDR, n) :: live) = slack (brk e) bl live ∧
      base + HDR ≤ r - HDR ∧ r + nbytes ≤ r - HDR + HDR * n ≤ brk e' ∧
      ∀ p m, (p, m) ∈ live → r + nbytes ≤ p ∨ p + HDR * m ≤ r - HDR) (h, e).
Proof.
  eapply malloc_wp; [done|exact Hok|exact Hn|..].
  - intros h' e' bl' a n Hok' Hs Hr. assert (I : heap_inv base (brk e') h' bl' ((a, n) :: live)) by (by destruct Hok' as [(_ & _ & ? & _)|I]).
    pose proof (hi_bounds _ _ _ _ _ I) as Hb. destruct (ring_elem base _ _ _ _ I (a, n)) as (X1 & X2 & X3); [apply elem_of_app; right; by left|].
    unfold end_of, HDR in *. cbn [fst snd] in *. rewrite (proj2 (Z.eqb_neq _ _)) by lia.
    exists bl', n. replace (a + 8 - 8) with a by lia. split_and!; try done; try lia.
    intros p m Hp. pose proof (hi_apart _ _ _ _ _ I) as HA. apply all_apart_app in HA as (_ & [HA _] & _).
    rewrite list.Forall_forall in HA. specialize (HA (p, m) Hp). unfold apart, end_of, HDR in HA. cbn [fst snd] in HA. lia.
  - intros h' e' Hok' He. done.
Qed.

(** C19. [free] of a block the program holds, on a heap in order: it ends, the
    block is free again, joined with the neighbours it touches, the program's
    other blocks are as they were and no byte is lost. *)
Theorem free_correct {E} (base b : Z) h (e : E) bl live ap n live'
    (Hok : heap_ok base b h bl live) (Hl : live ≡ₚ (ap - HDR, n) :: live') :
  wp (free ap) (λ _ s', let '(h', e') := s' in e' = e ∧
    ∃ bl', heap_ok base b h' bl' live' ∧ gaps base bl' ∧ slack b bl' live' = slack b bl live ∧
      ∃ p m, (p, m) ∈ bl' ∧ n ≤ m) (h, e).
Proof.
  assert (I : heap_inv base b h bl live).
  { destruct Hok as [(_ & _ & -> & _)|I]; [|done]. by apply Permutation_nil_cons in Hl. }
  replace ap with (ap - HDR + HDR) by lia. eapply free_wp; [exact I|exact Hl|].
  intros h' bl' I' Hu _ ([p m] & Hy & Hm). split; [done|]. exists bl'. split_and!; [by right|apply I'| |by exists p, m].
  unfold slack. rewrite Hl. change (units ((ap - HDR, n) :: live')) with (n + units live'). lia.
Qed.

(** What the program writes inside its blocks does not matter. *)
Lemma heap_inv_scribble base b h h' bl live : heap_inv base b h bl live → freep h' = freep h →
  (∀ a, (∀ x, x ∈ live → ¬ (fst x < a < end_of x)) → hptr h' !! a = hptr h !! a ∧ hsize h' !! a = hsize h !! a) →
  heap_inv base b h' bl live.
Proof.
  intros I Hf Ha. constructor; try apply I.
  - pose proof (hi_ring _ _ _ _ _ I) as Hs. revert Hs. apply seg_ext. intros x Hx. apply Ha. intros y Hy Hin.
    destruct (ring_apart _ _ _ _ _ I x y Hx Hy) as [H|H]; [|lia].
    pose proof (ring_nonneg _ _ _ _ _ I) as Hn. rewrite list.Forall_forall in Hn. specialize (Hn x Hx). cbn beta in Hn.
    unfold end_of, HDR in *. lia.
  - rewrite Hf. apply I.
  - apply list.Forall_forall. intros x Hx. destruct (Ha (fst x)) as [_ ->].
    + intros y Hy Hin. pose proof (hi_apart _ _ _ _ _ I) as HA. apply all_apart_app in HA as (_ & HA & _).
      apply list_elem_of_split in Hx as (l1 & l2 & Hl). rewrite Hl, <-Permutation_middle in HA. destruct HA as [HA _].
      rewrite list.Forall_forall in HA.
      assert (Hxr : within (base + HDR) b x) by (apply (ring_elem _ _ _ _ _ I), elem_of_app; right; rewrite Hl; apply elem_of_app; right; by left).
      destruct Hxr as (_ & Hx1 & _). rewrite Hl, elem_of_app, elem_of_cons in Hy.
      destruct Hy as [Hy|[->|Hy]]; [specialize (HA y ltac:(apply elem_of_app; by left))|lia|specialize (HA y ltac:(apply elem_of_app; by right))];
        unfold apart, end_of, HDR in *; lia.
    + exact (proj1 (list.Forall_forall _ _) (hi_live _ _ _ _ _ I) x Hx).
Qed.

(** ** A kernel with a limit *)

Definition bump (limit : Z) (n : Z) : M (uheap * Z) Z := λ s,
  let '(h, b) := s in if b + n <=? limit then Ret b (h, b + n) else Ret (u32 (-1)) (h, b).

#[export] Instance bump_sbrk limit (Hl : limit ≤ 2 ^ 31) : Sbrk (bump limit) (λ b, b).
Proof.
  intros n h e Q Hn He H0 H1. unfold wp, bump. destruct (Z.leb_spec (e + n) limit); [apply H1; lia|by apply H0].
Qed.

Definition h_one : uheap := mkHeap {[96 := 96]} {[96 := 0; 104 := 2]} 96.
Lemma h_one_ok : heap_inv 96 120 h_one [] [(104, 2)].
Proof.
  constructor.
  - split_and!; [done|done|]. by exists 96.
  - by left.
  - done.
  - apply list.Forall_cons. split; [|done]. unfold within, end_of, HDR. cbn. lia.
  - by split.
  - by apply list.Forall_cons.
  - done.
Qed.

(** With one block of two units out, 100 bytes of memory are asked for. *)
Lemma malloc_correct_witness : wp (malloc 96 (bump 50000) 100) (λ r s', let '(h', e') := s' in
    if r =? 0 then heap_ok 96 e' h' [] [(104, 2)] ∧ e' = 120
    else ∃ bl' n, heap_ok 96 e' h' bl' [(r - HDR, n); (104, 2)] ∧
      slack e' bl' [(r - HDR, n); (104, 2)] = slack 120 [] [(104, 2)] ∧
      96 + HDR ≤ r - HDR ∧ r + 100 ≤ r - HDR + HDR * n ≤ e' ∧
      ∀ p m, (p, m) ∈ [(104, 2)] → r + 100 ≤ p ∨ p + HDR * m ≤ r - HDR) (h_one, 120).
Proof.
  assert (S : Sbrk (bump 50000) (λ b, b)) by (by apply bump_sbrk).
  exact (malloc_correct 96 (bump 50000) (λ b, b) h_one 120 [] [(104, 2)] 100 (or_intror h_one_ok) ltac:(lia)).
Defined.

Lemma free_correct_witness : wp (free 112) (λ _ s', let '(h', e') := s' in e' = () ∧
    ∃ bl', heap_ok 96 120 h' bl' [] ∧ gaps 96 bl' ∧ slack 120 bl' [] = slack 120 [] [(104, 2)] ∧
      ∃ p m, (p, m) ∈ bl' ∧ 2 ≤ m) (h_one, ()).
Proof. exact (free_correct 96 120 h_one () [] [(104, 2)] 112 2 [] (or_intror h_one_ok) ltac:(done)). Defined.
