(* ===== verification/User.v ===== *)
(** * User programs: the C library and the small commands

    ulib.c, printf.c, cat.c, echo.c, init.c, kill.c, ln.c, ls.c, mkdir.c, rm.c,
    test.c, wc.c and zombie.c, written against the system calls a process sees
    ([Sys]).  A [char*] argument is the list of its bytes without the
    terminator; [argv] is the list of the arguments.  [exit] ends the program,
    so the outcome is [Block]: nothing after it runs. *)
From S2P Require Import Prelude CString Console Fs Sysfile.

(** ** System calls (user.h) *)

(** [read] gives its result and the bytes it stored. *)
Class Sys (St : Type) := {
  u_read : Z → Z → M St (Z * list Z);
  u_write : Z → list Z → M St Z;
  u_open : list Z → Z → M St Z;
  u_close : Z → M St Z;
  u_fstat : Z → M St (Z * stat);
  u_dup : Z → M St Z;
  u_pipe : M St (Z * (Z * Z));
  u_unlink : list Z → M St Z;
  u_link : list Z → list Z → M St Z;
  u_mkdir : list Z → M St Z;
  u_mknod : list Z → Z → Z → M St Z;
  u_chdir : list Z → M St Z;
  u_kill : Z → M St Z;
  u_fork : Z → M St Z;
  u_wait : M St Z;
  u_exec : list Z → list (list Z) → M St Z;
  u_sleep : Z → M St Z }.

Section User.
Context {St : Type} `{!Sys St}.

Definition exit {A} : M St A := block.

(** ** printf.c *)

Definition digits : list Z := chars "0123456789ABCDEF".

(** The output of [printf] for [fmt] and the arguments, one character of
    [fmt] at a time in [state] 0 or ['%']. *)
Fixpoint printf_out (fmt : list Z) (args : list arg) (percent : bool) : option (list Z) :=
  match fmt with
  | [] => Some []
  | c :: fmt =>
      let c := Z.land c 0xff in
      if negb percent then
        if c =? 37 then printf_out fmt args true else cons c <$> printf_out fmt args false
      else if c =? 100 then
        match args with
        | AInt v :: args => app (printint_out digits (i32 v) 10 true) <$> printf_out fmt args false
        | _ => None
        end
      else if (c =? 120) || (c =? 112) then
        match args with
        | AInt v :: args => app (printint_out digits (i32 v) 16 false) <$> printf_out fmt args false
        | _ => None
        end
      else if c =? 115 then
        match args with
        | AStr s :: args => app (default (chars "(null)") s) <$> printf_out fmt args false
        | _ => None
        end
      else if c =? 99 then
        match args with
        | AInt v :: args => cons (u8 v) <$> printf_out fmt args false
        | _ => None
        end
      else if c =? 37 then cons c <$> printf_out fmt args false
      else app [37; c] <$> printf_out fmt args false
  end.

Definition putc (fd c : Z) : M St unit := u_write fd [c] ;; mret ().
Definition printf (fd : Z) (fmt : list Z) (args : list arg) : M St unit :=
  out ← deref (printf_out fmt args false); for_each out (putc fd).

(** ** ulib.c *)

(** [gets]: [room] more bytes fit before the terminator. *)
Fixpoint gets_loop (room : nat) (acc : list Z) : M St (list Z) :=
  match room with
  | O => mret acc
  | S room =>
      '(cc, b) ← u_read 0 1;
      if cc <? 1 then mret acc else
      let c := default 0 (head b) in
      if (c =? 10) || (c =? 13) then mret (acc ++ [c]) else gets_loop room (acc ++ [c])
  end.
Definition gets (max : Z) : M St (list Z) := gets_loop (Z.to_nat (max - 1)) [].

(** [stat]; [None] is -1. *)
Definition u_stat (n : list Z) : M St (option stat) :=
  fd ← u_open n O_RDONLY;
  if fd <? 0 then mret None else
  '(r, st) ← u_fstat fd;
  u_close fd ;;
  mret (if r <? 0 then None else Some st).

(** ** cat.c *)

Fixpoint cat (fuel : nat) (fd : Z) : M St unit :=
  match fuel with
  | O => fault
  | S f =>
      '(n, bs) ← u_read fd 512;
      if 0 <? n then u_write 1 bs ;; cat f fd
      else if n <? 0 then printf 1 (chars "cat: read error" ++ [10]) [] ;; exit
      else mret ()
  end.

(** Run [body] on every file named, the way the filters do. *)
Fixpoint each_file (who : list Z) (body : Z → list Z → M St unit) (names : list (list Z)) : M St unit :=
  match names with
  | [] => exit
  | n :: names =>
      fd ← u_open n 0;
      if fd <? 0 then printf 1 (who ++ chars ": cannot open %s" ++ [10]) [AStr (Some n)] ;; exit else
      body fd n ;; u_close fd ;; each_file who body names
  end.
Definition cat_main (fuel : nat) (argv : list (list Z)) : M St unit :=
  match argv with
  | [] | [_] => cat fuel 0 ;; exit
  | _ :: names => each_file (chars "cat") (λ fd _, cat fuel fd) names
  end.

(** ** wc.c *)

Record counts := mkCounts { wl : Z; ww : Z; wch : Z; inword : bool }.
(** The bytes of the string literal [wc] looks white space up in. *)
Definition wc_space (c : Z) : bool := bool_decide (c ∈ [32; 13; 9; 10; 11]).
Definition wc_byte (s : counts) (c : Z) : counts :=
  let ch := i32 (wch s + 1) in
  let l := if c =? 10 then i32 (wl s + 1) else wl s in
  if wc_space c then mkCounts l (ww s) ch false
  else if negb (inword s) then mkCounts l (i32 (ww s + 1)) ch true
  else mkCounts l (ww s) ch true.
Fixpoint wc_loop (fuel : nat) (fd : Z) (s : counts) : M St (Z * counts) :=
  match fuel with
  | O => fault
  | S f =>
      '(n, bs) ← u_read fd 512;
      if 0 <? n then wc_loop f fd (foldl wc_byte s bs) else mret (n, s)
  end.
Definition wc (fuel : nat) (fd : Z) (name : list Z) : M St unit :=
  '(n, s) ← wc_loop fuel fd (mkCounts 0 0 0 false);
  if n <? 0 then printf 1 (chars "wc: read error" ++ [10]) [] ;; exit else
  printf 1 (chars "%d %d %d %s" ++ [10]) [AInt (wl s); AInt (ww s); AInt (wch s); AStr (Some name)].
Definition wc_main (fuel : nat) (argv : list (list Z)) : M St unit :=
  match argv with
  | [] | [_] => wc fuel 0 [] ;; exit
  | _ :: names => each_file (chars "wc") (wc fuel) names
  end.

(** ** echo.c, rm.c, mkdir.c, ln.c, kill.c *)

Fixpoint echo_loop (args : list (list Z)) : M St unit :=
  match args with
  | [] => mret ()
  | a :: args =>
      printf 1 (chars "%s%s") [AStr (Some a); AStr (Some (match args with [] => [10] | _ => [32] end))] ;;
      echo_loop args
  end.
Definition echo_main (argv : list (list Z)) : M St unit := echo_loop (tail argv) ;; exit.

(** The loop of [rm] and [mkdir] stops at the first failure. *)
Fixpoint until_failure (call : list Z → M St Z) (msg : list Z) (names : list (list Z)) : M St unit :=
  match names with
  | [] => exit
  | n :: names =>
      r ← call n;
      if r <? 0 then printf 2 msg [AStr (Some n)] ;; exit else until_failure call msg names
  end.
Definition rm_main (argv : list (list Z)) : M St unit :=
  match argv with
  | [] | [_] => printf 2 (chars "Usage: rm files..." ++ [10]) [] ;; exit
  | _ :: names => until_failure u_unlink (chars "rm: %s failed to delete" ++ [10]) names
  end.
Definition mkdir_main (argv : list (list Z)) : M St unit :=
  match argv with
  | [] | [_] => printf 2 (chars "Usage: mkdir files..." ++ [10]) [] ;; exit
  | _ :: names => until_failure u_mkdir (chars "mkdir: %s failed to create" ++ [10]) names
  end.
Definition ln_main (argv : list (list Z)) : M St unit :=
  match argv with
  | [_; old; new] =>
      r ← u_link old new;
      when (r <? 0) (printf 2 (chars "link %s %s: failed" ++ [10]) [AStr (Some old); AStr (Some new)]) ;; exit
  | _ => printf 2 (chars "Usage: ln old new" ++ [10]) [] ;; exit
  end.
Definition kill_main (argv : list (list Z)) : M St unit :=
  match argv with
  | [] => printf 2 (chars "usage: kill pid..." ++ [10]) [] ;; exit
  | _ :: pids => for_each pids (λ a, p ← deref (Str.atoi (a ++ [0])); u_kill p ;; mret ()) ;; exit
  end.

(** ** ls.c *)

(** What follows the last slash. *)
Fixpoint after_slash (p : list Z) : list Z :=
  match p with
  | [] => []
  | c :: p' => if bool_decide (47 ∈ p') then after_slash p' else if c =? 47 then p' else p
  end.
Definition fmtname (path : list Z) : list Z :=
  let p := after_slash path in
  if (DIRSIZ <=? length p)%nat then p else p ++ replicate (DIRSIZ - length p) 32.

Definition ls_line (path : list Z) (st : stat) : M St unit :=
  printf 1 (chars "%s %d %d %d" ++ [10])
    [AStr (Some (fmtname path)); AInt (st_type st); AInt (st_ino st); AInt (st_size st)].
(** The entries of the directory open as [fd]. *)
Fixpoint ls_dir (fuel : nat) (fd : Z) (path : list Z) : M St unit :=
  match fuel with
  | O => fault
  | S f =>
      '(n, de) ← u_read fd 16;
      if negb (n =? 16) then mret () else
      if de_inum de =? 0 then ls_dir f fd path else
      let buf := path ++ [47] ++ Str.cstr (de_name de) in
      o ← u_stat buf;
      match o with
      | None => printf 1 (chars "ls: cannot stat %s" ++ [10]) [AStr (Some buf)]
      | Some st => ls_line buf st
      end ;;
      ls_dir f fd path
  end.
Definition ls (fuel : nat) (path : list Z) : M St unit :=
  fd ← u_open path 0;
  if fd <? 0 then printf 2 (chars "ls: cannot open %s" ++ [10]) [AStr (Some path)] else
  '(r, st) ← u_fstat fd;
  if r <? 0 then printf 2 (chars "ls: cannot stat %s" ++ [10]) [AStr (Some path)] ;; u_close fd ;; mret () else
  (if st_type st =? T_FILE then ls_line path st
   else if st_type st =? T_DIR then
     if 512 <? Z.of_nat (length path) + 1 + Z.of_nat DIRSIZ + 1 then printf 1 (chars "ls: path too long" ++ [10]) []
     else ls_dir fuel fd path
   else mret ()) ;;
  u_close fd ;; mret ().
Definition ls_main (fuel : nat) (argv : list (list Z)) : M St unit :=
  match argv with
  | [] | [_] => ls fuel (chars ".") ;; exit
  | _ :: names => for_each names (ls fuel) ;; exit
  end.

(** ** init.c, test.c, zombie.c *)

Definition init_files : M St unit :=
  fd ← u_open (chars "console") O_RDWR;
  when (fd <? 0) (u_mknod (chars "console") 1 1 ;; u_open (chars "console") O_RDWR ;; mret ()) ;;
  u_dup 0 ;; u_dup 0 ;; mret ().
(** Reap until the shell [pid] has ended. *)
Fixpoint init_reap (fuel : nat) (pid : Z) : M St unit :=
  match fuel with
  | O => fault
  | S f =>
      wpid ← u_wait;
      if (0 <=? wpid) && negb (wpid =? pid) then printf 1 (chars "zombie!" ++ [10]) [] ;; init_reap f pid
      else mret ()
  end.
(** One turn of the endless loop. *)
Definition init_round (fuel : nat) : M St unit :=
  printf 1 (chars "init: starting sh" ++ [10]) [] ;;
  pid ← u_fork 500;
  if pid <? 0 then printf 1 (chars "init: fork failed" ++ [10]) [] ;; exit else
  if pid =? 0 then
    u_exec (chars "sh") [chars "sh"] ;; printf 1 (chars "init: exec sh failed" ++ [10]) [] ;; exit
  else init_reap fuel pid.

(** Three children with 500, 501 and 502 tickets; the child's loops only burn
    time. *)
Definition test_main : M St Z :=
  for_each [0; 1; 2] (λ i, pid ← u_fork (500 + i); when (pid =? 0) exit) ;;
  for_each [0; 1; 2] (λ _, pid ← u_wait; printf 1 (chars "Filho %d finalisou" ++ [10]) [AInt pid]) ;;
  mret 1.

Definition zombie_main : M St unit :=
  pid ← u_fork 500; when (0 <? pid) (u_sleep 5 ;; mret ()) ;; exit.

End User.

(** ** A process with an input and an output

    [read] hands out the chunks of the input one by one, as a pipe or a console
    does; [write] appends to the output.  A read of less than a chunk, which the
    programs run on it do not make, and the other calls have no result. *)
Module Stream.

Record io := mkIo { chunks : list (list Z); shown : list Z }.

Definition read (n : Z) : M io (Z * list Z) := λ s,
  match chunks s with
  | [] => Ret (0, []) s
  | ch :: rest =>
      if Z.of_nat (length ch) <=? n then Ret (Z.of_nat (length ch), ch) (mkIo rest (shown s)) else Fault
  end.
Definition write (bs : list Z) : M io Z := λ s,
  Ret (Z.of_nat (length bs)) (mkIo (chunks s) (shown s ++ bs)).

#[export] Instance sys : Sys io := {|
  u_read _ := read; u_write _ := write;
  u_open _ _ := fault; u_close _ := fault; u_fstat _ := fault; u_dup _ := fault; u_pipe := fault;
  u_unlink _ := fault; u_link _ _ := fault; u_mkdir _ := fault; u_mknod _ _ _ := fault; u_chdir _ := fault;
  u_kill _ := fault; u_fork _ := fault; u_wait := fault; u_exec _ _ := fault; u_sleep _ := fault |}.

End Stream.
