(* ===== verification/PrintFacts.v ===== *)
(** * Numbers printed and read back (console.c, printf.c, ulib.c)

    The kernel's and the library's [printint] produce the digits of a number
    without leading zeros, in their sixteen bytes; [atoi] reads them back. *)
From S2P Require Import Prelude CString Console User.

(** The numeral of digits in base [b], least significant first. *)
Fixpoint le_num (b : Z) (ds : list Z) : Z :=
  match ds with [] => 0 | d :: ds => d + b * le_num b ds end.
(** Most significant first. *)
Definition be_num (b : Z) (ds : list Z) : Z := foldl (λ n d, n * b + d) 0 ds.

Definition digit (tbl : list Z) (d : Z) : Z := default 0 (aget tbl d).

Lemma foldl_num b ds n : foldl (λ n d, n * b + d) n ds = n * b ^ Z.of_nat (length ds) + be_num b ds.
Proof.
  revert n. induction ds as [|d ds IH]; intros n; unfold be_num; cbn [foldl length].
  - rewrite Z.pow_0_r. lia.
  - rewrite IH, (IH (0 * b + d)). rewrite Nat2Z.inj_succ, Z.pow_succ_r by lia. ring.
Qed.

Lemma be_num_rev b ds : be_num b (rev ds) = le_num b ds.
Proof.
  induction ds as [|d ds IH]; [done|]. cbn [rev le_num]. unfold be_num in *. rewrite foldl_app, IH. simpl. ring.
Qed.

Definition digits_ok (b : Z) (ds : list Z) : Prop := Forall (λ d, 0 ≤ d < b) ds.

(** The digit loop: the digits of [x], and no more than needed. *)
Lemma digit_loop_spec tbl b : 2 ≤ b → ∀ fuel x buf, 0 ≤ x < b ^ Z.of_nat fuel → (0 < fuel)%nat →
  ∃ ds, digit_loop fuel tbl x b buf = buf ++ (digit tbl <$> ds) ∧ digits_ok b ds ∧ le_num b ds = x ∧
    (∀ k, (0 < k)%nat → x < b ^ Z.of_nat k → (length ds ≤ k)%nat) ∧ (0 < x → ∃ ds' d, ds = ds' ++ [d] ∧ d ≠ 0).
Proof.
  intros Hb. induction fuel as [|f IH]; intros x buf Hx Hf; [lia|]. cbn [digit_loop].
  pose proof (Z.mod_pos_bound x b). pose proof (Z.div_mod x b).
  destruct (Z.eqb_spec (x / b) 0) as [E|E].
  - exists [x mod b]. split_and!; [done|repeat constructor; lia|simpl; lia|simpl; lia|].
    intros. exists [], (x mod b). split; [done|lia].
  - rewrite Nat2Z.inj_succ, Z.pow_succ_r in Hx by lia.
    assert (Hq : 0 < x / b < b ^ Z.of_nat f).
    { split; [pose proof (Z.div_pos x b); lia|]. apply Z.div_lt_upper_bound; lia. }
    destruct f as [|f]; [simpl in Hq; lia|].
    destruct (IH (x / b) (buf ++ [digit tbl (x mod b)])) as (ds & Eq & Hok & Hv & HL & Hlast); [lia..|].
    exists (x mod b :: ds). split_and!.
    + unfold digit at 1 in Eq. rewrite Eq, <-app_assoc. done.
    + constructor; [lia|done].
    + cbn [le_num]. rewrite Hv. lia.
    + intros k Hk Hxk. destruct k as [|k]; [lia|]. rewrite Nat2Z.inj_succ, Z.pow_succ_r in Hxk by lia.
      assert (x / b < b ^ Z.of_nat k) by (apply Z.div_lt_upper_bound; lia).
      destruct k as [|k]; [simpl in *; lia|]. cbn [length]. apply le_n_S, HL; lia.
    + intros _. destruct Hlast as (ds' & d & -> & Hd); [lia|]. by exists (x mod b :: ds'), d.
Qed.

(** ** [atoi] *)

Lemma i32_mod x y : (x - y) mod 2 ^ 32 = 0 → i32 x = i32 y.
Proof.
  intros H. unfold i32. f_equal. apply Z.cong_iff_0. replace (x + 2 ^ 31 - (y + 2 ^ 31)) with (x - y) by lia. done.
Qed.

Lemma i32_mul_step n b d : i32 (i32 n * b + d) = i32 (n * b + d).
Proof.
  apply i32_mod. unfold i32 at 1. pose proof (Z.div_mod (n + 2 ^ 31) (2 ^ 32)).
  replace (((n + 2 ^ 31) mod 2 ^ 32 - 2 ^ 31) * b + d - (n * b + d))
    with (- ((n + 2 ^ 31) / 2 ^ 32) * b * 2 ^ 32) by lia.
  by apply Z.mod_mul.
Qed.

Lemma i32_u32 x : i32 (u32 x) = i32 x.
Proof.
  apply i32_mod. unfold u32. pose proof (Z.div_mod x (2 ^ 32)).
  replace (x mod 2 ^ 32 - x) with (- (x / 2 ^ 32) * 2 ^ 32) by lia. by apply Z.mod_mul.
Qed.

(** Both tables have the decimal digits. *)
Definition decimal (tbl : list Z) : Prop := ∀ d, 0 ≤ d < 10 → digit tbl d = 48 + d.

Lemma decimal_tables : decimal Console.digits ∧ decimal User.digits.
Proof.
  assert (H : ∀ tbl, Forall (λ d, digit tbl d = 48 + d) (seqZ 0 10) → decimal tbl).
  { intros tbl H d Hd. rewrite list.Forall_forall in H. apply H, elem_of_seqZ. lia. }
  split; apply H; repeat constructor.
Qed.

Lemma atoi_digits tbl ds : decimal tbl → digits_ok 10 ds → ∀ n,
  Str.atoi_loop ((digit tbl <$> ds) ++ [0]) (i32 n) = Some (i32 (foldl (λ n d, n * 10 + d) n ds)).
Proof.
  intros Ht. induction ds as [|d ds IH]; intros Hok n; [done|].
  inversion_clear Hok as [|? ? Hd Hok']. cbn [fmap list_fmap app Str.atoi_loop foldl].
  rewrite Ht by lia. rewrite (proj2 (Z.leb_le _ _)), (proj2 (Z.leb_le _ _)) by lia. cbn [andb].
  rewrite <-IH by done. f_equal. replace (i32 n * 10 + (48 + d) - 48) with (i32 n * 10 + d) by lia. apply i32_mul_step.
Qed.

Lemma fmap_rev {A B} (f : A → B) l : f <$> rev l = rev (f <$> l).
Proof. induction l as [|x l IH]; [done|]. cbn [rev fmap list_fmap]. by rewrite fmap_app, IH. Qed.

(** Printing and reading back: for any 32-bit value, base ten or sixteen,
    signed or not, and either table, the output is a minus sign if called for
    and then digits of that base, without leading zeros, whose value is the
    number; it fits the sixteen bytes of [buf]; and [atoi] reads the decimal
    digits back to the number, in [int]. *)
Theorem printint_roundtrip (tbl : list Z) (v base : Z) (sign : bool) :
  - 2 ^ 31 ≤ v < 2 ^ 31 → base = 10 ∨ base = 16 → tbl = Console.digits ∨ tbl = User.digits →
  let x := if sign then Z.abs v else v in
  ∃ ds, printint_out tbl v base sign = (if sign && (v <? 0) then [45] else []) ++ (digit tbl <$> ds) ∧
    digits_ok base ds ∧ be_num base ds = u32 x ∧ (v ≠ 0 → head ds ≠ Some 0) ∧
    (length (printint_out tbl v base sign) ≤ 16)%nat ∧
    (base = 10 → Str.atoi ((digit tbl <$> ds) ++ [0]) = Some (i32 x)).
Proof.
  intros Hv Hb Ht x.
  assert (Ex : u32 (if sign && (v <? 0) then - v else v) = u32 x).
  { unfold x. destruct sign; [|done]. cbn [andb]. destruct (Z.ltb_spec v 0); f_equal; lia. }
  pose proof (u32_range x) as Hx.
  destruct (digit_loop_spec tbl base ltac:(lia) 16 (u32 x) []) as (ds & E & Hok & Hval & HL & Hlast); [|lia|].
  { destruct Hb; subst base; lia. }
  assert (Ho : printint_out tbl v base sign = (if sign && (v <? 0) then [45] else []) ++ (digit tbl <$> rev ds)).
  { unfold printint_out. rewrite Ex, E. cbn [app]. rewrite fmap_rev. destruct (sign && (v <? 0)); [|done].
    by rewrite rev_app_distr. }
  assert (HL15 : (length ds ≤ 15)%nat) by (apply HL; [lia|destruct Hb; subst base; lia]).
  exists (rev ds). split_and!.
  - done.
  - by apply Forall_rev.
  - by rewrite be_num_rev.
  - intros Hv0. destruct Hlast as (ds' & d & -> & Hd).
    { assert (u32 x ≠ 0); [|lia]. unfold x, u32. destruct sign; intros Hm%Z.mod_divide; [|done| |done];
        destruct Hm as [k Hk]; lia. }
    rewrite rev_app_distr. intros [= ->]. done.
  - rewrite Ho, length_app, length_fmap, length_rev. destruct (sign && (v <? 0)); simpl; lia.
  - intros ->. unfold Str.atoi. change 0 with (i32 0) at 2. rewrite (atoi_digits tbl).
    + fold (be_num 10 (rev ds)). by rewrite be_num_rev, Hval, i32_u32.
    + destruct decimal_tables, Ht; by subst tbl.
    + by apply Forall_rev.
Qed.

Lemma printint_roundtrip_witness :
  printint_out User.digits (-305) 10 true = chars "-305" ∧ Str.atoi (chars "305" ++ [0]) = Some 305.
Proof.
  destruct (printint_roundtrip User.digits (-305) 10 true ltac:(lia) ltac:(by left) ltac:(by right))
    as (ds & E & _ & _ & _ & _ & H).
  split; [vm_compute; reflexivity|]. specialize (H eq_refl).
  replace (printint_out User.digits (-305) 10 true) with (45 :: chars "305") in E by (vm_compute; reflexivity).
  change ((if true && (-305 <? 0) then [45] else []) ++ (digit User.digits <$> ds))
    with (45 :: (digit User.digits <$> ds)) in E.
  injection E as E'. rewrite <-E' in H. exact H.
Defined.
