(* ===== verification/Grep.v ===== *)
(** * grep (grep.c)

    A pattern and a line are C strings, given by their bytes without the
    terminator.  [matchhere] and [matchstar] are the mutually recursive matchers;
    [grep] works in a buffer of 1024 bytes that the model keeps byte for byte. *)
From S2P Require Import Prelude CString Console Fs Sysfile User.

(** ** The matcher *)

(** The [do ... while] of [matchstar], with [here] for [matchhere] on the rest
    of the pattern. *)
Fixpoint matchstar (here : list Z → bool) (c : Z) (text : list Z) : bool :=
  here text ||
  match text with
  | [] => false
  | x :: text' => ((x =? c) || (c =? 46)) && matchstar here c text'
  end.

Fixpoint matchhere (re text : list Z) : bool :=
  match re with
  | [] => true
  | c :: re1 =>
      let one := 
        if (c =? 36) && bool_decide (re1 = []) then bool_decide (text = [])
        else match text with
             | x :: text' => ((c =? 46) || (c =? x)) && matchhere re1 text'
             | [] => false
             end in
      match re1 with
      | d :: re2 => if d =? 42 then matchstar (matchhere re2) c text else one
      | [] => one
      end
  end.

(** The [do ... while] of [match]. *)
Fixpoint match_any (re text : list Z) : bool :=
  matchhere re text || match text with [] => false | _ :: text' => match_any re text' end.
Definition match_re (re text : list Z) : bool :=
  match re with
  | c :: re' => if c =? 94 then matchhere re' text else match_any re text
  | [] => match_any re text
  end.

(** ** The filter *)

Definition BUF : nat := 1024.

Section Grep.
Context {St : Type} `{!Sys St}.

(** The inner loop: every newline from [p] on ends a line.  A line that does not
    match keeps the terminator that was written over its newline. *)
Fixpoint grep_lines (fuel : nat) (pattern buf : list Z) (p : nat) : M St (list Z * nat) :=
  match fuel with
  | O => fault
  | S f =>
      o ← deref (Str.strchr (drop p buf) 10);
      match o with
      | None => mret (buf, p)
      | Some rest =>
          let q := (length buf - length rest)%nat in
          let buf0 := <[q := 0]> buf in
          if match_re pattern (Str.cstr (drop p buf0))
          then u_write 1 (sublist p (q + 1 - p) buf) ;; grep_lines f pattern buf (q + 1)
          else grep_lines f pattern buf0 (q + 1)
      end
  end.

(** The outer loop, [m] bytes of an unfinished line at the start of [buf]; the
    buffer it leaves is what the next file starts with. *)
Fixpoint grep_loop (fuel : nat) (pattern : list Z) (fd : Z) (buf : list Z) (m : Z) : M St (list Z) :=
  match fuel with
  | O => fault
  | S f =>
      if m <? 0 then fault (* [read] would store before [buf] *) else
      '(n, bs) ← u_read fd (Z.of_nat BUF - m);
      if negb (0 <? n) then mret buf else
      let buf := splice (Z.to_nat m) bs buf in
      let m := m + n in
      '(buf, p) ← grep_lines (S BUF) pattern buf 0;
      let m := if Nat.eqb p 0 then 0 else m in
      if 0 <? m then
        let m := m - Z.of_nat p in
        let buf := splice 0 (sublist p (Z.to_nat m) buf) buf in
        grep_loop f pattern fd buf m
      else grep_loop f pattern fd buf m
  end.
Definition grep (fuel : nat) (pattern : list Z) (fd : Z) (buf : list Z) : M St (list Z) :=
  grep_loop fuel pattern fd buf 0.

(** The buffer is in BSS: zero at first, shared by all files. *)
Definition buf0 : list Z := replicate BUF 0.
Fixpoint grep_files (fuel : nat) (pattern : list Z) (buf : list Z) (names : list (list Z)) : M St unit :=
  match names with
  | [] => exit
  | n :: names =>
      fd ← u_open n 0;
      if fd <? 0 then printf 1 (chars "grep: cannot open %s" ++ [10]) [AStr (Some n)] ;; exit else
      buf ← grep fuel pattern fd buf; u_close fd ;; grep_files fuel pattern buf names
  end.
Definition grep_main (fuel : nat) (argv : list (list Z)) : M St unit :=
  match argv with
  | [] | [_] => printf 2 (chars "usage: grep pattern [file ...]" ++ [10]) [] ;; exit
  | [_; pattern] => grep fuel pattern 0 buf0 ;; exit
  | _ :: pattern :: names => grep_files fuel pattern buf0 names
  end.

End Grep.
