(* ===== verification/GrepFacts.v ===== *)
(** * What grep finds (grep.c)

    The backtracking matcher decides the language a pattern denotes; [grep]
    prints the matching lines of an input it gets in one piece, and goes wrong
    on one it gets in two. *)
From S2P Require Import Prelude CString User Grep.
Import Stream.

(** ** The language of a pattern *)

(** Its pieces: a character (or any, for a dot), any number of them, the end of
    the line. *)
Inductive piece := One (c : Z) | Star (c : Z) | Eol.

Fixpoint pieces (re : list Z) : list piece :=
  match re with
  | [] => []
  | c :: re1 =>
      match re1 with
      | d :: re2 => if d =? 42 then Star c :: pieces re2 else One c :: pieces re1
      | [] => if c =? 36 then [Eol] else [One c]
      end
  end.

Definition fits (c x : Z) : Prop := c = 46 ∨ c = x.

(** The pieces match [u] when [w] is what follows on the line. *)
Inductive denotes : list piece → list Z → list Z → Prop :=
| D_nil w : denotes [] [] w
| D_one c x ps u w : fits c x → denotes ps u w → denotes (One c :: ps) (x :: u) w
| D_star c run ps u w : Forall (fits c) run → denotes ps u w → denotes (Star c :: ps) (run ++ u) w
| D_eol : denotes [Eol] [] [].

Definition matches_at (ps : list piece) (text : list Z) : Prop :=
  ∃ u w, text = u ++ w ∧ denotes ps u w.

(** The whole pattern: anchored by ^ or not. *)
Definition found (re text : list Z) : Prop :=
  match re with
  | 94 :: re' => matches_at (pieces re') text
  | _ => ∃ l r, text = l ++ r ∧ matches_at (pieces re) r
  end.

(** ** The matcher *)

Lemma fits_bool c x : ((x =? c) || (c =? 46)) = true ↔ fits c x.
Proof. unfold fits. rewrite orb_true_iff, !Z.eqb_eq. naive_solver. Qed.

Lemma matchstar_spec here c ps : (∀ t, here t = true ↔ matches_at ps t) →
  ∀ text, matchstar here c text = true ↔ matches_at (Star c :: ps) text.
Proof.
  intros Hh. induction text as [|x text IH]; cbn [matchstar]; rewrite orb_true_iff, Hh.
  - split.
    + intros [(u & w & E & D)|[=]]. exists u, w. split; [done|]. by apply (D_star c []).
    + intros (u & w & E & D). left. inversion D as [| |? run ? u' ? Hr D'|]; subst.
      symmetry in E. apply app_eq_nil in E as [[-> ->]%app_eq_nil ->]. by exists [], [].
  - rewrite andb_true_iff, fits_bool, IH. split.
    + intros [(u & w & E & D)|[Hf (u & w & -> & D)]].
      * exists u, w. split; [done|]. by apply (D_star c []).
      * inversion D as [| |? run ? u' ? Hr D'|]; subst. exists ((x :: run) ++ u'), w. split; [done|].
        constructor; [by constructor|done].
    + intros (u & w & E & D). inversion D as [| |? run ? u' ? Hr D'|]; subst.
      destruct run as [|y run].
      * left. by exists u', w.
      * right. injection E as -> ->. inversion_clear Hr as [|? ? Hy Hr']. split; [done|].
        exists (run ++ u'), w. split; [done|]. by constructor.
Qed.

Lemma matchhere_unfold c re1 text : (∀ d re2, re1 = d :: re2 → d ≠ 42) →
  matchhere (c :: re1) text =
    if (c =? 36) && bool_decide (re1 = []) then bool_decide (text = [])
    else match text with
         | x :: text' => ((c =? 46) || (c =? x)) && matchhere re1 text'
         | [] => false
         end.
Proof.
  intros Hd. destruct re1 as [|d re2]; [done|].
  cbn [matchhere]. by rewrite (proj2 (Z.eqb_neq d 42)) by by eapply Hd.
Qed.

Lemma one_spec c ps re1 text : (∀ t, matchhere re1 t = true ↔ matches_at ps t) →
  match text with
  | x :: text' => ((c =? 46) || (c =? x)) && matchhere re1 text'
  | [] => false
  end = true ↔ matches_at (One c :: ps) text.
Proof.
  intros IH. destruct text as [|x text].
  - split; [done|]. intros (u & w & E & D). inversion D; subst. done.
  - rewrite andb_true_iff, IH, orb_true_iff, !Z.eqb_eq. split.
    + intros [Hf (u & w & -> & D)]. exists (x :: u), w. split; [done|]. by constructor.
    + intros (u & w & E & D). inversion D as [|? y ? u' ? Hf D'| |]; subst. injection E as -> ->.
      split; [done|]. by exists u', w.
Qed.

Lemma matchhere_spec re : ∀ text, matchhere re text = true ↔ matches_at (pieces re) text.
Proof.
  induction re as [re IH] using (induction_ltof1 _ (@length Z)). unfold ltof in IH.
  intros text. destruct re as [|c re1].
  { split; [|done]. intros _. exists [], text. split; [done|constructor]. }
  destruct re1 as [|d re2].
  { rewrite matchhere_unfold by done. cbn [pieces]. rewrite bool_decide_eq_true_2, andb_true_r by done.
    destruct (c =? 36).
    - rewrite bool_decide_eq_true. split.
      + intros ->. exists [], []. split; [done|constructor].
      + intros (u & w & -> & D). by inversion D.
    - apply one_spec. intros t. apply (IH []). simpl. lia. }
  cbn [pieces]. destruct (d =? 42) eqn:Ed.
  - cbn [matchhere]. rewrite Ed. apply matchstar_spec. apply IH. simpl. lia.
  - rewrite matchhere_unfold by (intros ? ? [= <- <-]; by apply Z.eqb_neq).
    rewrite bool_decide_eq_false_2, andb_false_r by done. apply one_spec. apply (IH (d :: re2)). simpl. lia.
Qed.

Lemma match_any_spec re text : match_any re text = true ↔
  ∃ l r, text = l ++ r ∧ matches_at (pieces re) r.
Proof.
  induction text as [|x text IH]; cbn [match_any]; rewrite orb_true_iff, matchhere_spec.
  - split; [intros [H|[=]]; by exists [], []|]. intros (l & r & E & H).
    symmetry in E. apply app_eq_nil in E as [-> ->]. by left.
  - rewrite IH. split.
    + intros [H|(l & r & -> & H)]; [by exists [], (x :: text)|by exists (x :: l), r].
    + intros ([|y l] & r & E & H); [left; by rewrite E|]. injection E as -> ->. right. by exists l, r.
Qed.

(** C35. The matcher is total and right: it accepts a line exactly when the
    pattern's language, with ^ and $ as anchors, a dot for any character and a
    star for repetition, has a match on it. *)
Theorem match_re_correct re text : match_re re text = true ↔ found re text.
Proof.
  unfold match_re, found. destruct re as [|c re]; [apply match_any_spec|].
  destruct (Z.eqb_spec c 94) as [->|Hc]; [apply matchhere_spec|].
  rewrite match_any_spec. destruct c as [|p|p]; try done.
  do 7 (destruct p as [p|p|]; try done).
Qed.

(** ** The filter on one chunk of input *)

Definition line_of (l : list Z) : list Z := l ++ [10].
Definition plain (l : list Z) : Prop := 10 ∉ l ∧ 0 ∉ l.
(** What should be printed of the lines [ls]. *)
Definition grepped (re : list Z) (ls : list (list Z)) : list Z :=
  concat (line_of <$> base.filter (λ l, match_re re l = true) ls).

Lemma length_line l : length (line_of l) = S (length l).
Proof. unfold line_of. rewrite length_app. simpl. lia. Qed.

Lemma strchr_line l r : plain l → Str.strchr (l ++ 10 :: r) 10 = Some (Some (10 :: r)).
Proof.
  intros [H1 H2]. induction l as [|x l IH]; [done|]. cbn [app Str.strchr].
  rewrite (proj2 (Z.eqb_neq x 0)), (proj2 (Z.eqb_neq x 10)) by set_solver. apply IH; set_solver.
Qed.

Lemma strchr_none l k : plain l → Str.strchr (l ++ replicate (S k) 0) 10 = Some None.
Proof.
  intros [H1 H2]. induction l as [|x l IH]; [done|]. cbn [app Str.strchr].
  rewrite (proj2 (Z.eqb_neq x 0)), (proj2 (Z.eqb_neq x 10)) by set_solver. apply IH; set_solver.
Qed.

Lemma drop_more (buf a b : list Z) p n : drop p buf = a ++ b → n = length a → drop (p + n) buf = b.
Proof. intros H ->. rewrite <-drop_drop, H. apply drop_app_length. Qed.

(** A line at [p]: where it ends, what the matcher sees, what is written. *)
Lemma at_line (buf : list Z) p l r : drop p buf = line_of l ++ r → plain l →
  let q := (length buf - length (10%Z :: r))%nat in
  q = (p + length l)%nat ∧ Str.cstr (drop p (<[q := 0]> buf)) = l ∧
  sublist p (q + 1 - p) buf = line_of l ∧ drop (q + 1) buf = r ∧ drop (q + 1) (<[q := 0]> buf) = r.
Proof.
  intros Hd [H1 H2]. unfold line_of in *.
  assert (HL : length buf = (p + length l + S (length r))%nat).
  { pose proof (f_equal length Hd) as E. rewrite length_drop, !length_app in E. simpl in E. lia. }
  cbv zeta. replace (length buf - length (10%Z :: r))%nat with (p + length l)%nat by (simpl; lia).
  assert (Hr : drop (p + length l + 1) buf = r).
  { rewrite <-Nat.add_assoc. eapply drop_more; [exact Hd|]. by rewrite length_app. }
  split_and!; [done| | |done|by rewrite drop_insert_lt by lia].
  - rewrite drop_insert_ge by lia. rewrite Hd, <-app_assoc. replace (p + length l - p)%nat with (length l + 0)%nat by lia.
    rewrite insert_app_r. by apply StrFacts.cstr_stop.
  - unfold sublist. rewrite Hd. apply take_app_length'. rewrite length_app. simpl. lia.
Qed.

Lemma grep_lines_run re ls : ∀ fuel buf p tail k cs out,
  drop p buf = concat (line_of <$> ls) ++ tail ++ replicate (S k) 0 →
  Forall plain (tail :: ls) → (length ls < fuel)%nat →
  ∃ buf', grep_lines fuel re buf p (Stream.mkIo cs out) =
      Ret (buf', p + length (concat (line_of <$> ls)))%nat (Stream.mkIo cs (out ++ grepped re ls)) ∧
    length buf' = length buf.
Proof.
  induction ls as [|l ls IH]; intros [|f] buf p tail k cs out Hd Hp Hf; try (simpl in Hf; lia);
    inversion_clear Hp as [|? ? Ht Hls]; cbn [grep_lines].
  - exists buf. change (concat _) with (@nil Z) in *. cbn [app] in Hd. rewrite Hd, strchr_none by done.
    cbn [deref]. erewrite bind_eq by done. cbn [length]. by rewrite Nat.add_0_r, app_nil_r.
  - inversion_clear Hls as [|? ? Hl Hls']. cbn [fmap list_fmap concat] in Hd. rewrite <-app_assoc in Hd.
    destruct (at_line buf p l _ Hd Hl) as (Hq & Hc & Hs & Hr & Hr').
    assert (Hd' : drop p buf = l ++ 10 :: concat (line_of <$> ls) ++ tail ++ replicate (S k) 0)
      by (rewrite Hd; unfold line_of at 1; by rewrite <-app_assoc).
    rewrite Hd', strchr_line by done. cbn [deref]. erewrite bind_eq by done. cbv beta iota zeta.
    set (q := (length buf - _)%nat) in *. rewrite Hc, Hs.
    assert (Hpl : Forall plain (tail :: ls)) by by constructor.
    assert (Hn : (q + 1 + length (concat (line_of <$> ls)))%nat =
      (p + length (concat (line_of <$> l :: ls)))%nat).
    { rewrite Hq. cbn [fmap list_fmap concat]. rewrite length_app, length_line. lia. }
    unfold grepped. rewrite list.filter_cons. destruct (match_re re l) eqn:Em.
    + erewrite bind_eq by done. 
      destruct (IH f buf (q + 1)%nat tail k cs (out ++ line_of l) Hr Hpl) as (buf' & E & HL); [simpl in Hf; lia|].
      exists buf'. rewrite decide_True by done. split; [|done]. etrans; [exact E|]. by rewrite Hn, <-app_assoc.
    + destruct (IH f (<[q := 0]> buf) (q + 1)%nat tail k cs out Hr' Hpl) as (buf' & E & HL); [simpl in Hf; lia|].
      exists buf'. rewrite decide_False by done. rewrite E, Hn. by rewrite HL, length_insert.
Qed.

(** On input that arrives in one piece of less than the buffer, [grep] prints
    the lines that match, each with its newline, in order, and nothing else, and
    stops; what follows the last newline is not looked at. *)
Theorem grep_one_chunk re ls tail out :
  Forall plain (tail :: ls) → concat (line_of <$> ls) ++ tail ≠ [] →
  (length (concat (line_of <$> ls) ++ tail) < BUF)%nat →
  ∃ buf, grep 2 re 0 buf0 (Stream.mkIo [concat (line_of <$> ls) ++ tail] out) =
    Ret buf (Stream.mkIo [] (out ++ grepped re ls)).
Proof.
  intros Hp Hne HL. set (T := concat (line_of <$> ls) ++ tail) in *.
  unfold grep. cbn [grep_loop]. rewrite (proj2 (Z.ltb_ge 0 0)) by done.
  erewrite bind_eq.
  2:{ cbn [u_read Stream.sys]. unfold Stream.read. cbn [Stream.chunks].
      rewrite (proj2 (Z.leb_le _ _)) by lia. reflexivity. }
  cbv beta iota. cbn [Stream.shown].
  assert (HT : (0 < length T)%nat) by (destruct T; [done|simpl; lia]).
  rewrite (proj2 (Z.ltb_lt 0 (Z.of_nat (length T)))) by lia. cbn [negb]. cbv zeta. rewrite Z.add_0_l.
  assert (Hb : splice (Z.to_nat 0) T buf0 = T ++ replicate (S (BUF - 1 - length T)) 0).
  { unfold splice, buf0. change (Z.to_nat 0) with 0%nat. cbn [take app]. rewrite drop_replicate.
    by replace (BUF - (0 + length T))%nat with (S (BUF - 1 - length T)) by lia. }
  destruct (grep_lines_run re ls (S BUF) (splice (Z.to_nat 0) T buf0) 0 tail (BUF - 1 - length T) [] out)
    as (buf' & E & HL'); [rewrite Hb, drop_0; unfold T; by rewrite <-app_assoc|done| |].
  { assert (length ls ≤ length T)%nat; [|lia]. unfold T. clear.
    induction ls as [|l ls IH]; [simpl; lia|]. cbn [fmap list_fmap concat].
    rewrite <-app_assoc, length_app, length_line. simpl. lia. }
  erewrite bind_eq by exact E. cbv beta iota. rewrite Nat.add_0_l.
  set (n := length (concat (line_of <$> ls))).
  assert (Hn : (n ≤ length T)%nat) by (unfold T; rewrite length_app; lia).
  destruct (Nat.eqb n 0); cbv zeta.
  - rewrite (proj2 (Z.ltb_ge 0 0)) by done. eexists. by erewrite bind_eq by done.
  - rewrite (proj2 (Z.ltb_lt 0 (Z.of_nat (length T)))) by lia.
    rewrite (proj2 (Z.ltb_ge _ 0)) by lia. eexists. by erewrite bind_eq by done.
Qed.

(** The lines "ab" and "cd" against the pattern [b]. *)
Lemma grep_one_chunk_witness : ∃ buf,
  grep 2 [98] 0 buf0 (Stream.mkIo [[97; 98; 10; 99; 100; 10]] []) = Ret buf (Stream.mkIo [] [97; 98; 10]).
Proof.
  apply (grep_one_chunk [98] [[97; 98]; [99; 100]] [] []); [|done|].
  - repeat constructor; unfold plain; set_solver.
  - apply (bool_decide_unpack _). vm_compute. exact I.
Defined.

(** The buffer is not terminated after a read, so a shorter second chunk is
    followed by what is left of the first: after the lines "hello" and "a",
    [grep] for [l] reports the line "llo", which was never there, and then would
    have [read] store below the buffer. *)
Lemma grep_stale_line :
  grep 3 [108] 0 buf0 (Stream.mkIo [[104; 101; 108; 108; 111; 10]; [97; 10]] []) = Fault ∧
  ∃ buf p m, (buf' ← grep_lines (S BUF) [108] (splice 0 [104; 101; 108; 108; 111; 10] buf0) 0;
      grep_lines (S BUF) [108] (splice 0 [97; 10] (fst buf')) 0) (Stream.mkIo [] m) =
    Ret (buf, p) (Stream.mkIo [] (m ++ [104; 101; 108; 108; 111; 10] ++ [108; 108; 111; 10])) ∧ (2 < p)%nat.
Proof.
  split; [vm_compute; reflexivity|]. eexists _, _, []. split; [vm_compute; reflexivity|]. lia.
Qed.
