(* ===== verification/Sh.v ===== *)
(** * The shell (sh.c)

    A position in the command line is the suffix of the line from it on, up to
    the terminating NUL at [es], which is the empty suffix.  The parser's state
    is the position [*ps]; [panic] ends the shell's child, and running out of
    the fuel the recursion is given is [Fault].  The [malloc] of the constructors
    ([execcmd] and the rest), whose result sh.c uses without a test, does not
    fail here. *)
From S2P Require Import Prelude CString Console Fs Sysfile User.

Definition MAXARGS : nat := 10.

(** ** Commands *)

(** An argument or file name: where it starts and where it ends. *)
Definition word : Type := list Z * list Z.

Inductive cmd {W : Type} :=
| EXEC (argv : list W)
| REDIR (c : cmd) (file : W) (mode fd : Z)
| PIPE (left right : cmd)
| LIST (left right : cmd)
| BACK (c : cmd).
Arguments cmd : clear implicits.

(** ** Tokens *)

Definition whitespace : list Z := [32; 9; 13; 10; 11].
Definition symbols : list Z := chars "<|>&;()".
(** [strchr] of one of these strings, which hold no NUL. *)
Definition in_ (s : list Z) (c : Z) : bool := bool_decide (c ∈ s).

Fixpoint skip_ws (s : list Z) : list Z :=
  match s with
  | c :: s' => if in_ whitespace c then skip_ws s' else s
  | [] => []
  end.
(** The loop of [gettoken]'s default case. *)
Fixpoint skip_word (s : list Z) : list Z :=
  match s with
  | c :: s' => if negb (in_ whitespace c) && negb (in_ symbols c) then skip_word s' else s
  | [] => []
  end.

Abbreviation P := (M (list Z)).

(** The token's code, its start and its end. *)
Definition gettoken : P (Z * word) := λ s,
  let q := skip_ws s in
  let '(ret, eq) :=
    match q with
    | [] => (0, q)
    | c :: t =>
        if in_ (chars "|();&<") c then (c, t)
        else if c =? 62 then
          match t with
          | d :: t' => if d =? 62 then (43, t') else (c, t)
          | [] => (c, t)
          end
        else (97, skip_word q)
    end in
  Ret (ret, (q, eq)) (skip_ws eq).

Definition peek (toks : list Z) : P bool := λ s,
  let s := skip_ws s in
  Ret (match s with c :: _ => in_ toks c | [] => false end) s.

(** ** Parsing *)

Definition O_WRONLY : Z := 1.

Fixpoint parseredirs (fuel : nat) (c : cmd word) : P (cmd word) :=
  match fuel with
  | O => fault
  | S f =>
      b ← peek (chars "<>");
      if (b : bool) then
        t ← gettoken; w ← gettoken;
        if negb (fst w =? 97) then panic "missing file for redirection" else
        parseredirs f
          (if fst t =? 60 then REDIR c (snd w) O_RDONLY 0
           else if fst t =? 62 then REDIR c (snd w) (Z.lor O_WRONLY O_CREATE) 1
           else if fst t =? 43 then REDIR c (snd w) (Z.lor O_WRONLY O_CREATE) 1
           else c)
      else mret c
  end.

(** [parseexec] stores arguments through [cmd], which the redirections in
    [ret] enclose. *)
Fixpoint add_arg {W} (w : W) (ret : cmd W) : cmd W :=
  match ret with
  | EXEC argv => EXEC (argv ++ [w])
  | REDIR c file mode fd => REDIR (add_arg w c) file mode fd
  | _ => ret
  end.

Fixpoint parseargs (fuel : nat) (ret : cmd word) (argc : nat) : P (cmd word) :=
  match fuel with
  | O => fault
  | S f =>
      b ← peek (chars "|)&;");
      if (b : bool) then mret ret else
      t ← gettoken;
      if fst t =? 0 then mret ret
      else if negb (fst t =? 97) then panic "syntax"
      else
        let ret := add_arg (snd t) ret in
        if (MAXARGS <=? S argc)%nat then panic "too many args" else
        ret ← parseredirs f ret; parseargs f ret (S argc)
  end.

(** The loop over ['&'] in [parseline]. *)
Fixpoint parsebacks (fuel : nat) (c : cmd word) : P (cmd word) :=
  match fuel with
  | O => fault
  | S f =>
      b ← peek (chars "&");
      if (b : bool) then gettoken ;; parsebacks f (BACK c) else mret c
  end.

Fixpoint parseline (fuel : nat) : P (cmd word) :=
  match fuel with
  | O => fault
  | S f =>
      c ← parsepipe f; c ← parsebacks f c;
      b ← peek (chars ";");
      if (b : bool) then gettoken ;; r ← parseline f; mret (LIST c r) else mret c
  end
with parsepipe (fuel : nat) : P (cmd word) :=
  match fuel with
  | O => fault
  | S f =>
      c ← parseexec f;
      b ← peek (chars "|");
      if (b : bool) then gettoken ;; r ← parsepipe f; mret (PIPE c r) else mret c
  end
with parseexec (fuel : nat) : P (cmd word) :=
  match fuel with
  | O => fault
  | S f =>
      b ← peek (chars "(");
      if (b : bool) then parseblock f else
      ret ← parseredirs f (EXEC []); parseargs f ret 0
  end
with parseblock (fuel : nat) : P (cmd word) :=
  match fuel with
  | O => fault
  | S f =>
      b ← peek (chars "(");
      if negb b then panic "parseblock" else
      gettoken ;;
      c ← parseline f;
      b ← peek (chars ")");
      if negb b then panic "syntax - missing )" else
      gettoken ;;
      parseredirs f c
  end.

(** [parsecmd] up to the test for leftovers, which are the final position. *)
Definition parse (line : list Z) : outcome (list Z) (cmd word) :=
  (c ← parseline (4 * length line + 4); peek [] ;; mret c) line.

(** ** [nulterminate] *)

(** Where the ends of words are, as offsets from the end of the line. *)
Fixpoint ends (c : cmd word) : list nat :=
  match c with
  | EXEC argv => (λ w : word, length (snd w)) <$> argv
  | REDIR c file _ _ => ends c ++ [length (snd file)]
  | PIPE l r | LIST l r => ends l ++ ends r
  | BACK c => ends c
  end.
(** The line and its terminator after zeros were stored at the ends. *)
Definition nulterminate (line : list Z) (c : cmd word) : list Z :=
  foldl (λ buf e, <[(length line - e)%nat := 0]> buf) (line ++ [0]) (ends c).
(** The C string at a word in that buffer. *)
Definition cword (line buf : list Z) (w : word) : list Z :=
  Str.cstr (drop (length line - length (fst w)) buf).

(** ** Running *)

Section Sh.
Context {St : Type} `{!Sys St}.

Definition sh_panic {A} (s : list Z) : M St A :=
  printf 2 (chars "%s" ++ [10]) [AStr (Some s)] ;; exit.
Definition fork1 : M St Z :=
  pid ← u_fork 500; if pid =? -1 then sh_panic (chars "fork") else mret pid.

(** [runcmd], [str] giving the string at a word; it does not return. *)
Fixpoint runcmd (str : word → list Z) (c : cmd word) : M St unit :=
  match c with
  | EXEC [] => exit
  | EXEC (w :: ws) =>
      u_exec (str w) (str <$> w :: ws) ;;
      printf 2 (chars "exec %s failed" ++ [10]) [AStr (Some (str w))] ;; exit
  | REDIR c file mode fd =>
      u_close fd ;;
      r ← u_open (str file) mode;
      if r <? 0 then printf 2 (chars "open %s failed" ++ [10]) [AStr (Some (str file))] ;; exit
      else runcmd str c ;; exit
  | LIST l r =>
      pid ← fork1;
      when (pid =? 0) (runcmd str l) ;;
      u_wait ;; runcmd str r ;; exit
  | PIPE l r =>
      '(e, p) ← u_pipe;
      if e <? 0 then sh_panic (chars "pipe") else
      pid ← fork1;
      when (pid =? 0) (u_close 1 ;; u_dup (snd p) ;; u_close (fst p) ;; u_close (snd p) ;; runcmd str l) ;;
      pid ← fork1;
      when (pid =? 0) (u_close 0 ;; u_dup (fst p) ;; u_close (fst p) ;; u_close (snd p) ;; runcmd str r) ;;
      u_close (fst p) ;; u_close (snd p) ;; u_wait ;; u_wait ;; exit
  | BACK c =>
      pid ← fork1;
      when (pid =? 0) (runcmd str c) ;; exit
  end.

(** [getcmd]: the line, or [None] at the end of the input. *)
Definition getcmd (nbuf : Z) : M St (option (list Z)) :=
  printf 2 (chars "$ ") [] ;;
  s ← User.gets nbuf;
  let s := Str.cstr (s ++ [0]) in
  mret (if bool_decide (s = []) then None else Some s).

(** [parsecmd]; an error ends the process. *)
Definition parsecmd (line : list Z) : M St (cmd word) :=
  match parse line with
  | Ret c [] => mret c
  | Ret c s => printf 2 (chars "leftovers: %s" ++ [10]) [AStr (Some s)] ;; sh_panic (chars "syntax")
  | Panic msg => sh_panic (chars msg)
  | _ => fault
  end.
Definition run_line (line : list Z) : M St unit :=
  c ← parsecmd line; runcmd (cword line (nulterminate line c)) c.

(** The first loop of [main], which makes sure that three file descriptors are
    open; every turn opens one more. *)
Fixpoint open_console (fuel : nat) : M St unit :=
  match fuel with
  | O => fault
  | S f =>
      fd ← u_open (chars "console") O_RDWR;
      if fd <? 0 then mret ()
      else if 3 <=? fd then u_close fd ;; mret ()
      else open_console f
  end.

(** The second loop of [main]. *)
Fixpoint sh_main (fuel : nat) : M St unit :=
  match fuel with
  | O => fault
  | S f =>
      o ← getcmd 100;
      match o with
      | None => exit
      | Some buf =>
          if bool_decide (take 3 buf = chars "cd ") then
            let dir := drop 3 (take (length buf - 1) buf) in
            r ← u_chdir dir;
            when (r <? 0) (printf 2 (chars "cannot cd %s" ++ [10]) [AStr (Some dir)]) ;;
            sh_main f
          else
            pid ← fork1;
            when (pid =? 0) (run_line buf) ;;
            u_wait ;; sh_main f
      end
  end.

Definition main (fuel : nat) : M St unit := open_console fuel ;; sh_main fuel.

End Sh.
