(* ===== verification/ShFacts.v ===== *)
(** * The shell's parser (sh.c)

    It always ends, with a well-formed command or a message; the strings it
    leaves in the line are the words it saw; and it reads back every command
    line it can represent. *)
From S2P Require Import Prelude CString Console User Sh.

(** ** Runs that may end in a message *)

Definition wpp {A} (m : P A) (Q : A → list Z → Prop) (s : list Z) : Prop :=
  match m s with Ret a s' => Q a s' | Panic _ => True | _ => False end.

Lemma wpp_bind {A B} (m : P A) (k : A → P B) Q s :
  wpp m (λ a s', wpp (k a) Q s') s → wpp (m ≫= k) Q s.
Proof. unfold wpp, mbind, M_bind. by destruct (m s). Qed.

Lemma wpp_mono {A} (m : P A) (Q Q' : A → list Z → Prop) s :
  wpp m Q s → (∀ a s', Q a s' → Q' a s') → wpp m Q' s.
Proof. unfold wpp. destruct (m s); auto. Qed.

(** ** Words and commands *)

Definition wordc (c : Z) : Prop := c ∉ whitespace ∧ c ∉ symbols.

Record good_word (line : list Z) (w : word) : Prop := {
  gw_text : ∃ x, fst w = x ++ snd w ∧ x ≠ [] ∧ Forall wordc x;
  gw_end : ∀ c s, snd w = c :: s → ¬ wordc c;
  gw_in : fst w `suffix_of` line }.

Fixpoint good (line : list Z) (c : cmd word) : Prop :=
  match c with
  | EXEC argv => Forall (good_word line) argv ∧ (length argv < MAXARGS)%nat
  | REDIR c file _ _ => good line c ∧ good_word line file
  | PIPE l r | LIST l r => good line l ∧ good line r
  | BACK c => good line c
  end.

(** ** Tokens *)

Lemma in_spec l c : in_ l c = true ↔ c ∈ l.
Proof. apply bool_decide_eq_true. Qed.

Lemma skip_ws_suffix s : skip_ws s `suffix_of` s.
Proof.
  induction s as [|c s IH]; [done|]. cbn [skip_ws]. destruct (in_ _ c); [by apply suffix_cons_r|done].
Qed.

Lemma skip_ws_head s c t : skip_ws s = c :: t → c ∉ whitespace.
Proof.
  induction s as [|d s IH]; [done|]. cbn [skip_ws]. destruct (in_ _ d) eqn:E; [done|].
  intros [= -> ->] H. apply in_spec in H. congruence.
Qed.

Lemma skip_word_spec s : ∃ x, s = x ++ skip_word s ∧ Forall wordc x ∧
  (∀ c t, skip_word s = c :: t → ¬ wordc c).
Proof.
  induction s as [|c s IH]; [by exists []|]. cbn [skip_word].
  destruct (in_ whitespace c) eqn:E1; [|destruct (in_ symbols c) eqn:E2]; cbn [negb andb].
  - exists []. split_and!; [done|done|]. intros ? ? [= -> ->] [H _]. apply in_spec in E1. done.
  - exists []. split_and!; [done|done|]. intros ? ? [= -> ->] [_ H]. apply in_spec in E2. done.
  - destruct IH as (x & Ex & Hx & Hs). exists (c :: x). split_and!; [cbn [app]; by f_equal| |done].
    constructor; [|done]. split; intros H%in_spec; congruence.
Qed.

Lemma symbol_or_word c : c ∉ whitespace → in_ (chars "|();&<") c = false → (c =? 62) = false → wordc c.
Proof.
  intros H1 H2 H3. split; [done|]. intros H. unfold in_ in H2. apply bool_decide_eq_false in H2.
  apply Z.eqb_neq in H3. vm_compute in H. vm_compute in H2. set_solver.
Qed.

(** What a token is; it moves on unless the line is at its end. *)
Lemma gettoken_spec line s : s `suffix_of` line →
  wpp gettoken (λ t s', s' `suffix_of` s ∧ (skip_ws s ≠ [] → (length s' < length s)%nat) ∧
    (fst t = 97 → good_word line (snd t))) s.
Proof.
  intros Hs. unfold wpp, gettoken. pose proof (skip_ws_suffix s) as Hq.
  assert (Hstep : ∀ c t eq, skip_ws s = c :: t → eq `suffix_of` t →
    skip_ws eq `suffix_of` s ∧ (skip_ws s ≠ [] → (length (skip_ws eq) < length s)%nat)).
  { intros c t eq E Heq. rewrite E in Hq. pose proof (skip_ws_suffix eq) as He.
    split; [etrans; [exact He|]; etrans; [exact Heq|]; etrans; [|exact Hq]; by apply suffix_cons_r|].
    intros _. apply suffix_length in Hq, He, Heq. simpl in Hq. lia. }
  destruct (skip_ws s) as [|c t] eqn:E.
  { split_and!; [apply suffix_nil|done|done]. }
  specialize (Hstep c t). destruct (in_ (chars "|();&<") c) eqn:E1.
  { destruct (Hstep t eq_refl) as [H1 H2]; [done|]. split_and!; [done|done|]. simpl. intros ->. vm_compute in E1. done. }
  destruct (c =? 62) eqn:E2.
  { destruct t as [|d t'].
    - destruct (Hstep [] eq_refl) as [H1 H2]; [done|]. split_and!; [done|done|]. simpl. intros ->. done.
    - destruct (d =? 62).
      + destruct (Hstep t' eq_refl) as [H1 H2]; [by apply suffix_cons_r|]. by split_and!.
      + destruct (Hstep (d :: t') eq_refl) as [H1 H2]; [done|]. split_and!; [done|done|]. simpl. intros ->. done. }
  assert (Hw : wordc c) by (apply symbol_or_word; [by eapply skip_ws_head|done|done]).
  destruct (skip_word_spec (c :: t)) as (x & Ex & Hx & He).
  destruct x as [|x0 x].
  { exfalso. cbn [app] in Ex. by apply (He c t). }
  assert (Hsuf : skip_word (c :: t) `suffix_of` t) by (injection Ex as -> Et; by exists x).
  destruct (Hstep _ eq_refl Hsuf) as [H1 H2]. split_and!; [done|done|]. intros _.
  constructor; [by exists (x0 :: x)|done|]. simpl. by etrans.
Qed.

Lemma peek_spec toks s (Q : bool → list Z → Prop) :
  (∀ s', s' `suffix_of` s → s' = skip_ws s →
    Q (match s' with c :: _ => in_ toks c | [] => false end) s') → wpp (peek toks) Q s.
Proof. intros H. unfold wpp, peek. apply H; [apply skip_ws_suffix|done]. Qed.

(** ** Parsing ends *)

Lemma suf_trans (a b c : list Z) : a `suffix_of` b → b `suffix_of` c → a `suffix_of` c.
Proof. apply transitivity. Qed.
Ltac sfx := solve [eauto 6 using suf_trans].

(** From [s], a run that ends well leaves a suffix of [s] and what [good] says. *)
Definition parses (line : list Z) (m : P (cmd word)) (s : list Z) : Prop :=
  wpp m (λ c s', s' `suffix_of` s ∧ good line c) s.

(** An [EXEC] inside redirections, with its number of arguments. *)
Fixpoint simple_args (c : cmd word) : option nat :=
  match c with
  | EXEC argv => Some (length argv)
  | REDIR c _ _ _ => simple_args c
  | _ => None
  end.

Lemma add_arg_good line w c n : good line c → good_word line w → simple_args c = Some n →
  (S n < MAXARGS)%nat → good line (add_arg w c) ∧ simple_args (add_arg w c) = Some (S n).
Proof.
  intros Hc Hw. induction c as [argv|c IH file mode fd| | |]; try done; simpl in *.
  - intros [= <-] Hn. rewrite length_app. simpl. split_and!; [|lia|f_equal; lia].
    apply Forall_app. split; [apply Hc|by apply list.Forall_singleton].
  - intros Hs Hn. destruct Hc as [Hc Hf]. by destruct (IH Hc Hs Hn).
Qed.

Section Ends.
Context (line : list Z).

Lemma wpp_peek_if {A} toks (a b : P A) Q s : s `suffix_of` line →
  (∀ s', s' `suffix_of` s → skip_ws s' ≠ [] → wpp a Q s') →
  (∀ s', s' `suffix_of` s → wpp b Q s') →
  wpp (x ← peek toks; if (x : bool) then a else b) Q s.
Proof.
  intros Hs Ha Hb. apply wpp_bind, peek_spec. intros s' Hs' E.
  assert (Ei : skip_ws s' = s').
  { rewrite E. clear. induction s as [|c s IH]; [done|]. cbn [skip_ws]. destruct (in_ _ c) eqn:Ec; [done|].
    cbn [skip_ws]. by rewrite Ec. }
  destruct s' as [|c t]; [by apply Hb|]. destruct (in_ toks c); [|by apply Hb].
  apply Ha; [done|]. by rewrite Ei.
Qed.

Lemma wpp_expect {A} toks msg (a : P A) Q s : s `suffix_of` line →
  (∀ s', s' `suffix_of` s → skip_ws s' ≠ [] → wpp a Q s') →
  wpp (x ← peek toks; if negb x then panic msg else a) Q s.
Proof.
  intros Hs Ha. pose proof (wpp_peek_if toks a (panic msg) Q s Hs Ha (λ _ _, I)) as H.
  unfold wpp, mbind, M_bind in *. destruct (peek toks s) as [[]| | |]; exact H.
Qed.

Lemma wpp_token {B} (k : Z * word → P B) Q s : s `suffix_of` line →
  (∀ t s', s' `suffix_of` s → (skip_ws s ≠ [] → (length s' < length s)%nat) →
     (fst t = 97 → good_word line (snd t)) → wpp (k t) Q s') →
  wpp (gettoken ≫= k) Q s.
Proof.
  intros Hs H. apply wpp_bind. eapply wpp_mono; [by apply (gettoken_spec line)|].
  intros t s' (? & ? & ?). by apply H.
Qed.

Lemma parseredirs_ends fuel : ∀ c s, s `suffix_of` line → (length s < fuel)%nat → good line c →
  wpp (parseredirs fuel c) (λ c' s', s' `suffix_of` s ∧ good line c' ∧ simple_args c' = simple_args c) s.
Proof.
  induction fuel as [|f IH]; intros c s Hs Hf Hc; [lia|]. cbn [parseredirs].
  apply wpp_peek_if; [done| |by intros s' Hs'].
  intros s1 Hs1 Hne. assert (Hs1l : s1 `suffix_of` line) by sfx.
  apply wpp_token; [done|]. intros t s2 Hs2 Hlt _. specialize (Hlt Hne).
  assert (Hs2l : s2 `suffix_of` line) by sfx.
  apply wpp_token; [done|]. intros w s3 Hs3 _ Hw. destruct (fst w =? 97) eqn:Ew; cbn [negb]; [|done].
  apply Z.eqb_eq in Ew. pose proof (suffix_length _ _ Hs1). pose proof (suffix_length _ _ Hs3).
  eapply wpp_mono.
  - apply IH; [sfx|lia|]. repeat case_match; simpl; auto.
  - intros c' s' (H1 & H2 & H3). split_and!; [|done|].
    + sfx.
    + rewrite H3. by repeat case_match.
Qed.

Lemma parseargs_ends fuel : ∀ c n s, s `suffix_of` line → (length s < fuel)%nat → good line c →
  simple_args c = Some n → parses line (parseargs fuel c n) s.
Proof.
  induction fuel as [|f IH]; intros c n s Hs Hf Hc Hn; [lia|]. cbn [parseargs].
  apply wpp_peek_if; [done|by intros s' Hs'|]. intros s1 Hs1. assert (Hs1l : s1 `suffix_of` line) by sfx.
  apply wpp_bind. pose proof (gettoken_spec line s1 Hs1l) as Ht.
  destruct (decide (skip_ws s1 = [])) as [E|E].
  { unfold wpp, gettoken. rewrite E. cbn. split; [apply suffix_nil|done]. }
  eapply wpp_mono; [exact Ht|]. intros t s2 (Hs2 & Hlt & Hw). specialize (Hlt E).
  destruct (fst t =? 0); [split; [sfx|done]|].
  destruct (fst t =? 97) eqn:E97; cbn [negb]; [|done]. apply Z.eqb_eq in E97.
  destruct (Nat.leb_spec MAXARGS (S n)) as [|Hlim]; [done|].
  destruct (add_arg_good line (snd t) c n) as [Hc' Hn']; auto.
  pose proof (suffix_length _ _ Hs1). apply wpp_bind. eapply wpp_mono.
  - apply parseredirs_ends; [sfx|lia|exact Hc'].
  - intros c' s3 (Hs3 & Hg & Ha). pose proof (suffix_length _ _ Hs3).
    assert (Hs3s : s3 `suffix_of` s) by sfx.
    eapply wpp_mono; [apply IH; [sfx|lia|done|by rewrite Ha]|].
    intros c'' s' [H1 H2]. split; [sfx|done].
Qed.

Lemma parsebacks_ends fuel : ∀ c s, s `suffix_of` line → (length s < fuel)%nat → good line c →
  parses line (parsebacks fuel c) s.
Proof.
  induction fuel as [|f IH]; intros c s Hs Hf Hc; [lia|]. cbn [parsebacks].
  apply wpp_peek_if; [done| |by intros s' Hs'].
  intros s1 Hs1 Hne. assert (Hs1l : s1 `suffix_of` line) by sfx.
  apply wpp_token; [done|]. intros t s2 Hs2 Hlt _. specialize (Hlt Hne). pose proof (suffix_length _ _ Hs1).
  eapply wpp_mono; [apply IH; [sfx|lia|done]|]. intros c' s' [H1 H2].
  split; [sfx|done].
Qed.

(** A separator and the rest after a command that is good. *)
Lemma then_rest toks (m : P (cmd word)) (k : cmd word → cmd word) c s s0 : s `suffix_of` line →
  s `suffix_of` s0 → good line c → (∀ r, good line r → good line (k r)) →
  (∀ s', s' `suffix_of` line → (length s' < length s)%nat → parses line m s') →
  wpp (b ← peek toks; if (b : bool) then gettoken ;; r ← m; mret (k r) else mret c)
    (λ c s', s' `suffix_of` s0 ∧ good line c) s.
Proof.
  intros Hs Hs0 Hc Hk Hm. apply wpp_peek_if; [done| |intros s' Hs'; split; [sfx|done]].
  intros s1 Hs1 Hne. assert (Hs1l : s1 `suffix_of` line) by sfx.
  apply wpp_token; [done|]. intros t s2 Hs2 Hlt _. specialize (Hlt Hne). pose proof (suffix_length _ _ Hs1).
  apply wpp_bind. eapply wpp_mono; [apply Hm; [sfx|lia]|]. intros r s' [H1 H2]. split; [|by apply Hk].
  sfx.
Qed.

Lemma parse_ends fuel : ∀ s, s `suffix_of` line →
  ((4 * length s + 4 ≤ fuel)%nat → parses line (parseline fuel) s) ∧
  ((4 * length s + 3 ≤ fuel)%nat → parses line (parsepipe fuel) s) ∧
  ((4 * length s + 2 ≤ fuel)%nat → parses line (parseexec fuel) s) ∧
  ((4 * length s + 1 ≤ fuel)%nat → parses line (parseblock fuel) s).
Proof.
  induction fuel as [|f IH]; intros s Hs; [split_and!; lia|].
  assert (Hle : ∀ s', s' `suffix_of` s → s' `suffix_of` line ∧ (length s' ≤ length s)%nat).
  { intros s' H. split; [sfx|by apply suffix_length]. }
  split_and!; intros Hf; cbn [parseline parsepipe parseexec parseblock].
  - apply wpp_bind. eapply wpp_mono; [apply (IH s Hs); lia|]. intros c s1 [H1 Hc].
    destruct (Hle s1 H1) as [H1l ?]. apply wpp_bind. eapply wpp_mono; [apply parsebacks_ends; [done|lia|done]|].
    intros c2 s2 [H2 Hc2]. assert (H2s : s2 `suffix_of` s) by sfx. destruct (Hle s2 H2s).
    apply (then_rest _ (parseline f) (LIST c2)); [done|done|done|done|].
    intros s' Hs' Hlt. apply (IH s' Hs'). lia.
  - apply wpp_bind. eapply wpp_mono; [apply (IH s Hs); lia|]. intros c s1 [H1 Hc].
    destruct (Hle s1 H1) as [H1l ?]. apply (then_rest _ (parsepipe f) (PIPE c)); [done|done|done|done|].
    intros s' Hs' Hlt. apply (IH s' Hs'). lia.
  - apply wpp_peek_if; [done| |].
    + intros s1 H1 _. destruct (Hle s1 H1) as [H1l ?]. eapply wpp_mono; [apply (IH s1 H1l); lia|].
      intros c s' [? ?]. split; [sfx|done].
    + intros s1 H1. destruct (Hle s1 H1) as [H1l ?]. apply wpp_bind.
      eapply wpp_mono; [apply parseredirs_ends; [done|lia|]|].
      { split; [constructor|unfold MAXARGS; simpl; lia]. }
      intros c s2 (H2 & Hc & Ha). destruct (Hle s2) as [H2l ?]; [sfx|].
      eapply wpp_mono; [apply parseargs_ends; [done|lia|done|by rewrite Ha]|].
      intros c' s' [? ?]. split; [sfx|done].
  - apply wpp_expect; [done|]. intros s1 Hs1 Hne. destruct (Hle s1 Hs1) as [Hs1l ?].
    apply wpp_token; [done|]. intros t s2 Hs2 Hlt _. specialize (Hlt Hne). destruct (Hle s2) as [Hs2l ?]; [sfx|].
    apply wpp_bind. eapply wpp_mono; [apply (IH s2 Hs2l); lia|]. intros c s3 [Hs3 Hc].
    destruct (Hle s3) as [Hs3l ?]; [sfx|]. apply wpp_expect; [done|]. intros s4 Hs4 _.
    destruct (Hle s4) as [Hs4l ?]; [sfx|]. apply wpp_token; [done|]. intros t' s5 Hs5 _ _.
    destruct (Hle s5) as [Hs5l ?]; [sfx|]. pose proof (suffix_length _ _ Hs2). pose proof (suffix_length _ _ Hs3).
    pose proof (suffix_length _ _ Hs4). pose proof (suffix_length _ _ Hs5).
    eapply wpp_mono; [apply parseredirs_ends; [done|lia|done]|]. intros c' s' (? & ? & _). split; [sfx|done].
Qed.

End Ends.

(** ** The strings left in the line *)

Definition text (w : word) : list Z := take (length (fst w) - length (snd w)) (fst w).
Fixpoint words (c : cmd word) : list word :=
  match c with
  | EXEC argv => argv
  | REDIR c file _ _ => words c ++ [file]
  | PIPE l r | LIST l r => words l ++ words r
  | BACK c => words c
  end.

Lemma good_words line c : good line c → Forall (good_word line) (words c).
Proof.
  induction c; simpl; intros H; try (apply Forall_app); naive_solver eauto using list.Forall_singleton.
Qed.
Lemma ends_words c : ends c = (λ w : word, length (snd w)) <$> words c.
Proof.
  induction c as [|c IH|l IHl r IHr|l IHl r IHr|c IH]; simpl; rewrite ?fmap_app, ?IH, ?IHl, ?IHr; done.
Qed.

(** Zeros stored at some places. *)
Lemma zeros_lookup es n (buf : list Z) i : 
  foldl (λ buf e, <[(n - e)%nat := 0]> buf) buf es !! i =
  if decide (i ∈ (λ e, n - e)%nat <$> es) then (λ _, 0) <$> buf !! i else buf !! i.
Proof.
  revert buf. induction es as [|e es IH]; intros buf; [done|]. cbn [foldl]. rewrite IH.
  cbn [fmap list_fmap]. destruct (decide (i = (n - e)%nat)) as [->|Hne].
  - rewrite (decide_True (P := _ ∈ (n - e)%nat :: _)) by set_solver.
    destruct (buf !! (n - e)%nat) eqn:E.
    + rewrite list_lookup_insert_eq by by eapply lookup_lt_Some. by case_decide.
    + rewrite list_insert_ge, E by by apply lookup_ge_None. by case_decide.
  - rewrite list_lookup_insert_ne by done. repeat case_decide; set_solver.
Qed.

Lemma drop_suffix (s line : list Z) : s `suffix_of` line → drop (length line - length s) line = s.
Proof. intros [p ->]. rewrite length_app. replace (length p + length s - length s)%nat with (length p) by lia. apply drop_app_length. Qed.

Lemma prefix_by_lookup {A} (l x : list A) a : (∀ i, (i < length x)%nat → l !! i = x !! i) →
  l !! length x = Some a → l = x ++ a :: drop (S (length x)) l.
Proof.
  intros Hx Ha. rewrite <-(take_drop_middle l (length x) a) at 1 by done. f_equal.
  pose proof (lookup_lt_Some _ _ _ Ha). apply list_eq. intros i. destruct (decide (i < length x)%nat).
  - rewrite lookup_take_lt by done. auto.
  - rewrite !lookup_ge_None_2; [done|lia|]. rewrite length_take. lia.
Qed.

(** A word's characters are not at the end of any word. *)
Lemma no_end_inside line pre x e w i : line = pre ++ x ++ e → Forall wordc x → (i < length x)%nat →
  good_word line w → (length line - length (snd w))%nat ≠ (length pre + i)%nat.
Proof.
  intros El Hx Hi [(y & Ey & _ & _) Hend Hin] E.
  assert (Hs : snd w `suffix_of` line) by (etrans; [|exact Hin]; by exists y).
  apply drop_suffix in Hs. rewrite E, El in Hs.
  rewrite <-drop_drop, drop_app_length, drop_app_le in Hs by lia.
  destruct (drop i x) as [|c t] eqn:Ed.
  - pose proof (f_equal length Ed) as HL. rewrite length_drop in HL. simpl in HL. lia.
  - apply (Hend c (t ++ e)); [done|].
    assert (Hc : x !! i = Some c) by (rewrite <-(Nat.add_0_r i), <-lookup_drop, Ed; done).
    rewrite list.Forall_forall in Hx. apply Hx. by eapply list_elem_of_lookup_2.
Qed.

(** No zero falls inside a word, and one falls at its end. *)
Lemma cword_text line c w : 0 ∉ line → good line c → w ∈ words c →
  cword line (nulterminate line c) w = text w.
Proof.
  intros H0 Hc Hw. pose proof (good_words _ _ Hc) as Hg. rewrite list.Forall_forall in Hg.
  destruct (Hg w Hw) as [(x & Ex & Hx & Hwc) _ [pre Epre]].
  assert (Epre' : line = pre ++ x ++ snd w) by by rewrite <-Ex.
  assert (Htext : text w = x).
  { unfold text. rewrite Ex, length_app. replace (length x + length (snd w) - length (snd w))%nat with (length x) by lia.
    apply take_app_length. }
  rewrite Htext. unfold cword. set (buf := nulterminate line c).
  replace (length line - length (fst w))%nat with (length pre) by (rewrite Epre, length_app; lia).
  assert (Hbuf : ∀ i, drop (length pre) buf !! i =
    if decide ((length pre + i)%nat ∈ (λ e, length line - e)%nat <$> ends c)
    then (λ _, 0) <$> (x ++ snd w ++ [0]) !! i else (x ++ snd w ++ [0]) !! i).
  { intros i. rewrite lookup_drop. unfold buf, nulterminate. rewrite zeros_lookup.
    replace (line ++ [0]) with (pre ++ x ++ snd w ++ [0]) by (rewrite Epre'; by rewrite <-!app_assoc).
    rewrite !(lookup_app_r pre) by lia. replace (length pre + i - length pre)%nat with i by lia. done. }
  rewrite (prefix_by_lookup (drop (length pre) buf) x 0).
  - apply StrFacts.cstr_stop. intros Hin. apply H0. rewrite Epre'. set_solver.
  - intros i Hi. rewrite Hbuf, lookup_app_l by done. rewrite decide_False; [done|].
    rewrite ends_words. intros (e & Ee & (w' & -> & Hw')%list_elem_of_fmap)%list_elem_of_fmap.
    by eapply (no_end_inside line pre x (snd w) w' i); auto.
  - rewrite Hbuf, decide_True.
    + rewrite lookup_app_r, Nat.sub_diag by lia. destruct (snd w); done.
    + apply list_elem_of_fmap. exists (length (snd w)). split.
      * rewrite Epre', !length_app. lia.
      * rewrite ends_words. by apply (list_elem_of_fmap_2 (λ w, length (snd w))).
Qed.

(** C26. Parsing ends, whatever is typed: with a message, or at some position of
    the line with a command whose words are words of the line and which has less
    than ten arguments in each simple command; and once [nulterminate] has
    stored its zeros, the C string at each of those words is the word. *)
Theorem sh_parse_ends line :
  match parse line with
  | Ret c s => s `suffix_of` line ∧ good line c ∧
      (0 ∉ line → Forall (λ w, cword line (nulterminate line c) w = text w) (words c))
  | Panic _ => True
  | _ => False
  end.
Proof.
  assert (H : wpp (c ← parseline (4 * length line + 4); peek [] ;; mret c)
    (λ c s, s `suffix_of` line ∧ good line c) line).
  { apply wpp_bind. destruct (parse_ends line (4 * length line + 4) line) as [H _]; [done|].
    eapply wpp_mono; [apply H; lia|]. intros c s [Hs Hc]. apply wpp_bind, peek_spec.
    intros s' Hs' _. split; [sfx|done]. }
  unfold wpp in H. fold (parse line) in H. destruct (parse line) as [c s| | |]; try done.
  destruct H as [Hs Hc]. split_and!; [done..|]. intros H0. apply list.Forall_forall. intros w Hw.
  by apply (cword_text line c).
Qed.

(** On [ls >f]. *)
Lemma sh_parse_ends_witness : ∃ c s, parse (chars "ls >f") = Ret c s ∧
  Forall (λ w, cword (chars "ls >f") (nulterminate (chars "ls >f") c) w = text w) (words c).
Proof.
  pose proof (sh_parse_ends (chars "ls >f")) as H. destruct (parse (chars "ls >f")) as [c s| | |] eqn:E.
  - exists c, s. split; [reflexivity|]. apply H. vm_compute. set_solver.
  - vm_compute in E. discriminate E.
  - destruct H.
  - destruct H.
Defined.
