(* ===== verification/ShRoundtrip.v ===== *)
(** * Command lines printed and read back (sh.c)

    The command lines of the grammar [parseline] implements, how they are
    written, and the commands they stand for. *)
From S2P Require Import Prelude CString Console Sysfile User Sh ShFacts.

(** ** The grammar *)

Inductive redir := RIn (f : list Z) | ROut (f : list Z) | RApp (f : list Z).

(** Commands separated by [;], each with a number of [&]; pipelines; blocks and
    simple commands, whose redirections stand before and after arguments. *)
Inductive aline := LEnd (p : apipe) (backs : nat) | LSeq (p : apipe) (backs : nat) (l : aline)
with apipe := PEnd (e : aexec) | PThen (e : aexec) (p : apipe)
with aexec := ABlock (l : aline) (rs : list redir)
  | ASimple (rs : list redir) (args : list (list Z * list redir)).

Scheme aline_mut := Induction for aline Sort Prop
with apipe_mut := Induction for apipe Sort Prop
with aexec_mut := Induction for aexec Sort Prop.
Combined Scheme line_mutind from aline_mut, apipe_mut, aexec_mut.

(** ** Writing *)

Definition w_word (w : list Z) : list Z := w ++ [32].
Definition w_redir (r : redir) : list Z :=
  match r with
  | RIn f => 60 :: w_word f
  | ROut f => 62 :: w_word f
  | RApp f => 62 :: 62 :: w_word f
  end.
Definition w_redirs (rs : list redir) : list Z := concat (w_redir <$> rs).
Definition w_args (args : list (list Z * list redir)) : list Z :=
  concat ((λ a : list Z * list redir, w_word (fst a) ++ w_redirs (snd a)) <$> args).

Fixpoint w_line (l : aline) : list Z :=
  match l with
  | LEnd p n => w_pipe p ++ replicate n 38
  | LSeq p n l => w_pipe p ++ replicate n 38 ++ 59 :: w_line l
  end
with w_pipe (p : apipe) : list Z :=
  match p with
  | PEnd e => w_exec e
  | PThen e p => w_exec e ++ 124 :: w_pipe p
  end
with w_exec (e : aexec) : list Z :=
  match e with
  | ABlock l rs => 40 :: w_line l ++ 41 :: w_redirs rs
  | ASimple rs args => w_redirs rs ++ w_args args
  end.

(** ** Meaning *)

Definition m_redir (c : cmd (list Z)) (r : redir) : cmd (list Z) :=
  match r with
  | RIn f => REDIR c f O_RDONLY 0
  | ROut f | RApp f => REDIR c f (Z.lor O_WRONLY O_CREATE) 1
  end.
Fixpoint m_line (l : aline) : cmd (list Z) :=
  match l with
  | LEnd p n => Nat.iter n BACK (m_pipe p)
  | LSeq p n l => LIST (Nat.iter n BACK (m_pipe p)) (m_line l)
  end
with m_pipe (p : apipe) : cmd (list Z) :=
  match p with
  | PEnd e => m_exec e
  | PThen e p => PIPE (m_exec e) (m_pipe p)
  end
with m_exec (e : aexec) : cmd (list Z) :=
  match e with
  | ABlock l rs => foldl m_redir (m_line l) rs
  | ASimple rs args => foldl m_redir (EXEC (fst <$> args)) (rs ++ concat (snd <$> args))
  end.

(** A command with the words instead of their places. *)
Fixpoint texts (c : cmd word) : cmd (list Z) :=
  match c with
  | EXEC argv => EXEC (text <$> argv)
  | REDIR c file mode fd => REDIR (texts c) (text file) mode fd
  | PIPE l r => PIPE (texts l) (texts r)
  | LIST l r => LIST (texts l) (texts r)
  | BACK c => BACK (texts c)
  end.

(** ** What can be written *)

Definition okw (w : list Z) : Prop := w ≠ [] ∧ Forall wordc w.
Definition okr (r : redir) : Prop := match r with RIn f | ROut f | RApp f => okw f end.
Fixpoint okl (l : aline) : Prop :=
  match l with LEnd p _ => okp p | LSeq p _ l => okp p ∧ okl l end
with okp (p : apipe) : Prop :=
  match p with PEnd e => oke e | PThen e p => oke e ∧ okp p end
with oke (e : aexec) : Prop :=
  match e with
  | ABlock l rs => okl l ∧ Forall okr rs
  | ASimple rs args => Forall okr rs ∧ (length args < MAXARGS)%nat ∧
      Forall (λ a : list Z * list redir, okw (fst a) ∧ Forall okr (snd a)) args
  end.

(** ** Tokens of written lines *)

(** Where [s] may start, or may not. *)
Definition starts (cs : list Z) (s : list Z) : Prop := ∀ c t, s = c :: t → c ∈ cs.
Definition avoids (cs : list Z) (s : list Z) : Prop := ∀ c t, s = c :: t → c ∉ cs.
Abbreviation nows := (avoids whitespace).

Lemma starts_avoids cs toks s : starts cs s → (∀ c, c ∈ cs → c ∉ toks) → avoids toks s.
Proof. intros H Hd c t E. eapply Hd, H, E. Qed.
Lemma avoids_cons toks c s : c ∉ toks → avoids toks (c :: s).
Proof. intros H ? ? [= <- _]. done. Qed.

Lemma nows_skip s : nows s → skip_ws s = s.
Proof.
  intros H. destruct s as [|c s]; [done|]. cbn [skip_ws].
  unfold in_. rewrite bool_decide_eq_false_2; [done|]. by eapply H.
Qed.

Lemma peek_run toks s : nows s → peek toks s = Ret (match s with c :: _ => in_ toks c | [] => false end) s.
Proof. intros H. unfold peek. by rewrite nows_skip. Qed.

Lemma peek_yes toks c s : c ∉ whitespace → c ∈ toks → peek toks (c :: s) = Ret true (c :: s).
Proof. intros Hc H. rewrite peek_run by by apply avoids_cons. by rewrite (proj2 (in_spec toks c)). Qed.

Lemma peek_no toks s : nows s → avoids toks s → peek toks s = Ret false s.
Proof.
  intros Hs Hd. rewrite peek_run by done. destruct s as [|c s]; [done|].
  unfold in_. rewrite bool_decide_eq_false_2; [done|]. by eapply Hd.
Qed.

(** Closed membership of a character in a set of characters. *)
Ltac chars_dec := first
  [apply (bool_decide_unpack _); vm_compute; exact I
  |apply list.Forall_forall; apply (bool_decide_unpack _); vm_compute; exact I].

(** One-character tokens. *)
Lemma gettoken_sym c s : c ∈ chars "|();&<" → nows s →
  gettoken (c :: s) = Ret (c, (c :: s, s)) s.
Proof.
  intros Hc Hs. unfold gettoken. assert (Hn : nows (c :: s)).
  { intros ? ? [= -> ->]. vm_compute in Hc. unfold whitespace. set_solver. }
  rewrite (nows_skip (c :: s)) by done. cbv beta iota zeta. rewrite (proj2 (in_spec _ c)) by done.
  by rewrite nows_skip.
Qed.

Lemma skip_word_written w s : Forall wordc w → skip_word (w ++ 32 :: s) = 32 :: s.
Proof.
  intros Hw. induction w as [|c w IH]; [done|]. inversion_clear Hw as [|? ? [H1 H2] Hw'].
  cbn [app skip_word]. unfold in_. rewrite !bool_decide_eq_false_2 by done. by apply IH.
Qed.

(** A written word. *)
Lemma gettoken_word w s : okw w → nows s → gettoken (w_word w ++ s) = Ret (97, (w_word w ++ s, 32 :: s)) s.
Proof.
  intros [Hne Hw] Hs. unfold w_word. rewrite <-app_assoc. cbn [app]. destruct w as [|c w]; [done|].
  pose proof Hw as Hw0. inversion_clear Hw0 as [|? ? [H1 H2] Hw'].
  unfold gettoken. rewrite (nows_skip ((c :: w) ++ 32 :: s)) by (by intros ? ? [= <- _]).
  cbn [app]. cbv beta iota zeta. unfold in_ at 1. rewrite bool_decide_eq_false_2.
  2:{ intros Hin. apply H2. vm_compute in Hin. vm_compute. set_solver. }
  rewrite (proj2 (Z.eqb_neq c 62)).
  2:{ intros ->. apply H2. vm_compute. set_solver. }
  change (c :: w ++ 32 :: s) with ((c :: w) ++ 32 :: s). rewrite skip_word_written by done.
  do 2 f_equal. cbn [skip_ws]. unfold in_. rewrite bool_decide_eq_true_2 by (unfold whitespace; set_solver).
  by apply nows_skip.
Qed.

Lemma text_word w s : text (w_word w ++ s, 32 :: s) = w.
Proof.
  unfold text, w_word. simpl. rewrite <-app_assoc, length_app. simpl.
  replace (length w + S (length s) - S (length s))%nat with (length w) by lia. apply take_app_length.
Qed.

Lemma avoids_word (toks : list Z) w s : okw w → (∀ c, wordc c → c ∉ toks) → avoids toks (w_word w ++ s).
Proof.
  intros [Hne Hw] Ht c t E. destruct w as [|d w]; [done|]. injection E as -> _. apply Ht.
  by inversion Hw.
Qed.
Lemma wordc_nows c : wordc c → c ∉ whitespace.
Proof. by intros []. Qed.
Lemma wordc_sym (toks : list Z) c : (∀ d, d ∈ toks → d ∈ symbols) → wordc c → c ∉ toks.
Proof. intros H [_ Hc] Hin. auto. Qed.

Lemma avoids_redirs toks rs s : 60 ∉ toks → 62 ∉ toks → avoids toks s → avoids toks (w_redirs rs ++ s).
Proof. intros H1 H2 Hs. destruct rs as [|[] rs]; [done|..]; by apply avoids_cons. Qed.
Lemma avoids_args toks args s : (∀ c, wordc c → c ∉ toks) →
  Forall (λ a : list Z * list redir, okw (fst a) ∧ Forall okr (snd a)) args → avoids toks s →
  avoids toks (w_args args ++ s).
Proof.
  intros Ht Ha Hs. destruct args as [|a args]; [done|]. inversion_clear Ha as [|? ? [Hw _] _].
  unfold w_args. cbn [fmap list_fmap concat]. rewrite <-!app_assoc. by apply avoids_word.
Qed.

(** ** Redirections *)

Lemma gettoken_gt s : avoids [62] s → nows s → gettoken (62 :: s) = Ret (62, (62 :: s, s)) s.
Proof.
  intros Hs Hw. unfold gettoken. rewrite (nows_skip (62 :: s)) by (apply avoids_cons; chars_dec).
  cbv beta iota zeta. unfold in_. rewrite bool_decide_eq_false_2 by chars_dec.
  change (62 =? 62) with true. cbv iota. destruct s as [|d s]; [done|].
  rewrite (proj2 (Z.eqb_neq d 62)); [by rewrite nows_skip|].
  intros ->. by apply (Hs 62 s); [|left].
Qed.
Lemma gettoken_gtgt s : nows s → gettoken (62 :: 62 :: s) = Ret (43, (62 :: 62 :: s, s)) s.
Proof.
  intros Hw. unfold gettoken. rewrite (nows_skip (62 :: 62 :: s)) by (apply avoids_cons; chars_dec).
  cbv beta iota zeta. unfold in_. rewrite bool_decide_eq_false_2 by chars_dec.
  change (62 =? 62) with true. cbv iota. by rewrite nows_skip.
Qed.

(** One written redirection. *)
Lemma redir_run f c r s : okr r → nows s → ∃ c',
  parseredirs (S f) c (w_redir r ++ s) = parseredirs f c' s ∧ texts c' = m_redir (texts c) r ∧
  simple_args c' = simple_args c.
Proof.
  intros Hr Hs. cbn [parseredirs].
  assert (Hw : ∀ w, okw w → nows (w_word w ++ s)) by (intros; apply avoids_word; auto using wordc_nows).
  destruct r as [w|w|w]; cbn [okr w_redir app] in *.
  - exists (REDIR c (w_word w ++ s, 32 :: s) O_RDONLY 0). cbn [texts m_redir]. rewrite text_word. split_and!; [|done|done].
    erewrite bind_eq by (apply peek_yes; chars_dec). cbv iota beta.
    erewrite bind_eq by (apply gettoken_sym; [chars_dec|auto]).
    by erewrite bind_eq by by apply gettoken_word.
  - exists (REDIR c (w_word w ++ s, 32 :: s) (Z.lor O_WRONLY O_CREATE) 1). cbn [texts m_redir]. rewrite text_word.
    split_and!; [|done|done]. erewrite bind_eq by (apply peek_yes; chars_dec). cbv iota beta.
    erewrite bind_eq.
    2:{ apply gettoken_gt; [|auto]. apply avoids_word; [done|]. intros d. apply wordc_sym. chars_dec. }
    by erewrite bind_eq by by apply gettoken_word.
  - exists (REDIR c (w_word w ++ s, 32 :: s) (Z.lor O_WRONLY O_CREATE) 1). cbn [texts m_redir]. rewrite text_word.
    split_and!; [|done|done]. erewrite bind_eq by (apply peek_yes; chars_dec). cbv iota beta.
    erewrite bind_eq by (apply gettoken_gtgt; auto).
    by erewrite bind_eq by by apply gettoken_word.
Qed.

Lemma redirs_run rs : ∀ f c s, Forall okr rs → (length rs < f)%nat → nows s → avoids (chars "<>") s →
  ∃ c', parseredirs f c (w_redirs rs ++ s) = Ret c' s ∧ texts c' = foldl m_redir (texts c) rs ∧
    simple_args c' = simple_args c.
Proof.
  induction rs as [|r rs IH]; intros [|f] c s Hr Hf Hn Ha; try (simpl in Hf; lia).
  - exists c. split_and!; [|done|done]. cbn [parseredirs w_redirs fmap list_fmap concat app].
    by erewrite bind_eq by by apply peek_no.
  - inversion_clear Hr as [|? ? Hr1 Hr2]. unfold w_redirs. cbn [fmap list_fmap concat]. rewrite <-app_assoc.
    destruct (redir_run f c r (w_redirs rs ++ s)) as (c1 & E1 & T1 & S1); [done| |].
    { apply avoids_redirs; [chars_dec|chars_dec|done]. }
    destruct (IH f c1 s) as (c2 & E2 & T2 & S2); [done|simpl in Hf; lia|done|done|].
    exists c2. split_and!; [etrans; [exact E1|exact E2]|by rewrite T2, T1|congruence].
Qed.

(** ** Arguments *)

Lemma texts_add_arg w c : texts (add_arg w c) = add_arg (text w) (texts c).
Proof. induction c as [argv|c IH file mode fd| | |]; simpl; [by rewrite fmap_app|by rewrite IH|done..]. Qed.

Lemma simple_add_arg w c n : simple_args c = Some n → simple_args (add_arg w c) = Some (S n).
Proof.
  induction c as [argv|c IH file mode fd| | |]; simpl; try done.
  intros [= <-]. by rewrite length_app, Nat.add_1_r.
Qed.

Definition m_arg (c : cmd (list Z)) (a : list Z * list redir) : cmd (list Z) :=
  foldl m_redir (add_arg (fst a) c) (snd a).

Lemma add_arg_redirs w rs : ∀ c, add_arg w (foldl m_redir c rs) = foldl m_redir (add_arg w c) rs.
Proof. induction rs as [|[] rs IH]; intros c; [done|..]; simpl; by rewrite IH. Qed.

(** Where redirections stand among the arguments makes no difference. *)
Lemma m_args args : ∀ argv rs, foldl m_arg (foldl m_redir (EXEC argv) rs) args =
  foldl m_redir (EXEC (argv ++ (fst <$> args))) (rs ++ concat (snd <$> args)).
Proof.
  induction args as [|a args IH]; intros argv rs; cbn [foldl fmap list_fmap concat].
  - by rewrite !app_nil_r.
  - unfold m_arg at 2. rewrite add_arg_redirs. cbn [add_arg]. rewrite <-foldl_app, IH.
    by rewrite <-!app_assoc.
Qed.

Lemma length_redirs rs : (length rs ≤ length (w_redirs rs))%nat.
Proof.
  induction rs as [|r rs IH]; [done|]. unfold w_redirs in *. cbn [fmap list_fmap concat length].
  rewrite length_app. destruct r; simpl; lia.
Qed.

Lemma follow_args : ∀ c, c ∈ chars "|&;)" → c ∈ chars "|)&;".
Proof. chars_dec. Qed.

Lemma args_run args : ∀ f c n s,
  Forall (λ a : list Z * list redir, okw (fst a) ∧ Forall okr (snd a)) args →
  simple_args c = Some n → (n + length args < MAXARGS)%nat → (length (w_args args) < f)%nat →
  nows s → starts (chars "|&;)") s →
  ∃ c', parseargs f c n (w_args args ++ s) = Ret c' s ∧ texts c' = foldl m_arg (texts c) args.
Proof.
  induction args as [|a args IH]; intros [|f] c n s Ha Hn Hlim Hf Hs Hst; try lia; cbn [parseargs].
  - exists c. split; [|done]. cbn [w_args fmap list_fmap concat app]. destruct s as [|d s].
    + erewrite bind_eq by by apply peek_no. cbv iota. by erewrite bind_eq by done.
    + assert (Hd : d ∈ chars "|)&;") by by eapply follow_args, Hst.
      by erewrite bind_eq by (apply peek_yes; [by eapply Hs|done]).
  - inversion_clear Ha as [|? ? [Hw Hr] Ha']. unfold w_args in *. cbn [fmap list_fmap concat] in *.
    rewrite <-!app_assoc. fold (w_args args) in *. rewrite !length_app in Hf. pose proof (length_redirs (snd a)).
    cbn [length] in Hlim.
    assert (1 ≤ length (w_word (fst a)))%nat by (unfold w_word; rewrite length_app; simpl; lia).
    assert (Hns : nows (w_args args ++ s)) by (apply avoids_args; auto using wordc_nows).
    assert (Hnr : nows (w_redirs (snd a) ++ w_args args ++ s)) by (apply avoids_redirs; [chars_dec..|done]).
    erewrite bind_eq.
    2:{ apply peek_no; [apply avoids_word; auto using wordc_nows|]. apply avoids_word; [done|].
        intros d. apply wordc_sym. chars_dec. }
    cbv iota. erewrite bind_eq by by apply gettoken_word. cbn [fst snd].
    change (97 =? 0) with false. change (negb (97 =? 97)) with false. cbv iota zeta.
    destruct (Nat.leb_spec MAXARGS (S n)) as [|_]; [lia|].
    destruct (redirs_run (snd a) f (add_arg (w_word (fst a) ++ w_redirs (snd a) ++ w_args args ++ s,
      32 :: w_redirs (snd a) ++ w_args args ++ s) c) (w_args args ++ s)) as (c1 & E1 & T1 & S1); [done|lia|done| |].
    { apply avoids_args; [intros d; apply wordc_sym; chars_dec|done|]. eapply starts_avoids; [done|chars_dec]. }
    destruct (IH f c1 (S n) s) as (c2 & E2 & T2); [done| |lia|lia|done|done|].
    { rewrite S1. by apply simple_add_arg. }
    exists c2. split; [etrans; [apply (bind_eq _ _ _ _ _ E1)|exact E2]|].
    by rewrite T2, T1, texts_add_arg, text_word.
Qed.

(** ** Lines *)

Lemma avoids_amps toks n s : 38 ∉ toks → avoids toks s → avoids toks (replicate n 38 ++ s).
Proof. intros H Hs. destruct n; [done|]. by apply avoids_cons. Qed.

Lemma texts_backs n c : texts (Nat.iter n BACK c) = Nat.iter n BACK (texts c).
Proof. induction n; simpl; congruence. Qed.

Lemma backs_run n : ∀ f c s, (n < f)%nat → nows s → avoids (chars "&") s →
  parsebacks f c (replicate n 38 ++ s) = Ret (Nat.iter n BACK c) s.
Proof.
  induction n as [|n IH]; intros [|f] c s Hf Hs Ha; try lia; cbn [parsebacks replicate app].
  - by erewrite bind_eq by by apply peek_no.
  - erewrite bind_eq by (apply peek_yes; chars_dec). cbv iota.
    erewrite bind_eq by (apply gettoken_sym; [chars_dec|by apply avoids_amps; [chars_dec|]]).
    rewrite IH by (done || lia). f_equal. by rewrite Nat.iter_swap.
Qed.

Lemma nows_exec e s : oke e → nows s → nows (w_exec e ++ s).
Proof.
  intros He Hs. destruct e as [l rs|rs args]; cbn [w_exec oke app] in *; [apply avoids_cons; chars_dec|].
  destruct He as (_ & _ & Ha). rewrite <-app_assoc.
  apply avoids_redirs; [chars_dec..|]. apply avoids_args; auto using wordc_nows.
Qed.
Lemma nows_pipe p s : okp p → nows s → nows (w_pipe p ++ s).
Proof.
  intros Hp Hs. destruct p as [e|e p]; cbn [w_pipe okp] in *; [by apply nows_exec|].
  rewrite <-app_assoc. apply nows_exec; [apply Hp|]. apply avoids_cons. chars_dec.
Qed.
Lemma nows_line l s : okl l → nows s → nows (w_line l ++ s).
Proof.
  intros Hl Hs. destruct l as [p n|p n l]; cbn [w_line okl] in *; rewrite <-!app_assoc; apply nows_pipe;
    try apply Hl; apply avoids_amps; try chars_dec; [done|]. apply avoids_cons. chars_dec.
Qed.

(** A command that was written is read back, up to what may follow it. *)
Definition back (m : nat → P (cmd word)) (k : nat) (w : list Z) (follow : list Z) (c : cmd (list Z)) : Prop :=
  ∀ f s, (4 * length w + k ≤ f)%nat → nows s → starts follow s →
  ∃ c', m f (w ++ s) = Ret c' s ∧ texts c' = c.

Lemma exec_block l rs : okl l → Forall okr rs →
  back parseline 4 (w_line l) (chars ")") (m_line l) →
  back parseexec 2 (w_exec (ABlock l rs)) (chars "|&;)") (m_exec (ABlock l rs)).
Proof.
  intros Hl Hr IH f s Hf Hs Hst. cbn [w_exec m_exec] in *.
  assert (HL : length (40 :: w_line l ++ 41 :: w_redirs rs) = (2 + length (w_line l) + length (w_redirs rs))%nat).
  { cbn [length]. rewrite length_app. cbn [length]. lia. }
  destruct f as [|[|f]]; try lia. cbn [app]. rewrite <-app_assoc. cbn [app].
  assert (Hn : nows (41 :: w_redirs rs ++ s)) by (apply avoids_cons; chars_dec).
  pose proof (length_redirs rs).
  destruct (IH f (41 :: w_redirs rs ++ s)) as (c & E & T); [lia|done|intros ? ? [= <- _]; chars_dec|].
  destruct (redirs_run rs f c s) as (c' & E' & T' & _);
    [done|lia|done|eapply starts_avoids; [done|chars_dec]|].
  exists c'. split; [|by rewrite T', T]. cbn [parseexec].
  erewrite bind_eq by (apply peek_yes; chars_dec). cbv iota. cbn [parseblock].
  erewrite bind_eq by (apply peek_yes; chars_dec). cbv iota beta. cbn [negb].
  erewrite bind_eq by (apply gettoken_sym; [chars_dec|by apply nows_line]).
  erewrite bind_eq by exact E.
  erewrite bind_eq by (apply peek_yes; chars_dec). cbn [negb].
  erewrite bind_eq by (apply gettoken_sym; [chars_dec|by apply avoids_redirs; [chars_dec..|]]). done.
Qed.

Lemma exec_simple rs args : oke (ASimple rs args) →
  back parseexec 2 (w_exec (ASimple rs args)) (chars "|&;)") (m_exec (ASimple rs args)).
Proof.
  intros (Hr & Hlim & Ha) f s Hf Hs Hst. cbn [w_exec m_exec] in *. rewrite length_app in Hf.
  destruct f as [|f]; [lia|]. rewrite <-app_assoc. pose proof (length_redirs rs).
  assert (Hna : nows (w_args args ++ s)) by (apply avoids_args; auto using wordc_nows).
  destruct (redirs_run rs f (EXEC []) (w_args args ++ s)) as (c & E & T & S0); [done|lia|done| |].
  { apply avoids_args; [intros d; apply wordc_sym; chars_dec|done|]. eapply starts_avoids; [done|chars_dec]. }
  destruct (args_run args f c 0 s) as (c' & E' & T'); [done|by rewrite S0|lia|lia|done|done|].
  exists c'. split; [|by rewrite T', T; apply (m_args args [])]. cbn [parseexec].
  erewrite bind_eq.
  2:{ apply peek_no; [by apply avoids_redirs; [chars_dec..|]|]. apply avoids_redirs; [chars_dec..|].
      apply avoids_args; [intros d; apply wordc_sym; chars_dec|done|]. eapply starts_avoids; [done|chars_dec]. }
  cbv iota. by erewrite bind_eq by exact E.
Qed.

Lemma read_back :
  (∀ l, okl l → back parseline 4 (w_line l) (chars ")") (m_line l)) ∧
  (∀ p, okp p → back parsepipe 3 (w_pipe p) (chars "&;)") (m_pipe p)) ∧
  (∀ e, oke e → back parseexec 2 (w_exec e) (chars "|&;)") (m_exec e)).
Proof.
  apply line_mutind.
  - intros p IHp n Hp f s Hf Hs Hst. cbn [w_line m_line okl] in *. rewrite length_app, length_replicate in Hf.
    destruct f as [|f]; [lia|]. rewrite <-app_assoc.
    destruct (IHp Hp f (replicate n 38 ++ s)) as (c & E & T); [lia|by apply avoids_amps; [chars_dec|]| |].
    { intros d t Hd. destruct n; [|injection Hd as <- _; chars_dec]. apply Hst in Hd.
      revert d Hd. clear. chars_dec. }
    exists (Nat.iter n BACK c). split; [|by rewrite texts_backs, T]. cbn [parseline].
    erewrite bind_eq by exact E.
    erewrite bind_eq by (apply backs_run; [lia|done|eapply starts_avoids; [done|chars_dec]]).
    erewrite bind_eq by (apply peek_no; [done|eapply starts_avoids; [done|chars_dec]]). done.
  - intros p IHp n l IHl [Hp Hl] f s Hf Hs Hst. cbn [w_line m_line] in *.
    rewrite !length_app, length_replicate in Hf. cbn [length] in Hf.
    destruct f as [|f]; [lia|]. rewrite <-!app_assoc. cbn [app].
    assert (Hn : nows (59 :: w_line l ++ s)) by (apply avoids_cons; chars_dec).
    destruct (IHp Hp f (replicate n 38 ++ 59 :: w_line l ++ s)) as (c & E & T);
      [lia|by apply avoids_amps; [chars_dec|]|destruct n; intros ? ? [= <- _]; chars_dec|].
    destruct (IHl Hl f s) as (r & Er & Tr); [lia|done|done|].
    exists (LIST (Nat.iter n BACK c) r). split; [|cbn [texts]; by rewrite texts_backs, T, Tr]. cbn [parseline].
    erewrite bind_eq by exact E.
    erewrite bind_eq by (apply backs_run; [lia|done|apply avoids_cons; chars_dec]).
    erewrite bind_eq by (apply peek_yes; chars_dec). cbv iota.
    erewrite bind_eq by (apply gettoken_sym; [chars_dec|by apply nows_line]).
    by erewrite bind_eq by exact Er.
  - intros e IHe He f s Hf Hs Hst. cbn [w_pipe m_pipe okp] in *. destruct f as [|f]; [lia|].
    destruct (IHe He f s) as (c & E & T); [lia|done| |].
    { intros d t Hd. apply Hst in Hd. revert d Hd. clear. chars_dec. }
    exists c. split; [|done]. cbn [parsepipe]. erewrite bind_eq by exact E.
    erewrite bind_eq by (apply peek_no; [done|eapply starts_avoids; [done|chars_dec]]). done.
  - intros e IHe p IHp [He Hp] f s Hf Hs Hst. cbn [w_pipe m_pipe] in *. rewrite length_app in Hf. cbn [length] in Hf.
    destruct f as [|f]; [lia|]. rewrite <-app_assoc. cbn [app].
    destruct (IHe He f (124 :: w_pipe p ++ s)) as (c & E & T);
      [lia|apply avoids_cons; chars_dec|intros ? ? [= <- _]; chars_dec|].
    destruct (IHp Hp f s) as (r & Er & Tr); [lia|done|done|].
    exists (PIPE c r). split; [|cbn [texts]; by rewrite T, Tr]. cbn [parsepipe].
    erewrite bind_eq by exact E. erewrite bind_eq by (apply peek_yes; chars_dec). cbv iota.
    erewrite bind_eq by (apply gettoken_sym; [chars_dec|by apply nows_pipe]).
    by erewrite bind_eq by exact Er.
  - intros l IHl rs [Hl Hr]. by apply exec_block; [| |apply IHl].
  - intros rs args He. by apply exec_simple.
Qed.

(** C25. Every command line the grammar has is read back from how it is written:
    [parse] consumes it all and gives the command it stands for, with blocks,
    pipelines, lists, background commands and redirections nested as written
    and wherever redirections stand among the arguments. *)
Theorem sh_parse_roundtrip l : okl l →
  ∃ c, parse (w_line l) = Ret c [] ∧ texts c = m_line l.
Proof.
  intros Hl. destruct read_back as [H _].
  destruct (H l Hl (4 * length (w_line l) + 4)%nat []) as (c & E & T); [done|done|done|].
  rewrite app_nil_r in E. exists c. split; [|done]. unfold parse.
  erewrite bind_eq by exact E. by erewrite bind_eq by by apply peek_run.
Qed.

(** [(ls | wc >f )&;echo] *)
Definition ex_line : aline :=
  LSeq (PEnd (ABlock (LEnd (PThen (ASimple [] [(chars "ls", [])]) (PEnd (ASimple [] [(chars "wc", [ROut (chars "f")])]))) 0) []))
    1 (LEnd (PEnd (ASimple [] [(chars "echo", [])])) 0).

Lemma sh_parse_roundtrip_witness : ∃ c, parse (chars "(ls |wc >f )&;echo ") = Ret c [] ∧
  texts c = LIST (BACK (PIPE (EXEC [chars "ls"]) (REDIR (EXEC [chars "wc"]) (chars "f") 0x201 1))) (EXEC [chars "echo"]).
Proof.
  destruct (sh_parse_roundtrip ex_line) as (c & E & T).
  - assert (Hw : ∀ w, w ≠ [] → bool_decide (Forall wordc w) = true → okw w).
    { intros w Hne H. split; [exact Hne|]. exact (proj1 (bool_decide_eq_true _) H). }
    unfold ex_line, MAXARGS. cbn [okl okp oke fst snd length].
    repeat match goal with
    | |- _ ∧ _ => split
    | |- okw _ => apply Hw; [discriminate|vm_compute; reflexivity]
    | |- okr _ => apply Hw; [discriminate|vm_compute; reflexivity]
    | |- Forall _ [] => apply List.Forall_nil
    | |- Forall _ (_ :: _) => apply List.Forall_cons; cbn [fst snd]
    | |- (_ < _)%nat => unfold MAXARGS; lia
    end.
  - exists c. split; [exact E|exact T].
Defined.
