(* ===== verification/Frame.v ===== *)
(** * What code leaves alone

    [leaves π m]: wherever [m] stops, in a return or asleep, the part [π] of the
    state is as it was.  The lemmas are for the code below fs.c: the process
    operations leave everything but [core], bio.c also changes the cache, log.c
    the log. *)
From S2P Require Import Prelude Spinlock Core Bio Log.

Definition leaves {S A X} (π : S → X) (m : M S A) : Prop :=
  ∀ s, match m s with Ret _ s' | Block s' => π s' = π s | _ => True end.

Section Rules.
Context {S X : Type} (π : S → X).

Lemma leaves_ret {A} (a : A) : leaves π (mret a).
Proof. by intros s. Qed.
Lemma leaves_bind {A B} (m : M S A) (k : A → M S B) :
  leaves π m → (∀ a, leaves π (k a)) → leaves π (m ≫= k).
Proof.
  intros Hm Hk s. unfold mbind, M_bind. specialize (Hm s). destruct (m s) as [a s'| | |]; try done.
  specialize (Hk a s'). destruct (k a s'); congruence.
Qed.
Lemma leaves_panic {A} msg : leaves π (panic (A := A) msg).
Proof. by intros s. Qed.
Lemma leaves_fault {A} : leaves π (fault (A := A)).
Proof. by intros s. Qed.
Lemma leaves_block {A} : leaves π (block (A := A)).
Proof. by intros s. Qed.
Lemma leaves_gets {A} (f : S → A) : leaves π (gets f).
Proof. by intros s. Qed.
Lemma leaves_modify f : (∀ s, π (f s) = π s) → leaves π (modify f).
Proof. intros H s. apply H. Qed.
Lemma leaves_deref {A} (o : option A) : leaves π (deref o).
Proof. by destruct o. Qed.
Lemma leaves_when b m : leaves π m → leaves π (when b m).
Proof. by destruct b. Qed.
Lemma leaves_for_each {A} (l : list A) body :
  (∀ a, leaves π (body a)) → leaves π (for_each l body).
Proof. intros H. induction l; simpl; [apply leaves_ret|]. by apply leaves_bind. Qed.
Lemma leaves_less {A Y} (f : X → Y) (m : M S A) : leaves π m → leaves (λ s, f (π s)) m.
Proof. intros H s. specialize (H s). destruct (m s); congruence. Qed.
Lemma leaves_Ret {A} (m : M S A) s a s' : leaves π m → m s = Ret a s' → π s' = π s.
Proof. intros H E. specialize (H s). by rewrite E in H. Qed.

End Rules.

Create HintDb frame.
#[export] Hint Resolve leaves_ret leaves_panic leaves_fault leaves_block leaves_gets
  leaves_deref : frame.

(** Through the code, command by command. *)
Ltac leaves_step :=
  match goal with
  | |- leaves _ (_ ≫= _) => apply leaves_bind; [|intros ?]
  | |- leaves _ (when _ _) => apply leaves_when
  | |- leaves _ (for_each _ _) => apply leaves_for_each; intros ?
  | |- leaves _ (if ?b then _ else _) => destruct b
  | |- leaves _ (match ?x with _ => _ end) => destruct x
  | |- leaves _ (let _ := _ in _) => cbv zeta
  | |- leaves _ _ => solve [auto 2 with frame]
  end.
Ltac leaves_run := repeat leaves_step.

(** ** The process operations *)

Section CoreFrame.
Context {T : Type}.
Abbreviation K := (core * T)%type.

Lemma leaves_acquire l : leaves (snd : K → T) (acquire l).
Proof. intros s. rewrite acquire_run. by case_decide. Qed.
Lemma leaves_release l : leaves (snd : K → T) (release l).
Proof. intros s. rewrite release_run. by case_decide. Qed.
Lemma leaves_getc {A} (f : core → A) : leaves (snd : K → T) (getc f).
Proof. by intros s. Qed.
Lemma leaves_modc f : leaves (snd : K → T) (modc f).
Proof. by intros s. Qed.
Lemma leaves_myproc : leaves (snd : K → T) myproc.
Proof. unfold myproc. apply leaves_bind; [apply leaves_getc|auto with frame]. Qed.
Lemma leaves_getp {A} i (f : proc → A) : leaves (snd : K → T) (getp i f).
Proof. unfold getp. apply leaves_bind; [apply leaves_getc|]. intros. leaves_run. Qed.
Lemma leaves_setp i f : leaves (snd : K → T) (setp i f).
Proof. apply leaves_modc. Qed.
Lemma leaves_wakeup ch : leaves (snd : K → T) (wakeup ch).
Proof.
  unfold wakeup. apply leaves_bind; [apply leaves_acquire|]. intros.
  apply leaves_bind; [apply leaves_modc|]. intros. apply leaves_release.
Qed.
Lemma leaves_sched : leaves (snd : K → T) sched.
Proof.
  intros s. assert (H : wlp sched (λ _ _, True) (λ s', snd s' = snd s) s) by by apply wlp_sched.
  unfold wlp in H. destruct (sched s) eqn:E; try done. by destruct (never_sched s a s0).
Qed.
Lemma leaves_sleep ch lk : leaves (snd : K → T) (sleep ch lk).
Proof.
  unfold sleep. apply leaves_bind; [apply leaves_getc|]. intros [i|]; [|auto with frame].
  apply leaves_bind.
  { case_decide; [auto with frame|]. apply leaves_bind; [apply leaves_acquire|]. intros. apply leaves_release. }
  intros. apply leaves_bind; [apply leaves_setp|]. intros.
  apply leaves_bind; [apply leaves_setp|]. intros. apply leaves_sched.
Qed.
Lemma leaves_sleep_resume lk : leaves (snd : K → T) (sleep_resume lk).
Proof.
  unfold sleep_resume. apply leaves_bind; [apply leaves_myproc|]. intros.
  apply leaves_bind; [apply leaves_setp|]. intros. case_decide; [auto with frame|].
  apply leaves_bind; [apply leaves_release|]. intros. apply leaves_acquire.
Qed.

End CoreFrame.
#[export] Hint Resolve leaves_acquire leaves_release leaves_getc leaves_modc leaves_myproc
  leaves_getp leaves_setp leaves_wakeup leaves_sleep leaves_sleep_resume : frame.

(** ** bio.c *)

Section BioFrame.
Context {T : Type}.
Abbreviation K := (core * (bio * T))%type.
Definition past_bio (s : K) : T := snd (snd s).

Lemma past_bio_core {A} (m : M K A) : leaves snd m → leaves past_bio m.
Proof. apply (leaves_less snd snd). Qed.
Hint Extern 1 (leaves past_bio _) => apply past_bio_core; solve [auto 2 with frame] : frame.

Lemma leaves_getβ {A} (f : bio → A) : leaves past_bio (getβ f).
Proof. by intros s. Qed.
Lemma leaves_modβ f : leaves past_bio (modβ f).
Proof. by intros s. Qed.
Lemma leaves_getb {A} b (f : buf → A) : leaves past_bio (getb b f).
Proof. unfold getb. apply leaves_bind; [apply leaves_getβ|]. intros. leaves_run. Qed.
Lemma leaves_setb b f : leaves past_bio (setb b f).
Proof. apply leaves_modβ. Qed.
Hint Resolve leaves_getβ leaves_modβ leaves_getb leaves_setb : frame.

Lemma leaves_iderw b : leaves past_bio (iderw b).
Proof. unfold iderw. leaves_run. Qed.
Hint Resolve leaves_iderw : frame.
Lemma leaves_bget_loop dev sec : leaves past_bio (bget_loop dev sec).
Proof. unfold bget_loop. leaves_run. Qed.
Hint Resolve leaves_bget_loop : frame.
Lemma leaves_bread dev sec : leaves past_bio (bread dev sec).
Proof. unfold bread, bget. leaves_run. Qed.
Lemma leaves_bwrite b : leaves past_bio (bwrite b).
Proof. unfold bwrite. leaves_run. Qed.
Lemma leaves_brelse b : leaves past_bio (brelse b).
Proof. unfold brelse. leaves_run. Qed.

End BioFrame.
#[export] Hint Resolve leaves_getβ leaves_modβ leaves_getb leaves_setb leaves_bread leaves_bwrite leaves_brelse : frame.

(** ** log.c *)

Section LogFrame.
Context {T : Type}.
Abbreviation K := (core * (bio * (logst * T)))%type.
Definition past_log (s : K) : T := snd (snd (snd s)).

Lemma past_log_bio {A} (m : M K A) : leaves past_bio m → leaves past_log m.
Proof. apply (leaves_less past_bio snd). Qed.
Lemma past_log_core {A} (m : M K A) : leaves snd m → leaves past_log m.
Proof. apply (leaves_less snd (λ t, snd (snd t))). Qed.
Hint Extern 1 (leaves past_log _) => apply past_log_core; solve [auto 2 with frame] : frame.
Hint Extern 2 (leaves past_log _) => apply past_log_bio; solve [auto 2 with frame] : frame.

Lemma leaves_getg {A} (f : logst → A) : leaves past_log (getg f).
Proof. by intros s. Qed.
Lemma leaves_setg f : leaves past_log (setg f).
Proof. by intros s. Qed.
Hint Resolve leaves_getg leaves_setg : frame.
Lemma leaves_log_write b : leaves past_log (log_write b).
Proof. unfold log_write. leaves_run. Qed.
Lemma leaves_readsb dev : leaves past_log (readsb dev).
Proof. unfold readsb. leaves_run. Qed.

End LogFrame.
#[export] Hint Resolve leaves_log_write leaves_readsb : frame.
#[export] Hint Extern 1 (leaves past_bio _) => apply past_bio_core; solve [auto 2 with frame] : frame.
#[export] Hint Extern 1 (leaves past_log _) => apply past_log_core; solve [auto 2 with frame] : frame.
#[export] Hint Extern 2 (leaves past_log _) => apply past_log_bio; solve [auto 2 with frame] : frame.
