(* ===== verification/FsPath.v ===== *)
(** * Path names (fs.c)

    [elems] splits a path the way a reader understands it: at the slashes,
    empty pieces dropped.  [skipelem], applied again and again as [namex] does,
    gives exactly those elements, each cut to [DIRSIZ] bytes. *)
From S2P Require Import Prelude Spinlock Core CString Bio Log Fs.
Import Str.

(** ** The reference *)

Fixpoint split_slash (s : list Z) : list (list Z) :=
  match s with
  | [] => [[]]
  | c :: s' =>
      if c =? 47 then [] :: split_slash s'
      else match split_slash s' with w :: ws => (c :: w) :: ws | [] => [[c]] end
  end.
Definition elems (path : list Z) : list (list Z) :=
  filter (λ w, w ≠ []) (split_slash (cstr path)).

(** ** [namex]'s iteration *)

(** The names that repeated [skipelem] finds, starting with the buffer [name]. *)
Fixpoint path_names (fuel : nat) (path name : list Z) : option (list (list Z)) :=
  match fuel with
  | O => None
  | S f =>
      match skipelem path name with
      | None => Some []
      | Some (path', name') => cons (cstr name') <$> path_names f path' name'
      end
  end.

Lemma split_slash_cons s : ∃ w ws, split_slash s = w :: ws.
Proof. induction s as [|c s (w & ws & E)]; simpl; [eauto|]. rewrite E. case_match; eauto. Qed.

Lemma cstr_slashes s : cstr (skip_slashes s) = skip_slashes (cstr s).
Proof.
  induction s as [|c s IH]; [done|]. simpl. destruct (Z.eqb_spec c 47) as [->|]; simpl.
  - done.
  - destruct (Z.eqb_spec c 0); [done|]. simpl. by rewrite (proj2 (Z.eqb_neq c 47)).
Qed.

Lemma elems_slashes s : elems (skip_slashes s) = elems s.
Proof.
  unfold elems. rewrite cstr_slashes. induction (cstr s) as [|c t IH]; [done|]. simpl.
  destruct (Z.eqb_spec c 47) as [->|Hc]; [|simpl; by rewrite (proj2 (Z.eqb_neq c 47) Hc)]. rewrite IH.
  by rewrite filter_cons_False by (intros H; by apply H).
Qed.

Lemma skip_slashes_length s : (length (skip_slashes s) ≤ length s)%nat.
Proof. induction s; simpl; [done|]. case_match; simpl; lia. Qed.

Lemma terminated_slashes s : terminated s → terminated (skip_slashes s).
Proof.
  unfold terminated. induction s as [|c s IH]; [done|]. simpl. destruct (Z.eqb_spec c 47) as [->|]; [|done].
  rewrite elem_of_cons. intros [|]; [lia|auto].
Qed.

Lemma terminated_drop n s : terminated s → (n ≤ length (cstr s))%nat → terminated (drop n s).
Proof.
  unfold terminated. revert s. induction n as [|n IH]; intros [|c s]; simpl; try done.
  case_match eqn:E; simpl; [lia|]. rewrite elem_of_cons. intros [<-|]; [done|]. intros. apply IH; [done|lia].
Qed.

(** The leading element. *)
Lemma elem_len_spec s :
  take (elem_len s) (cstr s) = take (elem_len s) s ∧ (elem_len s ≤ length (cstr s))%nat ∧
  ∃ ws, split_slash (cstr s) = take (elem_len s) s :: ws ∧
    elems (drop (elem_len s) s) = filter (λ w, w ≠ []) ws.
Proof.
  induction s as [|c s (E & L & ws & S1 & S2)]; [by split_and!; [..|eexists]|]. simpl.
  destruct (Z.eqb_spec c 47) as [->|].
  - simpl. split_and!; [done|lia|]. eexists. split; [done|]. unfold elems. simpl.
    by rewrite filter_cons_False by (intros H; by apply H).
  - destruct (Z.eqb_spec c 0) as [->|]; simpl; [by split_and!; [..|eexists]|].
    rewrite E, S1. rewrite (proj2 (Z.eqb_neq c 47)) by done. simpl. split_and!; [done|lia|]. by exists ws.
Qed.

Lemma elem_len_head s c : head s = Some c → c ≠ 47 → c ≠ 0 → (0 < elem_len s)%nat.
Proof.
  destruct s as [|d s]; simpl; [done|]. intros [= ->] H1 H2.
  rewrite (proj2 (Z.eqb_neq c 47)), (proj2 (Z.eqb_neq c 0)) by done. simpl. lia.
Qed.

Lemma skip_slashes_head s c : head (skip_slashes s) = Some c → c ≠ 47.
Proof. induction s as [|d s IH]; simpl; [done|]. destruct (Z.eqb_spec d 47); [done|]. simpl. congruence. Qed.

(** The name buffer after an element [w]. *)
Lemma name_buffer w name : Forall (λ c, c ≠ 0) w → length name = DIRSIZ →
  let name' := if (DIRSIZ <=? length w)%nat then splice 0 (take DIRSIZ w) name
               else splice 0 (w ++ [0]) name in
  cstr name' = take DIRSIZ w ∧ length name' = DIRSIZ.
Proof.
  intros Hw Hn. cbn zeta.
  assert (Hc : ∀ v rest, Forall (λ c, c ≠ 0) v → cstr (v ++ rest) = v ++ cstr rest).
  { intros v rest. induction 1 as [|c v Hc _ IH]; [done|]. simpl.
    by rewrite (proj2 (Z.eqb_neq c 0)), IH by done. }
  destruct (Nat.leb_spec DIRSIZ (length w)).
  - unfold splice. rewrite length_take_le by done. simpl.
    rewrite (drop_ge name) by lia. rewrite app_nil_r, length_take_le by done. split; [|done].
    rewrite <-(app_nil_r (take DIRSIZ w)) at 1. rewrite Hc by by apply Forall_take. by rewrite app_nil_r.
  - rewrite splice_length by (rewrite length_app; simpl; lia). split; [|done].
    unfold splice. simpl. rewrite <-app_assoc, Hc by done. simpl.
    rewrite app_nil_r. by rewrite take_ge by lia.
Qed.

(** One [skipelem]. *)
Lemma skipelem_elems path name : terminated path → length name = DIRSIZ →
  match elems path with
  | [] => skipelem path name = None
  | w :: ws => ∃ path' name', skipelem path name = Some (path', name') ∧
      elems path' = ws ∧ cstr name' = take DIRSIZ w ∧ length name' = DIRSIZ ∧
      terminated path' ∧ (length path' < length path)%nat ∧
      (head path' = Some 0 ↔ ws = [])
  end.
Proof.
  intros Ht Hn. unfold skipelem. rewrite <-(elems_slashes path).
  pose proof (terminated_slashes path Ht) as Ht'. pose proof (skip_slashes_length path) as Hlen.
  pose proof (skip_slashes_head path) as Hhd.
  set (s := skip_slashes path) in *. clearbody s.
  destruct s as [|c s0] eqn:Es; [done|]. rewrite <-Es in *.
  assert (Hc47 : c ≠ 47) by (apply Hhd; by rewrite Es).
  destruct (Z.eqb_spec c 0) as [->|Hc0].
  { rewrite Es. done. }
  destruct (elem_len_spec s) as (E & L & ws & S1 & S2).
  assert (Hpos : (0 < elem_len s)%nat) by (apply (elem_len_head s c); [by rewrite Es|done|done]).
  set (w := take (elem_len s) s) in *.
  assert (Hwl : length w = elem_len s).
  { rewrite <-E. by apply length_take_le. }
  assert (Hwn : w ≠ []) by (destruct w; simpl in *; [lia|done]).
  assert (Hel : elems s = w :: filter (λ w, w ≠ []) ws).
  { unfold elems. rewrite S1. by rewrite filter_cons_True. }
  rewrite Hel. do 2 eexists. split; [reflexivity|].
  assert (Hw0 : Forall (λ c, c ≠ 0) w) by (rewrite <-E; apply Forall_take, StrFacts.cstr_nonzero).
  assert (Htd : terminated (drop (elem_len s) s)) by (by apply terminated_drop).
  rewrite elems_slashes, S2.
  replace (if (DIRSIZ <=? elem_len s)%nat then splice 0 (take DIRSIZ s) name else splice 0 (w ++ [0]) name)
    with (if (DIRSIZ <=? length w)%nat then splice 0 (take DIRSIZ w) name else splice 0 (w ++ [0]) name).
  2:{ rewrite Hwl. destruct (Nat.leb_spec DIRSIZ (elem_len s)); [|done]. unfold w.
      by rewrite take_take, Nat.min_l. }
  destruct (name_buffer w name Hw0 Hn) as [-> ->]. split_and!; try done.
  - by apply terminated_slashes.
  - pose proof (skip_slashes_length (drop (elem_len s) s)). rewrite length_drop in *.
    destruct s; simpl in *; [done|]. lia.
  - rewrite <-S2, <-elems_slashes.
    pose proof (skip_slashes_head (drop (elem_len s) s)) as Hh.
    pose proof (terminated_slashes _ Htd) as Hts.
    destruct (skip_slashes (drop (elem_len s) s)) as [|d r]; [by apply not_elem_of_nil in Hts|].
    specialize (Hh d eq_refl). unfold elems. simpl. destruct (Z.eqb_spec d 0) as [->|Hd]; simpl.
    + done.
    + split; [congruence|]. rewrite (proj2 (Z.eqb_neq d 47)) by done.
      destruct (split_slash_cons (cstr r)) as (v & vs & ->). by rewrite filter_cons_True.
Qed.

(** [skipelem] refines the reference split: iterated from any terminated
    path, within the fuel the code's loop is given, it yields the elements of
    the path, each cut to [DIRSIZ] bytes, and then stops. *)
Theorem path_names_correct path name :
  terminated path → length name = DIRSIZ →
  path_names (S (length path)) path name = Some (take DIRSIZ <$> elems path).
Proof.
  intros Ht Hn. cut (∀ fuel path name, terminated path → length name = DIRSIZ →
    (length path < fuel)%nat → path_names fuel path name = Some (take DIRSIZ <$> elems path)).
  { intros H. apply H; auto. }
  clear. intros fuel. induction fuel as [|fuel IH]; intros path name Ht Hn Hf; [lia|].
  simpl. pose proof (skipelem_elems path name Ht Hn) as H.
  destruct (elems path) as [|w ws]; [by rewrite H|].
  destruct H as (path' & name' & -> & <- & Hc & Hn' & Ht' & Hl & _).
  rewrite IH by (auto; lia). simpl. by rewrite Hc.
Qed.

(** "/a//bbbbbbbbbbbbbbbbbb/": the second name is cut. *)
Definition ex_path : list Z := [47; 97; 47; 47] ++ replicate 18 98 ++ [47; 0].

Lemma path_names_correct_witness :
  path_names (S (length ex_path)) ex_path (replicate DIRSIZ 1) = Some [[97]; replicate 14 98].
Proof.
  rewrite path_names_correct; [vm_compute; reflexivity|..|reflexivity].
  apply (bool_decide_unpack _). vm_compute. exact I.
Defined.
