(* ===== verification/Tx.v ===== *)
(** * A transaction as fs.c sees it

    [intx] bundles the cache, the log and the disk of an open transaction: [V]
    is what the code reads, [H] the buffers it holds, [ss] the sectors logged so
    far.  The rules are the ways fs.c reads and changes blocks. *)
From S2P Require Import Prelude Spinlock Core Bio BioFacts Cache Log LogFacts.

Section Tx.
Context {Ext : Type} (st sz : Z) (D0 : list (list Z)) (T0 : list (Z * list Z)).
Implicit Types (c : core) (β : bio) (g : logst) (x : Ext) (V : Z → list Z).

Abbreviation hm := (home st sz (length D0)).

Definition intx (H : gmap nat (Z * bool)) V (ss : list Z) c β g : Prop :=
  ∃ D T, cache β D (T0 ++ T) V H (list_to_set ss) ∧ txinv st sz D0 ss V D T ∧
    bio_free c ∧ glog st sz ss 1 g ∧ layout st sz (length D0).

(** [k] more blocks fit in the log. *)
Definition room (ss : list Z) (k : nat) : Prop :=
  (length ss + k ≤ 8)%nat ∧ Z.of_nat (length ss + k) ≤ sz - 1.

(** Two views that agree outside the log. *)
Definition same_but (V V' : Z → list Z) (P : Z → Prop) : Prop := ∀ m, hm m → ¬ P m → V' m = V m.

Lemma intx_dirty H V ss c β g : intx H V ss c β g → size (list_to_set ss : gset Z) = length ss.
Proof. intros (D & T & _ & X & _). apply size_list_to_set, X. Qed.

Lemma intx_bread c β g x H V ss n Q :
  intx H V ss c β g → 0 ≤ n < Z.of_nat (length D0) → (∀ b f, H !! b ≠ Some (n, f)) →
  (size (dom H) ≤ 1)%nat → (length ss ≤ 8)%nat →
  (∀ b β', H !! b = None → intx (<[b := (n, true)]> H) V ss c β' g → Q b (c, (β', (g, x)))) →
  wp (bread ROOTDEV n) Q (c, (β, (g, x))).
Proof.
  intros X Hn Hh Hsz Hl HQ. pose proof (intx_dirty _ _ _ _ _ _ X) as Hd.
  destruct X as (D & T & C & X & Hf & G & L).
  eapply (cache_bread c (g, x)); [exact C|done| |done| |].
  - by rewrite (txinv_len _ _ _ _ _ _ _ X).
  - rewrite Hd. unfold NBUF. lia.
  - intros b β' Hb C'. apply HQ; [done|]. by exists D, T.
Qed.

Lemma intx_read {A} c β g x H V ss b n f0 (f : buf → A) Q :
  intx H V ss c β g → H !! b = Some (n, f0) →
  (∀ y, bdata y = V n → sector y = n → bdev y = ROOTDEV → Q (f y) (c, (β, (g, x)))) →
  wp (getb b f) Q (c, (β, (g, x))).
Proof. intros (D & T & C & _) Hb HQ. by eapply (cache_read c (g, x)). Qed.

Lemma intx_brelse c β g x H V ss b n Q :
  intx H V ss c β g → H !! b = Some (n, true) →
  (∀ c' β', only_woken c c' → intx (delete b H) V ss c' β' g → Q () (c', (β', (g, x)))) →
  wp (brelse b) Q (c, (β, (g, x))).
Proof.
  intros (D & T & C & X & Hf & G & L) Hb HQ. eapply (cache_brelse c (g, x)); [exact C|done|done|].
  intros c' β' W C'. apply HQ; [done|]. exists D, T. split_and!; try done. by eapply bio_free_woken.
Qed.

Lemma intx_modify c β g x V ss b n f Q :
  intx {[ b := (n, true) ]} V ss c β g → hm n → block_ok (f (V n)) → room ss 1 →
  (∀ c' β' g' V', only_woken c c' → intx ∅ V' (add_sector ss n) c' β' g' →
     V' n = f (V n) → same_but V V' (eq n) → Q () (c', (β', (g', x)))) →
  wp (setb b (λ y, set_bdata (f (bdata y)) y) ;; log_write b ;; brelse b) Q (c, (β, (g, x))).
Proof.
  intros (D & T & C & X & Hf & G & L) Hn Hw [R1 R2] HQ.
  eapply (tx_modify_wp c x β g D T0 T); [exact C|exact X|done|exact G|done|done|exact Hw|lia|lia|].
  intros c' β' g' D' T' V' W C' X' G' HV. apply (HQ c' β' g' V'); [done| | |].
  - exists D', T'. split_and!; try done. by eapply bio_free_woken.
  - rewrite HV by done. by rewrite decide_True.
  - intros m Hm Hne. rewrite HV by done. rewrite decide_False; [done|congruence].
Qed.

(** The same with more code after it. *)
Lemma wp_modify_bind {A} b F (k : M (core * (bio * (logst * Ext))) A) Q s :
  wp (setb b F ;; log_write b ;; brelse b) (λ _ s', wp k Q s') s →
  wp (setb b F ;; log_write b ;; brelse b ;; k) Q s.
Proof.
  unfold wp, mbind, M_bind. destruct (setb b F s); try done.
  destruct (log_write b s0); try done. by destruct (brelse b s1).
Qed.

Lemma room_add ss n k : room ss (S k) → room (add_sector ss n) k.
Proof. unfold room. pose proof (add_sector_length ss n). lia. Qed.

Lemma room_weak ss k j : (j ≤ k)%nat → room ss k → room ss j.
Proof. unfold room. lia. Qed.

Lemma same_but_trans V V' V'' P P' :
  same_but V V' P → same_but V' V'' P' → same_but V V'' (λ m, P m ∨ P' m).
Proof. intros H1 H2 m Hm Hn. rewrite H2, H1; tauto. Qed.

Lemma same_but_weak V V' P P' : (∀ m, hm m → P m → P' m) → same_but V V' P → same_but V V' P'.
Proof. intros H H1 m Hm Hn. apply H1; auto. Qed.

(** Right after [begin_trans]. *)
Lemma intx_start c β g : cache β D0 T0 (dview D0) ∅ ∅ → glog st sz [] 1 g → bio_free c →
  layout st sz (length D0) → intx ∅ (dview D0) [] c β g.
Proof.
  intros C G Hf L. exists D0, []. pose proof L as [L1 L2 L3 L4].
  assert (Hsome : ∀ s, 0 ≤ s < Z.of_nat (length D0) → D0 !! Z.to_nat s = Some (dview D0 s)).
  { intros s Hs. unfold dview. destruct (lookup_lt_is_Some_2 D0 (Z.to_nat s)) as [v Hv]; [lia|]. by rewrite Hv. }
  split_and!; [by rewrite app_nil_r| |done|done|done].
  constructor; try done; [by constructor| |].
  - intros s Hs0 Hs _. apply Hsome, Hs.
  - apply Hsome. lia.
Qed.

End Tx.
