(* ===== verification/FsAlloc.v ===== *)
(** * The block allocator (fs.c)

    [used V ni b] is block [b]'s bit in the bitmap that [V] shows.  [balloc]
    takes the first block whose bit is clear, [bfree] clears a bit; neither
    touches any other bit or block. *)
From S2P Require Import Prelude Spinlock Core Bio BioFacts Cache Log LogFacts Fs Tx.

(** ** Bits of a bitmap block *)

Lemma land_bit x k : 0 ≤ k → (Z.land x (Z.shiftl 1 k) =? 0) = negb (Z.testbit x k).
Proof.
  intros Hk. assert (Hb : ∀ j, 0 ≤ j → Z.testbit (Z.shiftl 1 k) j = (j =? k)).
  { intros j Hj. rewrite Z.shiftl_1_l, Z.pow2_bits_eqb by done. apply Z.eqb_sym. }
  destruct (Z.testbit x k) eqn:E; simpl.
  - apply Z.eqb_neq. intros H. assert (Z.testbit (Z.land x (Z.shiftl 1 k)) k = true); [|by rewrite H, Z.bits_0 in *].
    by rewrite Z.land_spec, E, Hb, Z.eqb_refl.
  - apply Z.eqb_eq, Z.bits_inj'. intros j Hj. rewrite Z.land_spec, Z.bits_0, Hb by done.
    destruct (Z.eqb_spec j k) as [->|]; [by rewrite E|by rewrite andb_false_r].
Qed.

Lemma bit_set_testbit d bi : 0 ≤ bi →
  bit_set d bi = Z.testbit (default 0 (aget d (bi / 8))) (bi mod 8).
Proof. intros. unfold bit_set. rewrite land_bit by (by apply Z.mod_pos_bound). apply negb_involutive. Qed.

Lemma bit_pos i j : i / 8 = j / 8 → i mod 8 = j mod 8 → i = j.
Proof. intros. rewrite (Z.div_mod i 8), (Z.div_mod j 8) by done. congruence. Qed.

Section Bits.
Context (d : list Z) (bi : Z) (Hbi : 0 ≤ bi < BPB) (Hd : block_ok d).

Lemma bit_in_block : 0 ≤ bi / 8 < Z.of_nat (length d).
Proof.
  destruct Hd as [-> _]. change BPB with 4096 in Hbi. unfold BSIZE.
  split; [apply Z.div_pos; lia|]. apply Z.div_lt_upper_bound; lia.
Qed.

(** Replacing the byte of [bi] by one that differs in that bit. *)
Lemma bit_set_aset v bj : 0 ≤ bj < BPB →
  (∀ j, 0 ≤ j < 8 → j ≠ bi mod 8 → Z.testbit v j = Z.testbit (default 0 (aget d (bi / 8))) j) →
  bit_set (aset d (bi / 8) v) bj = if bj =? bi then Z.testbit v (bi mod 8) else bit_set d bj.
Proof.
  intros Hbj Hv. rewrite !bit_set_testbit by lia. destruct (Z.eqb_spec bj bi) as [->|Hne].
  - by rewrite aget_aset_eq by apply bit_in_block.
  - destruct (decide (bj / 8 = bi / 8)) as [E|E]; [|by rewrite aget_aset_ne].
    rewrite E, aget_aset_eq by apply bit_in_block. simpl. rewrite Hv; [done|by apply Z.mod_pos_bound|].
    intros E'. by apply Hne, bit_pos.
Qed.

Lemma bit_set_set_bit bj : 0 ≤ bj < BPB → bit_set (set_bit bi d) bj = (bj =? bi) || bit_set d bj.
Proof.
  intros Hbj. unfold set_bit. pose proof (Z.mod_pos_bound bi 8 ltac:(done)) as Hm.
  assert (Hs : ∀ j, 0 ≤ j → Z.testbit (Z.shiftl 1 (bi mod 8)) j = (bi mod 8 =? j)).
  { intros j Hj. by rewrite Z.shiftl_1_l, Z.pow2_bits_eqb by lia. }
  rewrite bit_set_aset by (done || (intros j Hj Hne; rewrite Z.lor_spec, Hs by lia;
    rewrite (proj2 (Z.eqb_neq _ _)) by congruence; apply orb_false_r)).
  rewrite Z.lor_spec, Hs, Z.eqb_refl, orb_true_r by lia. by destruct (bj =? bi).
Qed.

Lemma bit_set_clear_bit bj : 0 ≤ bj < BPB → bit_set (clear_bit bi d) bj = negb (bj =? bi) && bit_set d bj.
Proof.
  intros Hbj. unfold clear_bit. pose proof (Z.mod_pos_bound bi 8 ltac:(done)) as Hm.
  assert (Hs : ∀ j, 0 ≤ j → Z.testbit (Z.shiftl 1 (bi mod 8)) j = (bi mod 8 =? j)).
  { intros j Hj. by rewrite Z.shiftl_1_l, Z.pow2_bits_eqb by lia. }
  rewrite bit_set_aset by (done || (intros j Hj Hne; rewrite Z.land_spec, Z.lnot_spec, Hs by lia;
    rewrite (proj2 (Z.eqb_neq _ _)) by congruence; apply andb_true_r)).
  rewrite Z.land_spec, Z.lnot_spec, Hs, Z.eqb_refl, andb_false_r by lia. by destruct (bj =? bi).
Qed.

Lemma byte_lor x k : is_byte x → 0 ≤ k < 8 → is_byte (Z.lor x (Z.shiftl 1 k)).
Proof.
  unfold is_byte. intros Hx Hk. rewrite Z.shiftl_1_l. change 256 with (2 ^ 8).
  split; [apply Z.lor_nonneg; split; [lia|apply Z.pow_nonneg; lia]|].
  destruct (decide (Z.lor x (2 ^ k) = 0)) as [->|]; [done|].
  apply Z.log2_lt_pow2; [assert (0 ≤ Z.lor x (2 ^ k)) by (apply Z.lor_nonneg; split; [lia|apply Z.pow_nonneg; lia]); lia|].
  rewrite Z.log2_lor by (lia || (apply Z.pow_nonneg; lia)). rewrite Z.log2_pow2 by lia.
  apply Z.max_lub_lt; [|lia]. destruct (decide (x = 0)) as [->|]; [done|]. apply Z.log2_lt_pow2; lia.
Qed.

Lemma byte_land x y : is_byte x → is_byte (Z.land x y).
Proof.
  unfold is_byte. intros Hx. split; [apply Z.land_nonneg; lia|].
  destruct (decide (Z.land x y = 0)) as [->|Hne]; [done|].
  assert (Z.land x y ≤ x); [|lia]. apply Z.ldiff_le; [lia|].
  apply Z.bits_inj'. intros j Hj. rewrite Z.ldiff_spec, Z.land_spec, Z.bits_0.
  destruct (Z.testbit x j), (Z.testbit y j); done.
Qed.

Lemma aset_block i v : is_byte v → block_ok (aset d i v).
Proof.
  intros Hv. destruct Hd as [H1 H2]. split; [by rewrite aset_length|]. unfold aset.
  case_match; [done|]. by apply Forall_insert.
Qed.

Lemma byte_of_block : is_byte (default 0 (aget d (bi / 8))).
Proof.
  destruct (aget d (bi / 8)) as [x|] eqn:E; [|done]. apply aget_Some in E as [_ E].
  by apply (Forall_lookup_1 _ _ _ _ (proj2 Hd) E).
Qed.

Lemma set_bit_block : block_ok (set_bit bi d).
Proof. apply aset_block, byte_lor; [apply byte_of_block|by apply Z.mod_pos_bound]. Qed.
Lemma clear_bit_block : block_ok (clear_bit bi d).
Proof. apply aset_block, byte_land, byte_of_block. Qed.

End Bits.

(** [free_bit]: the first clear bit below [BPB] and the size. *)
Lemma free_bit_spec fuel d b size bi :
  0 ≤ bi → (Z.to_nat (BPB - bi) < fuel)%nat →
  match free_bit fuel d b size bi with
  | Some r => bi ≤ r < BPB ∧ b + r < size ∧ bit_set d r = false ∧ ∀ j, bi ≤ j < r → bit_set d j = true
  | None => ∀ j, bi ≤ j < BPB → b + j < size → bit_set d j = true
  end.
Proof.
  revert bi. induction fuel as [|fuel IH]; intros bi Hbi Hf; [lia|]. cbn [free_bit].
  destruct (Z.ltb_spec bi BPB) as [H1|H1], (Z.ltb_spec (b + bi) size) as [H2|H2]; cbn [andb]; try lia.
  destruct (bit_set d bi) eqn:E.
  - specialize (IH (bi + 1) ltac:(lia) ltac:(lia)). destruct (free_bit fuel d b size (bi + 1)) as [r|].
    + destruct IH as (Hr & Hs & Hb & Hj). split_and!; try done; try lia. intros j ?.
      destruct (decide (j = bi)) as [->|]; [done|]. apply Hj. lia.
    + intros j ? ?. destruct (decide (j = bi)) as [->|]; [done|]. apply IH; lia.
  - split_and!; try done; lia.
Qed.

(** ** The allocator *)

(** Block [b]'s bit, in the bitmap of a disk with [ni] inodes. *)
Definition used (V : Z → list Z) (ni b : Z) : bool := bit_set (V (BBLOCK b ni)) (b mod BPB).

(** Two blocks of the disk share a bitmap block exactly when they share a
    quotient. *)
Lemma BBLOCK_inj a b ni : 0 ≤ a < 2 ^ 31 → 0 ≤ b < 2 ^ 31 → 0 ≤ ni < 2 ^ 31 →
  BBLOCK a ni = BBLOCK b ni → a / BPB = b / BPB.
Proof.
  intros Ha Hb Hni. unfold BBLOCK. change BPB with 4096. change IPB with 8.
  pose proof (Z.div_pos a 4096). pose proof (Z.div_pos b 4096). pose proof (Z.div_pos ni 8).
  assert (a / 4096 < 2 ^ 31 ∧ b / 4096 < 2 ^ 31 ∧ ni / 8 < 2 ^ 30).
  { split_and!; apply Z.div_lt_upper_bound; lia. }
  rewrite !u32_small; lia.
Qed.

Section Alloc.
Context {Ext : Type} (st sz : Z) (D0 : list (list Z)) (T0 : list (Z * list Z)).
Abbreviation K := (core * (bio * (logst * (list inode * Ext))))%type.
Abbreviation hm := (home st sz (length D0)).
Abbreviation N := (Z.of_nat (length D0)).
Implicit Types (c : core) (β : bio) (g : logst) (x : list inode * Ext).

(** The superblock that [V] shows, and a bitmap of blocks outside the log that
    are marked as used themselves. *)
Record fs_layout (V : Z → list Z) (size ni : Z) : Prop := {
  fl_size : word_at 0 (V 1) = Some size;
  fl_ninodes : word_at 2 (V 1) = Some ni;
  fl_range : 0 ≤ size < 2 ^ 31 ∧ 0 ≤ ni < 2 ^ 31;
  fl_one : hm 1;
  fl_map b : 0 ≤ b < size → hm (BBLOCK b ni) ∧ block_ok (V (BBLOCK b ni)) ∧
    0 ≤ BBLOCK b ni < size ∧ used V ni (BBLOCK b ni) = true ∧ BBLOCK b ni ≠ 1 }.

Lemma intx_readsb c β g x V ss Q :
  intx st sz D0 T0 ∅ V ss c β g → (length ss ≤ 8)%nat → hm 1 →
  (∀ c' β' sb, only_woken c c' → intx st sz D0 T0 ∅ V ss c' β' g →
     word_at 0 (V 1) = Some (sb_size sb) → word_at 2 (V 1) = Some (sb_ninodes sb) →
     Q sb (c', (β', (g, x)))) →
  wp (readsb ROOTDEV) Q (c, (β, (g, x))).
Proof.
  intros X Hl [H1 _] HQ. pose proof (intx_dirty _ _ _ _ _ _ _ _ _ _ X) as Hd.
  destruct X as (D & T & C & X & Hf & G & L).
  eapply readsb_wp; [exact C|done|rewrite (txinv_len _ _ _ _ _ _ _ X); lia|rewrite Hd; unfold NBUF; lia|].
  intros c' β' s nb n nl W C' E0 _ E2 _. apply HQ; [done| |done|done].
  exists D, T. split_and!; try done. by eapply bio_free_woken.
Qed.

Definition zero_block : list Z := replicate BSIZE 0.
Lemma zero_block_ok : block_ok zero_block.
Proof. split; [done|]. by apply Forall_replicate. Qed.

Lemma bzero_wp c β g x V ss n Q :
  intx st sz D0 T0 ∅ V ss c β g → room sz ss 1 → hm n →
  (∀ c' β' g' V', only_woken c c' → intx st sz D0 T0 ∅ V' (add_sector ss n) c' β' g' →
     V' n = zero_block → same_but st sz D0 V V' (eq n) → Q () (c', (β', (g', x)))) →
  wp (bzero ROOTDEV n) Q (c, (β, (g, x))).
Proof.
  intros X R Hn HQ. unfold bzero. apply wp_bind.
  eapply intx_bread; [exact X|apply Hn|intros b f; by rewrite lookup_empty|rewrite dom_empty_L, size_empty; lia|apply proj1 in R; lia|].
  intros b β1 _ X1. 
  eapply (intx_modify st sz D0 T0 c β1 g x V ss b n (λ _, zero_block)); [exact X1|done|apply zero_block_ok|done|exact HQ].
Qed.

(** Marking a block in the bitmap. *)
Definition marked (V V' : Z → list Z) (ni b : Z) (v : bool) : Prop :=
  same_but st sz D0 V V' (eq (BBLOCK b ni)) ∧ block_ok (V' (BBLOCK b ni)) ∧
  used V' ni b = v ∧
  ∀ j, 0 ≤ j < 2 ^ 31 → j ≠ b → hm (BBLOCK j ni) → used V' ni j = used V ni j.

Lemma mark_bit V V' ni b (v : bool) :
  0 ≤ b < 2 ^ 31 → 0 ≤ ni < 2 ^ 31 → block_ok (V (BBLOCK b ni)) →
  V' (BBLOCK b ni) = (if v then set_bit else clear_bit) (b mod BPB) (V (BBLOCK b ni)) →
  same_but st sz D0 V V' (eq (BBLOCK b ni)) → marked V V' ni b v.
Proof.
  intros Hb Hni Hok HV Hs. pose proof (Z.mod_pos_bound b BPB ltac:(done)) as Hm.
  split; [done|]. split_and!.
  - rewrite HV. destruct v; [by apply set_bit_block|by apply clear_bit_block].
  - unfold used. rewrite HV. destruct v.
    + rewrite bit_set_set_bit by done. by rewrite Z.eqb_refl.
    + rewrite bit_set_clear_bit by done. by rewrite Z.eqb_refl.
  - intros j Hj Hne Hh. unfold used. destruct (decide (BBLOCK j ni = BBLOCK b ni)) as [E|E].
    + rewrite E, HV. pose proof (BBLOCK_inj j b ni Hj Hb Hni E) as Eq.
      pose proof (Z.mod_pos_bound j BPB ltac:(done)) as Hmj.
      assert (Hmm : j mod BPB ≠ b mod BPB).
      { intros Em. apply Hne. rewrite (Z.div_mod j BPB), (Z.div_mod b BPB) by done. congruence. }
      destruct v.
      * rewrite bit_set_set_bit by done. by rewrite (proj2 (Z.eqb_neq _ _)).
      * rewrite bit_set_clear_bit by done. by rewrite (proj2 (Z.eqb_neq _ _)).
    + rewrite Hs; [done|done|congruence].
Qed.

(** Adding a block to the log, after it was read. *)
Lemma log_modify_wp c β g x V ss b n f Q :
  intx st sz D0 T0 (<[b := (n, true)]> ∅) V ss c β g → room sz ss 1 → hm n → block_ok (f (V n)) →
  (∀ c' β' g' V', only_woken c c' → intx st sz D0 T0 ∅ V' (add_sector ss n) c' β' g' →
     V' n = f (V n) → same_but st sz D0 V V' (eq n) → Q () (c', (β', (g', x)))) →
  wp (setb b (λ y, set_bdata (f (bdata y)) y) ;; log_write b ;; brelse b) Q (c, (β, (g, x))).
Proof. intros X R Hn Hf HQ. by eapply (intx_modify st sz D0 T0 c β g x V ss b n f). Qed.

Lemma bfree_wp c β g x V ss size ni b Q :
  intx st sz D0 T0 ∅ V ss c β g → room sz ss 1 → fs_layout V size ni → 0 ≤ b < size →
  used V ni b = true →
  (∀ c' β' g' V', only_woken c c' → intx st sz D0 T0 ∅ V' (add_sector ss (BBLOCK b ni)) c' β' g' →
     marked V V' ni b false → Q () (c', (β', (g', x)))) →
  wp (bfree ROOTDEV b) Q (c, (β, (g, x))).
Proof.
  intros X R L Hb Hu HQ. destruct (fl_map _ _ _ L b Hb) as (Hm & Hok & _).
  pose proof (fl_range _ _ _ L) as [Hr1 Hr2].
  unfold bfree. apply wp_bind. eapply intx_readsb; [exact X|apply proj1 in R; lia|apply L|].
  intros c1 β1 sb W1 X1 E0 E2. rewrite (fl_ninodes _ _ _ L) in E2. injection E2 as <-. apply wp_bind.
  eapply intx_bread; [exact X1|apply Hm|intros b' f; by rewrite lookup_empty|rewrite dom_empty_L, size_empty; lia|apply proj1 in R; lia|].
  intros p β2 _ X2. apply wp_bind. eapply intx_read; [exact X2|by rewrite lookup_insert_eq|].
  intros y Hy _ _. rewrite Hy. unfold used in Hu. rewrite Hu. cbn [negb].
  eapply (log_modify_wp c1 β2 g x V ss p (BBLOCK b ni)); [exact X2|done|done|by apply clear_bit_block|].
  intros c3 β3 g3 V3 W3 X3 HV Hs. apply (HQ c3 β3 g3 V3); [by eapply only_woken_trans|done|].
  apply mark_bit; [lia|lia|done|done|done].
Qed.

Lemma bfree_free c β g x V ss size ni b :
  intx st sz D0 T0 ∅ V ss c β g → (length ss ≤ 8)%nat → fs_layout V size ni → 0 ≤ b < size →
  used V ni b = false → bfree ROOTDEV b (c, (β, (g, x))) = Panic "freeing free block".
Proof.
  intros X R L Hb Hu. destruct (fl_map _ _ _ L b Hb) as (Hm & Hok & _).
  unfold bfree. apply bind_panics. eapply intx_readsb; [exact X|done|apply L|].
  intros c1 β1 sb W1 X1 E0 E2. rewrite (fl_ninodes _ _ _ L) in E2. injection E2 as <-. apply bind_panics.
  eapply intx_bread; [exact X1|apply Hm|intros b' f; by rewrite lookup_empty|rewrite dom_empty_L, size_empty; lia|done|].
  intros p β2 _ X2. apply bind_panics. eapply intx_read; [exact X2|by rewrite lookup_insert_eq|].
  intros y Hy _ _. rewrite Hy. unfold used in Hu. by rewrite Hu.
Qed.

(** Every block of a bitmap block is used: on to the next. *)
Lemma BPB_step b : 0 ≤ b → b mod BPB = 0 → ∀ i, 0 ≤ i < BPB →
  (b + i) / BPB = b / BPB ∧ (b + i) mod BPB = i.
Proof.
  intros Hb Hm i Hi. assert (E : b + i = i + (b / BPB) * BPB) by (pose proof (Z.div_mod b BPB ltac:(done)); lia).
  rewrite E, Z.div_add, Z.mod_add, Z.div_small, Z.mod_small by done. lia.
Qed.
Lemma BBLOCK_step b ni : 0 ≤ b → b mod BPB = 0 → ∀ i, 0 ≤ i < BPB → BBLOCK (b + i) ni = BBLOCK b ni.
Proof. intros. unfold BBLOCK. by destruct (BPB_step b H H0 i H1) as [-> _]. Qed.

Lemma balloc_loop_wp size ni b0 V ss Q fuel : ∀ c0 β g x b,
  intx st sz D0 T0 ∅ V ss c0 β g → room sz ss 2 → fs_layout V size ni →
  0 ≤ b0 < size → used V ni b0 = false → hm b0 → (∀ j, 0 ≤ j < b0 → used V ni j = true) →
  0 ≤ b ≤ b0 → b mod BPB = 0 → (Z.to_nat ((b0 - b) / BPB) < fuel)%nat →
  (∀ c' β' g' V', only_woken c0 c' → 
     intx st sz D0 T0 ∅ V' (add_sector (add_sector ss (BBLOCK b0 ni)) b0) c' β' g' →
     (∃ V1, marked V V1 ni b0 true ∧ V' b0 = zero_block ∧ same_but st sz D0 V1 V' (eq b0)) →
     Q b0 (c', (β', (g', x)))) →
  wp (balloc_loop fuel ROOTDEV size ni b) Q (c0, (β, (g, x))).
Proof.
  induction fuel as [|fuel IH]; intros c0 β g x b X R L Hb0 Hu Hm0 Hfirst Hb Hbm Hf HQ; [lia|].
  pose proof (fl_range _ _ _ L) as [Hr1 Hr2]. destruct (fl_map _ _ _ L b ltac:(lia)) as (Hm & Hok & _).
  cbn [balloc_loop]. rewrite (proj2 (Z.ltb_lt b size)) by lia. apply wp_bind.
  eapply intx_bread; [exact X|apply Hm|intros b' f; by rewrite lookup_empty|rewrite dom_empty_L, size_empty; lia|apply proj1 in R; lia|].
  intros p β1 _ X1. apply wp_bind. eapply intx_read; [exact X1|by rewrite lookup_insert_eq|].
  intros y Hy _ _. rewrite Hy.
  assert (Hbits : ∀ i, 0 ≤ i < BPB → bit_set (V (BBLOCK b ni)) i = used V ni (b + i)).
  { intros i Hi. unfold used. destruct (BPB_step b ltac:(lia) Hbm i Hi) as [_ ->]. by rewrite BBLOCK_step by lia. }
  pose proof (free_bit_spec (S (Z.to_nat BPB)) (V (BBLOCK b ni)) b size 0 ltac:(lia) ltac:(lia)) as Hfb.
  destruct (free_bit (S (Z.to_nat BPB)) (V (BBLOCK b ni)) b size 0) as [r|].
  - destruct Hfb as (Hr & Hrs & Hrf & Hrl). rewrite Hbits in Hrf by done.
    assert (b + r = b0) as Er.
    { destruct (Z.lt_trichotomy (b + r) b0) as [Hlt|[E|Hgt]]; [|done|].
      - rewrite Hfirst in Hrf by lia. done.
      - assert (Hin : 0 ≤ b0 - b < r) by lia. specialize (Hrl _ Hin). rewrite Hbits in Hrl by lia.
        replace (b + (b0 - b)) with b0 in Hrl by lia. congruence. }
    destruct (BPB_step b ltac:(lia) Hbm r ltac:(lia)) as [_ Er2]. rewrite Er in Er2.
    pose proof (BBLOCK_step b ni ltac:(lia) Hbm r ltac:(lia)) as Eb. rewrite Er in Eb. 
    rewrite <-Eb in X1, Hok, Hm. apply wp_modify_bind.
    eapply (log_modify_wp c0 β1 g x V ss p (BBLOCK b0 ni) (set_bit r)); [exact X1|apply (room_weak sz ss 2 1); [lia|done]|done| |].
    { by apply set_bit_block. }
    intros c2 β2 g2 V2 W2 X2 HV2 Hs2. apply wp_bind.
    assert (Hmk : marked V V2 ni b0 true) by (apply mark_bit; [lia|lia|done|by rewrite Er2|done]).
    rewrite Er. eapply bzero_wp; [exact X2|by apply room_add|done|].
    intros c3 β3 g3 V3 W3 X3 HV3 Hs3. apply wp_ret. apply (HQ c3 β3 g3 V3); [by eapply only_woken_trans|done|].
    by exists V2.
  - apply wp_bind. eapply intx_brelse; [exact X1|by rewrite lookup_insert_eq|].
    intros c2 β2 W2 X2. rewrite delete_insert_id in X2 by done.
    assert (Hnext : b + BPB ≤ b0).
    { destruct (decide (b + BPB ≤ b0)) as [|Hlt]; [done|]. exfalso.
      specialize (Hfb (b0 - b) ltac:(lia) ltac:(lia)). rewrite Hbits in Hfb by lia.
      replace (b + (b0 - b)) with b0 in Hfb by lia. congruence. }
    change BPB with 4096 in *.
    eapply IH; [exact X2|done|done|done|done|done|done|lia| | |].
    + rewrite <-Z.add_mod_idemp_r by done. by rewrite Z.add_0_r.
    + replace (b0 - b) with (b0 - (b + 4096) + 1 * 4096) in Hf by lia. rewrite Z.div_add in Hf by done.
      assert (0 ≤ (b0 - (b + 4096)) / 4096) by (apply Z.div_pos; lia). lia.
    + intros c3 β3 g3 V3 W3. apply HQ. by eapply only_woken_trans.
Qed.

Lemma balloc_full_loop size ni V ss fuel : ∀ c0 β g x b,
  intx st sz D0 T0 ∅ V ss c0 β g → (length ss ≤ 8)%nat → fs_layout V size ni →
  (∀ j, 0 ≤ j < size → used V ni j = true) → 0 ≤ b → b mod BPB = 0 →
  (Z.to_nat ((size - b + BPB - 1) / BPB) < fuel)%nat →
  balloc_loop fuel ROOTDEV size ni b (c0, (β, (g, x))) = Panic "balloc: out of blocks".
Proof.
  induction fuel as [|fuel IH]; intros c0 β g x b X R L Hall Hb Hbm Hf; [lia|].
  cbn [balloc_loop]. destruct (Z.ltb_spec b size) as [Hlt|]; [|done].
  destruct (fl_map _ _ _ L b ltac:(lia)) as (Hm & Hok & _). apply bind_panics.
  eapply intx_bread; [exact X|apply Hm|intros b' f; by rewrite lookup_empty|rewrite dom_empty_L, size_empty; lia|done|].
  intros p β1 _ X1. apply bind_panics. eapply intx_read; [exact X1|by rewrite lookup_insert_eq|].
  intros y Hy _ _. rewrite Hy.
  pose proof (free_bit_spec (S (Z.to_nat BPB)) (V (BBLOCK b ni)) b size 0 ltac:(lia) ltac:(lia)) as Hfb.
  destruct (free_bit (S (Z.to_nat BPB)) (V (BBLOCK b ni)) b size 0) as [r|].
  - exfalso. destruct Hfb as (Hr & Hrs & Hrf & _). specialize (Hall (b + r) ltac:(lia)). unfold used in Hall.
    destruct (BPB_step b Hb Hbm r Hr) as [_ Em]. rewrite Em, BBLOCK_step in Hall by done. congruence.
  - apply bind_panics. eapply intx_brelse; [exact X1|by rewrite lookup_insert_eq|].
    intros c2 β2 W2 X2. rewrite delete_insert_id in X2 by done. change BPB with 4096 in *.
    apply IH; try done; [lia| |].
    + rewrite <-Z.add_mod_idemp_r by done. by rewrite Z.add_0_r.
    + replace (size - b + 4096 - 1) with (size - (b + 4096) + 4096 - 1 + 1 * 4096) in Hf by lia.
      rewrite Z.div_add in Hf by done.
      assert (0 ≤ (size - (b + 4096) + 4096 - 1) / 4096) by (apply Z.div_pos; lia). lia.
Qed.

(** Block [b] changed hands: its bit is [v] and no other bit or block differs,
    but for [b] itself when it was handed out. *)
Definition handed (V V' : Z → list Z) (size ni b : Z) (v : bool) : Prop :=
  used V' ni b = v ∧ (∀ j, 0 ≤ j < size → j ≠ b → used V' ni j = used V ni j) ∧
  same_but st sz D0 V V' (λ m, m = BBLOCK b ni ∨ (v = true ∧ m = b)) ∧
  (v = true → V' b = zero_block) ∧ fs_layout V' size ni.

Lemma layout_handed V V' size ni b : fs_layout V size ni → 0 ≤ b < size →
  V' 1 = V 1 → block_ok (V' (BBLOCK b ni)) →
  (∀ j, 0 ≤ j < size → j ≠ b → used V' ni j = used V ni j) →
  (∀ j, 0 ≤ j < size → BBLOCK j ni ≠ b) →
  (∀ j, 0 ≤ j < size → BBLOCK j ni ≠ BBLOCK b ni → V' (BBLOCK j ni) = V (BBLOCK j ni)) →
  fs_layout V' size ni.
Proof.
  intros [L1 L2 L3 L4 L5] Hb H1 Hok Hu Hne Hs. constructor; try done; [congruence..|].
  intros j Hj. destruct (L5 j Hj) as (M1 & M2 & M3 & M4 & M5). split_and!; try done; try lia.
  - destruct (decide (BBLOCK j ni = BBLOCK b ni)) as [->|]; [done|]. by rewrite Hs.
  - rewrite Hu; [done|done|by apply Hne].
Qed.

Lemma handed_alloc V V1 V' size ni b :
  fs_layout V size ni → 0 ≤ b < size → used V ni b = false → hm b → b ≠ 1 →
  marked V V1 ni b true → V' b = zero_block → same_but st sz D0 V1 V' (eq b) →
  handed V V' size ni b true.
Proof.
  intros L Hb Hf Hh H1 (Hs1 & Hok & Ht & Hj) Hz Hs.
  assert (Hne : ∀ j, 0 ≤ j < size → BBLOCK j ni ≠ b).
  { intros j Hjr E. destruct (fl_map _ _ _ L j Hjr) as (_ & _ & _ & Hu & _). congruence. }
  pose proof (fl_range _ _ _ L) as [Hr1 Hr2].
  assert (HV : ∀ j, 0 ≤ j < size → V' (BBLOCK j ni) = V1 (BBLOCK j ni)).
  { intros j Hjr. apply Hs; [apply (fl_map _ _ _ L j Hjr)|]. intros E. by apply (Hne j). }
  assert (Hu : ∀ j, 0 ≤ j < size → j ≠ b → used V' ni j = used V ni j).
  { intros j Hjr Hjb. rewrite <-(Hj j) by (lia || done || apply (fl_map _ _ _ L j Hjr)).
    unfold used. by rewrite HV. }
  assert (Hone : V' 1 = V 1).
  { rewrite Hs by (apply L || congruence). apply Hs1; [apply L|].
    intros E. destruct (fl_map _ _ _ L b Hb) as (_ & _ & _ & _ & ?). congruence. }
  split_and!; try done.
  - unfold used. rewrite HV by done. exact Ht.
  - intros m Hm Hnm. rewrite Hs by (done || (intros ->; tauto)). apply Hs1; [done|]. intros <-. tauto.
  - apply (layout_handed V V' size ni b); try done; [by rewrite HV|].
    intros j Hjr HB. rewrite HV by done. apply Hs1; [apply (fl_map _ _ _ L j Hjr)|congruence].
Qed.

Lemma handed_free V V' size ni b :
  fs_layout V size ni → 0 ≤ b < size → (∀ j, 0 ≤ j < size → BBLOCK j ni ≠ b) →
  marked V V' ni b false → handed V V' size ni b false.
Proof.
  intros L Hb Hne (Hs1 & Hok & Ht & Hj). pose proof (fl_range _ _ _ L) as [Hr1 Hr2].
  assert (Hu : ∀ j, 0 ≤ j < size → j ≠ b → used V' ni j = used V ni j).
  { intros j Hjr Hjb. apply Hj; [lia|done|apply (fl_map _ _ _ L j Hjr)]. }
  split_and!; try done.
  - intros m Hm Hnm. apply Hs1; [done|]. intros <-. tauto.
  - apply (layout_handed V V' size ni b); try done.
    + apply Hs1; [apply L|]. intros E. destruct (fl_map _ _ _ L b Hb) as (_ & _ & _ & _ & ?). congruence.
    + intros j Hjr HB. apply Hs1; [apply (fl_map _ _ _ L j Hjr)|congruence].
Qed.

End Alloc.

(** ** The property *)

(** C23. In an open transaction on a disk with [size] blocks whose bitmap marks
    itself: [balloc] returns the first block whose bit is clear (when that block
    is outside the log), zeroed, and with no free block it panics; [bfree] of a
    used data block clears its bit, and of a free one panics.  Every other bit
    and block stays as it was, the bitmap stays well formed, and only the
    affected blocks join the transaction. *)
Theorem block_allocator_correct {Ext} st sz D0 T0 V ss size ni c β g (x : list inode * Ext) :
  intx st sz D0 T0 ∅ V ss c β g → room sz ss 2 → fs_layout st sz D0 V size ni →
  (∀ b, 0 ≤ b < size → used V ni b = false → (∀ j, 0 ≤ j < b → used V ni j = true) →
     home st sz (length D0) b → b ≠ 1 →
     wp (balloc ROOTDEV) (λ r s, r = b ∧ ∃ c' β' g' V', s = (c', (β', (g', x))) ∧
       intx st sz D0 T0 ∅ V' (add_sector (add_sector ss (BBLOCK b ni)) b) c' β' g' ∧
       handed st sz D0 V V' size ni b true) (c, (β, (g, x)))) ∧
  ((∀ b, 0 ≤ b < size → used V ni b = true) →
     balloc ROOTDEV (c, (β, (g, x))) = Panic "balloc: out of blocks") ∧
  (∀ b, 0 ≤ b < size → (∀ j, 0 ≤ j < size → BBLOCK j ni ≠ b) → used V ni b = true →
     wp (bfree ROOTDEV b) (λ _ s, ∃ c' β' g' V', s = (c', (β', (g', x))) ∧
       intx st sz D0 T0 ∅ V' (add_sector ss (BBLOCK b ni)) c' β' g' ∧
       handed st sz D0 V V' size ni b false) (c, (β, (g, x)))) ∧
  (∀ b, 0 ≤ b < size → used V ni b = false →
     bfree ROOTDEV b (c, (β, (g, x))) = Panic "freeing free block").
Proof.
  intros X R L. assert (Hl : (length ss ≤ 8)%nat) by (apply proj1 in R; lia).
  pose proof (fl_range _ _ _ _ _ _ L) as [Hr1 Hr2]. split_and!.
  - intros b Hb Hu Hfirst Hh H1. unfold balloc. apply wp_bind.
    eapply intx_readsb; [exact X|done|apply L|]. intros c1 β1 sb W1 X1 E0 E2.
    rewrite (fl_size _ _ _ _ _ _ L) in E0. rewrite (fl_ninodes _ _ _ _ _ _ L) in E2.
    injection E0 as <-. injection E2 as <-.
    eapply balloc_loop_wp; [exact X1|done|exact L|exact Hb|done|done|done|lia|done| |].
    { rewrite Z.sub_0_r. assert (b / BPB ≤ size / BPB) by (apply Z.div_le_mono; [done|lia]).
      pose proof (Z.div_pos b BPB ltac:(lia) ltac:(done)). lia. }
    intros c2 β2 g2 V2 W2 X2 (V1 & Hmk & Hz & Hs). split; [done|].
    exists c2, β2, g2, V2. split_and!; [done|done|]. by eapply handed_alloc.
  - intros Hall. unfold balloc. apply bind_panics.
    eapply intx_readsb; [exact X|done|apply L|]. intros c1 β1 sb W1 X1 E0 E2.
    rewrite (fl_size _ _ _ _ _ _ L) in E0. rewrite (fl_ninodes _ _ _ _ _ _ L) in E2.
    injection E0 as <-. injection E2 as <-.
    eapply balloc_full_loop; [exact X1|done|exact L|done|lia|done|]. rewrite Z.sub_0_r.
    assert ((size + BPB - 1) / BPB ≤ size / BPB + 1); [|pose proof (Z.div_pos size BPB); lia].
    rewrite <-(Z.div_add size 1 BPB) by done. apply Z.div_le_mono; [done|lia].
  - intros b Hb Hne Hu. eapply bfree_wp; [exact X|by apply (room_weak sz ss 2 1); [lia|]|exact L|done|done|].
    intros c1 β1 g1 V1 W1 X1 Hmk. exists c1, β1, g1, V1. split_and!; [done|done|]. by apply handed_free.
  - intros b Hb Hu. by eapply bfree_free.
Qed.

(** ** A disk *)

(** Sixteen blocks: superblock, bitmap in block 3, a file block in 4, the log
    from 6 on; blocks 0 to 3 and the log are marked as used. *)
Definition ex_disk (bits0 bits1 : Z) : list (list Z) :=
  <[3%nat := [bits0; bits1] ++ replicate (BSIZE - 2) 0]> tiny_disk.
Definition ex_log : logst := mkLog 6 10 1 ROOTDEV 0 (replicate LOGSIZE 0).
Definition ex_bio (bits0 bits1 : Z) : bio := mkBio init_bufs (ex_disk bits0 bits1) [].

Lemma ex_disk_blocks b0 b1 : is_byte b0 → is_byte b1 → Forall block_ok (ex_disk b0 b1).
Proof.
  intros H0 H1. apply Forall_insert; [apply tiny_good|]. split; [done|].
  constructor; [done|]. constructor; [done|]. by apply Forall_replicate.
Qed.

Lemma ex_intx b0 b1 : is_byte b0 → is_byte b1 →
  intx 6 10 (ex_disk b0 b1) [] ∅ (dview (ex_disk b0 b1)) [] core0 (ex_bio b0 b1) ex_log.
Proof.
  intros H0 H1. apply intx_start.
  - by apply cache_init, ex_disk_blocks.
  - by constructor.
  - split; apply not_elem_of_empty.
  - constructor; simpl; lia.
Qed.

Lemma ex_BBLOCK j : 0 ≤ j < 16 → BBLOCK j 0 = 3 ∧ j mod BPB = j.
Proof. intros Hj. unfold BBLOCK. change BPB with 4096. rewrite Z.div_small, Z.mod_small by lia. done. Qed.

Lemma ex_home b0 b1 n : 0 ≤ n < 6 → home 6 10 (length (ex_disk b0 b1)) n.
Proof. intros Hn. assert (length (ex_disk b0 b1) = 16%nat) as -> by reflexivity. split; lia. Qed.

Lemma ex_layout b0 b1 : is_byte b0 → is_byte b1 → Z.testbit b0 3 = true →
  fs_layout 6 10 (ex_disk b0 b1) (dview (ex_disk b0 b1)) 16 0.
Proof.
  intros H0 H1 H3. constructor; try done; [by apply ex_home|]. intros j Hj.
  destruct (ex_BBLOCK j Hj) as [-> _]. split_and!; try lia.
  - by apply ex_home.
  - apply (Forall_lookup_1 _ _ 3%nat _ (ex_disk_blocks b0 b1 H0 H1)). done.
  - unfold used. destruct (ex_BBLOCK 3 ltac:(lia)) as [-> ->].
    rewrite bit_set_testbit by lia. exact H3.
Qed.

Lemma block_allocator_correct_witness :
  (∃ s, balloc ROOTDEV (core0, (ex_bio 15 255, (ex_log, (icache0, ())))) = Ret 4 s) ∧
  balloc ROOTDEV (core0, (ex_bio 255 255, (ex_log, (icache0, ())))) = Panic "balloc: out of blocks".
Proof.
  split.
  - destruct (block_allocator_correct 6 10 (ex_disk 15 255) [] (dview (ex_disk 15 255)) [] 16 0
      core0 (ex_bio 15 255) ex_log (icache0, ())) as [H _].
    + by apply ex_intx.
    + split; simpl; lia.
    + by apply ex_layout.
    + assert (Hb : ∀ j, 0 ≤ j < 4 → used (dview (ex_disk 15 255)) 0 j = true).
      { intros j Hj. assert (j = 0 ∨ j = 1 ∨ j = 2 ∨ j = 3) as [-> | [-> | [-> | ->]]] by lia; reflexivity. }
      specialize (H 4 ltac:(lia) eq_refl Hb (ex_home 15 255 4 ltac:(lia)) ltac:(lia)).
      destruct (proj1 (wp_Ret _ _ _) H) as (r & s & Hr & Er & _). rewrite Er in Hr.
      exists s. exact Hr.
  - destruct (block_allocator_correct 6 10 (ex_disk 255 255) [] (dview (ex_disk 255 255)) [] 16 0
      core0 (ex_bio 255 255) ex_log (icache0, ())) as (_ & H & _).
    + by apply ex_intx.
    + split; simpl; lia.
    + by apply ex_layout.
    + apply H. intros j Hj. unfold used. destruct (ex_BBLOCK j Hj) as [-> ->].
      rewrite bit_set_testbit by lia.
      assert (j / 8 = 0 ∨ j / 8 = 1) as [E|E].
      { assert (0 ≤ j / 8) by (apply Z.div_pos; lia). assert (j / 8 < 2) by (apply Z.div_lt_upper_bound; lia). lia. }
      all: rewrite E; pose proof (Z.mod_pos_bound j 8 ltac:(done)) as Hm;
        apply (Z.ones_spec_low 8); lia.
Defined.

(** With the bits of the log's blocks clear, as mkfs.c leaves them, a full disk
    makes [balloc] hand out the block of the log header. *)
Lemma balloc_takes_log_block :
  (∃ s, balloc ROOTDEV (core0, (ex_bio 63 0, (ex_log, (icache0, ())))) = Ret (lstart ex_log) s).
Proof.
  assert (H : match balloc ROOTDEV (core0, (ex_bio 63 0, (ex_log, (icache0, ())))) with
    | Ret r _ => r =? lstart ex_log | _ => false end = true) by (vm_compute; reflexivity).
  destruct (balloc ROOTDEV (core0, (ex_bio 63 0, (ex_log, (icache0, ()))))) as [r s| | |] eqn:E; try discriminate H.
  apply Z.eqb_eq in H as ->. by exists s.
Qed.
