(* ===== verification/FsFile.v ===== *)
(** * The contents of a file (fs.c)

    [fdata] is what a file holds: its blocks in order, as the cache shows them.
    [bmap] finds those blocks, [readi] returns the bytes of [fdata]. *)
From S2P Require Import Prelude Spinlock Core Bio BioFacts Cache Log LogFacts Fs FsInode.

Abbreviation BS := (Z.of_nat BSIZE).

(** ** The abstract contents *)

(** The disk block of block [k] of the file; 0 when there is none. *)
Definition baddr (V : Z → list Z) (ip : inode) (k : Z) : Z :=
  if k <? NDIRECT then default 0 (aget (i_addrs ip) k)
  else if k - NDIRECT <? NINDIRECT
  then default 0 (word_at (Z.to_nat (k - NDIRECT)) (V (default 0 (aget (i_addrs ip) NDIRECT))))
  else 0.

(** The first [nb] blocks, one after the other. *)
Definition fdata (V : Z → list Z) (ip : inode) (nb : nat) : list Z :=
  mjoin ((λ k : nat, V (baddr V ip (Z.of_nat k))) <$> seq 0 nb).
Definition nblocks (sz : Z) : nat := Z.to_nat ((sz + BS - 1) / BS).
Definition contents (V : Z → list Z) (ip : inode) : list Z :=
  take (Z.to_nat (i_size ip)) (fdata V ip (nblocks (i_size ip))).

(** A regular file or directory all of whose blocks are on the disk of [N]
    blocks; [V] shows blocks. *)
Record mapped (N : Z) (V : Z → list Z) (ip : inode) : Prop := {
  mp_dev : i_dev ip = ROOTDEV;
  mp_type : i_type ip ≠ T_DEV;
  mp_size : 0 ≤ i_size ip ≤ MAXFILE * BS;
  mp_len : length (i_addrs ip) = 13%nat;
  mp_ind : NDIRECT * BS < i_size ip → 0 < default 0 (aget (i_addrs ip) NDIRECT) < N;
  mp_addr k : 0 ≤ k < Z.of_nat (nblocks (i_size ip)) → 0 < baddr V ip k < N;
  mp_block k : 0 ≤ k < Z.of_nat (nblocks (i_size ip)) → block_ok (V (baddr V ip k)) }.

Lemma nblocks_lt sz k : 0 ≤ sz → 0 ≤ k → k * BS < sz → k < Z.of_nat (nblocks sz).
Proof.
  intros H1 H2 H3. unfold nblocks. rewrite Z2Nat.id by (apply Z.div_pos; unfold BSIZE; lia).
  assert (k + 1 ≤ (sz + BS - 1) / BS); [|lia].
  apply Z.div_le_lower_bound; unfold BSIZE in *; lia.
Qed.

Lemma nblocks_bound sz k : 0 ≤ sz → k < Z.of_nat (nblocks sz) → k * BS < sz.
Proof.
  intros H1 H2. unfold nblocks in H2. rewrite Z2Nat.id in H2 by (apply Z.div_pos; unfold BSIZE; lia).
  pose proof (Z.mul_div_le (sz + BS - 1) BS ltac:(done)). unfold BSIZE in *. lia.
Qed.

(** Within one block of uniform ones. *)
Lemma sublist_mjoin w (bs : list (list Z)) b q r m :
  Forall (λ b, length b = w) bs → bs !! q = Some b → (r + m ≤ w)%nat →
  sublist (w * q + r) m (mjoin bs) = sublist r m b.
Proof.
  intros Hw. revert q. induction Hw as [|b0 bs Hb Hbs IH]; intros [|q] Hq Hm; simpl in Hq; simplify_eq.
  - rewrite Nat.mul_0_r. simpl. apply sublist_app_l. done.
  - change (mjoin (b0 :: bs)) with (b0 ++ mjoin bs).
    replace (length b0 * S q + r)%nat with (length b0 + (length b0 * q + r))%nat by lia.
    rewrite sublist_app_r. by apply IH.
Qed.

Lemma mjoin_length w (bs : list (list Z)) :
  Forall (λ b, length b = w) bs → length (mjoin bs) = (w * length bs)%nat.
Proof.
  induction 1 as [|b bs Hb _ IH]; [simpl; lia|]. change (mjoin (b :: bs)) with (b ++ mjoin bs).
  rewrite length_app, IH, Hb. simpl. lia.
Qed.

Lemma fdata_blocks N V ip : mapped N V ip →
  Forall (λ b, length b = BSIZE)
    ((λ k : nat, V (baddr V ip (Z.of_nat k))) <$> seq 0 (nblocks (i_size ip))).
Proof.
  intros Hm. apply Forall_fmap, Forall_lookup_2. intros i k [-> Hk]%lookup_seq. simpl.
  apply (mp_block _ _ _ Hm). lia.
Qed.

Lemma fdata_length N V ip : mapped N V ip →
  length (fdata V ip (nblocks (i_size ip))) = (BSIZE * nblocks (i_size ip))%nat.
Proof.
  intros Hm. unfold fdata. rewrite (mjoin_length BSIZE) by by eapply fdata_blocks.
  by rewrite length_fmap, length_seq.
Qed.

Lemma sublist_take {A} o m n (l : list A) : (o + m ≤ n)%nat → sublist o m (take n l) = sublist o m l.
Proof. intros. unfold sublist. rewrite skipn_firstn_comm, take_take. by rewrite Nat.min_l by lia. Qed.

Lemma sublist_glue {A} o m m' (l : list A) :
  sublist o m l ++ sublist (o + m) m' l = sublist o (m + m') l.
Proof. unfold sublist. rewrite <-drop_drop. by rewrite take_take_drop. Qed.

(** The bytes of the contents that lie in one block. *)
Lemma contents_block N V ip off m : mapped N V ip → 0 ≤ off → 0 ≤ m → off + m ≤ i_size ip →
  off mod BS + m ≤ BS → 0 < m →
  sublist (Z.to_nat off) (Z.to_nat m) (contents V ip) =
    sublist (Z.to_nat (off mod BS)) (Z.to_nat m) (V (baddr V ip (off / BS))).
Proof.
  intros Hm Ho Hmm Hsz Hb Hpos. unfold contents. rewrite sublist_take by lia.
  pose proof (Z.div_mod off BS ltac:(done)). pose proof (Z.mod_pos_bound off BS ltac:(done)).
  assert (0 ≤ off / BS) by (by apply Z.div_pos).
  assert (off / BS < Z.of_nat (nblocks (i_size ip))).
  { apply nblocks_lt; [apply Hm|done|]. lia. }
  replace (Z.to_nat off) with (BSIZE * Z.to_nat (off / BS) + Z.to_nat (off mod BS))%nat by (unfold BSIZE in *; lia).
  unfold fdata. eapply sublist_mjoin; [by eapply fdata_blocks| |unfold BSIZE in *; lia].
  rewrite list_lookup_fmap, lookup_seq_lt by lia. simpl. by rewrite Z2Nat.id.
Qed.

Lemma contents_length N V ip : mapped N V ip → Z.of_nat (length (contents V ip)) = i_size ip.
Proof.
  intros Hm. unfold contents. rewrite length_take, (fdata_length N) by done.
  pose proof (mp_size _ _ _ Hm). unfold nblocks.
  pose proof (Z.div_mod (i_size ip + BS - 1) BS ltac:(done)).
  pose proof (Z.mod_pos_bound (i_size ip + BS - 1) BS ltac:(done)).
  assert (0 ≤ (i_size ip + BS - 1) / BS) by (apply Z.div_pos; unfold BSIZE in *; lia). lia.
Qed.

(** What reading at an offset of a sequence of bytes gives: the result and the
    bytes stored. *)
Definition file_read (C : list Z) (off n : Z) : Z * list Z :=
  let sz := Z.of_nat (length C) in
  if (sz <? off) || (2 ^ 32 <=? off + n) then (-1, [])
  else let m := Z.min n (sz - off) in (m, sublist (Z.to_nat off) (Z.to_nat m) C).

(** ** [bmap] and [readi] *)

Section Read.
Context {Ext : Type}.
Abbreviation K := (core * (bio * (logst * (list inode * Ext))))%type.
Context (devsw : Z → option ((nat → Z → M K (Z * list Z)) * (nat → list Z → Z → M K Z))).
Implicit Types (c : core) (β : bio) (g : logst) (I : list inode) (x : Ext).

Lemma wp_geti {A} i (f : inode → A) ip Q c β g I x :
  I !! i = Some ip → Q (f ip) (c, (β, (g, (I, x)))) → wp (geti i f) Q (c, (β, (g, (I, x)))).
Proof. intros H HQ. unfold geti. apply wp_bind, wp_gets. simpl. rewrite H. apply wp_bind. by eapply wp_deref. Qed.

Lemma wp_seti i f ip Q c β g I x :
  I !! i = Some ip → Q () (c, (β, (g, (<[i := f ip]> I, x)))) → wp (seti i f) Q (c, (β, (g, (I, x)))).
Proof.
  intros H HQ. unfold seti. apply wp_modify. simpl.
  assert (alter f i I = <[i := f ip]> I) as ->; [|done].
  apply list_eq. intros k. destruct (decide (i = k)) as [->|].
  - rewrite list_lookup_alter_eq, list_lookup_insert_eq by by eapply lookup_lt_Some. by rewrite H.
  - by rewrite list_lookup_alter_ne, list_lookup_insert_ne.
Qed.

(** A state in which only the cache has worked. *)
Definition seen (D : list (list Z)) (T : list (Z * list Z)) (V : Z → list Z)
    (H : gmap nat (Z * bool)) (Dy : gset Z) (c0 : core) g I x (s : K) : Prop :=
  ∃ c β, s = (c, (β, (g, (I, x)))) ∧ only_woken c0 c ∧ cache β D T V H Dy.

Lemma bmap_wp i ip k c β g I x D T V Dy Q :
  cache β D T V ∅ Dy → bio_free c → (size Dy ≤ 8)%nat → I !! i = Some ip →
  mapped (Z.of_nat (length D)) V ip → 0 ≤ k < Z.of_nat (nblocks (i_size ip)) →
  (∀ s, seen D T V ∅ Dy c g I x s → Q (baddr V ip k) s) →
  wp (bmap i k) Q (c, (β, (g, (I, x)))).
Proof.
  intros C Hf Hdy Hi Hm Hk HQ. pose proof (mp_addr _ _ _ Hm k Hk) as Ha.
  pose proof (mp_len _ _ _ Hm) as Hlen.
  unfold bmap, baddr in *. apply wp_bind, (wp_geti _ _ ip); [done|]. rewrite (mp_dev _ _ _ Hm).
  destruct (Z.ltb_spec k NDIRECT) as [Hd|Hd].
  { destruct (aget (i_addrs ip) k) as [a|] eqn:E; [|simpl in Ha; lia]. simpl in *.
    apply wp_bind, (wp_geti _ _ ip); [done|]. rewrite E. apply wp_bind. eapply wp_deref; [done|].
    rewrite (proj2 (Z.eqb_neq a 0)) by lia. apply wp_ret, HQ. eexists _, _. split_and!; [done|apply only_woken_refl|done]. }
  destruct (Z.ltb_spec (k - NDIRECT) NINDIRECT) as [Hn|Hn]; [|lia].
  pose proof (mp_ind _ _ _ Hm) as Hind.
  assert (NDIRECT * BS < i_size ip) as Hbig.
  { pose proof (nblocks_bound (i_size ip) k ltac:(apply Hm) ltac:(lia)). unfold NDIRECT, BSIZE in *. lia. }
  specialize (Hind Hbig). set (ia := default 0 (aget (i_addrs ip) NDIRECT)) in *.
  assert (Eia : aget (i_addrs ip) NDIRECT = Some ia).
  { unfold ia. destruct (aget (i_addrs ip) NDIRECT) eqn:E; [done|]. unfold aget in E. simpl in E.
    apply lookup_ge_None in E. change (Z.to_nat NDIRECT) with 12%nat in E. lia. }
  apply wp_bind, (wp_geti _ _ ip); [done|]. rewrite Eia. apply wp_bind. eapply wp_deref; [done|].
  rewrite (proj2 (Z.eqb_neq ia 0)) by lia. apply wp_bind, wp_ret, wp_bind.
  eapply (cache_bread c (g, (I, x))); [exact C|done|lia|intros b st; by rewrite lookup_empty| |].
  { rewrite dom_empty_L, size_empty. unfold NBUF. lia. }
  intros b β1 Hb C1. apply wp_bind.
  eapply (cache_read c (g, (I, x))); [exact C1|by rewrite lookup_insert_eq|]. intros y Hyd _ _. rewrite Hyd.
  apply wp_bind. eapply wp_deref.
  { instantiate (1 := default 0 (word_at (Z.to_nat (k - NDIRECT)) (V ia))).
    destruct (word_at (Z.to_nat (k - NDIRECT)) (V ia)) eqn:E; [done|]. simpl in Ha. lia. }
  rewrite (proj2 (Z.eqb_neq (default _ _) 0)) by lia. apply wp_bind, wp_ret, wp_bind.
  eapply (cache_brelse c (g, (I, x))); [exact C1|done|by rewrite lookup_insert_eq|].
  intros c2 β2 W C2. apply wp_ret, HQ. eexists _, _. split_and!; [done|done|].
  by rewrite delete_insert_id in C2.
Qed.

Lemma readi_loop_wp i ip off n c β g I x D T V Dy fuel : ∀ c1 β1 off1 tot acc,
  cache β1 D T V ∅ Dy → only_woken c c1 → bio_free c → (size Dy ≤ 8)%nat → I !! i = Some ip →
  mapped (Z.of_nat (length D)) V ip → 0 ≤ off → 0 ≤ tot ≤ n → off1 = off + tot → off + n ≤ i_size ip →
  acc = sublist (Z.to_nat off) (Z.to_nat tot) (contents V ip) →
  (0 < fuel)%nat → (tot < n → (Z.to_nat ((n - tot + off1 mod BS + BS - 1) / BS) < fuel)%nat) →
  wp (readi_loop fuel i off1 n tot acc)
    (λ r s, r = (i32 n, sublist (Z.to_nat off) (Z.to_nat n) (contents V ip)) ∧
       seen D T V ∅ Dy c g I x s) (c1, (β1, (g, (I, x)))).
Proof.
  induction fuel as [|fuel IH]; intros c1 β1 off1 tot acc C W Hf Hdy Hi Hm Ho Ht -> Hsz -> Hf0 Hfuel; [lia|].
  cbn [readi_loop]. destruct (Z.ltb_spec tot n) as [Hlt|Hge].
  2:{ apply wp_ret. split; [by replace tot with n by lia|]. by eexists _, _. }
  pose proof (Z.mod_pos_bound (off + tot) BS ltac:(done)) as Hmod.
  pose proof (Z.div_mod (off + tot) BS ltac:(done)) as Hdm.
  assert (Hq : 0 ≤ (off + tot) / BS) by (apply Z.div_pos; lia).
  assert (Hk : 0 ≤ (off + tot) / BS < Z.of_nat (nblocks (i_size ip))).
  { split; [done|]. apply nblocks_lt; [apply Hm|done|lia]. }
  apply wp_bind, (wp_geti _ _ ip); [done|]. rewrite (mp_dev _ _ _ Hm). apply wp_bind.
  eapply bmap_wp; [exact C|by eapply bio_free_woken|done|done|done|done|].
  intros s (c2 & β2 & -> & W2 & C2). pose proof (only_woken_trans _ _ _ W W2) as W12.
  pose proof (bio_free_woken _ _ W12 Hf) as Hf2. pose proof (mp_addr _ _ _ Hm _ Hk) as Ha.
  apply wp_bind. eapply (cache_bread c2 (g, (I, x))); [exact C2|done|lia|intros b st; by rewrite lookup_empty| |].
  { rewrite dom_empty_L, size_empty. unfold NBUF. lia. }
  intros b β3 Hb C3. apply wp_bind.
  eapply (cache_read c2 (g, (I, x))); [exact C3|by rewrite lookup_insert_eq|]. intros y Hyd _ _. rewrite Hyd.
  apply wp_bind. eapply (cache_brelse c2 (g, (I, x))); [exact C3|done|by rewrite lookup_insert_eq|].
  intros c4 β4 W4 C4. rewrite delete_insert_id in C4 by done.
  set (m := Z.min (n - tot) (BS - (off + tot) mod BS)).
  assert (Hm1 : 1 ≤ m ≤ n - tot ∧ (off + tot) mod BS + m ≤ BS) by (unfold m; lia).
  rewrite <-(contents_block _ V ip (off + tot) m) by (done || lia).
  eapply wp_mono; [eapply (IH c4 β4); try done|].
  - by eapply only_woken_trans.
  - lia.
  - lia.
  - replace (Z.to_nat (tot + m)) with (Z.to_nat tot + Z.to_nat m)%nat by lia.
    rewrite <-sublist_glue. do 2 f_equal. lia.
  - specialize (Hfuel Hlt).
    assert (1 ≤ (n - tot + (off + tot) mod BS + BS - 1) / BS); [|lia].
    apply Z.div_le_lower_bound; unfold BSIZE in *; lia.
  - intros Hrest. specialize (Hfuel Hlt). assert (E : (off + tot) mod BS + m = BS) by (unfold m in *; lia).
    replace ((off + tot + m) mod BS) with 0.
    2:{ symmetry. replace (off + tot + m) with ((1 + (off + tot) / BS) * BS) by lia. by apply Z.mod_mul. }
    replace (n - tot + (off + tot) mod BS + BS - 1) with ((n - (tot + m) + 0 + BS - 1) + 1 * BS) in Hfuel by lia.
    rewrite Z.div_add in Hfuel by done.
    assert (0 ≤ (n - (tot + m) + 0 + BS - 1) / BS) by (apply Z.div_pos; unfold BSIZE in *; lia). lia.
  - done.
Qed.

Lemma readi_wp i ip off n c β g I x D T V Dy :
  cache β D T V ∅ Dy → bio_free c → (size Dy ≤ 8)%nat → I !! i = Some ip →
  mapped (Z.of_nat (length D)) V ip → 0 ≤ off < 2 ^ 32 → 0 ≤ n < 2 ^ 32 →
  wp (readi devsw i off n)
    (λ r s, r = file_read (contents V ip) off n ∧ seen D T V ∅ Dy c g I x s)
    (c, (β, (g, (I, x)))).
Proof.
  intros C Hf Hdy Hi Hm Ho Hn. pose proof (mp_size _ _ _ Hm) as Hsz.
  change (MAXFILE * BS) with 71680 in Hsz.
  assert (Hself : seen D T V ∅ Dy c g I x (c, (β, (g, (I, x)))))
    by (eexists _, _; split_and!; [done|apply only_woken_refl|done]).
  unfold readi, file_read. rewrite (contents_length _ _ _ Hm).
  apply wp_bind, (wp_geti _ _ ip); [done|]. rewrite (proj2 (Z.eqb_neq _ _) (mp_type _ _ _ Hm)).
  apply wp_bind, (wp_geti _ _ ip); [done|].
  destruct (Z.ltb_spec (i_size ip) off) as [|Hin]; cbn [orb]; [by apply wp_ret|].
  assert (Hov : (u32 (off + n) <? off) = (2 ^ 32 <=? off + n)).
  { apply Bool.eq_iff_eq_true. rewrite Z.ltb_lt, Z.leb_le. unfold u32.
    destruct (decide (off + n < 2 ^ 32)); [rewrite Z.mod_small; lia|].
    rewrite Z.mod_eq by done. replace ((off + n) / 2 ^ 32) with 1; [lia|].
    apply Z.div_unique with (off + n - 2 ^ 32); lia. }
  rewrite Hov. destruct (Z.leb_spec (2 ^ 32) (off + n)) as [|Hno]; [by apply wp_ret|].
  rewrite (u32_small (off + n)) by lia.
  set (m := if i_size ip <? off + n then u32 (i_size ip - off) else n).
  assert (Em : m = Z.min n (i_size ip - off)).
  { unfold m. destruct (Z.ltb_spec (i_size ip) (off + n)); [rewrite u32_small|]; lia. }
  clearbody m. subst m. set (m := Z.min n (i_size ip - off)) in *.
  assert (Hmr : 0 ≤ m ≤ i_size ip - off) by (unfold m; lia).
  eapply wp_mono; [eapply (readi_loop_wp i ip off m c β g I x D T V Dy _ c β off 0 []); try done; try lia|].
  - apply only_woken_refl.
  - intros _. rewrite Z.sub_0_r. pose proof (Z.mod_pos_bound off BS ltac:(done)).
    assert ((m + off mod BS + BS - 1) / BS ≤ m / BS + 2).
    { apply Z.lt_succ_r, Z.div_lt_upper_bound; [done|].
      pose proof (Z.div_mod m BS ltac:(done)). pose proof (Z.mod_pos_bound m BS ltac:(done)). lia. }
    assert (0 ≤ m / BS) by (apply Z.div_pos; lia). lia.
  - intros r s [-> Hs]. split; [|done]. rewrite i32_small by lia. done.
Qed.

End Read.
