(* ===== verification/FsWrite.v ===== *)
(** * Overwriting a file (fs.c)

    [writei] within the size of a file, in a transaction: the contents change
    exactly at the bytes written, and reading them back gives them. *)
From S2P Require Import Prelude Spinlock Core Bio BioFacts Cache Log LogFacts Tx Fs FsInode FsAlloc FsFile.

(** ** Contents, byte by byte *)

Lemma contents_lookup N V ip (j : nat) : mapped N V ip → Z.of_nat j < i_size ip →
  contents V ip !! j = V (baddr V ip (Z.of_nat j / BS)) !! Z.to_nat (Z.of_nat j mod BS).
Proof.
  intros Hm Hj. pose proof (Z.mod_pos_bound (Z.of_nat j) BS ltac:(done)).
  pose proof (contents_block N V ip (Z.of_nat j) 1 Hm ltac:(lia) ltac:(lia) ltac:(lia) ltac:(lia) ltac:(lia)) as E.
  rewrite Nat2Z.id in E. change (Z.to_nat 1) with 1%nat in E.
  rewrite <-(Nat.add_0_r j) at 1. rewrite <-(sublist_lookup j 1 (contents V ip) 0) by lia. rewrite E.
  rewrite sublist_lookup by lia. by rewrite Nat.add_0_r.
Qed.

(** Two adjacent pieces. *)
Lemma splice_glue {A} o (a b l : list A) : (o + length a + length b ≤ length l)%nat →
  splice (o + length a) b (splice o a l) = splice o (a ++ b) l.
Proof.
  intros H. assert (Ha : (o + length a ≤ length l)%nat) by lia.
  apply list_eq. intros i. destruct (decide (o ≤ i < o + length (a ++ b))%nat) as [Hi|Hi].
  - rewrite (splice_lookup_new o (a ++ b)) by (rewrite ?length_app in *; lia).
    destruct (decide (i < o + length a)%nat).
    + rewrite splice_lookup_old by (rewrite ?splice_length; lia). rewrite splice_lookup_new by lia.
      rewrite lookup_app_l by lia. done.
    + rewrite length_app in Hi. rewrite splice_lookup_new by (rewrite ?splice_length; lia).
      rewrite lookup_app_r by lia. f_equal. lia.
  - rewrite (splice_lookup_old o (a ++ b)) by (rewrite ?length_app in *; lia). rewrite length_app in Hi.
    rewrite splice_lookup_old by (rewrite ?splice_length; lia). rewrite splice_lookup_old by lia. done.
Qed.

Lemma splice_nil {A} o (l : list A) : splice o [] l = l.
Proof. unfold splice. simpl. rewrite Nat.add_0_r. apply take_drop. Qed.

Section Write.
Context {Ext : Type} (st sz : Z) (D0 : list (list Z)) (T0 : list (Z * list Z)).
Abbreviation K := (core * (bio * (logst * (list inode * Ext))))%type.
Abbreviation hm := (home st sz (length D0)).
Abbreviation N := (Z.of_nat (length D0)).
Context (devsw : Z → option ((nat → Z → M K (Z * list Z)) * (nat → list Z → Z → M K Z))).

(** A file that can be written without allocating: mapped, outside the log, no
    block used twice. *)
Record wfile (V : Z → list Z) (ip : inode) : Prop := {
  wf_mapped : mapped N V ip;
  wf_home k : 0 ≤ k < Z.of_nat (nblocks (i_size ip)) → hm (baddr V ip k);
  wf_inj j k : 0 ≤ j < Z.of_nat (nblocks (i_size ip)) → 0 ≤ k < Z.of_nat (nblocks (i_size ip)) →
    baddr V ip j = baddr V ip k → j = k;
  wf_ind : NDIRECT * BS < i_size ip → hm (default 0 (aget (i_addrs ip) NDIRECT));
  wf_noind k : NDIRECT * BS < i_size ip → 0 ≤ k < Z.of_nat (nblocks (i_size ip)) →
    baddr V ip k ≠ default 0 (aget (i_addrs ip) NDIRECT) }.

Section Block.
Context (V V' : Z → list Z) (ip : inode) (q : Z) (r : nat) (piece : list Z).
Hypothesis W : wfile V ip.
Hypothesis Hq : 0 ≤ q < Z.of_nat (nblocks (i_size ip)).
Hypothesis Hr : (r + length piece ≤ BSIZE)%nat.
Hypothesis Hbytes : Forall is_byte piece.
Hypothesis HV : V' (baddr V ip q) = splice r piece (V (baddr V ip q)).
Hypothesis Hs : same_but st sz D0 V V' (eq (baddr V ip q)).

Lemma write_baddr k : 0 ≤ k < Z.of_nat (nblocks (i_size ip)) → baddr V' ip k = baddr V ip k.
Proof.
  intros Hk. unfold baddr. destruct (Z.ltb_spec k NDIRECT) as [|Hd]; [done|].
  destruct (Z.ltb_spec (k - NDIRECT) NINDIRECT) as [Hn|]; [|done].
  assert (Hbig : NDIRECT * BS < i_size ip).
  { pose proof (mp_size _ _ _ (wf_mapped _ _ W)).
    pose proof (nblocks_bound (i_size ip) k ltac:(lia) ltac:(lia)). unfold NDIRECT, BSIZE in *. lia. }
  rewrite Hs; [done|by apply (wf_ind V ip W)|]. intros E. by apply (wf_noind V ip W q Hbig Hq).
Qed.

Lemma write_block k : 0 ≤ k < Z.of_nat (nblocks (i_size ip)) →
  V' (baddr V' ip k) = if decide (k = q) then splice r piece (V (baddr V ip q)) else V (baddr V ip k).
Proof.
  intros Hk. rewrite write_baddr by done. case_decide as E; [by subst|].
  apply Hs; [by apply (wf_home V ip W)|]. intros E'. apply E. by apply (wf_inj V ip W).
Qed.

Lemma written_block : block_ok (splice r piece (V (baddr V ip q))).
Proof.
  destruct (mp_block _ _ _ (wf_mapped _ _ W) q Hq) as [Hl Hb]. split.
  - rewrite splice_length; lia.
  - by apply splice_bytes.
Qed.

Lemma write_wfile : wfile V' ip.
Proof.
  pose proof W as [[M1 M2 M3 M4 M5 M6 M7] W2 W3 W4 W5]. constructor; try done.
  - constructor; try done.
    + intros k Hk. rewrite write_baddr by done. by apply M6.
    + intros k Hk. rewrite write_block by done. case_decide; [apply written_block|by apply M7].
  - intros k Hk. rewrite write_baddr by done. by apply W2.
  - intros j k Hj Hk. rewrite !write_baddr by done. by apply W3.
  - intros k Hb Hk. rewrite write_baddr by done. by apply W5.
Qed.

Lemma write_contents :
  q * BS + Z.of_nat r + Z.of_nat (length piece) ≤ i_size ip →
  contents V' ip = splice (Z.to_nat (q * BS + Z.of_nat r)) piece (contents V ip).
Proof.
  intros Hsz. pose proof (wf_mapped _ _ W) as Hm. pose proof (wf_mapped _ _ write_wfile) as Hm'.
  pose proof (mp_size _ _ _ Hm) as Hs0.
  pose proof (contents_length _ _ _ Hm) as Hl. pose proof (contents_length _ _ _ Hm') as Hl'.
  destruct (mp_block _ _ _ Hm q Hq) as [Hbl _].
  apply list_eq. intros j. destruct (decide (Z.of_nat j < i_size ip)) as [Hj|Hj].
  2:{ rewrite !lookup_ge_None_2; [done| |lia]. rewrite splice_length; lia. }
  rewrite (contents_lookup _ _ _ _ Hm' Hj).
  pose proof (Z.mod_pos_bound (Z.of_nat j) BS ltac:(done)) as Hmod.
  pose proof (Z.div_mod (Z.of_nat j) BS ltac:(done)) as Hdm.
  assert (Hk : 0 ≤ Z.of_nat j / BS < Z.of_nat (nblocks (i_size ip))).
  { split; [apply Z.div_pos; lia|]. apply nblocks_lt; [lia|apply Z.div_pos; lia|lia]. }
  rewrite write_block by done. case_decide as E.
  - destruct (decide (r ≤ Z.to_nat (Z.of_nat j mod BS) < r + length piece)%nat) as [Hin|Hin].
    + rewrite splice_lookup_new by lia. rewrite splice_lookup_new by lia. f_equal. lia.
    + rewrite splice_lookup_old by lia. rewrite splice_lookup_old by lia.
      rewrite (contents_lookup _ _ _ _ Hm Hj). by rewrite E.
  - rewrite splice_lookup_old; [by rewrite (contents_lookup _ _ _ _ Hm Hj)|lia|]. 
    intros Hin. apply E. symmetry. apply Z.div_unique with (Z.of_nat j - q * BS); lia.
Qed.

End Block.
Implicit Types (c : core) (β : bio) (g : logst) (I : list inode) (x : Ext).

(** The blocks a write of [n] bytes at [off] touches. *)
Definition touched (off n : Z) : Z := (off mod BS + n + BS - 1) / BS.

Lemma touched_nonneg off n : 0 ≤ n → 0 ≤ touched off n.
Proof.
  intros. unfold touched. pose proof (Z.mod_pos_bound off BS ltac:(done)).
  apply Z.div_pos; unfold BSIZE in *; lia.
Qed.

(** A write that goes on past a block. *)
Lemma touched_next off n : let m := Z.min n (BS - off mod BS) in m < n →
  touched off n = touched (off + m) (n - m) + 1.
Proof.
  intros m Hm. assert (E : off mod BS + m = BS) by (unfold m in *; lia). unfold touched.
  assert (E0 : (off + m) mod BS = 0).
  { pose proof (Z.div_mod off BS ltac:(done)).
    replace (off + m) with ((1 + off / BS) * BS) by lia. by apply Z.mod_mul. }
  rewrite E0. rewrite <-(Z.div_add _ 1 BS) by done. f_equal. lia.
Qed.

Lemma bmap_intx_wp i ip k c β g I x V ss Q :
  intx st sz D0 T0 ∅ V ss c β g → (length ss ≤ 8)%nat → I !! i = Some ip →
  mapped N V ip → 0 ≤ k < Z.of_nat (nblocks (i_size ip)) →
  (∀ c' β', only_woken c c' → intx st sz D0 T0 ∅ V ss c' β' g →
     Q (baddr V ip k) (c', (β', (g, (I, x))))) →
  wp (bmap i k) Q (c, (β, (g, (I, x)))).
Proof.
  intros X Hl Hi Hm Hk HQ. pose proof (intx_dirty _ _ _ _ _ _ _ _ _ _ X) as Hd.
  destruct X as (D & T & C & X & Hf & G & L). pose proof (txinv_len _ _ _ _ _ _ _ X) as HlD.
  eapply bmap_wp; [exact C|done|rewrite Hd; lia|done|by rewrite HlD|done|].
  intros s (c' & β' & -> & W & C'). apply HQ; [done|]. exists D, T.
  split_and!; try done. by eapply bio_free_woken.
Qed.

Lemma writei_loop_wp i ip off n src c I x V fuel : ∀ c1 β1 g1 V1 ss1 off1 tot,
  intx st sz D0 T0 ∅ V1 ss1 c1 β1 g1 → only_woken c c1 → (length ss1 ≤ 8)%nat → I !! i = Some ip →
  wfile V ip → wfile V1 ip → 0 ≤ off → 0 ≤ tot ≤ n → off1 = off + tot → off + n ≤ i_size ip →
  n ≤ Z.of_nat (length src) → Forall is_byte src →
  contents V1 ip = splice (Z.to_nat off) (take (Z.to_nat tot) src) (contents V ip) →
  (∀ k, 0 ≤ k < Z.of_nat (nblocks (i_size ip)) → baddr V1 ip k = baddr V ip k) →
  same_but st sz D0 V V1 (λ m, ∃ k, 0 ≤ k < Z.of_nat (nblocks (i_size ip)) ∧ m = baddr V ip k) →
  (0 < fuel)%nat → (tot < n → (Z.to_nat (touched off1 (n - tot)) < fuel)%nat) →
  (tot < n → room sz ss1 (Z.to_nat (touched off1 (n - tot)))) →
  wp (writei_loop fuel i src off1 n tot)
    (λ r s, r = off + n ∧ ∃ c' β' g' V' ss', s = (c', (β', (g', (I, x)))) ∧ only_woken c c' ∧
       intx st sz D0 T0 ∅ V' ss' c' β' g' ∧ (length ss' ≤ 8)%nat ∧ wfile V' ip ∧
       contents V' ip = splice (Z.to_nat off) (take (Z.to_nat n) src) (contents V ip) ∧
       same_but st sz D0 V V' (λ m, ∃ k, 0 ≤ k < Z.of_nat (nblocks (i_size ip)) ∧ m = baddr V ip k))
    (c1, (β1, (g1, (I, x)))).
Proof.
  induction fuel as [|fuel IH]; intros c1 β1 g1 V1 ss1 off1 tot X W Hl8 Hi F0 F Ho Ht -> Hsz Hsrc Hby Hc Hba Hsb Hf0 Hfuel Hroom; [lia|].
  pose proof (wf_mapped _ _ F) as Hm. pose proof (wf_mapped _ _ F0) as Hm0.
  pose proof (contents_length _ _ _ Hm0) as Hlen0.
  cbn [writei_loop]. destruct (Z.ltb_spec tot n) as [Hlt|Hge].
  2:{ apply wp_ret. split; [lia|]. exists c1, β1, g1, V1, ss1. split_and!; try done. by replace n with tot by lia. }
  specialize (Hfuel Hlt). specialize (Hroom Hlt).
  pose proof (Z.mod_pos_bound (off + tot) BS ltac:(done)) as Hmod.
  pose proof (Z.div_mod (off + tot) BS ltac:(done)) as Hdm.
  assert (Hq : 0 ≤ (off + tot) / BS) by (apply Z.div_pos; lia).
  assert (Hk : 0 ≤ (off + tot) / BS < Z.of_nat (nblocks (i_size ip))).
  { split; [done|]. apply nblocks_lt; [apply Hm|done|lia]. }
  assert (Ht1 : 1 ≤ touched (off + tot) (n - tot)).
  { unfold touched. apply Z.div_le_lower_bound; unfold BSIZE in *; lia. }
  pose proof (wf_home _ _ F _ Hk) as Hhm.
  set (q := (off + tot) / BS) in *. set (r := Z.to_nat ((off + tot) mod BS)).
  set (m := Z.min (n - tot) (BS - (off + tot) mod BS)).
  assert (Hm1 : 1 ≤ m ≤ n - tot ∧ (off + tot) mod BS + m ≤ BS) by (unfold m; lia).
  set (piece := sublist (Z.to_nat tot) (Z.to_nat m) src).
  assert (Hpl : length piece = Z.to_nat m) by (apply sublist_length; lia).
  assert (Hpb : Forall is_byte piece) by (by apply Forall_take, Forall_drop).
  apply wp_bind, (wp_geti _ _ ip); [done|]. rewrite (mp_dev _ _ _ Hm). apply wp_bind.
  eapply bmap_intx_wp; [exact X|apply proj1 in Hroom; lia|done|done|done|].
  intros c2 β2 W2 X2. apply wp_bind.
  eapply intx_bread; [exact X2|apply Hhm|intros b f; by rewrite lookup_empty|rewrite dom_empty_L, size_empty; lia|apply proj1 in Hroom; lia|].
  intros b β3 _ X3. apply wp_modify_bind.
  eapply (intx_modify st sz D0 T0 c2 β3 g1 (I, x) V1 ss1 b (baddr V1 ip q) (splice r piece));
    [exact X3|done|apply (written_block V1 ip q r piece); [done|done|rewrite Hpl; unfold r; lia|done]
    |apply (room_weak sz ss1 (Z.to_nat (touched (off + tot) (n - tot))) 1); [lia|done]|].
  intros c4 β4 g4 V4 W4 X4 HV4 Hs4.
  assert (Hrl : (r + length piece ≤ BSIZE)%nat) by (rewrite Hpl; unfold r; lia).
  pose proof (write_wfile V1 V4 ip q r piece F Hk Hrl Hpb HV4 Hs4) as F4.
  pose proof (write_contents V1 V4 ip q r piece F Hk Hrl Hpb HV4 Hs4 ltac:(unfold r; lia)) as Hc4.
  fold m.
  eapply (IH c4 β4 g4 V4 (add_sector ss1 (baddr V1 ip q))); try done; try lia.
  - by do 2 (eapply only_woken_trans; [done|]).
  - pose proof (add_sector_length ss1 (baddr V1 ip q)). apply proj1 in Hroom. lia.
  - rewrite Hc4, Hc. replace (Z.to_nat (q * BS + Z.of_nat r)) with (Z.to_nat off + length (take (Z.to_nat tot) src))%nat.
    2:{ rewrite length_take_le by lia. unfold r, q. lia. }
    rewrite splice_glue by (rewrite ?length_take_le by lia; lia). f_equal.
    unfold piece, sublist. rewrite take_take_drop. f_equal. lia.
  - intros k Hk'. rewrite <-Hba by done. by apply (write_baddr V1 V4 ip q r piece).
  - intros m' Hm' Hno. rewrite Hs4; [by apply Hsb|done|]. intros <-. apply Hno. exists q. split; [done|]. by apply Hba.
  - intros Hrest. rewrite touched_next in Hfuel by (fold m; lia). fold m in Hfuel.
    replace (n - (tot + m)) with (n - tot - m) by lia.
    assert (0 ≤ touched (off + tot + m) (n - tot - m)) by (apply touched_nonneg; lia). lia.
  - intros Hrest. apply room_add. rewrite touched_next in Hroom by (fold m; lia). fold m in Hroom.
    assert (0 ≤ touched (off + tot + m) (n - tot - m)) by (apply touched_nonneg; lia).
    replace (n - (tot + m)) with (n - tot - m) by lia.
    by replace (S (Z.to_nat (touched (off + tot + m) (n - tot - m))))
      with (Z.to_nat (touched (off + tot + m) (n - tot - m) + 1)) by lia.
Qed.

Lemma writei_wp i ip off n src c β g I x V ss :
  intx st sz D0 T0 ∅ V ss c β g → I !! i = Some ip → wfile V ip →
  0 ≤ off → 0 ≤ n → off + n ≤ i_size ip → n ≤ Z.of_nat (length src) → Forall is_byte src →
  room sz ss (Z.to_nat (touched off n)) →
  wp (writei devsw i src off n)
    (λ r s, r = n ∧ ∃ c' β' g' V' ss', s = (c', (β', (g', (I, x)))) ∧ only_woken c c' ∧
       intx st sz D0 T0 ∅ V' ss' c' β' g' ∧ (length ss' ≤ 8)%nat ∧ wfile V' ip ∧ 
       contents V' ip = splice (Z.to_nat off) (take (Z.to_nat n) src) (contents V ip) ∧
       same_but st sz D0 V V' (λ m, ∃ k, 0 ≤ k < Z.of_nat (nblocks (i_size ip)) ∧ m = baddr V ip k))
    (c, (β, (g, (I, x)))).
Proof.
  intros X Hi F Ho Hn Hsz Hsrc Hby Hroom. pose proof (wf_mapped _ _ F) as Hm.
  pose proof (mp_size _ _ _ Hm) as Hs. change (MAXFILE * BS) with 71680 in Hs.
  unfold writei. apply wp_bind, (wp_geti _ _ ip); [done|].
  rewrite (proj2 (Z.eqb_neq _ _) (mp_type _ _ _ Hm)). apply wp_bind, (wp_geti _ _ ip); [done|].
  rewrite (u32_small (off + n)) by lia.
  rewrite (proj2 (Z.ltb_ge (i_size ip) off)), (proj2 (Z.ltb_ge (off + n) off)) by lia. cbn [orb].
  change (MAXFILE * BS) with 71680. rewrite (proj2 (Z.ltb_ge 71680 (off + n))) by lia. apply wp_bind.
  eapply wp_mono; [eapply (writei_loop_wp i ip off n src c I x V _ c β g V ss off 0);
    try done; try lia; [apply only_woken_refl|apply proj1 in Hroom; lia|change (take (Z.to_nat 0) src) with (@nil Z); by rewrite splice_nil|..]|].
  - intros _. rewrite Z.sub_0_r. unfold touched. pose proof (Z.mod_pos_bound off BS ltac:(done)).
    assert ((off mod BS + n + BS - 1) / BS ≤ n / BS + 2).
    { apply Z.lt_succ_r, Z.div_lt_upper_bound; [done|].
      pose proof (Z.div_mod n BS ltac:(done)). pose proof (Z.mod_pos_bound n BS ltac:(done)). lia. }
    assert (0 ≤ n / BS) by (apply Z.div_pos; lia). lia.
  - by rewrite Z.sub_0_r.
  - intros r s (-> & c' & β' & g' & V' & ss' & -> & W & X' & Hl' & F' & Hc & Hsb).
    apply wp_bind, (wp_geti _ _ ip); [done|].
    rewrite (proj2 (Z.ltb_ge (i_size ip) (off + n))) by lia. rewrite andb_false_r. apply wp_bind, wp_ret, wp_ret.
    rewrite i32_small by lia. split; [done|]. by exists c', β', g', V', ss'.
Qed.

End Write.

(** C8. In a transaction with room for the blocks it touches, [writei] within
    the size of a file replaces exactly the bytes [off] to [off + n] of its
    contents; no block but the file's changes, and [readi] then returns the
    bytes written. *)
Theorem write_read_roundtrip {Ext} st sz D0 T0 devsw i ip off n src c β g I (x : Ext) V ss :
  intx st sz D0 T0 ∅ V ss c β g → I !! i = Some ip → wfile st sz D0 V ip →
  0 ≤ off → 0 ≤ n → off + n ≤ i_size ip → n ≤ Z.of_nat (length src) → Forall is_byte src →
  room sz ss (Z.to_nat (touched off n)) →
  wp (r ← writei devsw i src off n; r' ← readi devsw i off n; mret (r, r'))
    (λ r s, r = (n, (n, take (Z.to_nat n) src)) ∧
       ∃ c' β' g' V' ss', s = (c', (β', (g', (I, x)))) ∧ intx st sz D0 T0 ∅ V' ss' c' β' g' ∧
       wfile st sz D0 V' ip ∧
       contents V' ip = splice (Z.to_nat off) (take (Z.to_nat n) src) (contents V ip) ∧
       same_but st sz D0 V V' (λ m, ∃ k, 0 ≤ k < Z.of_nat (nblocks (i_size ip)) ∧ m = baddr V ip k))
    (c, (β, (g, (I, x)))).
Proof.
  intros X Hi F Ho Hn Hsz Hsrc Hby Hroom. apply wp_bind.
  eapply wp_mono; [by eapply writei_wp|].
  intros r s (-> & c' & β' & g' & V' & ss' & -> & W & X' & Hl' & F' & Hc & Hsb). apply wp_bind.
  pose proof (wf_mapped _ _ _ _ _ F') as Hm'. pose proof (mp_size _ _ _ Hm') as Hs.
  change (MAXFILE * BS) with 71680 in Hs.
  pose proof X' as (D & T & C & TX & Hf & G & L). pose proof (txinv_len _ _ _ _ _ _ _ TX) as HlD.
  pose proof (intx_dirty _ _ _ _ _ _ _ _ _ _ X') as Hd.
  eapply wp_mono.
  { eapply (readi_wp devsw i ip off n c' β' g' I x); [exact C|done|by rewrite Hd|done|by rewrite HlD|lia|lia]. }
  intros r' s (-> & c2 & β2 & -> & W2 & C2). apply wp_ret. split.
  - f_equal. unfold file_read. rewrite (contents_length _ _ _ Hm'), Hc.
    rewrite (proj2 (Z.ltb_ge (i_size ip) off)), (proj2 (Z.leb_gt (2 ^ 32) (off + n))) by lia. cbn [orb].
    rewrite Z.min_l by lia. f_equal.
    pose proof (contents_length _ _ _ (wf_mapped _ _ _ _ _ F)) as Hl.
    replace (Z.to_nat n) with (length (take (Z.to_nat n) src)) at 1 by (rewrite length_take_le; lia).
    apply sublist_splice. rewrite length_take_le; lia.
  - exists c2, β2, g', V', ss'. split_and!; try done. exists D, T. split_and!; try done.
    by eapply bio_free_woken.
Qed.

(** A file of five bytes in block 4. *)
Definition ex_ip : inode := mkInode ROOTDEV 2 1 3 T_FILE 0 0 1 5 (4 :: replicate 12 0).
Definition ex_devsw {K : Type} : Z → option ((nat → Z → M K (Z * list Z)) * (nat → list Z → Z → M K Z)) :=
  λ _, None.

Lemma ex_wfile : wfile 6 10 (ex_disk 31 255) (dview (ex_disk 31 255)) ex_ip.
Proof.
  assert (Hk : ∀ k, 0 ≤ k < Z.of_nat (nblocks (i_size ex_ip)) → k = 0).
  { intros k Hk. change (Z.of_nat (nblocks (i_size ex_ip))) with 1 in Hk. lia. }
  constructor.
  - constructor; try done.
    + intros k ->%Hk. split; [reflexivity|]. change (baddr _ ex_ip 0) with 4.
      assert (length (ex_disk 31 255) = 16%nat) as -> by reflexivity. lia.
    + intros k ->%Hk. change (baddr _ ex_ip 0) with 4.
      by apply (Forall_lookup_1 _ _ 4%nat _ (ex_disk_blocks 31 255 ltac:(done) ltac:(done))).
  - intros k ->%Hk. by apply ex_home.
  - by intros j k ->%Hk ->%Hk _.
  - done.
  - done.
Qed.

Lemma write_read_roundtrip_witness :
  ∃ s, (r ← writei ex_devsw 0 [72; 105] 2 2; r' ← readi ex_devsw 0 2 2; mret (r, r'))
    (core0, (ex_bio 31 255, (ex_log, ([ex_ip], ())))) = Ret (2, (2, [72; 105])) s.
Proof.
  assert (Hroom : room 10 [] (Z.to_nat (touched 2 2)))
    by (change (Z.to_nat (touched 2 2)) with 1%nat; split; simpl; lia).
  pose proof (write_read_roundtrip 6 10 (ex_disk 31 255) [] ex_devsw 0 ex_ip 2 2 [72; 105]
    core0 (ex_bio 31 255) ex_log [ex_ip] () (dview (ex_disk 31 255)) []
    (ex_intx 31 255 ltac:(done) ltac:(done)) eq_refl ex_wfile ltac:(lia) ltac:(lia) ltac:(simpl; lia)
    ltac:(simpl; lia) ltac:(repeat constructor; lia) Hroom) as H.
  destruct (proj1 (wp_Ret _ _ _) H) as (r & s & Hr & Er & _). rewrite Er in Hr. exists s. exact Hr.
Defined.
