(* ===== verification/FsIcache.v ===== *)
(** * The inode cache (fs.c)

    Reference counts.  [rstep] is the use fs.c's clients make of the cache: they
    get, duplicate, lock, unlock and put inode pointers.  The invariant is that
    the count of an entry is the number of pointers to it, that pointers stay
    pointers to the inode they were got for, and that an inode has one entry. *)
From S2P Require Import Prelude Spinlock Core Bio Log Fs Frame.

(** ** The search *)

Definition hits (dev inum : Z) (ip : inode) : Prop := 0 < i_ref ip ∧ i_dev ip = dev ∧ i_inum ip = inum.

Lemma iget_scan_spec dev inum l : ∀ k e,
  match iget_scan l k e dev inum with
  | (Some i, _) => ∃ ip, (k ≤ i)%nat ∧ l !! (i - k)%nat = Some ip ∧ hits dev inum ip
  | (None, e') => (∀ ip, ip ∈ l → ¬ hits dev inum ip) ∧
      match e' with
      | Some i => e = Some i ∨ ∃ ip, (k ≤ i)%nat ∧ l !! (i - k)%nat = Some ip ∧ i_ref ip = 0
      | None => e = None ∧ ∀ ip, ip ∈ l → i_ref ip ≠ 0
      end
  end.
Proof.
  induction l as [|ip l IH]; intros k e; simpl.
  { split; [by intros ip ?%not_elem_of_nil|]. destruct e; [by left|]. split; [done|by intros ip ?%not_elem_of_nil]. }
  destruct ((0 <? i_ref ip) && (i_dev ip =? dev) && (i_inum ip =? inum)) eqn:E.
  { zify_bool. exists ip. rewrite Nat.sub_diag. split_and!; [lia|done|by split_and!]. }
  assert (Hno : ¬ hits dev inum ip).
  { intros (H1 & H2 & H3). rewrite (proj2 (Z.ltb_lt _ _) H1), H2, H3, !Z.eqb_refl in E. done. }
  set (e1 := match e with None => _ | Some e => Some e end). specialize (IH (S k) e1).
  assert (Hsh : ∀ i y, (S k ≤ i)%nat → l !! (i - S k)%nat = Some y → (ip :: l) !! (i - k)%nat = Some y).
  { intros i y Hi Hy. by replace (i - k)%nat with (S (i - S k)) by lia. }
  destruct (iget_scan l (S k) e1 dev inum) as [[i|] e'].
  - destruct IH as (y & Hi & Hy & Hh). exists y. split_and!; [lia|by apply Hsh|done].
  - destruct IH as [Hall He]. split.
    { intros y [->|Hy]%elem_of_cons; [done|by apply Hall]. }
    destruct e' as [i|].
    + destruct He as [He|(y & Hi & Hy & Hr)]; [|right; exists y; split_and!; [lia|by apply Hsh|done]].
      unfold e1 in He. destruct e as [j|]; [by left|]. destruct (Z.eqb_spec (i_ref ip) 0); [|done].
      injection He as <-. right. exists ip. rewrite Nat.sub_diag. by split_and!.
    + destruct He as [He Hr]. unfold e1 in He. destruct e; [done|]. split; [done|].
      intros y [->|Hy]%elem_of_cons; [|by apply Hr]. intros H0. by rewrite H0 in He.
Qed.

(** ** What the operations do to the entries *)

Section Icache.
Context {Ext : Type}.
Abbreviation K := (core * (bio * (logst * (list inode * Ext))))%type.
Implicit Types s : K.

Definition inodes (s : K) : list inode := fst (past_log s).
(** The count and the identity of every entry. *)
Definition ident (ip : inode) : Z * Z * Z := (i_ref ip, i_dev ip, i_inum ip).
Definition idents (s : K) : list (Z * Z * Z) := ident <$> inodes s.

Lemma idents_log {A} (m : M K A) : leaves past_log m → leaves idents m.
Proof. apply (leaves_less past_log (λ p, ident <$> fst p)). Qed.
Lemma idents_bio {A} (m : M K A) : leaves past_bio m → leaves idents m.
Proof. intros H. by apply idents_log, past_log_bio. Qed.
Lemma idents_core {A} (m : M K A) : leaves snd m → leaves idents m.
Proof. intros H. by apply idents_log, past_log_core. Qed.
Hint Extern 1 (leaves idents _) => apply idents_core; solve [auto 2 with frame] : frame.
Hint Extern 2 (leaves idents _) => apply idents_bio; solve [auto 2 with frame] : frame.
Hint Extern 3 (leaves idents _) => apply idents_log; solve [auto 2 with frame] : frame.

Lemma leaves_geti {A} i (f : inode → A) : leaves idents (geti i f).
Proof. unfold geti. apply leaves_bind; [by intros s|]. intros. leaves_run. Qed.
Lemma leaves_seti i f : (∀ ip, ident (f ip) = ident ip) → leaves idents (seti i f).
Proof.
  intros H. apply leaves_modify. intros s. unfold idents, inodes, past_log. simpl.
  apply list_eq. intros j. rewrite !list_lookup_fmap, list_lookup_alter. case_decide; [|done].
  subst. destruct (_ !! j); simpl; by rewrite ?H.
Qed.
Hint Resolve leaves_geti : frame.
Hint Extern 1 (leaves idents (seti _ _)) => apply leaves_seti; reflexivity : frame.

Lemma leaves_bzero dev b : leaves idents (bzero dev b).
Proof. unfold bzero. leaves_run. Qed.
Hint Resolve leaves_bzero : frame.
Lemma leaves_balloc_loop fuel dev size ni b : leaves idents (balloc_loop fuel dev size ni b).
Proof.
  revert b. induction fuel as [|f IH]; intros b; cbn [balloc_loop]; [auto with frame|].
  leaves_run.
Qed.
Hint Resolve leaves_balloc_loop : frame.
Lemma leaves_balloc dev : leaves idents (balloc dev).
Proof. unfold balloc. leaves_run. Qed.
Lemma leaves_bfree dev b : leaves idents (bfree dev b).
Proof. unfold bfree. leaves_run. Qed.
Hint Resolve leaves_balloc leaves_bfree : frame.
Lemma leaves_iupdate ip : leaves idents (iupdate ip).
Proof. unfold iupdate. leaves_run. Qed.
Hint Resolve leaves_iupdate : frame.
Lemma leaves_itrunc ip : leaves idents (itrunc ip).
Proof. unfold itrunc. leaves_run. Qed.
Hint Resolve leaves_itrunc : frame.
Lemma leaves_ilock o : leaves idents (ilock o).
Proof. unfold ilock, ilock_loop. leaves_run. Qed.
Lemma leaves_ilock_resume ip : leaves idents (ilock_resume ip).
Proof. unfold ilock_resume, ilock_loop. leaves_run. Qed.
Lemma leaves_iunlock o : leaves idents (iunlock o).
Proof. unfold iunlock. leaves_run. Qed.

(** [iput] but for the last step. *)
Lemma iput_run ip s s' : iput ip s = Ret () s' →
  ∃ s1, idents s1 = idents s ∧ inodes s' = alter (λ i, set_i_ref (i_ref i - 1) i) ip (inodes s1).
Proof.
  unfold iput. intros H.
  apply bind_Ret in H as ([] & s1 & H1 & H). apply bind_Ret in H as (r & s2 & H2 & H).
  apply bind_Ret in H as (f & s3 & H3 & H). apply bind_Ret in H as (n & s4 & H4 & H).
  apply bind_Ret in H as ([] & s5 & H5 & H). apply bind_Ret in H as ([] & s6 & H6 & H).
  apply (leaves_Ret past_log) in H; [|auto with frame]. exists s5. split.
  - apply (leaves_Ret idents) in H1; [|auto with frame]. apply (leaves_Ret idents) in H2; [|auto with frame].
    apply (leaves_Ret idents) in H3; [|auto with frame]. apply (leaves_Ret idents) in H4; [|auto with frame].
    apply (leaves_Ret idents) in H5; [congruence|]. leaves_run.
  - unfold inodes. rewrite H. unfold seti, modify in H6. by injection H6 as <-.
Qed.

Lemma idup_run ip s r s' : idup ip s = Ret r s' →
  r = ip ∧ inodes s' = alter (λ i, set_i_ref (i_ref i + 1) i) ip (inodes s).
Proof.
  unfold idup. intros H. apply bind_Ret in H as ([] & s1 & H1 & H).
  apply bind_Ret in H as ([] & s2 & H2 & H). apply bind_Ret in H as ([] & s3 & H3 & H).
  injection H as <- <-. split; [done|].
  apply (leaves_Ret past_log) in H3; [|auto with frame]. apply (leaves_Ret past_log) in H1; [|auto with frame].
  unfold inodes. rewrite H3. unfold seti, modify in H2. injection H2 as <-.
  unfold past_log in *. simpl in *. by rewrite H1.
Qed.

Lemma iget_run dev inum s ip s' : iget dev inum s = Ret ip s' →
  (∃ e, iget_scan (inodes s) 0 None dev inum = (Some ip, e) ∧
     inodes s' = alter (λ i, set_i_ref (i_ref i + 1) i) ip (inodes s)) ∨
  (iget_scan (inodes s) 0 None dev inum = (None, Some ip) ∧
     inodes s' = alter (recycle_inode dev inum) ip (inodes s)).
Proof.
  unfold iget. intros H. apply bind_Ret in H as ([] & s1 & H1 & H).
  apply (leaves_Ret past_log) in H1; [|auto with frame].
  apply bind_Ret in H as (r & s2 & H2 & H). injection H2 as <- <-.
  assert (E : fst (snd (snd (snd s1))) = inodes s) by (unfold inodes; by rewrite <-H1).
  rewrite E in H. destruct (iget_scan (inodes s) 0 None dev inum) as [[i|] e] eqn:Es; [left|right].
  - apply bind_Ret in H as ([] & s2 & H2 & H). apply bind_Ret in H as ([] & s3 & H3 & H).
    injection H as <- <-. exists e. split; [done|].
    apply (leaves_Ret past_log) in H3; [|auto with frame]. unfold inodes at 1. rewrite H3.
    unfold seti, modify in H2. injection H2 as <-. unfold past_log. simpl. by rewrite E.
  - destruct e as [i|]; [|done].
    apply bind_Ret in H as ([] & s2 & H2 & H). apply bind_Ret in H as ([] & s3 & H3 & H).
    injection H as <- <-. split; [done|].
    apply (leaves_Ret past_log) in H3; [|auto with frame]. unfold inodes at 1. rewrite H3.
    unfold seti, modify in H2. injection H2 as <-. unfold past_log. simpl. by rewrite E.
Qed.

End Icache.

(** ** References *)

(** An outstanding pointer: the entry, and the inode it was got for. *)
Abbreviation handle := (nat * (Z * Z))%type.
Definition refs_to (i : nat) (hs : list handle) : Z := Z.of_nat (length (filter (λ h, fst h = i) hs)).

Section Refs.
Context {Ext : Type}.
Abbreviation K := (core * (bio * (logst * (list inode * Ext))))%type.
Implicit Types s : K.

Inductive rstep : K * list handle → K * list handle → Prop :=
| R_get dev inum s ip s' hs : iget dev inum s = Ret ip s' → rstep (s, hs) (s', (ip, (dev, inum)) :: hs)
| R_dup h s r s' hs : h ∈ hs → idup (fst h) s = Ret r s' → rstep (s, hs) (s', h :: hs)
| R_put h s s' hs1 hs2 : iput (fst h) s = Ret () s' → rstep (s, hs1 ++ h :: hs2) (s', hs1 ++ hs2)
| R_lock h s s' hs : h ∈ hs → ilock (Some (fst h)) s = Ret () s' ∨ ilock (Some (fst h)) s = Block s' →
    rstep (s, hs) (s', hs)
| R_lock_resume h s s' hs : h ∈ hs →
    ilock_resume (fst h) s = Ret () s' ∨ ilock_resume (fst h) s = Block s' → rstep (s, hs) (s', hs)
| R_unlock h s s' hs : h ∈ hs → iunlock (Some (fst h)) s = Ret () s' → rstep (s, hs) (s', hs)
| R_update h s s' hs : h ∈ hs → iupdate (fst h) s = Ret () s' → rstep (s, hs) (s', hs)
| R_other s s' hs : inodes s' = inodes s → rstep (s, hs) (s', hs).

Record rinv (x : K * list handle) : Prop := {
  ri_count i ip : inodes (fst x) !! i = Some ip → i_ref ip = refs_to i (snd x);
  ri_ident h : h ∈ snd x → ∃ ip, inodes (fst x) !! fst h = Some ip ∧
    i_dev ip = fst (snd h) ∧ i_inum ip = snd (snd h);
  ri_once h h' : h ∈ snd x → h' ∈ snd x → snd h = snd h' → fst h = fst h' }.

Lemma refs_to_cons i h hs : refs_to i (h :: hs) = (if decide (fst h = i) then 1 else 0) + refs_to i hs.
Proof. unfold refs_to. rewrite filter_cons. case_decide; simpl length; lia. Qed.
Lemma refs_to_app i hs hs' : refs_to i (hs ++ hs') = refs_to i hs + refs_to i hs'.
Proof. unfold refs_to. rewrite list.filter_app, length_app. lia. Qed.
Lemma refs_to_pos i hs : 0 ≤ refs_to i hs.
Proof. unfold refs_to. lia. Qed.
Lemma refs_to_in i hs : 0 < refs_to i hs ↔ ∃ h, h ∈ hs ∧ fst h = i.
Proof.
  unfold refs_to. split.
  - intros H. destruct (filter _ hs) as [|h l] eqn:E; [simpl in H; lia|]. exists h.
    assert (Hh : h ∈ filter (λ h, fst h = i) hs) by (rewrite E; left). by apply list_elem_of_filter in Hh as [? ?].
  - intros (h & Hh & E). assert (Hf : h ∈ filter (λ h, fst h = i) hs) by by apply list_elem_of_filter.
    destruct (filter _ hs); [by apply not_elem_of_nil in Hf|]. simpl. lia.
Qed.

(** Same counts and identities, same invariant. *)
Lemma rinv_idents s s' hs : idents s' = idents s → rinv (s, hs) → rinv (s', hs).
Proof.
  intros E [H1 H2 H3].
  assert (Hlk : ∀ i ip, inodes s' !! i = Some ip → ∃ ip0, inodes s !! i = Some ip0 ∧ ident ip = ident ip0).
  { intros i ip Hi. assert (Hs : idents s !! i = Some (ident ip))
      by (rewrite <-E; unfold idents; by rewrite list_lookup_fmap, Hi).
    unfold idents in Hs. rewrite list_lookup_fmap in Hs. apply fmap_Some in Hs as (ip0 & ? & ?). eauto. }
  assert (Hlk' : ∀ i ip, inodes s !! i = Some ip → ∃ ip1, inodes s' !! i = Some ip1 ∧ ident ip1 = ident ip).
  { intros i ip Hi. assert (Hs : idents s' !! i = Some (ident ip))
      by (rewrite E; unfold idents; by rewrite list_lookup_fmap, Hi).
    unfold idents in Hs. rewrite list_lookup_fmap in Hs. apply fmap_Some in Hs as (ip0 & ? & ?). eauto. }
  constructor; simpl in *; [| |done].
  - intros i ip Hi. destruct (Hlk i ip Hi) as (ip0 & Hi0 & [= -> _ _]). by apply H1.
  - intros h Hh. destruct (H2 h Hh) as (ip & Hi & <- & <-). destruct (Hlk' _ _ Hi) as (ip1 & ? & [= _ ? ?]).
    by exists ip1.
Qed.

(** A pointer more to an entry, or one less. *)
Lemma rinv_count s s' hs hs' i d :
  inodes s' = alter (λ y, set_i_ref (i_ref y + d) y) i (inodes s) →
  (∀ j, refs_to j hs' = refs_to j hs + if decide (j = i) then d else 0) →
  (∀ h, h ∈ hs' → h ∈ hs ∨ ∃ ip, fst h = i ∧ inodes s !! i = Some ip ∧
     i_dev ip = fst (snd h) ∧ i_inum ip = snd (snd h) ∧ ∃ h0, h0 ∈ hs ∧ fst h0 = i) →
  rinv (s, hs) → rinv (s', hs').
Proof.
  intros E Hc Hin [H1 H2 H3]. simpl in *.
  assert (Hid : ∀ h, h ∈ hs' → ∃ ip, inodes s !! fst h = Some ip ∧ i_dev ip = fst (snd h) ∧ i_inum ip = snd (snd h)).
  { intros h [Hh|(ip & <- & ? & ? & ? & _)]%Hin; [by apply H2|by exists ip]. }
  constructor; simpl.
  - intros j ip Hj. rewrite E, list_lookup_alter in Hj. rewrite Hc. case_decide as Hji.
    + subst. rewrite decide_True by done. apply fmap_Some in Hj as (ip0 & Hj & ->). simpl. by rewrite (H1 _ _ Hj).
    + rewrite decide_False by congruence. rewrite (H1 _ _ Hj). lia.
  - intros h Hh. destruct (Hid h Hh) as (ip & Hi & ? & ?). rewrite E, list_lookup_alter. case_decide as Hji.
    + subst. rewrite Hi. by eexists.
    + by exists ip.
  - assert (Hold : ∀ h, h ∈ hs' → ∃ h0, h0 ∈ hs ∧ fst h0 = fst h ∧ snd h0 = snd h).
    { intros h Hh. destruct (Hin h Hh) as [?|(ip & Ei & Hi & Hd & Hn & h0 & Hh0 & E0)]; [by exists h|].
      exists h0. destruct (H2 h0 Hh0) as (ip0 & Hi0 & Hd0 & Hn0). rewrite E0 in Hi0. simplify_eq.
      split_and!; [done|congruence|]. destruct h, h0 as [? [? ?]]; simpl in *. destruct p; simpl in *. congruence. }
    intros h h' Hh Hh' Eq. destruct (Hold h Hh) as (a & Ha & <- & Ea), (Hold h' Hh') as (b & Hb & <- & Eb).
    apply H3; congruence.
Qed.

Lemma rinv_get dev inum s ip s' hs : iget dev inum s = Ret ip s' → rinv (s, hs) →
  rinv (s', (ip, (dev, inum)) :: hs).
Proof.
  intros H I. pose proof I as [H1 H2 H3]. simpl in *.
  pose proof (iget_scan_spec dev inum (inodes s) 0 None) as Hs.
  apply iget_run in H as [(e & Es & E)|[Es E]]; rewrite Es in Hs.
  - destruct Hs as (y & _ & Hy & Hr & Hd & Hn). rewrite Nat.sub_0_r in Hy.
    assert (Hex : ∃ h0, h0 ∈ hs ∧ fst h0 = ip) by (apply refs_to_in; rewrite <-(H1 ip y Hy); lia).
    apply (rinv_count s s' hs _ ip 1); try done.
    + intros j. rewrite refs_to_cons. simpl. repeat case_decide; congruence || lia.
    + intros h [->|Hh]%elem_of_cons; [right|by left]. exists y. split_and!; try done.
  - destruct Hs as [Hno [?|(y & _ & Hy & Hr)]]; [done|]. rewrite Nat.sub_0_r in Hy.
    assert (Hfree : ∀ h, h ∈ hs → fst h ≠ ip).
    { intros h Hh Eh. pose proof (H1 ip y Hy) as Hz. rewrite Hr in Hz.
      assert (0 < refs_to ip hs) by (apply refs_to_in; by exists h). lia. }
    assert (Hnew : ∀ h, h ∈ hs → snd h ≠ (dev, inum)).
    { intros h Hh Eh. destruct (H2 h Hh) as (z & Hz & Hzd & Hzn). apply (Hno z); [by eapply list_elem_of_lookup_2|].
      rewrite Eh in Hzd, Hzn. split_and!; [|done|done]. rewrite (H1 _ _ Hz). apply refs_to_in. by exists h. }
    constructor; simpl.
    + intros j z Hj. rewrite refs_to_cons. simpl. rewrite E, list_lookup_alter in Hj. case_decide as Hji.
      * subst. apply fmap_Some in Hj as (y0 & Hy0 & ->). simplify_eq. simpl. rewrite <-(H1 _ y Hy), Hr. repeat case_decide; congruence || lia.
      * rewrite (H1 j z Hj). repeat case_decide; congruence || lia.
    + intros h [->|Hh]%elem_of_cons; simpl.
      * rewrite E, list_lookup_alter, decide_True, Hy by done. by eexists.
      * rewrite E, list_lookup_alter, decide_False by (intros E'; by apply (Hfree h Hh)). by apply H2.
    + intros h h' [->|Hh]%elem_of_cons [->|Hh']%elem_of_cons Eq; try done.
      * by destruct (Hnew h' Hh').
      * by destruct (Hnew h Hh).
      * by apply H3.
Qed.

Lemma rinv_step x x' : rstep x x' → rinv x → rinv x'.
Proof.
  destruct 1 as [dev inum s ip s' hs H|h s r s' hs Hh H|h s s' hs1 hs2 H|h s s' hs Hh H|h s s' hs Hh H
    |h s s' hs Hh H|h s s' hs Hh H|s s' hs H]; intros I.
  - by eapply rinv_get.
  - apply idup_run in H as [_ E]. destruct (ri_ident _ I h Hh) as (ip & Hi & Hd & Hn). simpl in *.
    apply (rinv_count s s' hs _ (fst h) 1); try done.
    + intros j. rewrite refs_to_cons. repeat case_decide; congruence || lia.
    + intros h' [->|Hh']%elem_of_cons; [right|by left]. exists ip. split_and!; try done. by exists h.
  - apply iput_run in H as (s1 & E1 & E). apply (rinv_idents s s1) in I; [|done].
    apply (rinv_count s1 s' (hs1 ++ h :: hs2) _ (fst h) (-1)); try done.
    + intros j. rewrite !refs_to_app, refs_to_cons. repeat case_decide; congruence || lia.
    + intros h' Hh'. left. rewrite elem_of_app, elem_of_cons in *. tauto.
  - apply (rinv_idents s); [|done]. pose proof (leaves_ilock (Ext := Ext) (Some (fst h)) s) as L.
    destruct H as [H|H]; by rewrite H in L.
  - apply (rinv_idents s); [|done]. pose proof (leaves_ilock_resume (Ext := Ext) (fst h) s) as L.
    destruct H as [H|H]; by rewrite H in L.
  - apply (rinv_idents s); [|done]. by apply (leaves_Ret idents _ _ _ _ (leaves_iunlock _) H).
  - apply (rinv_idents s); [|done]. by apply (leaves_Ret idents _ _ _ _ (leaves_iupdate _) H).
  - apply (rinv_idents s); [|done]. unfold idents. by rewrite H.
Qed.

Lemma rinv_boot s : inodes s = icache0 → rinv (s, []).
Proof.
  intros H. constructor; simpl.
  - intros i ip Hi. rewrite H in Hi. apply lookup_replicate in Hi as [-> _]. done.
  - by intros h ?%not_elem_of_nil.
  - by intros h h' ?%not_elem_of_nil.
Qed.

End Refs.

(** C12. From boot on, however inode pointers are got, duplicated, locked,
    unlocked and put: the count of every cache entry is the number of
    outstanding pointers to it (so none in use is recycled), each pointer is
    still to the inode it was got for, and two pointers for one inode are the
    same entry. *)
Theorem icache_refcounts {Ext} (s0 s : core * (bio * (logst * (list inode * Ext)))) hs :
  inodes s0 = icache0 → rtc rstep (s0, []) (s, hs) →
  (∀ i ip, inodes s !! i = Some ip → i_ref ip = refs_to i hs) ∧
  (∀ h, h ∈ hs → ∃ ip, inodes s !! fst h = Some ip ∧ i_dev ip = fst (snd h) ∧ i_inum ip = snd (snd h)) ∧
  (∀ h h', h ∈ hs → h' ∈ hs → snd h = snd h' → fst h = fst h').
Proof.
  intros H0 Hs. assert (I : rinv (s, hs)).
  { apply rinv_boot in H0. remember (s0, []) as x eqn:Ex. clear Ex.
    induction Hs; eauto using rinv_step. }
  destruct I. by split_and!.
Qed.

(** Inode 7 is got twice, inode 9 once. *)
Definition ex_ic0 : core * (bio * (logst * (list inode * unit))) :=
  (core0, (mkBio [] [] [], (log0, (icache0, ())))).
Definition ex_ic1 := match iget 1 7 ex_ic0 with Ret _ s => s | _ => ex_ic0 end.
Definition ex_ic2 := match iget 1 9 ex_ic1 with Ret _ s => s | _ => ex_ic0 end.
Definition ex_ic3 := match iget 1 7 ex_ic2 with Ret _ s => s | _ => ex_ic0 end.

Lemma icache_refcounts_witness :
  ∃ ip, inodes ex_ic3 !! 0%nat = Some ip ∧ i_ref ip = 2 ∧ i_inum ip = 7.
Proof.
  destruct (icache_refcounts ex_ic0 ex_ic3 [(0%nat, (1, 7)); (1%nat, (1, 9)); (0%nat, (1, 7))])
    as (H1 & H2 & _).
  - reflexivity.
  - eapply rtc_l; [apply (R_get 1 7 _ 0 ex_ic1); vm_compute; reflexivity|].
    eapply rtc_l; [apply (R_get 1 9 _ 1 ex_ic2); vm_compute; reflexivity|].
    apply rtc_once, (R_get 1 7 _ 0 ex_ic3). vm_compute. reflexivity.
  - destruct (H2 (0%nat, (1, 7)) ltac:(left)) as (ip & Hi & _ & Hn). exists ip.
    split; [exact Hi|]. split; [exact (H1 0%nat ip Hi)|exact Hn].
Defined.
