(* ===== verification/FsDir.v ===== *)
(** * Directories and path lookup (fs.c)

    What [iget], [ilock], [iunlock], [iput] and [dirlookup] do on a quiet file
    system: nobody else holds an inode or a buffer, and the cached inodes are
    what the disk holds.  [dir_scan] is the reference for [dirlookup]: the
    first entry of the directory's contents with a number and that name. *)
From S2P Require Import Prelude CString Spinlock Core Bio BioFacts Cache Log LogFacts Fs FsInode FsFile FsIcache.

(** ** The reference *)

(** What counts of a name: its bytes up to the end, or the first fourteen. *)
Definition name_key (name : list Z) : list Z := take DIRSIZ (Str.cstr name).

(** The first of [k] entries from [off] on: its inode number and offset. *)
Fixpoint dir_scan (k : nat) (C key : list Z) (off : nat) : option (Z * Z) :=
  match k with
  | O => None
  | S k' =>
      let e := sublist off 16 C in
      if decide (de_inum e ≠ 0 ∧ name_key (de_name e) = key) then Some (de_inum e, Z.of_nat off)
      else dir_scan k' C key (off + 16)
  end.
Definition dir_find (C key : list Z) : option (Z * Z) := dir_scan (length C / 16) C key 0.

(** ** Counting the pointers to an inode *)

Definition weight (n : Z) (ip : inode) : Z := if decide (0 < i_ref ip ∧ i_inum ip = n) then i_ref ip else 0.
(** The pointers to inode [n] that have been given out. *)
Definition held (n : Z) (I : list inode) : Z := foldr Z.add 0 (weight n <$> I).

Lemma held_cons n ip I : held n (ip :: I) = weight n ip + held n I.
Proof. done. Qed.

Lemma held_insert n I i ip ip' : I !! i = Some ip →
  held n (<[i := ip']> I) = held n I + (weight n ip' - weight n ip).
Proof.
  revert i. induction I as [|y I IH]; intros [|i] Hi; simpl in Hi; simplify_eq.
  - change (<[0%nat := ip']> (ip :: I)) with (ip' :: I). rewrite !held_cons. lia.
  - change (<[S i := ip']> (y :: I)) with (y :: <[i := ip']> I). rewrite !held_cons, IH by done. lia.
Qed.

Lemma weight_nonneg n ip : 0 ≤ weight n ip.
Proof. unfold weight. case_decide; lia. Qed.

Lemma weight_ref n m ip : 0 < i_ref ip → i_inum ip = n → weight m ip = if decide (m = n) then i_ref ip else 0.
Proof. intros H1 H2. unfold weight. destruct (decide (m = n)), (decide _) as [Hd|Hd]; naive_solver. Qed.
Lemma weight_zero m ip : i_ref ip ≤ 0 → weight m ip = 0.
Proof. intros H. unfold weight. rewrite decide_False; [done|]. intros [? _]. lia. Qed.

Lemma held_nonneg n I : 0 ≤ held n I.
Proof. induction I as [|y I IH]; [done|]. rewrite held_cons. pose proof (weight_nonneg n y). lia. Qed.

Lemma held_pos n I : 0 < held n I ↔ ∃ i ip, I !! i = Some ip ∧ 0 < i_ref ip ∧ i_inum ip = n.
Proof.
  induction I as [|y I IH]; [split; [done|by intros (i & ip & ? & _)]|].
  rewrite held_cons. pose proof (weight_nonneg n y). pose proof (held_nonneg n I). split.
  - intros Hp. destruct (decide (0 < held n I)) as [H1|H1].
    + destruct (proj1 IH H1) as (i & ip & ?). by exists (S i), ip.
    + assert (Hw : 0 < weight n y) by lia. unfold weight in Hw. case_decide as Hd; [|lia]. exists 0%nat, y. by destruct Hd.
  - intros ([|i] & ip & Hi & H1 & H2); simpl in Hi; simplify_eq.
    + unfold weight. rewrite decide_True by done. lia.
    + assert (0 < held (i_inum ip) I); [apply IH; eauto|lia].
Qed.

(** ** The inode cache of a quiet file system *)

(** What [ilock] loads. *)
Definition on_disk (V : Z → list Z) (ip : inode) : Prop :=
  load_dinode (get_dinode (i_inum ip) (V (IBLOCK (i_inum ip)))) ip = ip.

Lemma on_disk_ref V v ip : on_disk V ip → on_disk V (set_i_ref v ip).
Proof. intros H. exact (f_equal (set_i_ref v) H). Qed.
Lemma on_disk_flags V v ip : on_disk V ip → on_disk V (set_i_flags v ip).
Proof. intros H. exact (f_equal (set_i_flags v) H). Qed.
Lemma on_disk_load V ip : on_disk V (load_dinode (get_dinode (i_inum ip) (V (IBLOCK (i_inum ip)))) ip).
Proof. done. Qed.

(** [lk] is the entry that is locked, if any. *)
Definition flags_ok (lk : option nat) (i : nat) (f : Z) : Prop :=
  f = 0 ∨ f = I_VALID ∨ (f = Z.lor I_BUSY I_VALID ∧ lk = Some i).
Record clean (V : Z → list Z) (lk : option nat) (I : list inode) : Prop := {
  cl_flags i ip : I !! i = Some ip → flags_ok lk i (i_flags ip);
  cl_ref i ip : I !! i = Some ip → 0 ≤ i_ref ip;
  cl_dev i ip : I !! i = Some ip → 0 < i_ref ip → i_dev ip = ROOTDEV;
  cl_valid i ip : I !! i = Some ip → 0 < i_ref ip → i_flags ip ≠ 0 → on_disk V ip;
  cl_once i j ip jp : I !! i = Some ip → I !! j = Some jp → 0 < i_ref ip → 0 < i_ref jp →
    i_inum ip = i_inum jp → i = j }.

(** An entry changed to one for the same inode; the lock may change hands. *)
Lemma clean_insert V lk lk' I i ip ip' : clean V lk I → I !! i = Some ip →
  (lk' = lk ∨ lk = Some i ∨ lk = None) → flags_ok lk' i (i_flags ip') → 0 ≤ i_ref ip' →
  (0 < i_ref ip' → i_dev ip' = ROOTDEV ∧ (i_flags ip' ≠ 0 → on_disk V ip') ∧
     ∀ j jp, I !! j = Some jp → j ≠ i → 0 < i_ref jp → i_inum jp ≠ i_inum ip') →
  clean V lk' (<[i := ip']> I).
Proof.
  intros [C1 C2 C3 C4 C5] Hi Hlk Hf Hr H. pose proof (lookup_lt_Some _ _ _ Hi) as Hlt.
  assert (Hl : ∀ j jp, <[i := ip']> I !! j = Some jp → (j = i ∧ jp = ip') ∨ (j ≠ i ∧ I !! j = Some jp)).
  { intros j jp Hj. destruct (decide (j = i)) as [->|Hne].
    - rewrite list_lookup_insert_eq in Hj by done. left. by simplify_eq.
    - rewrite list_lookup_insert_ne in Hj by done. by right. }
  constructor.
  - intros j jp [[-> ->]|[Hne Hj]]%Hl; [done|]. destruct (C1 j jp Hj) as [?|[?|[? E]]]; [by left|by right; left|].
    right; right. split; [done|]. destruct Hlk as [->|[E'|E']]; congruence.
  - intros j jp [[-> ->]|[_ Hj]]%Hl; [done|by eapply C2].
  - intros j jp [[-> ->]|[_ Hj]]%Hl Hp; [by apply H|by eapply C3].
  - intros j jp [[-> ->]|[_ Hj]]%Hl Hp; [by apply H|by eapply C4].
  - intros j k jp kp [[-> ->]|[Hj1 Hj]]%Hl [[-> ->]|[Hk1 Hk]]%Hl Hp Hq E; [done|..|by eapply C5].
    + exfalso. destruct (H Hp) as (_ & _ & H'). by apply (H' k kp Hk Hk1 Hq).
    + exfalso. destruct (H Hq) as (_ & _ & H'). by apply (H' j jp Hj Hj1 Hp).
Qed.

(** The inodes in use. *)
Definition actives (I : list inode) : list Z := i_inum <$> filter (λ ip, 0 < i_ref ip) I.

Lemma actives_elem I n : n ∈ actives I ↔ 0 < held n I.
Proof.
  rewrite held_pos. unfold actives. rewrite list_elem_of_fmap. split.
  - intros (ip & -> & Hip). apply list_elem_of_filter in Hip as [H1 H2].
    apply list_elem_of_lookup in H2 as [i Hi]. eauto.
  - intros (i & ip & Hi & Hp & <-). exists ip. split; [done|]. apply list_elem_of_filter.
    split; [done|]. by eapply list_elem_of_lookup_2.
Qed.

Lemma actives_nodup V lk I : clean V lk I → NoDup (actives I).
Proof.
  intros [_ _ _ _ C5]. assert (H : ∀ i j ip jp, I !! i = Some ip → I !! j = Some jp → 0 < i_ref ip → 0 < i_ref jp →
    i_inum ip = i_inum jp → i = j) by exact C5. clear C5. revert H.
  induction I as [|y I IH]; intros H; [by apply NoDup_nil_2|]. unfold actives. rewrite filter_cons.
  assert (HI : NoDup (actives I)).
  { apply IH. intros i j ip jp Hi Hj H1 H2 E. by injection (H (S i) (S j) ip jp Hi Hj H1 H2 E). }
  case_decide as Hp; [|done]. rewrite fmap_cons. apply list.NoDup_cons. split; [|done].
  fold (actives I). rewrite actives_elem, held_pos. intros (i & ip & Hi & H1 & H2).
  by specialize (H 0%nat (S i) y ip eq_refl Hi Hp H1 (eq_sym H2)).
Qed.

Lemma filter_all {A} (P : A → Prop) `{∀ x, Decision (P x)} (l : list A) :
  (∀ x, x ∈ l → P x) → filter P l = l.
Proof.
  induction l as [|x l IH]; intros Hl; [done|]. rewrite filter_cons_True by (apply Hl; left).
  rewrite IH; [done|]. intros y Hy. apply Hl. by right.
Qed.

(** With few inodes in use there is a free entry. *)
Lemma free_entry V lk I : clean V lk I → (length (actives I) < length I)%nat → ∃ ip, ip ∈ I ∧ i_ref ip = 0.
Proof.
  intros C Hl. destruct (decide (Exists (λ ip, i_ref ip = 0) I)) as [He|He].
  - apply list.Exists_exists in He as (ip & ? & ?). eauto.
  - exfalso. rewrite <-Forall_Exists_neg in He. unfold actives in Hl. rewrite length_fmap, filter_all in Hl; [lia|].
    intros ip Hip. rewrite list.Forall_forall in He. specialize (He ip Hip). apply list_elem_of_lookup in Hip as [i Hi].
    pose proof (cl_ref _ _ _ C i ip Hi). lia.
Qed.

(** ** Operations *)

Section Quiet.
Context {Ext : Type}.
Abbreviation K := (core * (bio * (logst * (list inode * Ext))))%type.
Context (D : list (list Z)) (T : list (Z * list Z)) (V : Z → list Z) (Dy : gset Z) (g : logst) (x : Ext).
Implicit Types (c : core) (β : bio) (I : list inode).

(** Nobody holds a buffer, or a lock that fs.c takes. *)
Definition quiet I (s : K) : Prop :=
  ∃ c β, s = (c, (β, (g, (I, x)))) ∧ cache β D T V ∅ Dy ∧ bio_free c ∧ L_icache ∉ locks c.

Lemma seen_quiet c I s : seen D T V ∅ Dy c g I x s → bio_free c → L_icache ∉ locks c → quiet I s.
Proof.
  intros (c1 & β1 & -> & W & C) Hf Hl. exists c1, β1.
  split_and!; [done|done|by eapply bio_free_woken|by rewrite (ow_locks _ _ W)].
Qed.

(** A change of an entry under [icache.lock]. *)
Lemma quiet_seti I i ip f Q s : quiet I s → I !! i = Some ip →
  (∀ s', quiet (<[i := f ip]> I) s' → Q () s') → wp (seti i f) Q s.
Proof.
  intros (c & β & -> & C & Hf & Hl) Hi HQ. eapply wp_seti; [done|]. apply HQ. by exists c, β.
Qed.

Lemma quiet_geti {A} I i ip (f : inode → A) Q s : quiet I s → I !! i = Some ip →
  Q (f ip) s → wp (geti i f) Q s.
Proof. intros (c & β & -> & _) Hi HQ. by eapply wp_geti. Qed.

Definition icache_held I (s : K) : Prop :=
  ∃ c β, s = (c, (β, (g, (I, x)))) ∧ cache β D T V ∅ Dy ∧ bio_free c ∧ L_icache ∈ locks c.

Lemma quiet_acquire I Q s : quiet I s → (∀ s', icache_held I s' → Q () s') → wp (acquire L_icache) Q s.
Proof.
  intros (c & β & -> & C & [Hf1 Hf2] & Hl) HQ. apply wp_acquire; [done|]. simpl. apply HQ.
  exists (set_locks ({[L_icache]} ∪ locks c) c), β. split_and!; [done|done|split; simpl; set_solver|simpl; set_solver].
Qed.

Lemma quiet_release I Q s : icache_held I s → (∀ s', quiet I s' → Q () s') → wp (release L_icache) Q s.
Proof.
  intros (c & β & -> & C & [Hf1 Hf2] & Hl) HQ. apply wp_release; [done|]. simpl. apply HQ.
  exists (set_locks (locks c ∖ {[L_icache]}) c), β. split_and!; [done|done|split; simpl; set_solver|simpl; set_solver].
Qed.

Lemma held_seti I i ip f Q s : icache_held I s → I !! i = Some ip →
  (∀ s', icache_held (<[i := f ip]> I) s' → Q () s') → wp (seti i f) Q s.
Proof.
  intros (c & β & -> & C & Hf & Hl) Hi HQ. eapply wp_seti; [done|]. apply HQ. by exists c, β.
Qed.

Lemma held_geti {A} I i ip (f : inode → A) Q s : icache_held I s → I !! i = Some ip →
  Q (f ip) s → wp (geti i f) Q s.
Proof. intros (c & β & -> & _) Hi HQ. by eapply wp_geti. Qed.

(** *** [iget] *)

(** One more pointer to inode [n], at entry [i]. *)
Record got lk (n : Z) I (i : nat) I' : Prop := {
  gt_clean : clean V lk I';
  gt_len : length I' = length I;
  gt_entry : ∃ ip, I' !! i = Some ip ∧ 0 < i_ref ip ∧ i_inum ip = n ∧
    ∀ ip0, I !! i = Some ip0 → 0 < i_ref ip0 → ip = set_i_ref (i_ref ip0 + 1) ip0;
  gt_held m : held m I' = held m I + (if decide (m = n) then 1 else 0);
  gt_other j jp : j ≠ i → 0 < i_ref jp → I !! j = Some jp → I' !! j = Some jp }.

Lemma got_hit lk n I i ip : clean V lk I → I !! i = Some ip → 0 < i_ref ip → i_inum ip = n →
  got lk n I i (<[i := set_i_ref (i_ref ip + 1) ip]> I).
Proof.
  intros C Hi Hp Hn. pose proof (lookup_lt_Some _ _ _ Hi) as Hlt. constructor.
  - eapply clean_insert; [done|done|by left|exact (cl_flags _ _ _ C i ip Hi)|simpl; lia|]. intros _. split_and!.
    + exact (cl_dev _ _ _ C i ip Hi Hp).
    + intros Hv. apply on_disk_ref. exact (cl_valid _ _ _ C i ip Hi Hp Hv).
    + intros j jp Hj Hne Hq E. apply Hne. simpl in E. symmetry. by eapply (cl_once _ _ _ C i j).
  - by rewrite length_insert.
  - eexists. rewrite list_lookup_insert_eq by done. split; [done|]. simpl. split; [lia|split; [done|]]. congruence.
  - intros m. rewrite (held_insert _ _ _ ip) by done. rewrite !(weight_ref n) by (simpl; (lia || done)). simpl.
    case_decide; lia.
  - intros j jp Hne _ Hj. by rewrite list_lookup_insert_ne.
Qed.

Lemma got_recycle lk n I i ip : clean V lk I → I !! i = Some ip → i_ref ip = 0 →
  (∀ j jp, I !! j = Some jp → 0 < i_ref jp → i_inum jp ≠ n) →
  got lk n I i (<[i := recycle_inode ROOTDEV n ip]> I).
Proof.
  intros C Hi Hp Hno. pose proof (lookup_lt_Some _ _ _ Hi) as Hlt. constructor.
  - eapply clean_insert; [done|done|by left|by left|simpl; lia|]. intros _. split_and!; [done|done|].
    intros j jp Hj _ Hq. simpl. by eapply Hno.
  - by rewrite length_insert.
  - eexists. rewrite list_lookup_insert_eq by done. split_and!; [done..|]. intros ip0 Hi0 Hp0. exfalso. simplify_eq. lia.
  - intros m. rewrite (held_insert _ _ _ ip) by done. rewrite (weight_zero m ip) by lia.
    rewrite (weight_ref n) by done. simpl. case_decide; lia.
  - intros j jp Hne _ Hj. by rewrite list_lookup_insert_ne.
Qed.

Lemma iget_wp lk n I Q s : quiet I s → clean V lk I → (length (actives I) < length I)%nat →
  (∀ i I' s', quiet I' s' → got lk n I i I' → Q i s') → wp (iget ROOTDEV n) Q s.
Proof.
  intros Hq C Hroom HQ. unfold iget. apply wp_bind. eapply quiet_acquire; [exact Hq|]. intros s1 H1.
  apply wp_bind, wp_gets. assert (E : fst (snd (snd (snd s1))) = I) by (by destruct H1 as (c & β & -> & _)). rewrite E.
  pose proof (iget_scan_spec ROOTDEV n I 0 None) as Hs.
  destruct (iget_scan I 0 None ROOTDEV n) as [[i|] e].
  - destruct Hs as (ip & _ & Hi & Hr & _ & Hn). rewrite Nat.sub_0_r in Hi.
    apply wp_bind. eapply held_seti; [exact H1|exact Hi|]. intros s2 H2. apply wp_bind.
    eapply quiet_release; [exact H2|]. intros s3 H3. apply wp_ret. eapply HQ; [exact H3|]. by apply got_hit.
  - destruct Hs as [Hno He]. destruct e as [i|].
    + destruct He as [He|(ip & _ & Hi & Hr)]; [done|]. rewrite Nat.sub_0_r in Hi.
      apply wp_bind. eapply held_seti; [exact H1|exact Hi|]. intros s2 H2. apply wp_bind.
      eapply quiet_release; [exact H2|]. intros s3 H3. apply wp_ret. eapply HQ; [exact H3|]. apply got_recycle; [done..|].
      intros j jp Hj Hq2 En. apply (Hno jp); [by eapply list_elem_of_lookup_2|].
      split_and!; [done|by apply (cl_dev _ _ _ C j)|done].
    + exfalso. destruct He as [_ He]. destruct (free_entry V lk I C Hroom) as (ip & Hin & Hz). by apply (He ip Hin).
Qed.
End Quiet.

(** ** An entry that is locked *)

Section Entry.
Context (V : Z → list Z).
Implicit Types (I : list inode).

(** An entry with the fields of the disk, and these flags. *)
Definition loaded (f : Z) (ip : inode) : inode :=
  set_i_flags f (load_dinode (get_dinode (i_inum ip) (V (IBLOCK (i_inum ip)))) ip).
Abbreviation lock_flags := (Z.lor I_BUSY I_VALID).

Lemma valid_loaded f ip : on_disk V ip → set_i_flags f ip = loaded f ip.
Proof. intros H. unfold loaded. by rewrite H. Qed.

Lemma clean_locked I i ip : clean V None I → I !! i = Some ip → 0 < i_ref ip →
  clean V (Some i) (<[i := loaded lock_flags ip]> I).
Proof.
  intros C Hi Hr. eapply clean_insert; [done|exact Hi|auto|by right; right|simpl; lia|]. intros _. split_and!.
  - exact (cl_dev _ _ _ C i ip Hi Hr).
  - intros _. apply on_disk_flags, on_disk_load.
  - intros j jp Hj Hne Hq2 E. apply Hne. symmetry. by eapply (cl_once _ _ _ C i j).
Qed.

Lemma held_flags I i ip f m : I !! i = Some ip → held m (<[i := set_i_flags f ip]> I) = held m I.
Proof. intros Hi. rewrite (held_insert _ _ _ ip) by done. unfold weight. simpl. lia. Qed.
Lemma held_loaded I i ip f m : I !! i = Some ip → held m (<[i := loaded f ip]> I) = held m I.
Proof. intros Hi. rewrite (held_insert _ _ _ ip) by done. unfold weight. simpl. lia. Qed.

(** The lock of entry [i] is given up. *)
Definition unlocked (ip : inode) : inode := set_i_flags I_VALID ip.

End Entry.

Section Locking.
Context {Ext : Type}.
Abbreviation K := (core * (bio * (logst * (list inode * Ext))))%type.
Context (D : list (list Z)) (T : list (Z * list Z)) (V : Z → list Z) (Dy : gset Z) (g : logst) (x : Ext).
Implicit Types (c : core) (β : bio) (I : list inode).
Abbreviation quiet := (quiet D T V Dy g x).

(** *** [ilock] and [iunlock] *)

Abbreviation loaded := (loaded V).
Abbreviation locked := (loaded (Z.lor I_BUSY I_VALID)).

Lemma ilock_wp I i ip Q s : (size Dy ≤ 8)%nat → quiet I s → clean V None I → I !! i = Some ip → 0 < i_ref ip →
  0 ≤ IBLOCK (i_inum ip) < Z.of_nat (length D) →
  d_type (get_dinode (i_inum ip) (V (IBLOCK (i_inum ip)))) ≠ 0 →
  (∀ s', quiet (<[i := locked ip]> I) s' → Q () s') → wp (ilock (Some i)) Q s.
Proof.
  intros Hdy Hq C Hi Hr Hb Ht HQ. pose proof (lookup_lt_Some _ _ _ Hi) as Hlt. unfold ilock.
  apply wp_bind. eapply quiet_geti; [exact Hq|exact Hi|]. rewrite (proj2 (Z.ltb_ge _ 1)) by lia.
  apply wp_bind. eapply quiet_acquire; [exact Hq|]. intros s1 H1. unfold ilock_loop.
  apply wp_bind. eapply held_geti; [exact H1|exact Hi|].
  assert (Hf : Z.land (i_flags ip) I_BUSY = 0) by (by destruct (cl_flags _ _ _ C i ip Hi) as [->|[->|[_ ?]]]).
  rewrite Hf. cbn [negb Z.eqb]. apply wp_bind. eapply held_seti; [exact H1|exact Hi|]. intros s2 H2.
  apply wp_bind. eapply quiet_release; [exact H2|]. intros s3 H3.
  set (ip1 := set_i_flags (Z.lor (i_flags ip) I_BUSY) ip) in *.
  assert (Hi1 : <[i := ip1]> I !! i = Some ip1) by by apply list_lookup_insert_eq.
  apply wp_bind. eapply quiet_geti; [exact H3|exact Hi1|].
  destruct (cl_flags _ _ _ C i ip Hi) as [E|[E|[_ ?]]]; [| |done].
  - replace (Z.land (i_flags ip1) I_VALID =? 0) with true by (unfold ip1; simpl; by rewrite E).
    apply wp_bind. eapply quiet_geti; [exact H3|exact Hi1|]. apply wp_bind. eapply quiet_geti; [exact H3|exact Hi1|].
    change (i_dev ip1) with (i_dev ip). change (i_inum ip1) with (i_inum ip). rewrite (cl_dev _ _ _ C i ip Hi Hr).
    destruct H3 as (c & β & -> & Hc & Hfr & Hlk). apply wp_bind.
    eapply (cache_bread c (g, (_, x))); [exact Hc|done|done|intros b st; by rewrite lookup_empty| |].
    { rewrite dom_empty_L, size_empty. unfold NBUF. lia. }
    intros b β1 Hbn C1. apply wp_bind.
    eapply (cache_read c (g, (_, x))); [exact C1|by rewrite lookup_insert_eq|]. intros y Hyd _ _. rewrite Hyd.
    apply wp_bind. eapply wp_seti; [exact Hi1|]. apply wp_bind.
    eapply (cache_brelse c (g, (_, x))); [exact C1|done|by rewrite lookup_insert_eq|].
    intros c2 β2 W2 C2. rewrite delete_insert_id in C2 by done. rewrite list_insert_insert_eq.
    set (ip2 := load_dinode _ ip1). assert (Hi2 : <[i := ip2]> I !! i = Some ip2) by by apply list_lookup_insert_eq.
    assert (Hq2 : quiet (<[i := ip2]> I) (c2, (β2, (g, (<[i := ip2]> I, x))))).
    { exists c2, β2. split_and!; [done|done|by eapply bio_free_woken|by rewrite (ow_locks _ _ W2)]. }
    apply wp_bind. eapply quiet_seti; [exact Hq2|exact Hi2|]. rewrite list_insert_insert_eq. intros s4 H4.
    assert (E2 : set_i_flags (Z.lor (i_flags ip2) I_VALID) ip2 = locked ip).
    { unfold ip2, ip1, loaded. simpl. by rewrite E. }
    rewrite E2 in H4. apply wp_bind. eapply quiet_geti; [exact H4|by apply list_lookup_insert_eq|].
    change (i_type (locked ip)) with (d_type (get_dinode (i_inum ip) (V (IBLOCK (i_inum ip))))).
    rewrite (proj2 (Z.eqb_neq _ _)) by done. apply wp_ret. by apply HQ.
  - replace (Z.land (i_flags ip1) I_VALID =? 0) with false by (unfold ip1; simpl; by rewrite E).
    apply wp_ret, HQ. rewrite <-valid_loaded by (apply (cl_valid _ _ _ C i ip Hi Hr); by rewrite E).
    assert (ip1 = set_i_flags (Z.lor I_BUSY I_VALID) ip) as <- by (unfold ip1; by rewrite E). done.
Qed.

Lemma iunlock_wp I i ip Q s : quiet I s → clean V (Some i) I → I !! i = Some ip → 0 < i_ref ip →
  i_flags ip = Z.lor I_BUSY I_VALID →
  (∀ s', quiet (<[i := unlocked ip]> I) s' → clean V None (<[i := unlocked ip]> I) → Q () s') →
  wp (iunlock (Some i)) Q s.
Proof.
  intros Hq Hc Hi Hr Hfl HQ. pose proof (lookup_lt_Some _ _ _ Hi) as Hlt.
  unfold iunlock. apply wp_bind. eapply quiet_geti; [exact Hq|exact Hi|].
  apply wp_bind. eapply quiet_geti; [exact Hq|exact Hi|]. rewrite Hfl.
  rewrite (proj2 (Z.ltb_ge _ 1)) by lia. change (Z.land _ I_BUSY =? 0) with false. cbn [orb].
  apply wp_bind. eapply quiet_acquire; [exact Hq|]. intros s1 H1.
  apply wp_bind. eapply held_seti; [exact H1|exact Hi|]. rewrite Hfl. intros s2 (c & β & -> & C2 & [Hf1 Hf2] & Hl).
  apply wp_bind, wp_wakeup; [done|]. simpl. eapply quiet_release; [|intros s3 H3; apply HQ; [exact H3|]].
  - eexists _, β. split; [done|]. split; [done|]. split; [split; done|done].
  - eapply clean_insert; [done|exact Hi|auto|by right; left|simpl; lia|]. intros _. split_and!.
    + exact (cl_dev _ _ _ Hc i ip Hi Hr).
    + intros _. apply on_disk_flags. apply (cl_valid _ _ _ Hc i ip Hi Hr). by rewrite Hfl.
    + intros j jp Hj Hne Hq2 E. apply Hne. symmetry. by eapply (cl_once _ _ _ Hc i j).
Qed.

(** *** [iput] of an inode that has a link *)

(** One pointer to inode [n] less. *)
Record gone (n : Z) I I' : Prop := {
  gn_clean : clean V None I';
  gn_len : length I' = length I;
  gn_held m : held m I' = held m I - (if decide (m = n) then 1 else 0) }.

Lemma iput_wp I i ip Q s : quiet I s → clean V None I → I !! i = Some ip → 0 < i_ref ip → i_flags ip = 0 ∨ i_nlink ip ≠ 0 →
  (∀ s' I', quiet I' s' → gone (i_inum ip) I I' → I' = <[i := set_i_ref (i_ref ip - 1) ip]> I → Q () s') →
  wp (iput i) Q s.
Proof.
  intros Hq C Hi Hr Hn HQ. pose proof (lookup_lt_Some _ _ _ Hi) as Hlt. unfold iput.
  apply wp_bind. eapply quiet_acquire; [exact Hq|]. intros s1 H1.
  apply wp_bind. eapply held_geti; [exact H1|exact Hi|]. apply wp_bind. eapply held_geti; [exact H1|exact Hi|].
  apply wp_bind. eapply held_geti; [exact H1|exact Hi|].
  assert (Eb : (i_ref ip =? 1) && negb (Z.land (i_flags ip) I_VALID =? 0) && (i_nlink ip =? 0) = false).
  { destruct Hn as [-> | Hn]; [by rewrite andb_false_r|]. by rewrite (proj2 (Z.eqb_neq (i_nlink ip) 0)), andb_false_r. }
  rewrite Eb. clear Eb. apply wp_bind, wp_ret, wp_bind.
  eapply held_seti; [exact H1|exact Hi|]. intros s2 H2. eapply quiet_release; [exact H2|]. intros s3 H3.
  eapply HQ; [exact H3| |done]. constructor.
  - eapply clean_insert; [done|exact Hi|by left|exact (cl_flags _ _ _ C i ip Hi)|simpl; lia|]. simpl. intros Hp. split_and!.
    + exact (cl_dev _ _ _ C i ip Hi Hr).
    + intros Hv. apply on_disk_ref. exact (cl_valid _ _ _ C i ip Hi Hr Hv).
    + intros j jp Hj Hne Hq2 E. apply Hne. symmetry. by eapply (cl_once _ _ _ C i j).
  - by rewrite length_insert.
  - intros m. rewrite (held_insert _ _ _ ip) by done. rewrite (weight_ref (i_inum ip) m ip) by done.
    destruct (decide (i_ref ip = 1)) as [E|E].
    + rewrite weight_zero by (simpl; lia). case_decide; lia.
    + rewrite (weight_ref (i_inum ip)) by (simpl; (lia || done)). simpl. case_decide; lia.
Qed.

Lemma iunlockput_wp I i ip Q s : quiet I s → clean V (Some i) I → I !! i = Some ip → 0 < i_ref ip →
  i_flags ip = Z.lor I_BUSY I_VALID → d_nlink (get_dinode (i_inum ip) (V (IBLOCK (i_inum ip)))) ≠ 0 →
  (∀ s' I', quiet I' s' → gone (i_inum ip) I I' →
     I' = <[i := set_i_ref (i_ref ip - 1) (unlocked ip)]> I → Q () s') → wp (iunlockput i) Q s.
Proof.
  intros Hq C Hi Hr Hf Hn HQ. pose proof (lookup_lt_Some _ _ _ Hi) as Hlt.
  unfold iunlockput. apply wp_bind. eapply iunlock_wp; [exact Hq|exact C|exact Hi|exact Hr|exact Hf|]. intros s1 H1 C1.
  assert (Hod : i_nlink ip ≠ 0).
  { rewrite <-(cl_valid _ _ _ C i ip Hi Hr ltac:(by rewrite Hf)). exact Hn. }
  eapply (iput_wp _ i (unlocked ip)); [exact H1|exact C1|by apply list_lookup_insert_eq|exact Hr|by right|].
  intros s2 I' H2 [G1 G2 G3] EI. eapply HQ; [exact H2| |].
  - constructor; [done|by rewrite G2, length_insert|]. intros m. rewrite G3. unfold unlocked. by rewrite (held_flags I i ip).
  - rewrite EI. by rewrite list_insert_insert_eq.
Qed.
End Locking.

(** *** [dirlookup] *)

(** The inode as [ilock] loads it from its block. *)
Definition inode_on (V : Z → list Z) (inum : Z) : inode :=
  load_dinode (get_dinode inum (V (IBLOCK inum))) (mkInode ROOTDEV inum 1 I_VALID 0 0 0 0 0 []).

Lemma mapped_ext N V ip ip' : mapped N V ip → i_dev ip' = i_dev ip → i_type ip' = i_type ip →
  i_size ip' = i_size ip → i_addrs ip' = i_addrs ip → mapped N V ip'.
Proof.
  intros [M1 M2 M3 M4 M5 M6 M7] E1 E2 E3 E4.
  assert (Eb : ∀ k, baddr V ip' k = baddr V ip k) by (intros k; unfold baddr; by rewrite E4).
  constructor; rewrite ?E1, ?E2, ?E3, ?E4; try done; intros k; rewrite Eb; auto.
Qed.

Lemma contents_ext V ip ip' : i_size ip' = i_size ip → i_addrs ip' = i_addrs ip → contents V ip' = contents V ip.
Proof.
  intros E3 E4. unfold contents, fdata. rewrite E3. do 2 f_equal. apply list_fmap_ext. intros i k _.
  unfold baddr. by rewrite E4.
Qed.

Lemma contents_bytes N V ip : mapped N V ip → Forall is_byte (contents V ip).
Proof.
  intros M. unfold contents, fdata. apply Forall_take. rewrite list.Forall_forall. intros b Hb.
  apply list_elem_of_join in Hb as (l & Hbl & Hl). apply list_elem_of_fmap in Hl as (k & -> & Hk).
  apply elem_of_seq in Hk. pose proof (mp_block _ _ _ M (Z.of_nat k) ltac:(lia)) as [_ Hby].
  rewrite list.Forall_forall in Hby. by apply Hby.
Qed.

(** A name as a caller passes it. *)
Definition name_ok (name : list Z) : Prop := Forall is_byte name ∧ StrFacts.covers name DIRSIZ.

Lemma namecmp_same name e : name_ok name → Forall is_byte e → length e = 16%nat →
  ∃ r, namecmp name (de_name e) = Some r ∧ (r = 0 ↔ name_key (de_name e) = name_key name).
Proof.
  intros [H1 H2] He Hl. unfold de_name.
  destruct (strncmp_correct name (drop 2 e) DIRSIZ) as (r & Hr & Hz); [done|by apply Forall_drop|done| |].
  { right. rewrite length_drop, Hl. unfold DIRSIZ. lia. }
  exists r. split; [done|]. rewrite Hz. by split.
Qed.

Section Lookup.
Context {Ext : Type}.
Abbreviation K := (core * (bio * (logst * (list inode * Ext))))%type.
Context (devsw : Z → option ((nat → Z → M K (Z * list Z)) * (nat → list Z → Z → M K Z))).
Context (D : list (list Z)) (T : list (Z * list Z)) (V : Z → list Z) (Dy : gset Z) (g : logst) (x : Ext).
Hypothesis Hdy : (size Dy ≤ 8)%nat.
Abbreviation quiet := (quiet D T V Dy g x).

(** [readi] of one entry. *)
Lemma read_entry_wp I dp ip off Q s : quiet I s → I !! dp = Some ip → mapped (Z.of_nat (length D)) V ip →
  0 ≤ off → off + 16 ≤ i_size ip →
  (∀ s', quiet I s' → Q (16, sublist (Z.to_nat off) 16 (contents V ip)) s') →
  wp (readi devsw dp off DIRENT) Q s.
Proof.
  intros (c & β & -> & C & Hf & Hl) Hi M Ho Hsz HQ. pose proof (mp_size _ _ _ M) as Hms.
  change (MAXFILE * BS) with 71680 in Hms.
  eapply wp_mono; [apply (readi_wp devsw dp ip off DIRENT c β g I x D T V Dy); try done; unfold DIRENT; lia|].
  intros r s' [-> Hs]. unfold file_read, DIRENT. rewrite (contents_length _ _ _ M).
  rewrite (proj2 (Z.ltb_ge _ off)), (proj2 (Z.leb_gt (2 ^ 32) _)) by lia. cbn [orb]. rewrite Z.min_l by lia.
  apply HQ. by eapply seen_quiet.
Qed.

Section Dir.
Context (I : list inode) (dp : nat) (ip : inode) (name : list Z).
Hypothesis Hi : I !! dp = Some ip.
Hypothesis M : mapped (Z.of_nat (length D)) V ip.
Hypothesis Hdev : i_dev ip = ROOTDEV.
Hypothesis Hmod : i_size ip mod DIRENT = 0.
Hypothesis Hname : name_ok name.
Abbreviation C := (contents V ip).

Lemma dirlookup_loop_wp k : ∀ fuel off Q s, quiet I s → i_size ip = 16 * Z.of_nat (off + k) → (k < fuel)%nat →
  (∀ s', dir_scan k C (name_key name) (16 * off) = None → quiet I s' → Q None s') →
  (∀ n o s', dir_scan k C (name_key name) (16 * off) = Some (n, o) → quiet I s' →
     wp (iget ROOTDEV n) (λ i s2, Q (Some (i, o)) s2) s') →
  wp (dirlookup_loop devsw fuel dp name (16 * Z.of_nat off)) Q s.
Proof.
  induction k as [|k IH]; intros [|fuel] off Q s Hq Hsz Hf HN HS; [lia..| |lia|]; cbn [dirlookup_loop dir_scan] in *.
  - apply wp_bind. eapply quiet_geti; [exact Hq|exact Hi|]. rewrite (proj2 (Z.ltb_ge _ _)) by lia.
    apply wp_ret. by apply HN.
  - apply wp_bind. eapply quiet_geti; [exact Hq|exact Hi|]. rewrite (proj2 (Z.ltb_lt _ _)) by lia.
    apply wp_bind. eapply read_entry_wp; [exact Hq|exact Hi|exact M|lia|lia|]. intros s1 H1. cbn [fst snd].
    change (negb (16 =? DIRENT)) with false. cbv iota.
    replace (Z.to_nat (16 * Z.of_nat off)) with (16 * off)%nat by lia.
    set (e := sublist (16 * off) 16 C) in *.
    assert (Hlen : length C = (16 * (off + S k))%nat) by (pose proof (contents_length _ _ _ M); lia).
    assert (He : length e = 16%nat) by (apply sublist_length; lia).
    assert (Hb : Forall is_byte e) by (unfold e, sublist; apply Forall_take, Forall_drop; by eapply contents_bytes).
    replace (16 * off + 16)%nat with (16 * S off)%nat in * by lia.
    replace (16 * Z.of_nat off + DIRENT) with (16 * Z.of_nat (S off)) by (unfold DIRENT; lia).
    assert (Hsz' : i_size ip = 16 * Z.of_nat (S off + k)) by lia.
    destruct (Z.eqb_spec (de_inum e) 0) as [E0|E0].
    + rewrite decide_False in HN, HS by (by intros [? _]). by apply IH; [..|lia| |].
    + destruct (namecmp_same name e Hname Hb He) as (r & Er & Hr). apply wp_bind. eapply wp_deref; [exact Er|].
      destruct (Z.eqb_spec r 0) as [->|Hne].
      * rewrite decide_True in HN, HS by (split; [done|by apply Hr]).
        apply wp_bind. eapply quiet_geti; [exact H1|exact Hi|]. rewrite Hdev. apply wp_bind.
        eapply wp_mono; [eapply (HS _ _ _ eq_refl H1)|]. intros i s2 H2. apply wp_ret.
        by replace (16 * Z.of_nat off) with (Z.of_nat (16 * off)) by lia.
      * rewrite decide_False in HN, HS by (intros [_ Hsm]; by apply Hne, Hr). by apply IH; [..|lia| |].
Qed.

Lemma dirlookup_wp Q s : quiet I s → i_type ip = T_DIR →
  (∀ s', dir_find C (name_key name) = None → quiet I s' → Q None s') →
  (∀ n o s', dir_find C (name_key name) = Some (n, o) → quiet I s' → wp (iget ROOTDEV n) (λ i s2, Q (Some (i, o)) s2) s') →
  wp (dirlookup devsw dp name) Q s.
Proof.
  intros Hq Ht HN HS. unfold dirlookup. apply wp_bind. eapply quiet_geti; [exact Hq|exact Hi|].
  rewrite Ht. change (negb (T_DIR =? T_DIR)) with false. cbv iota.
  apply wp_bind. eapply quiet_geti; [exact Hq|exact Hi|]. unfold dir_find in *.
  pose proof (contents_length _ _ _ M) as Hlen. pose proof (Z.div_mod (i_size ip) 16 ltac:(done)) as Hdm.
  change DIRENT with 16 in *. rewrite Hmod in Hdm.
  assert (Hk : Z.of_nat (length C / 16) = i_size ip / 16) by (rewrite Nat2Z.inj_div, Hlen; done).
  apply (dirlookup_loop_wp (length C / 16) _ 0%nat); try done; lia.
Qed.
End Dir.
End Lookup.

(** ** Directories as lists of entries *)

(** What [dir_find] finds is the number of an entry. *)
Lemma dir_scan_elem k C key : ∀ off m o, dir_scan k C key off = Some (m, o) →
  m ∈ (λ j : nat, de_inum (sublist (off + 16 * j) 16 C)) <$> seq 0 k.
Proof.
  induction k as [|k IH]; intros off m o H; cbn [dir_scan] in H; [done|].
  apply list_elem_of_fmap. case_decide as Hd.
  - injection H as <- _. exists 0%nat. rewrite Nat.mul_0_r, Nat.add_0_r. split; [done|]. apply elem_of_seq. lia.
  - apply IH, list_elem_of_fmap in H as (j & -> & Hj). apply elem_of_seq in Hj. exists (S j).
    split; [do 2 f_equal; lia|]. apply elem_of_seq. lia.
Qed.

Lemma dir_scan_nonzero k C key : ∀ off m o, dir_scan k C key off = Some (m, o) → m ≠ 0.
Proof.
  induction k as [|k IH]; intros off m o H; cbn [dir_scan] in H; [done|].
  case_decide as Hd; [injection H as <- _; by destruct Hd|by eapply IH].
Qed.

(** The search does not look before where it starts. *)
Lemma dir_scan_drop k C key a : ∀ off,
  fst <$> dir_scan k C key (a + off) = fst <$> dir_scan k (drop a C) key off.
Proof.
  induction k as [|k IH]; intros off; [done|]. cbn [dir_scan].
  assert (E : sublist (a + off) 16 C = sublist off 16 (drop a C)) by (unfold sublist; by rewrite drop_drop).
  rewrite E. case_decide; [done|]. rewrite <-Nat.add_assoc. apply IH.
Qed.

Lemma dir_scan_cons k e C key : length e = 16%nat →
  fst <$> dir_scan (S k) (e ++ C) key 0 =
    if decide (de_inum e ≠ 0 ∧ name_key (de_name e) = key) then Some (de_inum e)
    else fst <$> dir_scan k C key 0.
Proof.
  intros He. cbn [dir_scan].
  assert (E : sublist 0 16 (e ++ C) = e) by (unfold sublist; rewrite drop_0, take_app_le by lia; apply take_ge; lia).
  rewrite E. case_decide; [done|]. change (0 + 16)%nat with (16 + 0)%nat. rewrite dir_scan_drop.
  by rewrite drop_app_ge, He, drop_0 by lia.
Qed.

Lemma dir_scan_zeros k m key : fst <$> dir_scan k (replicate m 0) key 0 = None.
Proof.
  assert (H : ∀ off, dir_scan k (replicate m 0) key off = None); [|by rewrite H].
  induction k as [|k IH]; intros off; [done|]. cbn [dir_scan]. rewrite decide_False; [apply IH|].
  intros [H _]. apply H. unfold de_inum, sublist. rewrite drop_replicate, take_replicate, drop_0, take_replicate.
  apply le_val_zeros.
Qed.
