(* ===== verification/FsNamei.v ===== *)
(** * Path lookup (fs.c)

    [walk] follows a list of names through the directories on the disk;
    [namex] does the same with locks and counted pointers, and gives back every
    pointer but the one it returns. *)
From S2P Require Import Prelude CString Spinlock Core Bio BioFacts Cache Log LogFacts Fs FsInode FsFile FsPath FsIcache FsDir.

(** ** The reference *)

Abbreviation dinode_of V n := (get_dinode n (V (IBLOCK n))).

(** The inode that [names] leads to from inode [n]; with [np] the directory that
    would hold the last name. *)
Fixpoint walk (np : bool) (V : Z → list Z) (n : Z) (names : list (list Z)) : option Z :=
  match names with
  | [] => if np then None else Some n
  | w :: ws =>
      if d_type (dinode_of V n) =? T_DIR then
        if np && (length ws =? 0)%nat then Some n else
        match dir_find (contents V (inode_on V n)) w with
        | Some (m, _) => walk np V m ws
        | None => None
        end
      else None
  end.

(** A set of inodes that the entries of its directories do not leave, all of
    them linked, with directories whose blocks are on the disk. *)
Record tree (N : Z) (V : Z → list Z) (P : Z → Prop) : Prop := {
  tr_block n : P n → 0 ≤ IBLOCK n < N;
  tr_type n : P n → d_type (dinode_of V n) ≠ 0;
  tr_nlink n : P n → d_nlink (dinode_of V n) ≠ 0;
  tr_mapped n : P n → d_type (dinode_of V n) = T_DIR → mapped N V (inode_on V n);
  tr_size n : P n → d_type (dinode_of V n) = T_DIR → d_size (dinode_of V n) mod DIRENT = 0;
  tr_entry n w m o : P n → d_type (dinode_of V n) = T_DIR →
    dir_find (contents V (inode_on V n)) w = Some (m, o) → P m }.

(** The name buffer stays bytes. *)
Lemma skip_slashes_bytes s : Forall is_byte s → Forall is_byte (skip_slashes s).
Proof. induction 1 as [|c s Hc Hs IH]; simpl; [done|]. case_match; [done|by constructor]. Qed.

Lemma splice_range (new l : list Z) : Forall is_byte new → Forall is_byte l → Forall is_byte (splice 0 new l).
Proof. intros H1 H2. unfold splice. simpl. apply Forall_app. split; [done|by apply Forall_drop]. Qed.

Lemma skipelem_bytes path name path' name' : Forall is_byte path → Forall is_byte name →
  skipelem path name = Some (path', name') → Forall is_byte path' ∧ Forall is_byte name'.
Proof.
  intros Hp Hn. unfold skipelem. pose proof (skip_slashes_bytes path Hp) as Hs.
  destruct (skip_slashes path) as [|c r] eqn:E; [done|]. destruct (c =? 0); [done|]. rewrite <-E in *. clear E.
  set (l := elem_len (skip_slashes path)). set (name1 := if (DIRSIZ <=? l)%nat then _ else _).
  intros H. assert (E1 : path' = skip_slashes (drop l (skip_slashes path)) ∧ name' = name1) by (split; congruence).
  destruct E1 as [-> ->]. split; [by apply skip_slashes_bytes, Forall_drop|]. unfold name1.
  case_match; apply splice_range; try done; [by apply Forall_take|].
  apply Forall_app. split; [by apply Forall_take|by constructor].
Qed.

(** Few inodes are in use. *)
Lemma actives_bound V lk I l : clean V lk I → (∀ m, 0 < held m I → m ∈ l) → (length (actives I) ≤ length l)%nat.
Proof.
  intros C H. apply submseteq_length, NoDup_submseteq; [by eapply actives_nodup|].
  intros m Hm. by apply H, actives_elem.
Qed.

Section Namex.
Context {Ext : Type}.
Abbreviation K := (core * (bio * (logst * (list inode * Ext))))%type.
Context (devsw : Z → option ((nat → Z → M K (Z * list Z)) * (nat → list Z → Z → M K Z))).
Context (D : list (list Z)) (T : list (Z * list Z)) (V : Z → list Z) (Dy : gset Z) (g : logst) (x : Ext).
Hypothesis Hdy : (size Dy ≤ 8)%nat.
Abbreviation quiet := (quiet D T V Dy g x).
Context (P : Z → Prop).
Hypothesis Tr : tree (Z.of_nat (length D)) V P.
(** The pointers others hold, and the inodes they hold. *)
Context (h0 : Z → Z) (l0 : list Z).
Hypothesis Hl0 : ∀ m, 0 < h0 m → m ∈ l0.
Hypothesis Hroom : (length l0 ≤ NINODE - 2)%nat.
Hypothesis Hh0 : ∀ m, 0 ≤ h0 m.

(** The cache with one pointer more than [h0], to inode [n] at entry [i]. *)
Record at_inode (n : Z) (i : nat) (I : list inode) : Prop := {
  ai_clean : clean V None I;
  ai_len : length I = NINODE;
  ai_entry : ∃ ip, I !! i = Some ip ∧ 0 < i_ref ip ∧ i_inum ip = n;
  ai_held m : held m I = h0 m + (if decide (m = n) then 1 else 0) }.
Record none_held (I : list inode) : Prop := {
  nh_clean : clean V None I; nh_len : length I = NINODE; nh_held m : held m I = h0 m }.

Lemma gone_none n i I I' : at_inode n i I → gone V n I I' → none_held I'.
Proof.
  intros [A1 A2 A3 A4] [G1 G2 G3]. constructor; [done|by rewrite G2|].
  intros m. rewrite G3, A4. case_decide; lia.
Qed.

(** What [namex] answers for the reference's answer. *)
Definition answers (np : bool) (names : list (list Z)) (r : option Z) (o : option nat * list Z) (s : K) : Prop :=
  ∃ I', quiet I' s ∧
    match r, fst o with
    | Some n, Some i => at_inode n i I' ∧ (np = true → list.last names = Some (name_key (snd o)))
    | None, None => none_held I'
    | _, _ => False
    end.

(** The lookup of one name, with the directory locked: the next inode, with a
    pointer for it as well as for the directory. *)
Definition locked_at (n : Z) (i : nat) (I1 : list inode) : Prop :=
  ∃ I ip, at_inode n i I ∧ I !! i = Some ip ∧ 0 < i_ref ip ∧ i_inum ip = n ∧ I1 = <[i := loaded V (Z.lor I_BUSY I_VALID) ip]> I.

Lemma lock_inode_wp n i I Q s : quiet I s → at_inode n i I → P n →
  (∀ s' I1, quiet I1 s' → locked_at n i I1 → Q () s') → wp (ilock (Some i)) Q s.
Proof.
  intros Hq A HP HQ. destruct (ai_entry _ _ _ A) as (ip & Hi & Hr & Hn).
  eapply ilock_wp; [exact Hdy|exact Hq|apply A|exact Hi|exact Hr|rewrite Hn; by apply (tr_block _ _ _ Tr)
    |rewrite Hn; by apply (tr_type _ _ _ Tr)|].
  intros s1 H1. eapply HQ; [exact H1|]. exists I, ip. by split_and!.
Qed.

(** The locked entry. *)
Lemma locked_entry n i I1 : locked_at n i I1 → ∃ ip1, I1 !! i = Some ip1 ∧ clean V (Some i) I1 ∧ 0 < i_ref ip1 ∧
  i_inum ip1 = n ∧ i_dev ip1 = ROOTDEV ∧ i_flags ip1 = Z.lor I_BUSY I_VALID ∧
  i_type ip1 = d_type (dinode_of V n) ∧ i_size ip1 = d_size (dinode_of V n) ∧
  i_addrs ip1 = d_addrs (dinode_of V n) ∧ length I1 = NINODE ∧
  ∀ m, held m I1 = h0 m + (if decide (m = n) then 1 else 0).
Proof.
  intros (I & ip & A & Hi & Hr & Hn & ->). pose proof (lookup_lt_Some _ _ _ Hi) as Hlt.
  exists (loaded V (Z.lor I_BUSY I_VALID) ip). rewrite <-Hn.
  refine (conj _ (conj _ (conj Hr (conj eq_refl (conj _ (conj eq_refl (conj eq_refl (conj eq_refl (conj eq_refl (conj _ _)))))))))).
  - by apply list_lookup_insert_eq.
  - apply clean_locked; [apply A|done|done].
  - exact (cl_dev _ _ _ (ai_clean _ _ _ A) i ip Hi Hr).
  - rewrite length_insert. apply A.
  - intros m. rewrite held_loaded by done. rewrite (ai_held _ _ _ A), Hn. done.
Qed.

(** Unlocking and giving back the directory. *)
Lemma drop_dir_wp n i I1 Q s : quiet I1 s → locked_at n i I1 → P n →
  (∀ s' I', quiet I' s' → none_held I' → Q () s') → wp (iunlockput i) Q s.
Proof.
  intros Hq L HP HQ. destruct (locked_entry _ _ _ L) as (ip1 & Hi & C & Hr & Hn & _ & Hf & _ & _ & _ & Hl & Hh).
  eapply iunlockput_wp; [exact Hq|exact C|exact Hi|exact Hr|exact Hf|rewrite Hn; by apply (tr_nlink _ _ _ Tr)|].
  intros s1 I' H1 [G1 G2 G3] _. eapply HQ; [exact H1|]. constructor; [done|by rewrite G2|].
  intros m. rewrite G3, Hh, Hn. case_decide; lia.
Qed.

Lemma keep_dir_wp n i I1 Q s : quiet I1 s → locked_at n i I1 →
  (∀ s' I', quiet I' s' → at_inode n i I' → Q () s') → wp (iunlock (Some i)) Q s.
Proof.
  intros Hq L HQ. destruct (locked_entry _ _ _ L) as (ip1 & Hi & C & Hr & Hn & _ & Hf & _ & _ & _ & Hl & Hh).
  pose proof (lookup_lt_Some _ _ _ Hi). eapply iunlock_wp; [exact Hq|exact C|exact Hi|exact Hr|exact Hf|].
  intros s1 H1 C1. eapply HQ; [exact H1|]. constructor; [done|by rewrite length_insert| |].
  - eexists. rewrite list_lookup_insert_eq by done. split; [done|]. by split.
  - intros m. unfold unlocked. by rewrite held_flags.
Qed.

(** One step down. *)
Lemma step_wp n i I1 name Q s : quiet I1 s → locked_at n i I1 → P n → d_type (dinode_of V n) = T_DIR → name_ok name →
  (dir_find (contents V (inode_on V n)) (name_key name) = None → ∀ s', quiet I1 s' → Q None s') →
  (∀ m o j s' I2, dir_find (contents V (inode_on V n)) (name_key name) = Some (m, o) → quiet I2 s' →
     got V (Some i) m I1 j I2 → Q (Some (j, o)) s') →
  wp (dirlookup devsw i name) Q s.
Proof.
  intros Hq L HP Ht Hnm HN HS.
  destruct (locked_entry _ _ _ L) as (ip1 & Hi & C & Hr & Hn & Hdv & Hf & E1 & E2 & E3 & Hl & Hh).
  assert (M : mapped (Z.of_nat (length D)) V ip1).
  { eapply mapped_ext; [by apply (tr_mapped _ _ _ Tr n)|done..]. }
  assert (EC : contents V ip1 = contents V (inode_on V n)) by by apply contents_ext.
  eapply dirlookup_wp; [exact Hdy|exact Hi|exact M|exact Hdv|rewrite E2; by apply (tr_size _ _ _ Tr n)|exact Hnm
    |exact Hq|by rewrite E1|rewrite EC..].
  - intros s1 E H1. by apply HN.
  - intros m o s1 E H1. eapply (iget_wp D T V Dy g x (Some i)); [exact H1|exact C| |].
    + rewrite Hl. pose proof (actives_bound V (Some i) I1 (n :: l0) C) as Hb.
      assert (length (actives I1) ≤ S (length l0))%nat; [|unfold NINODE in *; lia].
      apply Hb. intros m'. rewrite Hh. case_decide as Hd; [intros _; rewrite Hd; left|].
      rewrite Z.add_0_r. intros Hm. right. by apply Hl0.
    + intros j I2 s2 H2 G. by eapply HS.
Qed.

(** From there to the next directory, the first one given back. *)
Lemma descend_wp n i I1 m j I2 Q s : quiet I2 s → locked_at n i I1 → got V (Some i) m I1 j I2 → P n →
  (∀ s' I', quiet I' s' → at_inode m j I' → Q () s') → wp (iunlockput i) Q s.
Proof.
  intros Hq L [G1 G2 (jp & Hj & Hjr & Hjn & Hnew) G4 G5] HP HQ.
  destruct (locked_entry _ _ _ L) as (ip1 & Hi & C & Hr & Hn & _ & Hf & _ & _ & _ & Hl & Hh).
  assert (Hi2 : ∃ ip2, I2 !! i = Some ip2 ∧ 0 < i_ref ip2 ∧ i_inum ip2 = n ∧ i_flags ip2 = Z.lor I_BUSY I_VALID ∧
    (i = j → m = n ∧ 1 < i_ref ip2)).
  { destruct (decide (i = j)) as [<-|Hne]; [|exists ip1; rewrite (G5 i ip1 Hne Hr Hi); by split_and!].
    specialize (Hnew ip1 Hi Hr) as ->. eexists. split; [exact Hj|]. simpl in *. split_and!; [lia|done|done|]. intros _. split; [congruence|lia]. }
  destruct Hi2 as (ip2 & Hi2 & Hr2 & Hn2 & Hf2 & Hij). pose proof (lookup_lt_Some _ _ _ Hi2).
  eapply iunlockput_wp; [exact Hq|exact G1|exact Hi2|exact Hr2|exact Hf2|rewrite Hn2; by apply (tr_nlink _ _ _ Tr)|].
  intros s1 I' H1 [K1 K2 K3] EI. eapply HQ; [exact H1|]. constructor; [done|by rewrite K2, G2| |].
  - rewrite EI. destruct (decide (i = j)) as [<-|Hne].
    + eexists. rewrite list_lookup_insert_eq by done. split; [done|]. destruct (Hij eq_refl). simpl. split; [lia|congruence].
    + exists jp. by rewrite list_lookup_insert_ne.
  - intros m'. rewrite K3, G4, Hh, Hn2. destruct (decide (m' = m)), (decide (m' = n)); lia.
Qed.

Lemma name_key_take w name : Str.cstr name = take DIRSIZ w → name_key name = take DIRSIZ w.
Proof. intros H. unfold name_key. by rewrite H, take_take, Nat.min_id. Qed.

(** Giving back a pointer to an inode that is not locked. *)
Lemma drop_wp n i I Q s : quiet I s → at_inode n i I → P n →
  (∀ s' I', quiet I' s' → none_held I' → Q () s') → wp (iput i) Q s.
Proof.
  intros Hq A HP HQ. destruct (ai_entry _ _ _ A) as (ip & Hi & Hr & Hn).
  eapply iput_wp; [exact Hq|apply A|exact Hi|exact Hr| |].
  - destruct (decide (i_flags ip = 0)) as [|Hf]; [by left|right].
    rewrite <-(cl_valid _ _ _ (ai_clean _ _ _ A) i ip Hi Hr Hf). simpl. rewrite Hn. by apply (tr_nlink _ _ _ Tr).
  - intros s1 I' H1 G _. eapply HQ; [exact H1|]. eapply gone_none; [exact A|]. by rewrite <-Hn.
Qed.

(** The loop finds what [walk] finds. *)
Lemma namex_loop_wp np : ∀ fuel path name n i I s, quiet I s → at_inode n i I → P n →
  Str.terminated path → Forall is_byte path → Forall is_byte name → length name = DIRSIZ →
  (length path < fuel)%nat →
  wp (namex_loop devsw fuel path np name i)
    (answers np (take DIRSIZ <$> elems path) (walk np V n (take DIRSIZ <$> elems path))) s.
Proof.
  induction fuel as [|fuel IH]; intros path name n i I s Hq A HP Ht Hb Hnb Hnl Hf; [lia|]. cbn [namex_loop].
  pose proof (skipelem_elems path name Ht Hnl) as He. destruct (elems path) as [|w ws] eqn:Eel.
  { rewrite He. destruct np; [|apply wp_ret; exists I; split; [done|]; by split]. apply wp_bind.
    eapply drop_wp; [exact Hq|exact A|exact HP|]. intros s1 I1 H1 N1. apply wp_ret. by exists I1. }
  destruct He as (path' & name' & E & Ews & Ek & Hl' & Ht' & Hlt & Hhd). rewrite E.
  destruct (skipelem_bytes _ _ _ _ Hb Hnb E) as [Hb' Hnb'].
  assert (Hkey : name_key name' = take DIRSIZ w) by by apply name_key_take.
  apply wp_bind. eapply lock_inode_wp; [exact Hq|exact A|exact HP|]. intros s1 I1 H1 L1.
  destruct (locked_entry _ _ _ L1) as (ip1 & Hi1 & _ & _ & _ & _ & _ & Ety & _).
  apply wp_bind. eapply quiet_geti; [exact H1|exact Hi1|]. rewrite Ety. rewrite fmap_cons. cbn [walk].
  destruct (Z.eqb_spec (d_type (dinode_of V n)) T_DIR) as [Hd|Hd]; cbn [negb].
  2:{ apply wp_bind. eapply drop_dir_wp; [exact H1|exact L1|exact HP|]. intros s2 I2 H2 N2. apply wp_ret. by exists I2. }
  assert (Hc : ∃ c, head path' = Some c).
  { destruct path' as [|c r]; [by apply elem_of_nil in Ht'|by exists c]. }
  destruct Hc as [c Hc]. apply wp_bind. eapply wp_deref; [exact Hc|]. rewrite length_fmap.
  assert (Hc0 : (c =? 0) = (length ws =? 0)%nat).
  { apply Bool.eq_iff_eq_true. rewrite Z.eqb_eq, Nat.eqb_eq. rewrite Hc in Hhd.
    split; intros Hz; [rewrite (proj1 Hhd) by congruence; done|].
    apply nil_length_inv in Hz. apply Hhd in Hz. congruence. }
  rewrite Hc0. destruct (np && (length ws =? 0)%nat) eqn:Enp.
  { apply andb_true_iff in Enp as [-> Hws]. apply Nat.eqb_eq, nil_length_inv in Hws as ->.
    apply wp_bind. eapply keep_dir_wp; [exact H1|exact L1|]. intros s2 I2 H2 A2. apply wp_ret.
    exists I2. split; [done|]. split; [done|]. intros _. cbn [snd]. by rewrite Hkey. }
  apply wp_bind. eapply (step_wp n i I1 name'); [exact H1|exact L1|exact HP|exact Hd|split; [done|right; by rewrite Hl']|..];
    rewrite Hkey.
  - intros -> s2 H2. apply wp_bind. eapply drop_dir_wp; [exact H2|exact L1|exact HP|].
    intros s3 I3 H3 N3. apply wp_ret. by exists I3.
  - intros m o j s2 I2 Ef H2 G2. rewrite Ef. apply wp_bind.
    eapply descend_wp; [exact H2|exact L1|exact G2|exact HP|]. intros s3 I3 H3 A3.
    assert (Hws : np = true → ws ≠ []) by (intros -> ->; done).
    eapply wp_mono; [apply (IH path' name' m j I3 s3); try done; [by eapply (tr_entry _ _ _ Tr n)|lia]|].
    rewrite Ews. intros r s4 (I4 & H4 & HA). exists I4. split; [done|].
    destruct (walk np V m (take DIRSIZ <$> ws)), (fst r); try done. destruct HA as [HA1 HA2]. split; [done|].
    intros Et. rewrite <-HA2 by done. destruct ws; [by destruct (Hws Et)|done].
Qed.
End Namex.

(** ** The theorem *)

(** The inode a lookup starts from: the root, or the current directory of the
    running process. *)
Definition starts {Ext} (path : list Z) (n : Z) (I : list inode)
    (s : core * (bio * (logst * (list inode * Ext)))) : Prop :=
  if decide (head path = Some 47) then n = ROOTINO
  else ∃ p pr d ip, cur (fst s) = Some p ∧ ptable (fst s) !! p = Some pr ∧ cwd pr = Some d ∧
    I !! d = Some ip ∧ 0 < i_ref ip ∧ i_inum ip = n.

(** The first pointer. *)
Lemma start_wp {Ext} D T V Dy g (x : Ext) I s path n0 ch :
  quiet D T V Dy g x I s → clean V None I → length I = NINODE → (length (actives I) ≤ NINODE - 2)%nat →
  head path = Some ch → starts path n0 I s →
  wp (if ch =? 47 then iget ROOTDEV ROOTINO else p ← myproc; o ← getp p cwd; d ← deref o; idup d)
    (λ i s1, ∃ I1, quiet D T V Dy g x I1 s1 ∧ at_inode V (λ m, held m I) n0 i I1) s.
Proof.
  intros Hq C Hl Hroom Hc Hs. unfold starts in Hs. rewrite Hc in Hs. destruct (Z.eqb_spec ch 47) as [->|Hne].
  - rewrite decide_True in Hs by done. subst n0.
    eapply (iget_wp D T V Dy g x None); [exact Hq|exact C|unfold NINODE in *; lia|].
    intros i I1 s1 H1 [G1 G2 (ip & Hi & Hr & Hn & _) G4 _]. exists I1. split; [done|].
    constructor; [done|by rewrite G2|by exists ip|exact G4].
  - rewrite decide_False in Hs by congruence. destruct Hs as (p & pr & d & ip & E1 & E2 & E3 & Hi & Hr & Hn).
    apply wp_bind, (wp_myproc p); [done|]. apply wp_bind, (wp_getp p _ pr); [done|].
    rewrite E3. apply wp_bind. eapply wp_deref; [done|]. unfold idup. apply wp_bind.
    eapply quiet_acquire; [exact Hq|]. intros s1 H1. apply wp_bind. eapply held_seti; [exact H1|exact Hi|].
    intros s2 H2. apply wp_bind. eapply quiet_release; [exact H2|]. intros s3 H3. apply wp_ret.
    destruct (got_hit V None n0 I d ip C Hi Hr Hn) as [G1 G2 (ip' & Hi' & Hr' & Hn' & _) G4 _].
    eexists. split; [exact H3|]. constructor; [done|by rewrite G2|by exists ip'|exact G4].
Qed.

(** Path lookup from the start of a path. *)
Lemma namex_wp {Ext} devsw D T V Dy g (x : Ext) P I s np path name n0
    (Hdy : (size Dy ≤ 8)%nat) (Tr : tree (Z.of_nat (length D)) V P)
    (Hq : quiet D T V Dy g x I s) (C : clean V None I) (Hl : length I = NINODE)
    (Hroom : (length (actives I) ≤ NINODE - 2)%nat)
    (Ht : Str.terminated path) (Hb : Forall is_byte path) (Hnb : Forall is_byte name) (Hnl : length name = DIRSIZ)
    (Hs : starts path n0 I s) (HP : P n0) :
  let names := take DIRSIZ <$> elems path in
  wp (namex devsw path np name) (λ r s', ∃ I', quiet D T V Dy g x I' s' ∧ clean V None I' ∧ length I' = NINODE ∧
    match walk np V n0 names, fst r with
    | Some n, Some i =>
        (∃ ip, I' !! i = Some ip ∧ 0 < i_ref ip ∧ i_inum ip = n) ∧
        (∀ m, held m I' = held m I + (if decide (m = n) then 1 else 0)) ∧
        (np = true → list.last names = Some (name_key (snd r)))
    | None, None => ∀ m, held m I' = held m I
    | _, _ => False
    end) s.
Proof.
  intros names. unfold namex.
  assert (Hc : ∃ ch, head path = Some ch) by (destruct path as [|ch r]; [by apply elem_of_nil in Ht|by exists ch]).
  destruct Hc as [ch Hc]. apply wp_bind. eapply wp_deref; [exact Hc|]. apply wp_bind.
  eapply wp_mono; [by eapply start_wp|]. intros i s1 (I1 & H1 & A1).
  eapply wp_mono; [apply (namex_loop_wp devsw D T V Dy g x Hdy P Tr (λ m, held m I) (actives I)) with (n := n0) (I := I1);
    try done; [|lia]; intros m; apply actives_elem|].
  intros r s' (I' & H' & HA). exists I'. split; [exact H'|]. fold names in HA.
  destruct (walk np V n0 names), (fst r); try done.
  - destruct HA as [[A1' A2' A3' A4'] A5']. by split_and!.
  - destruct HA as [A1' A2' A3']. by split_and!.
Qed.

(** C9. Path lookup.  On a quiet file system, with at most 48 inodes in use, and
    directories that are in order, [namex] returns what following the elements
    of the path (each cut to 14 bytes) through the directory contents on the
    disk gives: an entry of the inode cache for that inode with one pointer
    more than before, or null when a name is missing or an inode on the way is
    no directory.  Every other pointer it took is given back, and nothing is
    left locked.  With [nameiparent] it is the directory of the last element,
    and the buffer has that element. *)
Theorem namex_resolves {Ext} devsw D T V Dy g (x : Ext) P I s np path name n0
    (Hdy : (size Dy ≤ 8)%nat) (Tr : tree (Z.of_nat (length D)) V P)
    (Hq : quiet D T V Dy g x I s) (C : clean V None I) (Hl : length I = NINODE)
    (Hroom : (length (actives I) ≤ NINODE - 2)%nat)
    (Ht : Str.terminated path) (Hb : Forall is_byte path) (Hnb : Forall is_byte name) (Hnl : length name = DIRSIZ)
    (Hs : starts path n0 I s) (HP : P n0) :
  let names := take DIRSIZ <$> elems path in
  wp (namex devsw path np name) (λ r s', ∃ I', quiet D T V Dy g x I' s' ∧ clean V None I' ∧ length I' = NINODE ∧
    match walk np V n0 names, fst r with
    | Some n, Some i =>
        (∃ ip, I' !! i = Some ip ∧ 0 < i_ref ip ∧ i_inum ip = n) ∧
        (∀ m, held m I' = held m I + (if decide (m = n) then 1 else 0)) ∧
        (np = true → list.last names = Some (name_key (snd r)))
    | None, None => ∀ m, held m I' = held m I
    | _, _ => False
    end) s.
Proof. by eapply namex_wp. Qed.

(** A disk of four blocks: a root directory with one file, "a". *)
Definition nx_dir : list Z := dirent_bytes 1 ([46] ++ replicate 13 0) ++ dirent_bytes 1 ([46; 46] ++ replicate 12 0) ++
  dirent_bytes 2 ([97] ++ replicate 13 0).
Definition nx_disk : list (list Z) :=
  [replicate BSIZE 0; replicate BSIZE 0;
   put_dinode 2 (mkDinode T_FILE 0 0 1 0 (replicate 13 0))
     (put_dinode 1 (mkDinode T_DIR 0 0 1 48 (3 :: replicate 12 0)) (replicate BSIZE 0));
   nx_dir ++ replicate (BSIZE - 48) 0].
Definition nx_V : Z → list Z := dview nx_disk.
Definition nx_P (n : Z) : Prop := n = 1 ∨ n = 2.
(** "/a". *)
Definition nx_path : list Z := [47; 97; 0].

Lemma nx_blocks : Forall block_ok nx_disk.
Proof.
  assert (Hz : block_ok (replicate BSIZE 0)) by (split; [done|by apply Forall_replicate]).
  assert (B : ∀ n d, length (d_addrs n) = 13%nat → block_ok d → ∀ i, 0 ≤ i → block_ok (put_dinode i n d)).
  { intros n d Hn Hd i Hi. apply splice_block; [|apply dinode_bytes_range|done].
    rewrite dinode_bytes_length by done. by apply dinode_off_block. }
  repeat (apply list.Forall_cons; split); [done|done|by repeat apply B| |done].
  split; [done|]. unfold nx_dir, dirent_bytes. rewrite !Forall_app.
  split_and!; try apply le_bytes_range; try (by apply Forall_replicate); repeat constructor; lia.
Qed.

Lemma nx_tree : tree 4 nx_V nx_P.
Proof.
  assert (Hm : mapped 4 nx_V (inode_on nx_V 1)).
  { constructor; [done|by vm_compute|by vm_compute|done|by vm_compute|..].
    - intros k Hk. change (0 ≤ k < 1) in Hk. replace k with 0 by lia. by vm_compute.
    - intros k Hk. change (0 ≤ k < 1) in Hk. replace k with 0 by lia.
      pose proof (Forall_lookup_1 _ nx_disk 3 _ nx_blocks eq_refl) as Hb. exact Hb. }
  constructor.
  - by intros n [-> | ->].
  - by intros n [-> | ->].
  - by intros n [-> | ->].
  - by intros n [-> | ->].
  - by intros n [-> | ->].
  - intros n w m o [-> | ->]; [|done]. intros _ H. apply dir_scan_elem in H.
    assert (E : (λ j : nat, de_inum (sublist (0 + 16 * j) 16 (contents nx_V (inode_on nx_V 1)))) <$>
      seq 0 (length (contents nx_V (inode_on nx_V 1)) / 16) = [1; 1; 2]) by (by vm_compute).
    rewrite E in H. clear -H. unfold nx_P. rewrite !elem_of_cons, elem_of_nil in H. tauto.
Qed.

Lemma nx_quiet : quiet nx_disk [] nx_V ∅ log0 () icache0 (core0, (mkBio init_bufs nx_disk [], (log0, (icache0, ())))).
Proof.
  exists core0, (mkBio init_bufs nx_disk []). split_and!; [done|apply cache_init, nx_blocks| |].
  - split; apply not_elem_of_empty.
  - apply not_elem_of_empty.
Qed.

Lemma clean_boot V : clean V None icache0.
Proof.
  constructor.
  - intros i ip Hi. apply lookup_replicate in Hi as [-> _]. by left.
  - intros i ip Hi. by apply lookup_replicate in Hi as [-> _].
  - intros i ip Hi Hr. by apply lookup_replicate in Hi as [-> _].
  - intros i ip Hi Hr. by apply lookup_replicate in Hi as [-> _].
  - intros i j ip jp Hi Hj Hr. by apply lookup_replicate in Hi as [-> _].
Qed.

Lemma namex_resolves_witness :
  wp (namex (λ _, None) nx_path false (replicate DIRSIZ 0)) (λ r s', ∃ I' i, fst r = Some i ∧ held 2 I' = 1 ∧ held 1 I' = 0)
    (core0, (mkBio init_bufs nx_disk [], (log0, (icache0, ())))).
Proof.
  eapply wp_mono.
  - apply (namex_resolves (λ _, None) nx_disk [] nx_V ∅ log0 () nx_P icache0 _ false nx_path (replicate DIRSIZ 0) 1).
    + rewrite size_empty. lia.
    + exact nx_tree.
    + exact nx_quiet.
    + apply clean_boot.
    + done.
    + vm_compute. lia.
    + right. right. left.
    + repeat constructor; lia.
    + by apply Forall_replicate.
    + done.
    + done.
    + by left.
  - intros [o nm] s' (I' & _ & _ & _ & H).
    replace (walk false nx_V 1 (take DIRSIZ <$> elems nx_path)) with (Some 2) in H by (by vm_compute).
    cbn [fst] in *. destruct o as [i|]; [|done]. destruct H as (_ & Hh & _). exists I', i.
    split_and!; [done|by rewrite (Hh 2)|by rewrite (Hh 1)].
Defined.
