(* ===== verification/Mkfs.v ===== *)
(** * The file system image builder (mkfs.c)

    mkfs runs on the machine that builds xv6: it writes a disk image and copies
    files into it.  The image is its list of 512-byte sectors.  What mkfs does
    with bytes of the host's order is kept: [hval] and [hbytes] are how the host
    reads and stores an integer in memory, [xint] and [xshort] turn a number
    into one whose bytes in memory are those of the Intel order.  A [struct
    dinode] in memory is its 64 bytes.  The host may refuse to write a sector.
    A failed [assert], [exit(1)] and [perror] end the run ([Panic]); what is
    printed on the way is left out. *)
From S2P Require Import Prelude CString Bio Fs.

(** ** State *)

(** The image, and the globals of mkfs.c that change. *)
Record mkst := mkMkst {
  img : list (list Z); freeblock : Z; usedblocks : Z; freeinode : Z }.
Definition set_img f s := mkMkst (f (img s)) (freeblock s) (usedblocks s) (freeinode s).

Definition nblocks : Z := 25000.
Definition nlog : Z := 10.
Definition ninodes : Z := 200.
Definition fssize : Z := 25045.
Definition bitblocks : Z := fssize / (512 * 8) + 1.

(** The sector list after [lseek] and [write]: the file grows by zeros up to
    the offset. *)
Definition put_sector (sec : nat) (buf : list Z) (d : list (list Z)) : list (list Z) :=
  take sec (d ++ replicate (sec - length d) (replicate 512 0)) ++ buf :: drop (S sec) d.

(** [index] of the C library. *)
Fixpoint index (s : list Z) (c : Z) : option (list Z) :=
  match s with
  | [] => None
  | x :: s' => if x =? c then Some s else if x =? 0 then None else index s' c
  end.

(** The bits of the first [used] blocks, set in turn from [i] on. *)
Fixpoint mark_used (n : nat) (i : Z) (buf : list Z) : list Z :=
  match n with
  | O => buf
  | S n' => mark_used n' (i + 1) (set_bit i buf)
  end.

(** [++argv[i]] over a leading underscore. *)
Definition strip (argv : list Z) : list Z :=
  match argv with c :: s => if c =? 95 then s else argv | [] => argv end.

Section Mkfs.
(** The host: its byte order, and the sectors it can write. *)
Context (big : bool) (can_write : Z → bool).

Definition hval (bs : list Z) : Z := le_val (if big then reverse bs else bs).
Definition hbytes (n : nat) (v : Z) : list Z := if big then reverse (le_bytes n v) else le_bytes n v.

Definition xshort (x : Z) : Z := hval [u8 x; u8 (Z.shiftr x 8)].
Definition xint (x : Z) : Z :=
  hval [u8 x; u8 (Z.shiftr x 8); u8 (Z.shiftr x 16); u8 (Z.shiftr x 24)].

(** *** Fields of a [struct dinode] in memory *)

Definition din_size (din : list Z) : Z := hval (sublist 8 4 din).
Definition set_din_size (v : Z) (din : list Z) : list Z := splice 8 (hbytes 4 v) din.
Definition din_addr (k : nat) (din : list Z) : Z := hval (sublist (12 + 4 * k) 4 din).
Definition set_din_addr (k : nat) (v : Z) (din : list Z) : list Z :=
  splice (12 + 4 * k) (hbytes 4 v) din.

(** *** Sectors *)

Definition wsect (sec : Z) (buf : list Z) : M mkst unit :=
  if can_write sec then modify (set_img (put_sector (Z.to_nat sec) buf)) else panic "write".
Definition rsect (sec : Z) : M mkst (list Z) :=
  o ← gets (λ s, img s !! Z.to_nat sec);
  match o with Some buf => mret buf | None => panic "read" end.

(** [freeblock++] with [usedblocks++]. *)
Definition next_block : M mkst Z :=
  b ← gets freeblock;
  modify (λ s, mkMkst (img s) (u32 (freeblock s + 1)) (u32 (usedblocks s + 1)) (freeinode s)) ;;
  mret b.

(** *** Inodes *)

Definition i2b (inum : Z) : Z := u32 (inum / IPB + 2).

Definition winode (inum : Z) (ip : list Z) : M mkst unit :=
  let bn := i2b inum in
  buf ← rsect bn;
  wsect bn (splice (dinode_off inum) ip buf).

Definition rinode (inum : Z) : M mkst (list Z) :=
  buf ← rsect (i2b inum);
  mret (sublist (dinode_off inum) DINODE buf).

(** The inode that [ialloc] writes: all zero but for its type and one link. *)
Definition new_din (type : Z) : list Z :=
  set_din_size (xint 0) (splice 6 (hbytes 2 (xshort 1)) (splice 0 (hbytes 2 (xshort type))
    (replicate DINODE 0))).

Definition ialloc (type : Z) : M mkst Z :=
  inum ← gets freeinode;
  modify (λ s, mkMkst (img s) (freeblock s) (usedblocks s) (u32 (freeinode s + 1))) ;;
  winode inum (new_din type) ;;
  mret inum.

Definition balloc (used : Z) : M mkst unit :=
  if 512 * 8 <=? used then panic "used < 512*8" else
  wsect (ninodes / IPB + 3) (mark_used (Z.to_nat used) 0 (replicate 512 0)).

(** The block for file block [fbn], allocated when there is none; the first
    component is the inode, which may have got an address. *)
Definition block_for (fbn : Z) (din : list Z) : M mkst (list Z * Z) :=
  if fbn <? NDIRECT then
    let k := Z.to_nat fbn in
    din ← (if xint (din_addr k din) =? 0
           then b ← next_block; mret (set_din_addr k (xint b) din) else mret din);
    mret (din, xint (din_addr k din))
  else
    let ki := Z.to_nat NDIRECT in
    din ← (if xint (din_addr ki din) =? 0
           then b ← next_block; mret (set_din_addr ki (xint b) din) else mret din);
    indirect ← rsect (xint (din_addr ki din));
    let o := (4 * Z.to_nat (fbn - NDIRECT))%nat in
    indirect ← (if hval (sublist o 4 indirect) =? 0
                then b ← next_block;
                     let indirect := splice o (hbytes 4 (xint b)) indirect in
                     wsect (xint (din_addr ki din)) indirect ;; mret indirect
                else mret indirect);
    mret (din, xint (hval (sublist o 4 indirect))).

(** The loop of [iappend]: the inode and the offset it ends with. *)
Fixpoint iappend_loop (fuel : nat) (din : list Z) (p : list Z) (off : Z) : M mkst (list Z * Z) :=
  match fuel with
  | O => fault
  | S f =>
      if 0 <? Z.of_nat (length p) then
        let fbn := off / 512 in
        if MAXFILE <=? fbn then panic "fbn < MAXFILE" else
        r ← block_for fbn din;
        let '(din, x) := r in
        let n1 := Z.min (Z.of_nat (length p)) ((fbn + 1) * 512 - off) in
        buf ← rsect x;
        wsect x (splice (Z.to_nat (off - fbn * 512)) (take (Z.to_nat n1) p) buf) ;;
        iappend_loop f din (drop (Z.to_nat n1) p) (u32 (off + n1))
      else mret (din, off)
  end.

(** [iappend(inum, xp, n)]; [p] are the [n] bytes at [xp]. *)
Definition iappend (inum : Z) (p : list Z) : M mkst unit :=
  din ← rinode inum;
  r ← iappend_loop (S (length p)) din p (xint (din_size din));
  winode inum (set_din_size (xint (snd r)) (fst r)).

(** *** main *)

(** A [struct dirent] as it is filled in: the number, then the name field. *)
Definition de_bytes (inum : Z) (name : list Z) : list Z := hbytes 2 (xshort inum) ++ name.
Definition strcpy_name (s : list Z) : list Z := splice 0 s (replicate DIRSIZ 0).

(** The superblock as it lies in memory. *)
Definition sb_bytes : list Z :=
  hbytes 4 (xint fssize) ++ hbytes 4 (xint nblocks) ++ hbytes 4 (xint ninodes) ++ hbytes 4 (xint nlog).

(** What successive [read]s of a file give; an empty one is its end. *)
Fixpoint append_reads (inum : Z) (reads : list (list Z)) : M mkst unit :=
  match reads with
  | [] => mret ()
  | buf :: reads' =>
      if 0 <? Z.of_nat (length buf) then iappend inum buf ;; append_reads inum reads' else mret ()
  end.

(** One file of the command line: its name with the terminator, and the reads
    when it can be opened. *)
Definition add_file (rootino : Z) (a : list Z * option (list (list Z))) : M mkst unit :=
  let '(argv, file) := a in
  match index argv 47 with Some _ => panic "index(argv[i], '/') == 0" | None =>
  match file with None => panic "open" | Some reads =>
    let name := strip argv in
    inum ← ialloc T_FILE;
    nm ← deref (Str.strncpy (replicate DIRSIZ 0) name DIRSIZ);
    iappend rootino (de_bytes inum nm) ;;
    append_reads inum reads
  end end.

(** The last lines: the size of the root directory is rounded up. *)
Definition fix_root (rootino : Z) : M mkst unit :=
  din ← rinode rootino;
  let off := xint (din_size din) in
  let off := u32 ((off / Z.of_nat BSIZE + 1) * Z.of_nat BSIZE) in
  winode rootino (set_din_size (xint off) din).

(** [main]: the image file is missing from the command line ([None]), or can
    be opened or not; then the files to copy. *)
Definition main (image : option bool) (files : list (list Z * option (list (list Z)))) : M mkst unit :=
  match image with
  | None => panic "Usage: mkfs fs.img files..."
  | Some false => panic "open"
  | Some true =>
      let used0 := u32 (ninodes / IPB + 3 + bitblocks) in
      modify (λ s, mkMkst (img s) used0 used0 (freeinode s)) ;;
      if negb (nblocks + used0 + nlog =? fssize) then panic "nblocks + usedblocks + nlog == size" else
      for_each (seq 0 (Z.to_nat (nblocks + used0 + nlog))) (λ i, wsect (Z.of_nat i) (replicate 512 0)) ;;
      wsect 1 (splice 0 sb_bytes (replicate 512 0)) ;;
      rootino ← ialloc T_DIR;
      if negb (rootino =? ROOTINO) then panic "rootino == ROOTINO" else
      iappend rootino (de_bytes rootino (strcpy_name [46; 0])) ;;
      iappend rootino (de_bytes rootino (strcpy_name [46; 46; 0])) ;;
      for_each files (add_file rootino) ;;
      fix_root rootino ;;
      used ← gets usedblocks;
      balloc used
  end.

(** The program's data before [main]. *)
Definition mkst0 : mkst := mkMkst [] 0 0 1.

End Mkfs.
