(* ===== verification/MkfsFacts.v ===== *)
(** * The image mkfs builds

    A ghost map [own] says which file and which of its blocks a block of the
    image belongs to; blocks from [freeblock] on are zero.  [iappend] extends
    one file and leaves the others alone, and the image [main] leaves behind is
    one the kernel's file system accepts, with the files of the command line in
    it. *)
From S2P Require Import Prelude CString Core Bio BioFacts Cache Log LogFacts Fs FsInode FsFile FsAlloc Mkfs.

(** ** The host's byte order does not matter *)

Section Bytes.
Context (big : bool).

Lemma hbytes_length n v : length (hbytes big n v) = n.
Proof. unfold hbytes. destruct big; [rewrite length_reverse|]; apply le_bytes_length. Qed.

Lemma reverse_bytes l : Forall is_byte l → Forall is_byte (reverse l).
Proof. rewrite !list.Forall_forall. intros H x Hx. apply H. by rewrite elem_of_reverse in Hx. Qed.

Lemma hbytes_range n v : Forall is_byte (hbytes big n v).
Proof. unfold hbytes. destruct big; [apply reverse_bytes|]; apply le_bytes_range. Qed.

Lemma hbytes_hval bs : Forall is_byte bs → hbytes big (length bs) (hval big bs) = bs.
Proof.
  intros H. unfold hbytes, hval. destruct big; [|by apply le_bytes_val].
  rewrite <-(length_reverse bs), le_bytes_val by by apply reverse_bytes. apply reverse_involutive.
Qed.

Lemma xint_bytes x : xint big x = hval big (le_bytes 4 x).
Proof.
  unfold xint. f_equal. unfold u8. simpl. rewrite !Z.shiftr_div_pow2 by lia.
  change (2 ^ 8) with 256. change (2 ^ 16) with (256 * 256). change (2 ^ 24) with (256 * 256 * 256).
  by rewrite !Z.div_div by lia.
Qed.

Lemma xshort_bytes x : xshort big x = hval big (le_bytes 2 x).
Proof. unfold xshort. f_equal. unfold u8. simpl. by rewrite !Z.shiftr_div_pow2 by lia. Qed.

(** A number stored through [xint] has its bytes in Intel order, and [xint] of
    what memory holds is the number in Intel order. *)
Lemma hbytes_xint x : hbytes big 4 (xint big x) = le_bytes 4 x.
Proof.
  rewrite xint_bytes. rewrite <-(le_bytes_length 4 x) at 1. apply hbytes_hval, le_bytes_range.
Qed.

Lemma hbytes_xshort x : hbytes big 2 (xshort big x) = le_bytes 2 x.
Proof.
  rewrite xshort_bytes. rewrite <-(le_bytes_length 2 x) at 1. apply hbytes_hval, le_bytes_range.
Qed.

Lemma xint_hval bs : Forall is_byte bs → length bs = 4%nat → xint big (hval big bs) = le_val bs.
Proof.
  intros H L. rewrite xint_bytes. unfold hval. destruct big.
  - replace (le_bytes 4 (le_val (reverse bs))) with (reverse bs).
    + by rewrite reverse_involutive.
    + rewrite <-L, <-(length_reverse bs). symmetry. apply le_bytes_val. by apply reverse_bytes.
  - rewrite <-L. by rewrite le_bytes_val.
Qed.

Lemma hval_zero bs : Forall is_byte bs → (hval big bs =? 0) = (le_val bs =? 0).
Proof.
  intros H. destruct big eqn:E; [|done]. unfold hval.
  assert (Z0 : ∀ l, Forall is_byte l → (le_val l =? 0) = forallb (Z.eqb 0) l).
  { clear. induction 1 as [|x l Hx Hl IH]; [done|]. cbn [le_val forallb]. rewrite <-IH.
    pose proof (le_val_range l Hl). destruct (Z.eqb_spec 0 x) as [<-|]; cbn [andb].
    - apply Bool.eq_iff_eq_true. rewrite !Z.eqb_eq. lia.
    - apply Z.eqb_neq. unfold is_byte in Hx. lia. }
  rewrite !Z0 by auto using reverse_bytes. apply Bool.eq_iff_eq_true. rewrite !forallb_forall.
  split; intros A x Hx; apply A; rewrite <-?list_elem_of_In in *.
  - by apply elem_of_reverse.
  - by rewrite elem_of_reverse in Hx.
Qed.

End Bytes.

(** ** A [struct dinode] in memory *)

Definition din_ok (din : list Z) : Prop := length din = DINODE ∧ Forall is_byte din.

Lemma splice_bytes_length o new l : (o + length new ≤ length l)%nat → Forall is_byte new → Forall is_byte l →
  length (splice o new l) = length l ∧ Forall is_byte (splice o new l).
Proof.
  intros H1 H2 H3. split; [by apply splice_length|]. unfold splice.
  rewrite !Forall_app. split_and!; [by apply Forall_take|done|by apply Forall_drop].
Qed.

Lemma sublist_bytes o m l : Forall is_byte l → Forall is_byte (sublist o m l).
Proof. intros H. unfold sublist. by apply Forall_take, Forall_drop. Qed.

Section Din.
Context (big : bool) (din : list Z) (Hdin : din_ok din).

Lemma din_size_at : xint big (din_size big din) = d_size (dinode_at 0 din).
Proof.
  destruct Hdin as [Hl Hb]. unfold din_size. apply xint_hval; [by apply sublist_bytes|].
  apply sublist_length. rewrite Hl. unfold DINODE. lia.
Qed.

Lemma din_addr_at k : (k < 13)%nat →
  xint big (din_addr big k din) = default 0 (d_addrs (dinode_at 0 din) !! k).
Proof.
  destruct Hdin as [Hl Hb]. intros Hk. unfold din_addr. unfold dinode_at. cbn [d_addrs].
  rewrite list_lookup_fmap, lookup_seq_lt by done. apply xint_hval; [by apply sublist_bytes|].
  apply sublist_length. rewrite Hl. unfold DINODE. lia.
Qed.

Lemma set_word_ok o v : (o + 4 ≤ DINODE)%nat → din_ok (splice o (hbytes big 4 v) din).
Proof.
  destruct Hdin as [Hl Hb]. intros Ho.
  destruct (splice_bytes_length o (hbytes big 4 v) din) as [H1 H2];
    [rewrite hbytes_length; lia|apply hbytes_range|done|]. split; [lia|done].
Qed.

(** The fields after a word has been stored. *)
Lemma sublist_set_word o v k m : (o + 4 ≤ DINODE)%nat → (k + m ≤ DINODE)%nat →
  (k + m ≤ o ∨ o + 4 ≤ k)%nat →
  sublist k m (splice o (hbytes big 4 v) din) = sublist k m din.
Proof.
  destruct Hdin as [Hl _]. intros. apply sublist_splice_out; rewrite ?hbytes_length; lia.
Qed.

Lemma sublist_get_word o v : (o + 4 ≤ DINODE)%nat → 0 ≤ v < 2 ^ 32 →
  le_val (sublist o 4 (splice o (hbytes big 4 (xint big v)) din)) = v.
Proof.
  destruct Hdin as [Hl _]. intros Ho Hv. rewrite <-(hbytes_length big 4 (xint big v)) at 1.
  rewrite sublist_splice by (rewrite hbytes_length; lia). rewrite hbytes_xint.
  by apply le_val_bytes.
Qed.

Lemma set_din_size_at v : 0 ≤ v < 2 ^ 32 →
  let d := dinode_at 0 din in
  dinode_at 0 (set_din_size big (xint big v) din) =
    mkDinode (d_type d) (d_major d) (d_minor d) (d_nlink d) v (d_addrs d).
Proof.
  intros Hv d. unfold set_din_size, d, dinode_at, half_at. cbn [Nat.add d_type d_major d_minor d_nlink d_addrs].
  rewrite !sublist_set_word, sublist_get_word by (done || (unfold DINODE; lia)). f_equal.
  apply list_fmap_ext. intros i k Hk. apply lookup_seq in Hk as [-> Hk].
  rewrite sublist_set_word by (unfold DINODE; lia). done.
Qed.

Lemma set_din_addr_at k v : (k < 13)%nat → 0 ≤ v < 2 ^ 32 →
  let d := dinode_at 0 din in
  dinode_at 0 (set_din_addr big k (xint big v) din) =
    mkDinode (d_type d) (d_major d) (d_minor d) (d_nlink d) (d_size d) (<[k := v]> (d_addrs d)).
Proof.
  intros Hk Hv d. unfold set_din_addr, d, dinode_at, half_at.
  cbn [Nat.add d_type d_major d_minor d_nlink d_size d_addrs].
  rewrite !sublist_set_word by (unfold DINODE; lia). f_equal.
  apply list_eq. intros i. destruct (decide (i < 13)%nat) as [Hi|Hi].
  2:{ rewrite !lookup_ge_None_2; [done|..]; rewrite ?length_insert, length_fmap, length_seq; lia. }
  rewrite list_lookup_fmap, lookup_seq_lt by done. cbn [fmap option_fmap option_map].
  destruct (decide (i = k)) as [->|Hne].
  - rewrite list_lookup_insert_eq by (rewrite length_fmap, length_seq; lia). f_equal.
    apply sublist_get_word; [unfold DINODE; lia|done].
  - rewrite list_lookup_insert_ne, list_lookup_fmap, lookup_seq_lt by done. cbn [fmap option_fmap option_map]. do 2 f_equal.
    apply sublist_set_word; unfold DINODE; lia.
Qed.

(** Stored in a block of inodes, and taken from one. *)
Lemma get_dinode_splice inum blk : block_ok blk → 0 ≤ inum →
  block_ok (splice (dinode_off inum) din blk) ∧
  get_dinode inum (splice (dinode_off inum) din blk) = dinode_at 0 din ∧
  ∀ j, 0 ≤ j → j mod IPB ≠ inum mod IPB →
    get_dinode j (splice (dinode_off inum) din blk) = get_dinode j blk.
Proof.
  destruct Hdin as [Hl Hb]. intros Hk Hi. pose proof (dinode_off_block inum Hi) as Ho.
  pose proof (proj1 Hk) as Hbl. split_and!.
  - apply splice_block; [lia|done|done].
  - apply (dinode_at_new (dinode_off inum)); lia.
  - intros j Hj Hne. pose proof (dinode_off_block j Hj).
    apply (dinode_at_old (dinode_off inum) (dinode_off j)); [done|lia|lia|].
    by apply dinode_off_apart.
Qed.

End Din.

Lemma take_din inum blk : block_ok blk → 0 ≤ inum →
  din_ok (sublist (dinode_off inum) DINODE blk) ∧
  dinode_at 0 (sublist (dinode_off inum) DINODE blk) = get_dinode inum blk.
Proof.
  intros [Hl Hb] Hi. pose proof (dinode_off_block inum Hi) as Ho. split.
  - split; [apply sublist_length; lia|by apply sublist_bytes].
  - apply (dinode_at_ext 0 (dinode_off inum)). intros k m Hk. unfold sublist. simpl.
    rewrite skipn_firstn_comm, take_take, drop_drop, Nat.min_l by lia. done.
Qed.

Lemma new_din_ok big type : 0 ≤ type < 2 ^ 15 →
  din_ok (new_din big type) ∧ dinode_at 0 (new_din big type) = mkDinode type 0 0 1 0 (replicate 13 0).
Proof.
  intros Ht. unfold new_din. rewrite !hbytes_xshort.
  assert (H : din_ok (splice 6 (le_bytes 2 1) (splice 0 (le_bytes 2 type) (replicate DINODE 0)))).
  { assert (Hz : Forall is_byte (replicate DINODE 0)) by by apply Forall_replicate.
    destruct (splice_bytes_length 0 (le_bytes 2 type) (replicate DINODE 0)) as [H1 H2];
      [rewrite le_bytes_length; simpl; lia|apply le_bytes_range|done|].
    destruct (splice_bytes_length 6 (le_bytes 2 1) (splice 0 (le_bytes 2 type) (replicate DINODE 0))) as [H3 H4];
      [rewrite le_bytes_length, H1; simpl; lia|apply le_bytes_range|done|].
    split; [by rewrite H3, H1|done]. }
  split; [apply set_word_ok; [done|unfold DINODE; lia]|].
  rewrite set_din_size_at by done. unfold dinode_at, half_at.
  cbn [d_type d_major d_minor d_nlink d_size d_addrs].
  change (splice 6 (le_bytes 2 1) (splice 0 (le_bytes 2 type) (replicate DINODE 0)))
    with ([type mod 256; type / 256 mod 256; 0; 0; 0; 0; 1; 0] ++ replicate 56 0).
  f_equal. unfold i16. cbn. assert (0 ≤ type / 256 < 256).
  { split; [apply Z.div_pos; lia|apply Z.div_lt_upper_bound; lia]. }
  rewrite (Z.mod_small (type / 256)) by lia. pose proof (Z.div_mod type 256 ltac:(done)).
  rewrite Z.mod_small; lia.
Qed.

(** ** Sectors of the image *)

Section Sectors.
Context (can_write : Z → bool).
Hypothesis Hcw : ∀ b, 0 ≤ b < fssize → can_write b = true.
Implicit Types (s : mkst).

Definition iview s : Z → list Z := dview (img s).

(** The image after sector [b] has been replaced. *)
Definition put_img (b : Z) (buf : list Z) s : mkst := set_img (insert (Z.to_nat b) buf) s.

Lemma iview_put b buf s b' : 0 ≤ b < Z.of_nat (length (img s)) → 0 ≤ b' →
  iview (put_img b buf s) b' = if decide (b' = b) then buf else iview s b'.
Proof.
  intros Hb Hb'. unfold iview, dview, put_img. simpl. destruct (decide (b' = b)) as [->|Hne].
  - rewrite list_lookup_insert_eq by lia. done.
  - by rewrite list_lookup_insert_ne by lia.
Qed.

Lemma wp_rsect b Q s : 0 ≤ b < Z.of_nat (length (img s)) → Q (iview s b) s → wp (rsect b) Q s.
Proof.
  intros Hb HQ. unfold rsect. apply wp_bind, wp_gets. unfold iview, dview in HQ.
  destruct (lookup_lt_is_Some_2 (img s) (Z.to_nat b)) as [d Hd]; [lia|]. rewrite Hd in HQ |- *. by apply wp_ret.
Qed.

Lemma wp_wsect b buf Q s : 0 ≤ b < Z.of_nat (length (img s)) → Z.of_nat (length (img s)) ≤ fssize →
  Q () (put_img b buf s) → wp (wsect can_write b buf) Q s.
Proof.
  intros Hb Hl HQ. unfold wsect. rewrite Hcw by lia. apply wp_modify.
  replace (set_img (put_sector (Z.to_nat b) buf) s) with (put_img b buf s); [done|].
  unfold put_img, set_img, put_sector. f_equal.
  replace (Z.to_nat b - length (img s))%nat with 0%nat by lia. simpl. rewrite app_nil_r.
  apply insert_take_drop. lia.
Qed.

End Sectors.

(** ** The blocks of a file *)

Definition first_data : Z := ninodes / IPB + 3 + bitblocks.
Definition ipa (ad : list Z) : inode := mkInode 0 0 0 0 0 0 0 0 0 ad.
(** The address of file block [k], and of the indirect block. *)
Definition slot (V : Z → list Z) (ad : list Z) (k : Z) : Z := baddr V (ipa ad) k.
Definition indb (ad : list Z) : Z := default 0 (aget ad NDIRECT).
Abbreviation ownmap := (Z → nat * Z).

(** The first [nb] blocks of file [n] have addresses below [fb] that [own]
    says are theirs; the others have none. *)
Record amap (V : Z → list Z) (own : ownmap) (n : nat) (fb : Z) (ad : list Z) (nb : Z) : Prop := {
  am_len : length ad = 13%nat;
  am_nb : 0 ≤ nb ≤ MAXFILE;
  am_ind : (indb ad = 0 ∧ nb ≤ NDIRECT) ∨ (first_data ≤ indb ad < fb ∧ own (indb ad) = (n, -1));
  am_slot k : 0 ≤ k < MAXFILE →
    if k <? nb then first_data ≤ slot V ad k < fb ∧ own (slot V ad k) = (n, k) else slot V ad k = 0 }.

(** The owner map when block [b] is given away. *)
Definition give (own : ownmap) (b : Z) (o : nat * Z) : ownmap := λ b', if decide (b' = b) then o else own b'.

Lemma slot_direct V ad k : 0 ≤ k < NDIRECT → slot V ad k = default 0 (ad !! Z.to_nat k).
Proof.
  intros Hk. unfold slot, baddr. rewrite (proj2 (Z.ltb_lt _ _)) by lia. cbn [ipa i_addrs].
  unfold aget. by rewrite (proj2 (Z.ltb_ge _ _)) by lia.
Qed.
Lemma slot_indirect V ad k : NDIRECT ≤ k < MAXFILE →
  slot V ad k = default 0 (word_at (Z.to_nat (k - NDIRECT)) (V (indb ad))).
Proof.
  intros Hk. unfold slot, baddr. rewrite (proj2 (Z.ltb_ge _ _)) by lia.
  rewrite (proj2 (Z.ltb_lt _ _)) by (unfold MAXFILE in Hk; lia). done.
Qed.

Lemma word_at_zero i : default 0 (word_at i zero_block) = 0.
Proof.
  unfold word_at. case_decide as H; [|done]. simpl. unfold sublist, zero_block in *.
  rewrite drop_replicate, take_replicate. apply le_val_zeros.
Qed.

Section Amap.
Context (V : Z → list Z) (own : ownmap) (n : nat) (fb : Z) (ad : list Z) (nb : Z).
Hypothesis A : amap V own n fb ad nb.
Hypothesis Hfb : first_data ≤ fb.
Hypothesis HV0 : V 0 = zero_block.

(** What the map depends on. *)
Lemma amap_frame V' own' fb' : fb ≤ fb' → V' 0 = zero_block →
  (∀ b, first_data ≤ b < fb → own' b = own b) →
  (∀ b, first_data ≤ b < fb → own b = (n, -1) → V' b = V b) →
  amap V' own' n fb' ad nb ∧ ∀ k, 0 ≤ k < MAXFILE → slot V' ad k = slot V ad k.
Proof.
  intros Hle HV0' Ho HV. assert (HVi : V' (indb ad) = V (indb ad)).
  { destruct (am_ind _ _ _ _ _ _ A) as [[-> _]|[Hr Hi]]; [congruence|by apply HV]. }
  assert (Hs : ∀ k, 0 ≤ k < MAXFILE → slot V' ad k = slot V ad k).
  { intros k Hk. destruct (decide (k < NDIRECT)); [by rewrite !slot_direct by lia|].
    rewrite !slot_indirect by lia. by rewrite HVi. }
  split; [|done]. destruct A as [H1 H2 H3 H4]. constructor; [done|done| |].
  - destruct H3 as [|[Hr Hi]]; [by left|right]. rewrite Ho by done. split; [lia|done].
  - intros k Hk. specialize (H4 k Hk). rewrite Hs by done. destruct (k <? nb); [|done].
    destruct H4. rewrite Ho by done. split; [lia|done].
Qed.

(** A direct block is added. *)
Lemma amap_direct : nb < NDIRECT → 
  amap V (give own fb (n, nb)) n (fb + 1) (<[Z.to_nat nb := fb]> ad) (nb + 1) ∧
  slot V (<[Z.to_nat nb := fb]> ad) nb = fb ∧
  (∀ k, 0 ≤ k < nb → slot V (<[Z.to_nat nb := fb]> ad) k = slot V ad k) ∧
  indb (<[Z.to_nat nb := fb]> ad) = indb ad.
Proof.
  intros Hd. destruct A as [H1 H2 H3 H4]. set (ad' := <[Z.to_nat nb := fb]> ad).
  assert (Hi : indb ad' = indb ad).
  { unfold indb, aget, ad'. simpl. rewrite list_lookup_insert_ne; [done|]. unfold NDIRECT in *. lia. }
  assert (Hn : slot V ad' nb = fb).
  { rewrite slot_direct by lia. unfold ad'. rewrite list_lookup_insert_eq; [done|]. unfold NDIRECT in *. lia. }
  assert (Hs : ∀ k, 0 ≤ k < MAXFILE → k ≠ nb → slot V ad' k = slot V ad k).
  { intros k Hk Hne. destruct (decide (k < NDIRECT)).
    - rewrite !slot_direct by lia. unfold ad'. by rewrite list_lookup_insert_ne by lia.
    - rewrite !slot_indirect by lia. by rewrite Hi. }
  split_and!; [|done|intros; apply Hs; lia|done]. constructor.
  - unfold ad'. by rewrite length_insert.
  - change MAXFILE with 140 in *. unfold NDIRECT in *. lia.
  - rewrite Hi. unfold give. destruct H3 as [|[Hr Ho]]; [left; unfold NDIRECT in *; lia|].
    right. rewrite decide_False by lia. split; [lia|done].
  - intros k Hk. destruct (decide (k = nb)) as [->|Hne].
    + rewrite Hn, (proj2 (Z.ltb_lt _ _)) by lia. unfold give. rewrite decide_True by done. split; [lia|done].
    + rewrite Hs by done. specialize (H4 k Hk). unfold give.
      destruct (Z.ltb_spec k (nb + 1)), (Z.ltb_spec k nb); try lia.
      destruct H4. rewrite decide_False by lia. split; [lia|done].
Qed.

(** An indirect block is added, empty. *)
Lemma amap_add_indirect : nb ≤ NDIRECT → indb ad = 0 → V fb = zero_block →
  amap V (give own fb (n, -1)) n (fb + 1) (<[12%nat := fb]> ad) nb ∧
  (∀ k, 0 ≤ k < nb → slot V (<[12%nat := fb]> ad) k = slot V ad k) ∧
  indb (<[12%nat := fb]> ad) = fb.
Proof.
  intros Hd Hz HV. destruct A as [H1 H2 H3 H4]. set (ad' := <[12%nat := fb]> ad).
  assert (Hi : indb ad' = fb).
  { unfold indb, aget, ad'. simpl. rewrite list_lookup_insert_eq; [done|lia]. }
  assert (Hs : ∀ k, 0 ≤ k < MAXFILE → slot V ad' k = slot V ad k).
  { intros k Hk. destruct (decide (k < NDIRECT)).
    - rewrite !slot_direct by lia. unfold ad', NDIRECT in *. by rewrite list_lookup_insert_ne by lia.
    - rewrite !slot_indirect by lia. rewrite Hi, Hz, HV, HV0. by rewrite word_at_zero. }
  split_and!; [|intros; apply Hs; lia|done]. constructor.
  - unfold ad'. by rewrite length_insert.
  - done.
  - right. rewrite Hi. unfold give. rewrite decide_True by done. split; [lia|done].
  - intros k Hk. rewrite Hs by done. specialize (H4 k Hk). unfold give.
    destruct (Z.ltb_spec k nb); [|done]. destruct H4. rewrite decide_False by lia. split; [lia|done].
Qed.

(** A block is entered in the indirect block. *)
Lemma amap_indirect V' : NDIRECT ≤ nb < MAXFILE → indb ad ≠ 0 → length (V (indb ad)) = BSIZE → 0 ≤ fb < 2 ^ 32 →
  V' 0 = zero_block → V' (indb ad) = put_word (Z.to_nat (nb - NDIRECT)) fb (V (indb ad)) →
  amap V' (give own fb (n, nb)) n (fb + 1) ad (nb + 1) ∧ slot V' ad nb = fb ∧
  (∀ k, 0 ≤ k < nb → slot V' ad k = slot V ad k).
Proof.
  intros Hd Hz Hl Hfr HV0' HV. destruct A as [H1 H2 H3 H4].
  change MAXFILE with 140 in *. change NDIRECT with 12 in *.
  assert (Hn : slot V' ad nb = fb).
  { rewrite slot_indirect by (change MAXFILE with 140; change NDIRECT with 12; lia). rewrite HV. change NDIRECT with 12.
    rewrite word_at_put_eq by (rewrite Hl; unfold BSIZE; lia). simpl. by apply u32_small. }
  assert (Hs : ∀ k, 0 ≤ k < 140 → k ≠ nb → slot V' ad k = slot V ad k).
  { intros k Hk Hne. destruct (decide (k < 12)); [by rewrite !slot_direct by (change NDIRECT with 12; lia)|].
    rewrite !slot_indirect by (change MAXFILE with 140; change NDIRECT with 12; lia). rewrite HV. change NDIRECT with 12.
    by rewrite word_at_put_ne by (rewrite ?Hl; unfold BSIZE; lia). }
  split_and!; [|done|intros; apply Hs; lia]. constructor.
  - done.
  - change MAXFILE with 140. lia.
  - right. destruct H3 as [|[Hr Ho]]; [lia|]. unfold give. rewrite decide_False by lia. split; [lia|done].
  - change MAXFILE with 140. intros k Hk. destruct (decide (k = nb)) as [->|Hne].
    + rewrite Hn, (proj2 (Z.ltb_lt _ _)) by lia. unfold give. rewrite decide_True by done. split; [lia|done].
    + rewrite Hs by done. specialize (H4 k Hk). unfold give.
      destruct (Z.ltb_spec k (nb + 1)), (Z.ltb_spec k nb); try lia.
      destruct H4. rewrite decide_False by lia. split; [lia|done].
Qed.

End Amap.

(** ** The image while it is built *)

(** Block [k] of contents [C], filled up with zeros. *)
Definition blk (k : Z) (C : list Z) : list Z :=
  (λ i, default 0 (C !! (BSIZE * Z.to_nat k + i)%nat)) <$> seq 0 BSIZE.
Definition nbz (C : list Z) : Z := Z.of_nat (FsFile.nblocks (Z.of_nat (length C))).
(** Blocks a file of [nb] blocks takes, with its indirect block. *)
Definition need (nb : Z) : Z := nb + (if NDIRECT <? nb then 1 else 0).

(** File [n] with type [t] and contents [C], as the dinode [d] describes it. *)
Record frep (V : Z → list Z) (own : ownmap) (n : nat) (fb t : Z) (C : list Z) (d : dinode) : Prop := {
  fr_head : (d_type d, d_major d, d_minor d, d_nlink d) = (t, 0, 0, 1);
  fr_map : amap V own n fb (d_addrs d) (nbz C);
  fr_ind : nbz C ≤ NDIRECT → indb (d_addrs d) = 0;
  fr_data k : 0 ≤ k < nbz C → V (slot V (d_addrs d) k) = blk k C }.

Definition sb_block : list Z :=
  le_bytes 4 fssize ++ le_bytes 4 nblocks ++ le_bytes 4 ninodes ++ le_bytes 4 nlog ++ replicate 496 0.

(** The image holds the files [F], file [i] in inode [1 + i]; nothing is said of
    the file that is being extended ([skip]). *)
Record minv (skip : option nat) (F : list (Z * list Z)) (own : ownmap) (s : mkst) : Prop := {
  mi_len : Z.of_nat (length (img s)) = fssize;
  mi_ok : Forall block_ok (img s);
  mi_ino : freeinode s = 1 + Z.of_nat (length F);
  mi_room : Z.of_nat (length F) ≤ 199;
  mi_fb : first_data ≤ freeblock s < BPB;
  mi_ub : usedblocks s = freeblock s;
  mi_low b : b = 0 ∨ ninodes / IPB + 4 ≤ b < first_data → iview s b = zero_block;
  mi_sb : iview s 1 = sb_block;
  mi_high b : freeblock s ≤ b < fssize → iview s b = zero_block;
  mi_file i t C : F !! i = Some (t, C) → skip ≠ Some i →
    let d := get_dinode (1 + Z.of_nat i) (iview s (i2b (1 + Z.of_nat i))) in
    frep (iview s) own i (freeblock s) t C d ∧ d_size d = Z.of_nat (length C) }.

Lemma frep_frame V own n fb t C d V' own' fb' :
  frep V own n fb t C d → fb ≤ fb' → V 0 = zero_block → V' 0 = zero_block →
  (∀ b, first_data ≤ b < fb → own' b = own b) →
  (∀ b, first_data ≤ b < fb → fst (own b) = n → V' b = V b) →
  frep V' own' n fb' t C d.
Proof.
  intros [H1 H2 H3 H4] Hle HV0 HV0' Ho HV.
  destruct (amap_frame V own n fb (d_addrs d) (nbz C) H2 HV0 V' own' fb') as [A Hs]; try done.
  { intros b Hb E. apply HV; [done|by rewrite E]. }
  constructor; [done|done|done|]. intros k Hk. pose proof (am_nb _ _ _ _ _ _ H2).
  rewrite Hs by lia. pose proof (am_slot _ _ _ _ _ _ H2 k ltac:(lia)) as Hsl.
  rewrite (proj2 (Z.ltb_lt _ _)) in Hsl by lia. destruct Hsl as [Hr E].
  rewrite HV by (done || by rewrite E). by apply H4.
Qed.

Lemma i2b_range i : (Z.of_nat i ≤ 198) → 2 ≤ i2b (1 + Z.of_nat i) < ninodes / IPB + 3.
Proof.
  intros Hi. unfold i2b, ninodes. change IPB with 8.
  assert (0 ≤ (1 + Z.of_nat i) / 8 ≤ 24).
  { split; [apply Z.div_pos; lia|]. apply Z.lt_succ_r, Z.div_lt_upper_bound; lia. }
  rewrite u32_small by lia. change (200 / 8) with 25. lia.
Qed.

Section Grow.
Context (big : bool) (can_write : Z → bool).
Hypothesis Hcw : ∀ b, 0 ≤ b < fssize → can_write b = true.
Context (F : list (Z * list Z)) (n : nat).
Implicit Types (s : mkst) (own : ownmap).

Lemma minv_block skip own s b : minv skip F own s → 0 ≤ b < fssize → block_ok (iview s b).
Proof.
  intros I Hb. pose proof (mi_len _ _ _ _ I). unfold iview, dview.
  destruct (lookup_lt_is_Some_2 (img s) (Z.to_nat b)) as [d Hd]; [lia|]. rewrite Hd.
  apply (Forall_lookup_1 _ _ _ _ (mi_ok _ _ _ _ I) Hd).
Qed.

(** A block of the file is written. *)
Lemma minv_put own s x buf : minv (Some n) F own s → first_data ≤ x < freeblock s → fst (own x) = n →
  block_ok buf → minv (Some n) F own (put_img x buf s).
Proof.
  intros I Hx Hn Hb. pose proof (mi_len _ _ _ _ I) as Hl. pose proof (mi_fb _ _ _ _ I) as Hfb.
  change first_data with 35 in *. change BPB with 4096 in *. unfold fssize in *.
  assert (HV : ∀ b, 0 ≤ b → b ≠ x → iview (put_img x buf s) b = iview s b).
  { intros b H0 Hne. rewrite iview_put by lia. by rewrite decide_False. }
  destruct I as [J1 J2 J3 J4 J5 J6 J7 J8 J9 J10]. constructor; simpl; try done.
  - by rewrite length_insert.
  - by apply Forall_insert.
  - intros b Hb'. change (ninodes / IPB + 4) with 29 in *. change first_data with 35 in *. rewrite HV; [by apply J7|lia|lia].
  - rewrite HV; [done|lia|lia].
  - intros b Hb'. rewrite HV; [by apply J9|lia|lia].
  - intros i t C Hi Hne. destruct (J10 i t C Hi Hne) as [R Hs].
    pose proof (lookup_lt_Some _ _ _ Hi). pose proof (i2b_range i ltac:(lia)) as Hr.
    change (ninodes / IPB + 3) with 28 in Hr. rewrite HV by lia. split; [|done].
    eapply frep_frame; [exact R|done|apply J7; by left|rewrite HV; [apply J7; by left|lia|lia]|done|].
    change first_data with 35. intros b Hb' E. apply HV; [lia|]. congruence.
Qed.

(** The next block is given to the file. *)
Definition bump s : mkst := mkMkst (img s) (freeblock s + 1) (usedblocks s + 1) (freeinode s).

Lemma minv_give own s k : minv (Some n) F own s → freeblock s + 1 < BPB →
  minv (Some n) F (give own (freeblock s) (n, k)) (bump s).
Proof.
  intros [J1 J2 J3 J4 J5 J6 J7 J8 J9 J10] Hm. change BPB with 4096 in *.
  constructor; simpl; try done; change BPB with 4096; try lia.
  - intros b Hb. apply J9. lia.
  - intros i t C Hi Hne. destruct (J10 i t C Hi Hne) as [R Hs]. split; [|done].
    eapply frep_frame; [exact R|lia|apply J7; by left|apply J7; by left| |done].
    intros b Hb. unfold give. by rewrite decide_False by lia.
Qed.

Lemma wp_next_block skip own s Q : minv skip F own s → Q (freeblock s) (bump s) → wp next_block Q s.
Proof.
  intros I HQ. pose proof (mi_fb _ _ _ _ I). pose proof (mi_ub _ _ _ _ I).
  unfold next_block. apply wp_bind, wp_gets, wp_bind, wp_modify, wp_ret.
  change first_data with 35 in *. change BPB with 4096 in *. rewrite !u32_small by lia. done.
Qed.

(** The dinode with other addresses. *)
Definition with_addrs (d : dinode) (ad : list Z) : dinode :=
  mkDinode (d_type d) (d_major d) (d_minor d) (d_nlink d) (d_size d) ad.
Abbreviation addrs din := (d_addrs (dinode_at 0 din)).

(** What [block_for] leaves: the file has [nb'] blocks, of which the first
    [nb] are as they were. *)
Record grown own s din (nb nb' : Z) own' s' din' : Prop := {
  gw_inv : minv (Some n) F own' s';
  gw_din : din_ok din';
  gw_head : dinode_at 0 din' = with_addrs (dinode_at 0 din) (addrs din');
  gw_map : amap (iview s') own' n (freeblock s') (addrs din') nb';
  gw_slots k : 0 ≤ k < nb → slot (iview s') (addrs din') k = slot (iview s) (addrs din) k ∧
    iview s' (slot (iview s) (addrs din) k) = iview s (slot (iview s) (addrs din) k) }.

(** The block numbers stored are those of the map. *)
Lemma slot_word s ad k : NDIRECT ≤ k < MAXFILE → length (iview s (indb ad)) = BSIZE →
  slot (iview s) ad k = le_val (sublist (4 * Z.to_nat (k - NDIRECT)) 4 (iview s (indb ad))).
Proof.
  intros Hk Hl. rewrite slot_indirect by done. unfold word_at.
  change MAXFILE with 140 in Hk. change NDIRECT with 12 in *. rewrite decide_True; [done|].
  rewrite Hl. unfold BSIZE. lia.
Qed.

Lemma din_ind din : din_ok din → xint big (din_addr big (Z.to_nat NDIRECT) din) = indb (addrs din).
Proof. intros H. rewrite din_addr_at by (done || (change (Z.to_nat NDIRECT) with 12%nat; lia)). done. Qed.
End Grow.

(** ** [block_for] *)

Section BlockFor.
Context (big : bool) (can_write : Z → bool).
Hypothesis Hcw : ∀ b, 0 ≤ b < fssize → can_write b = true.
Context (F : list (Z * list Z)) (n : nat).
Implicit Types (s : mkst) (own : ownmap).
Abbreviation addrs din := (d_addrs (dinode_at 0 din)).

(** The file has [nb] blocks; an indirect block only if it needs one. *)
Record fmap own s din (nb : Z) : Prop := {
  fm_inv : minv (Some n) F own s;
  fm_din : din_ok din;
  fm_map : amap (iview s) own n (freeblock s) (addrs din) nb }.

Lemma fm_zero own s din nb : fmap own s din nb → iview s 0 = zero_block.
Proof. intros H. apply (mi_low _ _ _ _ (fm_inv _ _ _ _ H)). by left. Qed.

Lemma fm_range own s din nb b : fmap own s din nb → first_data ≤ b < freeblock s →
  0 ≤ b < Z.of_nat (length (img s)) ∧ block_ok (iview s b).
Proof.
  intros H Hb. pose proof (mi_fb _ _ _ _ (fm_inv _ _ _ _ H)) as Hf.
  pose proof (mi_len _ _ _ _ (fm_inv _ _ _ _ H)) as Hl. change first_data with 35 in *.
  change BPB with 4096 in *. unfold fssize in *.
  split; [lia|]. eapply minv_block; [apply H|unfold fssize; lia].
Qed.

Lemma din_slot own s din nb k : fmap own s din nb → 0 ≤ k < NDIRECT →
  xint big (din_addr big (Z.to_nat k) din) = slot (iview s) (addrs din) k.
Proof.
  intros H Hk. rewrite din_addr_at by (apply H || (change NDIRECT with 12 in *; lia)).
  by rewrite slot_direct.
Qed.

Lemma set_addr_fields own s din nb k : fmap own s din nb → (k < 13)%nat →
  dinode_at 0 (set_din_addr big k (xint big (freeblock s)) din) =
    with_addrs (dinode_at 0 din) (<[k := freeblock s]> (addrs din)) ∧
  din_ok (set_din_addr big k (xint big (freeblock s)) din).
Proof.
  intros H Hk. pose proof (mi_fb _ _ _ _ (fm_inv _ _ _ _ H)) as Hf.
  change first_data with 35 in *. change BPB with 4096 in *.
  split; [apply set_din_addr_at; [apply H|done|lia]|].
  apply set_word_ok; [apply H|]. unfold DINODE. lia.
Qed.

(** A direct block. *)
Lemma block_for_direct own s din fbn nb Q : fmap own s din nb → 0 ≤ fbn < NDIRECT → fbn ≤ nb ≤ fbn + 1 →
  freeblock s + (fbn + 1 - nb) < BPB →
  (∀ own' s' din', grown F n own s din nb (fbn + 1) own' s' din' →
     indb (addrs din') = indb (addrs din) → freeblock s' = freeblock s + (fbn + 1 - nb) →
     (fbn = nb → iview s' (slot (iview s') (addrs din') fbn) = zero_block) →
     Q (din', slot (iview s') (addrs din') fbn) s') →
  wp (block_for big can_write fbn din) Q s.
Proof.
  intros H Hd Hnb Hmax HQ. pose proof H as [I Hdin A]. unfold block_for.
  rewrite (proj2 (Z.ltb_lt fbn NDIRECT)) by lia. rewrite (din_slot own s din nb fbn) by done.
  pose proof (am_slot _ _ _ _ _ _ A fbn ltac:(unfold MAXFILE; change NDIRECT with 12 in *; change NINDIRECT with 128; lia)) as Hs.
  pose proof (mi_fb _ _ _ _ I) as Hf. change first_data with 35 in *. change BPB with 4096 in *.
  destruct (Z.ltb_spec fbn nb) as [Hlt|Hge].
  - destruct Hs as [Hr _]. rewrite (proj2 (Z.eqb_neq _ _)) by lia. apply wp_bind, wp_ret, wp_ret.
    rewrite (din_slot own s din nb fbn) by done. replace nb with (fbn + 1) in * by lia.
    eapply HQ; [constructor; try done; by destruct (dinode_at 0 din)|done|lia|lia].
  - assert (fbn = nb) as -> by lia. rewrite Hs, Z.eqb_refl. apply wp_bind, wp_bind.
    eapply wp_next_block; [exact I|]. apply wp_ret, wp_ret.
    destruct (amap_direct _ _ _ _ _ _ A ltac:(change first_data with 35; lia) ltac:(lia)) as (A' & Hsn & Hsk & Hi).
    destruct (set_addr_fields own s din nb (Z.to_nat nb) H ltac:(change NDIRECT with 12 in *; lia)) as [E Hok].
    set (din' := set_din_addr big (Z.to_nat nb) (xint big (freeblock s)) din) in *.
    assert (Ea : addrs din' = <[Z.to_nat nb := freeblock s]> (addrs din)) by (by rewrite E).
    assert (Eg : grown F n own s din nb (nb + 1) (give own (freeblock s) (n, nb)) (bump s) din').
    { constructor; [apply minv_give; [done|change BPB with 4096; lia]|done|by rewrite Ea|by rewrite Ea|].
      intros k Hk. rewrite Ea. split; [by apply Hsk|done]. }
    replace (xint big (din_addr big (Z.to_nat nb) din')) with (slot (iview (bump s)) (addrs din') nb).
    2:{ symmetry. apply (din_slot (give own (freeblock s) (n, nb)) (bump s) din' (nb + 1)); [|done]. split; apply Eg. }
    eapply HQ; [exact Eg|by rewrite Ea|simpl; lia|].
    intros _. rewrite Ea. change (iview (bump s)) with (iview s). rewrite Hsn. apply (mi_high _ _ _ _ I). unfold fssize. lia.
Qed.

(** The indirect block, allocated when the file had none. *)
Lemma indirect_ready own s din nb Q : fmap own s din nb → NDIRECT ≤ nb →
  (nb ≤ NDIRECT → indb (addrs din) = 0) → freeblock s + 1 < BPB →
  (∀ own' s' din', grown F n own s din nb nb own' s' din' → indb (addrs din') ≠ 0 →
     freeblock s' = freeblock s + (if nb <=? NDIRECT then 1 else 0) → Q din' s') →
  wp (if xint big (din_addr big (Z.to_nat NDIRECT) din) =? 0
      then b ← next_block; mret (set_din_addr big (Z.to_nat NDIRECT) (xint big b) din) else mret din) Q s.
Proof.
  intros H Hnb Hind Hmax HQ. pose proof H as [I Hdin A]. rewrite din_ind by done.
  pose proof (mi_fb _ _ _ _ I) as Hf. change BPB with 4096 in *.
  assert (H35 : first_data = 35) by done.
  destruct (Z.leb_spec nb NDIRECT) as [Hle|Hgt].
  - rewrite Hind, Z.eqb_refl by done. apply wp_bind. eapply wp_next_block; [exact I|]. apply wp_ret.
    destruct (amap_add_indirect _ _ _ _ _ _ A ltac:(lia) ltac:(by eapply fm_zero) Hle (Hind Hle)
      ltac:(apply (mi_high _ _ _ _ I); unfold fssize; lia)) as (A' & Hsk & Hi).
    destruct (set_addr_fields own s din nb 12 H ltac:(lia)) as [E Hok].
    change (Z.to_nat NDIRECT) with 12%nat.
    set (din' := set_din_addr big 12 (xint big (freeblock s)) din) in *.
    assert (Ea : addrs din' = <[12%nat := freeblock s]> (addrs din)) by (by rewrite E).
    eapply HQ; [|by rewrite Ea, Hi; lia|done].
    constructor; [apply (minv_give F n own s (-1)); [done|change BPB with 4096; lia]|done|by rewrite Ea|by rewrite Ea|].
    intros k Hk. rewrite Ea. split; [by apply Hsk|done].
  - destruct (am_ind _ _ _ _ _ _ A) as [[_ ?]|[Hr _]]; [lia|]. rewrite (proj2 (Z.eqb_neq _ _)) by lia.
    apply wp_ret. eapply HQ; [|lia|lia]. by constructor.
Qed.
End BlockFor.

Section Indirect.
Context (big : bool) (can_write : Z → bool).
Hypothesis Hcw : ∀ b, 0 ≤ b < fssize → can_write b = true.
Context (F : list (Z * list Z)) (n : nat).
Implicit Types (s : mkst) (own : ownmap).
Abbreviation addrs din := (d_addrs (dinode_at 0 din)).

Lemma grown_trans own s din own1 s1 din1 own2 s2 din2 nb nb' :
  grown F n own s din nb nb own1 s1 din1 → grown F n own1 s1 din1 nb nb' own2 s2 din2 →
  grown F n own s din nb nb' own2 s2 din2.
Proof.
  intros [_ _ E1 _ S1] [I2 D2 E2 A2 S2]. constructor; try done.
  - rewrite E2, E1. done.
  - intros k Hk. destruct (S1 k Hk) as [P1 P2], (S2 k Hk) as [P3 P4].
    rewrite P1 in *. split; congruence.
Qed.

Lemma grown_fmap own s din nb nb' own' s' din' : grown F n own s din nb nb' own' s' din' → fmap F n own' s' din' nb'.
Proof. intros [I D _ A _]. by split. Qed.

(** The word for file block [k] in the indirect block. *)
Lemma hval_slot own s din nb k : fmap F n own s din nb → indb (addrs din) ≠ 0 → NDIRECT ≤ k < MAXFILE →
  let w := sublist (4 * Z.to_nat (k - NDIRECT)) 4 (iview s (indb (addrs din))) in
  xint big (hval big w) = slot (iview s) (addrs din) k ∧
  (hval big w =? 0) = (slot (iview s) (addrs din) k =? 0).
Proof.
  intros H Hi Hk w. pose proof (fm_map _ _ _ _ _ _ H) as A.
  destruct (am_ind _ _ _ _ _ _ A) as [[? _]|[Hr _]]; [done|].
  destruct (fm_range _ _ _ _ _ _ _ H Hr) as [_ [Hl Hb]].
  assert (Hw : Forall is_byte w) by by apply sublist_bytes.
  assert (Hwl : length w = 4%nat).
  { apply sublist_length. rewrite Hl. change MAXFILE with 140 in Hk. change NDIRECT with 12 in *. unfold BSIZE. lia. }
  rewrite (slot_word s (addrs din) k) by done. split; [by apply xint_hval|by apply hval_zero].
Qed.

Lemma indirect_put own s din nb : fmap F n own s din nb → NDIRECT ≤ nb < MAXFILE → indb (addrs din) ≠ 0 →
  freeblock s + 1 < BPB →
  let i := indb (addrs din) in
  let buf := splice (4 * Z.to_nat (nb - NDIRECT)) (hbytes big 4 (xint big (freeblock s))) (iview s i) in
  let s' := put_img i buf (bump s) in
  grown F n own s din nb (nb + 1) (give own (freeblock s) (n, nb)) s' din ∧
  slot (iview s') (addrs din) nb = freeblock s ∧ iview s' i = buf ∧ iview s' (freeblock s) = zero_block.
Proof.
  intros H Hnb Hi Hmax i buf s'. pose proof H as [I Hdin A].
  pose proof (mi_fb _ _ _ _ I) as Hf. assert (H35 : first_data = 35) by done. change BPB with 4096 in *.
  destruct (am_ind _ _ _ _ _ _ A) as [[? _]|[Hr Ho]]; [done|]. fold i in Hr, Ho, Hi.
  destruct (fm_range _ _ _ _ _ _ _ H Hr) as [Hin Hok]. fold i in Hok.
  set (own' := give own (freeblock s) (n, nb)).
  assert (I1 : minv (Some n) F own' (bump s)) by (apply minv_give; [done|change BPB with 4096; lia]).
  assert (Hw : splice (4 * Z.to_nat (nb - NDIRECT)) (hbytes big 4 (xint big (freeblock s))) (iview s i) =
               put_word (Z.to_nat (nb - NDIRECT)) (freeblock s) (iview s i)).
  { unfold put_word. rewrite hbytes_xint, u32_small by lia. done. }
  assert (Hbuf : block_ok buf).
  { unfold buf. apply splice_block; [|apply hbytes_range|done]. rewrite hbytes_length.
    change MAXFILE with 140 in *. change NDIRECT with 12 in *. unfold BSIZE. lia. }
  assert (I2 : minv (Some n) F own' s').
  { apply minv_put; [done|simpl; lia|unfold own', give; by rewrite decide_False, Ho by lia|done]. }
  assert (HV : ∀ b, 0 ≤ b → iview s' b = if decide (b = i) then buf else iview s b).
  { intros b Hb. by apply (iview_put i buf (bump s) b). }
  assert (HVi : iview s' i = buf) by (rewrite HV, decide_True by (done || lia); done).
  destruct (amap_indirect _ _ _ _ _ _ A ltac:(lia) (iview s') Hnb Hi (proj1 Hok) ltac:(lia)) as (A' & Hsn & Hsk).
  { apply (mi_low _ _ _ _ I2). by left. }
  { fold i. by rewrite HVi. }
  split_and!; [|done|done|].
  - constructor; [done|done|by destruct (dinode_at 0 din)|done|]. intros k Hk. split; [by apply Hsk|].
    pose proof (am_slot _ _ _ _ _ _ A k ltac:(lia)) as Hs. rewrite (proj2 (Z.ltb_lt _ _)) in Hs by lia.
    destruct Hs as [Hsr Hso]. rewrite HV by lia. rewrite decide_False; [done|]. intros E. rewrite E, Ho in Hso.
    congruence || (injection Hso; lia).
  - rewrite HV, decide_False by lia. apply (mi_high _ _ _ _ I). unfold fssize. lia.
Qed.

Lemma indirect_entry own s din fbn nb Q : fmap F n own s din nb → NDIRECT ≤ fbn < MAXFILE → fbn ≤ nb ≤ fbn + 1 →
  indb (addrs din) ≠ 0 → freeblock s + (fbn + 1 - nb) < BPB →
  (∀ own' s', grown F n own s din nb (fbn + 1) own' s' din →
     freeblock s' = freeblock s + (fbn + 1 - nb) →
     (fbn = nb → iview s' (slot (iview s') (addrs din) fbn) = zero_block) →
     Q (din, slot (iview s') (addrs din) fbn) s') →
  wp (indirect ← rsect (xint big (din_addr big (Z.to_nat NDIRECT) din));
      let o := (4 * Z.to_nat (fbn - NDIRECT))%nat in
      indirect ← (if hval big (sublist o 4 indirect) =? 0
                  then b ← next_block;
                       let indirect := splice o (hbytes big 4 (xint big b)) indirect in
                       wsect can_write (xint big (din_addr big (Z.to_nat NDIRECT) din)) indirect ;; mret indirect
                  else mret indirect);
      mret (din, xint big (hval big (sublist o 4 indirect)))) Q s.
Proof.
  intros H Hd Hnb Hi Hmax HQ. pose proof H as [I Hdin A]. rewrite din_ind by done.
  pose proof (am_nb _ _ _ _ _ _ A) as Hm. pose proof (mi_fb _ _ _ _ I) as Hf.
  assert (H35 : first_data = 35) by done.
  destruct (am_ind _ _ _ _ _ _ A) as [[? _]|[Hr _]]; [done|].
  destruct (fm_range _ _ _ _ _ _ _ H Hr) as [Hin Hok]. pose proof (mi_len _ _ _ _ I) as Hl.
  destruct (hval_slot own s din nb fbn H Hi Hd) as [Hx Hz].
  apply wp_bind, wp_rsect; [done|]. cbv zeta. rewrite Hz.
  pose proof (am_slot _ _ _ _ _ _ A fbn ltac:(change NDIRECT with 12 in *; lia)) as Hs.
  destruct (Z.ltb_spec fbn nb) as [Hlt|Hge].
  - destruct Hs as [Hsr _]. rewrite (proj2 (Z.eqb_neq _ _)) by lia. apply wp_bind, wp_ret, wp_ret. rewrite Hx.
    replace nb with (fbn + 1) in * by lia. eapply (HQ own s); [by constructor|lia|lia].
  - assert (fbn = nb) as -> by lia. rewrite Hs, Z.eqb_refl. apply wp_bind, wp_bind.
    eapply wp_next_block; [exact I|].
    destruct (indirect_put own s din nb H Hd Hi ltac:(lia)) as (G & Hsn & HVi & Hfz).
    apply wp_bind, wp_wsect; [exact Hcw|done|simpl; lia|]. apply wp_ret, wp_ret.
    destruct (hval_slot _ _ din (nb + 1) nb (grown_fmap _ _ _ _ _ _ _ _ G) Hi Hd) as [Hx' _].
    rewrite HVi in Hx'. rewrite Hx'. eapply HQ; [exact G|simpl; lia|]. intros _. by rewrite Hsn.
Qed.

Lemma block_for_wp own s din fbn nb Q : fmap F n own s din nb → 0 ≤ fbn < MAXFILE → fbn ≤ nb ≤ fbn + 1 →
  (nb ≤ NDIRECT → indb (addrs din) = 0) → freeblock s + (need (fbn + 1) - need nb) < BPB →
  (∀ own' s' din', grown F n own s din nb (fbn + 1) own' s' din' →
     (fbn + 1 ≤ NDIRECT → indb (addrs din') = 0) →
     freeblock s' = freeblock s + (need (fbn + 1) - need nb) →
     (fbn = nb → iview s' (slot (iview s') (addrs din') fbn) = zero_block) →
     Q (din', slot (iview s') (addrs din') fbn) s') →
  wp (block_for big can_write fbn din) Q s.
Proof.
  intros H Hd Hnb Hind Hmax HQ. unfold need in *. destruct (Z.ltb_spec fbn NDIRECT) as [Hlt|Hge].
  - rewrite (proj2 (Z.ltb_ge NDIRECT (fbn + 1))), (proj2 (Z.ltb_ge NDIRECT nb)) in * by lia.
    eapply block_for_direct; [exact H|lia|lia|lia|]. intros own' s' din' G Hi Hfb Hz.
    eapply HQ; [done|rewrite Hi; lia|lia|done].
  - rewrite (proj2 (Z.ltb_lt NDIRECT (fbn + 1))) in * by lia. unfold block_for.
    rewrite (proj2 (Z.ltb_ge fbn NDIRECT)) by lia. apply wp_bind.
    pose proof (mi_fb _ _ _ _ (fm_inv _ _ _ _ _ _ H)) as Hf.
    destruct (decide (nb ≤ NDIRECT)) as [Hle|Hgt].
    + rewrite (proj2 (Z.ltb_ge NDIRECT nb)) in * by lia.
      eapply indirect_ready; [exact H|lia|done|lia|]. intros own1 s1 din1 G1 Hi1 Hfb1.
      rewrite (proj2 (Z.leb_le _ _)) in Hfb1 by lia.
      eapply indirect_entry; [by eapply grown_fmap|lia|done|done|lia|].
      intros own2 s2 G2 Hfb2 Hz2. eapply HQ; [by eapply grown_trans|lia|lia|done].
    + rewrite (proj2 (Z.ltb_lt NDIRECT nb)) in * by lia.
      destruct (am_ind _ _ _ _ _ _ (fm_map _ _ _ _ _ _ H)) as [[_ ?]|[Hr _]]; [lia|].
      assert (H35 : first_data = 35) by done.
      rewrite din_ind, (proj2 (Z.eqb_neq _ _)) by (apply H || lia). apply wp_ret.
      eapply indirect_entry; [done|lia|done|lia|lia|].
      intros own2 s2 G2 Hfb2 Hz2. eapply HQ; [done|lia|lia|done].
Qed.
End Indirect.

(** ** Contents in blocks *)

Lemma blk_lookup k C i : (i < BSIZE)%nat → blk k C !! i = Some (default 0 (C !! (BSIZE * Z.to_nat k + i)%nat)).
Proof. intros Hi. unfold blk. by rewrite list_lookup_fmap, lookup_seq_lt by done. Qed.
Lemma blk_length k C : length (blk k C) = BSIZE.
Proof. unfold blk. by rewrite length_fmap, length_seq. Qed.

Lemma blk_eq k C l : length l = BSIZE →
  (∀ i, (i < BSIZE)%nat → l !! i = Some (default 0 (C !! (BSIZE * Z.to_nat k + i)%nat))) → l = blk k C.
Proof.
  intros Hl H. apply list_eq. intros i. destruct (decide (i < BSIZE)%nat) as [Hi|Hi].
  - by rewrite blk_lookup, H.
  - rewrite !lookup_ge_None_2; [done|rewrite blk_length; lia|lia].
Qed.

Lemma blk_past k C : Z.of_nat (length C) ≤ BS * k → blk k C = zero_block.
Proof.
  intros H. symmetry. apply blk_eq; [by apply length_replicate|]. intros i Hi.
  unfold zero_block. rewrite lookup_replicate_2 by done.
  rewrite (lookup_ge_None_2 C); [done|]. unfold BSIZE in *. lia.
Qed.

Lemma blk_app k C p : 0 ≤ k → BS * (k + 1) ≤ Z.of_nat (length C) → blk k (C ++ p) = blk k C.
Proof.
  intros Hk H. apply blk_eq; [apply blk_length|]. intros i Hi. rewrite blk_lookup by done.
  rewrite lookup_app_l; [done|]. unfold BSIZE in *. lia.
Qed.

(** Bytes appended within block [k]. *)
Lemma blk_splice k C q r : 0 ≤ k → Z.of_nat (length C) = BS * k + Z.of_nat r → (r + length q ≤ BSIZE)%nat →
  splice r q (blk k C) = blk k (C ++ q).
Proof.
  intros Hk HC Hq. apply blk_eq; [rewrite splice_length; rewrite blk_length; lia|]. intros i Hi.
  destruct (decide (r ≤ i < r + length q)%nat) as [Hin|Hout].
  - rewrite splice_lookup_new by (rewrite ?blk_length; lia).
    destruct (lookup_lt_is_Some_2 q (i - r)) as [x Hx]; [lia|]. rewrite Hx.
    rewrite lookup_app_r by (unfold BSIZE in *; lia).
    replace (BSIZE * Z.to_nat k + i - length C)%nat with (i - r)%nat by (unfold BSIZE in *; lia). by rewrite Hx.
  - rewrite splice_lookup_old by (rewrite ?blk_length; lia). rewrite blk_lookup by done.
    destruct (decide (i < r)%nat); [by rewrite lookup_app_l by (unfold BSIZE in *; lia)|].
    rewrite (lookup_ge_None_2 C) by (unfold BSIZE in *; lia).
    rewrite lookup_ge_None_2; [done|]. rewrite length_app. unfold BSIZE in *. lia.
Qed.

(** The number of blocks, in terms of the block the end lies in. *)
Lemma nbz_bounds C : BS * (nbz C - 1) < Z.of_nat (length C) ≤ BS * nbz C.
Proof.
  unfold nbz, FsFile.nblocks. pose proof (Z.div_mod (Z.of_nat (length C) + BS - 1) BS ltac:(done)).
  pose proof (Z.mod_pos_bound (Z.of_nat (length C) + BS - 1) BS ltac:(done)).
  assert (0 ≤ (Z.of_nat (length C) + BS - 1) / BS) by (apply Z.div_pos; unfold BSIZE in *; lia).
  rewrite Z2Nat.id by done. unfold BSIZE in *. lia.
Qed.

Lemma nbz_nonneg C : 0 ≤ nbz C.
Proof. unfold nbz. lia. Qed.

Lemma nbz_unique C m : 0 ≤ m → BS * (m - 1) < Z.of_nat (length C) ≤ BS * m → nbz C = m.
Proof.
  intros Hm H. pose proof (nbz_bounds C). unfold BSIZE in *. lia.
Qed.

Lemma nbz_mono C p : nbz C ≤ nbz (C ++ p).
Proof.
  unfold nbz, FsFile.nblocks. apply inj_le, Z2Nat.inj_le;
    [apply Z.div_pos; unfold BSIZE; lia..|]. apply Z.div_le_mono; [done|]. rewrite length_app. lia.
Qed.

Lemma nbz_max C m : Z.of_nat (length C) ≤ BS * m → 0 ≤ m → nbz C ≤ m.
Proof.
  intros H Hm. pose proof (nbz_bounds C). unfold BSIZE in *. lia.
Qed.

Lemma need_mono a b : a ≤ b → need a ≤ need b.
Proof. unfold need. destruct (Z.ltb_spec NDIRECT a), (Z.ltb_spec NDIRECT b); lia. Qed.

(** ** [iappend] *)

Section Append.
Context (big : bool) (can_write : Z → bool).
Hypothesis Hcw : ∀ b, 0 ≤ b < fssize → can_write b = true.
Context (F : list (Z * list Z)) (n : nat) (t : Z).
Implicit Types (s : mkst) (own : ownmap).
Abbreviation addrs din := (d_addrs (dinode_at 0 din)).

(** Inside [iappend]: the file as its dinode in memory describes it. *)
Record open_file own s din (C : list Z) : Prop := {
  of_inv : minv (Some n) F own s;
  of_din : din_ok din;
  of_rep : frep (iview s) own n (freeblock s) t C (dinode_at 0 din) }.

Lemma of_fmap own s din C : open_file own s din C → fmap F n own s din (nbz C).
Proof. intros [I D R]. split; [done|done|apply R]. Qed.

(** One turn of the loop: the bytes [q] go into the last block. *)
Lemma append_block own s din C q own1 s1 din1 fbn r :
  open_file own s din C → 0 ≤ fbn < MAXFILE → Z.of_nat (length C) = BS * fbn + Z.of_nat r →
  (r + length q ≤ BSIZE)%nat → q ≠ [] → Forall is_byte q →
  grown F n own s din (nbz C) (fbn + 1) own1 s1 din1 → (fbn + 1 ≤ NDIRECT → indb (addrs din1) = 0) →
  (fbn = nbz C → iview s1 (slot (iview s1) (addrs din1) fbn) = zero_block) →
  let x := slot (iview s1) (addrs din1) fbn in
  open_file own1 (put_img x (splice r q (iview s1 x)) s1) din1 (C ++ q).
Proof.
  intros [I D R] Hd HC Hq Hne Hby G Hind Hz x. destruct R as [Rh Rm Ri Rd]. pose proof G as [I1 D1 E1 A1 S1].
  assert (Hql : (0 < length q)%nat) by (destruct q; simpl; [done|lia]).
  assert (Hnb : nbz (C ++ q) = fbn + 1).
  { apply nbz_unique; [lia|]. rewrite length_app. unfold BSIZE in *. lia. }
  assert (Hnb0 : nbz C = fbn ∨ nbz C = fbn + 1).
  { pose proof (nbz_bounds C). unfold BSIZE in *. lia. }
  pose proof (am_slot _ _ _ _ _ _ A1 fbn ltac:(lia)) as Hx. rewrite (proj2 (Z.ltb_lt _ _)) in Hx by lia.
  fold x in Hx, Hz. destruct Hx as [Hxr Hxo].
  assert (Hxb : iview s1 x = blk fbn C).
  { destruct Hnb0 as [E|E]; [rewrite Hz by done; symmetry; apply blk_past; pose proof (nbz_bounds C); unfold BSIZE in *; lia|].
    destruct (S1 fbn ltac:(lia)) as [P1 P2]. unfold x. rewrite P1, P2. apply Rd. lia. }
  destruct (fm_range _ _ _ _ _ _ _ (grown_fmap _ _ _ _ _ _ _ _ _ _ G) Hxr) as [Hxl Hxk].
  assert (Hbuf : block_ok (splice r q (iview s1 x))) by (apply splice_block; [lia|done|done]).
  rewrite Hxb, blk_splice in * by (done || lia).
  assert (I2 : minv (Some n) F own1 (put_img x (blk fbn (C ++ q)) s1)).
  { apply minv_put; [done|done|by rewrite Hxo|done]. }
  assert (HV : ∀ b, 0 ≤ b → iview (put_img x (blk fbn (C ++ q)) s1) b =
    if decide (b = x) then blk fbn (C ++ q) else iview s1 b) by (intros; by apply iview_put).
  assert (H35 : first_data = 35) by done.
  assert (HV0 : iview s1 0 = zero_block) by (apply (mi_low _ _ _ _ I1); by left).
  destruct (amap_frame _ _ _ _ _ _ A1 HV0 (iview (put_img x (blk fbn (C ++ q)) s1)) own1 (freeblock s1)) as [A2 S2].
  { done. } { apply (mi_low _ _ _ _ I2). by left. } { done. }
  { intros b Hb Ho. rewrite HV, decide_False; [done| |lia]. intros ->. rewrite Hxo in Ho. injection Ho. lia. }
  split; [done|done|]. constructor.
  - by rewrite E1.
  - rewrite Hnb. exact A2.
  - rewrite Hnb. exact Hind.
  - intros k Hk. rewrite Hnb in Hk. rewrite S2 by lia.
    pose proof (am_slot _ _ _ _ _ _ A1 k ltac:(lia)) as Hs. rewrite (proj2 (Z.ltb_lt _ _)) in Hs by lia.
    rewrite HV by lia. destruct (decide (k = fbn)) as [->|Hkf]; [by rewrite decide_True|].
    rewrite decide_False. 2:{ intros E. destruct Hs as [_ Hs]. rewrite E, Hxo in Hs. injection Hs. lia. }
    destruct (S1 k ltac:(lia)) as [P1 P2]. rewrite P1, P2, blk_app by (unfold BSIZE in *; lia). apply Rd. lia.
Qed.

Lemma iappend_loop_wp fuel : ∀ own s din C p off,
  open_file own s din C → off = Z.of_nat (length C) → Z.of_nat (length (C ++ p)) ≤ MAXFILE * BS →
  (length p < fuel)%nat → Forall is_byte p → freeblock s + (need (nbz (C ++ p)) - need (nbz C)) < BPB →
  wp (iappend_loop big can_write fuel din p off)
    (λ r s', ∃ own', open_file own' s' (fst r) (C ++ p) ∧ snd r = Z.of_nat (length (C ++ p)) ∧
       freeblock s' = freeblock s + (need (nbz (C ++ p)) - need (nbz C))) s.
Proof.
  induction fuel as [|fuel IH]; intros own s din C p off H -> Hsz Hf Hby Hmax; [lia|].
  cbn [iappend_loop]. destruct (Z.ltb_spec 0 (Z.of_nat (length p))) as [Hp|Hp].
  2:{ assert (p = []) as -> by (apply nil_length_inv; lia). rewrite app_nil_r in *.
      apply wp_ret. exists own. split_and!; [done|done|]. lia. }
  remember (Z.of_nat (length C)) as off eqn:Eoff. 
  pose proof (Z.div_mod off 512 ltac:(done)) as Hdm. pose proof (Z.mod_pos_bound off 512 ltac:(done)) as Hmb.
  rewrite length_app in Hsz. change MAXFILE with 140 in *. 
  assert (Hd : 0 ≤ off / 512 < 140).
  { change BS with 512 in *. split; [apply Z.div_pos; lia|apply Z.div_lt_upper_bound; lia]. }
  remember (off / 512) as fbn eqn:Efbn. remember (off mod 512) as r eqn:Er. clear Efbn Er.
  rewrite (proj2 (Z.leb_gt 140 fbn)) by lia. apply wp_bind.
  remember (Z.min (Z.of_nat (length p)) ((fbn + 1) * 512 - off)) as n1 eqn:En1.
  remember (take (Z.to_nat n1) p) as q eqn:Eq.
  assert (Hq : Z.of_nat (length q) = n1) by (rewrite Eq, length_take_le; lia).
  assert (Hnb : nbz C ≤ fbn + 1 ∧ fbn ≤ nbz C) by (pose proof (nbz_bounds C); change BS with 512 in *; lia).
  assert (Hpq : C ++ p = (C ++ q) ++ drop (Z.to_nat n1) p) by (rewrite Eq; by rewrite <-app_assoc, firstn_skipn).
  assert (Hnq : nbz (C ++ q) = fbn + 1).
  { apply nbz_unique; [lia|]. rewrite length_app. change BS with 512 in *. lia. }
  pose proof (nbz_mono (C ++ q) (drop (Z.to_nat n1) p)) as Hmo. rewrite <-Hpq, Hnq in Hmo.
  pose proof (need_mono _ _ Hmo).
  eapply block_for_wp; [exact Hcw|exact (of_fmap _ _ _ _ H)|change MAXFILE with 140; lia|lia|exact (fr_ind _ _ _ _ _ _ _ (of_rep _ _ _ _ H))|lia|].
  intros own1 s1 din1 G Hind Hfb Hz. set (x := slot (iview s1) (addrs din1) fbn).
  pose proof (am_slot _ _ _ _ _ _ (gw_map _ _ _ _ _ _ _ _ _ _ G) fbn ltac:(change MAXFILE with 140; lia)) as Hx.
  rewrite (proj2 (Z.ltb_lt _ _)) in Hx by lia. fold x in Hx. destruct Hx as [Hxr _].
  destruct (fm_range _ _ _ _ _ _ _ (grown_fmap _ _ _ _ _ _ _ _ _ _ G) Hxr) as [Hxl _].
  pose proof (mi_len _ _ _ _ (gw_inv _ _ _ _ _ _ _ _ _ _ G)).
  apply wp_bind, wp_rsect; [done|]. apply wp_bind, wp_wsect; [exact Hcw|done|lia|].
  rewrite Hpq. rewrite u32_small by lia. replace (off - fbn * 512) with r by lia.
  eapply wp_mono; [apply (IH own1 _ din1 (C ++ q))|].
  - eapply append_block; [exact H|change MAXFILE with 140; lia|change BS with 512; lia|unfold BSIZE; lia| | |exact G|done|done].
    + intros E. rewrite E in Hq. simpl in Hq. lia.
    + rewrite Eq. by apply Forall_take.
  - rewrite length_app. lia.
  - rewrite <-Hpq, length_app. change MAXFILE with 140. lia.
  - rewrite length_drop. lia.
  - by apply Forall_drop.
  - simpl. rewrite Hfb, <-Hpq, Hnq. lia.
  - intros res s2 (own2 & Hof & Hr & Hfb2). exists own2. split_and!; [done|done|].
    rewrite Hfb2. simpl. rewrite Hfb, Hnq. lia.
Qed.
End Append.

(** ** Inodes of the image *)

(** The blocks the files take. *)
Definition total (F : list (Z * list Z)) : Z := foldr Z.add 0 ((λ f, need (nbz (snd f))) <$> F).

Lemma total_cons f F : total (f :: F) = need (nbz (snd f)) + total F.
Proof. done. Qed.

Lemma total_insert F n t C C' : F !! n = Some (t, C) →
  total (<[n := (t, C')]> F) = total F + (need (nbz C') - need (nbz C)).
Proof.
  revert n. induction F as [|f F IH]; intros [|n] Hn; simpl in Hn; simplify_eq.
  - change (<[0%nat := (t, C')]> ((t, C) :: F)) with ((t, C') :: F). rewrite !total_cons. cbn [snd]. lia.
  - change (<[S n := (t, C')]> (f :: F)) with (f :: <[n := (t, C')]> F). rewrite !total_cons, IH by done. lia.
Qed.

Lemma total_snoc F f : total (F ++ [f]) = total F + need (nbz (snd f)).
Proof.
  induction F as [|g F IH].
  - change ([] ++ [f]) with [f]. rewrite total_cons. change (total []) with 0. lia.
  - change ((g :: F) ++ [f]) with (g :: (F ++ [f])). rewrite !total_cons, IH. lia.
Qed.

Lemma need_nonneg C : 0 ≤ need (nbz C).
Proof. unfold need. pose proof (nbz_nonneg C). destruct (NDIRECT <? nbz C); lia. Qed.

Lemma i2b_same i j : i2b (1 + Z.of_nat i) = i2b (1 + Z.of_nat j) → Z.of_nat i ≤ 198 → Z.of_nat j ≤ 198 →
  i ≠ j → (1 + Z.of_nat i) mod IPB ≠ (1 + Z.of_nat j) mod IPB.
Proof.
  unfold i2b. change IPB with 8. intros E Hi Hj Hne Hm.
  assert (∀ k, Z.of_nat k ≤ 198 → 0 ≤ (1 + Z.of_nat k) / 8 < 30).
  { intros k Hk. split; [apply Z.div_pos; lia|apply Z.div_lt_upper_bound; lia]. }
  rewrite !u32_small in E by (pose proof (H i Hi); pose proof (H j Hj); lia).
  pose proof (Z.div_mod (1 + Z.of_nat i) 8 ltac:(done)). pose proof (Z.div_mod (1 + Z.of_nat j) 8 ltac:(done)). lia.
Qed.

Section Inodes.
Context (big : bool) (can_write : Z → bool).
Hypothesis Hcw : ∀ b, 0 ≤ b < fssize → can_write b = true.
Implicit Types (s : mkst) (own : ownmap) (F : list (Z * list Z)).

Lemma minv_weaken F own s n : minv None F own s → minv (Some n) F own s.
Proof. intros [J1 J2 J3 J4 J5 J6 J7 J8 J9 J10]. constructor; try done. intros i t C Hi _. by apply J10. Qed.

(** [rinode]. *)
Lemma rinode_wp F own s n t C Q : minv None F own s → F !! n = Some (t, C) →
  (∀ din, open_file F n t own s din C → d_size (dinode_at 0 din) = Z.of_nat (length C) → Q din s) →
  wp (rinode (1 + Z.of_nat n)) Q s.
Proof.
  intros I Hn HQ. pose proof (lookup_lt_Some _ _ _ Hn). pose proof (mi_room _ _ _ _ I).
  pose proof (i2b_range n ltac:(lia)) as Hr. change (ninodes / IPB + 3) with 28 in Hr.
  pose proof (mi_len _ _ _ _ I) as Hl. unfold fssize in *.
  unfold rinode. apply wp_bind, wp_rsect; [lia|]. apply wp_ret.
  destruct (take_din (1 + Z.of_nat n) (iview s (i2b (1 + Z.of_nat n)))) as [D E];
    [eapply minv_block; [exact I|unfold fssize; lia]|lia|].
  destruct (mi_file _ _ _ _ I n t C Hn ltac:(done)) as [R Hs].
  apply HQ; [|by rewrite E]. split; [by apply minv_weaken|done|by rewrite E].
Qed.

(** The image once inode [n] has been written, for the files [F']: nothing is
    said of its size yet. *)
Section Store.
Context (F F' : list (Z * list Z)) (own : ownmap) (s s1 : mkst) (n : nat) (din : list Z) (t : Z) (C : list Z).
Hypothesis I : minv (Some n) F own s1.
Hypothesis Hnr : Z.of_nat n ≤ 198.
Hypothesis Es : s = mkMkst (img s1) (freeblock s1) (usedblocks s1) (1 + Z.of_nat (length F')).
Hypothesis Hroom : Z.of_nat (length F') ≤ 199.
Hypothesis Hd : din_ok din.
Hypothesis R : frep (iview s) own n (freeblock s) t C (dinode_at 0 din).
Hypothesis Hother : ∀ i, i ≠ n → F' !! i = F !! i.

Abbreviation bn := (i2b (1 + Z.of_nat n)).
Definition stored : mkst := put_img bn (splice (dinode_off (1 + Z.of_nat n)) din (iview s bn)) s.

Lemma store_block : block_ok (iview s bn) ∧ 2 ≤ bn < 28.
Proof.
  pose proof (i2b_range n Hnr) as Hr. change (ninodes / IPB + 3) with 28 in Hr. split; [|done].
  rewrite Es. apply (minv_block F (Some n) own s1 bn I). unfold fssize. lia.
Qed.

Lemma stored_view b : 0 ≤ b → iview stored b =
  if decide (b = bn) then splice (dinode_off (1 + Z.of_nat n)) din (iview s bn) else iview s b.
Proof.
  intros Hb. unfold stored. apply iview_put; [|done]. pose proof (mi_len _ _ _ _ I) as Hl.
  pose proof store_block as [_ Hr]. rewrite Es. simpl. rewrite Hl. unfold fssize. lia.
Qed.

Lemma stored_rep i t0 C0 d : frep (iview s) own i (freeblock s) t0 C0 d →
  frep (iview stored) own i (freeblock stored) t0 C0 d.
Proof.
  intros R0. pose proof store_block as [_ Hr]. assert (H35 : first_data = 35) by done.
  assert (HV0 : iview s 0 = zero_block) by (rewrite Es; apply (mi_low _ _ _ _ I); by left).
  eapply frep_frame; [exact R0|done|done| |done|].
  - rewrite stored_view, decide_False by lia. done.
  - intros b Hb _. rewrite stored_view, decide_False by lia. done.
Qed.

Lemma stored_dinode : get_dinode (1 + Z.of_nat n) (iview stored bn) = dinode_at 0 din.
Proof.
  pose proof store_block as [Hok Hr]. rewrite stored_view, decide_True by (done || lia).
  by apply (get_dinode_splice din Hd (1 + Z.of_nat n) (iview s bn) Hok ltac:(lia)).
Qed.

Lemma minv_stored : minv (Some n) F' own stored.
Proof.
  pose proof store_block as [Hok Hr]. assert (H35 : first_data = 35) by done.
  destruct (get_dinode_splice din Hd (1 + Z.of_nat n) (iview s bn) Hok ltac:(lia)) as (B1 & _ & B3).
  assert (HVo : ∀ b, 0 ≤ b → b ≠ bn → iview stored b = iview s1 b).
  { intros b Hb Hne. rewrite stored_view, decide_False by done. by rewrite Es. }
  assert (E3 : img stored = <[Z.to_nat bn := splice (dinode_off (1 + Z.of_nat n)) din (iview s bn)]> (img s1) ∧
    freeblock stored = freeblock s1 ∧ usedblocks stored = usedblocks s1 ∧
    freeinode stored = 1 + Z.of_nat (length F')) by (unfold stored; by rewrite Es).
  destruct E3 as (E1 & E2 & E3 & E4). destruct I as [J1 J2 J3 J4 J5 J6 J7 J8 J9 J10].
  change (ninodes / IPB + 4) with 29 in *. constructor; rewrite ?E1, ?E2, ?E3, ?E4; try done.
  - by rewrite length_insert.
  - by apply Forall_insert.
  - change (ninodes / IPB + 4) with 29. intros b Hb. rewrite HVo; [by apply J7|lia|lia].
  - rewrite HVo; [done|lia|lia].
  - intros b Hb. rewrite HVo; [by apply J9|lia|lia].
  - intros i t0 C0 Hi Hne0. assert (Hne : i ≠ n) by congruence. pose proof (lookup_lt_Some _ _ _ Hi).
    rewrite Hother in Hi by done. destruct (J10 i t0 C0 Hi Hne0) as [R0 Hs0].
    pose proof (i2b_range i ltac:(lia)) as Hir.
    assert (E : get_dinode (1 + Z.of_nat i) (iview stored (i2b (1 + Z.of_nat i))) =
                get_dinode (1 + Z.of_nat i) (iview s1 (i2b (1 + Z.of_nat i)))).
    { rewrite stored_view by lia. case_decide as Hc; [|by rewrite Es]. rewrite Hc, B3; [by rewrite Es|lia|].
      apply i2b_same; [done|lia|lia|done]. }
    cbv zeta. rewrite E. split; [|done]. rewrite <-E2. apply stored_rep. by rewrite Es.
Qed.
End Store.

(** The size is right too. *)
Lemma minv_close F own s n t C : minv (Some n) F own s → F !! n = Some (t, C) →
  let d := get_dinode (1 + Z.of_nat n) (iview s (i2b (1 + Z.of_nat n))) in
  frep (iview s) own n (freeblock s) t C d → d_size d = Z.of_nat (length C) → minv None F own s.
Proof.
  intros [J1 J2 J3 J4 J5 J6 J7 J8 J9 J10] Hn d R Hs. constructor; try done.
  intros i t0 C0 Hi _. destruct (decide (n = i)) as [<-|]; [|apply J10; congruence].
  rewrite Hn in Hi. by injection Hi as <- <-.
Qed.

Lemma winode_wp F own s n din t C Q : open_file F n t own s din C → (n < length F)%nat →
  (∀ s', (∀ F', (∀ i, i ≠ n → F' !! i = F !! i) → length F' = length F → minv (Some n) F' own s') →
     frep (iview s') own n (freeblock s') t C (dinode_at 0 din) → freeblock s' = freeblock s →
     get_dinode (1 + Z.of_nat n) (iview s' (i2b (1 + Z.of_nat n))) = dinode_at 0 din → Q () s') →
  wp (winode can_write (1 + Z.of_nat n) din) Q s.
Proof.
  intros [I D R] Hn HQ. pose proof (mi_room _ _ _ _ I).
  pose proof (i2b_range n ltac:(lia)) as Hr. change (ninodes / IPB + 3) with 28 in Hr.
  pose proof (mi_len _ _ _ _ I) as Hl. unfold fssize in *.
  unfold winode. apply wp_bind, wp_rsect; [lia|]. apply wp_wsect; [exact Hcw|lia|unfold fssize; lia|].
  assert (Es : ∀ F', length F' = length F → s = mkMkst (img s) (freeblock s) (usedblocks s) (1 + Z.of_nat (length F'))).
  { intros F' ->. rewrite <-(mi_ino _ _ _ _ I). by destruct s. }
  apply HQ.
  - intros F' Ho Hl'. eapply (minv_stored F F' own s s n); try done; try lia. by apply Es.
  - eapply (stored_rep F F own s s n); try done; try lia. by apply Es.
  - done.
  - eapply (stored_dinode F F own s s n); try done; try lia. by apply Es.
Qed.
End Inodes.

(** ** Appending to files and adding files *)

(** The image holds the files [F] and nothing else. *)
Definition built (F : list (Z * list Z)) (s : mkst) : Prop :=
  ∃ own, minv None F own s ∧ freeblock s = first_data + total F.

(** What the reads of a file amount to: an empty read ends it. *)
Fixpoint file_bytes (reads : list (list Z)) : list Z :=
  match reads with
  | [] => []
  | b :: reads' => if 0 <? Z.of_nat (length b) then b ++ file_bytes reads' else []
  end.

(** The name that goes into the directory, and its entry. *)
Definition pad_name (name : list Z) : list Z :=
  take DIRSIZ (Str.cstr name) ++ replicate (DIRSIZ - length (Str.cstr name)) 0.
Definition entry (inum : Z) (name : list Z) : list Z := dirent_bytes inum (pad_name name).

Section Files.
Context (big : bool) (can_write : Z → bool).
Hypothesis Hcw : ∀ b, 0 ≤ b < fssize → can_write b = true.
Implicit Types (s : mkst) (own : ownmap) (F : list (Z * list Z)).

Lemma iappend_wp F s n t C p : built F s → F !! n = Some (t, C) →
  Z.of_nat (length (C ++ p)) ≤ MAXFILE * BS → Forall is_byte p →
  first_data + total (<[n := (t, C ++ p)]> F) < BPB →
  wp (iappend big can_write (1 + Z.of_nat n) p) (λ _ s', built (<[n := (t, C ++ p)]> F) s') s.
Proof.
  intros (own & I & Hfb) Hn Hsz Hby Hmax. rewrite (total_insert F n t C (C ++ p) Hn) in Hmax.
  unfold iappend. apply wp_bind. eapply rinode_wp; [exact I|exact Hn|]. intros din O Hs.
  rewrite din_size_at by apply O. apply wp_bind.
  eapply wp_mono; [eapply (iappend_loop_wp big can_write Hcw F n t); [exact O|done|done|lia|done|lia]|].
  intros [din' off] s1 (own1 & O1 & Hr & Hfb1). cbn [fst snd] in *.
  assert (Hlim : 0 ≤ Z.of_nat (length (C ++ p)) < 2 ^ 32) by (change (MAXFILE * BS) with 71680 in Hsz; lia).
  destruct O1 as [I1 D1 R1]. rewrite Hr.
  pose proof (set_din_size_at big din' D1 _ Hlim) as E.
  pose proof (lookup_lt_Some _ _ _ Hn) as Hlt.
  eapply (winode_wp can_write Hcw F own1 s1 n _ t (C ++ p)); [|done|].
  - split; [done|apply set_word_ok; [done|unfold DINODE; lia]|]. rewrite E. destruct R1 as [A1 A2 A3 A4].
    constructor; [exact A1|exact A2|exact A3|exact A4].
  - intros s2 I2 R2 Hfb2 Hd2. exists own1. split.
    + eapply (minv_close _ own1 s2 n t (C ++ p)); [apply I2| | |].
      * intros i Hi. by rewrite list_lookup_insert_ne.
      * by rewrite length_insert.
      * by apply list_lookup_insert_eq.
      * by rewrite Hd2.
      * by rewrite Hd2, E.
    + rewrite Hfb2, Hfb1, Hfb, (total_insert F n t C (C ++ p) Hn). lia.
Qed.

Lemma new_file_rep V own n fb t : V 0 = zero_block →
  frep V own n fb t [] (mkDinode t 0 0 1 0 (replicate 13 0)).
Proof.
  intros HV0. change (nbz []) with 0.
  assert (Hi : indb (replicate 13 0) = 0) by done.
  constructor; [done| |done|intros k Hk; change (nbz []) with 0 in Hk; lia]. change (nbz []) with 0.
  constructor; [done|unfold MAXFILE; change NDIRECT with 12; change NINDIRECT with 128; cbn [d_addrs]; lia| |].
  - left. split; [done|by change NDIRECT with 12].
  - intros k Hk. rewrite (proj2 (Z.ltb_ge _ _)) by lia. cbn [d_addrs]. destruct (decide (k < NDIRECT)) as [Hd|Hd].
    + rewrite slot_direct by lia. by rewrite lookup_replicate_2 by (change NDIRECT with 12 in *; lia).
    + rewrite slot_indirect by lia. rewrite Hi, HV0. apply word_at_zero.
Qed.

Lemma ialloc_wp F s t : built F s → Z.of_nat (length F) ≤ 198 → 0 ≤ t < 2 ^ 15 →
  wp (ialloc big can_write t) (λ r s', r = 1 + Z.of_nat (length F) ∧ built (F ++ [(t, [])]) s') s.
Proof.
  intros (own & I & Hfb) Hroom Ht. pose proof (i2b_range (length F) ltac:(lia)) as Hr.
  change (ninodes / IPB + 3) with 28 in Hr. pose proof (mi_len _ _ _ _ I) as Hl. unfold fssize in *.
  unfold ialloc. apply wp_bind, wp_gets, wp_bind, wp_modify. rewrite (mi_ino _ _ _ _ I), u32_small by lia.
  set (s1 := mkMkst _ _ _ _). apply wp_bind. unfold winode. apply wp_bind, wp_rsect; [simpl; lia|].
  apply wp_wsect; [exact Hcw|simpl; lia|unfold fssize; simpl; lia|]. apply wp_ret. split; [done|].
  destruct (new_din_ok big t Ht) as [D E]. exists own. split.
  2:{ simpl. rewrite Hfb, total_snoc. change (need (nbz (snd (t, [])))) with 0. lia. }
  assert (Hrep : frep (iview s1) own (length F) (freeblock s1) t [] (dinode_at 0 (new_din big t))).
  { rewrite E. apply new_file_rep, (mi_low _ _ _ _ I). by left. }
  assert (Hs1 : s1 = mkMkst (img s) (freeblock s) (usedblocks s) (1 + Z.of_nat (length (F ++ [(t, [])])))).
  { unfold s1. f_equal. rewrite length_app. simpl. lia. }
  assert (Hst : get_dinode (1 + Z.of_nat (length F)) (iview (stored s1 (length F) (new_din big t))
    (i2b (1 + Z.of_nat (length F)))) = dinode_at 0 (new_din big t)).
  { by eapply (stored_dinode F _ own s1 s); [apply minv_weaken|lia| |]. }
  eapply (minv_close _ own _ (length F) t []).
  - eapply (minv_stored F _ own s1 s); [by apply minv_weaken|lia|exact Hs1|rewrite length_app; simpl; lia|done|].
    intros i Hi. destruct (decide (i < length F)%nat); [by rewrite lookup_app_l|].
    rewrite !lookup_ge_None_2; [done|lia|]. rewrite length_app. simpl. lia.
  - by rewrite lookup_app_r, Nat.sub_diag by done.
  - unfold stored in Hst. rewrite Hst.
    eapply (stored_rep F _ own s1 s (length F)); [by apply minv_weaken|lia|exact Hs1|done].
  - unfold stored in Hst. rewrite Hst. by rewrite E.
Qed.

Lemma total_nonneg F : 0 ≤ total F.
Proof. induction F as [|f F IH]; [done|]. rewrite total_cons. pose proof (need_nonneg (snd f)). lia. Qed.

Lemma insert_total_le F n t C C' : F !! n = Some (t, C) → need (nbz C) ≤ need (nbz C') →
  total F ≤ total (<[n := (t, C')]> F).
Proof. intros H1 H2. rewrite (total_insert F n t C C' H1). lia. Qed.

Lemma append_reads_wp F n t reads : ∀ s C, built (<[n := (t, C)]> F) s → (n < length F)%nat →
  Z.of_nat (length (C ++ file_bytes reads)) ≤ MAXFILE * BS → Forall (Forall is_byte) reads →
  first_data + total (<[n := (t, C ++ file_bytes reads)]> F) < BPB →
  wp (append_reads big can_write (1 + Z.of_nat n) reads) (λ _ s', built (<[n := (t, C ++ file_bytes reads)]> F) s') s.
Proof.
  induction reads as [|b reads IH]; intros s C B Hn Hsz Hby Hmax; cbn [append_reads file_bytes] in *.
  - rewrite app_nil_r in *. by apply wp_ret.
  - destruct (0 <? Z.of_nat (length b)); [|rewrite app_nil_r in *; by apply wp_ret].
    rewrite (assoc_L (++)) in *. inversion_clear Hby. apply wp_bind.
    assert (Hlook : <[n := (t, C)]> F !! n = Some (t, C)) by by apply list_lookup_insert_eq.
    assert (Hlook' : <[n := (t, C ++ b)]> F !! n = Some (t, C ++ b)) by by apply list_lookup_insert_eq.
    eapply wp_mono; [apply (iappend_wp _ s n t C b B Hlook)|].
    + rewrite !length_app in *. lia.
    + done.
    + rewrite list_insert_insert_eq.
      pose proof (insert_total_le _ n t (C ++ b) ((C ++ b) ++ file_bytes reads) Hlook'
        ltac:(apply need_mono, nbz_mono)) as Hle. rewrite list_insert_insert_eq in Hle. lia.
    + intros ? s1 B1. rewrite list_insert_insert_eq in B1. by apply IH.
Qed.
End Files.
