(* ===== verification/MkfsImage.v ===== *)
(** * What mkfs leaves on the disk

    [main] as a whole: the image is one the log and the file system of the
    kernel accept, every file of the command line is in it byte for byte, and
    the root directory lists them. *)
From S2P Require Import Prelude CString Spinlock Core Bio BioFacts Cache Log LogFacts Fs FsInode FsFile FsAlloc FsWrite FsIcache FsDir Mkfs MkfsFacts.

Abbreviation hostfile := (list Z * option (list (list Z)))%type.

(** The directory entries for the files from inode [inum] on. *)
Fixpoint entries (inum : Z) (files : list hostfile) : list Z :=
  match files with
  | [] => []
  | f :: fs => entry inum (strip (fst f)) ++ entries (inum + 1) fs
  end.
Definition file_of (f : hostfile) : Z * list Z := (T_FILE, file_bytes (default [] (snd f))).

(** A file mkfs takes: no slash in its name, which ends or has fourteen bytes
    after an underscore is dropped, and it can be opened. *)
Record good_file (f : hostfile) : Prop := {
  gf_name : index (fst f) 47 = None;
  gf_ends : StrFacts.covers (strip (fst f)) DIRSIZ;
  gf_bytes : Forall is_byte (strip (fst f));
  gf_reads : ∃ reads, snd f = Some reads ∧ Forall (Forall is_byte) reads;
  gf_size : Z.of_nat (length (file_bytes (default [] (snd f)))) ≤ MAXFILE * BS }.

Lemma cstr_bytes l : Forall is_byte l → Forall is_byte (Str.cstr l).
Proof. induction 1 as [|x l Hx Hl IH]; simpl; [done|]. case_match; [done|]. by constructor. Qed.

Lemma pad_name_length name : length (pad_name name) = DIRSIZ.
Proof. unfold pad_name. rewrite length_app, length_take, length_replicate. lia. Qed.

Lemma entry_length inum name : length (entry inum name) = 16%nat.
Proof. unfold entry, dirent_bytes. by rewrite length_app, le_bytes_length, pad_name_length. Qed.

Lemma entry_bytes inum name : Forall is_byte name → Forall is_byte (entry inum name).
Proof.
  intros H. unfold entry, dirent_bytes, pad_name. rewrite !Forall_app. split_and!.
  - apply le_bytes_range.
  - by apply Forall_take, cstr_bytes.
  - by apply Forall_replicate.
Qed.

Section Main.
Context (big : bool) (can_write : Z → bool).
Hypothesis Hcw : ∀ b, 0 ≤ b < fssize → can_write b = true.
Implicit Types (s : mkst) (own : ownmap) (F : list (Z * list Z)).

(** One file of the command line. *)
Lemma add_file_wp F s R f : built ((T_DIR, R) :: F) s → good_file f → Z.of_nat (length F) ≤ 197 →
  let C := file_bytes (default [] (snd f)) in
  let F' := (T_DIR, R ++ entry (2 + Z.of_nat (length F)) (strip (fst f))) :: F ++ [file_of f] in
  Z.of_nat (length R) + 16 ≤ MAXFILE * BS → first_data + total F' < BPB →
  wp (add_file big can_write ROOTINO f) (λ _ s', built F' s') s.
Proof.
  intros B [Hn He Hb (reads & Hf & Hby) Hs] Hroom C F' HR Hmax. destruct f as [argv file]. cbn [fst snd] in *. subst file. cbn [default] in *.
  unfold add_file. rewrite Hn. cbv zeta. apply wp_bind.
  eapply wp_mono; [apply (ialloc_wp big can_write Hcw _ s T_FILE B)|]; [simpl; lia|done|].
  intros r s1 [-> B1]. rewrite (StrFacts.strncpy_spec (replicate DIRSIZ 0) (strip argv) DIRSIZ)
    by (rewrite ?length_replicate; done).
  apply wp_bind. eapply wp_deref; [done|]. apply wp_bind.
  set (e := entry (2 + Z.of_nat (length F)) (strip argv)) in *.
  assert (He' : de_bytes big (1 + Z.of_nat (length ((T_DIR, R) :: F)))
    (take DIRSIZ (Str.cstr (strip argv)) ++ replicate (DIRSIZ - length (Str.cstr (strip argv))) 0 ++
     drop DIRSIZ (replicate DIRSIZ 0)) = e).
  { unfold e, entry, de_bytes, dirent_bytes, pad_name. rewrite hbytes_xshort. simpl length.
    rewrite drop_ge, app_nil_r by by rewrite length_replicate. do 2 f_equal. unfold u16.
    rewrite Z.mod_small; lia. }
  rewrite He'. assert (Htot : total F' = need (nbz (R ++ e)) + total F + need (nbz C)).
  { unfold F'. rewrite total_cons, total_snoc. change (snd (file_of (argv, Some reads))) with C. cbn [snd]. lia. }
  set (F1 := ((T_DIR, R) :: F) ++ [(T_FILE, [])]) in *.
  assert (Hins : <[0%nat := (T_DIR, R ++ e)]> F1 = ((T_DIR, R ++ e) :: F) ++ [(T_FILE, [])]) by done.
  eapply wp_mono; [apply (iappend_wp big can_write Hcw F1 s1 0 T_DIR R e B1)|].
  - done.
  - rewrite length_app. unfold e. rewrite entry_length. lia.
  - by apply entry_bytes.
  - rewrite Hins, total_snoc, total_cons. cbn [snd]. change (need (nbz [])) with 0.
    pose proof (need_nonneg C). lia.
  - intros u s2 B2. rewrite Hins in B2. clear u.
    set (F2 := ((T_DIR, R ++ e) :: F) ++ [(T_FILE, [])]) in *.
    assert (Hl2 : <[S (length F) := (T_FILE, [])]> F2 = F2).
    { apply list_insert_id. unfold F2. rewrite lookup_app_r by (simpl; lia). simpl length. by rewrite Nat.sub_diag. }
    assert (Hfin : <[S (length F) := (T_FILE, [] ++ C)]> F2 = F').
    { unfold F2, F', file_of. rewrite insert_app_r_alt by (simpl; lia). simpl length. rewrite Nat.sub_diag.
      simpl. done. }
    rewrite <-Hl2 in B2.
    replace (1 + Z.of_nat (length ((T_DIR, R) :: F))) with (1 + Z.of_nat (S (length F))) by (simpl; lia).
    eapply wp_mono; [apply (append_reads_wp big can_write Hcw F2 (S (length F)) T_FILE reads s2 [])|].
    + done.
    + unfold F2. rewrite length_app. simpl. lia.
    + simpl. exact Hs.
    + done.
    + change (file_bytes reads) with C. rewrite Hfin. done.
    + intros u s3 B3. change (file_bytes reads) with C in B3. by rewrite Hfin in B3.
Qed.
End Main.

(** ** The run of [main] *)

Lemma total_app F G : total (F ++ G) = total F + total G.
Proof.
  induction F as [|f F IH]; [done|]. change ((f :: F) ++ G) with (f :: (F ++ G)).
  rewrite !total_cons, IH. lia.
Qed.

Lemma entries_length files : ∀ inum, length (entries inum files) = (16 * length files)%nat.
Proof. induction files as [|f fs IH]; intros inum; [done|]. cbn [entries length]. rewrite length_app, entry_length, IH. lia. Qed.

(** The first bits of the bitmap. *)
Lemma mark_used_spec m : ∀ i buf, block_ok buf → 0 ≤ i → i + Z.of_nat m ≤ BPB →
  block_ok (mark_used m i buf) ∧
  ∀ j, 0 ≤ j < BPB → bit_set (mark_used m i buf) j = ((i <=? j) && (j <? i + Z.of_nat m)) || bit_set buf j.
Proof.
  induction m as [|m IH]; intros i buf Hb Hi Hm; cbn [mark_used].
  - split; [done|]. intros j Hj. destruct (Z.leb_spec i j), (Z.ltb_spec j (i + Z.of_nat 0)); (done || lia).
  - destruct (IH (i + 1) (set_bit i buf)) as [H1 H2]; [by apply set_bit_block|lia|lia|].
    split; [done|]. intros j Hj. rewrite H2, bit_set_set_bit by (done || lia).
    destruct (Z.leb_spec (i + 1) j), (Z.leb_spec i j), (Z.eqb_spec j i), (Z.ltb_spec j (i + 1 + Z.of_nat m)),
      (Z.ltb_spec j (i + Z.of_nat (S m))); (done || lia).
Qed.

Section Run.
Context (big : bool) (can_write : Z → bool).
Hypothesis Hcw : ∀ b, 0 ≤ b < fssize → can_write b = true.
Implicit Types (s : mkst) (own : ownmap) (F : list (Z * list Z)).

Lemma add_files_wp files : ∀ s F R, built ((T_DIR, R) :: F) s → Forall good_file files →
  Z.of_nat (length F + length files) ≤ 198 → Z.of_nat (length R + 16 * length files) ≤ MAXFILE * BS →
  let F' := (T_DIR, R ++ entries (2 + Z.of_nat (length F)) files) :: F ++ (file_of <$> files) in
  first_data + total F' < BPB →
  wp (for_each files (add_file big can_write ROOTINO)) (λ _ s', built F' s') s.
Proof.
  induction files as [|f files IH]; intros s F R B Hg Hn HR F' Hmax; cbn [for_each] in *.
  - apply wp_ret. unfold F'. simpl. by rewrite !app_nil_r.
  - inversion_clear Hg as [|? ? Hf Hfs]. cbn [length] in *. unfold F' in *. clear F'. cbn [entries] in *.
    change (file_of <$> f :: files) with ([file_of f] ++ (file_of <$> files)) in *.
    rewrite !(assoc_L (++)) in *. set (e := entry (2 + Z.of_nat (length F)) (strip (fst f))) in *.
    apply wp_bind. eapply wp_mono; [apply (add_file_wp big can_write Hcw F s R f B Hf); [lia|lia|]|].
    + rewrite total_cons, total_app in Hmax. rewrite total_cons. cbn [snd] in *. fold e.
      pose proof (total_nonneg (file_of <$> files)). 
      pose proof (need_mono _ _ (nbz_mono (R ++ e) (entries (2 + Z.of_nat (length F) + 1) files))). lia.
    + intros u s1 B1. fold e in B1.
      replace (2 + Z.of_nat (length F) + 1) with (2 + Z.of_nat (length (F ++ [file_of f]))) in *
        by (rewrite length_app; simpl; lia).
      apply IH; [done|done|rewrite length_app; simpl; lia| |done].
      unfold e. rewrite length_app, entry_length. lia.
Qed.

Lemma zero_disk_wp m : ∀ k s Q, img s = replicate k zero_block → Z.of_nat (k + m) ≤ fssize →
  Q () (set_img (λ _, replicate (k + m) zero_block) s) →
  wp (for_each (seq k m) (λ i, wsect can_write (Z.of_nat i) (replicate 512 0))) Q s.
Proof.
  induction m as [|m IH]; intros k s Q Hs Hm HQ; cbn [seq for_each].
  - apply wp_ret. rewrite Nat.add_0_r, <-Hs in HQ. by destruct s.
  - apply wp_bind. unfold wsect at 1. rewrite Hcw by lia. apply wp_modify. rewrite Nat2Z.id.
    assert (E : put_sector k (replicate 512 0) (img s) = replicate (S k) zero_block).
    { unfold put_sector. rewrite Hs, length_replicate, Nat.sub_diag. simpl app.
      rewrite app_nil_r, take_ge, drop_ge by (rewrite length_replicate; lia).
      change (replicate 512 0) with zero_block. by rewrite <-replicate_S_end. }
    apply IH; [done|lia|]. replace (S k + m)%nat with (k + S m)%nat by lia. by destruct s.
Qed.

(** The first inode comes after the superblock. *)
Lemma built_empty s0 : img s0 = replicate (Z.to_nat fssize) zero_block → freeblock s0 = first_data →
  usedblocks s0 = first_data → freeinode s0 = 1 → built [] (put_img 1 sb_block s0).
Proof.
  intros E1 E2 E3 E4. assert (H35 : first_data = 35) by done. exists (λ _, (0%nat, 0)).
  assert (Hlen : Z.of_nat (length (img s0)) = fssize) by (rewrite E1, length_replicate, Z2Nat.id; done).
  assert (HV : ∀ b, 0 ≤ b < fssize → b ≠ 1 → iview (put_img 1 sb_block s0) b = zero_block).
  { intros b Hb Hne. rewrite iview_put by (rewrite ?Hlen; unfold fssize in *; lia). rewrite decide_False by done.
    unfold iview, dview. rewrite E1, lookup_replicate_2 by lia. done. }
  unfold fssize in *. split; [|simpl; rewrite E2; done]. constructor; simpl; rewrite ?E2, ?E3, ?E4; try done.
  - by rewrite length_insert.
  - apply Forall_insert; [rewrite E1; apply Forall_replicate, zero_block_ok|]. split; [done|].
    unfold sb_block. rewrite !Forall_app. split_and!; try apply le_bytes_range. by apply Forall_replicate.
  - change (ninodes / IPB + 4) with 29. intros b Hb. apply HV; lia.
  - rewrite iview_put by lia. done.
  - intros b Hb. unfold fssize in Hb. apply HV; lia.
Qed.

(** The root directory of the image: its size is rounded up to the next block. *)
Definition rounded (C : list Z) : Z := (Z.of_nat (length C) / BS + 1) * BS.

Lemma fix_root_wp F s R Q : built ((T_DIR, R) :: F) s → Z.of_nat (length R) < MAXFILE * BS →
  (∀ own s', (∀ R', minv (Some 0%nat) ((T_DIR, R') :: F) own s') → freeblock s' = freeblock s →
     let d := get_dinode 1 (iview s' (i2b 1)) in
     frep (iview s') own 0 (freeblock s') T_DIR R d → d_size d = rounded R → Q () s') →
  wp (fix_root big can_write ROOTINO) Q s.
Proof.
  intros (own & I & Hfb) HR HQ. change (MAXFILE * BS) with 71680 in HR.
  unfold fix_root. apply wp_bind. change ROOTINO with (1 + Z.of_nat 0).
  eapply (rinode_wp _ own s 0 T_DIR R); [exact I|done|]. intros din O Hs. cbv zeta.
  rewrite (din_size_at big din (of_din _ _ _ _ _ _ _ O)), Hs. fold (rounded R).
  assert (Hr : 0 ≤ rounded R < 2 ^ 32).
  { unfold rounded. change BS with 512. pose proof (Z.div_mod (Z.of_nat (length R)) 512 ltac:(done)).
    pose proof (Z.mod_pos_bound (Z.of_nat (length R)) 512 ltac:(done)). lia. }
  rewrite (u32_small (rounded R)) by done.
  pose proof (set_din_size_at big din (of_din _ _ _ _ _ _ _ O) (rounded R) Hr) as E.
  eapply (winode_wp can_write Hcw _ own s 0 _ T_DIR R).
  - destruct O as [I' D' [A1 A2 A3 A4]]. split; [done|apply set_word_ok; [done|unfold DINODE; lia]|].
    rewrite E. constructor; [exact A1|exact A2|exact A3|exact A4].
  - simpl. lia.
  - intros s' I' R' Hfb' Hd. apply (HQ own s').
    + intros C. apply I'; [|done]. intros [|i] Hi; [done|done].
    + done.
    + change 1 with (1 + Z.of_nat 0). rewrite Hd. done.
    + change 1 with (1 + Z.of_nat 0). by rewrite Hd, E.
Qed.
End Run.

(** *** What [main] leaves *)

Definition dots : list Z := entry 1 [46; 0] ++ entry 1 [46; 46; 0].
Definition root_of (files : list hostfile) : list Z := dots ++ entries 2 files.
Definition files_of (files : list hostfile) : list (Z * list Z) :=
  (T_DIR, root_of files) :: (file_of <$> files).
Definition bitmap_block : Z := ninodes / IPB + 3.

Record image (files : list hostfile) (own : ownmap) (s : mkst) : Prop := {
  im_inv : minv (Some 0%nat) (files_of files) own s;
  im_fb : freeblock s = first_data + total (files_of files);
  im_root : let d := get_dinode 1 (iview s (i2b 1)) in
    frep (iview s) own 0 (freeblock s) T_DIR (root_of files) d ∧ d_size d = rounded (root_of files);
  im_map : iview s bitmap_block = mark_used (Z.to_nat (freeblock s)) 0 zero_block }.

(** The command line is one mkfs can serve. *)
Record good_files (files : list hostfile) : Prop := {
  gl_files : Forall good_file files;
  gl_inodes : Z.of_nat (length files) ≤ 198;
  gl_blocks : first_data + total (files_of files) < BPB }.

Section MainRun.
Context (big : bool) (can_write : Z → bool).
Hypothesis Hcw : ∀ b, 0 ≤ b < fssize → can_write b = true.
Implicit Types (s : mkst) (own : ownmap).

Lemma sb_in_block : splice 0 (sb_bytes big) (replicate 512 0) = sb_block.
Proof. unfold sb_bytes. rewrite !hbytes_xint. done. Qed.

(** The bitmap block is no block of the rest. *)
Lemma minv_bitmap F own s buf fb t C d : minv (Some 0%nat) F own s → block_ok buf → Z.of_nat (length F) ≤ 199 →
  frep (iview s) own 0 fb t C d → fb = freeblock s →
  minv (Some 0%nat) F own (put_img bitmap_block buf s) ∧
  frep (iview (put_img bitmap_block buf s)) own 0 fb t C d ∧
  ∀ b, 0 ≤ b → iview (put_img bitmap_block buf s) b = if decide (b = bitmap_block) then buf else iview s b.
Proof.
  intros I Hb Hl R ->. change bitmap_block with 28. assert (H35 : first_data = 35) by done.
  pose proof (mi_len _ _ _ _ I) as Hlen. unfold fssize in Hlen.
  assert (HV : ∀ b, 0 ≤ b → iview (put_img 28 buf s) b = if decide (b = 28) then buf else iview s b).
  { intros b H0. apply iview_put; lia. }
  assert (HVo : ∀ b, 0 ≤ b → b ≠ 28 → iview (put_img 28 buf s) b = iview s b).
  { intros b H0 Hne. rewrite HV by done. by rewrite decide_False. }
  destruct I as [J1 J2 J3 J4 J5 J6 J7 J8 J9 J10]. change (ninodes / IPB + 4) with 29 in *.
  assert (Fr : ∀ i t C d, frep (iview s) own i (freeblock s) t C d →
    frep (iview (put_img 28 buf s)) own i (freeblock s) t C d).
  { intros i t0 C0 d0 R0. eapply frep_frame; [exact R0|done|apply J7; by left| |done|].
    - rewrite HVo by done. apply J7. by left.
    - intros b Hb' _. apply HVo; lia. }
  split_and!; [|by apply Fr|done]. constructor; try done; change (ninodes / IPB + 4) with 29.
  - simpl. by rewrite length_insert.
  - simpl. by apply Forall_insert.
  - intros b Hb'. rewrite HVo; [by apply J7|lia|lia].
  - rewrite HVo; [done|lia|lia].
  - simpl. intros b Hb'. rewrite HVo; [by apply J9|lia|lia].
  - intros i t0 C0 Hi Hne. destruct (J10 i t0 C0 Hi Hne) as [R0 Hs0]. pose proof (lookup_lt_Some _ _ _ Hi).
    pose proof (i2b_range i ltac:(lia)) as Hr. change (ninodes / IPB + 3) with 28 in Hr.
    rewrite HVo by lia. split; [by apply Fr|done].
Qed.

(** The two entries every directory has. *)
Lemma dots_wp (k : M mkst unit) Q s1 : built [(T_DIR, [])] s1 →
  (∀ s', built [(T_DIR, dots)] s' → wp k Q s') →
  wp (iappend big can_write ROOTINO (de_bytes big ROOTINO (strcpy_name [46; 0])) ;;
      iappend big can_write ROOTINO (de_bytes big ROOTINO (strcpy_name [46; 46; 0])) ;; k) Q s1.
Proof.
  intros B1 HQ. assert (H35 : first_data = 35) by done.
  assert (He : ∀ nm, nm = [46; 0] ∨ nm = [46; 46; 0] → de_bytes big ROOTINO (strcpy_name nm) = entry 1 nm).
  { unfold de_bytes. rewrite hbytes_xshort. by intros nm [-> | ->]. }
  rewrite !He by auto. apply wp_bind. change ROOTINO with (1 + Z.of_nat 0).
  set (e1 := entry 1 [46; 0]). set (e2 := entry 1 [46; 46; 0]).
  assert (HT : total [(T_DIR, e1)] = 1 ∧ total [(T_DIR, e1 ++ e2)] = 1) by (by vm_compute).
  eapply wp_mono; [apply (iappend_wp big can_write Hcw _ s1 0 T_DIR [] e1 B1)|];
    [done|by vm_compute|by apply entry_bytes; repeat constructor|change (<[_:=_]> _) with [(T_DIR, e1)]; change BPB with 4096; lia|].
  intros u s2 B2. change (<[_:=_]> _) with [(T_DIR, e1)] in B2. apply wp_bind.
  eapply wp_mono; [apply (iappend_wp big can_write Hcw _ s2 0 T_DIR e1 e2 B2)|];
    [done|by vm_compute|by apply entry_bytes; repeat constructor|change (<[_:=_]> _) with [(T_DIR, e1 ++ e2)]; change BPB with 4096; lia|].
  intros u' s3 B3. by apply HQ.
Qed.

Lemma root_length files : length (root_of files) = (32 + 16 * length files)%nat.
Proof. unfold root_of. by rewrite length_app, entries_length. Qed.

(** The last two steps. *)
Lemma finish_wp files s4 : good_files files → built (files_of files) s4 →
  wp (fix_root big can_write ROOTINO ;; used ← gets usedblocks; balloc can_write used)
    (λ _ s, ∃ own, image files own s) s4.
Proof.
  intros [Hg Hn Hmax] B4. apply wp_bind. pose proof (root_length files) as HrL.
  eapply (fix_root_wp big can_write Hcw); [exact B4|change (MAXFILE * BS) with 71680; lia|].
  intros own s5 I5 Hfb5 d R5 Hs5. specialize (I5 (root_of files)). apply wp_bind, wp_gets. unfold balloc.
  pose proof (mi_fb _ _ _ _ I5) as Hfb. change BPB with 4096 in *. rewrite (mi_ub _ _ _ _ I5).
  rewrite (proj2 (Z.leb_gt (512 * 8) _)) by lia. pose proof (mi_len _ _ _ _ I5) as Hlen.
  change (ninodes / IPB + 3) with 28 in *. change first_data with 35 in *. unfold fssize in *.
  apply wp_wsect; [exact Hcw|lia|unfold fssize; lia|]. destruct B4 as (own4 & _ & E4).
  destruct (mark_used_spec (Z.to_nat (freeblock s5)) 0 zero_block zero_block_ok) as [Hbuf _]; [done|change BPB with 4096; lia|].
  destruct (minv_bitmap _ own s5 _ _ _ _ d I5 Hbuf ltac:(simpl; rewrite length_fmap; lia) R5 eq_refl) as (I6 & R6 & HV).
  change bitmap_block with 28 in *. change (replicate 512 0) with zero_block.
  exists own. constructor; [exact I6|by simpl; rewrite Hfb5| |].
  - rewrite HV by done. by split.
  - change bitmap_block with 28. rewrite HV by done. done.
Qed.

Lemma main_wp files : good_files files →
  wp (main big can_write (Some true) files) (λ _ s, ∃ own, image files own s) mkst0.
Proof.
  intros G. pose proof G as [Hg Hn Hmax]. unfold main. cbv zeta.
  apply wp_bind, wp_modify. change (u32 (ninodes / IPB + 3 + bitblocks)) with 35.
  change (negb (nblocks + 35 + nlog =? fssize)) with false. cbv iota.
  change (nblocks + 35 + nlog) with fssize.
  apply wp_bind. eapply zero_disk_wp; [exact Hcw|done|unfold fssize; lia|]. rewrite sb_in_block. set (s0 := set_img _ _).
  assert (E0 : img s0 = replicate (Z.to_nat fssize) zero_block) by done.
  assert (Hl0 : Z.of_nat (length (img s0)) = fssize) by (rewrite E0, length_replicate; unfold fssize; lia).
  assert (B0 : built [] (put_img 1 sb_block s0)) by (by apply built_empty).
  clearbody s0. clear E0.
  apply wp_bind, wp_wsect; [exact Hcw|rewrite Hl0; unfold fssize; lia|by rewrite Hl0|].
  apply wp_bind. eapply wp_mono; [apply (ialloc_wp big can_write Hcw [] _ T_DIR B0); [simpl; lia|done]|].
  intros r s1 [-> B1]. change (1 + Z.of_nat (length [])) with ROOTINO. rewrite Z.eqb_refl. cbn [negb].
  apply dots_wp; [exact B1|]. intros s3 B3. apply wp_bind.
  eapply wp_mono; [apply (add_files_wp big can_write Hcw files s3 [] dots B3 Hg)|];
    [simpl; lia|change (length dots) with 32%nat; change (MAXFILE * BS) with 71680; lia|exact Hmax|].
  intros u2 s4 B4. by apply finish_wp.
Qed.
End MainRun.

(** ** The kernel's view of the image *)

(** The blocks of contents, one after the other. *)
Lemma mjoin_blk C (m : nat) :
  mjoin ((λ k : nat, blk (Z.of_nat k) C) <$> seq 0 m) = take (BSIZE * m) (C ++ replicate (BSIZE * m) 0).
Proof.
  set (P := C ++ replicate (BSIZE * m) 0).
  assert (H : ∀ q, (q ≤ m)%nat → mjoin ((λ k : nat, blk (Z.of_nat k) C) <$> seq 0 q) = take (BSIZE * q) P).
  { induction q as [|q IH]; intros Hq; [by rewrite Nat.mul_0_r|].
    rewrite seq_S, fmap_app, join_app, IH by lia.
    change (mjoin ((λ k : nat, blk (Z.of_nat k) C) <$> [(0 + q)%nat])) with (blk (Z.of_nat q) C ++ []). rewrite app_nil_r.
    replace (blk (Z.of_nat q) C) with (sublist (BSIZE * q) BSIZE P).
    - change (take (BSIZE * q) P) with (sublist 0 (BSIZE * q) P).
      etrans; [exact (sublist_glue 0 (BSIZE * q) BSIZE P)|]. unfold sublist. rewrite drop_0. f_equal. lia.
    - assert (HP : length P = (length C + BSIZE * m)%nat) by (unfold P; by rewrite length_app, length_replicate).
      apply blk_eq; [apply sublist_length; unfold BSIZE in *; lia|]. intros i Hi. rewrite sublist_lookup by done.
      rewrite Nat2Z.id. unfold P. destruct (decide (BSIZE * q + i < length C)%nat) as [Hl|Hl].
      + rewrite lookup_app_l by done. by destruct (lookup_lt_is_Some_2 C _ Hl) as [x ->].
      + rewrite lookup_app_r, (lookup_ge_None_2 C) by lia. simpl. apply lookup_replicate_2. unfold BSIZE in *. lia. }
  by apply H.
Qed.

Section View.
Context (F : list (Z * list Z)) (own : ownmap) (s : mkst) (skip : option nat).
Hypothesis I : minv skip F own s.
Abbreviation V := (iview s).
Abbreviation wf := (wfile (fssize - nlog) nlog (img s)).

Section OneFile.
Context (n : nat) (t : Z) (C : list Z) (inum : Z).
Abbreviation d := (get_dinode inum (V (IBLOCK inum))).
Hypothesis R : frep V own n (freeblock s) t C d.
Hypothesis Ht : t ≠ T_DEV.
Hypothesis Hsz : Z.of_nat (length C) ≤ d_size d.
Hypothesis Hnb : Z.of_nat (FsFile.nblocks (d_size d)) = nbz C.
Hypothesis Hmax : d_size d ≤ MAXFILE * BS.

Lemma ip_slot k : baddr V (inode_on V inum) k = slot V (d_addrs d) k.
Proof. done. Qed.

Lemma ip_block k : 0 ≤ k < nbz C → 35 ≤ slot V (d_addrs d) k < freeblock s ∧ own (slot V (d_addrs d) k) = (n, k) ∧
  V (slot V (d_addrs d) k) = blk k C.
Proof.
  intros Hk. pose proof (am_nb _ _ _ _ _ _ (fr_map _ _ _ _ _ _ _ R)).
  pose proof (am_slot _ _ _ _ _ _ (fr_map _ _ _ _ _ _ _ R) k ltac:(lia)) as Hs.
  rewrite (proj2 (Z.ltb_lt _ _)) in Hs by lia. destruct Hs as [Hr Ho]. change first_data with 35 in Hr.
  refine (conj Hr (conj Ho _)). by apply (fr_data _ _ _ _ _ _ _ R).
Qed.

Lemma ip_ind : NDIRECT * BS < d_size d → 35 ≤ indb (d_addrs d) < freeblock s ∧ own (indb (d_addrs d)) = (n, -1).
Proof.
  intros Hk. destruct (am_ind _ _ _ _ _ _ (fr_map _ _ _ _ _ _ _ R)) as [[_ Hle]|H]; [|done].
  pose proof (nblocks_lt (d_size d) NDIRECT ltac:(lia) ltac:(done) Hk). lia.
Qed.

Lemma frep_wfile : wf V (inode_on V inum).
Proof.
  pose proof (mi_fb _ _ _ _ I) as Hfb. change first_data with 35 in Hfb. change BPB with 4096 in Hfb.
  pose proof (mi_len _ _ _ _ I) as Hl. unfold fssize in Hl.
  assert (E : i_size (inode_on V inum) = d_size d) by done.
  assert (Ht' : d_type d = t) by exact (f_equal (λ p, fst (fst (fst p))) (fr_head _ _ _ _ _ _ _ R)).
  constructor; rewrite ?E.
  - constructor; rewrite ?E, ?Hl; [done| |lia|apply R| | |].
    + by change (d_type d ≠ T_DEV); rewrite Ht'.
    + intros Hb. destruct (ip_ind Hb). change (0 < indb (d_addrs d) < 25045). lia.
    + intros k Hk. rewrite ip_slot. destruct (ip_block k ltac:(lia)). lia.
    + intros k Hk. rewrite ip_slot. destruct (ip_block k ltac:(lia)) as (Hr & _).
      eapply minv_block; [exact I|unfold fssize; lia].
  - intros k Hk. rewrite ip_slot. destruct (ip_block k ltac:(lia)). unfold home, fssize, nlog. lia.
  - intros j k Hj Hk. rewrite !ip_slot. destruct (ip_block j ltac:(lia)) as (_ & Oj & _).
    destruct (ip_block k ltac:(lia)) as (_ & Ok & _). intros Ejk. rewrite Ejk, Ok in Oj. by injection Oj.
  - intros Hb. destruct (ip_ind Hb). change (home (fssize - nlog) nlog (length (img s)) (indb (d_addrs d))).
    unfold home, fssize, nlog. lia.
  - intros k Hb Hk. rewrite ip_slot. destruct (ip_ind Hb) as [_ Oi]. destruct (ip_block k ltac:(lia)) as (_ & Ok & _).
    change (slot V (d_addrs d) k ≠ indb (d_addrs d)). intros Ek. rewrite Ek, Oi in Ok. injection Ok. lia.
Qed.

Lemma frep_contents : contents V (inode_on V inum) = C ++ replicate (Z.to_nat (d_size d) - length C) 0.
Proof.
  unfold contents, fdata. change (i_size (inode_on V inum)) with (d_size d).
  replace ((λ k : nat, V (baddr V (inode_on V inum) (Z.of_nat k))) <$> seq 0 (FsFile.nblocks (d_size d)))
    with ((λ k : nat, blk (Z.of_nat k) C) <$> seq 0 (FsFile.nblocks (d_size d))).
  2:{ apply list_fmap_ext. intros i k Hk. apply lookup_seq in Hk as [-> Hk]. simpl. symmetry.
      rewrite ip_slot. apply ip_block. lia. }
  rewrite mjoin_blk, take_take.
  assert (d_size d ≤ BS * Z.of_nat (FsFile.nblocks (d_size d))).
  { destruct (decide (d_size d ≤ BS * Z.of_nat (FsFile.nblocks (d_size d)))) as [|Hn]; [done|].
    pose proof (nblocks_lt (d_size d) (Z.of_nat (FsFile.nblocks (d_size d))) ltac:(lia) ltac:(lia) ltac:(lia)). lia. }
  rewrite Nat.min_l by (unfold BSIZE in *; lia). rewrite take_app_ge by lia. f_equal.
  rewrite take_replicate. f_equal. unfold BSIZE in *. lia.
Qed.
End OneFile.

(** The log is empty and has its place. *)
Lemma image_good_disk : good_disk (fssize - nlog) nlog (img s).
Proof.
  pose proof (mi_len _ _ _ _ I) as Hl. unfold fssize, nlog in *. constructor.
  - apply I.
  - constructor; lia.
  - lia.
  - change (dview (img s) 1) with (V 1). rewrite (mi_sb _ _ _ _ I). by exists fssize, nlog.
  - split; lia.
  - change (dview (img s) (25045 - 10)) with (V (25045 - 10)).
    pose proof (mi_fb _ _ _ _ I) as Hfb. change BPB with 4096 in Hfb.
    rewrite (mi_high _ _ _ _ I) by (unfold fssize; lia). split; [reflexivity|]. intros i x Hx. by rewrite lookup_nil in Hx.
Qed.

Hypothesis Hmap : V bitmap_block = mark_used (Z.to_nat (freeblock s)) 0 zero_block.

Lemma bblock_range b : 0 ≤ b < fssize → BBLOCK b ninodes = b / BPB + 28 ∧ 0 ≤ b / BPB ≤ 6.
Proof.
  intros Hb. unfold fssize in Hb. unfold BBLOCK, ninodes. change (200 / IPB) with 25. change BPB with 4096.
  assert (0 ≤ b / 4096 ≤ 6).
  { split; [apply Z.div_pos; lia|]. apply Z.lt_succ_r, Z.div_lt_upper_bound; lia. }
  rewrite u32_small by lia. lia.
Qed.

Lemma zero_bits j : bit_set zero_block j = false.
Proof.
  unfold bit_set, zero_block. destruct (aget (replicate BSIZE 0) (j / 8)) as [x|] eqn:E.
  - apply aget_Some in E as [_ E]. apply lookup_replicate in E as [-> _]. done.
  - done.
Qed.

Lemma image_used b : 0 ≤ b < fssize → used V ninodes b = (b <? freeblock s).
Proof.
  intros Hb. destruct (bblock_range b Hb) as [E Hq]. unfold used. rewrite E.
  pose proof (mi_fb _ _ _ _ I) as Hfb. change first_data with 35 in Hfb.
  pose proof (Z.div_mod b BPB ltac:(done)) as Hdm. pose proof (Z.mod_pos_bound b BPB ltac:(done)) as Hm.
  destruct (decide (b / BPB = 0)) as [E0|E0].
  - rewrite E0. change (0 + 28) with bitmap_block. rewrite Hmap.
    destruct (mark_used_spec (Z.to_nat (freeblock s)) 0 zero_block zero_block_ok) as [_ Hs]; [done|lia|].
    rewrite Hs, zero_bits, orb_false_r by lia. rewrite (proj2 (Z.leb_le 0 _)) by lia. cbn [andb].
    rewrite Z2Nat.id by lia. rewrite E0 in Hdm. do 2 f_equal. lia.
  - rewrite (mi_low _ _ _ _ I).
    + rewrite zero_bits. symmetry. apply Z.ltb_ge. change BPB with 4096 in *. nia.
    + right. change first_data with 35. change (ninodes / IPB + 4) with 29. lia.
Qed.

Lemma image_layout : fs_layout (fssize - nlog) nlog (img s) V fssize ninodes.
Proof.
  pose proof (mi_len _ _ _ _ I) as Hl. pose proof (mi_fb _ _ _ _ I) as Hfb. change first_data with 35 in Hfb.
  constructor.
  - by rewrite (mi_sb _ _ _ _ I).
  - by rewrite (mi_sb _ _ _ _ I).
  - done.
  - rewrite <-(Nat2Z.id (length _)), Hl. unfold home, fssize, nlog. lia.
  - intros b Hb. destruct (bblock_range b Hb) as [E Hq]. rewrite E.
    assert (Hr : 0 ≤ b / BPB + 28 < fssize) by (unfold fssize; lia).
    split_and!; [unfold home, fssize, nlog in *; lia|by eapply minv_block|lia|lia| |lia].
    rewrite image_used by done. apply Z.ltb_lt. lia.
Qed.
End View.

(** ** The theorems *)

Section FileOn.
Context (files : list hostfile) (own : ownmap) (s : mkst).
Hypothesis G : good_files files.
Hypothesis Im : image files own s.
Abbreviation V := (iview s).

Lemma image_file i f : files !! i = Some f →
  let ip := inode_on V (2 + Z.of_nat i) in
  i_type ip = T_FILE ∧ i_nlink ip = 1 ∧ wfile (fssize - nlog) nlog (img s) V ip ∧
  contents V ip = file_bytes (default [] (snd f)).
Proof.
  intros Hf ip. set (C := file_bytes (default [] (snd f))).
  assert (Hlk : files_of files !! S i = Some (T_FILE, C)).
  { change (files_of files !! S i) with ((file_of <$> files) !! i). by rewrite list_lookup_fmap, Hf. }
  destruct (mi_file _ _ _ _ (im_inv _ _ _ Im) (S i) T_FILE C Hlk ltac:(done)) as [R Hs].
  replace (1 + Z.of_nat (S i)) with (2 + Z.of_nat i) in * by lia. change (i2b ?x) with (IBLOCK x) in *.
  pose proof (gf_size f (Forall_lookup_1 _ _ _ _ (gl_files _ G) Hf)) as Hmax. fold C in Hmax.
  assert (Hh : (i_type ip, i_nlink ip) = (T_FILE, 1)).
  { exact (f_equal (λ p, (fst (fst (fst p)), snd p)) (fr_head _ _ _ _ _ _ _ R)). }
  refine (conj (f_equal fst Hh) (conj (f_equal snd Hh) (conj _ _))).
  - eapply (frep_wfile _ own s _ (im_inv _ _ _ Im) _ _ C _ R); [done|by rewrite Hs|by rewrite Hs|by rewrite Hs].
  - unfold ip. rewrite (frep_contents own s _ _ C _ R) by (by rewrite Hs).
    rewrite Hs, Nat2Z.id, Nat.sub_diag. apply app_nil_r.
Qed.

Lemma rounded_spec C m : Z.of_nat (length C) = m → 
  m < rounded C ≤ m + BS ∧ (m mod BS ≠ 0 → Z.of_nat (FsFile.nblocks (rounded C)) = nbz C) ∧
  (m mod BS = 0 → rounded C = m + BS ∧ nbz C = m / BS).
Proof.
  intros <-. unfold rounded. set (m := Z.of_nat (length C)).
  pose proof (Z.div_mod m BS ltac:(done)) as Hdm. pose proof (Z.mod_pos_bound m BS ltac:(done)) as Hm.
  assert (0 ≤ m / BS) by (apply Z.div_pos; lia). change BS with 512 in *. split_and!; [lia|lia| |].
  - intros Hne. unfold FsFile.nblocks. change BS with 512.
    rewrite (nbz_unique C (m / 512 + 1)); [|lia|change BS with 512; fold m; lia].
    replace ((m / 512 + 1) * 512 + 512 - 1) with (511 + (m / 512 + 1) * 512) by lia.
    rewrite Z.div_add, Z.div_small by done. lia.
  - intros E. split; [lia|]. apply nbz_unique; [done|]. change BS with 512. fold m. lia.
Qed.

Lemma root_len : Z.of_nat (length (root_of files)) = 32 + 16 * Z.of_nat (length files).
Proof. rewrite root_length. lia. Qed.

(** When the entries do not fill their last block. *)
Lemma image_root : (2 + Z.of_nat (length files)) mod 32 ≠ 0 →
  let ip := inode_on V ROOTINO in
  i_type ip = T_DIR ∧ i_nlink ip = 1 ∧ wfile (fssize - nlog) nlog (img s) V ip ∧
  contents V ip = root_of files ++ replicate (Z.to_nat (rounded (root_of files)) - length (root_of files)) 0.
Proof.
  intros Hne ip. destruct (im_root _ _ _ Im) as [R Hs]. change (i2b 1) with (IBLOCK ROOTINO) in *.
  change (get_dinode 1) with (get_dinode ROOTINO) in *. pose proof (gl_inodes _ G) as Hn.
  destruct (rounded_spec (root_of files) _ root_len) as (Hr & Hnb & _).
  assert (Hmod : (32 + 16 * Z.of_nat (length files)) mod BS ≠ 0).
  { replace (32 + 16 * Z.of_nat (length files)) with (16 * (2 + Z.of_nat (length files))) by lia.
    change BS with (16 * 32). rewrite Z.mul_mod_distr_l by done. lia. }
  specialize (Hnb Hmod).
  assert (Hh : (i_type ip, i_nlink ip) = (T_DIR, 1)).
  { exact (f_equal (λ p, (fst (fst (fst p)), snd p)) (fr_head _ _ _ _ _ _ _ R)). }
  assert (Hle : Z.of_nat (length (root_of files)) ≤ d_size (get_dinode ROOTINO (V (IBLOCK ROOTINO)))).
  { rewrite Hs, root_len. lia. }
  assert (Hmax : d_size (get_dinode ROOTINO (V (IBLOCK ROOTINO))) ≤ MAXFILE * BS).
  { rewrite Hs. change (MAXFILE * BS) with 71680. change BS with 512 in Hr. lia. }
  refine (conj (f_equal fst Hh) (conj (f_equal snd Hh) (conj _ _))).
  - eapply (frep_wfile _ own s _ (im_inv _ _ _ Im) _ _ _ _ R); [done|exact Hle|by rewrite Hs|exact Hmax].
  - unfold ip. rewrite (frep_contents own s _ _ _ _ R) by (exact Hle || exact Hmax || by rewrite Hs). by rewrite Hs.
Qed.
End FileOn.

(** C22. On a command line it can serve, whatever the byte order of the host,
    mkfs ends with an image that the kernel's log and file system accept: a
    superblock, an empty log, a bitmap in which exactly the blocks up to the
    last one given away are used, every file in its inode with its bytes, in
    blocks of its own, and a root directory that lists them (padded with empty
    entries) unless the entries fill their last block. *)
Theorem mkfs_image (big : bool) (can_write : Z → bool) (files : list hostfile)
    (Hcw : ∀ b, 0 ≤ b < fssize → can_write b = true) (G : good_files files) :
  ∃ s, main big can_write (Some true) files mkst0 = Ret () s ∧
    let D := img s in let V := dview D in
    Z.of_nat (length D) = fssize ∧ good_disk (fssize - nlog) nlog D ∧
    fs_layout (fssize - nlog) nlog D V fssize ninodes ∧
    (∀ b, 0 ≤ b < fssize → used V ninodes b = (b <? first_data + total (files_of files))) ∧
    (∀ i f, files !! i = Some f → let ip := inode_on V (2 + Z.of_nat i) in
       i_type ip = T_FILE ∧ i_nlink ip = 1 ∧ wfile (fssize - nlog) nlog D V ip ∧
       contents V ip = file_bytes (default [] (snd f))) ∧
    ((2 + Z.of_nat (length files)) mod 32 ≠ 0 → let ip := inode_on V ROOTINO in
       i_type ip = T_DIR ∧ i_nlink ip = 1 ∧ wfile (fssize - nlog) nlog D V ip ∧
       ∃ pad, contents V ip = root_of files ++ replicate pad 0).
Proof.
  destruct (proj1 (wp_Ret _ _ _) (main_wp big can_write Hcw files G)) as ([] & s & Hrun & own & Im).
  exists s. split; [done|]. pose proof (im_inv _ _ _ Im) as I. pose proof (im_map _ _ _ Im) as Hm. cbv zeta.
  change (dview (img s)) with (iview s).
  refine (conj (mi_len _ _ _ _ I) (conj (image_good_disk _ own s _ I) (conj (image_layout _ own s _ I Hm) (conj _ (conj _ _))))).
  - intros b Hb. rewrite <-(im_fb _ _ _ Im). by apply (image_used _ own s _ I Hm).
  - intros i f Hf. by apply (image_file files own s G Im i f).
  - intros Hne. destruct (image_root files own s G Im Hne) as (H1 & H2 & H3 & H4).
    refine (conj H1 (conj H2 (conj H3 _))). by eexists.
Qed.

(** Two files: [_cat] of four bytes that arrive in two reads, and an empty one. *)
Definition ex_files : list hostfile :=
  [([95; 99; 97; 116; 0], Some [[1; 2; 3]; [4]; []; [5]]); ([82; 69; 65; 68; 77; 69; 0], Some [])].
Lemma ex_good_files : good_files ex_files.
Proof.
  constructor; [|done|by vm_compute]. repeat (apply list.Forall_cons; split); [..|done].
  - constructor; [done|by left; vm_compute; do 3 right; left|repeat constructor; lia|..|done].
    eexists. split; [done|]. repeat constructor; lia.
  - constructor; [done|by left; vm_compute; do 6 right; left|repeat constructor; lia|..|done].
    eexists. split; [done|]. repeat constructor; lia.
Qed.
Lemma mkfs_image_witness :
  ∃ s, main true (λ b, b <? 30000) (Some true) ex_files mkst0 = Ret () s ∧
    contents (dview (img s)) (inode_on (dview (img s)) 2) = [1; 2; 3; 4].
Proof.
  destruct (mkfs_image true (λ b, b <? 30000) ex_files) as (s & Hrun & _ & _ & _ & _ & Hf & _).
  - intros b [_ Hb]. apply Z.ltb_lt. unfold fssize in Hb. lia.
  - exact ex_good_files.
  - exists s. split; [exact Hrun|]. destruct (Hf 0%nat _ eq_refl) as (_ & _ & _ & E). exact E.
Defined.
