(* ===== verification/MkfsBoot.v ===== *)
(** * Booting on an image of mkfs

    The parts put together: what mkfs wrote, seen through the log's recovery,
    the buffer cache, the path lookup and [readi], is what the files of the
    command line held. *)
From S2P Require Import Prelude CString Spinlock Core Bio BioFacts Cache Log LogFacts Fs FsInode FsFile FsAlloc FsPath FsWrite FsIcache FsDir FsNamei Mkfs MkfsFacts MkfsImage.

(** ** Boot on a disk whose log is empty *)

Lemma boot_clean_wp {Ext} c D (x : Ext) st sz Q : good_disk st sz D → bio_free c →
  (∀ c' β' g' D' T' V', only_woken c c' → cache β' D' T' V' ∅ ∅ → glog st sz [] 0 g' → length D' = length D →
     (∀ m, home st sz (length D) m → V' m = dview D m) → Q () (c', (β', (g', x)))) →
  wp boot Q (c, (bio0 D, (log0, x))).
Proof.
  intros [HD L Hl1 (size & nlog & Hs0 & Hs3 & Est & Esz) _ Hls] Hf HQ. unfold boot.
  apply wp_bind. unfold wp at 1. rewrite binit_run.
  pose proof (cache_init D HD) as C. change (λ n, default [] (D !! Z.to_nat n)) with (dview D) in C.
  pose proof L as [L1 L2 L3 L4].
  unfold initlog. change ((BSIZE <=? 4 + 4 * LOGSIZE)%nat) with false. cbv iota.
  apply wp_bind. eapply (readsb_wp c); [exact C|done|done|vm_compute; lia|].
  intros c1 β1 w0 w1 w2 w3 W1 C1 E0 E1 E2 E3.
  rewrite Hs0 in E0. rewrite Hs3 in E3. injection E0 as <-. injection E3 as <-. cbn [sb_size sb_nlog].
  rewrite <-Est. rewrite <-Esz.
  apply wp_bind, wp_setg, wp_bind, wp_setg, wp_bind, wp_setg. rewrite !i32_small by lia.
  eapply (recover_wp c1 x _ _ _ _ _ _ st sz []); [exact C1|by eapply bio_free_woken|exact L|vm_compute; lia
    |done..|exact Hls|vm_compute; lia|done|simpl; lia|].
  intros c2 β2 g2 W2 Hh1 Hh2 C2 G2. eapply (HQ c2 β2 g2); [by eapply only_woken_trans| |exact G2| |].
  - replace (∅ ∖ list_to_set [] ∖ {[st]}) with (∅ : gset Z) in C2 by set_solver. exact C2.
  - by rewrite length_insert.
  - intros m [Hm1 Hm2]. unfold vupd. rewrite decide_False by lia. done.
Qed.

(** ** Files seen through a view that agrees outside the log *)

Lemma wfile_ext st sz D V V' ip : wfile st sz D V ip → (∀ m, home st sz (length D) m → V' m = V m) →
  wfile st sz D V' ip ∧ contents V' ip = contents V ip.
Proof.
  intros [[M1 M2 M3 M4 M5 M6 M7] W2 W3 W4 W5] HV.
  assert (Eb : ∀ k, 0 ≤ k < Z.of_nat (FsFile.nblocks (i_size ip)) → baddr V' ip k = baddr V ip k).
  { intros k Hk. unfold baddr. case_match; [done|]. case_match; [|done]. rewrite HV; [done|]. apply W4.
    pose proof (nblocks_bound (i_size ip) k ltac:(lia) ltac:(lia)) as Hkb. zify_bool.
    apply Z.ltb_ge in H. unfold BSIZE in *. lia. }
  split.
  - constructor; [constructor; try done| | | |].
    + intros k Hk. rewrite Eb by done. by apply M6.
    + intros k Hk. rewrite Eb by done. rewrite HV by by apply W2. by apply M7.
    + intros k Hk. rewrite Eb by done. by apply W2.
    + intros j k Hj Hk. rewrite !Eb by done. by apply W3.
    + done.
    + intros k Hb Hk. rewrite Eb by done. by apply W5.
  - unfold contents, fdata. do 2 f_equal. apply list_fmap_ext. intros i k Hk. apply lookup_seq in Hk as [-> Hk].
    simpl. rewrite Eb by lia. apply HV, W2. lia.
Qed.

(** ** The root directory, searched *)

Lemma cstr_clean s : 0 ∉ Str.cstr s.
Proof.
  induction s as [|c s IH]; simpl; [apply not_elem_of_nil|]. destruct (Z.eqb_spec c 0); [apply not_elem_of_nil|].
  rewrite not_elem_of_cons. split; [congruence|done].
Qed.

Lemma cstr_app_clean l r : 0 ∉ l → Str.cstr (l ++ r) = l ++ Str.cstr r.
Proof.
  induction l as [|c l IH]; intros H; [done|]. rewrite not_elem_of_cons in H. destruct H as [H1 H2].
  simpl. rewrite (proj2 (Z.eqb_neq c 0)) by congruence. by rewrite IH.
Qed.

Lemma key_pad name : name_key (pad_name name) = name_key name.
Proof.
  unfold name_key, pad_name. assert (H : 0 ∉ take DIRSIZ (Str.cstr name)).
  { intros H. apply (cstr_clean name). rewrite <-(firstn_skipn DIRSIZ (Str.cstr name)). apply elem_of_app. by left. }
  rewrite cstr_app_clean by done. destruct (DIRSIZ - length (Str.cstr name))%nat as [|k]; simpl;
    rewrite app_nil_r; by rewrite take_take, Nat.min_id.
Qed.

Lemma entry_inum n name : 0 ≤ n < 2 ^ 16 → de_inum (entry n name) = n ∧ de_name (entry n name) = pad_name name.
Proof.
  intros Hn. unfold entry, dirent_bytes, de_inum, de_name, u16. rewrite Z.mod_small by done.
  change (sublist 0 2 (le_bytes 2 n ++ pad_name name)) with (le_bytes 2 n).
  change (drop 2 (le_bytes 2 n ++ pad_name name)) with (pad_name name). split; [by apply le_val_bytes|done].
Qed.

(** The first file with that name, numbered from [n]. *)
Fixpoint find_file (n : Z) (files : list hostfile) (key : list Z) : option Z :=
  match files with
  | [] => None
  | f :: fs => if decide (name_key (strip (fst f)) = key) then Some n else find_file (n + 1) fs key
  end.
Definition root_lookup (files : list hostfile) (key : list Z) : option Z :=
  if decide (key = [46] ∨ key = [46; 46]) then Some ROOTINO else find_file 2 files key.

Lemma entries_find files key pad q : ∀ n, 0 < n → n + Z.of_nat (length files) < 2 ^ 16 →
  fst <$> dir_scan (length files + q) (entries n files ++ replicate pad 0) key 0 = find_file n files key.
Proof.
  induction files as [|f files IH]; intros n Hn Hm; cbn [length entries find_file] in *.
  - apply dir_scan_zeros.
  - destruct (entry_inum n (strip (fst f))) as [E1 E2]; [lia|]. cbn [Nat.add].
    rewrite <-app_assoc, dir_scan_cons by apply entry_length. rewrite E1, E2, key_pad.
    destruct (decide (name_key (strip (fst f)) = key)) as [Hk|Hk].
    + rewrite decide_True by (split; [lia|done]). done.
    + rewrite decide_False by (by intros [_ ?]). apply IH; lia.
Qed.

Lemma root_find files pad key : Z.of_nat (length files) ≤ 198 →
  fst <$> dir_find (root_of files ++ replicate pad 0) key = root_lookup files key.
Proof.
  intros Hl. unfold dir_find. rewrite length_app, root_length, length_replicate.
  replace ((32 + 16 * length files + pad) / 16)%nat with (S (S (length files + pad / 16))).
  2:{ replace (32 + 16 * length files + pad)%nat with (pad + (2 + length files) * 16)%nat by lia.
      rewrite Nat.div_add by lia. lia. }
  unfold root_of, dots. rewrite <-!app_assoc. rewrite !dir_scan_cons by apply entry_length.
  destruct (entry_inum 1 [46; 0]) as [E1 E2]; [done|]. destruct (entry_inum 1 [46; 46; 0]) as [E3 E4]; [done|].
  rewrite E1, E2, E3, E4, !key_pad. change (name_key [46; 0]) with [46]. change (name_key [46; 46; 0]) with [46; 46].
  unfold root_lookup. destruct (decide (key = [46] ∨ key = [46; 46])) as [[-> | ->]|Hn].
  - done.
  - done.
  - rewrite !decide_False by (intros [_ <-]; apply Hn; auto). apply entries_find; lia.
Qed.

(** The file that is found is the first of that name. *)
Lemma find_file_first files key : ∀ n i f, files !! i = Some f → name_key (strip (fst f)) = key →
  (∀ j f', (j < i)%nat → files !! j = Some f' → name_key (strip (fst f')) ≠ key) →
  find_file n files key = Some (n + Z.of_nat i).
Proof.
  induction files as [|f0 files IH]; intros n [|i] f Hf Hk Hfirst; simpl in Hf; simplify_eq; cbn [find_file].
  - rewrite decide_True by done. f_equal. lia.
  - rewrite decide_False by (by apply (Hfirst 0%nat); [lia|]). erewrite IH; [|exact Hf|done|].
    + f_equal. lia.
    + intros j f' Hj Hf'. by apply (Hfirst (S j)); [lia|].
Qed.

Lemma find_file_range files key : ∀ n m, find_file n files key = Some m → n ≤ m < n + Z.of_nat (length files).
Proof.
  induction files as [|f files IH]; intros n m H; cbn [find_file length] in *; [done|].
  case_decide; [injection H as <-; lia|]. apply IH in H. lia.
Qed.

(** ** The image as the kernel sees it *)

Section OnImage.
Context (files : list hostfile) (own : ownmap) (s : mkst).
Hypothesis G : good_files files.
Hypothesis Im : image files own s.
Hypothesis Hmod : (2 + Z.of_nat (length files)) mod 32 ≠ 0.
Context (V : Z → list Z).
Hypothesis HV : ∀ m, home (fssize - nlog) nlog (length (img s)) m → V m = iview s m.

Definition on_image (n : Z) : Prop := 1 ≤ n < 2 + Z.of_nat (length files).

Lemma image_iblock n : on_image n → 2 ≤ IBLOCK n < 28 ∧ V (IBLOCK n) = iview s (IBLOCK n).
Proof.
  intros Hn. unfold on_image in Hn. pose proof (gl_inodes _ G) as Hl. pose proof (mi_len _ _ _ _ (im_inv _ _ _ Im)) as HL.
  assert (Hr : 2 ≤ IBLOCK n < 28).
  { change (IBLOCK n) with (i2b n). replace n with (1 + Z.of_nat (Z.to_nat (n - 1))) by lia.
    pose proof (i2b_range (Z.to_nat (n - 1)) ltac:(lia)) as H. exact H. }
  split; [done|]. apply HV. unfold home, fssize, nlog in *. lia.
Qed.

Lemma image_inode n : on_image n → inode_on V n = inode_on (iview s) n.
Proof. intros Hn. unfold inode_on. by rewrite (proj2 (image_iblock n Hn)). Qed.

(** Every inode: the root directory or a file. *)
Lemma on_image_cases n : on_image n → n = ROOTINO ∨ ∃ i f, n = 2 + Z.of_nat i ∧ files !! i = Some f.
Proof.
  unfold on_image. intros Hn. destruct (decide (n = 1)) as [->|Hne]; [by left|right].
  destruct (lookup_lt_is_Some_2 files (Z.to_nat (n - 2))) as [f Hf]; [lia|]. exists (Z.to_nat (n - 2)), f. split; [lia|done].
Qed.

Abbreviation wf := (wfile (fssize - nlog) nlog (img s)).

Lemma kernel_root : let ip := inode_on V ROOTINO in
  i_type ip = T_DIR ∧ i_nlink ip = 1 ∧ wf V ip ∧
  ∃ pad, contents V ip = root_of files ++ replicate pad 0 ∧ i_size ip mod 16 = 0.
Proof.
  assert (Hn : on_image ROOTINO) by (unfold on_image; change ROOTINO with 1; lia). cbv zeta. rewrite (image_inode _ Hn).
  destruct (image_root files own s G Im Hmod) as (H1 & H2 & H3 & H4).
  destruct (wfile_ext _ _ _ _ V _ H3 HV) as [W C]. refine (conj H1 (conj H2 (conj W _))).
  eexists. rewrite C, H4. split; [done|].
  rewrite <-(contents_length _ _ _ (wf_mapped _ _ _ _ _ H3)), H4, length_app, length_replicate.
  destruct (rounded_spec (root_of files) _ eq_refl) as (Hr & _).
  assert (E : rounded (root_of files) = 16 * (32 * (Z.of_nat (length (root_of files)) / BS + 1))).
  { unfold rounded. change BS with 512. lia. }
  replace (Z.of_nat _) with (rounded (root_of files)) by lia. rewrite E, Z.mul_comm. by apply Z.mod_mul.
Qed.

Lemma kernel_file i f : files !! i = Some f → let ip := inode_on V (2 + Z.of_nat i) in
  i_type ip = T_FILE ∧ i_nlink ip = 1 ∧ wf V ip ∧ contents V ip = file_bytes (default [] (snd f)).
Proof.
  intros Hf. assert (Hn : on_image (2 + Z.of_nat i)).
  { apply lookup_lt_Some in Hf. unfold on_image. lia. }
  cbv zeta. rewrite (image_inode _ Hn). destruct (image_file files own s G Im i f Hf) as (H1 & H2 & H3 & H4).
  destruct (wfile_ext _ _ _ _ V _ H3 HV) as [W C]. rewrite C. by split_and!.
Qed.

Lemma image_tree : tree (Z.of_nat (length (img s))) V on_image.
Proof.
  pose proof (mi_len _ _ _ _ (im_inv _ _ _ Im)) as HL. pose proof (gl_inodes _ G) as Hl.
  assert (Hty : ∀ n, on_image n → (n = ROOTINO ∧ d_type (dinode_of V n) = T_DIR) ∨ d_type (dinode_of V n) = T_FILE).
  { intros n [->|(i & f & -> & Hf)]%on_image_cases; [left|right].
    - split; [done|]. exact (proj1 kernel_root).
    - exact (proj1 (kernel_file i f Hf)). }
  assert (Hroot : ∀ n, on_image n → d_type (dinode_of V n) = T_DIR → n = ROOTINO).
  { intros n Hn Ht. destruct (Hty n Hn) as [[? _]|E]; [done|]. by rewrite E in Ht. }
  destruct kernel_root as (_ & R2 & R3 & pad & R4 & R5). constructor.
  - intros n Hn. destruct (image_iblock n Hn) as [Hr _]. unfold fssize in HL. lia.
  - intros n Hn. by destruct (Hty n Hn) as [[_ ->]| ->].
  - intros n [->|(i & f & -> & Hf)]%on_image_cases.
    + change (d_nlink (dinode_of V ROOTINO)) with (i_nlink (inode_on V ROOTINO)). by rewrite R2.
    + destruct (kernel_file i f Hf) as (_ & E & _).
      change (d_nlink (dinode_of V (2 + Z.of_nat i))) with (i_nlink (inode_on V (2 + Z.of_nat i))). by rewrite E.
  - intros n Hn Ht. rewrite (Hroot n Hn Ht). apply R3.
  - intros n Hn Ht. rewrite (Hroot n Hn Ht). exact R5.
  - intros n w m o Hn Ht E. rewrite (Hroot n Hn Ht), R4 in E.
    pose proof (f_equal (λ r : option (Z * Z), fst <$> r) E) as E1. cbv beta in E1. rewrite root_find in E1 by done. simpl in E1. unfold root_lookup in E1.
    unfold on_image. case_decide; [injection E1 as <-; change ROOTINO with 1; lia|].
    apply find_file_range in E1. lia.
Qed.

Lemma walk_root i f key : files !! i = Some f → name_key (strip (fst f)) = key → key ≠ [46] → key ≠ [46; 46] →
  (∀ j f', (j < i)%nat → files !! j = Some f' → name_key (strip (fst f')) ≠ key) →
  walk false V ROOTINO [key] = Some (2 + Z.of_nat i).
Proof.
  intros Hf Hk H1 H2 Hfirst. destruct kernel_root as (R1 & _ & _ & pad & R4 & _). cbn [walk].
  change (d_type (dinode_of V ROOTINO)) with (i_type (inode_on V ROOTINO)). rewrite R1. cbn [andb].
  change (T_DIR =? T_DIR) with true. cbv iota. pose proof (root_find files pad key (gl_inodes _ G)) as E.
  unfold root_lookup in E. rewrite decide_False in E by tauto.
  rewrite (find_file_first files key 2 i f Hf Hk Hfirst) in E. rewrite R4.
  destruct (dir_find (root_of files ++ replicate pad 0) key) as [[m o]|]; [|done]. by injection E as ->.
Qed.
End OnImage.

(** Opening a path on a quiet file system and reading from it. *)
Definition read_path {Ext} devsw (path : list Z) (off n : Z) :
    M (core * (bio * (logst * (list inode * Ext)))) (Z * list Z) :=
  o ← namei devsw path; ip ← deref o; ilock (Some ip) ;; readi devsw ip off n.

Lemma read_path_wp {Ext} devsw D T V g (x : Ext) P s path m off n :
  tree (Z.of_nat (length D)) V P → quiet D T V ∅ g x icache0 s → Str.terminated path → Forall is_byte path →
  head path = Some 47 → P ROOTINO → P m → walk false V ROOTINO (take DIRSIZ <$> elems path) = Some m →
  mapped (Z.of_nat (length D)) V (inode_on V m) → 0 ≤ off < 2 ^ 32 → 0 ≤ n < 2 ^ 32 →
  wp (read_path devsw path off n) (λ r _, r = file_read (contents V (inode_on V m)) off n) s.
Proof.
  intros Tr Hq Ht Hb Hh HR HP Hw M Ho Hn. unfold read_path, namei. apply wp_bind, wp_bind.
  assert (Hsz : (size (∅ : gset Z) ≤ 8)%nat) by (rewrite size_empty; lia).
  eapply wp_mono; [apply (namex_wp devsw D T V ∅ g x P icache0 s false path (replicate DIRSIZ 0) ROOTINO Hsz Tr Hq)|].
  - apply clean_boot.
  - done.
  - vm_compute. lia.
  - done.
  - done.
  - by apply Forall_replicate.
  - done.
  - unfold starts. by rewrite decide_True.
  - done.
  - intros [o nm] s1 (I1 & H1 & C1 & _ & HA). rewrite Hw in HA. cbn [fst] in HA |- *. destruct o as [i|]; [|done].
    destruct HA as ((ip & Hi & Hr & Hnum) & _ & _). apply wp_ret, wp_bind. eapply wp_deref; [done|]. apply wp_bind.
    eapply (ilock_wp D T V ∅ g x I1 i ip); [exact Hsz|exact H1|exact C1|exact Hi|exact Hr|..]; rewrite ?Hnum.
    + by apply (tr_block _ _ _ Tr).
    + by apply (tr_type _ _ _ Tr).
    + intros s2 (c & β & -> & C & Hf & _). pose proof (lookup_lt_Some _ _ _ Hi) as Hlt.
      set (ipl := loaded V (Z.lor I_BUSY I_VALID) ip).
      assert (M' : mapped (Z.of_nat (length D)) V ipl).
      { eapply mapped_ext; [exact M|exact (cl_dev _ _ _ C1 i ip Hi Hr)|..]; unfold ipl, loaded; simpl; by rewrite Hnum. }
      eapply wp_mono; [apply (readi_wp devsw i ipl off n c β g _ x D T V ∅); try done; by apply list_lookup_insert_eq|].
      intros r s3 [-> _]. f_equal. apply contents_ext; unfold ipl, loaded; simpl; by rewrite Hnum.
Qed.

(** C11. What mkfs is for.  mkfs runs on a command line it can serve; the kernel
    boots on the image, looks up the path of a file and reads: it gets what the
    file held on the machine that built the image, however [read] cut it up.
    (The name must not be hidden by an earlier one with the same fourteen
    bytes, and the root directory must not end with a full block.) *)
Theorem mkfs_boot_read {Ext} (big : bool) (can_write : Z → bool) (files : list hostfile) devsw c (x : Ext) i f path off n
    (Hcw : ∀ b, 0 ≤ b < fssize → can_write b = true) (G : good_files files)
    (Hmod : (2 + Z.of_nat (length files)) mod 32 ≠ 0)
    (Hf : files !! i = Some f) (Hdot : name_key (strip (fst f)) ∉ [[46]; [46; 46]])
    (Hfirst : ∀ j f', (j < i)%nat → files !! j = Some f' → name_key (strip (fst f')) ≠ name_key (strip (fst f)))
    (Hfree : bio_free c) (Hlk : L_icache ∉ locks c)
    (Ht : Str.terminated path) (Hb : Forall is_byte path) (Hh : head path = Some 47)
    (Hp : take DIRSIZ <$> elems path = [name_key (strip (fst f))]) (Ho : 0 ≤ off < 2 ^ 32) (Hn : 0 ≤ n < 2 ^ 32) :
  ∃ s, main big can_write (Some true) files mkst0 = Ret () s ∧
    wp (boot ;; read_path devsw path off n) (λ r _, r = file_read (file_bytes (default [] (snd f))) off n)
      (c, (bio0 (img s), (log0, (icache0, x)))).
Proof.
  destruct (proj1 (wp_Ret _ _ _) (main_wp big can_write Hcw files G)) as ([] & s & Hrun & own & Im).
  exists s. split; [done|]. pose proof (im_inv _ _ _ Im) as I. apply wp_bind.
  eapply boot_clean_wp; [exact (image_good_disk _ own s _ I)|done|].
  intros c1 β1 g1 D1 T1 V1 W1 C1 _ Hl1 HV1. change (dview (img s)) with (iview s) in HV1.
  destruct (kernel_file files own s G Im V1 HV1 i f Hf) as (_ & _ & F3 & F4).
  pose proof (image_tree files own s G Im Hmod V1 HV1) as Tr. rewrite <-Hl1 in Tr. rewrite <-F4.
  assert (Hin : on_image files (2 + Z.of_nat i)) by (apply lookup_lt_Some in Hf; unfold on_image; lia).
  eapply (read_path_wp devsw D1 T1 V1 g1 x (on_image files)); [exact Tr| |done|done|done| |exact Hin| | |done|done].
  - exists c1, β1. split_and!; [done|done|by eapply bio_free_woken|by rewrite (ow_locks _ _ W1)].
  - unfold on_image. change ROOTINO with 1. lia.
  - rewrite Hp. rewrite !not_elem_of_cons in Hdot. destruct Hdot as (H1 & H2 & _).
    by apply (walk_root files own s G Im Hmod V1 HV1 i f).
  - rewrite Hl1. apply F3.
Qed.

(** "/cat" on the image of [ex_files]. *)
Lemma mkfs_boot_read_witness :
  ∃ s, main false (λ b, b <? 30000) (Some true) ex_files mkst0 = Ret () s ∧
    wp (boot ;; read_path (λ _, None) [47; 99; 97; 116; 0] 1 100) (λ r _, r = (3, [2; 3; 4]))
      (core0, (bio0 (img s), (log0, (icache0, ())))).
Proof.
  apply (mkfs_boot_read false (λ b, b <? 30000) ex_files (λ _, None) core0 () 0
    ([95; 99; 97; 116; 0], Some [[1; 2; 3]; [4]; []; [5]]) [47; 99; 97; 116; 0] 1 100).
  - intros b [_ Hb]. apply Z.ltb_lt. unfold fssize in Hb. lia.
  - exact ex_good_files.
  - done.
  - done.
  - set_solver.
  - intros j f' Hj. lia.
  - split; apply not_elem_of_empty.
  - apply not_elem_of_empty.
  - do 4 right. left.
  - repeat constructor; lia.
  - done.
  - done.
  - lia.
  - lia.
Defined.

(** ** A root directory whose entries fill its last block *)

Lemma bind_panic_l {S A B} (m : M S A) (k : A → M S B) msg s : m s = Panic msg → (m ≫= k) s = Panic msg.
Proof. unfold mbind, M_bind. by intros ->. Qed.

(** Outside a transaction an allocation panics. *)
Lemma balloc_panics {Ext} c β g (x : list inode * Ext) D T V st sz fsz ni b : cache β D T V ∅ ∅ → bio_free c →
  glog st sz [] 0 g → 2 ≤ sz → 1 < Z.of_nat (length D) → word_at 0 (V 1) = Some fsz → word_at 2 (V 1) = Some ni →
  0 ≤ b < BPB → b < fsz → 0 ≤ BBLOCK 0 ni < Z.of_nat (length D) → bit_set (V (BBLOCK 0 ni)) b = false →
  Fs.balloc ROOTDEV (c, (β, (g, x))) = Panic "write outside of trans".
Proof.
  intros C Hf G Hsz Hl E0 E2 Hb Hbs Hbb Hbit. unfold Fs.balloc. apply bind_panics.
  assert (He : size (∅ : gset Z) = 0%nat) by apply size_empty.
  eapply (readsb_wp c); [exact C|done|done|rewrite He; unfold NBUF; lia|].
  intros c1 β1 size' nb ni' nl W1 C1 Es0 _ Es2 _. rewrite E0 in Es0. rewrite E2 in Es2. injection Es0 as <-. injection Es2 as <-.
  cbn [sb_size sb_ninodes]. cbn [balloc_loop]. rewrite (proj2 (Z.ltb_lt 0 fsz)) by lia. apply bind_panics.
  eapply (cache_bread c1 (g, x)); [exact C1|by eapply bio_free_woken|done|intros p q; by rewrite lookup_empty| |].
  { rewrite dom_empty_L, size_empty, He. unfold NBUF. lia. }
  intros p β2 _ C2. apply bind_panics. eapply (cache_read c1 (g, x)); [exact C2|by rewrite lookup_insert_eq|].
  intros y Hy _ _. rewrite Hy. pose proof (free_bit_spec (S (Z.to_nat BPB)) (V (BBLOCK 0 ni)) 0 fsz 0 ltac:(lia) ltac:(lia)) as Hfb.
  destruct (free_bit (S (Z.to_nat BPB)) (V (BBLOCK 0 ni)) 0 fsz 0) as [r|].
  2:{ rewrite Hfb in Hbit by lia. done. }
  apply bind_panics, wp_setb, bind_panic_l. unfold log_write.
  apply bind_panics, wp_getg. apply bind_panics, wp_getg. rewrite (gl_n _ _ _ _ _ G), (gl_size _ _ _ _ _ G).
  cbn [length]. change (Z.of_nat LOGSIZE <=? Z.of_nat 0) with false. rewrite (proj2 (Z.leb_gt _ _)) by lia. cbn [orb].
  apply bind_panics, wp_getg. by rewrite (gl_busy _ _ _ _ _ G).
Qed.

(** Reading a directory or file where it has a size but no (direct) block. *)
Lemma readi_hole {Ext} devsw D T V g (x : Ext) I i ip off st sz fsz ni b s :
  quiet D T V ∅ g x I s → I !! i = Some ip → i_dev ip = ROOTDEV → i_type ip ≠ T_DEV →
  0 ≤ off → off + 16 ≤ i_size ip → i_size ip < 2 ^ 32 → off / BS < NDIRECT → aget (i_addrs ip) (off / BS) = Some 0 →
  glog st sz [] 0 g → 2 ≤ sz → 1 < Z.of_nat (length D) → word_at 0 (V 1) = Some fsz → word_at 2 (V 1) = Some ni →
  0 ≤ b < BPB → b < fsz → 0 ≤ BBLOCK 0 ni < Z.of_nat (length D) → bit_set (V (BBLOCK 0 ni)) b = false →
  readi devsw i off DIRENT s = Panic "write outside of trans".
Proof.
  intros Hq Hi Hdev Hty Ho Hsz Hmax Hd Ha G H1 H2 H3 H4 H5 H6 H7 H8. unfold readi, DIRENT.
  apply bind_panics. eapply quiet_geti; [exact Hq|exact Hi|]. rewrite (proj2 (Z.eqb_neq _ _)) by done.
  apply bind_panics. eapply quiet_geti; [exact Hq|exact Hi|].
  rewrite (u32_small (off + 16)), (proj2 (Z.ltb_ge (i_size ip) off)), (proj2 (Z.ltb_ge (off + 16) off)) by lia. cbn [orb].
  rewrite (proj2 (Z.ltb_ge (i_size ip) (off + 16))) by lia. cbn [Nat.add readi_loop]. change (0 <? 16) with true. cbv iota.
  apply bind_panics. eapply quiet_geti; [exact Hq|exact Hi|]. rewrite Hdev.
  apply bind_panic_l. unfold bmap. apply bind_panics. eapply quiet_geti; [exact Hq|exact Hi|].
  rewrite (proj2 (Z.ltb_lt _ NDIRECT)) by done. apply bind_panics. eapply quiet_geti; [exact Hq|exact Hi|].
  rewrite Ha. apply bind_panics. eapply wp_deref; [done|]. rewrite Z.eqb_refl. apply bind_panic_l. rewrite Hdev.
  destruct Hq as (c & β & -> & C & Hf & _). by eapply balloc_panics.
Qed.

(** The root directory has no block past those of its entries. *)
Lemma root_past_end off own s files : frep (iview s) own 0 (freeblock s) T_DIR (root_of files) (get_dinode ROOTINO (iview s 2)) →
  nbz (root_of files) = off / BS → 0 ≤ off / BS ≤ 6 →
  aget (d_addrs (get_dinode ROOTINO (iview s 2))) (off / BS) = Some 0.
Proof.
  intros R Hnb Hq. pose proof (am_slot _ _ _ _ _ _ (fr_map _ _ _ _ _ _ _ R) (off / BS)) as Hs.
  pose proof (am_len _ _ _ _ _ _ (fr_map _ _ _ _ _ _ _ R)) as Hl.
  change MAXFILE with 140 in Hs. rewrite Hnb, Z.ltb_irrefl, slot_direct in Hs by (change NDIRECT with 12; lia).
  specialize (Hs ltac:(lia)). unfold aget. rewrite (proj2 (Z.ltb_ge _ _)) by lia.
  destruct (lookup_lt_is_Some_2 (d_addrs (get_dinode ROOTINO (iview s 2))) (Z.to_nat (off / BS))) as [a Ha]; [rewrite Hl; lia|].
  rewrite Ha in *. by f_equal.
Qed.

Lemma first_free_bit files own s : image files own s → bit_set (iview s 28) (freeblock s) = false.
Proof.
  intros Im. pose proof (mi_fb _ _ _ _ (im_inv _ _ _ Im)) as Hfb. change first_data with 35 in Hfb.
  change 28 with bitmap_block. rewrite (im_map _ _ _ Im).
  destruct (mark_used_spec (Z.to_nat (freeblock s)) 0 zero_block zero_block_ok) as [_ H]; [done|lia|].
  rewrite H, zero_bits by lia. rewrite (proj2 (Z.ltb_ge _ _)) by lia. by rewrite andb_false_r.
Qed.

(** C39. When the entries of the root directory fill its last block, mkfs still
    rounds the size up, to a block that does not exist.  The kernel panics when
    it reads the first entry there, as [dirlookup] does for a name that is not
    among the entries: the block is allocated by a read, outside of a
    transaction. *)
Theorem mkfs_root_hole {Ext} (big : bool) (can_write : Z → bool) (files : list hostfile) devsw c (x : Ext)
    (Hcw : ∀ b, 0 ≤ b < fssize → can_write b = true) (G : good_files files)
    (Hmod : (2 + Z.of_nat (length files)) mod 32 = 0) (Hfree : bio_free c) (Hlk : L_icache ∉ locks c) :
  let off := Z.of_nat (length (root_of files)) in
  ∃ s, main big can_write (Some true) files mkst0 = Ret () s ∧
    i_size (inode_on (dview (img s)) ROOTINO) = off + BS ∧
    (boot ;; ip ← iget ROOTDEV ROOTINO; ilock (Some ip) ;; readi devsw ip off DIRENT)
      (c, (bio0 (img s), (log0, (icache0, x)))) = Panic "write outside of trans".
Proof.
  intros off. destruct (proj1 (wp_Ret _ _ _) (main_wp big can_write Hcw files G)) as ([] & s & Hrun & own & Im).
  exists s. split; [done|]. pose proof (im_inv _ _ _ Im) as I. destruct (im_root _ _ _ Im) as [R Hs].
  change (i2b 1) with (IBLOCK ROOTINO) in *. change (get_dinode 1) with (get_dinode ROOTINO) in *.
  pose proof (gl_inodes _ G) as Hn. pose proof (root_len files) as Hlen. fold off in Hlen.
  assert (Hm : off mod BS = 0).
  { replace off with (16 * (2 + Z.of_nat (length files))) by lia. change BS with (16 * 32).
    rewrite Z.mul_mod_distr_l by done. lia. }
  destruct (rounded_spec (root_of files) off eq_refl) as (_ & _ & Hr). destruct (Hr Hm) as [Hrd Hnb]. rewrite Hrd in Hs.
  change (dview (img s)) with (iview s). split; [exact Hs|].
  pose proof (mi_len _ _ _ _ I) as HL. pose proof (mi_fb _ _ _ _ I) as Hfb. change first_data with 35 in Hfb. change BPB with 4096 in Hfb.
  apply bind_panics. eapply boot_clean_wp; [exact (image_good_disk _ own s _ I)|done|].
  intros c1 β1 g1 D1 T1 V1 W1 C1 G1 Hl1 HV1. change (dview (img s)) with (iview s) in HV1.
  assert (HV : ∀ m, 0 ≤ m < 4096 → V1 m = iview s m) by (intros m Hm'; apply HV1; unfold home, fssize, nlog in *; lia).
  assert (Hib : IBLOCK ROOTINO = 2) by done. rewrite Hib in *.
  assert (Hq : quiet D1 T1 V1 ∅ g1 x icache0 (c1, (β1, (g1, (icache0, x))))).
  { exists c1, β1. split_and!; [done|done|by eapply bio_free_woken|by rewrite (ow_locks _ _ W1)]. }
  apply bind_panics. eapply (iget_wp D1 T1 V1 ∅ g1 x None); [exact Hq|apply clean_boot|vm_compute; lia|].
  intros i I1 s1 H1 [K1 K2 (ip & Hi & Hpr & Hin & _) K4 _]. apply bind_panics.
  assert (Hd : get_dinode (i_inum ip) (V1 (IBLOCK (i_inum ip))) = get_dinode ROOTINO (iview s 2)) by (rewrite Hin, Hib, HV; done).
  assert (Ht : d_type (get_dinode ROOTINO (iview s 2)) = T_DIR).
  { exact (f_equal (λ p, fst (fst (fst p))) (fr_head _ _ _ _ _ _ _ R)). }
  eapply (ilock_wp D1 T1 V1 ∅ g1 x I1 i ip); [rewrite size_empty; lia|exact H1|exact K1|exact Hi|exact Hpr
    |rewrite Hin, Hib, Hl1; unfold fssize in HL; lia|by rewrite Hd, Ht|].
  intros s2 H2. pose proof (lookup_lt_Some _ _ _ Hi) as Hlt.
  assert (Hq6 : off / BS ≤ 6) by (apply Z.lt_succ_r, Z.div_lt_upper_bound; [done|change BS with 512; lia]).
  assert (Hq0 : 0 ≤ off / BS) by (apply Z.div_pos; [lia|done]).
  eapply (readi_hole devsw D1 T1 V1 g1 x _ i _ off (fssize - nlog) nlog fssize ninodes (freeblock s));
    [exact H2|by apply list_lookup_insert_eq|exact (cl_dev _ _ _ K1 i ip Hi Hpr)|..].
  all: change (i_type (loaded V1 (Z.lor I_BUSY I_VALID) ip)) with (d_type (get_dinode (i_inum ip) (V1 (IBLOCK (i_inum ip))))) ||
       change (i_size (loaded V1 (Z.lor I_BUSY I_VALID) ip)) with (d_size (get_dinode (i_inum ip) (V1 (IBLOCK (i_inum ip))))) ||
       change (i_addrs (loaded V1 (Z.lor I_BUSY I_VALID) ip)) with (d_addrs (get_dinode (i_inum ip) (V1 (IBLOCK (i_inum ip))))) || idtac.
  all: rewrite ?Hd, ?Ht, ?Hs.
  all: try done.
  - change BS with 512. lia.
  - change BS with 512. lia.
  - change NDIRECT with 12. lia.
  - by apply (root_past_end off own s files).
  - rewrite Hl1. unfold fssize in HL. lia.
  - rewrite HV by done. by rewrite (mi_sb _ _ _ _ I).
  - rewrite HV by done. by rewrite (mi_sb _ _ _ _ I).
  - change BPB with 4096. lia.
  - unfold fssize. lia.
  - rewrite Hl1. change (BBLOCK 0 ninodes) with 28. unfold fssize in HL. lia.
  - rewrite HV by done. by apply (first_free_bit files own).
Qed.

(** Thirty empty files fill the first directory block. *)
Definition ex_full : list hostfile := replicate 30 ([97; 0], Some []).
Lemma ex_full_good : good_files ex_full.
Proof.
  constructor; [|by vm_compute|by vm_compute]. apply Forall_replicate.
  constructor; [done|by left; vm_compute; right; left|repeat constructor; lia|..|done].
  eexists. split; [done|constructor].
Qed.
Lemma mkfs_root_hole_witness :
  ∃ s, main true (λ b, b <? 30000) (Some true) ex_full mkst0 = Ret () s ∧
    i_size (inode_on (dview (img s)) ROOTINO) = 1024 ∧
    (boot ;; ip ← iget ROOTDEV ROOTINO; ilock (Some ip) ;; readi (λ _, None) ip 512 DIRENT)
      (core0, (bio0 (img s), (log0, (icache0, ())))) = Panic "write outside of trans".
Proof.
  apply (mkfs_root_hole true (λ b, b <? 30000) ex_full (λ _, None) core0 ()).
  - intros b [_ Hb]. apply Z.ltb_lt. unfold fssize in Hb. lia.
  - exact ex_full_good.
  - done.
  - split; apply not_elem_of_empty.
  - apply not_elem_of_empty.
Defined.
