(* ===== verification/SyscallFacts.v ===== *)
(** * System call arguments stay inside the process (syscall.c)

    The user's memory, as far as the process owns it, is a function [mem];
    loads from an address of the process return its byte.  The arguments are
    then functions of that memory, and a pointer or string that is accepted
    lies inside the process. *)
From S2P Require Import Prelude Spinlock Core CString Console Syscall.

(** The bytes of a range. *)
Definition bytes (mem : Z → Z) (a n : Z) : list Z := mem <$> seqZ a n.

(** The distance to the first zero at or after [a], below [ep]. *)
Definition zero_at (mem : Z → Z) (a ep k : Z) : Prop :=
  0 ≤ k ∧ a + k < ep ∧ mem (a + k) = 0 ∧ ∀ j, 0 ≤ j < k → mem (a + j) ≠ 0.

Section Args.
Context {St : Type} `{LC : !Lens St core}.
Context (uload : Z → M St Z) (s : St) (me : nat) (pr : proc) (mem : Z → Z).
Hypothesis Hcur : cur (lget (T := core) s) = Some me.
Hypothesis Hpr : ptable (lget (T := core) s) !! me = Some pr.
(** User memory ends below the kernel. *)
Hypothesis Hsz : 0 ≤ sz pr ≤ 2 ^ 31.
(** Addresses of the process can be loaded. *)
Hypothesis Hload : ∀ a, 0 ≤ a < sz pr → uload a s = Ret (mem a) s.

Lemma my_run {A} (f : proc → A) : my (St := St) f s = Ret (f pr) s.
Proof.
  unfold my. erewrite bind_eq.
  2:{ unfold myproc. erewrite bind_eq by (unfold getc, gets; reflexivity). rewrite Hcur. reflexivity. }
  unfold getp. erewrite bind_eq by (unfold getc, gets; reflexivity). by rewrite Hpr.
Qed.

Lemma uloads_run n : ∀ a, 0 ≤ a → a + Z.of_nat n ≤ sz pr →
  uloads uload a n s = Ret (bytes mem a (Z.of_nat n)) s.
Proof.
  induction n as [|n IH]; intros a Ha Hn; [done|]. cbn [uloads].
  erewrite bind_eq by (apply Hload; lia).
  destruct n as [|n].
  { cbn [uloads]. erewrite bind_eq by reflexivity. done. }
  rewrite u32_small by lia. erewrite bind_eq by (apply IH; lia).
  unfold bytes. rewrite (seqZ_cons a) by lia. rewrite fmap_cons. do 4 f_equal; lia.
Qed.

Lemma fetchint_run addr : 0 ≤ addr < 2 ^ 32 →
  fetchint uload addr s =
    Ret (if addr + 4 <=? sz pr then (0, i32 (le_val (bytes mem addr 4))) else (-1, 0)) s.
Proof.
  intros Ha. unfold fetchint. erewrite bind_eq by apply my_run.
  destruct (Z.leb_spec (sz pr) addr); cbn [orb].
  { destruct (Z.leb_spec (addr + 4) (sz pr)); [lia|done]. }
  rewrite u32_small by lia. destruct (Z.ltb_spec (sz pr) (addr + 4)).
  { destruct (Z.leb_spec (addr + 4) (sz pr)); [lia|done]. }
  destruct (Z.leb_spec (addr + 4) (sz pr)); [|lia].
  by erewrite bind_eq by (apply (uloads_run 4); lia).
Qed.

Lemma fetchstr_loop_run fuel : ∀ a len, 0 ≤ a → (Z.to_nat (sz pr - a) < fuel)%nat →
  (∀ k, zero_at mem a (sz pr) k → fetchstr_loop uload fuel a (sz pr) len s = Ret (len + k) s) ∧
  ((∀ k, ¬ zero_at mem a (sz pr) k) → fetchstr_loop uload fuel a (sz pr) len s = Ret (-1) s).
Proof.
  induction fuel as [|fuel IH]; intros a len Ha Hf; [lia|]. cbn [fetchstr_loop].
  destruct (Z.ltb_spec a (sz pr)) as [Hlt|Hge].
  2:{ split; [|done]. intros k (? & ? & _). lia. }
  erewrite bind_eq by (apply Hload; lia). destruct (Z.eqb_spec (mem a) 0) as [E|E].
  - split.
    + intros k (Hk & _ & _ & Hno). destruct (decide (k = 0)) as [->|]; [by rewrite Z.add_0_r|].
      destruct (Hno 0 ltac:(lia)). by rewrite Z.add_0_r.
    + intros Hno. destruct (Hno 0). split_and!; [lia|lia|by rewrite Z.add_0_r|lia].
  - destruct (IH (a + 1) (len + 1) ltac:(lia) ltac:(lia)) as [H1 H2]. split.
    + intros k (Hk & Hlt' & Hz & Hno). destruct (decide (k = 0)) as [->|]; [by rewrite Z.add_0_r in Hz|].
      rewrite (H1 (k - 1)); [f_equal; lia|]. split_and!; [lia|lia|by replace (a + 1 + (k - 1)) with (a + k) by lia|].
      intros j Hj. replace (a + 1 + j) with (a + (j + 1)) by lia. apply Hno. lia.
    + intros Hno. apply H2. intros k (Hk & Hlt' & Hz & Hn). apply (Hno (k + 1)).
      split_and!; [lia|lia|by replace (a + (k + 1)) with (a + 1 + k) by lia|].
      intros j Hj. destruct (decide (j = 0)) as [->|]; [by rewrite Z.add_0_r|].
      replace (a + j) with (a + 1 + (j - 1)) by lia. apply Hn. lia.
Qed.

(** What [argint] loads. *)
Definition arg_addr (n : Z) : Z := u32 (tf_esp (tf pr) + 4 + 4 * n).
Definition arg_val (n : Z) : Z := le_val (bytes mem (arg_addr n) 4).

Lemma argint_run n : argint uload n s =
  Ret (if arg_addr n + 4 <=? sz pr then (0, i32 (arg_val n)) else (-1, 0)) s.
Proof.
  unfold argint. erewrite bind_eq by apply my_run. apply fetchint_run, u32_range.
Qed.

(** [argptr] for any size: the sum is a C [uint]. *)
Lemma argptr_run n size : let v := u32 (i32 (arg_val n)) in
  argptr uload n size s =
    Ret (if (arg_addr n + 4 <=? sz pr) && (v <? sz pr) && (u32 (v + size) <=? sz pr) then (0, v) else (-1, 0)) s.
Proof.
  intros v. unfold argptr. erewrite bind_eq by exact (argint_run n).
  destruct (arg_addr n + 4 <=? sz pr); cbn [andb fst snd]; [|done].
  rewrite (proj2 (Z.ltb_ge 0 0)) by lia. fold v. erewrite bind_eq by apply my_run.
  destruct (Z.leb_spec (sz pr) v); [by rewrite (proj2 (Z.ltb_ge v (sz pr)))|]. cbn [orb].
  rewrite (proj2 (Z.ltb_lt v (sz pr))) by done. cbn [andb].
  rewrite Z.ltb_antisym. by destruct (u32 (v + size) <=? sz pr).
Qed.

End Args.

Lemma u32_wrap_neg x : - 2 ^ 32 ≤ x < 0 → u32 x = x + 2 ^ 32.
Proof. intros H. unfold u32. rewrite <-(Z_mod_plus_full x 1). apply Z.mod_small. lia. Qed.

Lemma u32_i32 x : u32 (i32 x) = u32 x.
Proof. unfold u32, i32. rewrite Zminus_mod_idemp_l. f_equal. lia. Qed.

(** C31. With user memory [mem] of [sz] bytes below 2 GB, the argument fetchers
    return for every argument word, and what they accept is inside the process:
    [argint] the word it stands for, [argptr] for a size that is not negative a
    pointer [i] with [i + size] at most [sz], [argstr] and [argpath] a string with
    its terminator, whose length is the result.  Everything else is -1.  A
    negative size, which [sys_read] and [sys_write] pass on from the user, is a
    hole: above -2^31, [argptr] then accepts exactly the pointers inside the
    process that are at least [- size], whatever lies after them. *)
Theorem syscall_args_checked {St : Type} {LC : Lens St core} (uload : Z → M St Z) (s : St) me pr mem n :
  cur (lget (T := core) s) = Some me → ptable (lget (T := core) s) !! me = Some pr →
  0 ≤ sz pr ≤ 2 ^ 31 → (∀ a, 0 ≤ a < sz pr → uload a s = Ret (mem a) s) →
  let v := u32 (i32 (arg_val pr mem n)) in
  let ok := arg_addr pr n + 4 <=? sz pr in
  argint uload n s = Ret (if ok then (0, i32 (arg_val pr mem n)) else (-1, 0)) s ∧
  (∀ size, 0 ≤ size < 2 ^ 31 →
     argptr uload n size s = Ret (if ok && (v <? sz pr) && (v + size <=? sz pr) then (0, v) else (-1, 0)) s) ∧
  (∀ size, - 2 ^ 31 < size < 0 →
     argptr uload n size s = Ret (if ok && (v <? sz pr) && (- size <=? v) then (0, v) else (-1, 0)) s) ∧
  (∀ k, zero_at mem v (sz pr) k → ok = true →
     argstr uload n s = Ret (k, v) s ∧ argpath uload n s = Ret (k, bytes mem v (k + 1)) s) ∧
  ((∀ k, ¬ zero_at mem v (sz pr) k) ∨ ok = false →
     ∃ i, argstr uload n s = Ret (-1, i) s ∧ argpath uload n s = Ret (-1, []) s).
Proof.
  intros Hc Hp Hsz Hl v ok. pose proof (argint_run uload s me pr mem Hc Hp Hsz Hl n) as Hint. fold ok in Hint.
  assert (Hv : 0 ≤ v < 2 ^ 32) by apply u32_range.
  assert (Hstr : argstr uload n s =
    if ok then fetchstr uload v s else Ret (-1, 0) s).
  { unfold argstr. erewrite bind_eq by exact Hint. by destruct ok. }
  assert (Hfetch : ∀ k, zero_at mem v (sz pr) k → fetchstr uload v s = Ret (k, v) s).
  { intros k Hk. unfold fetchstr. erewrite bind_eq by by eapply my_run.
    destruct (Z.leb_spec (sz pr) v); [destruct Hk as (? & ? & _); lia|].
    destruct (fetchstr_loop_run uload s pr mem Hl (S (Z.to_nat (sz pr - v))) v 0) as [H1 _]; [lia|lia|].
    by erewrite bind_eq by by apply H1. }
  assert (Hnone : (∀ k, ¬ zero_at mem v (sz pr) k) → ∃ i, fetchstr uload v s = Ret (-1, i) s).
  { intros Hk. unfold fetchstr. erewrite bind_eq by by eapply my_run.
    destruct (Z.leb_spec (sz pr) v); [by eexists|].
    destruct (fetchstr_loop_run uload s pr mem Hl (S (Z.to_nat (sz pr - v))) v 0) as [_ H2]; [lia|lia|].
    eexists. by erewrite bind_eq by by apply H2. }
  pose proof (argptr_run uload s me pr mem Hc Hp Hsz Hl n) as Hptr. cbv zeta in Hptr. fold v ok in Hptr.
  split; [done|]. split_and!.
  - intros size Hs. rewrite Hptr. destruct (Z.ltb_spec v (sz pr)); [|by rewrite !andb_false_r].
    by rewrite u32_small by lia.
  - intros size Hs. rewrite Hptr. destruct (Z.ltb_spec v (sz pr)); [|by rewrite !andb_false_r].
    replace (u32 (v + size) <=? sz pr) with (- size <=? v); [done|].
    apply Bool.eq_iff_eq_true. rewrite !Z.leb_le. destruct (Z_lt_le_dec (v + size) 0).
    + rewrite (u32_wrap_neg (v + size)) by lia. lia.
    + rewrite u32_small by lia. lia.
  - intros k Hk E. rewrite E in Hstr. pose proof Hk as (Hk0 & Hk1 & Hkz & _).
    rewrite (Hfetch k Hk) in Hstr. split; [done|].
    unfold argpath. erewrite bind_eq by exact Hstr. cbn [fst snd].
    rewrite (proj2 (Z.ltb_ge k 0)) by lia.
    erewrite bind_eq by (eapply uloads_run; [exact Hsz|exact Hl|lia|lia]).
    unfold mret, M_ret. do 3 f_equal. lia.
  - intros Hor. assert (∃ i, argstr uload n s = Ret (-1, i) s) as [i Hi].
    { destruct ok; [destruct Hor as [Hor|]; [|done]; destruct (Hnone Hor) as [i Hi]; exists i; congruence|by exists 0]. }
    exists i. split; [done|]. unfold argpath. by erewrite bind_eq by exact Hi.
Qed.

(** A process of 32 bytes, its stack pointer at 4 and the argument 16 at 8, where
    "hi" lies; memory is a list. *)
Definition ex_mem : list Z := replicate 8 0 ++ [16; 0; 0; 0] ++ replicate 4 0 ++ [104; 105; 0] ++ replicate 13 0.
Definition ex_core : core :=
  mkCore ∅ [set_sz 32 (set_tf (mkTf 0 0 0 0 0 0 0 0 0 0 0 0 0 0 0 0 0 4 0) proc0)] 2 (Some 0%nat) (Some 0%nat).
Definition ex_uload (a : Z) : M core Z := deref (aget ex_mem a).

Lemma syscall_args_checked_witness : argpath ex_uload 0 ex_core = Ret (2, [104; 105; 0]) ex_core.
Proof.
  destruct (syscall_args_checked ex_uload ex_core 0 (set_sz 32 (set_tf (mkTf 0 0 0 0 0 0 0 0 0 0 0 0 0 0 0 0 0 4 0) proc0))
    (λ a, default 0 (aget ex_mem a)) 0) as (_ & _ & _ & H & _).
  - done.
  - done.
  - simpl. lia.
  - intros a Ha. simpl in Ha. unfold ex_uload, aget. rewrite (proj2 (Z.ltb_ge a 0)) by lia.
    destruct (lookup_lt_is_Some_2 ex_mem (Z.to_nat a)) as [b Hb].
    { change (length ex_mem) with 32%nat. lia. }
    by rewrite Hb.
  - apply (H 2); [|done]. split_and!; [lia|done|done|].
    intros j Hj. assert (j = 0 ∨ j = 1) as [-> | ->] by lia; done.
Defined.

(** The size check lets a negative size through: the range of the pointer is
    then not checked at all.  Here the argument is the last byte. *)
Lemma argptr_negative_size :
  argptr (λ a, mret (if a =? 8 then 31 else 0)) 0 (-1) ex_core = Ret (0, 31) ex_core.
Proof. reflexivity. Qed.
