(* ===== verification/TrapFacts.v ===== *)
(** * Returning from a trap (trap.c)

    A trap from user mode goes back to user mode only for a process that has not
    been killed; the timer interrupt on CPU 0 counts one tick and nothing else
    does. *)
From S2P Require Import Prelude Spinlock Core CString Proc Console Syscall Trap.

Section TrapFacts.
Context {E : Type} `{KE : !KernelEnv (Z * E)}.
Abbreviation K := (core * (Z * E))%type.
Implicit Types s : K.

(** What is known of the running process, if there is one. *)
Definition current (P : proc → Prop) (s : K) : Prop :=
  ∀ i p, cur (fst s) = Some i → ptable (fst s) !! i = Some p → P p.

Ltac never_run :=
  repeat match goal with
  | |- never sched => exact never_sched
  | |- never (_ ≫= _) => apply never_bind_r; intros ?
  end.

Lemma never_exit : never (S := K) exit.
Proof.
  unfold exit. do 2 (apply never_bind_r; intros ?). case_decide; [done|].
  do 5 (apply never_bind_r; intros ?). unfold exit_table.
  never_run.
Qed.

Lemma never_yield : never (S := K) yield.
Proof. unfold yield. never_run. Qed.

Lemma with_proc_Ret f s b s' : with_proc f s = Ret b s' →
  s' = s ∧ current (λ p, b = f p) s.
Proof.
  unfold with_proc. intros H. apply bind_Ret in H as (o & s1 & H1 & H). injection H1 as <- <-.
  change (lget s) with (fst s) in H. destruct (cur (fst s)) as [i|] eqn:Hc.
  - unfold getp in H. apply bind_Ret in H as (o & s1 & H1 & H). injection H1 as <- <-.
    change (lget s) with (fst s) in H. destruct (ptable (fst s) !! i) as [p|] eqn:Hp; [|done].
    injection H as <- <-. split; [done|]. intros j q Hj Hq. congruence.
  - injection H as <- <-. split; [done|]. intros j q Hj. congruence.
Qed.

Lemma exit_check_Ret t s s' : trap_exit_check t s = Ret () s' →
  s' = s ∧ (user_mode t = true → current (λ p, killed p = 0) s).
Proof.
  unfold trap_exit_check. intros H. apply bind_Ret in H as (k & s1 & H1 & H).
  apply with_proc_Ret in H1 as [-> Hk]. destruct k; simpl in H.
  - by destruct (never_exit s () s').
  - injection H as <-. split; [done|]. intros Hu i p Hi Hp. specialize (Hk i p Hi Hp).
    rewrite Hu, andb_true_r in Hk. by destruct (Z.eqb_spec (killed p) 0).
Qed.

(** What follows a system call. *)
Lemma syscall_check_Ret me s s' : trap_syscall_check me s = Ret () s' →
  s' = s ∧ ∃ p, ptable (fst s) !! me = Some p ∧ killed p = 0.
Proof.
  unfold trap_syscall_check. intros H. apply bind_Ret in H as (k & s1 & H6 & H).
  unfold getp in H6. apply bind_Ret in H6 as (o & s2 & H7 & H6). injection H7 as <- <-.
  change (lget s) with (fst s) in H6. destruct (ptable (fst s) !! me) as [p|] eqn:Hp; [|done].
  injection H6 as <- <-. destruct (Z.eqb_spec (killed p) 0) as [Hk|Hk]; simpl in H; [|by destruct (never_exit _ _ _ H)].
  injection H as <-. split; [done|by exists p].
Qed.

Lemma myproc_Ret s me s' : myproc s = Ret me s' → s' = s ∧ cur (fst s) = Some me.
Proof.
  unfold myproc. intros H. apply bind_Ret in H as (o & s2 & H2 & H). injection H2 as <- <-.
  change (lget s) with (fst s) in H. destruct (cur (fst s)); [|done]. by injection H as <- <-.
Qed.

End TrapFacts.

(** C32. When [trap] returns to where it was called from, the process may go on:
    after a system call the caller has not been killed, also when the call slept
    and [trap] goes on in [trap_syscall_resume]; after any other trap from user
    mode, and after the process was scheduled again, the running process has not
    been killed; and a timer interrupt never returns directly to a running
    process, it goes to the scheduler. *)
Theorem trap_returns_alive {E} {KE : KernelEnv (Z * E)} cprintf cpuid rcr2 ideintr kbdintr uartintr
    lapiceoi syscalls t (s s' : core * (Z * E)) :
  (trap (E := E) cprintf cpuid rcr2 ideintr kbdintr uartintr lapiceoi syscalls t s = Ret () s' →
     (tf_trapno t = T_SYSCALL → ∃ me p, cur (fst s) = Some me ∧ ptable (fst s') !! me = Some p ∧ killed p = 0) ∧
     (tf_trapno t ≠ T_SYSCALL → user_mode t = true → current (λ p, killed p = 0) s') ∧
     (tf_trapno t = T_IRQ0 + IRQ_TIMER → current (λ p, state p ≠ RUNNING) s')) ∧
  (trap_resume t s = Ret () s' → user_mode t = true → current (λ p, killed p = 0) s') ∧
  (∀ rest, trap_syscall_resume rest s = Ret () s' →
     ∃ me p, cur (fst s') = Some me ∧ ptable (fst s') !! me = Some p ∧ killed p = 0).
Proof.
  split; [|split].
  - unfold trap. destruct (Z.eqb_spec (tf_trapno t) T_SYSCALL) as [Hs|Hs]; intros H.
    + split; [|split; [done|by rewrite Hs]]. intros _.
      apply bind_Ret in H as (me & s1 & H1 & H). apply myproc_Ret in H1 as [_ Hme].
      do 4 (apply bind_Ret in H as (? & ? & _ & H)).
      apply syscall_check_Ret in H as (-> & p & Hp & Hk). by exists me, p.
    + apply bind_Ret in H as ([] & s1 & _ & H). apply bind_Ret in H as ([] & s2 & H2 & H).
      apply exit_check_Ret in H2 as [-> _]. apply bind_Ret in H as (y & s3 & H3 & H).
      apply with_proc_Ret in H3 as [-> Hy]. apply bind_Ret in H as ([] & s4 & H4 & H).
      apply exit_check_Ret in H as [-> Hk].
      destruct y; simpl in H4; [by destruct (never_yield _ _ _ H4)|]. injection H4 as <-.
      split; [done|]. split; [done|]. intros Ht i p Hi Hp Hr. specialize (Hy i p Hi Hp).
      rewrite Ht, Hr in Hy. done.
  - unfold trap_resume. intros H. apply bind_Ret in H as ([] & s1 & _ & H).
    by apply exit_check_Ret in H as [-> Hk].
  - intros rest H. unfold trap_syscall_resume in H. apply bind_Ret in H as ([] & s1 & _ & H).
    apply bind_Ret in H as (me & s2 & H1 & H). apply myproc_Ret in H1 as [-> Hme].
    apply syscall_check_Ret in H as (-> & p & Hp & Hk). by exists me, p.
Qed.

(** A kernel whose other parts do nothing, and a process in user mode. *)
#[local] Instance ex_env : KernelEnv (Z * unit) := {|
  kalloc := mret 0; kfree _ := mret (); setupkvm := mret 0; inituvm _ _ := mret ();
  allocuvm _ _ n := mret n; deallocuvm _ _ n := mret n; copyuvm _ _ := mret 0; freevm _ := mret ();
  switchuvm _ := mret (); filedup f := mret f; fileclose _ := mret (); idup i := mret i;
  iput _ := mret (); namei _ := mret None; initlog := mret () |}.
Definition ex_tf (n : Z) : trapframe := mkTf 0 0 0 0 0 0 0 0 0 0 0 0 n 0 0 35 0 0 35.
Definition ex_state (k : Z) : core * (Z * unit) :=
  (mkCore ∅ [set_killed k (set_state RUNNING proc0)] 2 (Some 0%nat) (Some 0%nat), (7, ())).
Definition ex_trap (n : Z) : M (core * (Z * unit)) unit :=
  trap (λ _ _, mret ()) 0 0 (mret ()) (mret ()) (mret ()) (mret ()) [] (ex_tf n).

(** The spurious IDE interrupt. *)
Lemma trap_returns_alive_witness :
  ex_trap 47 (ex_state 0) = Ret () (ex_state 0) ∧ current (λ p, killed p = 0) (ex_state 0).
Proof.
  assert (H : ex_trap 47 (ex_state 0) = Ret () (ex_state 0)) by reflexivity.
  split; [exact H|].
  apply (proj1 (trap_returns_alive (λ _ _, mret ()) 0 0 (mret ()) (mret ()) (mret ()) (mret ()) [] (ex_tf 47) (ex_state 0) (ex_state 0)) H); done.
Defined.
