(* ===== verification/UvmFacts.v ===== *)
(** * User address spaces (vm.c)

    What [setupkvm], [copyuvm] and [freevm] do to the pages of the machine: an
    address space owns its directory, its tables and the frames of its user
    pages; copying takes them off the free list and freeing puts them back. *)
From S2P Require Import Prelude Spinlock Core CString Kalloc Vm VmFacts.
Import Mem MemFacts.

(** The user part of an address space. *)
Definition UPAGES : Z := 2 ^ 19.
Definition npages (sz : Z) : Z := (sz + PGSIZE - 1) / PGSIZE.

Definition present (m : mem) (d n : Z) : Prop := Z.land (entry m d n) PTE_P ≠ 0.
#[export] Instance present_dec m d n : Decision (present m d n).
Proof. unfold present. apply _. Defined.

(** The frame of page number [n]. *)
Definition uframe (m : mem) (d n : Z) : Z := p2v (PTE_ADDR (entry m d n)).

(** The pages an address space is made of. *)
Definition owned (m : mem) (d p : Z) : Prop :=
  p = d ∨ table_page m d p ∨ ∃ n, 0 ≤ n < UPAGES ∧ present m d n ∧ uframe m d n = p.

(** The entry the kernel map gives page number [n]. *)
Definition k_pages (k : kmap_t) : Z := u32 (k_end k - k_start k) / PGSIZE.
Definition k_page (k : kmap_t) : Z := k_virt k / PGSIZE.
Definition k_covers (k : kmap_t) (n : Z) : Prop := k_page k ≤ n < k_page k + k_pages k.
#[export] Instance k_covers_dec k n : Decision (k_covers k n).
Proof. unfold k_covers. apply _. Defined.
Definition k_entry (k : kmap_t) (n : Z) : Z :=
  Z.lor (Z.lor (k_start k + (n - k_page k) * PGSIZE) (k_perm k)) PTE_P.
Fixpoint kernel_entry (ks : list kmap_t) (base n : Z) : Z :=
  match ks with
  | [] => base
  | k :: ks' => if decide (k_covers k n) then k_entry k n else kernel_entry ks' base n
  end.

(** ** Entries *)

Lemma PTE_FLAGS_make p c : p mod PGSIZE = 0 → 0 ≤ c < 4096 → PTE_FLAGS (Z.lor p c) = c.
Proof.
  intros Hp Hc. rewrite (page_multiple p Hp), lor_low by done. unfold PTE_FLAGS.
  change 0xFFF with (Z.ones 12). rewrite Z.land_ones by done. change (2 ^ 12) with 4096.
  rewrite Z.add_comm, Z_mod_plus_full. by apply Z.mod_small.
Qed.

Lemma PTE_FLAGS_range e : 0 ≤ PTE_FLAGS e < 4096.
Proof.
  unfold PTE_FLAGS. change 0xFFF with (Z.ones 12). rewrite Z.land_ones by done.
  by apply Z.mod_pos_bound.
Qed.

Lemma PTE_FLAGS_present e : Z.land e PTE_P ≠ 0 → Z.lor (PTE_FLAGS e) PTE_P = PTE_FLAGS e.
Proof.
  unfold PTE_P, PTE_FLAGS. intros H. apply Z.bits_inj'. intros i Hi.
  rewrite Z.lor_spec, Z.land_spec. destruct (decide (i = 0)) as [->|Hne].
  - change (Z.testbit 1 0) with true. rewrite orb_true_r.
    change (Z.testbit 0xFFF 0) with true. rewrite andb_true_r.
    destruct (Z.testbit e 0) eqn:E; [done|]. destruct H. apply Z.bits_inj'. intros j Hj.
    rewrite Z.land_spec, Z.bits_0. destruct (decide (j = 0)) as [->|]; [by rewrite E|].
    rewrite (Z.bits_above_log2 1 j); [by rewrite andb_false_r|done|simpl; lia].
  - rewrite (Z.bits_above_log2 1 i); [by rewrite orb_false_r|done|simpl; lia].
Qed.

Lemma v2p_page kend p : KERNBASE ≤ kend → page_ok kend p →
  0 ≤ v2p p ∧ v2p p + PGSIZE ≤ 2 ^ 32 ∧ v2p p mod PGSIZE = 0 ∧ p2v (v2p p) = p.
Proof.
  intros Hk (Hm & Hl & Hh). unfold v2p, p2v. unfold KERNBASE, PHYSTOP, PGSIZE in *.
  rewrite (u32_small (p - 2147483648)) by lia. split_and!; [lia..| |].
  - by rewrite Zminus_mod, Hm.
  - rewrite u32_small by lia. lia.
Qed.

(** The entry that maps a frame. *)
Lemma frame_entry kend p c : KERNBASE ≤ kend → page_ok kend p → 0 ≤ c < 4096 →
  let e := Z.lor (Z.lor (v2p p) c) PTE_P in
  Z.land e PTE_P ≠ 0 ∧ p2v (PTE_ADDR e) = p ∧ PTE_FLAGS e = Z.lor c PTE_P.
Proof.
  intros Hk Hp Hc e. destruct (v2p_page kend p Hk Hp) as (R1 & R2 & R3 & R4).
  assert (Hc' : 0 ≤ Z.lor c PTE_P < 4096).
  { unfold PTE_P. split; [apply Z.lor_nonneg; lia|].
    destruct (decide (Z.lor c 1 = 0)) as [->|]; [done|].
    change 4096 with (2 ^ 12). apply Z.log2_lt_pow2; [pose proof (Z.lor_nonneg c 1); lia|].
    rewrite Z.log2_lor by lia. apply Z.max_lub_lt; [|done].
    destruct (decide (c = 0)) as [->|]; [done|]. apply Z.log2_lt_pow2; lia. }
  split; [apply odd_lor_1|]. unfold e. rewrite <-Z.lor_assoc. split.
  - rewrite PTE_ADDR_make; [done|done|unfold PGSIZE in *; lia|done].
  - by apply PTE_FLAGS_make.
Qed.

Section Uvm.
Context {Ext : Type}.
Abbreviation K := (core * (pmem * Ext))%type.
(** The kernel's end lies above its start. *)
Context (kend : Z) (kend_above : KERNBASE < kend).

Lemma kend_high : KERNBASE ≤ kend.
Proof. lia. Qed.

(** ** Writing to a page that is not the table's *)

Lemma pages_share p q b : page_ok kend p → page_ok kend q → in_page p b → in_page q b → p = q.
Proof.
  intros Hp Hq Hb Hb'. destruct (decide (p = q)) as [|Hne]; [done|].
  unfold in_page in *. destruct (pages_apart kend p q Hp Hq Hne); lia.
Qed.

Lemma pt_ok_weaken m d t free : pt_ok kend m d (t :: free) → pt_ok kend m d free.
Proof.
  intros [[Hd Hf] Ht Hinj]. constructor; [split; [done|set_solver]| |done].
  intros i Hi Hh. destruct (Ht i Hi Hh) as (? & ? & ?). set_solver.
Qed.

Lemma table_page_ok m d free p :
  pt_ok kend m d free → table_page m d p → page_ok kend p ∧ p ∉ free ∧ p ≠ d.
Proof. intros Hok (i & Hi & Hh & <-). by apply Hok. Qed.

(** A page of nobody's that is written. *)
Record loose (m : mem) (d : Z) (free : list Z) (p : Z) : Prop := {
  lo_ok : page_ok kend p;
  lo_free : p ∉ free;
  lo_dir : p ≠ d;
  lo_tab : ¬ table_page m d p }.

Lemma loose_write pm d free p m' :
  vm_ok kend pm d free → loose (pm_mem pm) d free p →
  (∀ b, ¬ in_page p b → rd m' b = rd (pm_mem pm) b) →
  vm_ok kend (set_mem m' pm) d free ∧
  (∀ i, dir_index i → pde m' d i = pde (pm_mem pm) d i) ∧
  (∀ n, 0 ≤ n < 2 ^ 20 → entry m' d n = entry (pm_mem pm) d n).
Proof.
  intros [[Hl Hnd] Hpt] [Hp Hpf Hpd Hpt'] Hw. pose proof (pt_dir _ _ _ _ Hpt) as [Hd Hdf].
  assert (Hfr : ∀ b, ¬ foreign (pm_mem pm) d [] b → rd m' b = rd (pm_mem pm) b).
  { intros b Hb. apply Hw. intros Hpb. apply Hb. split_and!.
    - intros Hdb. apply Hpd. by eapply pages_share.
    - intros i Hi Hh Hib. apply Hpt'. exists i. split_and!; [done..|].
      eapply pages_share; [by apply Hpt|done..].
    - by intros q ?%elem_of_nil. }
  destruct (table_frame _ _ _ Hfr) as (P & En & _). split_and!; [|done..]. split.
  - split; [|done]. simpl. eapply (linked_ext kend kend_high); [|exact Hl]. intros q Hq. apply ld32_ext.
    intros b Hb. apply Hw. intros Hpb. apply Hpf.
    pose proof (linked_ok kend kend_high _ _ _ _ Hl Hq) as Hqo.
    replace p with q; [done|]. eapply pages_share; [done..| |done]. unfold in_page, PGSIZE. lia.
  - simpl. destruct Hpt as [_ H2 H3]. constructor; [done|..]; intros i.
    + intros Hi. unfold has, tab. rewrite P by done. apply H2, Hi.
    + intros j Hi Hj. unfold has, tab. rewrite !P by done. by apply H3.
Qed.

(** ** The kernel part *)

(** [pm'] is [pm] after pages came off the free list for tables of [d]. *)
Record grown (d : Z) (pm pm' : pmem) (free free' : list Z) : Prop := {
  gr_ok : vm_ok kend pm' d free';
  gr_used : ∃ used, free = used ++ free';
  gr_pages p : p ∈ free' ∨ table_page (pm_mem pm') d p ↔ p ∈ free ∨ table_page (pm_mem pm) d p;
  gr_lock : use_lock pm' = use_lock pm;
  gr_rd b : foreign (pm_mem pm) d free b →
    rd (pm_mem pm') b = rd (pm_mem pm) b ∧ foreign (pm_mem pm') d free' b }.

Lemma vm_grown_trans d pm pm1 pm2 free free1 free2 :
  grown d pm pm1 free free1 → grown d pm1 pm2 free1 free2 → grown d pm pm2 free free2.
Proof.
  intros [A1 [u1 ->] A3 A4 A5] [B1 [u2 ->] B3 B4 B5]. split; [done|..].
  - exists (u1 ++ u2). by rewrite app_assoc.
  - intros p. by rewrite B3, A3.
  - congruence.
  - intros b Hb. destruct (A5 b Hb) as [<- Hb']. by apply B5.
Qed.

Lemma mapped_grown n d a pa perm pm free pm' free' r :
  mapped kend n d a pa perm pm free pm' free' r → grown d pm pm' free free'.
Proof. intros (?&?&[? _]&?&?&_). by split. Qed.

(** An element of [kmap] whose range is whole pages and does not wrap. *)
Record kmap_ok (k : kmap_t) : Prop := {
  ko_virt : 0 ≤ k_virt k ∧ k_virt k mod PGSIZE = 0;
  ko_pages : 0 < k_pages k ∧ u32 (k_end k - k_start k) = k_pages k * PGSIZE;
  ko_end : k_virt k + k_pages k * PGSIZE ≤ 2 ^ 32;
  ko_start : 0 ≤ k_start k ∧ k_start k + k_pages k * PGSIZE ≤ 2 ^ 32;
  ko_perm : 0 ≤ k_perm k < 4096 }.

Lemma kernel_entry_base ks base n :
  Forall (λ k, ¬ k_covers k n) ks → kernel_entry ks base n = base.
Proof. induction 1; simpl; [done|]. by rewrite decide_False. Qed.

Lemma map_kernel_run ks d c pm (x : Ext) free :
  lock_free c pm → vm_ok kend pm d free → Forall kmap_ok ks →
  ForallOrdPairs (λ k k', ∀ n, k_covers k n → ¬ k_covers k' n) ks →
  (∀ k n, k ∈ ks → k_covers k n → entry (pm_mem pm) d n = 0) →
  ∃ r pm' free', map_kernel ks d (c, (pm, x)) = Ret r (c, (pm', x)) ∧
    grown d pm pm' free free' ∧
    (∀ i, dir_index i → has (pm_mem pm') d i → has (pm_mem pm) d i ∨ ∃ k n, k ∈ ks ∧ k_covers k n ∧ i = n / 1024) ∧
    (r = 0 ∧ free' = [] ∨ r = d ∧ ∀ n, 0 ≤ n < 2 ^ 20 →
       entry (pm_mem pm') d n = kernel_entry ks (entry (pm_mem pm) d n) n).
Proof.
  intros Hlk Hok Hks Hdis. revert pm free Hlk Hok.
  induction ks as [|k ks IH]; intros pm free Hlk Hok H0.
  { exists d, pm, free. split_and!; [done| |by auto|by right]. split; [done|by exists []|done..]. }
  apply list.Forall_cons in Hks as [[[Kv Kva] [Kp Ku] Ke [Ks Kse] Kpm] Hks].
  inversion_clear Hdis as [|? ? Hk Hdis']. cbn [map_kernel]. rewrite Ku.
  destruct (mappages_run kend kend_high d (k_virt k) (k_pages k) (k_start k) (k_perm k) c pm x free)
    as (r & pm1 & free1 & R & Hm); try done.
  { intros i Hi. rewrite (H0 k); [done|by left|]. unfold k_covers, k_page. lia. }
  rewrite (bind_eq _ _ _ _ _ R). pose proof (mapped_grown _ _ _ _ _ _ _ _ _ _ Hm) as Hg.
  destruct Hm as (Hok1 & _ & [_ Hh] & Hl & _ & He & Hr). rewrite Z2Nat.id in He, Hr, Hh by lia.
  assert (Hh1 : ∀ i, dir_index i → has (pm_mem pm1) d i →
    has (pm_mem pm) d i ∨ ∃ k' n, k' ∈ k :: ks ∧ k_covers k' n ∧ i = n / 1024).
  { intros i Hi Hhi. destruct (Hh i Hi Hhi) as [?|(j & Hj & ->)]; [by left|right]. exists k, (k_page k + j).
    split_and!; [by left|unfold k_covers; lia|done]. }
  destruct Hr as [[-> ->]|[-> Hr]]; [exists 0, pm1, []; split_and!; auto|]. cbn [Z.ltb Z.compare].
  assert (E1 : ∀ n, 0 ≤ n < 2 ^ 20 → entry (pm_mem pm1) d n =
      if decide (k_covers k n) then k_entry k n else entry (pm_mem pm) d n).
  { intros n Hn. unfold k_covers, k_page, k_entry. case_decide as Hc.
    - rewrite <-(Hr (n - k_page k)); unfold k_page; [f_equal|]; lia.
    - apply He; [done|]. lia. }
  destruct (IH Hks Hdis' pm1 free1) as (r & pm2 & free2 & R2 & Hg2 & Hhas2 & H2); [|done|..].
  { unfold lock_free in *. by rewrite Hl. }
  { intros k' n Hk' Hn. assert (Hnr : 0 ≤ n < 2 ^ 20).
    { rewrite list.Forall_forall in Hks. destruct (Hks k' Hk') as [[? _] _ ? _ _].
      unfold k_covers, k_page in Hn. pose proof (Z.div_pos (k_virt k') PGSIZE).
      pose proof (Z.mul_div_le (k_virt k') PGSIZE). unfold PGSIZE in *. lia. }
    rewrite E1 by done. rewrite list.Forall_forall in Hk.
    rewrite decide_False by (intros Hc; by apply (Hk k' Hk' n)). apply (H0 k'); [by right|done]. }
  exists r, pm2, free2. split_and!; [done|by eapply vm_grown_trans| |].
  { intros i Hi Hhi. destruct (Hhas2 i Hi Hhi) as [?|(k' & n & Hk' & Hn)]; [by apply Hh1|right].
    exists k', n. split; [by right|done]. }
  destruct H2 as [?|[-> H2]]; [by left|right]. split; [done|]. intros n Hn. simpl.
  rewrite H2, E1 by done. case_decide as Hc; [|done]. apply kernel_entry_base.
  eapply list.Forall_impl; [exact Hk|]. intros k' Hk'. by apply Hk'.
Qed.

(** ** Address spaces *)

(** The tables are in order and the user pages have frames of their own. *)
Record aspace (m : mem) (d : Z) (free : list Z) : Prop := {
  as_pt : pt_ok kend m d free;
  as_frame n : 0 ≤ n < UPAGES → present m d n → loose m d free (uframe m d n);
  as_inj n n' : 0 ≤ n < UPAGES → 0 ≤ n' < UPAGES → present m d n → present m d n' →
    uframe m d n = uframe m d n' → n = n' }.

Lemma upage n : 0 ≤ n < UPAGES → 0 ≤ n < 2 ^ 20.
Proof. unfold UPAGES. lia. Qed.

Lemma pt_ok_push m d free v : pt_ok kend m d free → loose m d free v → pt_ok kend m d (v :: free).
Proof.
  intros [[Hd Hf] Ht Hinj] [Hv Hvf Hvd Hvt]. constructor; [split; [done|]| |done].
  - intros [E|?]%elem_of_cons; [by destruct Hvd|done].
  - intros i Hi Hh. destruct (Ht i Hi Hh) as (? & ? & ?). split_and!; [done| |done].
    intros [E|?]%elem_of_cons; [|done]. apply Hvt. by exists i.
Qed.

(** Entries that disappear. *)
Lemma aspace_shrink m m' d free free' :
  aspace m d free → pt_ok kend m' d free' → (∀ i, dir_index i → pde m' d i = pde m d i) →
  (∀ n, 0 ≤ n < UPAGES → present m' d n →
     entry m' d n = entry m d n ∧ (uframe m d n ∉ free → uframe m d n ∉ free')) →
  aspace m' d free'.
Proof.
  intros [_ Hf Hinj] Hpt P He.
  assert (Hx : ∀ n, 0 ≤ n < UPAGES → present m' d n → present m d n ∧ uframe m' d n = uframe m d n).
  { intros n Hn Hp. destruct (He n Hn Hp) as [E _]. unfold present, uframe in *. by rewrite <-E. }
  constructor; [done|..].
  - intros n Hn Hp. destruct (Hx n Hn Hp) as [Hp' ->]. destruct (Hf n Hn Hp') as [? ? ? Ht].
    split; [done|by apply He|done|]. by rewrite (table_page_pde _ _ _ P).
  - intros n n' Hn Hn' Hp Hp'. destruct (Hx n Hn Hp) as [? ->], (Hx n' Hn' Hp') as [? ->].
    by apply Hinj.
Qed.

(** ** deallocuvm *)

(** The user pages from [lo] to [hi] are gone and their frames are free. *)
Record dealloced (lo hi d : Z) (pm pm' : pmem) (free free' : list Z) : Prop := {
  de_kmem : kmem_inv kend pm' free';
  de_space : aspace (pm_mem pm') d free';
  de_pde i : dir_index i → pde (pm_mem pm') d i = pde (pm_mem pm) d i;
  de_entry n : 0 ≤ n < 2 ^ 20 → ¬ (lo ≤ n < hi) → entry (pm_mem pm') d n = entry (pm_mem pm) d n;
  de_gone n : lo ≤ n < hi → ¬ present (pm_mem pm') d n;
  de_pages p : p ∈ free' ↔ p ∈ free ∨
    ∃ n, lo ≤ n < hi ∧ present (pm_mem pm) d n ∧ uframe (pm_mem pm) d n = p;
  de_lock : use_lock pm' = use_lock pm;
  de_rd b : (∀ p, p ∈ free' ∨ table_page (pm_mem pm) d p → ¬ in_page p b) →
    rd (pm_mem pm') b = rd (pm_mem pm) b }.

(** Only bytes of free pages change. *)
Definition untouched (free : list Z) (pm pm' : pmem) : Prop :=
  ∀ b, (∀ p, p ∈ free → ¬ in_page p b) → rd (pm_mem pm') b = rd (pm_mem pm) b.

Lemma dealloced_refl lo hi d pm free :
  kmem_inv kend pm free → aspace (pm_mem pm) d free →
  (∀ n, lo ≤ n < hi → ¬ present (pm_mem pm) d n) → dealloced lo hi d pm pm free free.
Proof. intros Hk Ha Hn. split; try done. intros p. naive_solver. Qed.

(** Nothing to free between [lo] and [mid]. *)
Lemma dealloced_skip lo mid hi d pm pm' free free' :
  0 ≤ lo → lo ≤ mid → hi ≤ UPAGES →
  (∀ n, lo ≤ n < mid → n < hi → ¬ present (pm_mem pm) d n) →
  dealloced mid hi d pm pm' free free' → dealloced lo hi d pm pm' free free'.
Proof.
  intros Hlo Hle Hhi Hn [D1 D2 D3 D4 D5 D6 D7 D8]. split; try done.
  - intros n Hr Ho. apply D4; [done|lia].
  - intros n Hr. destruct (decide (n < mid)); [|apply D5; lia]. unfold present.
    rewrite D4 by (unfold UPAGES in *; lia). apply Hn; lia.
  - intros p. rewrite D6. split; (intros [?|(n & ? & ? & ?)]; [by left|right]); exists n.
    + split_and!; try done; lia.
    + split_and!; try done; [|lia]. destruct (decide (n < mid)); [|lia]. by destruct (Hn n); [lia..|].
Qed.

Lemma dealloc_one pm d free n :
  kmem_inv kend pm free → aspace (pm_mem pm) d free → 0 ≤ n < UPAGES → present (pm_mem pm) d n →
  let v := uframe (pm_mem pm) d n in
  let m2 := st32 (pm_mem (kfreed v pm)) (tab (pm_mem pm) d (n / 1024) + 4 * (n mod 1024)) 0 in
  entry m2 d n = 0 ∧ dealloced n (n + 1) d pm (set_mem m2 (kfreed v pm)) free (v :: free).
Proof.
  intros Hk Ha Hn Hp v m2. pose proof (as_frame _ _ _ Ha n Hn Hp) as Hl. fold v in Hl.
  pose proof (kfreed_inv kend kend_high v pm free Hk (lo_ok _ _ _ _ Hl) (lo_free _ _ _ _ Hl)
    (kmem_inv_head kend kend_high _ _ Hk)) as Hk1.
  assert (Hv : vm_ok kend pm d free) by (split; [done|apply Ha]).
  set (m1 := pm_mem (kfreed v pm)) in *.
  destruct (loose_write pm d free v m1 Hv Hl) as (Hv1 & P1 & E1).
  { intros b Hb. by apply kfreed_mem. }
  assert (Hpt1 : pt_ok kend m1 d free) by apply Hv1.
  assert (Hl1 : loose m1 d free v).
  { destruct Hl. split; try done. by rewrite (table_page_pde _ _ _ P1). }
  pose proof (pt_ok_push _ _ _ _ Hpt1 Hl1) as Hpt2.
  destruct (page_index n (upage n Hn)) as [Hi Hj].
  assert (Hh : has (pm_mem pm) d (n / 1024)).
  { unfold present, entry in Hp. by case_decide. }
  assert (Hh1 : has m1 d (n / 1024)) by (unfold has; by rewrite P1).
  assert (Ht1 : tab m1 d (n / 1024) = tab (pm_mem pm) d (n / 1024)) by (unfold tab; by rewrite P1).
  destruct (pt_write kend m1 d (v :: free) _ _ 0 Hpt2 Hi Hj Hh1 ltac:(done))
    as (W1 & W2 & W3 & W4 & W5 & _).
  rewrite Ht1 in W1, W2, W3, W4, W5. fold m2 in W1, W2, W3, W4, W5.
  replace (n / 1024 * 1024 + n mod 1024) with n in W3, W4 by (pose proof (Z.div_mod n 1024); lia).
  assert (Hpde : ∀ i, dir_index i → pde m2 d i = pde (pm_mem pm) d i).
  { intros i Hi'. by rewrite W1, P1. }
  assert (He : ∀ n', 0 ≤ n' < 2 ^ 20 → n' ≠ n → entry m2 d n' = entry (pm_mem pm) d n').
  { intros n' Hn' Hne. by rewrite W4, E1. }
  assert (Hno : ¬ present m2 d n) by (unfold present; rewrite W3; by intros H).
  split; [done|]. split; try done; simpl.
  - destruct Hk1 as [L N]. split; [|done]. simpl in *. destruct L as (L1 & L2 & L3).
    split_and!; [done..|]. rewrite W5; [|by left|done].
    eapply (linked_ext kend kend_high); [|exact L3]. intros q Hq.
    apply W5; [by right|]. by eapply (linked_ok kend kend_high).
  - eapply aspace_shrink; [exact Ha|done..|]. intros n' Hn' Hp'.
    destruct (decide (n' = n)) as [->|Hne]; [done|]. pose proof (upage n' Hn') as Hn2.
    rewrite He by done. split; [done|].
    intros Hf [E|?]%elem_of_cons; [|done]. apply Hne. apply (as_inj _ _ _ Ha); try done.
    unfold present in *. by rewrite <-He.
  - intros n' Hn' Ho. apply He; [done|lia].
  - intros n' Hr. by replace n' with n by lia.
  - intros p. rewrite elem_of_cons. split.
    + intros [->|?]; [right; exists n|by left]. split_and!; [lia..|done|done].
    + intros [?|(n' & Hr & _ & <-)]; [by right|left]. by replace n' with n by lia.
  - intros b Hb. unfold m2. rewrite rd_st32.
    + apply kfreed_mem. apply (Hb v). left. by left.
    + assert (Hx : ¬ in_page (tab (pm_mem pm) d (n / 1024)) b) by (apply Hb; right; by exists (n / 1024)).
      unfold in_page, dir_index, PGSIZE in *. lia.
Qed.

Lemma dealloced_step n hi d pm pm1 pm2 free free1 free2 :
  0 ≤ n < hi → hi ≤ UPAGES →
  dealloced n (n + 1) d pm pm1 free free1 → dealloced (n + 1) hi d pm1 pm2 free1 free2 →
  dealloced n hi d pm pm2 free free2.
Proof.
  intros Hn Hhi [A1 A2 A3 A4 A5 A6 A7 A8] [B1 B2 B3 B4 B5 B6 B7 B8].
  assert (Hx : ∀ n', n + 1 ≤ n' < hi →
    (present (pm_mem pm1) d n' ↔ present (pm_mem pm) d n') ∧
    uframe (pm_mem pm1) d n' = uframe (pm_mem pm) d n').
  { intros n' Hn'. unfold present, uframe. by rewrite A4 by (unfold UPAGES in *; lia). }
  split; try done.
  - intros i Hi. by rewrite B3, A3.
  - intros n' Hr Ho. by rewrite B4, A4 by lia.
  - intros n' Hr. destruct (decide (n' = n)) as [->|]; [|apply B5; lia].
    unfold present. rewrite B4 by (unfold UPAGES in *; lia). apply A5. lia.
  - intros p. rewrite B6, A6. split.
    + intros [[?|(n' & Hr & ? & ?)]|(n' & Hr & Hp & <-)]; [by left|right; exists n'|right; exists n'].
      * split_and!; try done; lia.
      * destruct (Hx n' Hr) as [Hx1 Hx2]. split_and!; [lia..|by apply Hx1|done].
    + intros [?|(n' & Hr & Hp & <-)]; [by left; left|].
      destruct (decide (n' = n)) as [->|]; [left; right; exists n; split_and!; try done; lia|].
      right. exists n'. destruct (Hx n') as [Hx1 Hx2]; [lia|].
      split_and!; [lia..|by apply Hx1|done].
  - congruence.
  - intros b Hb. rewrite B8.
    + apply A8. intros p [Hp|Hp]; apply Hb; [left|by right]. rewrite B6. by left.
    + intros p [Hp|Hp]; apply Hb; [by left|right]. by apply (table_page_pde _ _ _ A3).
Qed.

Lemma npages_lt n sz : (n * PGSIZE <? sz) = (n <? npages sz).
Proof.
  unfold npages, PGSIZE. pose proof (Z.div_mod (sz + 4096 - 1) 4096 ltac:(done)).
  pose proof (Z.mod_pos_bound (sz + 4096 - 1) 4096 ltac:(done)).
  destruct (Z.ltb_spec (n * 4096) sz), (Z.ltb_spec n ((sz + 4096 - 1) / 4096)); lia.
Qed.

Lemma npages_bound sz : 0 ≤ sz ≤ KERNBASE → 0 ≤ npages sz ≤ UPAGES.
Proof.
  unfold npages, KERNBASE, UPAGES, PGSIZE. intros H. split; [apply Z.div_pos; lia|].
  apply Z.lt_succ_r, Z.div_lt_upper_bound; lia.
Qed.

Lemma walk_page d n c pm (x : Ext) :
  0 ≤ n < 2 ^ 20 → walkpgdir d (n * PGSIZE) false (c, (pm, x)) =
    Ret (if decide (has (pm_mem pm) d (n / 1024))
         then tab (pm_mem pm) d (n / 1024) + 4 * (n mod 1024) else 0) (c, (pm, x)).
Proof.
  intros Hn. rewrite walk_noalloc by done. rewrite PDX_spec, PTX_spec by (unfold PGSIZE; lia).
  by rewrite Z.div_mul.
Qed.

(** From where no table is, the loop may jump only to the next table. *)
Definition may_skip (m : mem) (d n hi : Z) : Prop :=
  n mod 1024 = 0 ∨ has m d (n / 1024) ∨ ∀ n', n ≤ n' < hi → ¬ present m d n'.

Lemma absent_table m d n n' :
  ¬ has m d (n / 1024) → n' / 1024 = n / 1024 → ¬ present m d n'.
Proof. intros Hh E. unfold present, entry. rewrite E, decide_False by done. by intros H. Qed.

(** A turn where there is a table. *)
Lemma dealloc_turn fuel d sz n c pm (x : Ext) free :
  lock_free c pm → kmem_inv kend pm free → aspace (pm_mem pm) d free →
  0 ≤ n < UPAGES → n < npages sz → has (pm_mem pm) d (n / 1024) →
  ∃ pm1 free1, deallocuvm_loop kend (S fuel) d sz (n * PGSIZE) (c, (pm, x)) =
      deallocuvm_loop kend fuel d sz ((n + 1) * PGSIZE) (c, (pm1, x)) ∧
    dealloced n (n + 1) d pm pm1 free free1.
Proof.
  intros Hlk Hk Ha Hn Hlt Hh. cbn [deallocuvm_loop]. rewrite npages_lt, (proj2 (Z.ltb_lt _ _) Hlt).
  rewrite (bind_eq _ _ _ _ _ (walk_page d n c pm x (upage n Hn))), decide_True by done.
  destruct (page_index n (upage n Hn)) as [Hi Hj].
  destruct (pt_tab _ _ _ _ (as_pt _ _ _ Ha) _ Hi Hh) as (Hto & _).
  pose proof (page_ok_range kend kend_high _ Hto) as Hr. unfold dir_index in Hj.
  set (pte := tab (pm_mem pm) d (n / 1024) + 4 * (n mod 1024)).
  destruct (Z.eqb_spec pte 0) as [?|_]; [unfold pte in *; lia|].
  erewrite bind_eq by reflexivity. cbn beta.
  change (ld32 (pm_mem (fst (snd (c, (pm, x))))) pte) with (ld32 (pm_mem pm) pte).
  assert (He : ld32 (pm_mem pm) pte = entry (pm_mem pm) d n) by (unfold entry; by rewrite decide_True).
  rewrite He. rewrite u32_small by (unfold UPAGES, PGSIZE in *; lia).
  replace (n * PGSIZE + PGSIZE) with ((n + 1) * PGSIZE) by lia.
  destruct (Z.eqb_spec (Z.land (entry (pm_mem pm) d n) PTE_P) 0) as [Hp|Hp]; cbn [negb].
  { exists pm, free. split; [done|]. apply dealloced_refl; [done..|].
    intros n' Hn'. replace n' with n by lia. unfold present. by intros H. }
  destruct (dealloc_one pm d free n Hk Ha Hn Hp) as (_ & D).
  pose proof (lo_ok _ _ _ _ (as_frame _ _ _ Ha n Hn Hp)) as Hl. cbv zeta.
  change (p2v (PTE_ADDR (entry (pm_mem pm) d n))) with (uframe (pm_mem pm) d n).
  destruct (Z.eqb_spec (PTE_ADDR (entry (pm_mem pm) d n)) 0) as [E|_].
  { unfold uframe in Hl. rewrite E in Hl. destruct Hl as (_ & Hl & _).
    change (p2v 0) with KERNBASE in Hl. lia. }
  eexists _, _. split; [|exact D].
  apply (bind_eq _ (λ _, deallocuvm_loop kend fuel d sz ((n + 1) * PGSIZE)) _ ()).
  by rewrite (bind_eq _ _ _ _ _ (kfree_run kend kend_high _ c pm x Hlk Hl)).
Qed.

(** A turn where there is none: on to the next table. *)
Lemma dealloc_jump fuel d sz n c pm (x : Ext) :
  0 ≤ n < UPAGES → n < npages sz → ¬ has (pm_mem pm) d (n / 1024) →
  deallocuvm_loop kend (S fuel) d sz (n * PGSIZE) (c, (pm, x)) =
    deallocuvm_loop kend fuel d sz ((n + 1024) * PGSIZE) (c, (pm, x)).
Proof.
  intros Hn Hlt Hh. cbn [deallocuvm_loop]. rewrite npages_lt, (proj2 (Z.ltb_lt _ _) Hlt).
  rewrite (bind_eq _ _ _ _ _ (walk_page d n c pm x (upage n Hn))), decide_False by done.
  cbn [Z.eqb]. f_equal. unfold NPTENTRIES, UPAGES, PGSIZE in *. rewrite (u32_small (n * 4096 + _)), u32_small by lia. lia.
Qed.

Lemma may_skip_turn m m' d n hi :
  (∀ i, dir_index i → pde m' d i = pde m d i) → 0 ≤ n < UPAGES → has m d (n / 1024) →
  may_skip m' d (n + 1) hi.
Proof.
  intros P Hn Hh. destruct (page_index n (upage n Hn)) as [Hi _].
  pose proof (Z.div_mod n 1024 ltac:(done)). pose proof (Z.mod_pos_bound n 1024 ltac:(done)).
  unfold may_skip. destruct (decide (n mod 1024 = 1023)) as [E|E].
  - left. replace (n + 1) with ((n / 1024 + 1) * 1024) by lia. by apply Z.mod_mul.
  - right; left. replace ((n + 1) / 1024) with (n / 1024); [unfold has; by rewrite P|].
    apply (Z.div_unique _ _ _ (n mod 1024 + 1)); lia.
Qed.

Lemma may_skip_jump m d n hi :
  may_skip m d n hi → ¬ has m d (n / 1024) →
  (∀ n', n ≤ n' < n + 1024 → n' < hi → ¬ present m d n') ∧ may_skip m d (n + 1024) hi.
Proof.
  intros [Hz|[?|Hn]] Hh; [|done|].
  - pose proof (Z.div_mod n 1024 ltac:(done)). split.
    + intros n' Hn' _. apply (absent_table m d n); [done|].
      symmetry. apply (Z.div_unique _ _ _ (n' - n)); lia.
    + left. rewrite Z.add_mod, Hz by done. done.
  - split; [intros n' ? ?; apply Hn; lia|]. right; right. intros n' ?. apply Hn. lia.
Qed.

Lemma deallocuvm_loop_run fuel d sz n c pm (x : Ext) free :
  lock_free c pm → kmem_inv kend pm free → aspace (pm_mem pm) d free →
  0 ≤ n → 0 ≤ sz ≤ KERNBASE → may_skip (pm_mem pm) d n (npages sz) →
  npages sz - n ≤ Z.of_nat fuel →
  ∃ pm' free', deallocuvm_loop kend (S fuel) d sz (n * PGSIZE) (c, (pm, x)) = Ret () (c, (pm', x)) ∧
    dealloced n (npages sz) d pm pm' free free'.
Proof.
  revert n pm free. induction fuel as [|fuel IH]; intros n pm free Hlk Hk Ha Hn Hsz Hsk Hf;
    (destruct (decide (n < npages sz)) as [Hlt|Hge];
     [|exists pm, free; split; [|apply dealloced_refl; [done..|lia]];
       cbn [deallocuvm_loop]; rewrite npages_lt; by destruct (Z.ltb_spec n (npages sz))]); [lia|].
  pose proof (npages_bound sz Hsz). assert (Hnu : 0 ≤ n < UPAGES) by lia.
  destruct (decide (has (pm_mem pm) d (n / 1024))) as [Hh|Hh].
  - destruct (dealloc_turn (S fuel) d sz n c pm x free) as (pm1 & free1 & -> & D); [done..|].
    pose proof D as [D1 D2 D3 _ _ _ D7 _].
    destruct (IH (n + 1) pm1 free1) as (pm' & free' & -> & D'); [|done..|lia|done| |lia|].
    { unfold lock_free in *. by rewrite D7. } { by eapply may_skip_turn. }
    exists pm', free'. split; [done|]. eapply dealloced_step; [lia..|exact D|exact D'].
  - rewrite dealloc_jump by done. destruct (may_skip_jump _ _ _ _ Hsk Hh) as [Hno Hsk'].
    destruct (IH (n + 1024) pm free) as (pm' & free' & -> & D'); [done..|lia|done|done|lia|].
    exists pm', free'. split; [done|]. eapply (dealloced_skip n (n + 1024)); [lia..|exact Hno|exact D'].
Qed.

Lemma PGROUNDUP_npages sz : 0 ≤ sz ≤ KERNBASE → PGROUNDUP sz = npages sz * PGSIZE.
Proof. intros H. apply PGROUNDUP_spec; unfold KERNBASE, PGSIZE in *; lia. Qed.

Lemma deallocuvm_run d oldsz newsz c pm (x : Ext) free :
  lock_free c pm → kmem_inv kend pm free → aspace (pm_mem pm) d free →
  0 ≤ newsz < oldsz → oldsz ≤ KERNBASE → may_skip (pm_mem pm) d (npages newsz) (npages oldsz) →
  ∃ pm' free', deallocuvm kend d oldsz newsz (c, (pm, x)) = Ret newsz (c, (pm', x)) ∧
    dealloced (npages newsz) (npages oldsz) d pm pm' free free'.
Proof.
  intros Hlk Hk Ha Hn Ho Hs. unfold deallocuvm. rewrite (proj2 (Z.leb_gt _ _)) by lia.
  rewrite PGROUNDUP_npages by lia. pose proof (npages_bound newsz).
  destruct (deallocuvm_loop_run (S (Z.to_nat (oldsz / PGSIZE))) d oldsz (npages newsz) c pm x free)
    as (pm' & free' & R & D); try done; try lia.
  { unfold npages at 1. pose proof (Z.div_pos oldsz PGSIZE). unfold PGSIZE in *.
    pose proof (Z.div_mod oldsz 4096). pose proof (Z.mod_pos_bound oldsz 4096).
    pose proof (Z.div_lt_upper_bound (oldsz + 4096 - 1) 4096 (oldsz / 4096 + 2)). lia. }
  exists pm', free'. split; [|done]. by rewrite (bind_eq _ _ _ _ _ R).
Qed.

(** ** freevm *)

(** The body of the loop over the directory. *)
Abbreviation free_entry d := (λ i : nat,
  e ← rd32 (d + 4 * Z.of_nat i);
  when (negb (Z.land e PTE_P =? 0)) (kfree (Ext := Ext) kend (p2v (PTE_ADDR e)))).

Lemma free_entry_run m0 d i c pm (x : Ext) :
  lock_free c pm → dir_index (Z.of_nat i) → pt_ok kend m0 d [] →
  pde (pm_mem pm) d (Z.of_nat i) = pde m0 d (Z.of_nat i) →
  free_entry d i (c, (pm, x)) =
    Ret () (c, (if decide (has m0 d (Z.of_nat i)) then kfreed (tab m0 d (Z.of_nat i)) pm else pm, x)).
Proof.
  intros Hlk Hi Hpt E. cbv beta. erewrite bind_eq by reflexivity. cbn beta.
  change (ld32 (pm_mem (fst (snd (c, (pm, x))))) (d + 4 * Z.of_nat i)) with (pde (pm_mem pm) d (Z.of_nat i)).
  rewrite E. change (p2v (PTE_ADDR (pde m0 d (Z.of_nat i)))) with (tab m0 d (Z.of_nat i)).
  destruct (Z.eqb_spec (Z.land (pde m0 d (Z.of_nat i)) PTE_P) 0) as [Hz|Hz]; cbn [negb when].
  - by rewrite decide_False by auto.
  - rewrite decide_True by done. apply kfree_run; [apply kend_high|done|]. by apply Hpt.
Qed.

(** The loop from [i] on. *)
Lemma free_tables_run m0 d n i c pm (x : Ext) free :
  pt_ok kend m0 d [] → lock_free c pm → kmem_inv kend pm free → Z.of_nat (i + n) = 1024 →
  (∀ k, dir_index k → pde (pm_mem pm) d k = pde m0 d k) →
  (∀ j, Z.of_nat i ≤ j < 1024 → has m0 d j → tab m0 d j ∉ free) →
  ∃ pm' free', for_each (seq i n) (free_entry d) (c, (pm, x)) = Ret () (c, (pm', x)) ∧
    kmem_inv kend pm' free' ∧ use_lock pm' = use_lock pm ∧ untouched free' pm pm' ∧
    ∀ p, p ∈ free' ↔ p ∈ free ∨ ∃ j, Z.of_nat i ≤ j < 1024 ∧ has m0 d j ∧ tab m0 d j = p.
Proof.
  intros Hpt. revert i pm free. induction n as [|n IH]; intros i pm free Hlk Hk Hin P Hf.
  { exists pm, free. split_and!; try done. intros p. split; [by left|].
    intros [?|(j & ? & _)]; [done|lia]. }
  assert (Hi : dir_index (Z.of_nat i)) by (unfold dir_index; lia). cbn [seq for_each].
  rewrite (bind_eq _ _ _ _ _ (free_entry_run m0 d i c pm x Hlk Hi Hpt (P _ Hi))).
  case_decide as Hh.
  - destruct (pt_tab _ _ _ _ Hpt _ Hi Hh) as (Ht & _ & Htd).
    set (t := tab m0 d (Z.of_nat i)) in *.
    assert (Htf : t ∉ free) by (apply Hf; [lia|done]).
    destruct (IH (S i) (kfreed t pm) (t :: free)) as (pm' & free' & -> & K1 & K2 & K3 & K4);
      [done| |lia|..].
    { apply kfreed_inv; try done; [apply kend_high|]. by eapply kmem_inv_head, Hk; apply kend_high. }
    { intros k Hk'. rewrite <-P by done. unfold pde. apply ld32_ext. intros b Hb. apply kfreed_mem.
      intros Hin'. apply Htd. eapply pages_share; [done|apply Hpt|exact Hin'|].
      unfold in_page, dir_index, PGSIZE in *. lia. }
    { intros j Hj Hhj [E|?]%elem_of_cons; [|by apply (Hf j); [lia|..]].
      apply (pt_inj _ _ _ _ Hpt) in E; [lia|unfold dir_index; lia|done..]. }
    exists pm', free'. split_and!; [done..| |].
    + intros b Hb. rewrite K3 by done. apply kfreed_mem. apply (Hb t). apply K4. left. by left.
    + intros p. rewrite K4, elem_of_cons. split.
      * intros [[->|?]|(j & ? & ? & ?)]; [right; exists (Z.of_nat i)|by left|right; exists j];
          (split_and!; [lia..|done|done]).
      * intros [?|(j & ? & Hhj & <-)]; [by left; right|].
        destruct (decide (j = Z.of_nat i)) as [->|]; [by left; left|right; exists j].
        split_and!; [lia..|done|done].
  - destruct (IH (S i) pm free) as (pm' & free' & -> & K1 & K2 & K3 & K4); [done..|lia|done| |].
    { intros j Hj. apply Hf. lia. }
    exists pm', free'. split_and!; [done..|]. intros p. rewrite K4.
    split; (intros [?|(j & ? & Hhj & <-)]; [by left|right; exists j]); split_and!; try done; try lia.
    destruct (decide (j = Z.of_nat i)) as [->|]; [done|lia].
Qed.

Lemma freevm_run d c pm (x : Ext) free :
  lock_free c pm → kmem_inv kend pm free → aspace (pm_mem pm) d free →
  ∃ pm' free', freevm kend d (c, (pm, x)) = Ret () (c, (pm', x)) ∧
    kmem_inv kend pm' free' ∧ use_lock pm' = use_lock pm ∧ untouched free' pm pm' ∧
    ∀ p, p ∈ free' ↔ p ∈ free ∨ owned (pm_mem pm) d p.
Proof.
  intros Hlk Hk Ha. destruct (pt_dir _ _ _ _ (as_pt _ _ _ Ha)) as [Hd Hdf].
  pose proof (page_ok_range kend kend_high _ Hd) as Hdr. unfold freevm.
  destruct (Z.eqb_spec d 0) as [?|_]; [lia|].
  destruct (deallocuvm_run d KERNBASE 0 c pm x free Hlk Hk Ha) as (pm1 & free1 & R1 & D);
    [done..|by left|]. rewrite (bind_eq _ _ _ _ _ R1).
  destruct D as [D1 D2 D3 _ _ D6 D7 D8]. change (npages 0) with 0 in D6.
  change (npages KERNBASE) with UPAGES in D6.
  assert (Hlk1 : lock_free c pm1) by (unfold lock_free in *; by rewrite D7).
  destruct (as_pt _ _ _ D2) as [[_ Hdf1] Ht1 Hinj1].
  destruct (free_tables_run (pm_mem pm1) d NPDENTRIES 0 c pm1 x free1)
    as (pm2 & free2 & R2 & K1 & K2 & K3 & K4); try done.
  { constructor; [split; [done|by intros ?%elem_of_nil]| |done]. intros i Hi Hh.
    destruct (Ht1 i Hi Hh) as (? & ? & ?). split_and!; [done| |done]. by intros ?%elem_of_nil. }
  { intros j Hj Hh. by apply Ht1. }
  rewrite (bind_eq _ _ _ _ _ R2).
  assert (Hdf2 : d ∉ free2).
  { rewrite K4. intros [?|(j & Hj & Hh & E)]; [done|]. by destruct (Ht1 j Hj Hh) as (_ & _ & ?). }
  assert (Hlk2 : lock_free c pm2) by (unfold lock_free in *; by rewrite K2).
  assert (H2 : ∀ p, p ∈ free2 ↔ p ∈ free ∨ table_page (pm_mem pm) d p ∨
      ∃ n, 0 ≤ n < UPAGES ∧ present (pm_mem pm) d n ∧ uframe (pm_mem pm) d n = p).
  { intros p. rewrite K4, D6, <-(table_page_pde _ _ _ D3 p). unfold table_page, dir_index. tauto. }
  exists (kfreed d pm2), (d :: free2). split_and!.
  - apply kfree_run; [apply kend_high|done..].
  - apply kfreed_inv; try done; [apply kend_high|]. by eapply kmem_inv_head, K1; apply kend_high.
  - simpl. by rewrite K2.
  - intros b Hb. rewrite kfreed_mem by (apply (Hb d); by left). rewrite K3.
    + apply D8. intros p Hp. apply Hb. right. apply H2. rewrite D6 in Hp. tauto.
    + intros p Hp. apply Hb. by right.
  - intros p. rewrite elem_of_cons, H2. unfold owned. tauto.
Qed.

(** ** A new user page *)

Lemma loose_grown d pm pm' free free' q :
  grown d pm pm' free free' → loose (pm_mem pm) d free q → loose (pm_mem pm') d free' q.
Proof.
  intros [_ [u ->] G3 _ _] [L1 L2 L3 L4]. rewrite elem_of_app in L2. split; [done|tauto|done|].
  intros Ht. specialize (G3 q). rewrite elem_of_app in G3. tauto.
Qed.

(** A loose page keeps its bytes while the table grows. *)
Lemma loose_bytes d pm pm' free free' q b :
  grown d pm pm' free free' → vm_ok kend pm d free → loose (pm_mem pm) d free q → in_page q b →
  rd (pm_mem pm') b = rd (pm_mem pm) b.
Proof.
  intros G [[Hl _] Hpt] [L1 L2 L3 L4] Hb. apply (gr_rd _ _ _ _ _ G). split_and!.
  - intros Hd. apply L3. eapply pages_share; [done|apply Hpt|done..].
  - intros i Hi Hh Hi'. apply L4. exists i. split_and!; [done..|].
    eapply pages_share; [by apply Hpt|done..].
  - intros p Hp Hpb. apply L2. replace q with p; [done|].
    eapply pages_share; [by eapply (linked_ok kend kend_high)|done..].
Qed.

(** [pm2] is [pm1] with frame [v] mapped at page [n] with [perm], or not, for want
    of a page for the table. *)
Record page_mapped (n v perm d r : Z) (pm1 pm2 : pmem) (free1 free2 : list Z) : Prop := {
  pm_grown : grown d pm1 pm2 free1 free2;
  pm_aspace : aspace (pm_mem pm2) d free2;
  pm_other k : 0 ≤ k < 2 ^ 20 → k ≠ n → entry (pm_mem pm2) d k = entry (pm_mem pm1) d k;
  pm_result : r = -1 ∧ free2 = [] ∧ entry (pm_mem pm2) d n = entry (pm_mem pm1) d n ∨
    r = 0 ∧ entry (pm_mem pm2) d n = Z.lor (Z.lor (v2p v) perm) PTE_P;
  pm_has i : dir_index i → has (pm_mem pm2) d i → has (pm_mem pm1) d i ∨ i = n / 1024 }.

Lemma map_page_run d n v perm c pm (x : Ext) free :
  lock_free c pm → kmem_inv kend pm free → aspace (pm_mem pm) d free → loose (pm_mem pm) d free v →
  0 ≤ n < UPAGES → ¬ present (pm_mem pm) d n → 0 ≤ perm < 4096 →
  (∀ k, 0 ≤ k < UPAGES → present (pm_mem pm) d k → uframe (pm_mem pm) d k ≠ v) →
  ∃ r pm' free', mappages d (n * PGSIZE) PGSIZE (v2p v) perm (c, (pm, x)) = Ret r (c, (pm', x)) ∧
    page_mapped n v perm d r pm pm' free free'.
Proof.
  intros Hlk Hk Ha Hv Hn Hnp Hperm Hne.
  destruct (v2p_page kend v kend_high (lo_ok _ _ _ _ Hv)) as (V1 & V2 & V3 & V4).
  assert (Hdiv : n * PGSIZE / PGSIZE = n) by by apply Z.div_mul.
  destruct (mappages_one kend kend_high d (n * PGSIZE) (v2p v) perm c pm x free)
    as (r & pm' & free' & R & M & Hsame); try done.
  { split; [done|apply Ha]. } { unfold PGSIZE. lia. } { by apply Z.mod_mul. }
  { unfold UPAGES, PGSIZE in *. lia. }
  { rewrite Hdiv.
    destruct (decide (Z.land (entry (pm_mem pm) d n) PTE_P = 0)) as [|H]; [done|by destruct Hnp]. }
  exists r, pm', free'. split; [done|].
  pose proof (mapped_grown _ _ _ _ _ _ _ _ _ _ M) as G.
  destruct M as (_ & _ & [_ Hdirs] & _ & _ & Ho & Hr). change (Z.of_nat 0) with 0 in *.
  rewrite Hdiv in Hsame, Hdirs.
  rewrite Hdiv in Ho, Hr.
  assert (Ho' : ∀ k, 0 ≤ k < 2 ^ 20 → k ≠ n → entry (pm_mem pm') d k = entry (pm_mem pm) d k).
  { intros k Hk' Hkn. apply Ho; [done|lia]. }
  assert (Hold : ∀ k, 0 ≤ k < UPAGES → present (pm_mem pm') d k → k ≠ n →
    present (pm_mem pm) d k ∧ uframe (pm_mem pm') d k = uframe (pm_mem pm) d k).
  { intros k Hk' Hp Hkn. unfold present, uframe in *. rewrite Ho' in * by (try apply upage; done). done. }
  assert (Hnew : r = -1 ∧ free' = [] ∧ entry (pm_mem pm') d n = entry (pm_mem pm) d n ∨
    r = 0 ∧ entry (pm_mem pm') d n = Z.lor (Z.lor (v2p v) perm) PTE_P).
  { destruct Hr as [[-> ->]|[-> Hr]]; [left; auto|right]. split; [done|]. rewrite <-(Z.add_0_r n) at 1.
    rewrite Hr by lia. by rewrite Z.mul_0_l, Z.add_0_r. }
  assert (Hfr : present (pm_mem pm') d n → uframe (pm_mem pm') d n = v).
  { intros Hp. unfold present, uframe in *. destruct Hnew as [(_ & _ & E)|[_ E]]; rewrite E in *.
    - done.
    - by apply (frame_entry kend v perm kend_high (lo_ok _ _ _ _ Hv)). }
  split; [done| |done|done|].
  2:{ intros i Hi Hh. destruct (Hdirs i Hi Hh) as [?|(j & Hj & ->)]; [by left|right].
      replace j with 0 by lia. by rewrite Z.add_0_r. }
  constructor; [apply G|..].
  - intros k Hk' Hp. eapply loose_grown; [exact G|]. destruct (decide (k = n)) as [->|Hkn].
    + by rewrite Hfr.
    + destruct (Hold k Hk' Hp Hkn) as [Hp' ->]. by apply Ha.
  - intros k k' Hk' Hk'' Hp Hp' E.
    destruct (decide (k = n)) as [->|Hkn], (decide (k' = n)) as [->|Hkn']; [done|..].
    + rewrite Hfr in E by done. destruct (Hold k' Hk'' Hp' Hkn') as [Hp2 E2].
      rewrite E2 in E. by destruct (Hne k').
    + rewrite (Hfr Hp') in E. destruct (Hold k Hk' Hp Hkn) as [Hp2 E2].
      rewrite E2 in E. by destruct (Hne k).
    + destruct (Hold k Hk' Hp Hkn) as [Hp1 E1], (Hold k' Hk'' Hp' Hkn') as [Hp2 E2].
      rewrite E1, E2 in E. by apply (as_inj _ _ _ Ha).
Qed.

Lemma empty_dir m d free :
  page_ok kend d → d ∉ free → (∀ i, dir_index i → pde m d i = 0) →
  pt_ok kend m d free ∧ (∀ p, ¬ table_page m d p) ∧ ∀ n, 0 ≤ n < 2 ^ 20 → entry m d n = 0.
Proof.
  intros Hd Hf H0. assert (Hn : ∀ i, dir_index i → ¬ has m d i).
  { intros i Hi Hh. apply Hh. by rewrite H0. }
  split_and!.
  - constructor; [done|intros i Hi Hh|intros i j Hi _ Hh]; by destruct (Hn i Hi).
  - intros p (i & Hi & Hh & _). by destruct (Hn i Hi).
  - intros n Hr. unfold entry. rewrite decide_False; [done|]. apply Hn. by apply page_index.
Qed.

(** The first free page taken and written. *)
Lemma alloc_write pm d free m' :
  kmem_inv kend pm (d :: free) → (∀ b, ¬ in_page d b → rd m' b = rd (pm_mem pm) b) →
  page_ok kend d ∧ d ∉ free ∧ kmem_inv kend (set_mem m' (kalloced pm)) free.
Proof.
  intros Hinv Hw. destruct (kalloced_inv kend kend_high pm _ Hinv) as ([Hl Hnd'] & _ & Hm & _).
  destruct Hinv as [Hl0 Hnd]. simpl in Hl0. destruct Hl0 as (_ & Hd & _).
  apply list.NoDup_cons in Hnd as [Hdf Hnd]. split_and!; [done..|]. split; [|done]. simpl in *.
  rewrite Hm in Hl. eapply (linked_ext kend kend_high); [|exact Hl]. intros q Hq. apply ld32_ext.
  intros b Hb. apply Hw. intros Hdb. apply Hdf.
  pose proof (linked_ok kend kend_high _ _ _ _ Hl Hq) as Hqo.
  replace d with q; [done|]. eapply pages_share; [done..| |done]. unfold in_page, PGSIZE. lia.
Qed.

(** ** New frames *)

(** [v] has come off the free list and nothing else has changed but its bytes. *)
Record framed (d v : Z) (pm pm1 : pmem) (free1 : list Z) : Prop := {
  fd_kmem : kmem_inv kend pm1 free1;
  fd_space : aspace (pm_mem pm1) d free1;
  fd_loose : loose (pm_mem pm1) d free1 v;
  fd_pde i : dir_index i → pde (pm_mem pm1) d i = pde (pm_mem pm) d i;
  fd_tables p : table_page (pm_mem pm1) d p ↔ table_page (pm_mem pm) d p;
  fd_entry n : 0 ≤ n < 2 ^ 20 → entry (pm_mem pm1) d n = entry (pm_mem pm) d n;
  fd_new n : 0 ≤ n < UPAGES → present (pm_mem pm1) d n → uframe (pm_mem pm1) d n ≠ v;
  fd_lock : use_lock pm1 = use_lock pm;
  fd_rd b : ¬ in_page v b → rd (pm_mem pm1) b = rd (pm_mem pm) b }.

(** A page taken off the free list for a frame. *)
Lemma new_frame pm d mem0 free m' :
  kmem_inv kend pm (mem0 :: free) → aspace (pm_mem pm) d (mem0 :: free) →
  (∀ b, ¬ in_page mem0 b → rd m' b = rd (pm_mem pm) b) →
  framed d mem0 pm (set_mem m' (kalloced pm)) free.
Proof.
  intros Hk Ha Hw. destruct (alloc_write pm mem0 free m' Hk Hw) as (Ho & Hf & Hk').
  destruct (kalloced_inv kend kend_high pm _ Hk) as (Hka & _ & Hm & Hu).
  pose proof (as_pt _ _ _ Ha) as Hpt.
  assert (Hl : loose (pm_mem pm) d free mem0).
  { split; [done..| |].
    - intros ->. apply (pt_dir _ _ _ _ Hpt). by left.
    - intros Ht. apply (table_page_ok _ _ _ _ Hpt) in Ht as (_ & Ht & _). apply Ht. by left. }
  destruct (loose_write (kalloced pm) d free mem0 m') as ([_ Hv] & P & E).
  { split; [done|]. rewrite Hm. by eapply pt_ok_weaken. } { by rewrite Hm. }
  { intros b Hb. rewrite Hm. by apply Hw. }
  rewrite Hm in P, E. assert (Ha' : aspace m' d free).
  { eapply aspace_shrink; [exact Ha|done..|]. intros n Hn Hp. split; [by apply E, upage|set_solver]. }
  split; try done.
  - destruct Hl. split; try done. by rewrite (table_page_pde _ _ _ P).
  - by apply table_page_pde.
  - intros k Hk1 Hp Hv'. simpl in Hp, Hv'. pose proof (as_frame _ _ _ Ha k Hk1) as Hx.
    unfold present, uframe in *. rewrite E in * by (by apply upage).
    destruct (Hx Hp) as [_ Hx' _ _]. apply Hx'. rewrite Hv'. by left.
Qed.

Lemma framed_lift d v pm pm1 free1 n :
  framed d v pm pm1 free1 → 0 ≤ n < UPAGES →
  (present (pm_mem pm1) d n ↔ present (pm_mem pm) d n) ∧
  uframe (pm_mem pm1) d n = uframe (pm_mem pm) d n.
Proof. intros F Hn. unfold present, uframe. by rewrite (fd_entry _ _ _ _ _ F) by (by apply upage). Qed.

(** A new frame [v] tried at page [k], which was not there. *)
Section FrameMapped.
Context (k perm d v r : Z) (pm pm1 pm2 : pmem) (free1 free2 : list Z).
Hypotheses (F : framed d v pm pm1 free1) (M : page_mapped k v perm d r pm1 pm2 free1 free2)
  (Hk : 0 ≤ k < UPAGES) (Hperm : 0 ≤ perm < 4096) (Hnp : ¬ present (pm_mem pm) d k).

Lemma fm_other n : 0 ≤ n < 2 ^ 20 → n ≠ k → entry (pm_mem pm2) d n = entry (pm_mem pm) d n.
Proof. intros Hn Hne. by rewrite (pm_other _ _ _ _ _ _ _ _ _ M), (fd_entry _ _ _ _ _ F). Qed.

Lemma fm_lift n : 0 ≤ n < UPAGES → n ≠ k →
  (present (pm_mem pm2) d n ↔ present (pm_mem pm) d n) ∧
  uframe (pm_mem pm2) d n = uframe (pm_mem pm) d n.
Proof. intros Hn Hne. unfold present, uframe. by rewrite fm_other by (try apply upage; done). Qed.

Lemma fm_lock : use_lock pm2 = use_lock pm.
Proof. by rewrite (gr_lock _ _ _ _ _ (pm_grown _ _ _ _ _ _ _ _ _ M)), (fd_lock _ _ _ _ _ F). Qed.

(** The page's entry: its frame and flags, or nothing. *)
Lemma fm_entry :
  r = 0 ∧ present (pm_mem pm2) d k ∧ uframe (pm_mem pm2) d k = v ∧
    PTE_FLAGS (entry (pm_mem pm2) d k) = Z.lor perm PTE_P ∨
  r = -1 ∧ free2 = [] ∧ ¬ present (pm_mem pm2) d k.
Proof.
  destruct (frame_entry kend v perm kend_high (lo_ok _ _ _ _ (fd_loose _ _ _ _ _ F)) Hperm)
    as (E1 & E2 & E3).
  destruct (pm_result _ _ _ _ _ _ _ _ _ M) as [(-> & -> & E)|(-> & E)]; [right|left].
  - split_and!; [done..|]. unfold present.
    by rewrite E, (fd_entry _ _ _ _ _ F) by (by apply upage).
  - split; [done|]. unfold present, uframe. by rewrite E.
Qed.

(** The bytes of the frames. *)
Lemma fm_keep q o : loose (pm_mem pm1) d free1 q → 0 ≤ o < PGSIZE →
  rd (pm_mem pm2) (q + o) = rd (pm_mem pm1) (q + o).
Proof.
  intros Hq Ho. eapply loose_bytes; [apply M| |exact Hq|unfold in_page; lia].
  split; [apply F|apply F].
Qed.

Lemma fm_frame n o : 0 ≤ n < UPAGES → present (pm_mem pm) d n → 0 ≤ o < PGSIZE →
  rd (pm_mem pm2) (uframe (pm_mem pm) d n + o) = rd (pm_mem pm) (uframe (pm_mem pm) d n + o).
Proof.
  intros Hn Hp Ho. destruct (framed_lift _ _ _ _ _ n F Hn) as [Hpl Hul].
  pose proof (as_frame _ _ _ (fd_space _ _ _ _ _ F) n Hn (proj2 Hpl Hp)) as Hl.
  rewrite Hul in Hl. rewrite fm_keep by done. apply (fd_rd _ _ _ _ _ F). intros Hv.
  apply (fd_new _ _ _ _ _ F n Hn); [by apply Hpl|]. rewrite Hul.
  eapply pages_share; [apply Hl|apply (fd_loose _ _ _ _ _ F)| |exact Hv]. unfold in_page. lia.
Qed.

(** What [d] owns now. *)
Lemma fm_owned p :
  p ∈ free2 ∨ owned (pm_mem pm2) d p ↔ p ∈ free1 ∨ owned (pm_mem pm) d p ∨ r = 0 ∧ p = v.
Proof.
  pose proof (gr_pages _ _ _ _ _ (pm_grown _ _ _ _ _ _ _ _ _ M) p) as G.
  rewrite (fd_tables _ _ _ _ _ F) in G.
  assert (Hfr : (∃ n, 0 ≤ n < UPAGES ∧ present (pm_mem pm2) d n ∧ uframe (pm_mem pm2) d n = p) ↔
    (∃ n, 0 ≤ n < UPAGES ∧ present (pm_mem pm) d n ∧ uframe (pm_mem pm) d n = p) ∨ r = 0 ∧ p = v).
  { split.
    - intros (n & Hn & Hp & <-). destruct (decide (n = k)) as [Heq|Hne].
      + right. rewrite Heq in Hp |- *.
        by destruct fm_entry as [(? & _ & ? & _)|(_ & _ & ?)].
      + left. exists n. destruct (fm_lift n Hn Hne) as [Hp' E]. split_and!; [lia..|by apply Hp'|done].
    - intros [(n & Hn & Hp & <-)|[Hr ->]].
      + destruct (decide (n = k)) as [Heq|Hne]; [by rewrite Heq in Hp|]. exists n.
        destruct (fm_lift n Hn Hne) as [Hp' E]. split_and!; [lia..|by apply Hp'|done].
      + exists k. destruct fm_entry as [(_ & ? & ? & _)|(? & _)]; [|lia]. split_and!; [lia..|done|done]. }
  unfold owned. rewrite Hfr. tauto.
Qed.

(** A frame that was not mapped belongs to nobody. *)
Lemma fm_lost : r = -1 → ¬ owned (pm_mem pm2) d v.
Proof.
  intros Hr Ho. destruct (fd_loose _ _ _ _ _ F) as [_ L1 L2 L3].
  destruct (proj1 (fm_owned v) (or_intror Ho)) as [?|[[?|[Ht|(n & Hn & Hpn & Hu)]]|[? _]]]; [done..| | |lia].
  - apply L3. by apply (fd_tables _ _ _ _ _ F).
  - destruct (framed_lift _ _ _ _ _ n F Hn) as [Hpl Hul]. rewrite <-Hul in Hu.
    apply (fd_new _ _ _ _ _ F n Hn); [by apply Hpl|done].
Qed.

(** Bytes of no page that is free, owned or new stay. *)
Lemma fm_foreign b : foreign (pm_mem pm) d (v :: free1) b →
  rd (pm_mem pm2) b = rd (pm_mem pm) b ∧ foreign (pm_mem pm2) d free2 b.
Proof.
  intros (H1 & H2 & H3). rewrite <-(fd_rd _ _ _ _ _ F b) by (apply H3; by left).
  apply (gr_rd _ _ _ _ _ (pm_grown _ _ _ _ _ _ _ _ _ M)). split_and!; [done|..].
  - intros i Hi Hh. destruct (proj1 (fd_tables _ _ _ _ _ F (tab (pm_mem pm1) d i))) as (j & Hj & Hhj & <-);
      [by exists i|]. by apply H2.
  - intros p Hp. apply H3. by right.
Qed.

End FrameMapped.

(** ** setupkvm *)

(** Linker symbol [data] is on a page boundary inside the kernel's memory. *)
Context (data : Z) (data_page : data mod PGSIZE = 0) (data_low : KERNLINK < data)
  (data_high : data < KERNBASE + PHYSTOP).

Lemma kmap_all_ok : Forall kmap_ok (kmap data).
Proof.
  assert (Hu : u32 (PHYSTOP - v2p data) = KERNBASE + PHYSTOP - data ∧ v2p data = data - KERNBASE).
  { unfold v2p. unfold KERNLINK, KERNBASE, EXTMEM, PHYSTOP in *.
    rewrite (u32_small (data - _)) by lia. rewrite u32_small by lia. lia. }
  destruct Hu as [Hu Hv]. assert (Hd : data = data / 4096 * 4096) by (by apply page_multiple).
  unfold kmap. rewrite Hv. repeat (apply list.Forall_cons; split); [..|done].
  - split; by vm_compute.
  - assert (E : u32 (data - KERNBASE - v2p KERNLINK) = (data / 4096 - 0x80100) * 4096).
    { change (v2p KERNLINK) with 0x100000. unfold KERNLINK, KERNBASE, EXTMEM, PHYSTOP in *.
      rewrite u32_small; lia. }
    split; unfold k_pages; cbn [k_virt k_start k_end k_perm]; rewrite ?E;
      change (v2p KERNLINK) with 0x100000; unfold PGSIZE, KERNLINK, KERNBASE, EXTMEM, PHYSTOP in *;
      rewrite ?Z.div_mul by done; try lia; done.
  - assert (E : u32 (PHYSTOP - (data - KERNBASE)) = (0x8E000 - data / 4096) * 4096).
    { rewrite <-Hv, Hu. unfold KERNLINK, KERNBASE, EXTMEM, PHYSTOP in *. lia. }
    split; unfold k_pages; cbn [k_virt k_start k_end k_perm]; rewrite ?E;
      unfold PGSIZE, KERNLINK, KERNBASE, EXTMEM, PHYSTOP in *;
      rewrite ?Z.div_mul by done; try lia; done.
  - split; by vm_compute.
Qed.

(** Where the four ranges lie, as page numbers. *)
Lemma kmap_ranges k :
  k ∈ kmap data → k_page k = 0x80000 ∧ k_pages k = 0x100 ∨
    k_page k = 0x80100 ∧ k_pages k = data / PGSIZE - 0x80100 ∨
    k_page k = data / PGSIZE ∧ k_pages k = 0x8E000 - data / PGSIZE ∨
    k_page k = 0xFE000 ∧ k_pages k = 0x2000.
Proof.
  assert (Hd : data = data / 4096 * 4096) by (by apply page_multiple).
  assert (Hv : v2p data = data - KERNBASE).
  { unfold v2p. unfold KERNLINK, KERNBASE, EXTMEM, PHYSTOP in *. rewrite u32_small; lia. }
  unfold kmap. rewrite Hv, !elem_of_cons, elem_of_nil. unfold k_page, k_pages.
  intros [->|[->|[->|[->|[]]]]]; cbn [k_virt k_start k_end k_perm].
  - by left.
  - right; left. change (v2p KERNLINK) with 0x100000. split; [done|].
    unfold PGSIZE, KERNLINK, KERNBASE, EXTMEM, PHYSTOP in *. rewrite u32_small by lia.
    replace (data - 2147483648 - 1048576) with ((data / 4096 - 0x80100) * 4096) by lia.
    by rewrite Z.div_mul.
  - right; right; left. split; [done|].
    unfold PGSIZE, KERNLINK, KERNBASE, EXTMEM, PHYSTOP in *. rewrite u32_small by lia.
    replace (234881024 - (data - 2147483648)) with ((0x8E000 - data / 4096) * 4096) by lia.
    by rewrite Z.div_mul.
  - by right; right; right.
Qed.

Lemma data_pages : 0x80100 < data / PGSIZE < 0x8E000.
Proof.
  assert (Hd : data = data / 4096 * 4096) by (by apply page_multiple).
  unfold PGSIZE, KERNLINK, KERNBASE, EXTMEM, PHYSTOP in *. lia.
Qed.

Lemma kmap_disjoint : ForallOrdPairs (λ k k', ∀ n, k_covers k n → ¬ k_covers k' n) (kmap data).
Proof.
  pose proof data_pages as Hd. assert (Hk : ∀ k, k ∈ kmap data → _) by apply kmap_ranges.
  unfold kmap in Hk |- *. unfold k_covers.
  set (k1 := mkKmap KERNBASE _ _ _) in *. set (k2 := mkKmap KERNLINK _ _ _) in *.
  set (k3 := mkKmap data _ _ _) in *. set (k4 := mkKmap DEVSPACE _ _ _) in *.
  assert (P1 : k_page k1 = 0x80000 ∧ k_pages k1 = 0x100) by done.
  assert (P4 : k_page k4 = 0xFE000 ∧ k_pages k4 = 0x2000) by done.
  assert (P2 : k_page k2 = 0x80100) by done.
  assert (P3 : k_page k3 = data / PGSIZE) by done.
  pose proof (Hk k2 ltac:(set_solver)) as H2. pose proof (Hk k3 ltac:(set_solver)) as H3.
  clear Hk. clearbody k1 k2 k3 k4.
  repeat (apply FOP_cons || apply FOP_nil); repeat (apply list.Forall_cons; split); try done;
    intros n; lia.
Qed.

(** The user half is not touched by the kernel's map. *)
Lemma kernel_entry_user base n : n < UPAGES → kernel_entry (kmap data) base n = base.
Proof.
  intros Hn. apply kernel_entry_base, list.Forall_forall. intros k Hk. pose proof data_pages.
  unfold k_covers, UPAGES in *. destruct (kmap_ranges k Hk) as [?|[?|[?|?]]]; lia.
Qed.

(** A directory has at most as many tables as it has entries, 1024 at most. *)
Lemma table_pages_in dirs m d extra l :
  NoDup l → (∀ i, dir_index i → has m d i → i ∈ dirs) →
  (∀ p, p ∈ l → p ∈ extra ∨ table_page m d p) → (length l ≤ length extra + length dirs)%nat.
Proof.
  intros Hnd Hd Hl. assert (Hs : l ⊆+ extra ++ (tab m d <$> dirs)).
  { apply NoDup_submseteq; [done|]. intros p Hp. rewrite elem_of_app.
    destruct (Hl p Hp) as [?|(i & Hi & Hh & <-)]; [by left|right].
    apply list_elem_of_fmap. exists i. split; [done|]. by apply Hd. }
  apply submseteq_length in Hs. by rewrite length_app, length_fmap in Hs.
Qed.
Lemma table_pages_bound m d extra l :
  NoDup l → (∀ p, p ∈ l → p ∈ extra ∨ table_page m d p) →
  Z.of_nat (length l) ≤ Z.of_nat (length extra) + 1024.
Proof.
  intros Hnd Hl. pose proof (table_pages_in (seqZ 0 1024) m d extra l Hnd) as H.
  rewrite length_seqZ in H. enough ((length l ≤ length extra + Z.to_nat 1024)%nat) by lia.
  apply H; [|done]. intros i Hi _. apply elem_of_seqZ. unfold dir_index in Hi. lia.
Qed.

(** The directory entries of the kernel's map. *)
Definition kernel_dirs : list Z := seqZ 512 56 ++ seqZ 1016 8.
Lemma kmap_dirs k n : k ∈ kmap data → k_covers k n → n / 1024 ∈ kernel_dirs.
Proof.
  intros Hk Hn. pose proof data_pages as Hd.
  assert (H : 0x80000 ≤ n < 0x8E000 ∨ 0xFE000 ≤ n < 0x100000).
  { unfold k_covers in Hn. destruct (kmap_ranges k Hk) as [?|[?|[?|?]]]; lia. }
  clear -H. unfold kernel_dirs. rewrite elem_of_app, !elem_of_seqZ.
  pose proof (Z.div_mod n 1024 ltac:(done)). pose proof (Z.mod_pos_bound n 1024 ltac:(done)). lia.
Qed.

Lemma setupkvm_run c pm (x : Ext) free :
  lock_free c pm → kmem_inv kend pm free →
  ∃ r pm' free', setupkvm data (c, (pm, x)) = Ret r (c, (pm', x)) ∧
    kmem_inv kend pm' free' ∧ use_lock pm' = use_lock pm ∧ (∃ used, free = used ++ free') ∧
    untouched free pm pm' ∧
    (r = 0 ∧ free' = [] ∧ Z.of_nat (length free) ≤ 65 ∨
     r ≠ 0 ∧ pt_ok kend (pm_mem pm') r free' ∧
     (∀ p, p ∈ free' ∨ p = r ∨ table_page (pm_mem pm') r p ↔ p ∈ free) ∧
     (∀ n, 0 ≤ n < 2 ^ 20 → entry (pm_mem pm') r n = kernel_entry (kmap data) 0 n) ∧
     ∀ i, dir_index i → has (pm_mem pm') r i → i ∈ kernel_dirs).
Proof.
  intros Hlk Hinv. unfold setupkvm. rewrite (bind_eq _ _ _ _ _ (kalloc_run kend kend_high c pm x Hlk)).
  destruct (kalloced_inv kend kend_high pm free Hinv) as (Ha & -> & Hm & Hu).
  destruct free as [|d free]; simpl.
  { exists 0, (kalloced pm), []. split_and!; try done; [by exists []| |left; by split_and!].
    intros b _. by rewrite Hm. }
  set (m1 := memset (pm_mem pm) d 0 PGSIZE).
  assert (Hw : ∀ b, ¬ in_page d b → rd m1 b = rd (pm_mem pm) b).
  { intros b Hb. unfold m1. rewrite rd_memset by done. by rewrite decide_False. }
  destruct (alloc_write pm d free m1 Hinv Hw) as (Hd & Hdf & Hinv1).
  pose proof (page_ok_range kend kend_high d Hd) as Hdr.
  destruct (Z.eqb_spec d 0) as [?|Hd0]; [lia|].
  destruct (empty_dir m1 d free Hd Hdf) as (Hpt & Hnt & He).
  { intros i Hi. apply ld32_memset0; unfold dir_index, PGSIZE in *; lia. }
  unfold memset_k, modm. erewrite bind_eq by reflexivity. cbn beta iota. simpl fst. simpl snd.
  rewrite Hm. fold m1. change (DEVSPACE <? p2v PHYSTOP) with false. cbn iota.
  destruct (map_kernel_run (kmap data) d c (set_mem m1 (kalloced pm)) x free)
    as (r & pm' & free' & R & [[G1 G1'] [u G2] G3 G4 G5] & Hdirs & Hr); try done.
  { unfold lock_free. simpl. by rewrite Hu. }
  { apply kmap_all_ok. } { apply kmap_disjoint. }
  { intros k n Hk Hn. apply He. pose proof data_pages.
    unfold k_covers in Hn. destruct (kmap_ranges k Hk) as [?|[?|[?|?]]]; lia. }
  assert (Hkd : ∀ i, dir_index i → has (pm_mem pm') d i → i ∈ kernel_dirs).
  { intros i Hi Hh. destruct (Hdirs i Hi Hh) as [Hh'|(k & n & Hk & Hn & ->)]; [|by eapply kmap_dirs].
    destruct (Hnt (tab m1 d i)). by exists i. }
  exists r, pm', free'. split_and!; [done|done|by rewrite G4|exists (d :: u); by rewrite G2| |].
  - intros b Hb. assert (Hdb : ¬ in_page d b) by (apply Hb; by left). rewrite <-Hw by done.
    apply G5. split_and!; [done| |].
    + intros i Hi Hh. by destruct (Hnt (tab m1 d i)); exists i.
    + intros p Hp. apply Hb. by right.
  - destruct Hr as [[-> ->]|[-> Hr]]; [left|right].
    { split_and!; [done..|].
      enough ((length (d :: free) ≤ length [d] + length kernel_dirs)%nat) as Hle by (simpl in *; lia).
      apply (table_pages_in kernel_dirs (pm_mem pm') d [d]); [apply Hinv|done|]. intros p [->|Hp]%elem_of_cons; [left; by left|].
      right. destruct (proj2 (G3 p) (or_introl Hp)) as [?%elem_of_nil|?]; done. }
    split_and!; [done|done| | |done].
    + intros p. rewrite elem_of_cons. specialize (G3 p). simpl in G3. specialize (Hnt p). clear -G3 Hnt. tauto.
    + intros n Hn. rewrite Hr by done. simpl. by rewrite He.
Qed.

End Uvm.

(** ** A memory with a given free list *)

(** Free pages linked in memory [m]. *)
Fixpoint chain (l : list Z) (m : mem) : mem :=
  match l with [] => m | p :: l' => st32 (chain l' m) p (default 0 (head l')) end.

Lemma chain_linked kend l m : KERNBASE ≤ kend → Forall (page_ok kend) l → NoDup l →
  linked kend (chain l m) (default 0 (head l)) l ∧
  ∀ b, (∀ p, p ∈ l → ¬ in_page p b) → rd (chain l m) b = rd m b.
Proof.
  intros Hk. induction l as [|p l IH]; [done|].
  intros [Hp Hl]%list.Forall_cons [Hpl Hnd]%list.NoDup_cons. destruct (IH Hl Hnd) as [L R]. simpl. split.
  - split_and!; [done..|]. rewrite ld32_st32.
    + eapply (linked_ext kend Hk); [|exact L]. intros q Hq. rewrite list.Forall_forall in Hl.
      apply ld32_st32_ne. destruct (pages_apart kend q p (Hl q Hq) Hp); [by intros ->|unfold PGSIZE in *; lia..].
    + destruct l as [|q l]; simpl; [done|]. apply list.Forall_cons in Hl as [Hq _].
      pose proof (page_ok_range kend Hk q Hq). unfold PGSIZE in *. lia.
  - intros b Hb. rewrite rd_st32.
    + apply R. intros q Hq. apply Hb. by right.
    + specialize (Hb p ltac:(by left)). unfold in_page, PGSIZE in Hb. lia.
Qed.

Lemma pages_from_ok kend n p : p mod PGSIZE = 0 → kend ≤ p →
  p + PGSIZE * Z.of_nat n ≤ KERNBASE + PHYSTOP → Forall (page_ok kend) (pages_from p n) ∧ NoDup (pages_from p n).
Proof.
  revert p. induction n as [|n IH]; intros p Hm Hk Hh; simpl; [by split; constructor|].
  destruct (IH (p + PGSIZE)) as [H1 H2]; unfold PGSIZE in *; [|lia..|].
  { rewrite Z.add_mod, Hm by done. done. }
  split.
  - apply list.Forall_cons. split; [|done]. unfold page_ok, PGSIZE. lia.
  - apply list.NoDup_cons. split; [|done]. intros [? _]%pages_from_elem. unfold PGSIZE in *. lia.
Qed.
