(* ===== verification/CopyFacts.v ===== *)
(** * Copying an address space (vm.c)

    [copyuvm], which gives a forked child its memory, on every branch: what the
    child gets, what a failure gives back, and that the parent keeps its own. *)
From S2P Require Import Prelude Spinlock Core CString Kalloc Vm VmFacts UvmFacts.
Import Mem MemFacts.

Section CopyFacts.
Context {Ext : Type}.
Abbreviation K := (core * (pmem * Ext))%type.
Context (kend : Z) (kend_above : KERNBASE < kend).
Context (data : Z) (data_page : data mod PGSIZE = 0) (data_low : KERNLINK < data)
  (data_high : data < KERNBASE + PHYSTOP).

Abbreviation aspace := (aspace kend).
Abbreviation loose := (loose kend).
Abbreviation framed := (framed kend).
Abbreviation page_mapped := (page_mapped kend).
Abbreviation kend_high := (kend_high kend kend_above).
Abbreviation pages_share := (pages_share kend).
Abbreviation loose_bytes := (loose_bytes kend kend_above).
Abbreviation new_frame := (new_frame kend kend_above).
Abbreviation map_page_run := (map_page_run kend kend_above).
Abbreviation freevm_run := (freevm_run kend kend_above).
Abbreviation setupkvm_run := (setupkvm_run kend kend_above data data_page data_low data_high).
Abbreviation kernel_entry_user := (kernel_entry_user data data_page data_low data_high).

(** The parent: user pages [0, npages sz) are there, on frames that are not free. *)
Record user_space (m : mem) (d sz : Z) (free : list Z) : Prop := {
  us_pt : pt_ok kend m d free;
  us_page n : 0 ≤ n < npages sz →
    present m d n ∧ page_ok kend (uframe m d n) ∧ uframe m d n ∉ free }.

Section Copy.
(** The parent [pd] of size [sz] in memory [m0] with [free0] free. *)
Context (m0 : mem) (pd sz : Z) (free0 : list Z) (c : core) (x : Ext).
Hypotheses (Hpar : user_space m0 pd sz free0) (Hsz : 0 ≤ sz ≤ KERNBASE)
  (Hfree0 : Forall (page_ok kend) free0).

(** The child [d] with [k] pages copied. *)
Record copied (k d : Z) (pm : pmem) (free : list Z) : Prop := {
  co_lock : lock_free c pm;
  co_kmem : kmem_inv kend pm free;
  co_space : aspace (pm_mem pm) d free;
  co_present n : 0 ≤ n < UPAGES → present (pm_mem pm) d n ↔ n < k;
  co_flags n : 0 ≤ n < k → PTE_FLAGS (entry (pm_mem pm) d n) = PTE_FLAGS (entry m0 pd n);
  co_data n o : 0 ≤ n < k → 0 ≤ o < PGSIZE →
    rd (pm_mem pm) (uframe (pm_mem pm) d n + o) = rd m0 (uframe m0 pd n + o);
  co_kernel n : UPAGES ≤ n < 2 ^ 20 → entry (pm_mem pm) d n = kernel_entry (kmap data) 0 n;
  co_pages p : p ∈ free ∨ owned (pm_mem pm) d p ↔ p ∈ free0;
  co_old b : (∀ p, p ∈ free0 → ¬ in_page p b) → rd (pm_mem pm) b = rd m0 b }.

(** The parent's tables and frames are where they were. *)
Lemma parent_same m :
  (∀ b, (∀ p, p ∈ free0 → ¬ in_page p b) → rd m b = rd m0 b) →
  (∀ i, dir_index i → pde m pd i = pde m0 pd i) ∧
  (∀ n, 0 ≤ n < 2 ^ 20 → entry m pd n = entry m0 pd n) ∧
  (∀ n o, 0 ≤ n < npages sz → 0 ≤ o < PGSIZE →
     rd m (uframe m0 pd n + o) = rd m0 (uframe m0 pd n + o)).
Proof.
  intros H. destruct (us_pt _ _ _ _ Hpar) as [[Hd Hdf] Ht _].
  rewrite list.Forall_forall in Hfree0.
  destruct (table_frame m0 m pd) as (P & E & _).
  { intros b Hb. apply H. intros p Hp Hpb. apply Hb. split_and!.
    - intros Hdb. apply Hdf. replace pd with p; [done|]. eapply pages_share; eauto.
    - intros i Hi Hh Hib. destruct (Ht i Hi Hh) as (Hto & Htf & _). apply Htf.
      replace (tab m0 pd i) with p; [done|]. eapply pages_share; eauto.
    - by intros q ?%elem_of_nil. }
  split_and!; [done..|]. intros n o Hn Hoff. apply H. intros p Hp Hpb.
  destruct (us_page _ _ _ _ Hpar n Hn) as (_ & Hu & Huf). apply Huf.
  replace (uframe m0 pd n) with p; [done|]. eapply pages_share; eauto. unfold in_page. lia.
Qed.

(** The copy has failed: what the child [d] owns, and the page nobody does. *)
Record copy_failed (k d : Z) (pm : pmem) (leak : list Z) : Prop := {
  cf_lock : lock_free c pm;
  cf_kmem : kmem_inv kend pm [];
  cf_space : aspace (pm_mem pm) d [];
  cf_present n : 0 ≤ n < UPAGES → present (pm_mem pm) d n → n < k;
  cf_pages p : p ∈ leak ∨ owned (pm_mem pm) d p ↔ p ∈ free0;
  cf_leak : (length leak ≤ 1)%nat ∧ ∀ p, p ∈ leak → ¬ owned (pm_mem pm) d p;
  cf_old b : (∀ p, p ∈ free0 → ¬ in_page p b) → rd (pm_mem pm) b = rd m0 b }.

(** What a turn reads in the parent's table. *)
Lemma parent_pte m k :
  (∀ b, (∀ p, p ∈ free0 → ¬ in_page p b) → rd m b = rd m0 b) → 0 ≤ k < npages sz →
  has m pd (k / 1024) ∧ tab m pd (k / 1024) + 4 * (k mod 1024) ≠ 0 ∧
  ld32 m (tab m pd (k / 1024) + 4 * (k mod 1024)) = entry m0 pd k.
Proof.
  intros H Hk. pose proof (npages_bound sz Hsz). destruct (parent_same m H) as (P & E & _).
  assert (Hku : 0 ≤ k < UPAGES) by lia. destruct (page_index k (upage k Hku)) as [Hi Hj].
  destruct (us_page _ _ _ _ Hpar k Hk) as (Hp & _).
  assert (Hh0 : has m0 pd (k / 1024)) by (unfold present, entry in Hp; by case_decide).
  assert (Hh : has m pd (k / 1024)) by (unfold has; by rewrite P).
  destruct (pt_tab _ _ _ _ (us_pt _ _ _ _ Hpar) _ Hi Hh0) as (Ht & _).
  pose proof (page_ok_range kend kend_high _ Ht). split_and!; [done| |].
  - unfold tab in *. rewrite P by done. unfold dir_index in Hj. lia.
  - rewrite <-E by (by apply upage). unfold entry. by rewrite decide_True.
Qed.

(** The start of a turn. *)
Lemma copy_turn_start f d k pm :
  (∀ b, (∀ p, p ∈ free0 → ¬ in_page p b) → rd (pm_mem pm) b = rd m0 b) → lock_free c pm →
  0 ≤ k < npages sz →
  copyuvm_loop kend (S f) pd sz d (k * PGSIZE) (c, (pm, x)) =
    (if freelist pm =? 0 then freevm kend d ;; mret 0 else
     memmove_k (freelist pm) (uframe m0 pd k) PGSIZE ;;
     r ← mappages d (k * PGSIZE) PGSIZE (v2p (freelist pm)) (PTE_FLAGS (entry m0 pd k));
     if r <? 0 then freevm kend d ;; mret 0
     else copyuvm_loop kend f pd sz d ((k + 1) * PGSIZE)) (c, (kalloced pm, x)).
Proof.
  intros H Hlk Hk. destruct (parent_pte _ k H Hk) as (Hh & H0 & He).
  pose proof (npages_bound sz Hsz). assert (Hku : 0 ≤ k < UPAGES) by lia.
  destruct (us_page _ _ _ _ Hpar k Hk) as (Hp & _).
  cbn [copyuvm_loop]. rewrite npages_lt, (proj2 (Z.ltb_lt _ _) (proj2 Hk)).
  rewrite (bind_eq _ _ _ _ _ (walk_page pd k c pm x (upage k Hku))), decide_True by done.
  rewrite (proj2 (Z.eqb_neq _ _) H0). erewrite bind_eq by reflexivity. cbn beta.
  change (pm_mem (fst (snd (c, (pm, x))))) with (pm_mem pm). rewrite He.
  rewrite (proj2 (Z.eqb_neq _ _) Hp).
  rewrite (bind_eq _ _ _ _ _ (kalloc_run kend kend_high c pm x Hlk)).
  rewrite u32_small by (unfold UPAGES, PGSIZE in *; lia).
  by replace (k * PGSIZE + PGSIZE) with ((k + 1) * PGSIZE) by lia.
Qed.

Lemma copy_frame k d v pm free1 :
  copied k d pm (v :: free1) → 0 ≤ k < npages sz →
  let m1 := memmove (pm_mem (kalloced pm)) v (uframe m0 pd k) PGSIZE in
  framed d v pm (set_mem m1 (kalloced pm)) free1 ∧
  ∀ o, 0 ≤ o < PGSIZE → rd m1 (v + o) = rd m0 (uframe m0 pd k + o).
Proof.
  intros [C1 C2 C3 _ _ _ _ _ C9] Hk.
  destruct (kalloced_inv kend kend_high pm _ C2) as (_ & _ & Hm & Hu). rewrite Hm.
  set (m1 := memmove (pm_mem pm) v (uframe m0 pd k) PGSIZE).
  assert (Hw : ∀ b, ¬ in_page v b → rd m1 b = rd (pm_mem pm) b).
  { intros b Hb. unfold m1. rewrite rd_memmove by done. by rewrite decide_False. }
  split; [by apply (new_frame pm d v free1 m1)|].
  intros o Ho. unfold m1. rewrite rd_memmove by done. rewrite decide_True by lia.
  replace (v + o - v) with o by lia. by apply (parent_same _ C9).
Qed.

(** One turn's frame [v], tried at page [k]. *)
Section Turn.
Context (k d v r : Z) (pm pm1 pm2 : pmem) (free1 free2 : list Z).
Hypotheses (C : copied k d pm (v :: free1)) (Hk : 0 ≤ k < npages sz) (F : framed d v pm pm1 free1)
  (D : ∀ o, 0 ≤ o < PGSIZE → rd (pm_mem pm1) (v + o) = rd m0 (uframe m0 pd k + o))
  (M : page_mapped k v (PTE_FLAGS (entry m0 pd k)) d r pm1 pm2 free1 free2).

Lemma turn_page : 0 ≤ k < UPAGES ∧ ¬ present (pm_mem pm) d k.
Proof.
  pose proof (npages_bound sz Hsz). assert (Hku : 0 ≤ k < UPAGES) by lia. split; [done|].
  rewrite (co_present _ _ _ _ C k Hku). lia.
Qed.

Lemma turn_lock : lock_free c pm2.
Proof.
  unfold lock_free. rewrite (fm_lock kend k _ d v r pm pm1 pm2 free1 free2 F M). apply C.
Qed.

Lemma turn_pages p : p ∈ v :: free1 ∨ owned (pm_mem pm) d p ↔ p ∈ free0.
Proof. apply (co_pages _ _ _ _ C). Qed.

(** Bytes outside the pages that were free at the start stay. *)
Lemma turn_old b : (∀ p, p ∈ free0 → ¬ in_page p b) → rd (pm_mem pm2) b = rd m0 b.
Proof.
  intros Hb. rewrite <-(co_old _ _ _ _ C b Hb). eapply (fm_foreign kend k); [exact F|exact M|].
  split_and!.
  - apply Hb, turn_pages. right. by left.
  - intros i Hi Hh. apply Hb, turn_pages. right; right; left. by exists i.
  - intros p Hp. apply Hb, turn_pages. by left.
Qed.

Lemma turn_owned p :
  p ∈ free2 ∨ owned (pm_mem pm2) d p ↔ p ∈ free1 ∨ owned (pm_mem pm) d p ∨ r = 0 ∧ p = v.
Proof.
  destruct turn_page as [Hku Hnp].
  by apply (fm_owned kend kend_above k (PTE_FLAGS (entry m0 pd k)) d v r pm pm1 pm2 free1 free2 F M Hku
    (PTE_FLAGS_range _)).
Qed.

Lemma copy_turn_ok : r = 0 → copied (k + 1) d pm2 free2.
Proof.
  intros Hr. destruct turn_page as [Hku Hnp]. destruct (us_page _ _ _ _ Hpar k Hk) as (Hp & _).
  destruct (fm_entry kend kend_above k _ d v r pm pm1 pm2 free1 free2 F M Hku (PTE_FLAGS_range _) Hnp)
    as [(_ & E1 & E2 & E3)|[? _]]; [|lia]. rewrite PTE_FLAGS_present in E3 by done.
  pose proof (fm_other kend k _ d v r pm pm1 pm2 free1 free2 F M) as Ho.
  pose proof (fm_lift kend k _ d v r pm pm1 pm2 free1 free2 F M) as Hl.
  split.
  - exact turn_lock.
  - apply M.
  - apply M.
  - intros n Hn. destruct (decide (n = k)) as [->|Hne]; [split; [lia|done]|].
    destruct (Hl n Hn Hne) as [-> _]. rewrite (co_present _ _ _ _ C n Hn). lia.
  - intros n Hn. destruct (decide (n = k)) as [->|Hne]; [done|].
    rewrite Ho by (unfold UPAGES in *; lia). apply (co_flags _ _ _ _ C). lia.
  - intros n o Hn Hoff. destruct (decide (n = k)) as [->|Hne].
    + rewrite E2, <-D by done.
      by eapply (fm_keep kend kend_above k); [exact F|exact M|apply F|].
    + assert (Hnu : 0 ≤ n < UPAGES) by lia. destruct (Hl n Hnu Hne) as [_ ->].
      rewrite <-(co_data _ _ _ _ C n o) by lia.
      eapply (fm_frame kend kend_above k); [exact F|exact M|done| |done].
      apply (co_present _ _ _ _ C); lia.
  - intros n Hn. rewrite Ho by (unfold UPAGES in *; lia). by apply (co_kernel _ _ _ _ C).
  - intros p. rewrite turn_owned, <-turn_pages, elem_of_cons. tauto.
  - exact turn_old.
Qed.

Lemma copy_turn_failed : r = -1 → free2 = [] → copy_failed k d pm2 [v].
Proof.
  intros Hr Hf. destruct turn_page as [Hku Hnp].
  pose proof turn_owned as Hown. rewrite Hf in Hown. pose proof M as M'. rewrite Hf in M'. split.
  - exact turn_lock.
  - apply M'.
  - apply M'.
  - intros n Hn Hpn. apply (co_present _ _ _ _ C n Hn).
    destruct (decide (n = k)) as [->|Hne].
    + by destruct (fm_entry kend kend_above k _ d v r pm pm1 pm2 free1 free2 F M Hku (PTE_FLAGS_range _) Hnp)
        as [(? & _)|(_ & _ & ?)]; [lia|].
    + by apply (fm_lift kend k _ d v r pm pm1 pm2 free1 free2 F M n Hn Hne).
  - intros p. specialize (Hown p). rewrite <-turn_pages, !elem_of_cons, elem_of_nil.
    rewrite elem_of_nil in Hown. assert (r ≠ 0) by lia. tauto.
  - split; [simpl; lia|]. intros p ->%list_elem_of_singleton.
    by apply (fm_lost kend kend_above k _ d v r pm pm1 pm2 free1 free2 F M Hku (PTE_FLAGS_range _) Hnp).
  - exact turn_old.
Qed.

End Turn.

Lemma copy_turn f k d pm free :
  copied k d pm free → 0 ≤ k < npages sz →
  (∃ pm1 free1, copyuvm_loop kend (S f) pd sz d (k * PGSIZE) (c, (pm, x)) =
     copyuvm_loop kend f pd sz d ((k + 1) * PGSIZE) (c, (pm1, x)) ∧ copied (k + 1) d pm1 free1) ∨
  (∃ pm1 leak, copyuvm_loop kend (S f) pd sz d (k * PGSIZE) (c, (pm, x)) =
     (freevm kend d ;; mret 0) (c, (pm1, x)) ∧ copy_failed k d pm1 leak).
Proof.
  intros C Hk. pose proof (npages_bound sz Hsz). assert (Hku : 0 ≤ k < UPAGES) by lia.
  rewrite (copy_turn_start f d k pm (co_old _ _ _ _ C) (co_lock _ _ _ _ C) Hk).
  destruct (kalloced_inv kend kend_high pm free (co_kmem _ _ _ _ C)) as (Hka & -> & Hm & Hu).
  destruct free as [|v free1]; cbn [head default].
  { right. exists (kalloced pm), []. split; [done|]. destruct C. split; rewrite ?Hm; try done.
    - unfold lock_free in *. by rewrite Hu.
    - intros n Hn. by apply co_present0.
    - split; [simpl; lia|]. by intros p ?%elem_of_nil. }
  destruct (copy_frame k d v pm free1 C Hk) as [F D]. pose proof (lo_ok _ _ _ _ _ (fd_loose _ _ _ _ _ _ F)) as Hv.
  pose proof (page_ok_range kend kend_high v Hv). change (id v) with v.
  rewrite (proj2 (Z.eqb_neq v 0)) by lia. cbv iota.
  rewrite (bind_eq (memmove_k v (uframe m0 pd k) PGSIZE) _ (c, (kalloced pm, x)) () _ eq_refl).
  cbn [fst snd].
  set (pm1 := set_mem _ (kalloced pm)) in *.
  assert (Hnp : ¬ present (pm_mem pm1) d k).
  { destruct (framed_lift kend d v pm pm1 free1 k F Hku) as [-> _]. rewrite (co_present _ _ _ _ C k Hku). lia. }
  destruct (map_page_run d k v (PTE_FLAGS (entry m0 pd k)) c pm1 x free1) as (r & pm2 & free2 & R & M);
    [unfold lock_free; rewrite (fd_lock _ _ _ _ _ _ F); apply C|apply F|apply F|apply F|done|done|
     apply PTE_FLAGS_range|apply F|].
  rewrite (bind_eq _ _ _ _ _ R). pose proof (pm_result _ _ _ _ _ _ _ _ _ _ M) as Hr.
  destruct Hr as [(-> & -> & _)|(-> & _)]; [right|left].
  - exists pm2, [v]. split; [done|]. by eapply (copy_turn_failed k d v (-1) pm pm1 pm2 free1 []).
  - exists pm2, free2. split; [done|]. by eapply (copy_turn_ok k d v 0 pm pm1 pm2 free1 free2).
Qed.

(** What the caller gets when the copy fails. *)
Definition copy_result_none (pm' : pmem) (free' : list Z) : Prop :=
  lock_free c pm' ∧ kmem_inv kend pm' free' ∧ (∀ b, (∀ p, p ∈ free0 → ¬ in_page p b) → rd (pm_mem pm') b = rd m0 b) ∧
  Z.of_nat (length free0) ≤ npages sz + 1026 ∧
  ∃ leak, (length leak ≤ 1)%nat ∧ free0 ≡ₚ leak ++ free'.

Lemma owned_bound m d leak k l :
  NoDup l → 0 ≤ k → (∀ n, 0 ≤ n < UPAGES → present m d n → n < k) →
  (∀ p, p ∈ l → p ∈ leak ∨ owned m d p) → Z.of_nat (length l) ≤ Z.of_nat (length leak) + k + 1025.
Proof.
  intros Hnd Hk Hp Hl. set (frames := uframe m d <$> seqZ 0 k).
  enough (Z.of_nat (length l) ≤ Z.of_nat (length (d :: leak ++ frames)) + 1024) as H.
  { unfold frames in H. simpl in H. rewrite length_app, length_fmap, length_seqZ in H. lia. }
  apply (table_pages_bound m d); [done|]. intros p Hin. rewrite elem_of_cons, elem_of_app.
  destruct (Hl p Hin) as [?|[->|[?|(n & Hn & Hpn & <-)]]]; [tauto..|]. left; right; right.
  apply list_elem_of_fmap. exists n. split; [done|]. apply elem_of_seqZ. specialize (Hp n Hn Hpn). lia.
Qed.

Lemma copy_failed_run k d pm leak :
  NoDup free0 → 0 ≤ k ≤ npages sz → copy_failed k d pm leak →
  ∃ pm' free', (freevm kend d ;; mret 0) (c, (pm, x)) = Ret 0 (c, (pm', x)) ∧
    copy_result_none pm' free'.
Proof.
  intros Hnd Hk [F1 F2 F3 Hpr F4 [F5 F5'] F6].
  destruct (freevm_run d c pm x [] F1 F2 F3) as (pm' & free' & R & K1 & K2 & K3 & K4).
  exists pm', free'. split; [by rewrite (bind_eq _ _ _ _ _ R)|].
  assert (Hf : ∀ p, p ∈ free' ↔ owned (pm_mem pm) d p).
  { intros p. rewrite K4, elem_of_nil. tauto. }
  split_and!; [by unfold lock_free in *; rewrite K2|done| | |].
  - intros b Hb. rewrite K3; [by apply F6|]. intros p Hp. apply Hb, F4. right. by apply Hf.
  - pose proof (owned_bound (pm_mem pm) d leak k free0 Hnd ltac:(lia) Hpr) as H.
    enough (Z.of_nat (length free0) ≤ Z.of_nat (length leak) + k + 1025) by lia.
    apply H. intros p Hp. by apply F4.
  - exists leak. split; [done|]. apply NoDup_Permutation; [done| |].
    + apply list.NoDup_app. split_and!; [|by intros p Hp ?%Hf; destruct (F5' p Hp)|apply K1].
      destruct leak as [|v [|? ?]]; [constructor|apply NoDup_singleton|simpl in F5; lia].
    + intros p. rewrite elem_of_app, Hf. symmetry. apply F4.
Qed.

Lemma copy_loop fuel k d pm free :
  NoDup free0 → copied k d pm free → 0 ≤ k ≤ npages sz → npages sz - k ≤ Z.of_nat fuel →
  ∃ r pm' free', copyuvm_loop kend (S fuel) pd sz d (k * PGSIZE) (c, (pm, x)) = Ret r (c, (pm', x)) ∧
    (r = d ∧ copied (npages sz) d pm' free' ∨ r = 0 ∧ copy_result_none pm' free').
Proof.
  intros Hnd. revert k pm free. induction fuel as [|fuel IH]; intros k pm free C Hk Hf;
    (destruct (decide (k = npages sz)) as [->|Hne];
     [exists d, pm, free; split; [|by left];
       cbn [copyuvm_loop]; rewrite npages_lt; by rewrite Z.ltb_irrefl|]); [lia|].
  destruct (copy_turn (S fuel) k d pm free C ltac:(lia)) as [(pm1 & free1 & -> & C1)|(pm1 & leak & -> & F)].
  - apply (IH (k + 1) pm1 free1 C1); lia.
  - destruct (copy_failed_run k d pm1 leak Hnd ltac:(lia) F) as (pm' & free' & -> & R).
    exists 0, pm', free'. split; [done|by right].
Qed.

End Copy.

(** What [copyuvm] leaves when it succeeds: the child has the parent's pages, with
    the parent's flags and bytes, on pages that were free, and the kernel's map. *)
Record child (m0 : mem) (pd sz : Z) (free0 : list Z) (d : Z) (m : mem) (free : list Z) : Prop := {
  ch_space : aspace m d free;
  ch_present n : 0 ≤ n < UPAGES → present m d n ↔ n < npages sz;
  ch_flags n : 0 ≤ n < npages sz → PTE_FLAGS (entry m d n) = PTE_FLAGS (entry m0 pd n);
  ch_data n o : 0 ≤ n < npages sz → 0 ≤ o < PGSIZE → rd m (uframe m d n + o) = rd m0 (uframe m0 pd n + o);
  ch_kernel n : UPAGES ≤ n < 2 ^ 20 → entry m d n = kernel_entry (kmap data) 0 n;
  ch_pages p : p ∈ free ∨ owned m d p ↔ p ∈ free0 }.

Lemma copyuvm_run c pm (x : Ext) pd sz free :
  lock_free c pm → kmem_inv kend pm free → user_space (pm_mem pm) pd sz free → 0 ≤ sz ≤ KERNBASE →
  ∃ r pm' free', copyuvm kend data pd sz (c, (pm, x)) = Ret r (c, (pm', x)) ∧
    lock_free c pm' ∧ kmem_inv kend pm' free' ∧ untouched free pm pm' ∧
    (r ≠ 0 ∧ child (pm_mem pm) pd sz free r (pm_mem pm') free' ∨
     r = 0 ∧ Z.of_nat (length free) ≤ npages sz + 1026 ∧
     (free' = [] ∧ Z.of_nat (length free) ≤ 65 ∨
      ∃ leak, (length leak ≤ 1)%nat ∧ free ≡ₚ leak ++ free')).
Proof.
  intros Hlk Hk Hus Hsz. pose proof (npages_bound sz Hsz).
  assert (Hpo : Forall (page_ok kend) free).
  { apply list.Forall_forall. intros p Hp. eapply (linked_ok kend kend_high); [apply Hk|done]. }
  destruct (setupkvm_run c pm x free Hlk Hk) as (d & pm1 & free1 & R & K1 & K2 & _ & K4 & Hd).
  unfold copyuvm. rewrite (bind_eq _ _ _ _ _ R).
  destruct Hd as [(-> & -> & Hb)|(Hd0 & Hpt & Hpg & He & _)].
  { exists 0, pm1, []. split_and!; try done; [by unfold lock_free in *; rewrite K2|].
    right. split_and!; [done|lia|left; split; [done|lia]]. }
  rewrite (proj2 (Z.eqb_neq _ _) Hd0).
  assert (Hno : ∀ n, 0 ≤ n < UPAGES → ¬ present (pm_mem pm1) d n).
  { intros n Hn. unfold present. rewrite He by (by apply upage).
    rewrite kernel_entry_user by lia. by intros H'. }
  assert (C : copied (pm_mem pm) pd free c 0 d pm1 free1).
  { split; try done; try (intros; lia).
    - by unfold lock_free in *; rewrite K2.
    - constructor; [done|intros n Hn Hp|intros n n' Hn _ Hp]; by destruct (Hno n Hn).
    - intros n Hn. split; [intros Hp; by destruct (Hno n Hn)|lia].
    - intros n Hn. apply He. unfold UPAGES in Hn. lia.
    - intros p. rewrite <-Hpg. unfold owned. split; [|naive_solver].
      intros [?|[?|[?|(n & Hn & Hp & _)]]]; [tauto..|]. by destruct (Hno n Hn). }
  destruct (copy_loop (pm_mem pm) pd sz free c x Hus Hsz Hpo (S (Z.to_nat (sz / PGSIZE))) 0 d pm1 free1)
    as (r & pm' & free' & R' & Hr); [apply Hk|done|lia| |].
  { unfold npages, PGSIZE. pose proof (Z.div_pos sz 4096).
    pose proof (Z.div_lt_upper_bound (sz + 4096 - 1) 4096 (sz / 4096 + 2)).
    pose proof (Z.div_mod sz 4096). pose proof (Z.mod_pos_bound sz 4096). lia. }
  exists r, pm', free'. split; [exact R'|]. destruct Hr as [[-> C']|(-> & N1 & N2 & N3 & N4 & N5)].
  - destruct C'. split_and!; [done..|]. left. split; [done|]. by split.
  - split_and!; [done..|]. right. split_and!; [done..|by right].
Qed.

(** C10. [copyuvm] of a parent's [sz] bytes always returns.  When it succeeds the
    child has a page for each of the parent's, with the same flags and the same
    bytes, and the kernel's map; every page it is made of was free before.  It
    fails only when fewer pages are free than the directory, the tables and the
    copies can need.  Then one of two things holds.  Either the kernel's map
    itself did not fit: at most 65 pages were free and all of them are lost.  Or
    every page is free again but at most one, the frame that [mappages] found no
    table for.  In every case no byte outside the pages that were free changes:
    the parent keeps its memory. *)
Theorem copyuvm_correct c pm (x : Ext) pd sz free :
  lock_free c pm → kmem_inv kend pm free → user_space (pm_mem pm) pd sz free → 0 ≤ sz ≤ KERNBASE →
  ∃ r pm' free', copyuvm kend data pd sz (c, (pm, x)) = Ret r (c, (pm', x)) ∧
    kmem_inv kend pm' free' ∧ untouched free pm pm' ∧
    (r ≠ 0 ∧ child (pm_mem pm) pd sz free r (pm_mem pm') free' ∨
     r = 0 ∧ Z.of_nat (length free) ≤ npages sz + 1026 ∧
     (free' = [] ∧ Z.of_nat (length free) ≤ 65 ∨
      ∃ leak, (length leak ≤ 1)%nat ∧ free ≡ₚ leak ++ free')).
Proof.
  intros Hlk Hk Hus Hsz.
  destruct (copyuvm_run c pm x pd sz free Hlk Hk Hus Hsz) as (r & pm' & free' & ? & _ & ? & ? & ?).
  exists r, pm', free'. auto.
Qed.

(** C20. [freevm] of an address space puts its directory, its tables and the frames
    of its user pages on the free list, each once and nothing else, and writes
    only to free pages.  So a child that is copied and freed leaves the free
    pages of before: no page is lost over its life. *)
Theorem freevm_correct c pm (x : Ext) :
  (∀ d free, lock_free c pm → kmem_inv kend pm free → aspace (pm_mem pm) d free →
     ∃ pm' free', freevm kend d (c, (pm, x)) = Ret () (c, (pm', x)) ∧ kmem_inv kend pm' free' ∧
       untouched free' pm pm' ∧ ∀ p, p ∈ free' ↔ p ∈ free ∨ owned (pm_mem pm) d p) ∧
  (∀ pd sz free, lock_free c pm → kmem_inv kend pm free → user_space (pm_mem pm) pd sz free →
     0 ≤ sz ≤ KERNBASE → npages sz + 1026 < Z.of_nat (length free) →
     ∃ pm' free', (d ← copyuvm kend data pd sz; freevm kend d) (c, (pm, x)) = Ret () (c, (pm', x)) ∧
       kmem_inv kend pm' free' ∧ free' ≡ₚ free ∧ untouched free pm pm').
Proof.
  split.
  - intros d free Hlk Hk Ha. destruct (freevm_run d c pm x free Hlk Hk Ha) as (pm' & free' & ? & ? & _ & ? & ?).
    exists pm', free'. auto.
  - intros pd sz free Hlk Hk Hus Hsz Hlen.
    destruct (copyuvm_run c pm x pd sz free Hlk Hk Hus Hsz) as (r & pm1 & free1 & R1 & L1 & K1 & U1 & Hr).
    destruct Hr as [[_ C]|(_ & ? & _)]; [|lia]. rewrite (bind_eq _ _ _ _ _ R1).
    destruct (freevm_run r c pm1 x free1 L1 K1 (ch_space _ _ _ _ _ _ _ C)) as (pm2 & free2 & R2 & K2 & _ & U2 & P2).
    assert (Hp : ∀ p, p ∈ free2 ↔ p ∈ free) by (intros p; by rewrite P2, (ch_pages _ _ _ _ _ _ _ C)).
    exists pm2, free2. split_and!; [done..| |].
    + apply NoDup_Permutation; [apply K2|apply Hk|done].
    + intros b Hb. rewrite U2, U1; [done..|]. intros p ?%Hp. by apply Hb.
Qed.

End CopyFacts.

(** ** Concrete instances *)

(** 1100 free pages and a parent with one page. *)
Definition data0 : Z := 0x80108000.
Definition free_pages : list Z := pages_from 0x80300000 1100.
Definition mem_parent : mem := chain free_pages mem_user.
Definition pm_parent : pmem := mkPmem mem_parent 0x80300000 false mmu0.

Lemma pm_parent_ok :
  kmem_inv kend0 pm_parent free_pages ∧
  ∀ b, b < 0x80300000 → rd mem_parent b = rd mem_user b.
Proof.
  destruct (pages_from_ok kend0 1100 0x80300000) as [H1 H2]; [done..|].
  destruct (chain_linked kend0 free_pages mem_user ltac:(done) H1 H2) as [L R].
  split; [split; [exact L|exact H2]|]. intros b Hb. apply R. intros p Hp.
  apply pages_from_elem in Hp. unfold in_page. lia.
Qed.

#[local] Opaque mem_parent.

Lemma ld32_parent a : a + 4 ≤ 0x80300000 → ld32 mem_parent a = ld32 mem_user a.
Proof. intros Ha. apply ld32_ext. intros b Hb. apply pm_parent_ok. lia. Qed.

Lemma parent_has i : dir_index i → has mem_parent dir0 i → i = 0.
Proof.
  unfold has, pde. intros Hi. rewrite ld32_parent by (unfold dir_index, dir0 in *; lia).
  pose proof (mem_user_pde i Hi) as E. unfold pde in E. rewrite E. by case_decide.
Qed.

Lemma parent_tab : has mem_parent dir0 0 ∧ tab mem_parent dir0 0 = tab0.
Proof.
  unfold has, tab, pde. rewrite ld32_parent by (unfold dir0; lia). by vm_compute.
Qed.

Lemma parent_entry : entry mem_parent dir0 0 = 0x202007.
Proof.
  unfold entry. change (0 / 1024) with 0. change (0 mod 1024) with 0.
  destruct parent_tab as [H ->]. rewrite decide_True by exact H.
  rewrite ld32_parent by (unfold tab0; lia). clear H. by vm_compute.
Qed.

Lemma parent_space : user_space kend0 mem_parent dir0 4096 free_pages.
Proof.
  assert (Hf : ∀ p, p ∈ free_pages → 0x80300000 ≤ p) by (by intros p [? _]%pages_from_elem).
  assert (Hp : page_ok kend0 dir0 ∧ page_ok kend0 tab0 ∧ page_ok kend0 page0) by (by vm_compute).
  destruct Hp as (Hd & Ht & Hu). split; [constructor|].
  - split; [exact Hd|]. intros H%Hf. exact (H eq_refl).
  - intros i Hi Hh. rewrite (parent_has i Hi Hh), (proj2 parent_tab).
    split_and!; [exact Ht| |discriminate]. intros H%Hf. exact (H eq_refl).
  - intros i j Hi Hj Hh Hh' _. by rewrite (parent_has i Hi Hh), (parent_has j Hj Hh').
  - intros n Hn. change (npages 4096) with 1 in Hn. replace n with 0 by lia.
    unfold present, uframe. rewrite parent_entry. change (p2v (PTE_ADDR 0x202007)) with page0.
    split_and!; [discriminate|exact Hu|]. intros H%Hf. exact (H eq_refl).
Qed.

Lemma copyuvm_correct_witness :
  ∃ r pm' free', copyuvm kend0 data0 dir0 4096 (core0, (pm_parent, ())) = Ret r (core0, (pm', ())) ∧
    kmem_inv kend0 pm' free' ∧ untouched free_pages pm_parent pm' ∧
    r ≠ 0 ∧ child kend0 data0 mem_parent dir0 4096 free_pages r (pm_mem pm') free'.
Proof.
  destruct (copyuvm_correct kend0 eq_refl data0 eq_refl eq_refl eq_refl core0 pm_parent () dir0 4096 free_pages)
    as (r & pm' & free' & R & K & U & [[H0 H]|(_ & H & _)]).
  - by intros ?.
  - apply pm_parent_ok.
  - apply parent_space.
  - done.
  - exists r, pm', free'. split; [exact R|]. split; [exact K|]. split; [exact U|]. split; [exact H0|exact H].
  - exfalso. apply H. vm_compute. reflexivity.
Defined.

Lemma freevm_correct_witness :
  ∃ pm' free', (d ← copyuvm kend0 data0 dir0 4096; freevm kend0 d) (core0, (pm_parent, ())) =
      Ret () (core0, (pm', ())) ∧
    kmem_inv kend0 pm' free' ∧ free' ≡ₚ free_pages ∧ untouched free_pages pm_parent pm'.
Proof.
  apply (freevm_correct kend0 eq_refl data0 eq_refl eq_refl eq_refl core0 pm_parent ()).
  - by intros ?.
  - apply pm_parent_ok.
  - apply parent_space.
  - done.
  - done.
Defined.
