(* ===== verification/GrowFacts.v ===== *)
(** * Growing an address space (vm.c)

    [allocuvm], behind sbrk and exec, on every branch: the new pages, what a
    failure leaves, and the page it loses when there is none for a table. *)
From S2P Require Import Prelude Spinlock Core CString Kalloc Vm VmFacts UvmFacts.
Import Mem MemFacts.

Section GrowFacts.
Context {Ext : Type}.
Abbreviation K := (core * (pmem * Ext))%type.
Context (kend : Z) (kend_above : KERNBASE < kend).

Abbreviation kend_high := (kend_high kend kend_above).

(** [d] has grown by the user pages from [lo] to [k], of those up to [hi]; the
    pages [leak] have been lost. *)
Record grew (lo hi k d : Z) (leak : list Z) (pm0 pm : pmem) (free0 free : list Z) : Prop := {
  gw_lock : use_lock pm = use_lock pm0;
  gw_kmem : kmem_inv kend pm free;
  gw_space : aspace kend (pm_mem pm) d free;
  gw_new n : lo ≤ n < k → present (pm_mem pm) d n ∧
    PTE_FLAGS (entry (pm_mem pm) d n) = Z.lor (Z.lor PTE_W PTE_U) PTE_P ∧
    uframe (pm_mem pm) d n ∈ free0 ∧
    ∀ o, 0 ≤ o < PGSIZE → rd (pm_mem pm) (uframe (pm_mem pm) d n + o) = 0;
  gw_rest n : k ≤ n < hi → ¬ present (pm_mem pm) d n;
  gw_old n : 0 ≤ n < 2 ^ 20 → ¬ (lo ≤ n < hi) → entry (pm_mem pm) d n = entry (pm_mem pm0) d n;
  gw_sub p : p ∈ free → p ∈ free0;
  gw_pages p : p ∈ leak ∨ p ∈ free ∨ owned (pm_mem pm) d p ↔ p ∈ free0 ∨ owned (pm_mem pm0) d p;
  gw_foreign b : foreign (pm_mem pm0) d free0 b →
    rd (pm_mem pm) b = rd (pm_mem pm0) b ∧ foreign (pm_mem pm) d free b }.

Section Grow.
Context (d oldsz newsz : Z) (pm0 : pmem) (free0 : list Z) (c : core) (x : Ext).
Hypotheses (Hlk0 : lock_free c pm0) (Hk0 : kmem_inv kend pm0 free0)
  (Ha0 : aspace kend (pm_mem pm0) d free0)
  (Hold : 0 ≤ oldsz ≤ newsz) (Hnew : newsz < KERNBASE).
Abbreviation lo := (npages oldsz).
Abbreviation hi := (npages newsz).
Hypothesis (Hfresh : ∀ n, lo ≤ n < hi → ¬ present (pm_mem pm0) d n).

Lemma bounds : 0 ≤ lo ≤ hi ∧ hi ≤ UPAGES.
Proof.
  pose proof (npages_bound oldsz ltac:(lia)). pose proof (npages_bound newsz ltac:(lia)).
  assert (lo ≤ hi); [|lia]. unfold npages. apply Z.div_le_mono; [done|lia].
Qed.

Lemma grew_start : grew lo hi lo d [] pm0 pm0 free0 free0.
Proof. split; try done. - intros n Hn. lia. - intros p. rewrite elem_of_nil. tauto. Qed.

Lemma grew_lock k leak pm free : grew lo hi k d leak pm0 pm free0 free → lock_free c pm.
Proof. intros G. unfold lock_free in *. by rewrite (gw_lock _ _ _ _ _ _ _ _ _ G). Qed.

(** An old page's frame is none of the pages that were free. *)
Lemma old_frame k leak pm free n :
  grew lo hi k d leak pm0 pm free0 free → 0 ≤ n < UPAGES → ¬ (lo ≤ n < hi) →
  present (pm_mem pm) d n → present (pm_mem pm0) d n ∧ uframe (pm_mem pm) d n = uframe (pm_mem pm0) d n ∧
  uframe (pm_mem pm) d n ∉ free0.
Proof.
  intros G Hn Hr Hp. pose proof (gw_old _ _ _ _ _ _ _ _ _ G n (upage n Hn) Hr) as E.
  assert (Hp0 : present (pm_mem pm0) d n) by (unfold present in *; by rewrite <-E).
  assert (Hu : uframe (pm_mem pm) d n = uframe (pm_mem pm0) d n) by (unfold uframe; by rewrite E).
  split_and!; [done..|]. rewrite Hu. by apply Ha0.
Qed.

(** When memory has run out, fewer pages were free than growing can need. *)
Lemma grew_short k leak pm :
  grew lo hi k d leak pm0 pm free0 [] → (length leak ≤ 1)%nat → lo ≤ k ≤ hi →
  Z.of_nat (length free0) ≤ hi - lo + 1025.
Proof.
  intros G Hl Hk. pose proof bounds as Hb. set (frames := uframe (pm_mem pm) d <$> seqZ lo (k - lo)).
  enough (Z.of_nat (length free0) ≤ Z.of_nat (length (leak ++ frames)) + 1024) as H.
  { unfold frames in H. rewrite length_app, length_fmap, length_seqZ in H. lia. }
  apply (table_pages_bound (pm_mem pm) d); [apply Hk0|]. intros p Hp. rewrite elem_of_app.
  destruct (proj2 (gw_pages _ _ _ _ _ _ _ _ _ G p) (or_introl Hp)) as [?|[?%elem_of_nil|Ho]]; [tauto|done|].
  destruct Ho as [->|[?|(n & Hn & Hpn & <-)]]; [|tauto|].
  - by destruct (pt_dir _ _ _ _ (as_pt _ _ _ _ Ha0)).
  - left; right. apply list_elem_of_fmap. exists n. split; [done|]. apply elem_of_seqZ.
    destruct (decide (lo ≤ n < hi)) as [Hr|Hr].
    + destruct (decide (k ≤ n)); [|lia]. by destruct (gw_rest _ _ _ _ _ _ _ _ _ G n); [lia|].
    + by destruct (old_frame _ _ _ _ n G Hn Hr Hpn) as (_ & _ & []).
Qed.

(** The new pages taken back. *)
Lemma grew_dealloced k leak pm pm' free free' :
  grew lo hi k d leak pm0 pm free0 free → lo ≤ k ≤ hi →
  dealloced kend lo hi d pm pm' free free' → grew lo hi lo d leak pm0 pm' free0 free'.
Proof.
  intros G Hk [D1 D2 D3 D4 D5 D6 D7 D8]. pose proof bounds as Hb.
  assert (Hnew' : ∀ n, lo ≤ n < hi → present (pm_mem pm) d n → uframe (pm_mem pm) d n ∈ free0).
  { intros n Hn Hp. destruct (decide (n < k)); [by apply (gw_new _ _ _ _ _ _ _ _ _ G n); lia|].
    by destruct (gw_rest _ _ _ _ _ _ _ _ _ G n); [lia|]. }
  assert (Hsub : ∀ p, p ∈ free' → p ∈ free0).
  { intros p [?|(n & Hn & Hp & <-)]%D6; [by apply (gw_sub _ _ _ _ _ _ _ _ _ G)|by apply Hnew']. }
  split; try done.
  - by rewrite D7, (gw_lock _ _ _ _ _ _ _ _ _ G).
  - intros n Hn. lia.
  - intros n Hn Hr. by rewrite D4, (gw_old _ _ _ _ _ _ _ _ _ G).
  - intros p. rewrite <-(gw_pages _ _ _ _ _ _ _ _ _ G p), D6. unfold owned.
    rewrite (table_page_pde _ _ _ D3).
    assert (Hfr : (∃ n, 0 ≤ n < UPAGES ∧ present (pm_mem pm) d n ∧ uframe (pm_mem pm) d n = p) ↔
      (∃ n, lo ≤ n < hi ∧ present (pm_mem pm) d n ∧ uframe (pm_mem pm) d n = p) ∨
      (∃ n, 0 ≤ n < UPAGES ∧ present (pm_mem pm') d n ∧ uframe (pm_mem pm') d n = p)).
    { assert (Ho : ∀ n, 0 ≤ n < UPAGES → ¬ (lo ≤ n < hi) →
        (present (pm_mem pm') d n ↔ present (pm_mem pm) d n) ∧ uframe (pm_mem pm') d n = uframe (pm_mem pm) d n).
      { intros n Hn Hr. unfold present, uframe. by rewrite D4 by (try apply upage; done). }
      split.
      - intros (n & Hn & Hp & <-). destruct (decide (lo ≤ n < hi)) as [Hr|Hr]; [left; by exists n|right].
        destruct (Ho n Hn Hr) as [Hp' <-]. exists n. split_and!; [lia..|by apply Hp'|done].
      - intros [(n & Hn & Hp & <-)|(n & Hn & Hp & <-)]; exists n; [split_and!; try done; lia|].
        destruct (decide (lo ≤ n < hi)) as [Hr|Hr]; [by destruct (D5 n Hr)|].
        destruct (Ho n Hn Hr) as [Hp' <-]. split_and!; [lia..|by apply Hp'|done]. }
    rewrite Hfr. tauto.
  - intros b Hf. destruct (gw_foreign _ _ _ _ _ _ _ _ _ G b Hf) as [E (F1 & F2 & F3)].
    rewrite <-E. destruct Hf as (_ & _ & Hf). split.
    + apply D8. intros p [Hp|(i & Hi & Hh & <-)]; [by apply Hf, Hsub|by apply F2].
    + split_and!; [done| |by intros p Hp; apply Hf, Hsub]. intros i Hi Hh. unfold tab.
      rewrite D3 by done. apply F2; [done|]. unfold has in *. by rewrite D3 in Hh.
Qed.

Lemma shrink_back k leak pm free :
  grew lo hi k d leak pm0 pm free0 free → lo ≤ k ≤ hi → lo < hi →
  ∃ pm' free', (deallocuvm kend d newsz oldsz ;; mret 0) (c, (pm, x)) = Ret 0 (c, (pm', x)) ∧
    grew lo hi lo d leak pm0 pm' free0 free'.
Proof.
  intros G Hk Hlt. assert (Hne : oldsz ≠ newsz) by (intros ->; lia).
  destruct (deallocuvm_run kend kend_above d newsz oldsz c pm x free) as (pm' & free' & R & D);
    try apply G; try lia.
  { by eapply grew_lock. }
  { destruct (decide (lo < k)) as [Hl|Hl].
    - right; left. destruct (gw_new _ _ _ _ _ _ _ _ _ G lo) as [Hp _]; [lia|].
      unfold present, entry in Hp. by case_decide.
    - right; right. intros n Hn. apply (gw_rest _ _ _ _ _ _ _ _ _ G). lia. }
  exists pm', free'. split; [by rewrite (bind_eq _ _ _ _ _ R)|]. by eapply grew_dealloced.
Qed.

(** A new frame mapped at page [k], or not. *)
Section Turn.
Context (k v r : Z) (pm pm1 pm2 : pmem) (free1 free2 : list Z).
Hypotheses (G : grew lo hi k d [] pm0 pm free0 (v :: free1)) (Hk : lo ≤ k < hi)
  (F : framed kend d v pm pm1 free1)
  (D : ∀ o, 0 ≤ o < PGSIZE → rd (pm_mem pm1) (v + o) = 0)
  (M : page_mapped kend k v (Z.lor PTE_W PTE_U) d r pm1 pm2 free1 free2).

Lemma grow_page : 0 ≤ k < UPAGES ∧ ¬ present (pm_mem pm) d k.
Proof.
  pose proof bounds. split; [lia|]. apply (gw_rest _ _ _ _ _ _ _ _ _ G). lia.
Qed.

Lemma grew_turn leak k' :
  (∀ p, p ∈ leak ∨ p ∈ free2 ∨ owned (pm_mem pm2) d p ↔ p ∈ v :: free1 ∨ owned (pm_mem pm) d p) →
  k ≤ k' ≤ k + 1 → (k' = k + 1 → r = 0) → (k' = k → r = -1) →
  grew lo hi k' d leak pm0 pm2 free0 free2.
Proof.
  intros Hpg Hk' Hr0 Hr1. destruct grow_page as [Hku Hnp]. pose proof bounds as Hb.
  pose proof (fm_entry kend kend_above k _ d v r pm pm1 pm2 free1 free2 F M Hku ltac:(done) Hnp) as He.
  pose proof (fm_other kend k _ d v r pm pm1 pm2 free1 free2 F M) as Ho.
  pose proof (fm_lift kend k _ d v r pm pm1 pm2 free1 free2 F M) as Hl.
  assert (Hvf : v ∈ free0) by (apply (gw_sub _ _ _ _ _ _ _ _ _ G); by left).
  split.
  - by rewrite (fm_lock kend k _ d v r pm pm1 pm2 free1 free2 F M), (gw_lock _ _ _ _ _ _ _ _ _ G).
  - apply M.
  - apply M.
  - intros n Hn. destruct (decide (n = k)) as [Heq|Hne].
    + rewrite Heq. destruct He as [(_ & E1 & E2 & E3)|[? _]]; [|lia]. split_and!; [done..|by rewrite E2|].
      intros o Hoff. rewrite E2, <-(D o Hoff).
      by eapply (fm_keep kend kend_above k); [exact F|exact M|apply F|].
    + assert (Hnu : 0 ≤ n < UPAGES) by lia. destruct (Hl n Hnu Hne) as [Hp ->].
      destruct (gw_new _ _ _ _ _ _ _ _ _ G n) as (G1 & G2 & G3 & G4); [lia|].
      split_and!; [by apply Hp|by rewrite Ho by (try apply upage; done)|done|].
      intros o Hoff. rewrite <-(G4 o Hoff).
      by eapply (fm_frame kend kend_above k); [exact F|exact M|..].
  - intros n Hn Hp. destruct (decide (n = k)) as [Heq|Hne].
    + rewrite Heq in Hp. destruct He as [(Hr & _)|(_ & _ & ?)]; [|done]. lia.
    + apply (gw_rest _ _ _ _ _ _ _ _ _ G n); [lia|]. apply Hl; [lia|done..].
  - intros n Hn Hr. rewrite Ho by (try done; lia). by apply (gw_old _ _ _ _ _ _ _ _ _ G).
  - intros p Hp. apply (gw_sub _ _ _ _ _ _ _ _ _ G). right.
    destruct (gr_used _ _ _ _ _ _ (pm_grown _ _ _ _ _ _ _ _ _ _ M)) as [u ->]. set_solver.
  - intros p. rewrite Hpg, <-(gw_pages _ _ _ _ _ _ _ _ _ G p). rewrite (elem_of_nil p). tauto.
  - intros b Hf. destruct (gw_foreign _ _ _ _ _ _ _ _ _ G b Hf) as [E Hf'].
    destruct (fm_foreign kend k _ d v r pm pm1 pm2 free1 free2 F M b Hf') as [E' Hf2].
    split; [congruence|done].
Qed.

Lemma turn_ok : r = 0 → grew lo hi (k + 1) d [] pm0 pm2 free0 free2.
Proof.
  intros Hr. destruct grow_page as [Hku Hnp]. apply grew_turn; try lia. intros p.
  pose proof (fm_owned kend kend_above k _ d v r pm pm1 pm2 free1 free2 F M Hku ltac:(done) Hnp p) as H.
  rewrite elem_of_nil, H, elem_of_cons. tauto.
Qed.

Lemma turn_lost : r = -1 → grew lo hi k d [v] pm0 pm2 free0 free2.
Proof.
  intros Hr. destruct grow_page as [Hku Hnp]. apply grew_turn; try lia. intros p.
  pose proof (fm_owned kend kend_above k _ d v r pm pm1 pm2 free1 free2 F M Hku ltac:(done) Hnp p) as H.
  rewrite H, !elem_of_cons, elem_of_nil. assert (r ≠ 0) by lia. tauto.
Qed.

End Turn.

(** One turn of the loop. *)
Lemma alloc_turn_start f k pm free :
  lock_free c pm → kmem_inv kend pm free → lo ≤ k < hi →
  allocuvm_loop kend (S f) d oldsz newsz (k * PGSIZE) (c, (pm, x)) =
    (if default 0 (head free) =? 0 then deallocuvm kend d newsz oldsz ;; mret 0 else
     memset_k (default 0 (head free)) 0 PGSIZE ;;
     mappages d (k * PGSIZE) PGSIZE (v2p (default 0 (head free))) (Z.lor PTE_W PTE_U) ;;
     allocuvm_loop kend f d oldsz newsz ((k + 1) * PGSIZE)) (c, (kalloced pm, x)).
Proof.
  intros Hl Hk Hr. pose proof bounds as Hb. cbn [allocuvm_loop].
  rewrite npages_lt, (proj2 (Z.ltb_lt _ _)) by lia.
  rewrite (bind_eq _ _ _ _ _ (kalloc_run kend kend_high c pm x Hl)).
  destruct (kalloced_inv kend kend_high pm free Hk) as (_ & -> & _ & _).
  rewrite u32_small by (unfold UPAGES, PGSIZE in *; lia).
  by replace (k * PGSIZE + PGSIZE) with ((k + 1) * PGSIZE) by lia.
Qed.

Lemma grew_none k leak pm :
  grew lo hi k d leak pm0 pm free0 [] → grew lo hi k d leak pm0 (kalloced pm) free0 [].
Proof.
  intros [G1 G2 G3 G4 G5 G6 G7 G8 G9].
  destruct (kalloced_inv kend kend_high pm [] G2) as (Hka & _ & Hm & Hu).
  split; rewrite ?Hm; try done. by rewrite Hu.
Qed.

(** The loop where memory has run out. *)
Lemma alloc_loop_none f k leak pm :
  grew lo hi k d leak pm0 pm free0 [] → (length leak ≤ 1)%nat → ∀ k', lo ≤ k ≤ k' → k' < hi →
  ∃ pm' free', allocuvm_loop kend (S f) d oldsz newsz (k' * PGSIZE) (c, (pm, x)) = Ret 0 (c, (pm', x)) ∧
    grew lo hi lo d leak pm0 pm' free0 free'.
Proof.
  intros G Hl k' Hk Hk'. rewrite (alloc_turn_start f k' pm []); [|by eapply grew_lock|apply G|lia].
  apply (shrink_back k leak (kalloced pm) []); [by apply grew_none|lia..].
Qed.

(** The loop with a page to take. *)
Lemma alloc_turn f k v pm free1 :
  grew lo hi k d [] pm0 pm free0 (v :: free1) → lo ≤ k < hi →
  ∃ pm2 free2, allocuvm_loop kend (S f) d oldsz newsz (k * PGSIZE) (c, (pm, x)) =
      allocuvm_loop kend f d oldsz newsz ((k + 1) * PGSIZE) (c, (pm2, x)) ∧
    (grew lo hi (k + 1) d [] pm0 pm2 free0 free2 ∨ free2 = [] ∧ grew lo hi k d [v] pm0 pm2 free0 []).
Proof.
  intros G Hk. pose proof (grew_lock _ _ _ _ G) as Hl. pose proof (gw_kmem _ _ _ _ _ _ _ _ _ G) as Hkm.
  rewrite (alloc_turn_start f k pm (v :: free1) Hl Hkm) by lia. cbn [head]. change (default 0 (Some v)) with v.
  assert (Hv : page_ok kend v) by (eapply (linked_ok kend kend_high); [apply Hkm|by left]).
  pose proof (page_ok_range kend kend_high v Hv). rewrite (proj2 (Z.eqb_neq v 0)) by lia. cbv iota.
  destruct (kalloced_inv kend kend_high pm _ Hkm) as (_ & _ & Hm & _).
  rewrite (bind_eq (memset_k v 0 PGSIZE) _ (c, (kalloced pm, x)) () _ eq_refl). cbn [fst snd].
  rewrite Hm. set (m1 := memset (pm_mem pm) v 0 PGSIZE).
  assert (F : framed kend d v pm (set_mem m1 (kalloced pm)) free1).
  { apply new_frame; [done|done|apply G|]. intros b Hb. unfold m1. rewrite rd_memset by done.
    by rewrite decide_False. }
  assert (D : ∀ o, 0 ≤ o < PGSIZE → rd m1 (v + o) = 0).
  { intros o Ho. unfold m1. rewrite rd_memset by done. by rewrite decide_True by lia. }
  set (pm1 := set_mem m1 (kalloced pm)) in *.
  destruct (grow_page k v pm free1 G ltac:(lia)) as [Hku Hnp].
  destruct (map_page_run kend kend_above d k v (Z.lor PTE_W PTE_U) c pm1 x free1)
    as (r & pm2 & free2 & R & M); try apply F; try done.
  { unfold lock_free. by rewrite (fd_lock _ _ _ _ _ _ F). }
  { by destruct (framed_lift kend d v pm pm1 free1 k F Hku) as [-> _]. }
  rewrite (bind_eq _ _ _ _ _ R). exists pm2, free2. split; [done|].
  destruct (pm_result _ _ _ _ _ _ _ _ _ _ M) as [(Hr & Hf2 & _)|(Hr & _)]; [right|left].
  - split; [done|]. pose proof (turn_lost k v r pm pm1 pm2 free1 free2 G Hk F D M Hr) as G2.
    by rewrite Hf2 in G2.
  - by apply (turn_ok k v r pm pm1 pm2 free1 free2).
Qed.

(** How growing ends. *)
Definition grow_end (r : Z) (pm' : pmem) (free' : list Z) : Prop :=
  r = newsz ∧ grew lo hi hi d [] pm0 pm' free0 free' ∨
  Z.of_nat (length free0) ≤ hi - lo + 1025 ∧
    (r = newsz ∧ lo < hi ∧ free' = [] ∧ (∃ v, grew lo hi (hi - 1) d [v] pm0 pm' free0 []) ∨
     r = 0 ∧ ∃ leak, (length leak ≤ 1)%nat ∧ grew lo hi lo d leak pm0 pm' free0 free').

Lemma alloc_loop_run fuel k pm free :
  grew lo hi k d [] pm0 pm free0 free → lo ≤ k ≤ hi → hi - k ≤ Z.of_nat fuel →
  ∃ r pm' free', allocuvm_loop kend (S fuel) d oldsz newsz (k * PGSIZE) (c, (pm, x)) = Ret r (c, (pm', x)) ∧
    grow_end r pm' free'.
Proof.
  revert k pm free. induction fuel as [|fuel IH]; intros k pm free G Hk Hf;
    (destruct (decide (k = hi)) as [Heq|Hne];
     [exists newsz, pm, free; split; [|by left; rewrite Heq in G];
       cbn [allocuvm_loop]; rewrite npages_lt, Heq; by rewrite Z.ltb_irrefl|]); [lia|].
  assert (Hfail : ∀ f j leak pm2, grew lo hi j d leak pm0 pm2 free0 [] → (length leak ≤ 1)%nat →
    ∀ k', lo ≤ j ≤ k' → k' < hi →
    ∃ r pm' free', allocuvm_loop kend (S f) d oldsz newsz (k' * PGSIZE) (c, (pm2, x)) = Ret r (c, (pm', x)) ∧
      grow_end r pm' free').
  { intros f j leak pm2 G2 Hl k' Hj Hk'.
    destruct (alloc_loop_none f j leak pm2 G2 Hl k' Hj Hk') as (pm' & free' & R & G').
    exists 0, pm', free'. split; [done|]. right. split; [apply (grew_short j leak pm2 G2 Hl); lia|].
    right. split; [done|]. by exists leak. }
  destruct free as [|v free1]; [apply (Hfail _ k [] pm G); simpl; lia|].
  destruct (alloc_turn (S fuel) k v pm free1 G ltac:(lia)) as (pm2 & free2 & -> & [G2|[-> G2]]).
  { apply (IH (k + 1) pm2 free2 G2); lia. }
  destruct (decide (k + 1 < hi)) as [Hlt|Hge]; [apply (Hfail _ k [v] pm2 G2); simpl; lia|].
  exists newsz, pm2, []. split.
  - cbn [allocuvm_loop]. rewrite npages_lt. by rewrite (proj2 (Z.ltb_ge _ _)) by lia.
  - right. split; [apply (grew_short k [v] pm2 G2); simpl; lia|]. left. split_and!; [done|lia|done|].
    exists v. by replace (hi - 1) with k by lia.
Qed.

End Grow.

(** Bytes of an old page are no table's and not free. *)
Lemma old_frame_foreign m d free n o :
  Forall (page_ok kend) free → aspace kend m d free → 0 ≤ n < UPAGES → present m d n → 0 ≤ o < PGSIZE →
  foreign m d free (uframe m d n + o).
Proof.
  intros Hfree Ha Hn Hp Ho. destruct (as_frame _ _ _ _ Ha n Hn Hp) as [L1 L2 L3 L4].
  assert (Hin : in_page (uframe m d n) (uframe m d n + o)) by (unfold in_page; lia).
  rewrite list.Forall_forall in Hfree. pose proof (as_pt _ _ _ _ Ha) as [[Hd _] Ht _]. split_and!.
  - intros Hb. apply L3. by apply (pages_share kend _ _ (uframe m d n + o)).
  - intros i Hi Hh Hb. apply L4. exists i. split_and!; [done..|].
    apply (pages_share kend _ _ (uframe m d n + o)); [by apply Ht|done..].
  - intros p Hpf Hb. apply L2. replace (uframe m d n) with p; [done|].
    apply (pages_share kend _ _ (uframe m d n + o)); [by apply Hfree|done..].
Qed.

(** C21. [allocuvm] on every branch.  A size in the kernel's half is refused and a
    smaller size changes nothing.  Otherwise it returns the new size and the
    pages up to it are there, on frames that were free, zeroed, for the user;
    or, only when fewer pages were free than growing can need, it returns 0 and
    none of them is there, all pages are free again but at most one; or it
    returns the new size although the last page is not there and its frame is
    lost, since what [mappages] returns is ignored.  In every case the old
    pages keep their entries and their bytes. *)
Theorem allocuvm_correct d oldsz newsz c pm (x : Ext) free :
  lock_free c pm → kmem_inv kend pm free → aspace kend (pm_mem pm) d free → 0 ≤ oldsz →
  (∀ n, npages oldsz ≤ n < npages newsz → n < UPAGES → ¬ present (pm_mem pm) d n) →
  (KERNBASE ≤ newsz → allocuvm kend d oldsz newsz (c, (pm, x)) = Ret 0 (c, (pm, x))) ∧
  (newsz < KERNBASE → newsz < oldsz →
     allocuvm kend d oldsz newsz (c, (pm, x)) = Ret oldsz (c, (pm, x))) ∧
  (oldsz ≤ newsz < KERNBASE →
     ∃ r pm' free', allocuvm kend d oldsz newsz (c, (pm, x)) = Ret r (c, (pm', x)) ∧
       grow_end d oldsz newsz pm free r pm' free' ∧
       ∀ n o, 0 ≤ n < UPAGES → present (pm_mem pm) d n → 0 ≤ o < PGSIZE →
         rd (pm_mem pm') (uframe (pm_mem pm) d n + o) = rd (pm_mem pm) (uframe (pm_mem pm) d n + o)).
Proof.
  intros Hlk Hk Ha Ho Hf. unfold allocuvm. split_and!.
  - intros H. by rewrite (proj2 (Z.leb_le _ _) H).
  - intros H1 H2. by rewrite (proj2 (Z.leb_gt _ _) H1), (proj2 (Z.ltb_lt _ _) H2).
  - intros Hn. rewrite (proj2 (Z.leb_gt _ _)), (proj2 (Z.ltb_ge _ _)) by lia.
    rewrite PGROUNDUP_npages by lia.
    assert (Hf' : ∀ n, npages oldsz ≤ n < npages newsz → ¬ present (pm_mem pm) d n).
    { intros n Hr. apply Hf; [done|]. pose proof (npages_bound newsz). lia. }
    pose proof (bounds oldsz newsz ltac:(lia) ltac:(lia)) as Hb.
    destruct (alloc_loop_run d oldsz newsz pm free c x Hlk Hk Ha ltac:(lia) ltac:(lia) Hf'
      (S (Z.to_nat (newsz / PGSIZE))) (npages oldsz) pm free) as (r & pm' & free' & R & E).
    { apply grew_start; try done; lia. } { lia. }
    { unfold npages at 1. pose proof (Z.div_pos newsz PGSIZE). unfold PGSIZE in *.
      pose proof (Z.div_mod newsz 4096). pose proof (Z.mod_pos_bound newsz 4096).
      pose proof (Z.div_lt_upper_bound (newsz + 4096 - 1) 4096 (newsz / 4096 + 2)). lia. }
    exists r, pm', free'. split_and!; [done..|]. intros n o Hu Hp Hoff.
    assert (Hfo : foreign (pm_mem pm) d free (uframe (pm_mem pm) d n + o)).
    { apply old_frame_foreign; try done. apply list.Forall_forall. intros p Hpf.
      eapply (linked_ok kend kend_high); [apply Hk|done]. }
    destruct E as [[_ G]|[_ [(_ & _ & _ & v & G)|(_ & leak & _ & G)]]];
      by apply (gw_foreign _ _ _ _ _ _ _ _ _ G).
Qed.

End GrowFacts.

(** ** Concrete instances *)

(** A page directory without entries and two free pages: enough for one page
    and its table. *)
Definition pm_two : pmem := mkPmem (chain [0x80203000; 0x80204000] ∅) 0x80203000 false mmu0.

Lemma pm_two_ok : kmem_inv kend0 pm_two [0x80203000; 0x80204000] ∧
  aspace kend0 (pm_mem pm_two) dir0 [0x80203000; 0x80204000] ∧
  ∀ n, 0 ≤ n < 2 ^ 20 → ¬ present (pm_mem pm_two) dir0 n.
Proof.
  assert (Hp : Forall (page_ok kend0) [0x80203000; 0x80204000] ∧ page_ok kend0 dir0).
  { rewrite !list.Forall_cons. split_and!; [by vm_compute..|done|by vm_compute]. }
  assert (Hn : NoDup [0x80203000; 0x80204000]) by (apply NoDup_ListNoDup; repeat constructor; simpl; lia).
  destruct (chain_linked kend0 _ ∅ kend0_high (proj1 Hp) Hn) as [L R].
  destruct (empty_dir kend0 (pm_mem pm_two) dir0 [0x80203000; 0x80204000]) as (H1 & H2 & H3).
  { apply Hp. } { by intros [E|[E|?%elem_of_nil]%elem_of_cons]%elem_of_cons. }
  { intros i Hi. unfold pde. etrans; [|apply (ld32_empty (dir0 + 4 * i))]. apply ld32_ext.
    intros b Hb. apply R. unfold dir_index, dir0, in_page in *.
    intros p [->| [->|?%elem_of_nil]%elem_of_cons]%elem_of_cons; [lia..|done]. }
  assert (H4 : ∀ n, 0 ≤ n < 2 ^ 20 → ¬ present (pm_mem pm_two) dir0 n).
  { intros n Hr. unfold present. rewrite H3 by done. by intros H. }
  split_and!; [by split| |done]. split; [done|..].
  - intros n Hr Hpn. by destruct (H4 n); [unfold UPAGES in *; lia|].
  - intros n n' Hr _ Hpn. by destruct (H4 n); [unfold UPAGES in *; lia|].
Qed.

Lemma allocuvm_correct_witness :
  ∃ r pm' free', allocuvm kend0 dir0 0 4096 (core0, (pm_two, ())) = Ret r (core0, (pm', ())) ∧
    grow_end kend0 dir0 0 4096 pm_two [0x80203000; 0x80204000] r pm' free' ∧
    ∀ n o, 0 ≤ n < UPAGES → present (pm_mem pm_two) dir0 n → 0 ≤ o < PGSIZE →
      rd (pm_mem pm') (uframe (pm_mem pm_two) dir0 n + o) = rd (pm_mem pm_two) (uframe (pm_mem pm_two) dir0 n + o).
Proof.
  destruct pm_two_ok as (H1 & H2 & H3).
  apply (allocuvm_correct kend0 eq_refl dir0 0 4096 core0 pm_two () [0x80203000; 0x80204000]).
  - by intros ?.
  - exact H1.
  - exact H2.
  - done.
  - intros n Hn Hu. apply H3. change (npages 0) with 0 in Hn. unfold UPAGES in Hu. lia.
  - by split.
Defined.

(** With one free page and no table the new size comes back, and no page. *)
Example allocuvm_hole :
  match allocuvm kend0 dir0 0 4096 (core0, (mkPmem (chain [0x80203000] ∅) 0x80203000 false mmu0, ())) with
  | Ret r (_, (pm, _)) => r = 4096 ∧ entry (pm_mem pm) dir0 0 = 0 ∧ freelist pm = 0
  | _ => False
  end.
Proof. by vm_compute. Qed.
