(* ===== verification/Quiet.v ===== *)
(** * What code does to the process table and the locks

    [safe W D D' m]: called with the locks [D] taken since the caller's state
    [c0], [m] returns with [D'] taken and the rest of [core] as in [c0]; if it may
    wait ([W]), but for processes it woke, and it may go to sleep on a channel
    of its own, having let go of every lock but [ptable.lock].  The rules follow
    the code; [safe_run] applies them. *)
From S2P Require Import Prelude Spinlock Core Proc.

(** What a return, and going to sleep, may have changed. *)
Definition kept (W : bool) (c c' : core) : Prop := if W then only_woken c c' else c = c'.
Definition slept (W : bool) (c c' : core) : Prop := if W then asleep c c' else False.

(** [c] is [c0] with the locks [D] taken. *)
Record tracks (W : bool) (D : list lockid) (c0 c : core) : Prop := {
  tr_nodup : NoDup D;
  tr_new l : l ∈ D → l ∉ locks c0;
  tr_locks : locks c = list_to_set D ∪ locks c0;
  tr_kept : kept W c0 (set_locks (locks c0) c) }.

Definition safe {E A} (W : bool) (D D' : list lockid) (m : M (core * E) A) : Prop :=
  ∀ c0 c e, tracks W D c0 c →
    match m (c, e) with
    | Ret _ (c', _) => tracks W D' c0 c'
    | Block (c', _) => slept W c0 c'
    | _ => True
    end.

Lemma kept_refl W c : kept W c c.
Proof. destruct W; [apply only_woken_refl|done]. Qed.

Lemma set_locks_same c : set_locks (locks c) c = c.
Proof. by destruct c. Qed.

Lemma tracks_nil W c0 c : tracks W [] c0 c ↔ kept W c0 c.
Proof.
  split.
  - intros [_ _ Hl Hk]. simpl in Hl. rewrite (left_id_L ∅ (∪)) in Hl. rewrite <-Hl in Hk.
    by rewrite set_locks_same in Hk.
  - intros Hk. assert (E : locks c = locks c0) by (destruct W; [apply Hk|by rewrite Hk]).
    split; [constructor|by intros l ?%elem_of_nil|simpl; set_solver|].
    by rewrite <-E, set_locks_same.
Qed.

Section Rules.
Context {E : Type}.
Abbreviation K := (core * E)%type.

Lemma safe_ret {A} W D (a : A) : safe (E := E) W D D (mret a).
Proof. by intros c0 c e H. Qed.
Lemma safe_panic {A} W D D' msg : safe (E := E) W D D' (panic (A := A) msg).
Proof. done. Qed.
Lemma safe_fault {A} W D D' : safe (E := E) W D D' (fault (A := A)).
Proof. done. Qed.
Lemma safe_bind {A B} W D D1 D' (m : M K A) (k : A → M K B) :
  safe W D D1 m → (∀ a, safe W D1 D' (k a)) → safe W D D' (m ≫= k).
Proof.
  intros Hm Hk c0 c e H. unfold mbind, M_bind. specialize (Hm c0 c e H).
  destruct (m (c, e)) as [a [c' e']| | |]; try done. by apply Hk.
Qed.
Lemma safe_deref {A} W D (o : option A) : safe (E := E) W D D (deref o).
Proof. by destruct o; intros c0 c e H. Qed.
Lemma safe_when W D b (m : M K unit) : safe W D D m → safe W D D (when b m).
Proof. intros H. destruct b; [done|]. by intros c0 c e Ht. Qed.
Lemma safe_for_each {A} W D (l : list A) (body : A → M K unit) :
  (∀ a, safe W D D (body a)) → safe W D D (for_each l body).
Proof. intros H. induction l; simpl; [apply safe_ret|]. by eapply safe_bind. Qed.

(** Code that does not touch [core] at all. *)
Definition idle {A} (m : M K A) : Prop :=
  ∀ s, match m s with Ret _ s' => fst s' = fst s | Block _ => False | _ => True end.
Lemma safe_idle {A} W D (m : M K A) : idle m → safe W D D m.
Proof.
  intros Hm c0 c e H. specialize (Hm (c, e)). destruct (m (c, e)) as [a [c' e']| | |]; try done.
  simpl in Hm. by subst.
Qed.
Lemma idle_gets {A} (f : K → A) : idle (gets f).
Proof. by intros s. Qed.
Lemma idle_modify f : (∀ s, fst (f s) = fst s) → idle (modify f).
Proof. intros H s. apply H. Qed.

Lemma safe_getc {A} W D (f : core → A) : safe (E := E) W D D (getc f).
Proof. apply safe_idle. by intros s. Qed.
Lemma safe_myproc W D : safe (E := E) W D D myproc.
Proof. eapply safe_bind; [apply safe_getc|apply safe_deref]. Qed.
Lemma safe_getp {A} W D i (f : proc → A) : safe (E := E) W D D (getp i f).
Proof.
  eapply safe_bind; [apply safe_getc|]. intros. eapply safe_bind; [apply safe_deref|].
  intros. apply safe_ret.
Qed.

Lemma safe_acquire W D l : safe (E := E) W D (l :: D) (acquire l).
Proof.
  intros c0 c e [H1 H2 H3 H4]. rewrite acquire_run. simpl. case_decide as Hl; [done|]. split.
  - apply list.NoDup_cons. split; [|done]. intros Hin. apply Hl. rewrite H3. set_solver.
  - intros l' [->|?]%elem_of_cons; [|by apply H2]. intros Hin. apply Hl. rewrite H3. set_solver.
  - simpl. rewrite H3. set_solver.
  - by destruct c.
Qed.

Lemma safe_release W D l : safe (E := E) W (l :: D) D (release l).
Proof.
  intros c0 c e [H1 H2 H3 H4]. rewrite release_run. simpl. case_decide as Hl; [|done].
  apply list.NoDup_cons in H1 as [Hn H1]. split; [done| |..].
  - intros l' Hl'. apply H2. by right.
  - simpl. rewrite H3. simpl. specialize (H2 l ltac:(by left)). set_solver.
  - by destruct c.
Qed.

(** Weakening: code that cannot wait. *)
Lemma safe_weaken {A} D D' (m : M K A) : safe false D D' m → safe true D D' m.
Proof.
  intros Hm c0 c e [H1 H2 H3 H4]. specialize (Hm (set_locks (locks c0) c) c e).
  destruct (m (c, e)) as [a [c' e']| |[c' e']|]; try done.
  - destruct Hm as [G1 G2 G3 G4]; [by split|]. split; [done|done|done|].
    simpl in G4. unfold kept. by rewrite <-G4.
  - by destruct Hm.
Qed.

Lemma safe_wakeup D ch : safe (E := E) true D D (wakeup ch).
Proof.
  eapply safe_bind; [apply safe_acquire|]. intros _.
  eapply safe_bind; [|intros _; apply safe_release].
  intros c0 c e [H1 H2 H3 H4]. simpl. split; [done..|].
  simpl in *. eapply only_woken_trans; [exact H4|].
  pose proof (wakeup_only_woken ch (set_locks (locks c0) c)) as Hw. by destruct c.
Qed.

(** [sched] wants exactly [ptable.lock]. *)
Lemma wlp_sched_locks (Q : unit → K → Prop) (B : K → Prop) s :
  (locks (fst s) = {[L_ptable]} → B s) → wlp sched Q B s.
Proof.
  intros H. unfold sched, holding. apply wlp_bind, wlp_getc.
  unfold Held.holding. case_bool_decide as Hl; [|done]. cbn [negb].
  apply wlp_bind, wlp_getc. destruct (Nat.eqb_spec (size (locks (lget s))) 1) as [E1|]; [|done]. cbn [negb].
  apply wlp_bind, wlp_myproc. intros i Hi. apply wlp_bind, wlp_getp. intros p Hp.
  case_decide; [done|]. apply wlp_bind, wlp_getc. case_match; [done|].
  apply H. apply size_1_elem_of in E1 as [x Hx].
  simpl in *. apply leibniz_equiv in Hx. rewrite Hx in Hl |- *. by apply elem_of_singleton in Hl as ->.
Qed.

(** [sleep] does not return. *)
Lemma safe_sleep D D' ch lk : (∀ q, ch ≠ Ch_proc q) → safe (E := E) true D D' (sleep ch lk).
Proof.
  intros Hch c0 c e [H1 H2 H3 H4].
  assert (Hw : wlp (sleep ch lk) (λ _ _, False) (λ s', asleep c0 (fst s')) (c, e)).
  { unfold sleep. apply wlp_bind, wlp_getc. change (cur (lget (c, e))) with (cur c).
    destruct (cur c) as [i|] eqn:Hc; [|done]. apply wlp_bind.
    assert (Hgo : ∀ ls, wlp (setp i (set_chan (Some ch)) ;; setp i (set_state SLEEPING) ;; sched)
      (λ _ _, False) (λ s', asleep c0 (fst s')) (set_locks ls c, e)).
    { intros ls. apply wlp_bind, wlp_setp, wlp_bind, wlp_setp, wlp_sched_locks. simpl. intros Hl.
      exists (set_locks (locks c0) c), i, ch. split_and!; [exact H4| |done|].
      - simpl in H4. pose proof (ow_cur _ _ H4) as E1. simpl in E1. congruence.
      - rewrite upd_upd. unfold upd_proc, set_locks, set_ptable in *. simpl in *. by rewrite Hl. }
    case_decide.
    - apply wlp_ret. specialize (Hgo (locks c)). by rewrite set_locks_same in Hgo.
    - apply wlp_bind, wlp_acquire. intros _. apply wlp_release. intros _. simpl. apply Hgo. }
  unfold wlp in Hw. by destruct (sleep ch lk (c, e)) as [? [? ?]| |[? ?]|].
Qed.

End Rules.

(** ** Through a view of the state *)

(** A lens that keeps [core] in front. *)
Class CoreLens {E F} (L : Lens (core * E) (core * F)) : Prop := {
  cl_get s : fst (lget (Lens := L) s) = fst s;
  cl_set t s : fst (lset (Lens := L) t s) = fst t }.

Lemma safe_lift {E F A} (L : Lens (core * E) (core * F)) `{!CoreLens L} W D D' (m : M (core * F) A) :
  safe W D D' m → safe W D D' (lift m).
Proof.
  intros Hm c0 c e H. unfold lift. destruct (lget (c, e)) as [c1 f] eqn:El.
  pose proof (cl_get (c, e)) as E1. rewrite El in E1. simpl in E1. subst c1.
  specialize (Hm c0 c f H). destruct (m (c, f)) as [a [c' f']| |[c' f']|]; try done.
  - pose proof (cl_set (c', f') (c, e)) as E2. destruct (lset (c', f') (c, e)) as [c2 e2]. simpl in E2. by subst.
  - pose proof (cl_set (c', f') (c, e)) as E2. destruct (lset (c', f') (c, e)) as [c2 e2]. simpl in E2. by subst.
Qed.

(** ** Automation *)

Create HintDb safe.
#[export] Hint Resolve safe_ret safe_panic safe_fault safe_deref safe_getc safe_myproc safe_getp
  safe_acquire safe_release safe_wakeup : safe.

Ltac safe_step :=
  match goal with
  | |- safe _ _ _ (_ ≫= _) => eapply safe_bind; [|intros ?]
  | |- safe _ _ _ (when _ _) => apply safe_when
  | |- safe _ _ _ (for_each _ _) => apply safe_for_each; intros ?
  | |- safe _ _ _ (if ?b then _ else _) => destruct b
  | |- safe _ _ _ (match ?x with _ => _ end) => destruct x
  | |- safe _ _ _ (let _ := _ in _) => cbv zeta
  | |- safe _ _ _ (sleep _ _) => apply safe_sleep; discriminate
  | |- safe _ _ _ _ => solve [eauto 3 with safe]
  end.
Ltac safe_run := repeat safe_step.

(** ** The laws of [KernelEnvOk] *)

Lemma safe_core_const {E A} (m : M (core * E) A) : safe false [] [] m → core_const m.
Proof.
  intros Hm [c e]. specialize (Hm c c e (proj2 (tracks_nil false c c) eq_refl)).
  destruct (m (c, e)) as [a [c' e']| |[c' e']|]; try done. simpl.
  apply tracks_nil in Hm. by symmetry.
Qed.

Lemma safe_core_wakes {E A} (m : M (core * E) A) : safe true [] [] m → core_wakes m.
Proof.
  intros Hm [c e]. specialize (Hm c c e (proj2 (tracks_nil true c c) (only_woken_refl c))).
  destruct (m (c, e)) as [a [c' e']| |[c' e']|]; try done. simpl. by apply tracks_nil in Hm.
Qed.
