(* ===== verification/KernelSafe.v ===== *)
(** * Locks and the process table under memory, files, pipes and the console

    For each function of kalloc.c, vm.c, bio.c, log.c, fs.c, pipe.c, console.c and
    file.c that process management calls, or that those call: it gives back
    every lock it takes, and changes nothing of the process table but by waking
    and by going to sleep.  The proofs follow the code by [safe_run]. *)
From S2P Require Import Prelude Spinlock Core CString Proc Quiet Kalloc Vm Bio Log Console Fs Pipe File.

(** ** kalloc.c, vm.c *)

Section Memory.
Context {Ext : Type}.
Abbreviation K := (core * (pmem * Ext))%type.
Context (kend data ts_addr : Z).

Lemma safe_getm {A} W D (f : pmem → A) : safe (E := pmem * Ext) W D D (getm f).
Proof. apply safe_idle, idle_gets. Qed.
Lemma safe_modm W D f : safe (E := pmem * Ext) W D D (modm f).
Proof. by apply safe_idle, idle_modify. Qed.
#[local] Hint Resolve safe_getm safe_modm : safe.

Lemma safe_kfree W D v : safe (E := pmem * Ext) W D D (kfree kend v).
Proof.
  unfold kfree. destruct (_ || _); [auto with safe|].
  do 2 (eapply safe_bind; [auto with safe|intros ?]). destruct a0; simpl; safe_run.
Qed.
Lemma safe_kalloc W D : safe (E := pmem * Ext) W D D kalloc.
Proof.
  unfold kalloc. eapply safe_bind; [auto with safe|]. intros [|]; simpl; safe_run.
Qed.
#[local] Hint Resolve safe_kfree safe_kalloc : safe.

Lemma safe_rd32 W D a : safe (E := pmem * Ext) W D D (rd32 a).
Proof. apply safe_getm. Qed.
Lemma safe_wr32 W D a v : safe (E := pmem * Ext) W D D (wr32 a v).
Proof. apply safe_modm. Qed.
Lemma safe_memset_k W D a c n : safe (E := pmem * Ext) W D D (memset_k a c n).
Proof. apply safe_modm. Qed.
Lemma safe_memmove_k W D a c n : safe (E := pmem * Ext) W D D (memmove_k a c n).
Proof. apply safe_modm. Qed.
Lemma safe_modregs W D f : safe (E := pmem * Ext) W D D (modregs f).
Proof. apply safe_modm. Qed.
#[local] Hint Resolve safe_rd32 safe_wr32 safe_memset_k safe_memmove_k safe_modregs : safe.

Lemma safe_walkpgdir W D d va b : safe (E := pmem * Ext) W D D (walkpgdir d va b).
Proof. unfold walkpgdir. safe_run. Qed.
#[local] Hint Resolve safe_walkpgdir : safe.
Lemma safe_mappages W D d va n pa perm : safe (E := pmem * Ext) W D D (mappages d va n pa perm).
Proof.
  unfold mappages. cbv zeta. generalize (PGROUNDDOWN va) as a, pa as p. 
  generalize (PGROUNDDOWN (u32 (va + n - 1))) as last. intros last a p.
  generalize (S (Z.to_nat (u32 (last - a) / PGSIZE))) as fuel. intros fuel. revert a p.
  induction fuel as [|fuel IH]; intros a p; cbn [mappages_loop]; safe_run.
Qed.
#[local] Hint Resolve safe_mappages : safe.
Lemma safe_map_kernel W D ks d : safe (E := pmem * Ext) W D D (map_kernel ks d).
Proof. induction ks; cbn [map_kernel]; safe_run; done. Qed.
#[local] Hint Resolve safe_map_kernel : safe.
Lemma safe_setupkvm W D : safe (E := pmem * Ext) W D D (setupkvm data).
Proof. unfold setupkvm. safe_run. Qed.
Lemma safe_inituvm W D d b : safe (E := pmem * Ext) W D D (inituvm d b).
Proof. unfold inituvm. safe_run. Qed.
Lemma safe_deallocuvm_loop W D fuel d o a : safe (E := pmem * Ext) W D D (deallocuvm_loop kend fuel d o a).
Proof. revert a. induction fuel; intros a; cbn [deallocuvm_loop]; safe_run; auto. Qed.
#[local] Hint Resolve safe_setupkvm safe_deallocuvm_loop : safe.
Lemma safe_deallocuvm W D d o n : safe (E := pmem * Ext) W D D (deallocuvm kend d o n).
Proof. unfold deallocuvm. safe_run. Qed.
#[local] Hint Resolve safe_deallocuvm : safe.
Lemma safe_allocuvm_loop W D fuel d o n a : safe (E := pmem * Ext) W D D (allocuvm_loop kend fuel d o n a).
Proof. revert a. induction fuel; intros a; cbn [allocuvm_loop]; safe_run; auto. Qed.
#[local] Hint Resolve safe_allocuvm_loop : safe.
Lemma safe_allocuvm W D d o n : safe (E := pmem * Ext) W D D (allocuvm kend d o n).
Proof. unfold allocuvm. safe_run. Qed.
Lemma safe_freevm W D d : safe (E := pmem * Ext) W D D (freevm kend d).
Proof. unfold freevm. safe_run. Qed.
#[local] Hint Resolve safe_freevm : safe.
Lemma safe_copyuvm_loop W D fuel p n d i : safe (E := pmem * Ext) W D D (copyuvm_loop kend fuel p n d i).
Proof. revert i. induction fuel; intros i; cbn [copyuvm_loop]; safe_run; auto. Qed.
#[local] Hint Resolve safe_copyuvm_loop : safe.
Lemma safe_copyuvm W D p n : safe (E := pmem * Ext) W D D (copyuvm kend data p n).
Proof. unfold copyuvm. safe_run. Qed.
Lemma safe_switchuvm W D p : safe (E := pmem * Ext) W D D (switchuvm ts_addr p).
Proof. unfold switchuvm. safe_run. Qed.

End Memory.

(** ** bio.c, log.c *)

Section Blocks.
Context {Ext : Type}.
Abbreviation E := (bio * (logst * Ext))%type.

Lemma safe_getβ {A} W D (f : bio → A) : safe (E := E) W D D (getβ f).
Proof. apply safe_idle, idle_gets. Qed.
Lemma safe_modβ W D f : safe (E := E) W D D (modβ f).
Proof. by apply safe_idle, idle_modify. Qed.
Lemma safe_setb W D b f : safe (E := E) W D D (setb b f).
Proof. apply safe_modβ. Qed.
#[local] Hint Resolve safe_getβ safe_modβ safe_setb : safe.
Lemma safe_getb {A} W D b (f : buf → A) : safe (E := E) W D D (getb b f).
Proof. unfold getb. safe_run. Qed.
#[local] Hint Resolve safe_getb : safe.
Lemma safe_iderw W D b : safe (E := E) W D D (iderw b).
Proof. unfold iderw. safe_run. Qed.
#[local] Hint Resolve safe_iderw : safe.
Lemma safe_bread D dev sec : safe (E := E) true D D (bread dev sec).
Proof. unfold bread, bget, bget_loop. safe_run. Qed.
Lemma safe_bwrite W D b : safe (E := E) W D D (bwrite b).
Proof. unfold bwrite. safe_run. Qed.
Lemma safe_brelse D b : safe (E := E) true D D (brelse b).
Proof. unfold brelse. safe_run. Qed.
#[local] Hint Resolve safe_bread safe_bwrite safe_brelse : safe.

Lemma safe_getg {A} W D (f : logst → A) : safe (E := E) W D D (getg f).
Proof. apply safe_idle, idle_gets. Qed.
Lemma safe_setg W D f : safe (E := E) W D D (setg f).
Proof. by apply safe_idle, idle_modify. Qed.
#[local] Hint Resolve safe_getg safe_setg : safe.
Lemma safe_readsb D dev : safe (E := E) true D D (readsb dev).
Proof. unfold readsb. safe_run. Qed.
Lemma safe_install_trans D : safe (E := E) true D D install_trans.
Proof. unfold install_trans, install_one. safe_run. Qed.
Lemma safe_read_head D : safe (E := E) true D D read_head.
Proof. unfold read_head. safe_run. Qed.
Lemma safe_write_head D : safe (E := E) true D D write_head.
Proof. unfold write_head. safe_run. Qed.
#[local] Hint Resolve safe_readsb safe_install_trans safe_read_head safe_write_head : safe.
Lemma safe_initlog D : safe (E := E) true D D initlog.
Proof. unfold initlog, recover_from_log. safe_run. Qed.
Lemma safe_begin_trans D : safe (E := E) true D D begin_trans.
Proof. unfold begin_trans, begin_trans_loop. safe_run. Qed.
Lemma safe_commit_trans D : safe (E := E) true D D commit_trans.
Proof. unfold commit_trans. safe_run. Qed.
Lemma safe_log_write D b : safe (E := E) true D D (log_write b).
Proof. unfold log_write. safe_run. Qed.

End Blocks.
#[export] Hint Resolve safe_getβ safe_modβ safe_setb safe_getb safe_bread safe_bwrite safe_brelse
  safe_readsb safe_begin_trans safe_commit_trans safe_log_write : safe.

(** ** fs.c *)

Section Files.
Context {Ext : Type}.
Abbreviation E := (bio * (logst * (list inode * Ext)))%type.
Abbreviation K := (core * E)%type.
(** Reading from a device waits only as the others do. *)
Context (devsw : Z → option ((nat → Z → M K (Z * list Z)) * (nat → list Z → Z → M K Z))).

Lemma safe_geti {A} W D i (f : inode → A) : safe (E := E) W D D (geti i f).
Proof.
  unfold geti. eapply safe_bind; [apply safe_idle, idle_gets|]. intros. safe_run.
Qed.
Lemma safe_seti W D i f : safe (E := E) W D D (seti i f).
Proof. by apply safe_idle, idle_modify. Qed.
#[local] Hint Resolve safe_geti safe_seti : safe.

Lemma safe_bzero D dev b : safe (E := E) true D D (bzero dev b).
Proof. unfold bzero. safe_run. Qed.
#[local] Hint Resolve safe_bzero : safe.
Lemma safe_balloc_loop D fuel dev size ni b : safe (E := E) true D D (balloc_loop fuel dev size ni b).
Proof. revert b. induction fuel; intros b; cbn [balloc_loop]; safe_run; auto. Qed.
#[local] Hint Resolve safe_balloc_loop : safe.
Lemma safe_balloc D dev : safe (E := E) true D D (balloc dev).
Proof. unfold balloc. safe_run. Qed.
Lemma safe_bfree D dev b : safe (E := E) true D D (bfree dev b).
Proof. unfold bfree. safe_run. Qed.
#[local] Hint Resolve safe_balloc safe_bfree : safe.

Lemma safe_iget W D dev inum : safe (E := E) W D D (iget dev inum).
Proof.
  unfold iget. eapply safe_bind; [apply safe_acquire|]. intros _.
  eapply safe_bind; [apply safe_idle, idle_gets|]. intros [[?|] [?|]]; safe_run.
Qed.
Lemma safe_iupdate D ip : safe (E := E) true D D (iupdate ip).
Proof. unfold iupdate. safe_run. Qed.
Lemma safe_idup W D ip : safe (E := E) W D D (idup ip).
Proof. unfold idup. safe_run. Qed.
Lemma safe_ilock D o : safe (E := E) true D D (ilock o).
Proof. unfold ilock, ilock_loop. safe_run. Qed.
Lemma safe_iunlock D o : safe (E := E) true D D (iunlock o).
Proof. unfold iunlock. safe_run. Qed.
#[local] Hint Resolve safe_iget safe_iupdate safe_idup safe_ilock safe_iunlock : safe.
Lemma safe_bmap D ip bn : safe (E := E) true D D (bmap ip bn).
Proof. unfold bmap. safe_run. Qed.
Lemma safe_itrunc D ip : safe (E := E) true D D (itrunc ip).
Proof. unfold itrunc. safe_run. Qed.
#[local] Hint Resolve safe_bmap safe_itrunc : safe.
Lemma safe_iput D ip : safe (E := E) true D D (iput ip).
Proof. unfold iput. safe_run. Qed.
#[local] Hint Resolve safe_iput : safe.
Lemma safe_iunlockput D ip : safe (E := E) true D D (iunlockput ip).
Proof. unfold iunlockput. safe_run. Qed.
#[local] Hint Resolve safe_iunlockput : safe.

Hypothesis devsw_safe : ∀ major r w D ip n, devsw major = Some (r, w) → safe (E := E) true D D (r ip n).

Lemma safe_readi_loop D fuel ip off n tot acc :
  safe (E := E) true D D (readi_loop fuel ip off n tot acc).
Proof. revert off tot acc. induction fuel; intros; cbn [readi_loop]; safe_run; auto. Qed.
#[local] Hint Resolve safe_readi_loop : safe.
Lemma safe_readi D ip off n : safe (E := E) true D D (readi devsw ip off n).
Proof.
  unfold readi. eapply safe_bind; [auto with safe|]. intros t. destruct (t =? T_DEV); [|safe_run].
  eapply safe_bind; [auto with safe|]. intros major. unfold dev_entry.
  destruct (_ || _); [safe_run|]. destruct (devsw major) as [[r w]|] eqn:Hd; [|safe_run].
  by apply (devsw_safe major r w).
Qed.
#[local] Hint Resolve safe_readi : safe.
Lemma safe_dirlookup_loop D fuel dp name off :
  safe (E := E) true D D (dirlookup_loop devsw fuel dp name off).
Proof. revert off. induction fuel; intros; cbn [dirlookup_loop]; safe_run; auto. Qed.
#[local] Hint Resolve safe_dirlookup_loop : safe.
Lemma safe_dirlookup D dp name : safe (E := E) true D D (dirlookup devsw dp name).
Proof. unfold dirlookup. safe_run. Qed.
#[local] Hint Resolve safe_dirlookup : safe.
Lemma safe_namex_loop D fuel path par name ip :
  safe (E := E) true D D (namex_loop devsw fuel path par name ip).
Proof. revert path name ip. induction fuel; intros; cbn [namex_loop]; safe_run; auto. Qed.
#[local] Hint Resolve safe_namex_loop : safe.
Lemma safe_namei D path : safe (E := E) true D D (namei devsw path).
Proof. unfold namei, namex. safe_run. Qed.

End Files.
#[export] Hint Resolve safe_ilock safe_iunlock safe_idup safe_iput : safe.

(** ** pipe.c, console.c, file.c *)

Section Ends.
Context {Ext : Type}.
Abbreviation E := (bio * (logst * (list inode * (filest * (consst * Ext)))))%type.
Abbreviation K := (core * E)%type.
Context (kfree : Z → M K unit) (kfree_safe : ∀ D v, safe (E := E) true D D (kfree v)).
#[local] Hint Resolve kfree_safe : safe.

Lemma safe_getft {A} W D (f : list file → A) : safe (E := E) W D D (getft f).
Proof. apply safe_idle, idle_gets. Qed.
Lemma safe_setf W D i f : safe (E := E) W D D (setf i f).
Proof. by apply safe_idle, idle_modify. Qed.
#[local] Hint Resolve safe_getft safe_setf : safe.
Lemma safe_getf {A} W D i (f : file → A) : safe (E := E) W D D (getf i f).
Proof. unfold getf. safe_run. Qed.
#[local] Hint Resolve safe_getf : safe.
Lemma safe_filedup W D f : safe (E := E) W D D (filedup f).
Proof. unfold filedup. safe_run. Qed.

Lemma safe_getq {A} W D p (f : pipe → A) : safe (E := E) W D D (getq (LP := K_pipes) p f).
Proof. unfold getq. eapply safe_bind; [apply safe_idle, idle_gets|]. intros. safe_run. Qed.
Lemma safe_setq W D p f : safe (E := E) W D D (setq (LP := K_pipes) p f).
Proof. by apply safe_idle, idle_modify. Qed.
#[local] Hint Resolve safe_getq safe_setq : safe.
Lemma safe_pipeclose D p w :
  safe (E := E) true D D (pipeclose (LP := K_pipes) kfree p w).
Proof. unfold pipeclose. safe_run. Qed.
#[local] Hint Resolve safe_pipeclose : safe.
Lemma safe_fileclose D f : safe (E := E) true D D (fileclose kfree f).
Proof. unfold fileclose. safe_run. Qed.

(** Reading the console. *)
Context (LX : Lens K consst) (LX_core : ∀ x s, fst (lset (Lens := LX) x s) = fst s).
Abbreviation lockip := (λ ip : nat, ilock (Ext := filest * (consst * Ext)) (Some ip)).
Abbreviation unlockip := (λ ip : nat, iunlock (Ext := filest * (consst * Ext)) (Some ip)).

Lemma safe_getx {A} W D (f : consst → A) : safe (E := E) W D D (getx (LX := LX) f).
Proof. apply safe_idle, idle_gets. Qed.
Lemma safe_modx W D f : safe (E := E) W D D (modx (LX := LX) f).
Proof. apply safe_idle, idle_modify. intros s. apply LX_core. Qed.
#[local] Hint Resolve safe_getx safe_modx : safe.
Lemma safe_consoleread_loop D fuel ip n target acc :
  safe (E := E) true (L_input :: D) D (consoleread_loop (LX := LX) lockip fuel ip n target acc).
Proof. revert n acc. induction fuel; intros; cbn [consoleread_loop]; safe_run; auto. Qed.
#[local] Hint Resolve safe_consoleread_loop : safe.
Lemma safe_consoleread D ip n :
  safe (E := E) true D D (consoleread (LX := LX) lockip unlockip ip n).
Proof. unfold consoleread. safe_run. Qed.

End Ends.
