(* ===== verification/Kernel.v ===== *)
(** * The kernel put together

    Process management (proc.c) was proved against the class [KernelEnv] of what
    it needs of memory and files.  Here the class is implemented by the models
    of kalloc.c, vm.c, file.c, fs.c, log.c and console.c over one state, and its
    laws are proved, so that every theorem about processes holds of the whole
    kernel. *)
From S2P Require Import Prelude Spinlock Core CString Proc Quiet Kalloc Vm Bio Log Console Fs Pipe File KernelSafe.

Definition CONSOLE : Z := 1.

(** What a run returns when it does. *)
Definition returns {S A} (b : A) (m : M S A) : Prop :=
  ∀ s, match m s with Ret a _ => a = b | _ => True end.
Lemma returns_bind {S A B} (b : B) (m : M S A) (k : A → M S B) :
  (∀ a, returns b (k a)) → returns b (m ≫= k).
Proof. intros H s. unfold mbind, M_bind. destruct (m s); try done. by apply H. Qed.
Lemma returns_ret {S A} (b : A) : returns (S := S) b (mret b).
Proof. by intros s. Qed.
Lemma returns_lift {S T A} (L : Lens S T) (b : A) (m : M T A) : returns b m → returns b (lift m).
Proof. intros H s. unfold lift. specialize (H (lget s)). by destruct (m (lget s)). Qed.
Lemma filedup_returns {T} f : returns f (File.filedup (Ext := T) f).
Proof.
  apply returns_bind. intros _. apply returns_bind. intros r. destruct (r <? 1); [done|].
  do 2 (apply returns_bind; intros _). apply returns_ret.
Qed.
Lemma idup_returns {T} i : returns i (Fs.idup (Ext := T) i).
Proof. do 3 (apply returns_bind; intros _). apply returns_ret. Qed.

Lemma switchuvm_returns {T} ts_addr p q c (e : pmem * T) :
  ptable c !! p = Some q → pgdir q ≠ 0 → cur c = Some p →
  ∃ e', Vm.switchuvm ts_addr p (c, e) = Ret () (c, e').
Proof.
  intros Hp Hd Hc. unfold switchuvm, myproc, getp, getc, gets, modregs, modm, modify, deref,
    mbind, M_bind, mret, M_ret. simpl. rewrite Hc. simpl. rewrite Hp. simpl. rewrite Hp.
  rewrite (proj2 (Z.eqb_neq _ _) Hd). by eexists.
Qed.

Section Kernel.
Context {X : Type}.
(** Linker symbols and the address of this CPU's task state. *)
Context (kend data ts_addr : Z).

(** The state beside [core], as memory and as the file system see it. *)
Abbreviation E := (pmem * (bio * (logst * (list inode * (filest * (consst * X))))))%type.
Abbreviation EF := (bio * (logst * (list inode * (filest * (consst * (pmem * X))))))%type.
Abbreviation K := (core * E)%type.
Abbreviation KF := (core * EF)%type.

Definition to_files (s : K) : KF :=
  let '(c, (m, (b, (g, (i, (f, (o, x))))))) := s in (c, (b, (g, (i, (f, (o, (m, x))))))).
Definition of_files (s : KF) : K :=
  let '(c, (b, (g, (i, (f, (o, (m, x))))))) := s in (c, (m, (b, (g, (i, (f, (o, x))))))).

#[local] Program Instance K_KF : Lens K KF | 1 := {| lget := to_files; lset t _ := of_files t |}.
Solve All Obligations with
  (unfold to_files, of_files; intros; repeat match goal with p : _ * _ |- _ => destruct p end; done).
#[local] Program Instance KF_K : Lens KF K | 1 := {| lget := of_files; lset t _ := to_files t |}.
Solve All Obligations with
  (unfold to_files, of_files; intros; repeat match goal with p : _ * _ |- _ => destruct p end; done).

#[local] Program Instance KF_cons : Lens KF consst | 1 :=
  {| lget s := let '(c, (b, (g, (i, (f, (o, x)))))) := s in o;
     lset o s := let '(c, (b, (g, (i, (f, (_, x)))))) := s in (c, (b, (g, (i, (f, (o, x)))))) |}.
Solve All Obligations with (intros; repeat match goal with p : _ * _ |- _ => destruct p end; done).

Lemma K_KF_core : CoreLens K_KF.
Proof. split; intros; repeat match goal with p : _ * _ |- _ => destruct p end; done. Qed.
Lemma KF_K_core : CoreLens KF_K.
Proof. split; intros; repeat match goal with p : _ * _ |- _ => destruct p end; done. Qed.

Definition files {A} (m : M KF A) : M K A := lift m.
Definition memory {A} (m : M K A) : M KF A := lift m.

(** [devsw] after [consoleinit]. *)
Definition devsw (major : Z) : option ((nat → Z → M KF (Z * list Z)) * (nat → list Z → Z → M KF Z)) :=
  if major =? CONSOLE then
    Some (consoleread (λ ip, ilock (Some ip)) (λ ip, iunlock (Some ip)),
          consolewrite (λ ip, ilock (Some ip)) (λ ip, iunlock (Some ip)))
  else None.

#[export] Instance kernel_env : KernelEnv E := {|
  Proc.kalloc := Kalloc.kalloc;
  Proc.kfree := Kalloc.kfree kend;
  Proc.setupkvm := Vm.setupkvm data;
  Proc.inituvm := Vm.inituvm;
  Proc.allocuvm := Vm.allocuvm kend;
  Proc.deallocuvm := Vm.deallocuvm kend;
  Proc.copyuvm := Vm.copyuvm kend data;
  Proc.freevm := Vm.freevm kend;
  Proc.switchuvm := Vm.switchuvm ts_addr;
  Proc.filedup f := files (File.filedup f);
  Proc.fileclose f := files (File.fileclose (λ v, memory (Kalloc.kfree kend v)) f);
  Proc.idup i := files (Fs.idup i);
  Proc.iput i := files (Fs.iput i);
  Proc.namei p := files (Fs.namei devsw p);
  Proc.initlog := files Log.initlog |}.

(** The models of memory, files, log and console implement what proc.c needs
    of them: they give back every lock they take, leave the process table as it
    is but for waking sleepers, and sleep only as the caller, on a channel that
    is no process, holding [ptable.lock] alone; [filedup] and [idup] return
    their argument, and [switchuvm] of a process with a page table returns. *)
Theorem kernel_env_ok : KernelEnvOk E.
Proof.
  pose proof K_KF_core as L1. pose proof KF_K_core as L2.
  assert (Hd : ∀ major r w D ip n, devsw major = Some (r, w) → safe true D D (r ip n)).
  { intros major r w D ip n. unfold devsw. destruct (major =? CONSOLE); [|done].
    intros H. injection H as <- <-. apply safe_consoleread. intros x s.
    by repeat match goal with p : _ * _ |- _ => destruct p end. }
  split; intros; try (apply safe_core_const; simpl).
  - apply safe_kalloc.
  - apply safe_kfree.
  - apply safe_setupkvm.
  - apply safe_inituvm.
  - apply safe_allocuvm.
  - apply safe_deallocuvm.
  - apply safe_copyuvm.
  - apply safe_freevm.
  - apply safe_switchuvm.
  - by eapply switchuvm_returns.
  - apply (safe_lift K_KF), safe_filedup.
  - apply (safe_lift K_KF), safe_idup.
  - pose proof (returns_lift K_KF _ _ (filedup_returns f) s) as Hr. simpl in H. unfold files in H.
    by rewrite H in Hr.
  - pose proof (returns_lift K_KF _ _ (idup_returns i) s) as Hr. simpl in H. unfold files in H.
    by rewrite H in Hr.
  - apply safe_core_wakes, (safe_lift K_KF), safe_fileclose. intros D v.
    apply (safe_lift KF_K), safe_kfree.
  - apply safe_core_wakes, (safe_lift K_KF), safe_iput.
  - apply safe_core_wakes, (safe_lift K_KF), safe_namei. exact Hd.
  - apply safe_core_wakes, (safe_lift K_KF), safe_initlog.
Qed.

End Kernel.
