(* ===== verification/FirstProc.v ===== *)
(** * The first process on the whole kernel

    [inituvm] (vm.c) and [userinit] (proc.c) run on the kernel of [Kernel]: what
    the first process consists of, and that whatever the kernel does from there
    keeps the process table in order. *)
From S2P Require Import Prelude Spinlock Core CString Bio BioFacts Proc ProcInv ProcSteps Kalloc Vm VmFacts UvmFacts CopyFacts Log Console Fs Pipe File Kernel.
Import Mem MemFacts.

(** ** inituvm *)

Section Inituvm.
Context {Ext : Type} (kend : Z) (kend_above : KERNBASE < kend).
Abbreviation kend_high := (kend_high kend kend_above).

(** Operations that leave the processor's registers alone. *)
Definition keeps_regs {A} (m : M (core * (pmem * Ext)) A) : Prop :=
  ∀ s, match m s with Ret _ s' => regs (fst (snd s')) = regs (fst (snd s)) | _ => True end.
Lemma regs_ret {A} (a : A) : keeps_regs (mret a).
Proof. by intros s. Qed.
Lemma regs_panic {A} msg : keeps_regs (panic (A := A) msg).
Proof. by intros s. Qed.
Lemma regs_fault {A} : keeps_regs (fault (A := A)).
Proof. by intros s. Qed.
Lemma regs_getm {A} (f : pmem → A) : keeps_regs (getm f).
Proof. by intros s. Qed.
Lemma regs_modm f : (∀ p, regs (f p) = regs p) → keeps_regs (modm f).
Proof. intros H s. apply H. Qed.
Lemma regs_acquire l : keeps_regs (acquire l).
Proof. intros s. rewrite acquire_run. by case_decide. Qed.
Lemma regs_release l : keeps_regs (release l).
Proof. intros s. rewrite release_run. by case_decide. Qed.
Lemma regs_bind {A B} (m : M (core * (pmem * Ext)) A) (k : A → M (core * (pmem * Ext)) B) :
  keeps_regs m → (∀ a, keeps_regs (k a)) → keeps_regs (m ≫= k).
Proof.
  intros Hm Hk s. unfold mbind, M_bind. specialize (Hm s). destruct (m s) as [a s1| | |]; try done.
  specialize (Hk a s1). destruct (k a s1); congruence || done.
Qed.

Ltac keeps := repeat first
  [ apply regs_ret | apply regs_panic | apply regs_fault | apply regs_getm | apply regs_acquire
  | apply regs_release | apply regs_bind; [|intros ?] | by apply regs_modm
  | match goal with |- keeps_regs (if ?b then _ else _) => destruct b
                  | |- keeps_regs (when ?b _) => destruct b; cbn [when] end ].

Lemma regs_kalloc : keeps_regs Kalloc.kalloc.
Proof. unfold Kalloc.kalloc. keeps. Qed.
Lemma regs_walkpgdir d va alloc : keeps_regs (walkpgdir d va alloc).
Proof. unfold walkpgdir, Kalloc.kalloc. keeps. Qed.
Lemma regs_mappages_loop f : ∀ d a last pa perm, keeps_regs (mappages_loop f d a last pa perm).
Proof. induction f as [|f IH]; intros; cbn [mappages_loop]; keeps; first [apply regs_walkpgdir|apply IH]. Qed.
Lemma regs_map_kernel ks : ∀ d, keeps_regs (map_kernel ks d).
Proof. induction ks as [|k ks IH]; intros; cbn [map_kernel]; keeps; first [apply regs_mappages_loop|apply IH]. Qed.
Lemma regs_setupkvm data : keeps_regs (Vm.setupkvm data).
Proof.
  unfold Vm.setupkvm. apply regs_bind; [apply regs_kalloc|]. intros d. case_match; [apply regs_ret|].
  apply regs_bind; [by apply regs_modm|]. intros _. case_match; [apply regs_panic|apply regs_map_kernel].
Qed.
Lemma regs_inituvm d code : keeps_regs (Vm.inituvm d code).
Proof.
  unfold Vm.inituvm. case_match; [apply regs_panic|]. apply regs_bind; [apply regs_kalloc|]. intros v.
  case_match; [apply regs_fault|]. apply regs_bind; [by apply regs_modm|]. intros _.
  apply regs_bind; [apply regs_mappages_loop|]. intros _. by apply regs_modm.
Qed.

(** What [inituvm] makes of an empty address space [d]: one page, zeroed behind
    the image [code]. *)
Record one_page (code : list Z) (d : Z) (m0 m : mem) (free0 free : list Z) : Prop := {
  op_space : aspace kend m d free;
  op_present n : 0 ≤ n < UPAGES → present m d n ↔ n = 0;
  op_flags : PTE_FLAGS (entry m d 0) = Z.lor (Z.lor PTE_W PTE_U) PTE_P;
  op_code o : 0 ≤ o < PGSIZE → rd m (uframe m d 0 + o) = default 0 (code !! Z.to_nat o);
  op_other n : 0 < n < 2 ^ 20 → entry m d n = entry m0 d n;
  op_pages p : p ∈ free ∨ owned m d p ↔ p ∈ free0 ∨ owned m0 d p }.

(** A page of the space written to. *)
Lemma write_frame pm d free n m' :
  kmem_inv kend pm free → aspace kend (pm_mem pm) d free → 0 ≤ n < UPAGES → present (pm_mem pm) d n →
  (∀ b, ¬ in_page (uframe (pm_mem pm) d n) b → rd m' b = rd (pm_mem pm) b) →
  kmem_inv kend (set_mem m' pm) free ∧ aspace kend m' d free ∧
  (∀ i, dir_index i → pde m' d i = pde (pm_mem pm) d i) ∧
  (∀ n, 0 ≤ n < 2 ^ 20 → entry m' d n = entry (pm_mem pm) d n).
Proof.
  intros Hk Ha Hn Hp Hw. pose proof (as_frame _ _ _ _ Ha n Hn Hp) as Hl.
  destruct (loose_write kend kend_above pm d free _ m' ltac:(split; [done|apply Ha]) Hl Hw)
    as ([Hk' Hv] & P & En).
  split_and!; [done| |done|done].
  eapply aspace_shrink; [exact Ha|done..|]. intros k Hk1 _. split; [by apply En, upage|done].
Qed.

Lemma owned_ext m m' d p :
  (∀ i, dir_index i → pde m' d i = pde m d i) →
  (∀ n, 0 ≤ n < 2 ^ 20 → entry m' d n = entry m d n) → owned m' d p ↔ owned m d p.
Proof.
  intros P En. unfold owned. rewrite (table_page_pde _ _ _ P).
  assert (E : (∃ n, 0 ≤ n < UPAGES ∧ present m' d n ∧ uframe m' d n = p) ↔
    ∃ n, 0 ≤ n < UPAGES ∧ present m d n ∧ uframe m d n = p); [|tauto].
  unfold present, uframe.
  split; intros (n & Hn & H); exists n; (split; [done|]); by rewrite En in * by (by apply upage).
Qed.

Lemma rd_code m v (code : list Z) o :
  (∀ o, 0 ≤ o < PGSIZE → rd m (v + o) = 0) → 0 ≤ o < PGSIZE →
  rd (wr_range m v code) (v + o) = default 0 (code !! Z.to_nat o).
Proof.
  intros H Ho. rewrite rd_wr_range. replace (v + o - v) with o by lia. case_decide as Hd.
  - rewrite list_lookup_total_alt. destruct (lookup_lt_is_Some_2 code (Z.to_nat o)) as [b ->]; [lia|done].
  - rewrite H by done. by rewrite lookup_ge_None_2 by lia.
Qed.

(** The page [v] in hand, zeroed in [pm1]; [mappages] left [pm2]; the image is
    then written to [v]. *)
Section Mapped.
Context (code : list Z) (d v r : Z) (pm pm1 pm2 : pmem) (free1 free2 : list Z).
Context (F : framed kend d v pm pm1 free1)
  (M : page_mapped kend 0 v (Z.lor PTE_W PTE_U) d r pm1 pm2 free1 free2)
  (Ha : aspace kend (pm_mem pm) d (v :: free1)) (Hv : page_ok kend v)
  (Hk2 : kmem_inv kend pm2 free2)
  (Hnp : ∀ n, 0 ≤ n < UPAGES → ¬ present (pm_mem pm) d n)
  (Hzero : ∀ o, 0 ≤ o < PGSIZE → rd (pm_mem pm1) (v + o) = 0)
  (Hlen : Z.of_nat (length code) < PGSIZE).
Abbreviation m3 := (wr_range (pm_mem pm2) v code).

Lemma zero_page : 0 ≤ 0 < UPAGES ∧ 0 ≤ Z.lor PTE_W PTE_U < 4096.
Proof. done. Qed.

Lemma code_outside b : ¬ in_page v b → rd m3 b = rd (pm_mem pm2) b.
Proof. intros Hb. rewrite rd_wr_range, decide_False; [done|]. unfold in_page in Hb. lia. Qed.

Lemma code_foreign b : foreign (pm_mem pm) d (v :: free1) b → rd m3 b = rd (pm_mem pm) b.
Proof.
  intros Hb. destruct (fm_foreign kend 0 _ d v r pm pm1 pm2 free1 free2 F M b Hb) as [<- _].
  apply code_outside. destruct Hb as (_ & _ & Hb). apply Hb. by left.
Qed.

Lemma code_mapped : r = 0 → present (pm_mem pm2) d 0 → uframe (pm_mem pm2) d 0 = v →
  PTE_FLAGS (entry (pm_mem pm2) d 0) = Z.lor (Z.lor PTE_W PTE_U) PTE_P →
  kmem_inv kend (set_mem m3 pm2) free2 ∧ one_page code d (pm_mem pm) m3 (v :: free1) free2.
Proof.
  intros Hr E1 E2 E3. destruct zero_page as [Hz Hf].
  destruct (write_frame pm2 d free2 0 m3) as (K3 & A3 & P3 & N3); [done|apply M|done|done| |].
  { rewrite E2. exact code_outside. }
  assert (Hoth : ∀ n, 0 < n < 2 ^ 20 → entry m3 d n = entry (pm_mem pm) d n).
  { intros n Hn. rewrite N3 by lia. apply (fm_other kend 0 _ d v r pm pm1 pm2 free1 free2 F M); lia. }
  split; [done|]. split; [done|..|done|].
  - intros n Hn. destruct (decide (n = 0)) as [->|Hne].
    + unfold present in *. by rewrite N3.
    + unfold present. rewrite Hoth by (unfold UPAGES in *; lia). split; [by intros ?%Hnp|lia].
  - by rewrite N3.
  - intros o Ho. unfold uframe in *. rewrite N3, E2 by done. apply rd_code; [|done].
    intros o' Ho'. rewrite <-(Hzero o' Ho').
    apply (fm_keep kend kend_above 0 _ d v r pm pm1 pm2 free1 free2 F M); [apply F|done].
  - intros p. rewrite elem_of_cons, (owned_ext _ _ _ _ P3 N3).
    rewrite (fm_owned kend kend_above 0 _ d v r pm pm1 pm2 free1 free2 F M Hz Hf (Hnp 0 Hz)). tauto.
Qed.

(** Without a page for the table: every page the space could have is a table,
    the page in hand apart. *)
Lemma code_unmapped : r = -1 → free2 = [] → ¬ present (pm_mem pm2) d 0 →
  kmem_inv kend (set_mem m3 pm2) free2 ∧
  (∀ p, p ∈ v :: free1 ∨ table_page (pm_mem pm) d p → p = v ∨ table_page m3 d p) ∧
  ∀ i, dir_index i → has m3 d i → has (pm_mem pm) d i ∨ i = 0.
Proof.
  intros Hr Hf2 E1. destruct zero_page as [Hz Hf]. destruct (pt_dir _ _ _ _ (as_pt _ _ _ _ Ha)) as [Hdok Hd].
  assert (Hnv : ∀ n, 0 ≤ n < UPAGES → ¬ present (pm_mem pm2) d n).
  { intros n Hn. destruct (decide (n = 0)) as [->|Hne]; [done|].
    destruct (fm_lift kend 0 _ d v r pm pm1 pm2 free1 free2 F M n Hn Hne) as [-> _]. by apply Hnp. }
  assert (L2 : loose kend (pm_mem pm2) d free2 v).
  { rewrite Hf2. split; [done|by intros ?%elem_of_nil|intros ->; apply Hd; by left|].
    intros Ht. apply (fm_lost kend kend_above 0 _ d v r pm pm1 pm2 free1 free2 F M Hz Hf (Hnp 0 Hz) Hr).
    right. by left. }
  destruct (loose_write kend kend_above pm2 d free2 v m3 ltac:(split; [done|apply M]) L2 code_outside)
    as ([K3 _] & P3 & _).
  split_and!; [done| |].
  2:{ intros i Hi Hh. unfold has in *. rewrite P3 in Hh by done. rewrite <-(fd_pde _ _ _ _ _ _ F i Hi).
      by apply (pm_has _ _ _ _ _ _ _ _ _ _ M). }
  intros p Hp. rewrite (table_page_pde _ _ _ P3). destruct (decide (p = v)) as [|Hpv]; [by left|right].
  assert (Hp' : p ∈ free1 ∨ table_page (pm_mem pm) d p) by (rewrite elem_of_cons in Hp; tauto).
  assert (Hpd : p ≠ d).
  { intros ->. destruct Hp' as [?|(_ & _ & Ht)%(table_page_ok kend _ _ _ _ (as_pt _ _ _ _ Ha))]; [|done].
    apply Hd. by right. }
  assert (Hp2 : p ∈ free1 ∨ owned (pm_mem pm) d p ∨ r = 0 ∧ p = v) by (unfold owned; tauto).
  apply (fm_owned kend kend_above 0 _ d v r pm pm1 pm2 free1 free2 F M Hz Hf (Hnp 0 Hz)) in Hp2.
  rewrite Hf2, elem_of_nil in Hp2. destruct Hp2 as [[]|[?|[?|(n & Hn & Hpn & _)]]]; [done..|by destruct (Hnv n Hn)].
Qed.
End Mapped.

Lemma inituvm_run code d c pm (x : Ext) v free1 :
  lock_free c pm → kmem_inv kend pm (v :: free1) → aspace kend (pm_mem pm) d (v :: free1) →
  (∀ n, 0 ≤ n < UPAGES → ¬ present (pm_mem pm) d n) → Z.of_nat (length code) < PGSIZE →
  ∃ pm' free', inituvm d code (c, (pm, x)) = Ret () (c, (pm', x)) ∧
    use_lock pm' = use_lock pm ∧ kmem_inv kend pm' free' ∧
    (∀ b, foreign (pm_mem pm) d (v :: free1) b → rd (pm_mem pm') b = rd (pm_mem pm) b) ∧
    ((∀ p, p ∈ v :: free1 ∨ table_page (pm_mem pm) d p → p = v ∨ table_page (pm_mem pm') d p) ∧
     (∀ i, dir_index i → has (pm_mem pm') d i → has (pm_mem pm) d i ∨ i = 0) ∨
     one_page code d (pm_mem pm) (pm_mem pm') (v :: free1) free').
Proof.
  intros Hl Hkm Ha Hnp Hlen. unfold inituvm. rewrite (proj2 (Z.leb_gt _ _) Hlen).
  rewrite (bind_eq _ _ _ _ _ (kalloc_run kend kend_high c pm x Hl)).
  destruct (kalloced_inv kend kend_high pm _ Hkm) as (_ & -> & Hm & _).
  assert (Hv : page_ok kend v) by (eapply (linked_ok kend kend_high); [apply Hkm|by left]).
  pose proof (page_ok_range kend kend_high v Hv) as Hvr. cbn [head]. change (default 0 (Some v)) with v.
  rewrite (proj2 (Z.eqb_neq v 0)) by lia. cbv iota.
  rewrite (bind_eq (memset_k v 0 PGSIZE) _ (c, (kalloced pm, x)) () _ eq_refl). cbn [fst snd].
  rewrite Hm. set (m1 := memset (pm_mem pm) v 0 PGSIZE).
  assert (F : framed kend d v pm (set_mem m1 (kalloced pm)) free1).
  { apply new_frame; [done|done|apply Ha|]. intros b Hb. unfold m1. rewrite rd_memset by done.
    by rewrite decide_False. }
  assert (D : ∀ o, 0 ≤ o < PGSIZE → rd m1 (v + o) = 0).
  { intros o Ho. unfold m1. rewrite rd_memset by done. by rewrite decide_True by lia. }
  set (pm1 := set_mem m1 (kalloced pm)) in *. destruct zero_page as [Hz Hf].
  destruct (map_page_run kend kend_above d 0 v (Z.lor PTE_W PTE_U) c pm1 x free1)
    as (r & pm2 & free2 & R & M); try apply F; try done.
  { unfold lock_free. by rewrite (fd_lock _ _ _ _ _ _ F). }
  { destruct (framed_lift kend d v pm pm1 free1 0 F Hz) as [-> _]. by apply Hnp. }
  assert (Hk2 : kmem_inv kend pm2 free2) by apply M.
  rewrite (bind_eq _ _ _ _ _ R). eexists (set_mem (wr_range (pm_mem pm2) v code) pm2), free2.
  split; [done|]. split; [by apply (fm_lock kend 0 _ d v r pm pm1 pm2 free1 free2 F M)|].
  pose proof (code_foreign code d v r pm pm1 pm2 free1 free2 F M Hlen) as Hfr.
  destruct (fm_entry kend kend_above 0 _ d v r pm pm1 pm2 free1 free2 F M Hz Hf (Hnp 0 Hz))
    as [(Hr & E1 & E2 & E3)|(Hr & Hf2 & E1)].
  - destruct (code_mapped code d v r pm pm1 pm2 free1 free2 F M Hk2 Hnp D Hlen) as [K O]; [done..|].
    split_and!; [exact K|exact Hfr|by right].
  - destruct (code_unmapped code d v r pm pm1 pm2 free1 free2 F M Ha Hv Hk2 Hnp D Hlen) as (K & T & H); [done..|].
    split_and!; [exact K|exact Hfr|]. left. split; [exact T|exact H].
Qed.
End Inituvm.

(** ** userinit *)

(** The first process: its kernel stack [k] and page directory [d]. *)
Definition first_proc (k d : Z) : proc :=
  mkProc PGSIZE d k RUNNABLE 1 None
    (mkTf 0 0 0 0 0 0 0 0 0 0 0x2B 0x2B 0 0 0 0x23 FL_IF PGSIZE 0x2B)
    (mkCtx 0 0 0 0 forkret_addr trapret_addr) None 0 (replicate NOFILE None) (Some 0%nat)
    ([105; 110; 105; 116; 99; 111; 100; 101] ++ replicate 8 0) 0 20.
Definition first_core (k d : Z) : core :=
  mkCore ∅ (first_proc k d :: replicate 63 proc0) 2 (Some 0%nat) None.
(** The inode cache with the root directory in its first entry. *)
Definition icache_root : list inode :=
  recycle_inode ROOTDEV ROOTINO inode0 :: replicate 49 inode0.

Lemma namei_root {X} devsw c b g (x : X) : locks c = ∅ →
  Fs.namei devsw [47; 0] (c, (b, (g, (icache0, x)))) = Ret (Some 0%nat) (c, (b, (g, (icache_root, x)))).
Proof.
  intros Hl. assert (Hc : set_locks (({[L_icache]} ∪ locks c) ∖ {[L_icache]}) c = c).
  { destruct c. unfold set_locks. simpl in *. f_equal. set_solver. }
  unfold namei, namex. cbn [head].
  set (s := (c, (b, (g, (icache0, x))))). set (c1 := set_locks ({[L_icache]} ∪ locks c) c) in *.
  assert (Hi : iget ROOTDEV ROOTINO s = Ret 0%nat (c, (b, (g, (icache_root, x))))).
  { unfold iget. rewrite (bind_eq (acquire L_icache) _ s () (c1, (b, (g, (icache0, x))))).
    2:{ rewrite acquire_run. simpl. rewrite decide_False by set_solver. done. }
    rewrite (bind_eq (gets _) _ _ (None, Some 0%nat) (c1, (b, (g, (icache0, x))))) by done. cbv iota.
    rewrite (bind_eq (Fs.seti _ _) _ _ () (c1, (b, (g, (icache_root, x))))) by done.
    erewrite bind_eq; [reflexivity|]. rewrite release_run. simpl.
    rewrite decide_True by set_solver. f_equal. f_equal. exact Hc. }
  rewrite (bind_eq _ _ s (Some 0%nat, replicate DIRSIZ 0) (c, (b, (g, (icache_root, x))))); [done|].
  rewrite (bind_eq (deref (Some 47)) _ s 47 s eq_refl). change (47 =? 47) with true. cbv iota.
  by rewrite (bind_eq _ _ _ _ _ Hi).
Qed.

Lemma setp_run {K} i f c (k : K) : setp i f (c, k) = Ret () (upd_proc i f c, k).
Proof. reflexivity. Qed.

Section FirstProc.
Context {X : Type} (kend data ts_addr : Z) (kend_above : KERNBASE < kend)
  (data_page : data mod PGSIZE = 0) (data_low : KERNLINK < data) (data_high : data < KERNBASE + PHYSTOP).
Abbreviation kend_high := (kend_high kend kend_above).
Abbreviation rest := (bio * (logst * (list inode * (filest * (consst * X)))))%type.

#[local] Instance the_kernel : KernelEnv (pmem * rest) := kernel_env kend data ts_addr.
#[local] Instance the_kernel_ok : KernelEnvOk (pmem * rest) := kernel_env_ok kend data ts_addr.

Lemma allocproc_first pm (y : rest) k free :
  kmem_inv kend pm (k :: free) →
  allocproc 500 (core0, (pm, y)) = Ret (Some 0%nat)
    (after_alloc 0 (embryo 500 1 k) core0, (kalloced pm, y)).
Proof.
  intros Hk. set (e := (pm, y)).
  set (c1 := set_locks {[L_ptable]} core0). set (c2 := upd_proc 0 (set_pid 1) (upd_proc 0 (set_state EMBRYO) c1)).
  set (c3 := set_locks ∅ (set_nextpid 2 c2)).
  unfold allocproc.
  rewrite (bind_eq (acquire L_ptable) _ (core0, e) () (c1, e)) by by vm_compute.
  rewrite (bind_eq _ _ (c1, e) (Some 0%nat) (c1, e)) by by vm_compute.
  rewrite (bind_eq _ _ (c1, e) () (upd_proc 0 (set_state EMBRYO) c1, e)) by by vm_compute.
  rewrite (bind_eq _ _ _ 1 (upd_proc 0 (set_state EMBRYO) c1, e)) by by vm_compute.
  rewrite (bind_eq _ _ _ () (c2, e)) by by vm_compute.
  rewrite (bind_eq _ _ _ () (set_nextpid 2 c2, e)) by by vm_compute.
  rewrite (bind_eq _ _ _ () (c3, e)) by by vm_compute.
  rewrite (bind_eq kalloc _ (c3, e) _ _ (kalloc_run kend kend_high c3 pm y ltac:(by vm_compute))).
  destruct (kalloced_inv kend kend_high pm _ Hk) as (_ & -> & _ & _). cbn [head]. change (default 0 (Some k)) with k.
  assert (Hko : page_ok kend k) by (eapply (linked_ok kend kend_high); [apply Hk|by left]).
  pose proof (page_ok_range kend kend_high k Hko) as Hkr.
  rewrite (bind_eq (setp 0 (set_kstack k)) _ (c3, (kalloced pm, y)) () (upd_proc 0 (set_kstack k) c3, (kalloced pm, y))) by done.
  rewrite (proj2 (Z.eqb_neq k 0)) by lia. cbv iota.
  do 4 (erewrite bind_eq by reflexivity). unfold mret, M_ret. f_equal.
Qed.

(** An empty address space as [setupkvm] makes it. *)
Lemma empty_space m d free :
  pt_ok kend m d free → (∀ n, 0 ≤ n < 2 ^ 20 → entry m d n = kernel_entry (kmap data) 0 n) →
  aspace kend m d free ∧ ∀ n, 0 ≤ n < UPAGES → ¬ present m d n.
Proof.
  intros Hpt He. assert (Hnp : ∀ n, 0 ≤ n < UPAGES → ¬ present m d n).
  { intros n Hn. unfold present. rewrite He by (by apply upage).
    rewrite (kernel_entry_user data data_page data_low data_high) by lia. by intros []. }
  split; [|done]. constructor; [done|..]; intros n Hn; [by intros ?%Hnp|].
  intros Hn' _ ?%Hnp; done.
Qed.

(** The memory of the first process: kernel stack [k], page directory [d]. *)
Record first_space (code : list Z) (k d : Z) (m : mem) (free0 free : list Z) : Prop := {
  fs_space : aspace kend m d free;
  fs_present n : 0 ≤ n < UPAGES → present m d n ↔ n = 0;
  fs_flags : PTE_FLAGS (entry m d 0) = Z.lor (Z.lor PTE_W PTE_U) PTE_P;
  fs_code o : 0 ≤ o < PGSIZE → rd m (uframe m d 0 + o) = default 0 (code !! Z.to_nat o);
  fs_kernel n : UPAGES ≤ n < 2 ^ 20 → entry m d n = kernel_entry (kmap data) 0 n;
  fs_stack : k ∉ free ∧ ¬ owned m d k;
  fs_pages p : p ∈ free ∨ owned m d p ∨ p = k ↔ p ∈ free0 }.

(** The two allocations of [userinit] after [allocproc]. *)
Lemma first_space_run code c (c' : Z → core) pm (y : rest) k free :
  lock_free c pm → (∀ d, locks (c' d) = ∅) → kmem_inv kend pm free → k ∉ free → 67 < Z.of_nat (length free) →
  Z.of_nat (length code) < PGSIZE →
  ∃ d pm1 pm2 free', d ≠ 0 ∧ Vm.setupkvm data (c, (pm, y)) = Ret d (c, (pm1, y)) ∧
    Vm.inituvm d code (c' d, (pm1, y)) = Ret () (c' d, (pm2, y)) ∧
    kmem_inv kend pm2 free' ∧ use_lock pm2 = use_lock pm ∧ regs pm2 = regs pm ∧ untouched free pm pm2 ∧
    first_space code k d (pm_mem pm2) (k :: free) free'.
Proof.
  intros Hl Hl' Hk Hkf Hlen Hcode.
  destruct (setupkvm_run kend kend_above data data_page data_low data_high c pm y free Hl Hk)
    as (d & pm1 & free1 & R1 & K1 & U1 & _ & W1 & [(_ & _ & ?)|(Hd & Hpt & Hp1 & He1 & Hd1)]); [lia|].
  destruct (empty_space _ _ _ Hpt He1) as [A1 N1].
  destruct free1 as [|v free1].
  { pose proof (table_pages_in kernel_dirs (pm_mem pm1) d [d] free ltac:(apply Hk) Hd1) as Hb.
    enough (length free ≤ 65)%nat by lia. apply Hb. intros p Hp.
    apply Hp1 in Hp as [?%elem_of_nil|[->|?]]; [done|left; by left|by right]. }
  destruct (inituvm_run kend kend_above code d (c' d) pm1 y v free1)
    as (pm2 & free2 & R2 & U2 & K2 & W2 & [[Hf Hd2]|O]); try done.
  { intros _. rewrite Hl'. set_solver. }
  { pose proof (table_pages_in (0 :: kernel_dirs) (pm_mem pm2) d [d; v] free ltac:(apply Hk)) as Hb.
    enough (length free ≤ 67)%nat by lia. apply Hb.
    - intros i Hi Hh. destruct (Hd2 i Hi Hh) as [?| ->]; [right; by apply Hd1|by left].
    - intros p Hp. apply Hp1 in Hp as [Hp|[->|Hp]]; [|left; by left|];
        (destruct (Hf p) as [->|?]; [tauto|left; right; by left|by right]). }
  exists d, pm1, pm2, free2. split_and!; try done; [congruence| | |].
  { pose proof (regs_setupkvm data (c, (pm, y))) as G1. rewrite R1 in G1.
    pose proof (regs_inituvm d code (c' d, (pm1, y))) as G2. rewrite R2 in G2. simpl in *. congruence. }
  { intros b Hb. rewrite W2; [by apply W1|]. split_and!.
    - apply Hb, Hp1. right. by left.
    - intros i Hi Hh. apply Hb, Hp1. right; right. by exists i.
    - intros p Hp. apply Hb, Hp1. by left. }
  destruct O as [O1 O2 O3 O4 O5 O6].
  assert (Hpg : ∀ p, p ∈ free2 ∨ owned (pm_mem pm2) d p ↔ p ∈ free).
  { intros p. rewrite O6, <-Hp1. unfold owned. split; [|tauto].
    intros [?|[?|[?|(n & Hn & Hpn & _)]]]; [tauto..|by destruct (N1 n Hn)]. }
  split; try done.
  - intros n Hn. rewrite O5 by (unfold UPAGES in *; lia). apply He1. unfold UPAGES in *; lia.
  - specialize (Hpg k). tauto.
  - intros p. rewrite elem_of_cons. specialize (Hpg p). tauto.
Qed.

Lemma namei_files c pm b g f o (x : X) : locks c = ∅ →
  Proc.namei [47; 0] (c, (pm, (b, (g, (icache0, (f, (o, x))))))) =
    Ret (Some 0%nat) (c, (pm, (b, (g, (icache_root, (f, (o, x))))))).
Proof.
  intros Hl. simpl. unfold files, lift. cbn [lget K_KF to_files lset of_files].
  by rewrite namei_root.
Qed.

(** With 69 free pages and an image below a page, [userinit] returns.  Slot 0 of
    the process table is then runnable with pid 1, a stride of 20, a trap frame
    that starts it in user mode at address 0 with a stack at the end of its page,
    and the root directory; its space is one page, for the user to read and write,
    with the image and zeros behind it, and the kernel's map; kernel stack,
    directory, tables and page are free pages from before, used once, the rest is
    still free, and no byte outside of free pages has changed.  Whatever process
    operations of the kernel run from there, in any order, the process table
    stays well formed. *)
Lemma userinit_run code pm b g f o (x : X) free :
  kmem_inv kend pm free → 69 ≤ Z.of_nat (length free) → Z.of_nat (length code) < PGSIZE →
  ∃ k d pm' free',
    let s := (first_core k d, (pm', (b, (g, (icache_root, (f, (o, x))))))) in
    userinit code (core0, (pm, (b, (g, (icache0, (f, (o, x))))))) = Ret () s ∧
    kmem_inv kend pm' free' ∧ use_lock pm' = use_lock pm ∧ regs pm' = regs pm ∧ untouched free pm pm' ∧
    first_space code k d (pm_mem pm') free free' ∧
    ∀ s', rtc pstep s s' → wf (fst s').
Proof.
  intros Hk Hlen Hcode. destruct free as [|k free]; [simpl in Hlen; lia|].
  set (y := (b, (g, (icache0, (f, (o, x)))))).
  set (c1 := after_alloc 0 (embryo 500 1 k) core0).
  set (c2 := set_initproc (Some 0%nat) c1).
  destruct (kalloced_inv kend kend_high pm _ Hk) as (Hk1 & _ & Hm & _).
  destruct (first_space_run code c2 (λ d, upd_proc 0 (set_pgdir d) c2) (kalloced pm) y k free)
    as (d & pm1 & pm2 & free' & Hd & R1 & R2 & K2 & U2 & G2 & W2 & S2); [|by vm_compute|done| | |done|].
  { intros _. by vm_compute. }
  { destruct Hk as [_ Hnd]. by apply list.NoDup_cons in Hnd as [? _]. }
  { simpl in Hlen. lia. }
  exists k, d, pm2, free'. intros s.
  assert (R : userinit code (core0, (pm, y)) = Ret () s).
  { unfold userinit. rewrite (bind_eq _ _ _ _ _ (allocproc_first pm y k free Hk)).
    rewrite (bind_eq (modc (set_initproc (Some 0%nat))) _ _ () (c2, (kalloced pm, y))) by done.
    rewrite (bind_eq (deref (Some 0%nat)) _ _ 0%nat (c2, (kalloced pm, y))) by done.
    rewrite (bind_eq (@Proc.setupkvm _ the_kernel) _ _ _ _ R1).
    set (c3 := upd_proc 0 (set_pgdir d) c2) in *.
    rewrite (bind_eq (setp 0 (set_pgdir d)) _ _ () (c3, (pm1, y))) by exact (setp_run 0 _ c2 (pm1, y)).
    rewrite (proj2 (Z.eqb_neq d 0)) by done. cbv iota zeta.
    rewrite (bind_eq (@Proc.inituvm _ the_kernel d code) _ _ _ _ R2).
    do 2 (erewrite bind_eq by reflexivity).
    erewrite (bind_eq (getp 0 name)) by reflexivity. erewrite (bind_eq (deref _)) by reflexivity.
    erewrite bind_eq by reflexivity.
    erewrite (bind_eq (@Proc.namei _ the_kernel [47; 0])) by (apply namei_files; reflexivity).
    erewrite bind_eq by reflexivity. reflexivity. }
  assert (Hre : use_lock (kalloced pm) = use_lock pm ∧ regs (kalloced pm) = regs pm).
  { unfold kalloced. by destruct (_ =? 0). }
  destruct Hre as [E1 E2]. split_and!; [exact R|done|congruence|congruence| |done|].
  { intros p Hp. rewrite W2; [by rewrite Hm|]. intros q Hq. apply Hp. by right. }
  intros s' Hs. eapply wf_steps; [exact Hs|]. by eapply wf_userinit.
Qed.
End FirstProc.

(** The image of initcode.S. *)
Definition initcode : list Z :=
  [0x68; 0x24; 0; 0; 0; 0x68; 0x1c; 0; 0; 0; 0x6a; 0; 0xb8; 7; 0; 0; 0; 0xcd; 0x40;
   0xb8; 2; 0; 0; 0; 0xcd; 0x40; 0xeb; 0xf7; 47; 105; 110; 105; 116; 0; 0; 0; 0x1c; 0; 0; 0; 0; 0; 0; 0].
