(* ===== verification/Main.v ===== *)
(** * Kernel start-up (main.c)

    [main] on the kernel of [Kernel], with the multiprocessor globals, the
    interrupt controllers, the trap table and [devsw] beside it.  The kernel is
    the one with the disk image linked in (memide.c).  [main] ends where it
    calls [scheduler], which does not return. *)
From S2P Require Import Prelude Spinlock Core CString Proc Kalloc Vm Mp Trap Bio Log Console Fs Pipe File Intr Kernel.
Import Mem.

Inductive driver := Consoleread | Consolewrite.

(** The globals of mp.c, picirq.c, uart.c, trap.c, the [devsw] of file.c, [cpu],
    [cpus[].started], [%idtr], and the devices [D]. *)
Record hw (D : Type) := mkHw {
  h_bcpu : Z; h_ismp : bool; h_ncpu : Z; h_ids : list Z; h_ioapicid : Z; h_lapic : Z; h_imcr : list (Z * Z);
  h_irqmask : Z; h_uart : bool; h_dev : D;
  h_devsw : gmap Z (driver * driver); h_idt : list gatedesc; h_idtr : list Z; h_cpu : Z; h_started : list bool }.
Arguments mkHw {D}. Arguments h_bcpu {D}. Arguments h_ismp {D}. Arguments h_ncpu {D}. Arguments h_ids {D}.
Arguments h_ioapicid {D}. Arguments h_lapic {D}. Arguments h_imcr {D}. Arguments h_irqmask {D}.
Arguments h_uart {D}. Arguments h_dev {D}. Arguments h_devsw {D}. Arguments h_idt {D}.
Arguments h_idtr {D}. Arguments h_cpu {D}. Arguments h_started {D}.

(** Before [main]: BSS, with [irqmask] as picirq.c initialises it. *)
Definition hw0 {D} (d : D) : hw D :=
  mkHw 0 false 0 (replicate (Z.to_nat NCPU) 0) 0 0 [] irqmask0 false d ∅ [] [] 0
    (replicate (Z.to_nat NCPU) false).

Section Main.
Context {D : Type} `{!IoOps D}.
Abbreviation E := (pmem * (bio * (logst * (list inode * (filest * (consst * hw D))))))%type.
Abbreviation K := (core * E)%type.
Implicit Types (h : hw D).

Definition set_h_devsw v h := mkHw (h_bcpu h) (h_ismp h) (h_ncpu h) (h_ids h) (h_ioapicid h) (h_lapic h) (h_imcr h)
  (h_irqmask h) (h_uart h) (h_dev h) v (h_idt h) (h_idtr h) (h_cpu h) (h_started h).
Definition set_h_idt v h := mkHw (h_bcpu h) (h_ismp h) (h_ncpu h) (h_ids h) (h_ioapicid h) (h_lapic h) (h_imcr h)
  (h_irqmask h) (h_uart h) (h_dev h) (h_devsw h) v (h_idtr h) (h_cpu h) (h_started h).
Definition set_h_idtr v h := mkHw (h_bcpu h) (h_ismp h) (h_ncpu h) (h_ids h) (h_ioapicid h) (h_lapic h) (h_imcr h)
  (h_irqmask h) (h_uart h) (h_dev h) (h_devsw h) (h_idt h) v (h_cpu h) (h_started h).
Definition set_h_cpu v h := mkHw (h_bcpu h) (h_ismp h) (h_ncpu h) (h_ids h) (h_ioapicid h) (h_lapic h) (h_imcr h)
  (h_irqmask h) (h_uart h) (h_dev h) (h_devsw h) (h_idt h) (h_idtr h) v (h_started h).
Definition set_h_started v h := mkHw (h_bcpu h) (h_ismp h) (h_ncpu h) (h_ids h) (h_ioapicid h) (h_lapic h) (h_imcr h)
  (h_irqmask h) (h_uart h) (h_dev h) (h_devsw h) (h_idt h) (h_idtr h) (h_cpu h) v.

(** The state of the interrupt files, whose memory is the kernel's. *)
Definition intr_of (m : mem) h : intr D :=
  mkIntr (h_irqmask h) (h_uart h)
    (mkMpst m (h_bcpu h) (h_ismp h) (h_ncpu h) (h_ids h) (h_ioapicid h) (h_lapic h) (h_imcr h)) (h_dev h).
Definition intr_to (t : intr D) h : hw D :=
  let p := imp t in
  mkHw (bcpu p) (ismp p) (ncpu p) (cpu_id p) (ioapicid p) (lapic p) (imcr_out p) (irqmask t) (uart t) (dev t)
    (h_devsw h) (h_idt h) (h_idtr h) (h_cpu h) (h_started h).

#[local] Program Instance K_hw : Lens K (hw D) | 1 :=
  {| lget s := let '(c, (m, (b, (g, (i, (f, (o, h))))))) := s in h;
     lset h s := let '(c, (m, (b, (g, (i, (f, (o, _))))))) := s in (c, (m, (b, (g, (i, (f, (o, h))))))) |}.
Solve All Obligations with (intros; repeat match goal with p : _ * _ |- _ => destruct p end; done).
#[local] Program Instance K_cons : Lens K consst | 1 :=
  {| lget s := let '(c, (m, (b, (g, (i, (f, (o, h))))))) := s in o;
     lset o s := let '(c, (m, (b, (g, (i, (f, (_, h))))))) := s in (c, (m, (b, (g, (i, (f, (o, h))))))) |}.
Solve All Obligations with (intros; repeat match goal with p : _ * _ |- _ => destruct p end; done).
#[local] Program Instance K_intr : Lens K (intr D) | 1 :=
  {| lget s := let '(c, (m, (b, (g, (i, (f, (o, h))))))) := s in intr_of (pm_mem m) h;
     lset t s := let '(c, (m, (b, (g, (i, (f, (o, h))))))) := s in
       (c, (set_mem (mp_mem (imp t)) m, (b, (g, (i, (f, (o, intr_to t h))))))) |}.
Next Obligation. intros [? ? [] ?] s. repeat match goal with p : _ * _ |- _ => destruct p end. done. Qed.
Next Obligation. intros s. repeat match goal with p : _ * _ |- _ => destruct p end. by destruct p, h. Qed.
Next Obligation. intros t t' s. repeat match goal with p : _ * _ |- _ => destruct p end. done. Qed.

#[local] Program Instance intr_mp : Lens (intr D) mpst | 1 := {| lget := imp; lset := set_imp |}.
Solve All Obligations with (intros; repeat match goal with s : intr D |- _ => destruct s end; done).
(** The console, [devsw] and the interrupt files together. *)
#[local] Program Instance K_console : Lens K (consst * gmap Z (driver * driver) * intr D) | 1 :=
  {| lget s := let '(c, (m, (b, (g, (i, (f, (o, h))))))) := s in (o, h_devsw h, intr_of (pm_mem m) h);
     lset t s := let '(c, (m, (b, (g, (i, (f, (_, h))))))) := s in
       (c, (set_mem (mp_mem (imp (snd t))) m,
            (b, (g, (i, (f, (fst (fst t), set_h_devsw (snd (fst t)) (intr_to (snd t) h)))))))) |}.
Next Obligation. intros [[? ?] [? ? [] ?]] s. repeat match goal with p : _ * _ |- _ => destruct p end. done. Qed.
Next Obligation. intros s. repeat match goal with p : _ * _ |- _ => destruct p end. by destruct p, h. Qed.
Next Obligation. intros t t' s. repeat match goal with p : _ * _ |- _ => destruct p end. done. Qed.

(** Linker symbols and addresses; the images linked in; what port 0x23 reads;
    [c->started] of another processor, as the code it runs sets it. *)
Context (kend data ts_addr idt mpenter_addr entrypgdir : Z) (cpu_addr : Z → Z) (vectors : nat → Z)
  (img : list (list Z)) (initcode entryother : list Z) (imcr_in : Z) (started : Z → D → bool * D) (fuel : nat).

Definition kernel_start {A} (m : M (intr D) A) : M K A := lift m.
Definition modh (f : hw D → hw D) : M K unit := modify (λ s : K, lset (f (lget s)) s).
Definition geth {A} (f : hw D → A) : M K A := gets (λ s : K, f (lget s)).

(** [mpinit] of mp.c on the kernel's memory. *)
Definition mpinit_k : M K unit := kernel_start (lift (mpinit fuel imcr_in)).

(** [seginit], which finds out on which processor it runs. *)
Definition seginit_k : M K unit :=
  n ← kernel_start cpunum;
  modh (set_h_cpu n) ;;
  Vm.seginit (cpu_addr n).

(** [cpu->id]. *)
Definition cpu_id_k : M K Z :=
  n ← geth h_cpu; o ← geth (λ h, h_ids h !! Z.to_nat n); deref o.

(** [consoleinit]; its locks need no initialisation. *)
Definition consoleinit_k : M K unit := lift (consoleinit Consoleread Consolewrite).

(** [ideinit] of memide.c. *)
Definition ideinit : M K unit :=
  files (Bio.modβ (λ β, mkBio (bufs β) img (dtrace β))).

(** *** startothers *)

(** [while(c->started == 0)]. *)
Fixpoint wait_started (f : nat) (c : Z) : M (intr D) unit :=
  match f with
  | O => fault
  | S f => d ← gets dev; modify (set_dev (snd (started c d))) ;;
           if fst (started c d) then mret () else wait_started f c
  end.

Definition startother (c : Z) : M K unit :=
  me ← kernel_start cpunum;
  if c =? me then mret () else
  let code := p2v 0x7000 in
  stack ← Kalloc.kalloc;
  wr32 (code - 4) (u32 (stack + KSTACKSIZE)) ;;
  wr32 (code - 8) mpenter_addr ;;
  wr32 (code - 12) (v2p entrypgdir) ;;
  o ← geth (λ h, h_ids h !! Z.to_nat c);
  id ← deref o;
  kernel_start (lapicstartap id (v2p code)) ;;
  kernel_start (wait_started fuel c).

Definition startothers : M K unit :=
  let code := p2v 0x7000 in
  modm (λ p, set_mem (wr_range (pm_mem p) code entryother) p) ;;
  n ← geth h_ncpu;
  for_each (seq 0 (Z.to_nat n)) (λ c : nat, startother (Z.of_nat c)).

(** *** mpmain, mpenter, main *)

Definition mpmain : M K unit :=
  id ← cpu_id_k;
  Console.cprintf (chars "cpu%d: starting" ++ [NL]) [AInt id] ;;
  modh (set_h_idtr (idtinit idt)) ;;
  c ← geth h_cpu;
  modh (λ h, set_h_started (<[Z.to_nat c := true]> (h_started h)) h).

Definition mpenter : M K unit :=
  switchkvm ;;
  seginit_k ;;
  kernel_start (lapicinit fuel) ;;
  mpmain.

(** The locks [pinit], [fileinit] and [iinit] set up are free from the start. *)
Definition main : M K unit :=
  kinit1 kend kend (p2v (4 * 1024 * 1024)) ;;
  kvmalloc data ;;
  mpinit_k ;;
  kernel_start (lapicinit fuel) ;;
  seginit_k ;;
  id ← cpu_id_k;
  Console.cprintf ([NL] ++ chars "cpu%d: starting xv6" ++ [NL; NL]) [AInt id] ;;
  kernel_start picinit ;;
  kernel_start ioapicinit ;;
  consoleinit_k ;;
  kernel_start uartinit ;;
  modh (set_h_idt (tvinit vectors)) ;;
  files binit ;;
  ideinit ;;
  mp ← geth h_ismp;
  when (negb mp) (kernel_start timerinit) ;;
  startothers ;;
  kinit2 kend (p2v (4 * 1024 * 1024)) (p2v PHYSTOP) ;;
  @userinit _ (kernel_env kend data ts_addr) initcode ;;
  mpmain.

End Main.
