(* ===== verification/MainFacts.v ===== *)
(** * The kernel comes up

    [main] of main.c on a machine with one processor and no multiprocessor
    tables: it gets to the scheduler, with every page of memory accounted for and
    the first process ready. *)
From S2P Require Import Prelude Spinlock Core CString Duo Mp MpFacts Trap Bio BioFacts Proc ProcInv ProcSteps Kalloc Vm VmFacts UvmFacts CopyFacts Log Console ConsoleFacts Fs Pipe File Intr Kernel FirstProc Main.
Import Mem MemFacts.

Lemma wp_run {S A} (m : M S A) a s s' Q : m s = Ret a s' → Q a s' → wp m Q s.
Proof. intros H HQ. apply wp_Ret. eauto. Qed.

(** ** The interrupt files leave the rest alone *)

Section Intr.
Context {D : Type} `{!IoOps D}.
Implicit Types (t : intr D).

(** [m] returns, and only touches [irqmask], [uart] and the devices. *)
Definition on_devices {A} (m : M (intr D) A) : Prop := ∀ t, wp m (λ _ t', imp t' = imp t) t.

Lemma dev_ret {A} (a : A) : on_devices (mret a).
Proof. intros t. by apply wp_ret. Qed.
Lemma dev_gets {A} (f : intr D → A) : on_devices (gets f).
Proof. intros t. by apply wp_gets. Qed.
Lemma dev_modify f : (∀ t, imp (f t) = imp t) → on_devices (modify f).
Proof. intros H t. by apply wp_modify. Qed.
Lemma dev_bind {A B} (m : M (intr D) A) (k : A → M (intr D) B) :
  on_devices m → (∀ a, on_devices (k a)) → on_devices (m ≫= k).
Proof.
  intros Hm Hk t. apply wp_bind. eapply wp_mono; [apply Hm|]. intros a t1 H1. cbn in *.
  eapply wp_mono; [apply Hk|]. intros b t2 H2. congruence.
Qed.
Lemma dev_for_each {A} (xs : list A) body : (∀ x, on_devices (body x)) → on_devices (for_each xs body).
Proof. intros H. induction xs as [|x xs IH]; cbn [for_each]; [apply dev_ret|]. apply dev_bind; [apply H|done]. Qed.
Lemma dev_outb p v : on_devices (outb p v).
Proof. by apply dev_modify. Qed.
Lemma dev_inb p : on_devices (inb p).
Proof. repeat first [apply dev_bind|intros ?|apply dev_gets|by apply dev_modify|apply dev_ret]. Qed.
Lemma dev_st32 a v : on_devices (st32_dev a v).
Proof. by apply dev_modify. Qed.
Lemma dev_ld32 a : on_devices (ld32_dev a).
Proof. repeat first [apply dev_bind|intros ?|apply dev_gets|by apply dev_modify|apply dev_ret]. Qed.

Lemma dev_uart_wait n : on_devices (uart_wait n).
Proof.
  induction n as [|n IH]; cbn [uart_wait]; [apply dev_ret|].
  apply dev_bind; [apply dev_inb|intros a]. destruct (_ =? 0); [done|apply dev_ret].
Qed.

Ltac on_dev := repeat lazymatch goal with
  | |- on_devices (outb _ _) => apply dev_outb
  | |- on_devices (inb _) => apply dev_inb
  | |- on_devices (st32_dev _ _) => apply dev_st32
  | |- on_devices (ld32_dev _) => apply dev_ld32
  | |- on_devices (uart_wait _) => apply dev_uart_wait
  | |- on_devices (mret _) => apply dev_ret
  | |- on_devices (gets _) => apply dev_gets
  | |- on_devices (modify _) => by apply dev_modify
  | |- on_devices (_ ≫= _) => apply dev_bind; [|intros ?]
  | |- on_devices (for_each _ _) => apply dev_for_each; intros ?
  | |- on_devices (if ?b then _ else _) => destruct b
  | |- on_devices (when ?b _) => destruct b; cbn [when]
  | |- on_devices (picsetmask _) => unfold picsetmask
  | |- on_devices (picenable _) => unfold picenable
  | |- on_devices (ioapicenable _ _) => unfold ioapicenable
  | |- on_devices (ioapicwrite _ _) => unfold ioapicwrite
  | |- on_devices (uartputc _) => unfold uartputc
  end.

Lemma dev_picenable v : on_devices (picenable v).
Proof. unfold picenable. on_dev. Qed.
Lemma dev_ioapicenable irq n : on_devices (ioapicenable irq n).
Proof. unfold ioapicenable, ioapicwrite. on_dev. Qed.
Lemma dev_picinit : on_devices picinit.
Proof. unfold picinit. on_dev. Qed.
Lemma dev_ioapicinit : on_devices ioapicinit.
Proof. unfold ioapicinit, ioapicread, ioapicwrite. on_dev. Qed.
Lemma dev_timerinit : on_devices timerinit.
Proof. unfold timerinit. on_dev. Qed.
Lemma dev_uartinit : on_devices uartinit.
Proof. unfold uartinit. on_dev. Qed.
End Intr.

(** ** A machine without multiprocessor tables *)

Lemma no_mp m a len : 0 ≤ len → p2v a + len ≤ KERNBASE + EXTMEM →
  (∀ b, b < KERNBASE + EXTMEM → rd m b = 0) → mpsearch1 m a len = 0.
Proof.
  intros Hl Ha H0. destruct (mpsearch1_first m a len Hl) as [[E _]|(k & _ & Hk & [Hm _] & _)]; [done|].
  cbn [rd_range] in Hm. injection Hm as Hm _ _ _. rewrite H0 in Hm; [done|]. lia.
Qed.

Lemma no_tables m : (∀ b, b < KERNBASE + EXTMEM → rd m b = 0) → mpconfig m = None.
Proof.
  intros H. unfold mpconfig. enough (mpsearch m = 0) as -> by done. unfold mpsearch.
  rewrite (H (p2v 0x400 + 0x0F)), (H (p2v 0x400 + 0x0E)), (H (p2v 0x400 + 0x14)), (H (p2v 0x400 + 0x13)) by (by vm_compute).
  cbv zeta. change (Z.lor (Z.shiftl 0 8) 0) with 0. change (Z.shiftl 0 4) with 0. cbn [Z.eqb negb Z.mul].
  rewrite (no_mp m (u32 (0 * 1024 - 1024)) 1024), (no_mp m 0xF0000 0x10000); try done; by vm_compute.
Qed.

Section Boot.
Context {D : Type} `{!IoOps D}.
Context (kend data ts_addr idt mpenter_addr entrypgdir : Z) (cpu_addr : Z → Z) (vectors : nat → Z)
  (img : list (list Z)) (code entryother : list Z) (imcr_in : Z) (started : Z → D → bool * D) (fuel : nat).
Context (kend_above : KERNBASE < kend) (data_page : data mod PGSIZE = 0) (data_low : KERNLINK < data)
  (data_high : data < KERNBASE + PHYSTOP).
Abbreviation kend_high := (kend_high kend kend_above).

(** ** The kernel's page table *)

(** Directory [kd] holds the kernel's map, on pages that are not free. *)
Definition kernel_table (m : mem) (kd : Z) (free : list Z) : Prop :=
  pt_ok kend m kd free ∧ ∀ n, 0 ≤ n < 2 ^ 20 → entry m kd n = kernel_entry (kmap data) 0 n.

Lemma kernel_table_frame m m' kd free free' :
  kernel_table m kd free → (∀ b, ¬ foreign m kd [] b → rd m' b = rd m b) →
  (∀ p, p = kd ∨ table_page m kd p → p ∉ free') →
  kernel_table m' kd free' ∧ ∀ p, table_page m' kd p ↔ table_page m kd p.
Proof.
  intros [[[Hd Hdf] Ht Hi] He] Hw Hf. destruct (table_frame m m' kd Hw) as (P & E & _).
  assert (Hh : ∀ i, dir_index i → has m' kd i ↔ has m kd i) by (intros i Hx; unfold has; by rewrite P).
  assert (Hb : ∀ i, dir_index i → tab m' kd i = tab m kd i) by (intros i Hx; unfold tab; by rewrite P).
  split; [split; [split|]|by apply table_page_pde].
  - split; [done|]. apply Hf. by left.
  - intros i Hx Hy. apply (Hh i Hx) in Hy. rewrite Hb by done. destruct (Ht i Hx Hy) as (? & _ & ?).
    split_and!; [done| |done]. apply Hf. right. by exists i.
  - intros i j Hx Hx' Hy Hy'. rewrite !Hb by done. apply Hi; try done; by apply Hh.
  - intros n Hn. rewrite E by done. by apply He.
Qed.

Lemma kvmalloc_run {X} c pm (x : X) free :
  lock_free c pm → kmem_inv kend pm free → 65 < Z.of_nat (length free) →
  ∃ kd pm' free', kvmalloc data (c, (pm, x)) = Ret () (c, (pm', x)) ∧
    kmem_inv kend pm' free' ∧ use_lock pm' = use_lock pm ∧ untouched free pm pm' ∧
    kernel_table (pm_mem pm') kd free' ∧ (∀ p, p ∈ free' ∨ p = kd ∨ table_page (pm_mem pm') kd p ↔ p ∈ free) ∧
    kpgdir (regs pm') = kd ∧ cr3 (regs pm') = v2p kd.
Proof.
  intros Hl Hk Hn.
  destruct (setupkvm_run kend kend_above data data_page data_low data_high c pm x free Hl Hk)
    as (kd & pm1 & free1 & R & K1 & U1 & _ & W1 & [(_ & _ & ?)|(Hd & Hpt & Hp & He & _)]); [lia|].
  eexists kd, (set_regs _ pm1), free1. unfold kvmalloc. rewrite (bind_eq _ _ _ _ _ R).
  split; [reflexivity|]. by split_and!.
Qed.

(** ** The steps of [main] *)

Abbreviation E := (pmem * (bio * (logst * (list inode * (filest * (consst * hw D))))))%type.

(** The hardware with other contents of [irqmask], [uart] and the devices. *)
Definition set_devs (im : Z) (u : bool) (d : D) (h : hw D) : hw D :=
  mkHw (h_bcpu h) (h_ismp h) (h_ncpu h) (h_ids h) (h_ioapicid h) (h_lapic h) (h_imcr h) im u d
    (h_devsw h) (h_idt h) (h_idtr h) (h_cpu h) (h_started h).

Implicit Types (c : core) (pm : pmem) (b : bio) (g : logst) (i : list inode) (f : filest) (o : consst) (h : hw D).

Lemma wp_kernel_start {A} (m : M (intr D) A) Q c pm b g i f o h :
  on_devices m → (∀ a im u d, Q a (c, (pm, (b, (g, (i, (f, (o, set_devs im u d h)))))))) →
  wp (kernel_start m) Q (c, (pm, (b, (g, (i, (f, (o, h))))))).
Proof.
  intros Hm HQ. unfold kernel_start, wp, lift. cbn [lget K_intr]. specialize (Hm (intr_of (pm_mem pm) h)).
  unfold wp in Hm. destruct (m (intr_of (pm_mem pm) h)) as [a t| | |]; try done. cbn [lset K_intr].
  unfold intr_to. rewrite Hm. destruct pm. apply HQ.
Qed.

Lemma wp_hw_mod F Q c pm b g i f o h : Q () (c, (pm, (b, (g, (i, (f, (o, F h))))))) →
  wp (modh F) Q (c, (pm, (b, (g, (i, (f, (o, h))))))).
Proof. done. Qed.
Lemma wp_hw_get {A} (F : hw D → A) Q c pm b g i f o h : Q (F h) (c, (pm, (b, (g, (i, (f, (o, h))))))) →
  wp (geth F) Q (c, (pm, (b, (g, (i, (f, (o, h))))))).
Proof. done. Qed.

Lemma wp_mpinit Q c pm b g i f o h : mpconfig (pm_mem pm) = None → h_bcpu h = 0 →
  Q () (c, (pm, (b, (g, (i, (f, (o, h))))))) → wp (mpinit_k imcr_in fuel) Q (c, (pm, (b, (g, (i, (f, (o, h))))))).
Proof.
  intros Hm Hb HQ. unfold mpinit_k, kernel_start, wp, lift. cbn [lget K_intr intr_mp]. unfold mpinit.
  unfold mbind, M_bind, modify, gets. cbn [imp intr_of mp_mem set_bcpu]. rewrite Hm.
  unfold mret, M_ret. cbn [lset K_intr]. destruct pm, h. cbn in *. by subst.
Qed.

Lemma wp_lapicinit Q c pm b g i f o h : h_lapic h = 0 →
  Q () (c, (pm, (b, (g, (i, (f, (o, h))))))) → wp (kernel_start (lapicinit fuel)) Q (c, (pm, (b, (g, (i, (f, (o, h))))))).
Proof.
  intros Hl HQ. unfold kernel_start, wp, lift. cbn [lget K_intr]. unfold lapicinit, mbind, M_bind, gets.
  cbn [imp intr_of lapic]. rewrite Hl. cbn [Z.eqb]. unfold mret, M_ret. cbn [lset K_intr]. by destruct pm, h.
Qed.

Lemma wp_seginit Q c pm b g i f o h : h_lapic h = 0 →
  (∀ r, kpgdir r = kpgdir (regs pm) → cr3 r = cr3 (regs pm) →
    Q () (set_cur None c, (set_regs r pm, (b, (g, (i, (f, (o, set_h_cpu 0 h)))))))) →
  wp (seginit_k cpu_addr) Q (c, (pm, (b, (g, (i, (f, (o, h))))))).
Proof.
  intros Hl HQ. unfold seginit_k. apply wp_bind. unfold kernel_start, wp, lift. cbn [lget K_intr].
  unfold cpunum, mbind at 1, M_bind at 1, gets at 1. cbn [imp intr_of lapic]. rewrite Hl. cbn [Z.eqb negb].
  unfold mret, M_ret. cbn [lset K_intr]. replace (set_mem _ pm) with pm by by destruct pm.
  replace (intr_to _ h) with h by by destruct h. by apply HQ.
Qed.

Lemma wp_cprintf fmt args out Q c pm b g i f o h :
  cprintf_out fmt args = Some out → panicked o = false → locks c = ∅ →
  (∀ o', shown (concat (sent <$> out)) o o' → Q () (c, (pm, (b, (g, (i, (f, (o', h)))))))) →
  wp (Console.cprintf (LX := K_cons) fmt args) Q (c, (pm, (b, (g, (i, (f, (o, h))))))).
Proof.
  intros Ho Hp Hl HQ.
  assert (Sep : Separate (core * E) (lens_fst (L := lens_id core)) (K_cons (D := D))).
  { split; intros; repeat match goal with p : _ * _ |- _ => destruct p end; done. }
  destruct (cprintf_run (LC := lens_fst (L := lens_id core)) (LX := K_cons) (Sep := Sep) fmt args out c o
    (c, (pm, (b, (g, (i, (f, (o, h)))))))) as (o' & R & S); [done|done|by rewrite Hl|].
  unfold wp. cbn in R. rewrite R. by apply HQ.
Qed.

Lemma wp_consoleinit Q c pm b g i f o h :
  (∀ im u d, Q () (c, (pm, (b, (g, (i, (f, (set_locking true o, set_devs im u d
     (set_h_devsw (<[CONSOLE := (Consoleread, Consolewrite)]> (h_devsw h)) h))))))))) →
  wp consoleinit_k Q (c, (pm, (b, (g, (i, (f, (o, h))))))).
Proof.
  intros HQ. unfold consoleinit_k. apply wp_lift. cbn [lget K_console]. unfold consoleinit.
  apply wp_bind, wp_modify, wp_bind, wp_modify. cbn [fst snd]. apply wp_bind, wp_lift. cbn [lget lens_snd snd].
  eapply wp_mono; [apply dev_picenable|]. intros [] t1 H1. cbn in H1. apply wp_lift. cbn [lget lset lens_snd fst snd].
  eapply wp_mono; [apply dev_ioapicenable|]. intros [] t2 H2. cbn in H2. cbn [lset lens_snd K_console fst snd].
  unfold intr_to. rewrite H2, H1. destruct pm. apply HQ.
Qed.

(** Without other processors, [startothers] only copies their code. *)
Lemma wp_startothers Q c pm b g i f o h : h_ncpu h = 0 →
  Q () (c, (set_mem (wr_range (pm_mem pm) (p2v 0x7000) entryother) pm, (b, (g, (i, (f, (o, h))))))) →
  wp (startothers mpenter_addr entrypgdir entryother started fuel) Q (c, (pm, (b, (g, (i, (f, (o, h))))))).
Proof.
  intros Hn HQ. unfold startothers. apply wp_bind. unfold modm. apply wp_modify, wp_bind, wp_hw_get. rewrite Hn. by apply wp_ret.
Qed.

Definition starting_xv6 : list Z := [NL] ++ chars "cpu0: starting xv6" ++ [NL; NL].
Definition starting : list Z := chars "cpu0: starting" ++ [NL].

Lemma wp_mpmain Q c pm b g i f o h :
  h_cpu h = 0 → h_ids h !! 0%nat = Some 0 → panicked o = false → locks c = ∅ →
  (∀ o', shown (concat (sent <$> starting)) o o' →
     Q () (c, (pm, (b, (g, (i, (f, (o', set_h_started (<[0%nat := true]> (h_started h)) (set_h_idtr (idtinit idt) h))))))))) →
  wp (mpmain idt) Q (c, (pm, (b, (g, (i, (f, (o, h))))))).
Proof.
  intros Hc Hi Hp Hl HQ. unfold mpmain, cpu_id_k. apply wp_bind, wp_bind, wp_hw_get, wp_bind, wp_hw_get.
  rewrite Hc. change (Z.to_nat 0) with 0%nat. rewrite Hi. eapply wp_deref; [reflexivity|].
  apply wp_bind. eapply (wp_cprintf _ _ starting); [reflexivity|done|done|]. intros o' Ho.
  apply wp_bind, wp_hw_mod, wp_bind, wp_hw_get. cbn [h_cpu set_h_idtr]. rewrite Hc. apply wp_hw_mod. by apply HQ.
Qed.

(** What the kernel is when [main] calls [scheduler]: its own page directory
    [kd], the first process with kernel stack [k] and page directory [d], and
    [free] pages. *)
Record up (kd k d : Z) (free : list Z) (pm : pmem) (o : consst) (h : hw D) : Prop := {
  up_free : kmem_inv kend pm free;
  up_lock : use_lock pm = true;
  up_kernel : kernel_table (pm_mem pm) kd free;
  up_cr3 : kpgdir (regs pm) = kd ∧ cr3 (regs pm) = v2p kd;
  up_first : ∃ free0, first_space kend data code k d (pm_mem pm) free0 free;
  up_pages p : p ∈ free ∨ (p = kd ∨ table_page (pm_mem pm) kd p) ∨ p = k ∨ owned (pm_mem pm) d p ↔ page_ok kend p;
  up_apart p : p = kd ∨ table_page (pm_mem pm) kd p → p ≠ k ∧ ¬ owned (pm_mem pm) d p;
  up_console : shown (concat (sent <$> starting_xv6 ++ starting)) (set_locking true cons0) o;
  up_traps : h_idt h = tvinit vectors ∧ h_idtr h = idtinit idt;
  up_devsw : h_devsw h !! CONSOLE = Some (Consoleread, Consolewrite);
  up_started : h_started h !! 0%nat = Some true }.

(** The pages from the end of the kernel on: those of [kinit1] and of [kinit2]. *)
Lemma pages_all p : kend + 67 * PGSIZE ≤ p2v (4 * 1024 * 1024) →
  p ∈ pages_between (p2v (4 * 1024 * 1024)) (p2v PHYSTOP) ++ pages_between kend (p2v (4 * 1024 * 1024)) ↔ page_ok kend p.
Proof.
  change (p2v (4 * 1024 * 1024)) with 0x80400000. change (p2v PHYSTOP) with 0x8E000000.
  intros H. unfold KERNBASE, PGSIZE in *. rewrite elem_of_app, !pages_between_iff by (unfold PGSIZE; lia).
  unfold page_ok, PGSIZE, KERNBASE, PHYSTOP. change (0x80000000 + 0xE000000) with 0x8E000000.
  assert (Hm : p mod 4096 = 0 → p < 0x8E000000 → p + 4096 ≤ 0x8E000000).
  { intros Hm Hp. pose proof (Z.div_mod p 4096 ltac:(done)). lia. }
  assert (Hm' : p mod 4096 = 0 → p < 0x80400000 → p + 4096 ≤ 0x80400000).
  { intros Hm2 Hp. pose proof (Z.div_mod p 4096 ltac:(done)). lia. }
  split; [lia|]. intros (H1 & H2 & H3). destruct (decide (0x80400000 ≤ p)); [left|right]; auto with lia.
Qed.

(** The two messages on the console. *)
Lemma shown_booted o o' : shown (concat (sent <$> starting_xv6)) cons0 o →
  shown (concat (sent <$> starting)) (set_locking true o) o' →
  shown (concat (sent <$> starting_xv6 ++ starting)) (set_locking true cons0) o'.
Proof.
  intros [] S2. rewrite fmap_app, concat_app. eapply shown_trans; [|exact S2]. by constructor.
Qed.

(** The kernel's page table is still there after [userinit]. *)
Lemma table_kept m m' kd free free' :
  Forall (page_ok kend) free → kernel_table m kd free →
  (∀ a : Z, (∀ p, p ∈ free → ¬ in_page p a) → rd m' a = rd m a) → (∀ p, p ∈ free' → p ∈ free) →
  kernel_table m' kd free' ∧ ∀ p, table_page m' kd p ↔ table_page m kd p.
Proof.
  intros Hf Ht Hw Hs. pose proof Ht as [[[Hd Hdf] Htab _] _]. rewrite list.Forall_forall in Hf.
  apply (kernel_table_frame m m' kd free free'); [done| |].
  - intros a Hb. apply Hw. intros p Hp Hpb. apply Hb. split_and!.
    + intros Hdb. apply Hdf. replace kd with p; [done|]. eapply pages_share; eauto.
    + intros i Hi Hh Hib. destruct (Htab i Hi Hh) as (Hto & Htf & _). apply Htf.
      replace (tab m kd i) with p; [done|]. eapply pages_share; eauto.
    + by intros q ?%elem_of_nil.
  - intros p Hp ?%Hs. destruct Hp as [->|(i & Hi & Hh & <-)]; [done|].
    by destruct (Htab i Hi Hh) as (_ & ? & _).
Qed.

Lemma wp_binit Q c pm disk g i f o h :
  Q () (c, (pm, (mkBio init_bufs disk [], (g, (i, (f, (o, h))))))) →
  wp (files binit) Q (c, (pm, (bio0 disk, (g, (i, (f, (o, h))))))).
Proof.
  intros HQ. unfold files. apply wp_lift. cbn [lget K_KF to_files]. eapply wp_run; [apply binit_run|]. exact HQ.
Qed.

(** The state the loader leaves: zeroed data, and the memory [m]. *)
Definition at_entry (m : mem) (dv : D) : core * E :=
  (core0, (mkPmem m 0 false mmu0, (bio0 [], (log0, (icache0, (files0, (cons0, hw0 dv))))))).
Definition at_scheduler (k d : Z) pm o h : core * E :=
  (first_core k d, (pm, (mkBio init_bufs img [], (log0, (icache_root, (files0, (o, h))))))).

(** The tables of a kernel directory are not free. *)
Lemma kernel_table_apart m kd free p : kernel_table m kd free → p = kd ∨ table_page m kd p → p ∉ free ∧ page_ok kend p.
Proof.
  intros [[[Hd Hf] Ht _] _] [->|(i & Hi & Hh & <-)]; [done|]. by destruct (Ht i Hi Hh) as (? & ? & _).
Qed.

#[local] Opaque pages_between.
(** [kinit2] gives more pages to free and leaves the kernel's table. *)
Lemma kinit2_kept {Y} c pm (y : Y) kd free :
  let top := p2v (4 * 1024 * 1024) in
  kend + 67 * PGSIZE ≤ top → use_lock pm = false → kmem_inv kend pm free → kernel_table (pm_mem pm) kd free →
  (∀ p, p ∈ free ∨ p = kd ∨ table_page (pm_mem pm) kd p ↔ p ∈ pages_between kend top) →
  let free2 := pages_between top (p2v PHYSTOP) ++ free in
  ∃ pm', kinit2 kend top (p2v PHYSTOP) (c, (pm, y)) = Ret () (c, (pm', y)) ∧
    kmem_inv kend pm' free2 ∧ use_lock pm' = true ∧ regs pm' = regs pm ∧ kernel_table (pm_mem pm') kd free2 ∧
    (∀ p, p ∈ free2 ∨ p = kd ∨ table_page (pm_mem pm') kd p ↔ page_ok kend p).
Proof.
  intros top Hkend Hu Hk Ht Hp free2. pose proof kend_high as Hkh.
  assert (Htop : top = 0x80400000) by done. assert (Hphys : p2v PHYSTOP = 0x8E000000) by done.
  assert (Hlow : ∀ p, p ∈ free ∨ p = kd ∨ table_page (pm_mem pm) kd p → kend ≤ p ∧ p + PGSIZE ≤ top).
  { intros p Hq. apply Hp, pages_between_iff in Hq; unfold KERNBASE, PGSIZE in *; lia. }
  destruct (kinit2_run kend kend_high top (p2v PHYSTOP) c pm y free) as (pm' & R & I & U & G & F); try done.
  { intros H. by rewrite Hu in H. } { unfold PGSIZE in *. lia. }
  { intros q Hq. apply Hlow. by left. }
  assert (Hin : ∀ a : Z, ¬ foreign (pm_mem pm) kd [] a → a < top).
  { intros a Ha. destruct (decide (a < top)) as [|Hge]; [done|]. destruct Ha. split_and!.
    - intros Hpa. destruct (Hlow kd ltac:(auto)). unfold in_page in Hpa. lia.
    - intros i Hi Hh Hpa. destruct (Hlow (tab (pm_mem pm) kd i)) as [_ ?]; [right; right; by exists i|].
      unfold in_page in Hpa. lia.
    - by intros q ?%elem_of_nil. }
  destruct (kernel_table_frame (pm_mem pm) (pm_mem pm') kd free free2 Ht) as [T Tp].
  { intros a Ha%Hin. apply F. by left. }
  { intros p Hq. unfold free2. rewrite elem_of_app. intros [Hq2|Hq2].
    - apply pages_between_iff in Hq2; [|unfold PGSIZE in *; lia..]. destruct (Hlow p ltac:(auto)). unfold PGSIZE in *. lia.
    - by destruct (kernel_table_apart _ _ _ p Ht Hq). }
  exists pm'. split_and!; try done. intros p. rewrite Tp, <-(pages_all p Hkend). unfold free2. rewrite !elem_of_app.
  fold top. rewrite <-Hp. tauto.
Qed.

(** What is written below the kernel's end leaves the pages alone. *)
Lemma low_write_kept pm m' r kd free :
  kmem_inv kend pm free → kernel_table (pm_mem pm) kd free → (∀ a, kend ≤ a → rd m' a = rd (pm_mem pm) a) →
  kmem_inv kend (set_mem m' (set_regs r pm)) free ∧ kernel_table m' kd free ∧
  ∀ p, table_page m' kd p ↔ table_page (pm_mem pm) kd p.
Proof.
  intros [Hl Hnd] Ht Hw. split; [split; [|done]|].
  - cbn [pm_mem freelist set_mem set_regs]. eapply (linked_ext kend kend_high); [|exact Hl]. intros p Hp.
    apply ld32_ext. intros a Ha. apply Hw. destruct (linked_ok kend kend_high _ _ _ p Hl Hp) as (_ & ? & _). lia.
  - apply (kernel_table_frame (pm_mem pm) m' kd free free Ht).
    + intros a Ha. apply Hw. destruct (decide (kend ≤ a)) as [|Hlt]; [done|]. destruct Ha. split_and!.
      * intros Hpa. destruct (kernel_table_apart _ _ _ kd Ht) as [_ (_ & ? & _)]; [by left|]. unfold in_page in Hpa. lia.
      * intros i Hi Hh Hpa. destruct (kernel_table_apart _ _ _ (tab (pm_mem pm) kd i) Ht) as [_ (_ & ? & _)];
          [right; by exists i|]. unfold in_page in Hpa. lia.
      * by intros q ?%elem_of_nil.
    + intros p Hp. by apply (kernel_table_apart _ _ _ p Ht).
Qed.

(** The end of [main], with one processor: the rest of memory, the first process,
    the trap table and the second message. *)
Lemma boot_tail pm kd free o1 o h :
  kend + 67 * PGSIZE ≤ p2v (4 * 1024 * 1024) → Z.of_nat (length code) < PGSIZE →
  use_lock pm = false → kmem_inv kend pm free → kernel_table (pm_mem pm) kd free →
  (∀ p, p ∈ free ∨ p = kd ∨ table_page (pm_mem pm) kd p ↔ p ∈ pages_between kend (p2v (4 * 1024 * 1024))) →
  kpgdir (regs pm) = kd → cr3 (regs pm) = v2p kd →
  shown (concat (sent <$> starting_xv6)) cons0 o1 → o = set_locking true o1 →
  h_cpu h = 0 → h_ids h !! 0%nat = Some 0 → h_idt h = tvinit vectors → (0 < length (h_started h))%nat →
  h_devsw h !! CONSOLE = Some (Consoleread, Consolewrite) →
  wp (kinit2 kend (p2v (4 * 1024 * 1024)) (p2v PHYSTOP) ;;
      @userinit _ (kernel_env kend data ts_addr) code ;; mpmain idt)
    (λ _ s, ∃ kd k d free pm o h, s = at_scheduler k d pm o h ∧ up kd k d free pm o h ∧
      ∀ s', rtc (@pstep _ (kernel_env kend data ts_addr)) s s' → wf (fst s'))
    (core0, (pm, (mkBio init_bufs img [], (log0, (icache0, (files0, (o, h))))))).
Proof.
  intros Hkend Hcode Hu Hk Ht Hp Hr1 Hr2 Ho1 -> Hcpu Hid Hidt Hst Hdev.
  destruct (kinit2_kept core0 pm (mkBio init_bufs img [], (log0, (icache0, (files0, (set_locking true o1, h))))) kd free)
    as (pm1 & R1 & I1 & U1 & G1 & T1 & P1); [done..|].
  set (free1 := pages_between _ _ ++ free) in *.
  apply wp_bind. eapply wp_run; [exact R1|]. clear R1. cbn beta.
  assert (Hlen : 69 ≤ Z.of_nat (length free1)).
  { unfold free1. rewrite length_app. pose proof (pages_between_length (p2v (4 * 1024 * 1024)) (p2v PHYSTOP)
      ltac:(done) ltac:(done) ltac:(done)) as Hl. change (p2v PHYSTOP - _) with 0xDC00000 in Hl. unfold PGSIZE in Hl. lia. }
  destruct (userinit_run kend data ts_addr kend_above data_page data_low data_high code pm1 (mkBio init_bufs img []) log0
    files0 (set_locking true o1) h free1 I1 Hlen Hcode) as (k & d & pm2 & free2 & R2 & I2 & U2 & G2 & W2 & S2 & P2).
  apply wp_bind. eapply wp_run; [exact R2|]. clear R2. cbn beta.
  apply wp_mpmain; [done|done|exact (s_alive _ _ _ Ho1)|done|]. intros o' Ho'.
  exists kd, k, d, free2, pm2. eexists o', _. split; [reflexivity|].
  assert (Hwf : wf (first_core k d)) by exact (P2 _ (rtc_refl _ _)).
  split; [|intros s' Hs; by apply (@wf_steps _ (kernel_env kend data ts_addr) (kernel_env_ok kend data ts_addr) _ _ Hs)].
  pose proof (fs_pages _ _ _ _ _ _ _ _ S2) as Hpg.
  destruct (table_kept (pm_mem pm1) (pm_mem pm2) kd free1 free2) as [T2 Tp2]; [|exact T1|exact W2| |].
  { apply list.Forall_forall. intros p Hq. eapply (linked_ok kend kend_high); [apply I1|done]. }
  { intros p Hq. apply Hpg. by left. }
  constructor.
  - exact I2.
  - by rewrite U2.
  - exact T2.
  - rewrite G2, G1. by split.
  - exists free1. exact S2.
  - intros p. rewrite Tp2, <-P1, <-Hpg. tauto.
  - intros p Hq. rewrite Tp2 in Hq. destruct (kernel_table_apart _ _ _ p T1 Hq) as [Hf _]. split.
    + intros ->. apply Hf, Hpg. tauto.
    + intros Ho. apply Hf, Hpg. tauto.
  - by apply (shown_booted o1).
  - split; [exact Hidt|reflexivity].
  - exact Hdev.
  - cbn [h_started set_h_started set_h_idtr]. by apply list_lookup_insert_eq.
Qed.

(** The memory after the page table is made: the pages up to 4 MB are free or
    the table's, and the low memory is as the loader left it. *)
Lemma early_memory {Y} m (y : Y) : let top := p2v (4 * 1024 * 1024) in
  kend + 67 * PGSIZE ≤ top → data ≤ kend →
  ∃ pm1 kd pm2 free,
    kinit1 kend kend top (core0, (mkPmem m 0 false mmu0, y)) = Ret () (core0, (pm1, y)) ∧
    kvmalloc data (core0, (pm1, y)) = Ret () (core0, (pm2, y)) ∧
    use_lock pm2 = false ∧ kmem_inv kend pm2 free ∧ kernel_table (pm_mem pm2) kd free ∧
    (∀ p, p ∈ free ∨ p = kd ∨ table_page (pm_mem pm2) kd p ↔ p ∈ pages_between kend top) ∧
    kpgdir (regs pm2) = kd ∧ cr3 (regs pm2) = v2p kd ∧
    ∀ a : Z, a < KERNBASE + EXTMEM → rd (pm_mem pm2) a = rd m a.
Proof.
  intros top Hkend Hde. pose proof kend_high as Hkh. assert (Htop : top = 0x80400000) by done.
  destruct (kinit1_run kend kend_high kend top core0 (mkPmem m 0 false mmu0) y)
    as (pm1 & R1 & I1 & U1 & _ & F1); try done.
  { unfold PGSIZE in *. lia. }
  assert (Hlen1 : 65 < Z.of_nat (length (pages_between kend top))).
  { pose proof (pages_between_length kend top) as Hl. unfold PGSIZE, KERNBASE in *.
    specialize (Hl ltac:(lia) ltac:(lia) ltac:(lia)). lia. }
  destruct (kvmalloc_run core0 pm1 y (pages_between kend top))
    as (kd & pm2 & free1 & R2 & I2 & U2 & F2 & T2 & P2 & G1 & G2); [by intros ?|done|done|].
  exists pm1, kd, pm2, free1. rewrite U2. split_and!; try assumption.
  intros a Ha. unfold KERNLINK in *. rewrite F2; [apply F1; left; lia|].
  intros p Hp Hpa. apply pages_between_iff in Hp; unfold in_page, KERNBASE, PGSIZE in *; lia.
Qed.

(** C4. The kernel comes up.  On a machine with one processor, from the state the
    loader leaves, with any devices that answer and no multiprocessor tables in
    the memory of the BIOS, [main] gets to its call of [scheduler].  Then every
    page from the end of the kernel to [PHYSTOP] is a free page, belongs to the
    kernel's page table, or belongs to the first process, and to one of them
    only; the kernel's table, which is in [%cr3], maps the kernel; the first
    process is ready to run its image; the buffer cache is empty, the inode cache
    holds the root directory; locks are free and the allocator's is in use; the
    trap table is set and loaded, the console is connected and has shown the two
    messages.  Whatever process operations run from there, the process table
    stays well formed. *)
Theorem main_boots m dv :
  kend + 67 * PGSIZE ≤ p2v (4 * 1024 * 1024) → Z.of_nat (length code) < PGSIZE →
  0x7000 + Z.of_nat (length entryother) ≤ EXTMEM → data ≤ kend →
  (∀ m', (∀ a, a < KERNBASE + EXTMEM → rd m' a = rd m a) → mpconfig m' = None) →
  ∃ kd k d free pm o h,
    main kend data ts_addr idt mpenter_addr entrypgdir cpu_addr vectors img code entryother imcr_in started fuel
      (at_entry m dv) = Ret () (at_scheduler k d pm o h) ∧
    up kd k d free pm o h ∧
    ∀ s, rtc (@pstep _ (kernel_env kend data ts_addr)) (at_scheduler k d pm o h) s → wf (fst s).
Proof.
  intros Hkend Hcode Hother Hde Hbios.
  enough (wp (main kend data ts_addr idt mpenter_addr entrypgdir cpu_addr vectors img code entryother imcr_in started fuel)
    (λ _ s, ∃ kd k d free pm o h, s = at_scheduler k d pm o h ∧ up kd k d free pm o h ∧
      ∀ s', rtc (@pstep _ (kernel_env kend data ts_addr)) s s' → wf (fst s')) (at_entry m dv)) as W.
  { apply wp_Ret in W as ([] & s & R & kd & k & d & free & pm & o & h & -> & U & P).
    exists kd, k, d, free, pm, o, h. by split_and!. }
  destruct (early_memory m (bio0 [], (log0, (icache0, (files0, (cons0, hw0 dv)))))) as
    (pm1 & kd & pm2 & free1 & R1 & R2 & U2 & I2 & T2 & P2 & G1 & G2 & Hlow); [exact Hkend|exact Hde|].
  unfold main, at_entry. eapply wp_bind, wp_run; [exact R1|]. eapply wp_bind, wp_run; [exact R2|]. cbn beta.
  apply wp_bind, wp_mpinit; [by apply Hbios|done|]. apply wp_bind, wp_lapicinit; [done|].
  apply wp_bind, wp_seginit; [done|]. intros r Hr1 Hr2. change (set_cur None core0) with core0.
  apply wp_bind. unfold cpu_id_k. apply wp_bind, wp_hw_get, wp_bind, wp_hw_get. eapply wp_deref; [reflexivity|].
  apply wp_bind. eapply (wp_cprintf _ _ starting_xv6); [reflexivity|done|done|]. intros o1 Ho1.
  apply wp_bind, wp_kernel_start; [apply dev_picinit|]. intros _ ? ? ?.
  apply wp_bind, wp_kernel_start; [apply dev_ioapicinit|]. intros _ ? ? ?.
  apply wp_bind, wp_consoleinit. intros ? ? ?.
  apply wp_bind, wp_kernel_start; [apply dev_uartinit|]. intros _ ? ? ?.
  apply wp_bind, wp_hw_mod, wp_bind, wp_binit, wp_bind. unfold ideinit, files at 1. apply wp_lift.
  cbn [lget K_KF to_files]. apply wp_modify. cbn [lset K_KF of_files fst snd bufs dtrace].
  apply wp_bind, wp_hw_get. cbn [h_ismp set_h_idt set_devs set_h_devsw set_h_cpu hw0 negb when].
  apply wp_bind, wp_kernel_start; [apply dev_timerinit|]. intros _ ? ? ?.
  apply wp_bind, wp_startothers; [done|]. cbn [pm_mem set_regs].
  destruct (low_write_kept pm2 (wr_range (pm_mem pm2) (p2v 0x7000) entryother) r kd free1 I2 T2) as (I3 & T3 & Tp3).
  { intros a Ha. rewrite rd_wr_range, decide_False; [done|]. change (p2v 0x7000) with 0x80007000.
    pose proof kend_high. unfold KERNLINK, KERNBASE, EXTMEM in *. lia. }
  eapply (boot_tail _ kd free1 o1); try exact Hcode; try exact Ho1; cbn [use_lock set_mem set_regs regs pm_mem].
  - exact Hkend.
  - exact U2.
  - exact I3.
  - exact T3.
  - intros p. rewrite Tp3. apply P2.
  - rewrite <-G1. exact Hr1.
  - rewrite <-G2. exact Hr2.
  - reflexivity.
  - reflexivity.
  - reflexivity.
  - reflexivity.
  - apply Nat.lt_0_succ.
  - cbn [h_devsw set_devs set_h_idt set_h_devsw]. apply lookup_insert_eq.
Qed.
End Boot.

(** ** A machine with memory that is zero and devices that answer 0 *)

#[local] Instance no_devices : IoOps unit :=
  {| io_out _ _ d := d; io_in _ d := (0, d); mm_w _ _ d := d; mm_r _ d := (0, d) |}.

Lemma main_boots_witness :
  ∃ kd k d free pm o h,
    main kend0 data0 0 0x80112000 0x801031c0 0x8010a000 (λ _, 0x80111000) (λ i, 0x80106000 + Z.of_nat i) []
      initcode [0xfa; 0x31; 0xc0] 0 (λ _ d, (true, d)) 10 (at_entry ∅ ()) = Ret () (at_scheduler [] k d pm o h) ∧
    up kend0 data0 0x80112000 (λ i, 0x80106000 + Z.of_nat i) initcode kd k d free pm o h ∧
    ∀ s, rtc (@pstep _ (kernel_env kend0 data0 0)) (at_scheduler [] k d pm o h) s → wf (fst s).
Proof.
  apply (main_boots kend0 data0 0 0x80112000 0x801031c0 0x8010a000 (λ _, 0x80111000) (λ i, 0x80106000 + Z.of_nat i) []
    initcode [0xfa; 0x31; 0xc0] 0 (λ _ d, (true, d)) 10 eq_refl eq_refl eq_refl eq_refl ∅ ()).
  - by vm_compute.
  - done.
  - by vm_compute.
  - by vm_compute.
  - intros m' H. apply no_tables. exact H.
Defined.
